(* ===== verification/_CoqProject ===== *)
-Q . S2P
Prelude.v
Checksum.v
Flash.v
Tickv.v
TickvLog.v
TickvSpec.v
TickvGc.v
TickvOps.v
TickvMount.v
TickvRefine.v
TickvThm.v
TickvScan.v
TicketLock.v
EventBus.v
EventStamp.v
EventTopics.v
AgentBudget.v
AgentCore.v
AgentThm.v
AgentSched.v
NfsNode.v
NfsRep.v
NfsFormat.v
NfsVolume.v
NfsFiles.v
NfsDisk.v
NfsSuper.v
NfsJournal.v
NfsAlloc.v
NfsTree.v
NfsCow.v
NfsInsert.v
NfsSplit.v
NfsMap.v
NfsCreate.v
NfsLimits.v
NfsFaults.v
Art.v
ArtShape.v
ArtThm.v
SgdbDoc.v
SgdbDocThm.v
BqIndex.v
Mpmc.v
NfsWrite.v
FrameAlloc.v
FrameAllocThm.v
FrameAllocSpec.v
FrameAllocRun.v
Vfs.v
VfsThm.v
VfsFd.v
MeshWire.v
SgdbCrdt.v
MeshPeers.v
MeshFrag.v
MeshFragThm.v
MeshFragRun.v
MeshAuth.v
ShaFips.v
MeshChunk.v
MeshChunkThm.v
MeshEngine.v
MeshRx.v
MeshRxThm.v
MeshRxRun.v
