(* ===== verification/Prelude.v ===== *)
(** * Verification of the neural-os-core kernel crates

    The program is a bare-metal operating system in Rust whose processes are
    cooperative "agents". Its core logic lives in a few crates:

    - [crates/agent-core]: the agent registry and the cooperative scheduler that
      polls every agent once per cycle, with budgets, a watchdog, hooks, crews of
      agents with task dependencies, and state graphs;
    - [crates/event-bus]: how agents talk. A publish/subscribe bus with bounded
      queues, mailboxes, capability tokens and an audit chain of hashed stamps;
    - [crates/ticket-lock]: the FIFO spinlock that guards the shared state;
    - [crates/k_nano/src/storage]: TickvLite, a log-structured key-value store, and
      the flash backends under it (RAM, an NVMe region, the sectors of a FAT file);
    - [crates/k_nano/src/neural_fs]: NeuralFS, a copy-on-write file system: a B-tree
      of 4 KiB checksummed nodes, a journal, a free list and two superblocks;
    - [crates/k_nano/src/vfs]: the mount table, paths and file descriptors;
    - [crates/k_nano/src/memory.rs]: the physical frame allocator;
    - [crates/k_nano/src/sync/mpmc.rs]: the bounded lock-free queue between cores;
    - [crates/k_nano/src/net] with [crypto.rs], [identity.rs] and [tpm.rs]: the
      peer-to-peer mesh of several machines on a network segment: signed or sealed
      packets in UDP broadcasts, fragmentation, peer tables, election of a master;
    - [crates/k_ai/src/sgdb]: the semantic graph database: a radix tree of keys,
      binary memory documents, replication between workers and an index of
      quantised vectors.

    ** Files

    - [Prelude]: bytes, slices, machine integers with the wrap-around of the release
      profile ([u64_add], [u64_sub], [u32_sat_add], ...), the result type [res]
      (Ok, Err, Panic), the state-and-error monad [M] of the stateful components and
      the shared list lemmas, tactics and hint databases.
    - [Checksum]: [crc32] of [storage/tickv.rs], [neural_fs/checksum.rs] (table,
      streaming, block verification) and the FNV-1a step.
    - [Flash]: [storage/flash.rs]. The trait [FlashController] is a class; the class
      [FlashLaws] states what the store relies on (a read inside the volume returns
      its bytes, a write patches them); [RamFlash], [FileFlash] and [ActiveFlash]
      discharge it. A disk behind [FileFlash] is any instance of [BlockDevice] with
      the laws [DiskLaws].
    - [Tickv]: [storage/tickv.rs], function by function, over a [World] made of the
      store, the flash and the module's global flags. [TickvLog] (the log a volume
      holds), [TickvSpec] and [TickvGc] (what each operation does to it), [TickvOps]
      (operations as steps of a map), [TickvMount] (checkpoints and recovery),
      [TickvRefine] (the abstract map and runs of commands), [TickvThm] and
      [TickvScan] (theorems).
    - [TicketLock]: [ticket-lock/src/lib.rs] as a transition system, one action per
      atomic access.
    - [EventBus]: [capability.rs], [channel.rs], [message_bus.rs]; [EventStamp]:
      [stamp.rs]; [EventTopics]: [bus.rs], [event.rs] and [latent.rs].
    - [AgentBudget]: modules [Budget] ([budget.rs]), [Hooks] ([hooks.rs]), [Crews]
      ([crew.rs]) and [Graph] ([state_graph.rs]); [AgentCore]: registry and scheduler
      of [agent-core/src/lib.rs]; [AgentThm]: lemmas on one poll and one cycle;
      [AgentSched]: the scheduler's theorems.
    - NeuralFS. [NfsNode]: [btree.rs] byte by byte; [NfsFormat]: [superblock.rs],
      [inode.rs], [dir.rs]; [NfsVolume]: [journal.rs] and the allocator, tree and
      transactions of [volume.rs] as operations on a [World] (the volume in memory and
      its device); [NfsFiles]: [MemoryDisk], directories and file contents. The proofs
      climb from bytes to maps: [NfsRep] (a node is a sorted list of items), [NfsDisk]
      (blocks of a device that obeys [DiskLaws]), [NfsSuper] (formats), [NfsJournal]
      (commit and mount), [NfsAlloc] (the allocator), [NfsTree] (trees of nodes stored
      on a disk), [NfsCow] and [NfsInsert] (copying the path to a leaf), [NfsSplit]
      (splitting leaves and inner nodes), [NfsMap] (the mounted volume as a map),
      [NfsCreate] (file creation), [NfsWrite] (file contents), [NfsLimits] (journal
      capacity) and [NfsFaults] (sequences that lose data).
    - [Vfs]: modules [Path] ([vfs/path.rs]), [Vfs] ([vfs/mod.rs]: mount table and
      resolution) and [Fd] ([vfs/fd.rs] over the file system trait, a class);
      [VfsThm]: paths and mounts; [VfsFd]: descriptors as byte streams.
    - [FrameAlloc]: the two-level bitmap, the low-memory pool and the allocation
      functions of [memory.rs]; the frame type of the [x86_64] crate is the class
      [PhysFrames] with the laws [PhysFrameLaws]. [FrameAllocThm]: bits, searches and
      spans; [FrameAllocSpec]: the invariant [pmm_ok] and one lemma per operation;
      [FrameAllocRun]: the abstract allocator and runs of commands.
    - [Mpmc]: [sync/mpmc.rs] as a sequentially consistent interleaving, one step per
      atomic access.
    - SGDB. [Art]: [art.rs], the adaptive radix tree with its four node sizes;
      [ArtShape] (child tables, growing and shrinking) and [ArtThm] (the tree as a
      map). [SgdbDoc]: the memory documents of [memory_doc.rs] and their encoding;
      [SgdbDocThm]: decoding. [SgdbCrdt]: merge and conflict resolution of
      [crdt_merge.rs] and [crdt_sync.rs]. [BqIndex]: binary quantisation ([bq.rs]), the
      Hamming kernels of [hamming_dispatch.rs] and the top-k search.

    - Mesh. [MeshWire]: packet headers ([noproto.rs]) and frames ([udp_broadcast.rs]);
      [MeshPeers]: the tables of keys, addresses, capabilities and health of
      [mesh.rs], with the rate limit and the circuit breaker; [MeshFrag]:
      [send_fragmented] and [recv_fragmented], [MeshFragThm] (the reassembly table)
      and [MeshFragRun] (from sender to receiver); [MeshAuth]: SHA-256 ([tpm.rs];
      [ShaFips] has the standard's definition and the equality), HMAC and sealing
      ([crypto.rs]) and sessions ([identity.rs]), over classes for the Ed25519 and
      ChaCha20-Poly1305 crates with the laws [CryptoLaws]; [MeshChunk] and
      [MeshChunkThm]: large payloads ([mesh_send_large], [chunk_reassemble]);
      [MeshEngine]: [BrainMeshEngine], with its [f32] scores as IEEE 754 floats;
      [MeshRx]: [p2p_tick], [mesh_tick] and [probe_node], that is heartbeats, the gate
      every received packet passes and the delivery of what passes; [MeshRxThm]: what
      the gate lets through; [MeshRxRun]: from one node to another.

    ** What the theorems show

    Storage. On every flash that obeys [FlashLaws], TickvLite refines a finite map
    over any sequence of puts, batches, deletes, gets, compactions and power cycles
    ([store_is_a_map]) that leaves half of a volume of up to 2 MiB free, with non-empty
    values, distinct keys in a batch and a mount that meets its deadline; what remains
    true when the volume fills up is stated without a space assumption
    ([store_full_spec]). Corruption of a record's body is
    reported, never returned ([get_detects_corruption]). Recovery terminates on
    arbitrary bytes and the offline scanner agrees with the store. The FAT-file
    backend is a contiguous volume. The table-driven CRC is the bitwise one and
    detects every one-byte change.

    File system. A formatted volume mounts empty ([formatted_volume_mounts]). On a
    volume that satisfies the invariant [mounted], inserting an item is inserting into
    a map, through any number of splits ([tree_insert_is_map_insert]); creating a file
    or directory is durable or reports that it does not fit the journal
    ([create_is_durable]); committing and mounting again gives the same volume
    ([committed_volume_remounts]); the allocator never hands out a block in use to a
    caller that gives back only blocks in use ([alloc_never_overlaps]; it does not
    test that itself, [double_reclaim_grants_twice]); a node is a sorted map
    ([node_is_a_map]); superblocks and leaf values read back, the former also when
    damaged. A file written for the first time reads back byte for byte
    ([write_file_reads_back]), for every number of pages the journal can commit:
    inserting fewer items than a node has keys adds at most one level to the tree
    ([grows], [grown]). An interrupted transaction is never replayed
    ([journal_never_replays]).

    Virtual file system. Canonical paths are canonical and canonicalising twice changes
    nothing ([canonical_form]); a path is served by the most specific mount above it
    ([most_specific_mount]); an open descriptor is a byte stream with a position over
    the contents of its file ([open_files_are_streams]).

    Frames. Whatever sequence of allocations, contiguous and huge-page requests and
    frees is run, a frame has one owner, only free frames are handed out and only the
    owner's free returns them ([frames_have_one_owner]); a contiguous request takes the
    first run of free frames or fails when there is none ([contiguous_is_first_fit]).

    Graph database. The radix tree is a map on prefix-free sets of keys
    ([art_is_a_map]), and on any keys a lookup returns nothing but what was last
    written, and a scan nothing that was never inserted ([art_never_lies]). Documents
    decode to what was encoded ([document_roundtrip]) and the zero-copy view agrees
    with the decoder ([view_agrees_with_decode]). Workers that start alike and receive
    the same updates converge ([workers_converge]). The vectorised Hamming kernels
    compute the same distance ([kernels_agree]) and the search returns the nearest
    entries ([top_k_nearest]).

    Mesh. Whatever arrives, a bound key never changes, and what is accepted in a
    node's name is vouched for and newer than all before
    ([only_fresh_authentic_packets]); a heartbeat introduces its sender
    ([heartbeat_introduces]), an announced role is taken ([announced_role_is_taken])
    and a tick returns ([p2p_tick_total]). A payload cut into fragments, or into
    signed chunks, is put together whole whatever the order and the repetitions,
    within the timeouts and the sizes of the tables and as long as no other message
    has its identifier ([fragments_reassemble], [chunks_reassemble]); a sealed packet
    opens where it was sealed for ([sealed_packet_opens]); the hash is SHA-256 as FIPS
    180-4 defines it, down to the constants and the bits of each round
    ([sha256_is_fips]); the node with the smallest identifier leads a mesh of default
    nodes ([smallest_id_leads]); a peer is given up after three failures in a row
    ([circuit_breaker]) and its 99th percentile is the largest of the last 32 round
    trips ([p99_is_window_max]).

    Concurrency. The ticket lock is mutually exclusive, first-come-first-served and
    never stuck, for fewer than 2^64 accesses (where its counters would wrap). The
    queue neither loses nor duplicates an item under any interleaving
    ([items_conserved]), is a bounded FIFO when calls do not overlap
    ([sequential_fifo]), and every call returns within a bounded number of its own
    steps ([calls_wait_free]).

    Events. Publishing reaches exactly the live subscribers, queues drop the oldest
    events and stay bounded, the audit chain verifies under one hasher and detects changed
    entries, mailboxes deliver exactly once and in order, refused publishes change
    nothing, and the latent bus counts honestly.

    Scheduling. Agents that are done or crashed, also those that finish while the loop
    runs, are never run again, interactive agents are ticked in every cycle that gives
    them the latch, an agent runs at most once per cycle and respects its period, the
    poll order is a stable priority order, pauses last 1,000 polls and 10,000
    refusals crash an agent, the boot phase ends, work handed to other cores is not
    run here too, acyclic crews complete.

    Defects. These theorems prove behaviours that are bugs of the code:
    [journal_never_replays], [uncommitted_create_survives_crash],
    [failed_insert_loses_leaf], [file_size_bounded_by_journal] and
    [overwrite_loses_contents] (NeuralFS); [nvme_never_mounts],
    [stale_ckpt_returns_wrong_value], [failed_put_loses_old_value] and
    [batch_duplicate_resurrects] (TickvLite); [respawned_display_never_ticked]
    (scheduler); [art_loses_prefix_keys], [export_stops_after_one] and
    [conflict_grows_forever] (SGDB); [queue_wedges] (queue);
    [pool_hands_out_reserved_frame], [lowmem_reaches_general] and
    [skipped_frames_are_lost] (frames); [resolve_splits_names] (mount table);
    [senders_mix], [large_payload_refused], [refused_requests_mint_tokens],
    [tiers_split_the_mesh], [gate_panics], [unbound_heartbeat_replays] and
    [probe_gives_up] (mesh).

    ** Inputs of the model

    What the code reads from outside is an argument: the microsecond clock
    ([now_us]) and the outcome of backend initialisation for TickvLite; for the
    buses, which bounded lock acquisitions give up ([Env]) and the registered hash
    function; for the scheduler, a [Cycle] of clock readings, the outcome of the tick
    latch and the UI predicates; the agents themselves, any instance of the class
    [Agent] over any shared world; for the queue, the schedule of its threads and which
    weak compare-and-swaps fail spuriously; for the frame allocator, the memory map, the
    addresses of the kernel image and [containing_address] of the [x86_64] crate; for
    the graph database, the CPU's vector extensions, the timer, and the packets and blobs
    a worker receives; for the mesh, the timer, the frames the cards deliver, the memory
    size, the outcome of [try_reserve] and the two cryptographic crates.

    ** Fuel

    Loops that are not structural take fuel. [scan_fuel size] is one more than the
    512-byte steps of a scan can need and the totality theorems show it is never
    exhausted on a volume below 2^62 bytes; the chain loops of [FileFlash] run at most
    once per sector touched; [compact_n 1] allows one compaction because the
    [COMPACTING] flag forbids a nested one ([compact_not_reentrant] proves that any
    larger depth gives the same run); walks down the NeuralFS tree visit the code's own
    limit of 8 nodes (9 for the scan), and [insert_separator 10] climbs at most that
    many levels; the purge of checksum items gets one round per item found; the 10,000
    rounds of the boot phase are the code's own bound. Radix-tree walks take one more
    than the length of the key; [Mpmc.solo] takes [CALL_STEPS], which [call_fuel] shows
    no call exceeds, and draining one more than the capacity; the contiguous and
    huge-page searches take [total_frames + 2] rounds, each of which advances by a
    frame; [span_merge] one more than the spans; document framing the length of the
    blob; [recv_rounds] takes one more than the frames waiting in the cards
    ([recv_fragmented_total]), as does [receive_loop] ([p2p_tick_total]), and
    [checksum_fold] three rounds, after which a 32-bit sum fits 16 bits; [trim_front]
    the length of the string.

    ** Not modelled

    The NeuralFS agent's console commands and the serialisation of [DirEntry], which
    nothing calls. Finding the store's file on a FAT volume and the block drivers
    (hardware access, inputs of the model); traces, heartbeats and log callbacks of the
    scheduler, which only observe; smoke tests and status strings. Of the graph
    database, [store.rs], [layers.rs], [tickv_adapter.rs] and the rest of
    [nsgdb_bridge.rs], which drive an engine of another repository; of [memory.rs], the
    page-table walks through the [x86_64] crate; of the VFS, the file system of vectors;
    the moment between the two locks of [record_peer_failure] (one step here);
    of the mesh, unicast fragments with acknowledgements, discovery packets (unused),
    health reports to the desktop, [transport.rs] and the simulator [p2p_sim.rs]. The
    drivers ([k_hal], the rest of [k_nano]), the skill registry, the inference engine
    ([cortex]), the desktop ([jarbas]), the language runtime ([hermes]), the boot crates
    and the third-party code under [patches] are outside the development. The natural
    next steps are the FAT lookup, the skill registry and overwriting files with their
    checksum items. *)

From stdpp Require Export base gmap strings list sorting list_numbers.
From coqutil Require Export Byte Word.LittleEndianList.
From Stdlib Require Export ZArith Lia.
From Stdlib Require Strings.Byte.

Global Open Scope Z_scope.

(** * Bytes *)

Abbreviation bytes := (list Byte.byte).

(** [b as u32] / [b as usize] of the source is [byte.unsigned]; [n as u8] is
    [byte.of_Z], which truncates. *)
#[global] Instance byte_eq_dec : EqDecision Byte.byte.
Proof.
  intros a b. destruct (Byte.eqb a b) eqn:E.
  - left. by apply Byte.byte_dec_bl.
  - right. intros ->. by rewrite Byte.byte_dec_lb in E.
Defined.

(** [str::as_bytes] and the inverse used once a slice has been validated. *)
Abbreviation as_bytes := String.list_byte_of_string.
Abbreviation bytes_str := String.string_of_list_byte.

#[global] Arguments String.list_byte_of_string : simpl never.
#[global] Arguments String.string_of_list_byte : simpl never.

(** The length of a Rust slice or [Vec], as the [usize] it is. *)
Definition zlen {A} (l : list A) : Z := Z.of_nat (length l).

(** * Machine integers *)

Definition U8_MAX : Z := 2 ^ 8 - 1.
Definition U16_MAX : Z := 2 ^ 16 - 1.
Definition U32_MAX : Z := 2 ^ 32 - 1.
Definition U64_MAX : Z := 2 ^ 64 - 1.

(** Release-profile arithmetic: [a + b] wraps, [saturating_*] clamps. *)
Definition u64_add (a b : Z) : Z := (a + b) mod 2 ^ 64.
Definition u64_sub (a b : Z) : Z := (a - b) mod 2 ^ 64.
Definition u64_mul (a b : Z) : Z := (a * b) mod 2 ^ 64.
Definition u64_sat_add (a b : Z) : Z := Z.min (a + b) U64_MAX.
Definition u64_sat_sub (a b : Z) : Z := Z.max (a - b) 0.
Definition u64_sat_mul (a b : Z) : Z := Z.min (a * b) U64_MAX.
Definition u32_sat_add (a b : Z) : Z := Z.min (a + b) U32_MAX.
Definition u8_sat_add (a b : Z) : Z := Z.min (a + b) U8_MAX.

Definition checked_add (a b : Z) : option Z := if a + b <=? U64_MAX then Some (a + b) else None.
Definition checked_mul (a b : Z) : option Z := if a * b <=? U64_MAX then Some (a * b) else None.

(** [x & !(2^k - 1)]. *)
Definition mask_down (k x : Z) : Z := Z.land x (Z.lnot (Z.ones k)).

Definition to_le_bytes (n : nat) (z : Z) : bytes := le_split n z.
Definition from_le_bytes (l : bytes) : Z := le_combine l.

(** * Results

    [Result<A, &'static str>] of the source, with the two other ways a call can
    end: a panic (out-of-range slice; [panic = "abort"] in every profile), and
    exhausted fuel of a modelled loop, which the termination theorems exclude. *)
Inductive res (A : Type) : Type :=
  | Ok (a : A)
  | Err (e : string)
  | Panic
  | OutOfFuel.
Arguments Ok {A} _.
Arguments Err {A} _.
Arguments Panic {A}.
Arguments OutOfFuel {A}.

#[global] Instance res_eq_dec {A} `{EqDecision A} : EqDecision (res A).
Proof. solve_decision. Defined.

#[global] Instance res_ret : MRet res := @Ok.
#[global] Instance res_bind : MBind res := λ A B f m,
  match m with
  | Ok a => f a
  | Err e => Err e
  | Panic => Panic
  | OutOfFuel => OutOfFuel
  end.

Definition is_ok {A} (r : res A) : bool := match r with Ok _ => true | _ => false end.
Definition res_map {A B} (f : A → B) (r : res A) : res B := a ← r; Ok (f a).
Definition ok_or {A} (o : option A) (e : string) : res A :=
  match o with Some a => Ok a | None => Err e end.

(** * Stateful operations

    [&mut self] methods: the state survives an [Err] return as the body left it. *)
Section StateM.
Context {S : Type}.
Definition M (A : Type) : Type := S → res A * S.
#[global] Instance M_ret : MRet M := λ A a s, (Ok a, s).
#[global] Instance M_bind : MBind M := λ A B f m s,
  match m s with
  | (Ok a, s') => f a s'
  | (Err e, s') => (Err e, s')
  | (Panic, s') => (Panic, s')
  | (OutOfFuel, s') => (OutOfFuel, s')
  end.
Definition m_get : M S := λ s, (Ok s, s).
Definition m_modify (f : S → S) : M unit := λ s, (Ok tt, f s).
Definition m_lift {A} (r : res A) : M A := λ s, (r, s).
Definition m_err {A} (e : string) : M A := λ s, (Err e, s).
(** The call's result as a value: [if m.is_ok()], [let _ = m], [match m]. A
    panic or exhausted fuel is not a value and still propagates. *)
Definition m_try {A} (m : M A) : M (res A) := λ s,
  match m s with
  | (Ok a, s') => (Ok (Ok a), s')
  | (Err e, s') => (Ok (Err e), s')
  | (Panic, s') => (Panic, s')
  | (OutOfFuel, s') => (OutOfFuel, s')
  end.
End StateM.
Arguments M S A : clear implicits.

Lemma M_bind_Ok {S A B} (m : M S A) (f : A → M S B) s a s' :
  m s = (Ok a, s') → (m ≫= f) s = f a s'.
Proof. intros H. unfold mbind, M_bind. by rewrite H. Qed.

Lemma M_bind_Err {S A B} (m : M S A) (f : A → M S B) s e s' :
  m s = (Err e, s') → (m ≫= f) s = (Err e, s').
Proof. intros H. unfold mbind, M_bind. by rewrite H. Qed.

Lemma m_try_Ok {S A} (m : M S A) s a s' :
  m s = (Ok a, s') → m_try m s = (Ok (Ok a), s').
Proof. intros H. unfold m_try. by rewrite H. Qed.

Lemma m_try_ran {S A} (m : M S A) s r s' a e :
  m s = (r, s') → r = Ok a ∨ r = Err e → m_try m s = (Ok r, s').
Proof. intros H Hr. unfold m_try. rewrite H. by destruct Hr as [->| ->]. Qed.

Lemma m_try_Err {S A} (m : M S A) s e s' :
  m s = (Err e, s') → m_try m s = (Ok (Err e), s').
Proof. intros H. unfold m_try. by rewrite H. Qed.

(** * Slices *)

Section Slices.
Context {A : Type}.
Implicit Types l d : list A.

(** [&l[o..o+n]], for a range the caller has checked. *)
Definition slice (o n : Z) (l : list A) : list A :=
  take (Z.to_nat n) (drop (Z.to_nat o) l).

(** [l[o..o+d.len()].copy_from_slice(d)], for a range the caller has checked. *)
Definition splice (o : Z) (d l : list A) : list A :=
  take (Z.to_nat o) l ++ d ++ drop (Z.to_nat o + length d) l.

Lemma zlen_nonneg l : 0 ≤ zlen l.
Proof. unfold zlen. lia. Qed.

Lemma zlen_app l d : zlen (l ++ d) = zlen l + zlen d.
Proof. unfold zlen. rewrite length_app. lia. Qed.

Lemma zlen_nil : zlen (@nil A) = 0.
Proof. done. Qed.

Lemma zlen_cons x l : zlen (x :: l) = 1 + zlen l.
Proof. unfold zlen. simpl. lia. Qed.

Lemma zlen_le_0 l : zlen l ≤ 0 → l = [].
Proof. destruct l; [done|]. rewrite zlen_cons. pose proof (zlen_nonneg l). lia. Qed.

Lemma length_slice o n l : 0 ≤ o → 0 ≤ n → o + n ≤ zlen l → length (slice o n l) = Z.to_nat n.
Proof. unfold slice, zlen. intros. rewrite length_take, length_drop. lia. Qed.

Lemma zlen_slice o n l : 0 ≤ o → 0 ≤ n → o + n ≤ zlen l → zlen (slice o n l) = n.
Proof. intros. unfold zlen. rewrite length_slice by done. lia. Qed.

Lemma zlen_splice o d l : 0 ≤ o → o + zlen d ≤ zlen l → zlen (splice o d l) = zlen l.
Proof.
  unfold splice, zlen. intros. rewrite !length_app, length_take, length_drop. lia.
Qed.

Lemma slice_full l : slice 0 (zlen l) l = l.
Proof. unfold slice, zlen. simpl. rewrite Nat2Z.id. by apply take_ge. Qed.

Lemma slice_app_r o n l d :
  zlen l ≤ o → slice o n (l ++ d) = slice (o - zlen l) n d.
Proof.
  unfold slice, zlen. intros. f_equal.
  rewrite drop_app_ge by lia. f_equal. lia.
Qed.

Lemma slice_app_l o n l d :
  0 ≤ o → 0 ≤ n → o + n ≤ zlen l → slice o n (l ++ d) = slice o n l.
Proof.
  unfold slice, zlen. intros.
  rewrite drop_app_le by lia. rewrite take_app_le; [done|]. rewrite length_drop. lia.
Qed.

Lemma slice_app_exact l d n : zlen l = n → slice 0 n (l ++ d) = l.
Proof.
  intros <-. rewrite slice_app_l by (pose proof zlen_nonneg l; lia). apply slice_full.
Qed.

Lemma slice_slice o n p m l :
  0 ≤ o → 0 ≤ p → 0 ≤ m → p + m ≤ n → slice p m (slice o n l) = slice (o + p) m l.
Proof.
  unfold slice. intros. rewrite skipn_firstn_comm, take_take, drop_drop.
  f_equal; [lia|]. f_equal. lia.
Qed.

Lemma slice_splice_same o d l :
  0 ≤ o → o + zlen d ≤ zlen l → slice o (zlen d) (splice o d l) = d.
Proof.
  intros. unfold splice.
  assert (Ht : zlen (take (Z.to_nat o) l) = o).
  { unfold zlen in *. rewrite length_take. lia. }
  rewrite slice_app_r by lia. rewrite Ht, Z.sub_diag. by apply slice_app_exact.
Qed.

Lemma slice_splice_before o d l p n :
  0 ≤ p → 0 ≤ n → p + n ≤ o → o ≤ zlen l → slice p n (splice o d l) = slice p n l.
Proof.
  intros. unfold splice.
  assert (Ht : zlen (take (Z.to_nat o) l) = o).
  { unfold zlen in *. rewrite length_take. lia. }
  rewrite slice_app_l by lia.
  unfold slice. rewrite skipn_firstn_comm, take_take. f_equal. lia.
Qed.

Lemma slice_splice_after o d l p n :
  0 ≤ o → o + zlen d ≤ p → o + zlen d ≤ zlen l → slice p n (splice o d l) = slice p n l.
Proof.
  intros. unfold splice.
  assert (Ht : zlen (take (Z.to_nat o) l) = o).
  { unfold zlen in *. rewrite length_take. lia. }
  pose proof (zlen_nonneg d).
  rewrite slice_app_r by lia. rewrite slice_app_r by lia. rewrite Ht.
  unfold slice, zlen in *. rewrite drop_drop. f_equal. f_equal. lia.
Qed.

(** A write inside the first part of a concatenation, and one that starts at
    its second part. *)
Lemma splice_app_l o d l r :
  0 ≤ o → o + zlen d ≤ zlen l → splice o d (l ++ r) = splice o d l ++ r.
Proof.
  unfold splice, zlen. intros.
  rewrite take_app_le, drop_app_le by lia. by rewrite <-!app_assoc.
Qed.

Lemma splice_app_r o d l r :
  zlen l ≤ o → splice o d (l ++ r) = l ++ splice (o - zlen l) d r.
Proof.
  unfold splice, zlen. intros.
  rewrite take_app_ge, drop_app_ge by lia. rewrite <-app_assoc.
  replace (Z.to_nat o - length l)%nat with (Z.to_nat (o - Z.of_nat (length l))) by lia.
  replace (Z.to_nat o + length d - length l)%nat
    with (Z.to_nat (o - Z.of_nat (length l)) + length d)%nat by lia.
  done.
Qed.

Lemma lookup_slice o n l i :
  slice o n l !! i = if decide (i < Z.to_nat n)%nat then l !! (Z.to_nat o + i)%nat else None.
Proof.
  unfold slice. case_decide.
  - by rewrite lookup_take_lt, lookup_drop.
  - rewrite lookup_take_ge by lia. done.
Qed.

Lemma lookup_splice o d l i :
  0 ≤ o ≤ zlen l →
  splice o d l !! i =
    if decide (i < Z.to_nat o)%nat then l !! i
    else if decide (i < Z.to_nat o + length d)%nat then d !! (i - Z.to_nat o)%nat else l !! i.
Proof.
  unfold splice, zlen. intros Ho.
  assert (length (take (Z.to_nat o) l) = Z.to_nat o) as Hl by (rewrite length_take; lia).
  case_decide; [rewrite lookup_app_l, lookup_take_lt by lia; done|].
  rewrite lookup_app_r, Hl by lia. case_decide; [by rewrite lookup_app_l by lia|].
  rewrite lookup_app_r, lookup_drop by lia. f_equal. lia.
Qed.

Lemma slice_add o a b l :
  0 ≤ o → 0 ≤ a → 0 ≤ b → slice o (a + b) l = slice o a l ++ slice (o + a) b l.
Proof.
  intros. unfold slice. rewrite (Z2Nat.inj_add a b) by lia.
  rewrite <-take_take_drop, drop_drop. do 3 f_equal. lia.
Qed.

Lemma splice_app_split o a b l :
  0 ≤ o → o + zlen a + zlen b ≤ zlen l →
  splice o (a ++ b) l = splice (o + zlen a) b (splice o a l).
Proof.
  intros. pose proof (zlen_nonneg a). pose proof (zlen_nonneg b).
  apply list_eq. intros i. rewrite lookup_splice by lia.
  rewrite lookup_splice by (rewrite zlen_splice; lia). rewrite lookup_splice by lia.
  unfold zlen in *. rewrite length_app.
  repeat case_decide; try lia; try done.
  - by rewrite lookup_app_l by lia.
  - rewrite lookup_app_r by lia. f_equal. lia.
Qed.

(** Read, patch, write back. *)
Lemma splice_slice_patch o n p d l :
  0 ≤ o → 0 ≤ p → p + zlen d ≤ n → o + n ≤ zlen l →
  splice o (splice p d (slice o n l)) l = splice (o + p) d l.
Proof.
  intros. pose proof (zlen_nonneg d).
  assert (Hs : zlen (slice o n l) = n) by (apply zlen_slice; lia).
  assert (Hl : length (splice p d (slice o n l)) = Z.to_nat n).
  { assert (Hp : zlen (splice p d (slice o n l)) = n) by (rewrite zlen_splice; lia).
    unfold zlen in Hp. lia. }
  apply list_eq. intros i. rewrite !lookup_splice by lia.
  rewrite lookup_slice, Hl. unfold zlen in *. repeat case_decide; try lia; try done; f_equal; lia.
Qed.

Lemma splice_nil o l : splice o [] l = l.
Proof. unfold splice. simpl. rewrite Nat.add_0_r. apply take_drop. Qed.

Lemma slice_zero o l : slice o 0 l = [].
Proof. done. Qed.

Lemma splice_0 d l : splice 0 d l = d ++ drop (length d) l.
Proof. done. Qed.
(** A sequence of [b[o..o+d.len()].copy_from_slice(d)] that fills a buffer. *)
Definition put_fields (fs : list (Z * list A)) (b : list A) : list A :=
  fold_left (λ b f, splice f.1 f.2 b) fs b.

(** Fields in increasing order, without overlap, from [pos] to [len]. *)
Fixpoint fields_in (pos len : Z) (fs : list (Z * list A)) : Prop :=
  match fs with
  | [] => pos ≤ len
  | (o, d) :: fs' => pos ≤ o ∧ fields_in (o + zlen d) len fs'
  end.

Lemma fields_in_le pos len fs : fields_in pos len fs → pos ≤ len.
Proof.
  revert pos. induction fs as [|[o d] fs IH]; intros pos H; [done|]. destruct H as [H1 H2%IH].
  pose proof (zlen_nonneg d). lia.
Qed.

Lemma zlen_put_fields pos fs b : 0 ≤ pos → fields_in pos (zlen b) fs → zlen (put_fields fs b) = zlen b.
Proof.
  revert pos b. induction fs as [|[o d] fs IH]; intros pos b Hp H; [done|]. destruct H as [H1 H2].
  pose proof (zlen_nonneg d). pose proof (fields_in_le _ _ _ H2).
  assert (Hz : zlen (splice o d b) = zlen b) by (apply zlen_splice; lia).
  change (zlen (put_fields fs (splice o d b)) = zlen b). rewrite <-Hz in H2.
  rewrite (IH (o + zlen d)); [done|lia|done].
Qed.

(** Nothing before the first field changes. *)
Lemma put_fields_before pos fs b p n :
  fields_in pos (zlen b) fs → 0 ≤ p → 0 ≤ n → p + n ≤ pos → slice p n (put_fields fs b) = slice p n b.
Proof.
  revert pos b. induction fs as [|[o d] fs IH]; intros pos b H Hp Hn Hpn; [done|]. destruct H as [H1 H2].
  pose proof (zlen_nonneg d). pose proof (fields_in_le _ _ _ H2).
  assert (Hz : zlen (splice o d b) = zlen b) by (apply zlen_splice; lia).
  change (slice p n (put_fields fs (splice o d b)) = slice p n b). rewrite <-Hz in H2.
  rewrite (IH (o + zlen d)) by (done || lia). apply slice_splice_before; lia.
Qed.

(** Each field reads back. *)
Lemma put_fields_get pos fs b o d n :
  0 ≤ pos → fields_in pos (zlen b) fs → (o, d) ∈ fs → zlen d = n → slice o n (put_fields fs b) = d.
Proof.
  intros Hpos H Hin <-. revert pos b Hpos H. induction fs as [|[o' d'] fs IH]; intros pos b Hpos H; [by apply elem_of_nil in Hin|].
  destruct H as [H1 H2]. pose proof (zlen_nonneg d'). pose proof (zlen_nonneg d). pose proof (fields_in_le _ _ _ H2).
  assert (Hz : zlen (splice o' d' b) = zlen b) by (apply zlen_splice; lia).
  change (slice o (zlen d) (put_fields fs (splice o' d' b)) = d). rewrite <-Hz in H2.
  apply elem_of_cons in Hin as [[= -> ->]|Hin].
  - rewrite (put_fields_before (o' + zlen d')) by (done || lia). apply slice_splice_same; lia.
  - apply (IH Hin (o' + zlen d')); [lia|done].
Qed.
End Slices.

(** Rewriting with this keeps large step functions folded. *)
Lemma fold_left_cons {A B} (f : A → B → A) b l a : fold_left f (b :: l) a = fold_left f l (f a b).
Proof. done. Qed.

Lemma zlen_to_le_bytes n z : zlen (to_le_bytes n z) = Z.of_nat n.
Proof. unfold zlen, to_le_bytes. by rewrite length_le_split. Qed.

Lemma from_to_le_bytes n z :
  0 ≤ z < 2 ^ (Z.of_nat n * 8) → from_le_bytes (to_le_bytes n z) = z.
Proof.
  intros. unfold from_le_bytes, to_le_bytes. rewrite le_combine_split. by apply Z.mod_small.
Qed.

Lemma from_le_bytes_bound l n :
  length l = n → 0 ≤ from_le_bytes l < 2 ^ (8 * Z.of_nat n).
Proof. intros <-. apply le_combine_bound. Qed.

Lemma slice_mid {A} (p x q : list A) o n : zlen p = o → zlen x = n → slice o n (p ++ x ++ q) = x.
Proof. intros <- <-. rewrite slice_app_r, Z.sub_diag by lia. by apply slice_app_exact. Qed.

Lemma zlen_concat8 (l : list Z) : zlen (concat (to_le_bytes 8 <$> l)) = 8 * zlen l.
Proof. induction l as [|x l IH]; [done|]. cbn [fmap list_fmap concat]. rewrite zlen_app, IH, zlen_to_le_bytes, zlen_cons. lia. Qed.

Lemma slice_concat8 (l : list Z) i x :
  l !! i = Some x → slice (8 * Z.of_nat i) 8 (concat (to_le_bytes 8 <$> l)) = to_le_bytes 8 x.
Proof.
  revert i. induction l as [|y l IH]; intros [|i] Hi; [done..| |]; rewrite fmap_cons; cbn [concat].
  - injection Hi as ->. apply slice_app_exact. by rewrite zlen_to_le_bytes.
  - rewrite slice_app_r by (rewrite zlen_to_le_bytes; lia). rewrite zlen_to_le_bytes, <-(IH i Hi). f_equal. lia.
Qed.

Lemma u64_sat_add_small a b : a + b < 2 ^ 64 → u64_sat_add a b = a + b.
Proof. intros. unfold u64_sat_add, U64_MAX. lia. Qed.

Lemma u64_add_small a b : 0 ≤ a → 0 ≤ b → a + b < 2 ^ 64 → u64_add a b = a + b.
Proof. intros. unfold u64_add. apply Z.mod_small. lia. Qed.

Lemma mask_down_spec k x : 0 ≤ k → mask_down k x = x - x mod 2 ^ k.
Proof.
  intros Hk. unfold mask_down. rewrite <-Z.ldiff_land, Z.ldiff_ones_r, Z.shiftl_mul_pow2 by done.
  rewrite Z.shiftr_div_pow2 by done. pose proof (Z.div_mod x (2 ^ k)). lia.
Qed.

(** Byte strings of the same length with the same value are equal. *)
Lemma le_combine_inj_length (l l' : bytes) :
  from_le_bytes l = from_le_bytes l' → length l = length l' → l = l'.
Proof.
  unfold from_le_bytes. intros Hc Hl. rewrite <-(split_le_combine l), <-(split_le_combine l'). by rewrite Hc, Hl.
Qed.

#[global] Opaque to_le_bytes from_le_bytes.

(** * [BTreeMap<String, V>]

    A [gmap string V]; iteration goes through the keys in byte-wise
    lexicographic order, which is what [String]'s [Ord] is. *)

Definition string_le (a b : string) : Prop := String.leb a b = true.

#[global] Instance string_le_dec : RelDecision string_le.
Proof. intros a b. unfold string_le. apply _. Defined.

#[global] Instance string_le_total : Total string_le.
Proof.
  intros a b. unfold string_le, String.leb. rewrite (String.compare_antisym b a).
  destruct (String.compare a b); simpl; auto.
Qed.

#[global] Instance string_le_trans : Transitive string_le.
Proof.
  intros a. unfold string_le, String.leb. induction a as [|x a IH]; intros [|y b] [|z c]; simpl; try done.
  specialize (IH b c). unfold Ascii.compare.
  destruct (N.compare_spec (Ascii.N_of_ascii x) (Ascii.N_of_ascii y)) as [E1|E1|E1];
    destruct (N.compare_spec (Ascii.N_of_ascii y) (Ascii.N_of_ascii z)) as [E2|E2|E2];
    destruct (N.compare_spec (Ascii.N_of_ascii x) (Ascii.N_of_ascii z)) as [E3|E3|E3]; (done || lia).
Qed.

#[global] Instance string_le_antisymm : AntiSymm (=) string_le.
Proof.
  intros a b. unfold string_le, String.leb. rewrite (String.compare_antisym b a).
  destruct (String.compare a b) eqn:E; simpl; try done. intros _ _. by apply String.compare_eq_iff.
Qed.

Definition entry_le {V} (a b : string * V) : Prop := string_le a.1 b.1.

#[global] Instance entry_le_dec {V} : RelDecision (@entry_le V).
Proof. intros a b. unfold entry_le. apply _. Defined.

#[global] Instance entry_le_total {V} : Total (@entry_le V).
Proof. intros a b. apply string_le_total. Qed.

#[global] Instance entry_le_trans {V} : Transitive (@entry_le V).
Proof. intros a b c. apply string_le_trans. Qed.

Definition btree_iter {V} (m : gmap string V) : list (string * V) :=
  merge_sort entry_le (map_to_list m).

Section BTreeMap.
Context {V : Type}.
Implicit Types m : gmap string V.

Lemma btree_iter_perm m : btree_iter m ≡ₚ map_to_list m.
Proof. apply merge_sort_Permutation. Qed.

Lemma elem_of_btree_iter m k v : (k, v) ∈ btree_iter m ↔ m !! k = Some v.
Proof. rewrite btree_iter_perm. apply elem_of_map_to_list. Qed.

Lemma NoDup_btree_iter_keys m : NoDup (btree_iter m).*1.
Proof. rewrite btree_iter_perm. apply NoDup_fst_map_to_list. Qed.

Lemma list_to_map_btree_iter m : list_to_map (btree_iter m) = m.
Proof.
  rewrite (list_to_map_proper _ (map_to_list m)).
  - apply list_to_map_to_list.
  - apply NoDup_btree_iter_keys.
  - apply btree_iter_perm.
Qed.

Lemma btree_iter_sorted m : StronglySorted entry_le (btree_iter m).
Proof. apply StronglySorted_merge_sort; apply _. Qed.

(** Iteration order is the only sorted listing. *)
Lemma btree_iter_list_to_map (l : list (string * V)) :
  StronglySorted entry_le l → NoDup l.*1 → btree_iter (list_to_map l) = l.
Proof.
  intros Hs Hn.
  assert (Hp : btree_iter (list_to_map l) ≡ₚ l) by (rewrite btree_iter_perm; by apply map_to_list_to_map).
  apply (StronglySorted_unique_strong entry_le); [|apply btree_iter_sorted|done|done].
  intros [k1 v1] [k2 v2] H1 H2 H12 H21. rewrite Hp in H1.
  assert (k1 = k2) as -> by (by apply (anti_symm string_le)).
  apply (elem_of_list_to_map (M := gmap string)) in H1, H2; [|done..]. congruence.
Qed.

Lemma StronglySorted_filter (P : string * V → Prop) `{!∀ x, Decision (P x)} l :
  StronglySorted entry_le l → StronglySorted entry_le (filter P l).
Proof.
  induction 1 as [|x l Hs IH Hf]; [constructor|]. rewrite filter_cons. case_decide; [|done].
  constructor; [done|]. apply Forall_forall. intros y (_ & Hy)%list_elem_of_filter.
  by apply (proj1 (Forall_forall _ _) Hf).
Qed.

Lemma length_btree_iter m : length (btree_iter m) = size m.
Proof. rewrite btree_iter_perm. apply length_map_to_list. Qed.
End BTreeMap.

(** * [core::str::from_utf8] *)

Definition byte_in (lo hi : Z) (b : Byte.byte) : bool :=
  (lo <=? byte.unsigned b) && (byte.unsigned b <=? hi).

Definition utf8_cont : Byte.byte → bool := byte_in 0x80 0xBF.

(** Well-formed UTF-8 byte sequences (Unicode, table 3-7). *)
Fixpoint utf8_valid (l : bytes) : bool :=
  match l with
  | [] => true
  | b0 :: l1 =>
      if byte_in 0x00 0x7F b0 then utf8_valid l1 else
      match l1 with
      | [] => false
      | b1 :: l2 =>
          if byte_in 0xC2 0xDF b0 && utf8_cont b1 then utf8_valid l2 else
          match l2 with
          | [] => false
          | b2 :: l3 =>
              if ((byte_in 0xE0 0xE0 b0 && byte_in 0xA0 0xBF b1)
                  || (byte_in 0xE1 0xEC b0 && utf8_cont b1)
                  || (byte_in 0xED 0xED b0 && byte_in 0x80 0x9F b1)
                  || (byte_in 0xEE 0xEF b0 && utf8_cont b1)) && utf8_cont b2
              then utf8_valid l3 else
              match l3 with
              | [] => false
              | b3 :: l4 =>
                  if ((byte_in 0xF0 0xF0 b0 && byte_in 0x90 0xBF b1)
                      || (byte_in 0xF1 0xF3 b0 && utf8_cont b1)
                      || (byte_in 0xF4 0xF4 b0 && byte_in 0x80 0x8F b1))
                     && utf8_cont b2 && utf8_cont b3
                  then utf8_valid l4 else false
              end
          end
      end
  end.

Definition from_utf8 (l : bytes) : option string :=
  if utf8_valid l then Some (bytes_str l) else None.

(** Every [String] of the source holds valid UTF-8; the model's keys carry that
    as a predicate. *)
Definition str_ok (s : string) : Prop := utf8_valid (as_bytes s) = true.

Lemma from_utf8_as_bytes s : str_ok s → from_utf8 (as_bytes s) = Some s.
Proof.
  unfold str_ok, from_utf8. intros ->. by rewrite String.string_of_list_byte_of_string.
Qed.

Lemma as_bytes_inj (s1 s2 : string) : as_bytes s1 = as_bytes s2 → s1 = s2.
Proof. intros E. rewrite <-(String.string_of_list_byte_of_string s1), <-(String.string_of_list_byte_of_string s2). by rewrite E. Qed.

Lemma from_utf8_inv l s : from_utf8 l = Some s → as_bytes s = l.
Proof. unfold from_utf8. destruct (utf8_valid l); [|done]. intros [= <-]. apply String.list_byte_of_string_of_list_byte. Qed.

(** * Automation of the development *)

Create HintDb neural.
Create HintDb zlen.
#[global] Hint Rewrite @zlen_app @zlen_nil @zlen_cons zlen_to_le_bytes : zlen.
#[global] Hint Resolve zlen_nonneg : neural.

Lemma zlen_replicate {A} n (x : A) : zlen (replicate n x) = Z.of_nat n.
Proof. unfold zlen. by rewrite length_replicate. Qed.

(** Lengths of the buffers the fields of a format are put in. *)
Create HintDb fields.
#[global] Hint Rewrite @zlen_replicate : fields.

(** Run the first operation of a sequence, by the equation a tactic proves. *)
Tactic Notation "m_run" tactic3(t) := erewrite M_bind_Ok; [|solve [t]]; cbv beta iota.
Tactic Notation "m_fail" tactic3(t) := erewrite M_bind_Err; [|solve [t]]; cbv beta iota.

(** Reading a field of a buffer filled by [put_fields]. *)
Ltac fields_solve := cbn [fields_in]; autorewrite with zlen fields; lia.
Ltac field_get :=
  erewrite (put_fields_get 0);
    [|lia|fields_solve|repeat (apply list_elem_of_here || apply list_elem_of_further)|by rewrite ?zlen_to_le_bytes].

(** Lengths of byte strings, down to linear arithmetic. *)
Ltac zlen_solve :=
  repeat match goal with
  | |- context [zlen ?l] =>
      lazymatch goal with
      | H : 0 ≤ zlen l |- _ => fail
      | _ => pose proof (zlen_nonneg l)
      end
  end;
  autorewrite with zlen in *; simpl in *; lia.
