(* ===== verification/Checksum.v ===== *)
(** Checksums and hashes shared by the storage components: the bit-serial CRC-32
    of TickvLite ([crates/k_nano/src/storage/tickv.rs]), the table-driven CRC-32C
    of NeuralFS ([crates/k_nano/src/neural_fs/checksum.rs]) and the FNV-1a mixing
    step used by the checkpoint and by the audit chain.

    The theorems show that the table-driven routine computes the bit-serial
    definition, that streaming in pieces equals hashing at once, and that both
    CRCs detect every change confined to one byte. *)

From S2P Require Import Prelude.

(** * Reflected CRC over a 32-bit register *)

Module Crc.

(** One shift of the register: [crc >> 1], xored with the polynomial when the
    bit shifted out was set. *)
Definition step (poly crc : Z) : Z :=
  Z.lxor (Z.shiftr crc 1) (if negb (Z.land crc 1 =? 0) then poly else 0).

Definition byte_step (poly crc : Z) (b : Byte.byte) : Z :=
  Nat.iter 8 (step poly) (Z.lxor crc (byte.unsigned b)).

Arguments byte_step : simpl never.

Lemma byte_step_unfold poly crc b :
  byte_step poly crc b = Nat.iter 8 (step poly) (Z.lxor crc (byte.unsigned b)).
Proof. done. Qed.

#[global] Opaque byte_step.

Definition u32 (x : Z) : Prop := 0 ≤ x < 2 ^ 32.

Section Poly.
Context (poly : Z) (poly_u32 : u32 poly) (poly_top : Z.testbit poly 31 = true).

Lemma step_odd x : step poly x = Z.lxor (Z.shiftr x 1) (if Z.testbit x 0 then poly else 0).
Proof.
  unfold step. f_equal. change 1 with (Z.ones 1) at 1. rewrite Z.land_ones by lia.
  rewrite Z.bit0_odd, <-Z.bit0_mod, Z.bit0_odd. by destruct (Z.odd x).
Qed.

Lemma step_lxor x y : step poly (Z.lxor x y) = Z.lxor (step poly x) (step poly y).
Proof.
  rewrite !step_odd, Z.shiftr_lxor, Z.lxor_spec.
  apply Z.bits_inj'. intros n Hn. rewrite !Z.lxor_spec.
  destruct (Z.testbit x 0), (Z.testbit y 0); simpl; rewrite ?Z.bits_0;
    destruct (Z.testbit (Z.shiftr x 1) n), (Z.testbit (Z.shiftr y 1) n), (Z.testbit poly n); done.
Qed.

Lemma iter_step_lxor n x y :
  Nat.iter n (step poly) (Z.lxor x y) = Z.lxor (Nat.iter n (step poly) x) (Nat.iter n (step poly) y).
Proof. induction n as [|n IH]; simpl; [done|]. by rewrite IH, step_lxor. Qed.

(** Shifting out zero bits never touches the polynomial. *)
Lemma step_shiftl x k : 0 < k → step poly (Z.shiftl x k) = Z.shiftl x (k - 1).
Proof.
  intros Hk. rewrite step_odd, Z.shiftl_spec_low by lia. rewrite Z.lxor_0_r.
  rewrite Z.shiftr_shiftl_l by lia. done.
Qed.

Lemma iter_step_shiftl n x : Nat.iter n (step poly) (Z.shiftl x (Z.of_nat n)) = x.
Proof.
  revert x. induction n as [|n IH]; intros x; [apply Z.shiftl_0_r|].
  rewrite Nat.iter_succ_r, step_shiftl by lia. rewrite <-(IH x) at 2. do 2 f_equal. lia.
Qed.

(** The register splits into its low byte, which the table looks up, and the
    rest, which is shifted. *)
Lemma low_high x : Z.lxor (Z.land x 255) (Z.shiftl (Z.shiftr x 8) 8) = x.
Proof.
  apply Z.bits_inj'. intros n Hn. rewrite Z.lxor_spec, Z.land_spec.
  change 255 with (Z.ones 8). destruct (decide (n < 8)).
  - rewrite Z.ones_spec_low, Z.shiftl_spec_low by lia. by destruct (Z.testbit x n).
  - rewrite Z.ones_spec_high, Z.shiftl_spec, Z.shiftr_spec by lia.
    rewrite andb_false_r, xorb_false_l. f_equal. lia.
Qed.

Lemma iter_step_split x :
  Nat.iter 8 (step poly) x = Z.lxor (Nat.iter 8 (step poly) (Z.land x 255)) (Z.shiftr x 8).
Proof.
  rewrite <-(low_high x) at 1. rewrite iter_step_lxor. f_equal. apply (iter_step_shiftl 8).
Qed.

Lemma u32_bits x : u32 x → ∀ n, 32 ≤ n → Z.testbit x n = false.
Proof.
  intros Hx n Hn. rewrite <-(Z.mod_small x (2 ^ 32)) by apply Hx.
  by apply Z.mod_pow2_bits_high.
Qed.

Lemma bits_u32 x : 0 ≤ x → (∀ n, 32 ≤ n → Z.testbit x n = false) → u32 x.
Proof.
  intros Hx Hb. assert (x mod 2 ^ 32 = x) as <-.
  { apply Z.bits_inj'. intros n Hn. destruct (decide (n < 32)).
    - by apply Z.mod_pow2_bits_low.
    - rewrite Z.mod_pow2_bits_high by lia. symmetry. apply Hb. lia. }
  apply Z.mod_pos_bound. lia.
Qed.

Lemma u32_lxor x y : u32 x → u32 y → u32 (Z.lxor x y).
Proof.
  intros Hx Hy. apply bits_u32.
  - apply Z.lxor_nonneg. unfold u32 in *. lia.
  - intros n Hn. by rewrite Z.lxor_spec, !u32_bits.
Qed.

Lemma u32_shiftr x : u32 x → u32 (Z.shiftr x 1).
Proof.
  intros Hx. apply bits_u32.
  - apply Z.shiftr_nonneg. apply Hx.
  - intros n Hn. rewrite Z.shiftr_spec by lia. apply u32_bits; [done|lia].
Qed.

Lemma u32_step x : u32 x → u32 (step poly x).
Proof.
  intros Hx. rewrite step_odd. apply u32_lxor; [by apply u32_shiftr|].
  destruct (Z.testbit x 0); [done|]. unfold u32; lia.
Qed.

Lemma u32_iter n x : u32 x → u32 (Nat.iter n (step poly) x).
Proof. intros Hx. induction n; simpl; [done|]. by apply u32_step. Qed.

Lemma u32_byte b : u32 (byte.unsigned b).
Proof. pose proof (byte.unsigned_range b). unfold u32. lia. Qed.

Lemma u32_byte_step x b : u32 x → u32 (byte_step poly x b).
Proof. intros Hx. rewrite byte_step_unfold. apply u32_iter, u32_lxor; [done|apply u32_byte]. Qed.

Lemma u32_fold l x : u32 x → u32 (fold_left (byte_step poly) l x).
Proof.
  revert x. induction l as [|b l IH]; intros x Hx; [done|].
  rewrite fold_left_cons. by apply IH, u32_byte_step.
Qed.

(** The polynomial's top bit records the bit that was shifted out, so no step
    loses information: a zero result comes from a zero register. *)
Lemma step_zero x : u32 x → step poly x = 0 → x = 0.
Proof.
  intros Hx H. rewrite step_odd in H.
  assert (H0 : Z.testbit x 0 = false).
  { assert (Ht : Z.testbit (Z.lxor (Z.shiftr x 1) (if Z.testbit x 0 then poly else 0)) 31 = false)
      by (rewrite H; apply Z.bits_0).
    rewrite Z.lxor_spec, Z.shiftr_spec, (u32_bits _ Hx) in Ht by lia.
    destruct (Z.testbit x 0); [|done]. rewrite poly_top in Ht. done. }
  rewrite H0, Z.lxor_0_r in H.
  apply Z.bits_inj_0. intros n. destruct (decide (n = 0)) as [->|]; [done|].
  destruct (decide (n < 0)); [by apply Z.testbit_neg_r|].
  replace n with (n - 1 + 1) by lia. rewrite <-Z.shiftr_spec by lia. by rewrite H, Z.bits_0.
Qed.

Lemma iter_step_zero n x : u32 x → Nat.iter n (step poly) x = 0 → x = 0.
Proof.
  intros Hx. induction n as [|n IH]; simpl; [done|].
  intros H. apply IH, step_zero; [by apply u32_iter|done].
Qed.

Lemma iter_step_inj n x y :
  u32 x → u32 y → Nat.iter n (step poly) x = Nat.iter n (step poly) y → x = y.
Proof.
  intros Hx Hy H. apply Z.lxor_eq, (iter_step_zero n); [by apply u32_lxor|].
  by rewrite iter_step_lxor, H, Z.lxor_nilpotent.
Qed.

Lemma byte_step_inj_reg x y b :
  u32 x → u32 y → byte_step poly x b = byte_step poly y b → x = y.
Proof.
  intros Hx Hy H. rewrite !byte_step_unfold in H.
  apply iter_step_inj in H; [|apply u32_lxor; auto using u32_byte..].
  apply (f_equal (λ z, Z.lxor z (byte.unsigned b))) in H.
  by rewrite !Z.lxor_assoc, Z.lxor_nilpotent, !Z.lxor_0_r in H.
Qed.

Lemma byte_step_inj_byte x a b : u32 x → byte_step poly x a = byte_step poly x b → a = b.
Proof.
  intros Hx H. rewrite !byte_step_unfold in H.
  apply iter_step_inj in H; [|apply u32_lxor; auto using u32_byte..].
  apply (f_equal (Z.lxor x)) in H.
  rewrite <-!Z.lxor_assoc, Z.lxor_nilpotent, !Z.lxor_0_l in H. by apply byte.unsigned_inj.
Qed.

Lemma fold_inj_reg l x y :
  u32 x → u32 y → fold_left (byte_step poly) l x = fold_left (byte_step poly) l y → x = y.
Proof.
  revert x y. induction l as [|b l IH]; intros x y Hx Hy H; [done|].
  rewrite !fold_left_cons in H.
  apply IH in H; [|by apply u32_byte_step..]. by apply byte_step_inj_reg in H.
Qed.

Lemma fold_one_byte pre a b post x :
  u32 x → a ≠ b →
  fold_left (byte_step poly) (pre ++ a :: post) x ≠ fold_left (byte_step poly) (pre ++ b :: post) x.
Proof.
  intros Hx Hab H. rewrite !fold_left_app, !fold_left_cons in H.
  apply fold_inj_reg in H; [|by apply u32_byte_step, u32_fold..].
  apply byte_step_inj_byte in H; [done|by apply u32_fold].
Qed.

(** Feeding bytes is xoring their little-endian value into the register first. *)
Lemma lor_byte_lxor b y : Z.lor (byte.unsigned b) (Z.shiftl y 8) = Z.lxor (byte.unsigned b) (Z.shiftl y 8).
Proof.
  symmetry. apply Z.lxor_lor, Z.bits_inj'. intros n Hn. rewrite Z.land_spec, Z.bits_0. destruct (decide (n < 8)).
  - rewrite Z.shiftl_spec_low by done. apply andb_false_r.
  - pose proof (byte.unsigned_range b). rewrite (Z.bits_above_log2 (byte.unsigned b)); [done|lia|].
    destruct (decide (byte.unsigned b = 0)) as [->|]; [cbn; lia|]. apply Z.log2_lt_pow2; [lia|].
    apply Z.lt_le_trans with (2 ^ 8); [lia|]. apply Z.pow_le_mono_r; lia.
Qed.

Lemma fold_word l x :
  fold_left (byte_step poly) l x = Nat.iter (8 * length l) (step poly) (Z.lxor x (le_combine l)).
Proof.
  revert x. induction l as [|b l IH]; intros x.
  - cbn. by rewrite Z.lxor_0_r.
  - rewrite fold_left_cons, IH, byte_step_unfold. replace (8 * length (b :: l))%nat with (8 * length l + 8)%nat by (cbn; lia).
    rewrite Nat.iter_add. f_equal. change (le_combine (b :: l)) with (Z.lor (byte.unsigned b) (Z.shiftl (le_combine l) 8)). rewrite lor_byte_lxor, <-Z.lxor_assoc. rewrite (iter_step_lxor 8 (Z.lxor x _)). f_equal.
    generalize (le_combine l). intros y. symmetry. apply (iter_step_shiftl 8).
Qed.

(** Two messages that differ only inside a window of at most four bytes. *)
Lemma fold_burst pre w w' post x :
  u32 x → length w = length w' → (length w ≤ 4)%nat →
  fold_left (byte_step poly) (pre ++ w ++ post) x = fold_left (byte_step poly) (pre ++ w' ++ post) x → w = w'.
Proof.
  intros Hx Hl H4 H. rewrite !fold_left_app in H. set (y := fold_left (byte_step poly) pre x) in *.
  assert (Hy : u32 y) by by apply u32_fold. apply fold_inj_reg in H; [|by apply u32_fold..].
  assert (Hlc : ∀ v : bytes, (length v ≤ 4)%nat → u32 (le_combine v)).
  { intros v Hv. pose proof (le_combine_bound v) as Hb. unfold u32. split; [lia|].
    apply Z.lt_le_trans with (2 ^ (8 * Z.of_nat (length v))); [lia|]. apply Z.pow_le_mono_r; lia. }
  rewrite !fold_word, <-Hl in H. apply iter_step_inj in H; [|apply u32_lxor; [done|apply Hlc; lia]..].
  apply (f_equal (Z.lxor y)) in H. rewrite <-!Z.lxor_assoc, Z.lxor_nilpotent, !Z.lxor_0_l in H.
  rewrite <-(split_le_combine w), <-(split_le_combine w'). by rewrite H, Hl.
Qed.
End Poly.

End Crc.

(** * CRC-32 (IEEE) of TickvLite *)

Module Crc32.

Definition POLY : Z := 0xEDB88320.

(** [tickv.rs::crc32]: covers only [key ‖ val] of a record. *)
Definition crc32 (data : bytes) : Z :=
  Z.lxor (fold_left (Crc.byte_step POLY) data 0xFFFFFFFF) 0xFFFFFFFF.

Lemma u32_init : Crc.u32 0xFFFFFFFF.
Proof. by vm_compute. Qed.

Lemma u32_poly : Crc.u32 POLY.
Proof. by vm_compute. Qed.

Lemma crc32_u32 data : Crc.u32 (crc32 data).
Proof.
  unfold crc32. apply Crc.u32_lxor; [|apply u32_init].
  apply Crc.u32_fold; [apply u32_poly|apply u32_init].
Qed.

Lemma crc32_one_byte pre a b post :
  a ≠ b → crc32 (pre ++ a :: post) ≠ crc32 (pre ++ b :: post).
Proof.
  unfold crc32. intros Hab H.
  apply (f_equal (λ z, Z.lxor z 0xFFFFFFFF)) in H.
  rewrite !Z.lxor_assoc, Z.lxor_nilpotent, !Z.lxor_0_r in H.
  revert H. by apply Crc.fold_one_byte; [apply u32_poly| |apply u32_init|].
Qed.

End Crc32.

(** * CRC-32C (Castagnoli) of NeuralFS *)

Module Crc32c.

Definition POLY : Z := 0x82F63B78.

(** Inner loop of [make_table]. *)
Definition table_bit (crc : Z) : Z :=
  if negb (Z.land crc 1 =? 0) then Z.lxor (Z.shiftr crc 1) POLY else Z.shiftr crc 1.

Definition make_table : list Z := Nat.iter 8 table_bit <$> seqZ 0 256.

Definition CRC32C_TABLE : list Z := Eval vm_compute in make_table.

(** [Crc32c::new], [update] and [finish]: the streaming state is the register. *)
Definition new : Z := 0xFFFFFFFF.

Definition update_byte (st : Z) (b : Byte.byte) : Z :=
  Z.lxor (nth (Z.to_nat (Z.lxor (Z.land st 255) (byte.unsigned b))) CRC32C_TABLE 0) (Z.shiftr st 8).

Definition update (st : Z) (data : bytes) : Z := fold_left update_byte data st.

Definition finish (st : Z) : Z := Z.lxor st 0xFFFFFFFF.

Definition crc32c (data : bytes) : Z := finish (update new data).

(** [crc32c_block] and [verify_block] on a 4096-byte block. *)
Definition crc32c_block (block : bytes) : Z := crc32c (slice 4 4092 block).

Definition verify_block (block : bytes) : bool :=
  from_le_bytes (slice 0 4 block) =? crc32c_block block.

Arguments update_byte : simpl never.

Lemma u32c_init : Crc.u32 new.
Proof. by vm_compute. Qed.

Lemma u32c_poly : Crc.u32 POLY.
Proof. by vm_compute. Qed.

Lemma poly_top : Z.testbit POLY 31 = true.
Proof. done. Qed.

Lemma make_table_eq : CRC32C_TABLE = make_table.
Proof. by vm_compute. Qed.

Lemma table_bit_step x : table_bit x = Crc.step POLY x.
Proof. unfold table_bit, Crc.step. destruct (negb _); [done|]. by rewrite Z.lxor_0_r. Qed.

Lemma table_lookup i :
  0 ≤ i < 256 → nth (Z.to_nat i) CRC32C_TABLE 0 = Nat.iter 8 (Crc.step POLY) i.
Proof.
  intros Hi. rewrite make_table_eq. unfold make_table.
  apply nth_lookup_Some. rewrite list_lookup_fmap, lookup_seqZ_lt by lia.
  cbn [fmap option_fmap option_map]. f_equal. rewrite Z2Nat.id by lia.
  generalize 8%nat. intros n. rewrite Z.add_0_l.
  induction n as [|n IH]; [done|]. by rewrite !Nat.iter_succ, IH, table_bit_step.
Qed.

Lemma low_byte_lxor st b :
  Z.land (Z.lxor st (byte.unsigned b)) 255 = Z.lxor (Z.land st 255) (byte.unsigned b).
Proof.
  pose proof (byte.unsigned_range b) as Hb.
  change 255 with (Z.ones 8).
  assert (Hl : Z.land (byte.unsigned b) (Z.ones 8) = byte.unsigned b).
  { rewrite Z.land_ones by lia. apply Z.mod_small. lia. }
  rewrite <-Hl at 2. apply Z.bits_inj'. intros n Hn. rewrite !Z.land_spec, !Z.lxor_spec, !Z.land_spec.
  by destruct (Z.testbit st n), (Z.testbit (byte.unsigned b) n), (Z.testbit (Z.ones 8) n).
Qed.

Lemma high_lxor_byte st b : Z.shiftr (Z.lxor st (byte.unsigned b)) 8 = Z.shiftr st 8.
Proof.
  pose proof (byte.unsigned_range b) as Hb.
  rewrite Z.shiftr_lxor, (Z.shiftr_div_pow2 (byte.unsigned b)) by lia.
  rewrite (Z.div_small (byte.unsigned b)) by lia. by rewrite Z.lxor_0_r.
Qed.

Lemma update_byte_step st b : update_byte st b = Crc.byte_step POLY st b.
Proof.
  unfold update_byte. rewrite Crc.byte_step_unfold, Crc.iter_step_split.
  rewrite low_byte_lxor, high_lxor_byte. f_equal. apply table_lookup.
  rewrite <-low_byte_lxor. change 255 with (Z.ones 8). rewrite Z.land_ones by lia.
  apply Z.mod_pos_bound. lia.
Qed.

Lemma update_steps data st : update st data = fold_left (Crc.byte_step POLY) data st.
Proof.
  revert st. unfold update. induction data as [|b l IH]; intros st; [done|].
  rewrite !fold_left_cons, IH. by rewrite update_byte_step.
Qed.

Lemma update_app st a b : update st (a ++ b) = update (update st a) b.
Proof. apply fold_left_app. Qed.

Lemma crc32c_u32 data : Crc.u32 (crc32c data).
Proof.
  unfold crc32c, finish. rewrite update_steps. apply Crc.u32_lxor; [|by vm_compute].
  apply Crc.u32_fold; [apply u32c_poly|apply u32c_init].
Qed.

Lemma crc32c_one_byte pre a b post :
  a ≠ b → crc32c (pre ++ a :: post) ≠ crc32c (pre ++ b :: post).
Proof.
  unfold crc32c, finish. intros Hab H.
  apply (f_equal (λ z, Z.lxor z 0xFFFFFFFF)) in H.
  rewrite !Z.lxor_assoc, Z.lxor_nilpotent, !Z.lxor_0_r, !update_steps in H.
  revert H. by apply Crc.fold_one_byte; [apply u32c_poly|apply poly_top|apply u32c_init|].
Qed.

Lemma crc32c_burst pre w w' post :
  length w = length w' → (length w ≤ 4)%nat → crc32c (pre ++ w ++ post) = crc32c (pre ++ w' ++ post) → w = w'.
Proof.
  unfold crc32c, finish. intros Hl H4 H. apply (f_equal (λ z, Z.lxor z 0xFFFFFFFF)) in H.
  rewrite !Z.lxor_assoc, Z.lxor_nilpotent, !Z.lxor_0_r, !update_steps in H.
  by apply Crc.fold_burst in H; [|apply u32c_poly|apply poly_top|apply u32c_init|..].
Qed.

End Crc32c.

(** * FNV-1a, 64 bits *)

Module Fnv.

Definition OFFSET : Z := 0xcbf29ce484222325.
Definition PRIME : Z := 0x100000001b3.

(** [h ^= b; h = h.wrapping_mul(PRIME)]. *)
Definition fnv_byte (h : Z) (b : Byte.byte) : Z := u64_mul (Z.lxor h (byte.unsigned b)) PRIME.

Definition fnv (h : Z) (data : bytes) : Z := fold_left fnv_byte data h.

Arguments fnv_byte : simpl never.

Lemma fnv_byte_u64 h b : 0 ≤ fnv_byte h b < 2 ^ 64.
Proof. apply Z.mod_pos_bound. lia. Qed.

Lemma fnv_u64 h data : 0 ≤ h < 2 ^ 64 → 0 ≤ fnv h data < 2 ^ 64.
Proof.
  unfold fnv. revert h. induction data as [|b l IH]; intros h Hh; [done|].
  rewrite fold_left_cons. apply IH, fnv_byte_u64.
Qed.

End Fnv.

(** * Theorems *)

Import Crc32c.

(** The register of a bit-serial CRC-32C: shift right, conditionally xor. *)
Definition crc32c_bitwise (data : bytes) : Z :=
  Z.lxor (fold_left (λ c b, Nat.iter 8 (Crc.step POLY) (Z.lxor c (byte.unsigned b))) data 0xFFFFFFFF) 0xFFFFFFFF.

(** Equivalence of the optimised routine with its reference. The table-driven
    CRC-32C, fed in any number of chunks, is the bit-serial CRC of the chunks
    concatenated. *)
Theorem crc32c_table_is_bitwise (chunks : list bytes) :
  finish (fold_left update chunks new) = crc32c_bitwise (concat chunks).
Proof.
  assert (Hc : ∀ st, fold_left update chunks st = update st (concat chunks)).
  { induction chunks as [|c cs IH]; intros st; [done|]. cbn [fold_left concat]. by rewrite IH, update_app. }
  unfold finish, crc32c_bitwise. rewrite Hc, update_steps. f_equal.
Qed.

(** Error detection of NeuralFS blocks. A 4096-byte block that verifies stops
    verifying when any one of its bytes, stored checksum included, is replaced by a
    different one. *)
Theorem verify_block_detects block (i : nat) a b :
  length block = 4096%nat → verify_block block = true → block !! i = Some a → a ≠ b →
  verify_block (<[i := b]> block) = false.
Proof.
  intros Hlen Hv Ha Hab. apply lookup_lt_Some in Ha as Hi. unfold verify_block in *. apply Z.eqb_eq in Hv.
  apply Z.eqb_neq. unfold crc32c_block in *. intros Hc.
  assert (Hs : ∀ o n (l : bytes), slice o n l = take (Z.to_nat n) (drop (Z.to_nat o) l)) by done.
  rewrite !Hs in *. change (Z.to_nat 0) with 0%nat in *. change (Z.to_nat 4) with 4%nat in *.
  change (Z.to_nat 4092) with 4092%nat in *. rewrite !drop_0 in *.
  destruct (decide (i < 4)%nat) as [Hi4|Hi4].
  - rewrite drop_insert_lt in Hc by lia. rewrite <-Hv in Hc.
    apply le_combine_inj_length in Hc; [|rewrite !length_take, length_insert; lia].
    apply (f_equal (.!! i)) in Hc. rewrite !lookup_take_lt, list_lookup_insert_eq in Hc by lia. congruence.
  - rewrite take_insert_ge in Hc by lia. rewrite Hv in Hc. clear Hv.
    rewrite drop_insert_ge in Hc by lia. rewrite !(take_ge _ 4092) in Hc by (rewrite ?length_insert, length_drop; lia).
    set (t := drop 4 block) in *. assert (Ht : t !! (i - 4)%nat = Some a).
    { unfold t. rewrite lookup_drop. by replace (4 + (i - 4))%nat with i by lia. }
    rewrite <-(take_drop_middle t (i - 4) a Ht) in Hc at 1.
    rewrite insert_take_drop in Hc by (by apply lookup_lt_Some in Ht).
    by apply crc32c_one_byte in Hc.
Qed.

Definition sealed_block : bytes :=
  let body := replicate 4092 Byte.x41 in to_le_bytes 4 (crc32c body) ++ body.

Lemma verify_block_detects_witness : verify_block (<[9%nat := Byte.x42]> sealed_block) = false.
Proof.
  apply (verify_block_detects sealed_block 9 Byte.x41 Byte.x42); by vm_compute.
Defined.
