(* ===== verification/Flash.v ===== *)
(** Flash backends of the key-value store ([crates/k_nano/src/storage/flash.rs]):
    the [FlashController] trait as a class with its laws, the RAM backend, the
    backend over a FAT file's sector chain, the NVMe region and the dispatching
    [ActiveFlash].

    The drivers behind [BlockDevice] are hardware: the device is a parameter. *)

From S2P Require Import Prelude.

(** * Block devices *)

(** [trait BlockDevice]: [bd_read d lba n] is [read_sectors(lba, buf)] with an
    [n]-byte buffer ([None] when the call returns [false]); [bd_write] returns
    the flag and the device after the call. *)
Class BlockDevice (D : Type) := {
  bd_read : D → Z → Z → option bytes;
  bd_write : D → Z → bytes → bool * D;
  bd_total_sectors : D → Z;
}.

(** * The [FlashController] trait *)

Class FlashController (F : Type) := {
  fl_read : F → Z → Z → res bytes;
  fl_write : F → Z → bytes → res unit * F;
  fl_erase : F → Z → Z → res unit * F;
  fl_size_bytes : F → Z;
}.

(** What a client may rely on: a byte-addressable volume with exact reads and
    writes, refusals that change nothing, and an [erase] that leaves every byte
    outside its range alone. *)
Class FlashLaws (F : Type) `{FlashController F} (fl_ok : F → Prop) (contents : F → bytes) := {
  fl_size_contents : ∀ f, fl_ok f → fl_size_bytes f = zlen (contents f);
  fl_read_in : ∀ f o n, fl_ok f → 0 ≤ o → 0 ≤ n → o + n ≤ zlen (contents f) →
    fl_read f o n = Ok (slice o n (contents f));
  fl_write_in : ∀ f o d, fl_ok f → 0 ≤ o → o + zlen d ≤ zlen (contents f) →
    ∃ f', fl_write f o d = (Ok tt, f') ∧ fl_ok f' ∧ contents f' = splice o d (contents f);
  fl_write_oob : ∀ f o d, fl_ok f → 0 ≤ o → o + zlen d < 2 ^ 64 →
    zlen (contents f) < o + zlen d → fl_write f o d = (Err "oob", f);
  fl_erase_frame : ∀ f o n, fl_ok f → 0 ≤ o → 0 ≤ n → o + n < 2 ^ 64 →
    ∃ r f', fl_erase f o n = (r, f') ∧ (r = Ok tt ∨ r = Err "oob") ∧ fl_ok f' ∧
      zlen (contents f') = zlen (contents f) ∧
      (∀ p m, 0 ≤ p → 0 ≤ m → (p + m ≤ o ∨ o + n ≤ p) →
         slice p m (contents f') = slice p m (contents f));
}.

(** * RAM backend *)

Module Ram.

Record RamFlash := mkRam { data : bytes }.

(** [RamFlash::new] indexes [data[0]]: a zero-sized volume panics. *)
Definition new (size : Z) : res RamFlash :=
  if size <=? 0 then Panic else Ok (mkRam (replicate (Z.to_nat size) Byte.x00)).

(** [o + buf.len()] wraps in the release profile; a wrapped end that passes the
    bound check makes the slice [o..o+len] panic. *)
Definition read (f : RamFlash) (offset n : Z) : res bytes :=
  let e := u64_add offset n in
  if zlen (data f) <? e then Err "oob"
  else if e <? offset then Panic
  else Ok (slice offset n (data f)).

Definition write (f : RamFlash) (offset : Z) (d : bytes) : res unit * RamFlash :=
  let e := u64_add offset (zlen d) in
  if zlen (data f) <? e then (Err "oob", f)
  else if e <? offset then (Panic, f)
  else (Ok tt, mkRam (splice offset d (data f))).

Definition erase (f : RamFlash) (offset size : Z) : res unit * RamFlash :=
  let e := u64_add offset size in
  if zlen (data f) <? e then (Err "oob", f)
  else if e <? offset then (Panic, f)
  else (Ok tt, mkRam (splice offset (replicate (Z.to_nat size) Byte.xff) (data f))).

Definition size_bytes (f : RamFlash) : Z := zlen (data f).

#[global] Instance ram_controller : FlashController RamFlash := {
  fl_read := read; fl_write := write; fl_erase := erase; fl_size_bytes := size_bytes;
}.

(** A [Vec]'s length is at most [isize::MAX]. *)
Definition ram_ok (f : RamFlash) : Prop := zlen (data f) < 2 ^ 63.

Lemma zlen_replicate_Z {A} n (x : A) : 0 ≤ n → zlen (replicate (Z.to_nat n) x) = n.
Proof. intros. unfold zlen. rewrite length_replicate. lia. Qed.

#[global] Instance ram_laws : FlashLaws RamFlash ram_ok data.
Proof.
  split; intros f; unfold ram_ok; cbn [fl_size_bytes fl_read fl_write fl_erase ram_controller].
  - done.
  - intros o n Hok Ho Hn Hb. unfold read. rewrite u64_add_small by lia.
    rewrite (proj2 (Z.ltb_ge _ _)), (proj2 (Z.ltb_ge _ _)) by lia. done.
  - intros o d Hok Ho Hb. unfold write. pose proof (zlen_nonneg d).
    rewrite u64_add_small by lia.
    rewrite (proj2 (Z.ltb_ge _ _)), (proj2 (Z.ltb_ge _ _)) by lia.
    eexists. split; [done|]. simpl. by rewrite zlen_splice.
  - intros o d Hok Ho Hs Hb. unfold write. pose proof (zlen_nonneg d).
    rewrite u64_add_small by lia. by rewrite (proj2 (Z.ltb_lt _ _)) by lia.
  - intros o n Hok Ho Hn Hs. unfold erase. rewrite u64_add_small by lia.
    destruct (Z.ltb_spec (zlen (data f)) (o + n)).
    { do 2 eexists. split_and!; eauto. }
    rewrite (proj2 (Z.ltb_ge _ _)) by lia.
    assert (Hr := zlen_replicate_Z n Byte.xff Hn).
    do 2 eexists. split; [done|]. simpl. rewrite zlen_splice by lia.
    split_and!; [by left|done|done|]. intros p m Hp Hm [Hd|Hd].
    + apply slice_splice_before; lia.
    + apply slice_splice_after; lia.
Qed.

End Ram.

(** * NVMe region *)

Module Nvme.

Record NvmeFlashRegion (D : Type) := mkNvme { base_lba : Z; total_lbas : Z; driver : option D }.
Arguments mkNvme {D} _ _ _.
Arguments base_lba {D} _.
Arguments total_lbas {D} _.
Arguments driver {D} _.

Section Nvme.
Context {D : Type} `{BlockDevice D}.

(** [default_region]: the last 32 MiB before the backup GPT. *)
Definition default_region (driver : option D) : NvmeFlashRegion D :=
  let total := match driver with Some n => bd_total_sectors n | None => 0 end in
  if 34 + 65536 <? total then mkNvme (total - 34 - 65536) 65536 driver
  else mkNvme 2048 65536 driver.

Definition read (f : NvmeFlashRegion D) (offset n : Z) : res bytes :=
  if negb (offset mod 512 =? 0) || negb (n mod 512 =? 0) then Err "unaligned" else
  let lba0 := u64_add (base_lba f) (offset / 512) in
  if u64_add (base_lba f) (total_lbas f) <? u64_add lba0 (n / 512) then Err "oob" else
  nvme ← ok_or (driver f) "no nvme";
  ok_or (bd_read nvme lba0 n) "nvme read fail".

Definition write (f : NvmeFlashRegion D) (offset : Z) (d : bytes) : res unit * NvmeFlashRegion D :=
  if negb (offset mod 512 =? 0) || negb (zlen d mod 512 =? 0) then (Err "unaligned", f) else
  let lba0 := u64_add (base_lba f) (offset / 512) in
  if u64_add (base_lba f) (total_lbas f) <? u64_add lba0 (zlen d / 512) then (Err "oob", f) else
  match driver f with
  | None => (Err "no nvme", f)
  | Some nvme =>
      let '(ok, nvme') := bd_write nvme lba0 d in
      (if ok then Ok tt else Err "nvme write fail",
       mkNvme (base_lba f) (total_lbas f) (Some nvme'))
  end.

Definition erase (f : NvmeFlashRegion D) (offset size : Z) : res unit * NvmeFlashRegion D :=
  (Ok tt, f).

Definition size_bytes (f : NvmeFlashRegion D) : Z := u64_sat_mul (total_lbas f) 512.
End Nvme.

End Nvme.

(** * File backend: a FAT file's sector chain *)

Module File.

Inductive FlashDev := Usb | Ata | Ahci | NvmeDev | VirtioBlk.

Definition name (d : FlashDev) : string :=
  match d with
  | Usb => "usb" | Ata => "ata" | Ahci => "ahci" | NvmeDev => "nvme" | VirtioBlk => "virtio"
  end.

(** The driver slots the dispatch looks at. *)
Record Globals (D : Type) := mkGlobals {
  usb_msc : option D; ata : option D; ahci : option D; nvme : option D;
  virtio_legacy : option D; virtio_modern : option D;
}.
Arguments mkGlobals {D} _ _ _ _ _ _.
Arguments usb_msc {D} _.
Arguments ata {D} _.
Arguments ahci {D} _.
Arguments nvme {D} _.
Arguments virtio_legacy {D} _.
Arguments virtio_modern {D} _.

Section Chain.
Context {D : Type} `{BlockDevice D}.

Definition set_usb (d : D) (g : Globals D) : Globals D :=
  mkGlobals (Some d) (ata g) (ahci g) (nvme g) (virtio_legacy g) (virtio_modern g).
Definition set_ata (d : D) (g : Globals D) : Globals D :=
  mkGlobals (usb_msc g) (Some d) (ahci g) (nvme g) (virtio_legacy g) (virtio_modern g).
Definition set_ahci (d : D) (g : Globals D) : Globals D :=
  mkGlobals (usb_msc g) (ata g) (Some d) (nvme g) (virtio_legacy g) (virtio_modern g).
Definition set_nvme (d : D) (g : Globals D) : Globals D :=
  mkGlobals (usb_msc g) (ata g) (ahci g) (Some d) (virtio_legacy g) (virtio_modern g).
Definition set_virtio_legacy (d : D) (g : Globals D) : Globals D :=
  mkGlobals (usb_msc g) (ata g) (ahci g) (nvme g) (Some d) (virtio_modern g).
Definition set_virtio_modern (d : D) (g : Globals D) : Globals D :=
  mkGlobals (usb_msc g) (ata g) (ahci g) (nvme g) (virtio_legacy g) (Some d).

(** [chain_read]: the loop from [pos], with [n] bytes still to read. Each turn
    reads one sector, either whole into the buffer or partly through a bounce
    buffer. *)
Fixpoint chain_read_loop (fuel : nat) (sectors : list Z) (rd : Z → option bytes)
    (pos n : Z) (buf : bytes) : res bytes :=
  match fuel with
  | O => OutOfFuel
  | S fuel' =>
      if n <=? 0 then Ok buf else
      let in_off := pos mod 512 in
      let take_ := Z.min (512 - in_off) n in
      match sectors !! Z.to_nat (pos / 512) with
      | None => Panic
      | Some lba =>
          match rd lba with
          | None => Err "io"
          | Some sec =>
              let part := if (in_off =? 0) && (take_ =? 512) then sec else slice in_off take_ sec in
              chain_read_loop fuel' sectors rd (pos + take_) (n - take_) (buf ++ part)
          end
      end
  end.

Definition chain_read (sectors : list Z) (offset n : Z) (rd : Z → option bytes) : res bytes :=
  if zlen sectors * 512 <? u64_sat_add offset n then Err "oob"
  else chain_read_loop (Z.to_nat (n / 512) + 3) sectors rd offset n [].

(** [chain_write]: partial sectors are read, patched and written back. *)
Fixpoint chain_write_loop (fuel : nat) (sectors : list Z) (pos : Z) (d : bytes) (dev : D)
    : res unit * D :=
  match fuel with
  | O => (OutOfFuel, dev)
  | S fuel' =>
      if zlen d <=? 0 then (Ok tt, dev) else
      let in_off := pos mod 512 in
      let take_ := Z.min (512 - in_off) (zlen d) in
      match sectors !! Z.to_nat (pos / 512) with
      | None => (Panic, dev)
      | Some lba =>
          let chunk := slice 0 take_ d in
          let rest := slice take_ (zlen d - take_) d in
          if (in_off =? 0) && (take_ =? 512) then
            match bd_write dev lba chunk with
            | (true, dev') => chain_write_loop fuel' sectors (pos + take_) rest dev'
            | (false, dev') => (Err "io", dev')
            end
          else
            match bd_read dev lba 512 with
            | None => (Err "io", dev)
            | Some sec =>
                match bd_write dev lba (splice in_off chunk sec) with
                | (true, dev') => chain_write_loop fuel' sectors (pos + take_) rest dev'
                | (false, dev') => (Err "io", dev')
                end
            end
      end
  end.

Definition chain_write (sectors : list Z) (offset : Z) (d : bytes) (dev : D) : res unit * D :=
  if zlen sectors * 512 <? u64_sat_add offset (zlen d) then (Err "oob", dev)
  else chain_write_loop (Z.to_nat (zlen d / 512) + 3) sectors offset d dev.

(** [with_flash_dev]: the closure runs on the selected driver, whose absence
    is the error; a legacy virtio driver takes precedence over the modern one. *)
Definition with_flash_dev {R} (dev : FlashDev) (f : D → R * D) (g : Globals D)
    : res R * Globals D :=
  let run (slot : option D) (put : D → Globals D) (e : string) :=
    match slot with
    | None => (Err e, g)
    | Some d => let '(r, d') := f d in (Ok r, put d')
    end in
  match dev with
  | Usb => run (usb_msc g) (λ d, set_usb d g) "no usb"
  | Ata => run (ata g) (λ d, set_ata d g) "no ata"
  | Ahci => run (ahci g) (λ d, set_ahci d g) "no ahci"
  | NvmeDev => run (nvme g) (λ d, set_nvme d g) "no nvme"
  | VirtioBlk =>
      match virtio_legacy g with
      | Some _ => run (virtio_legacy g) (λ d, set_virtio_legacy d g) "no virtio_blk"
      | None => run (virtio_modern g) (λ d, set_virtio_modern d g) "no virtio_blk"
      end
  end.

(** The chain is resolved once; the driver is looked up at every operation. *)
Record FileFlash := mkFile { sectors : list Z; dev : FlashDev; globals : Globals D }.

Definition read (f : FileFlash) (offset n : Z) : res bytes :=
  r ← (with_flash_dev (dev f)
         (λ d, (chain_read (sectors f) offset n (λ lba, bd_read d lba 512), d)) (globals f)).1;
  r.

Definition write (f : FileFlash) (offset : Z) (data : bytes) : res unit * FileFlash :=
  let '(r, g') := with_flash_dev (dev f) (chain_write (sectors f) offset data) (globals f) in
  (rr ← r; rr, mkFile (sectors f) (dev f) g').

Definition erase (f : FileFlash) (offset size : Z) : res unit * FileFlash := (Ok tt, f).

Definition size_bytes (f : FileFlash) : Z := u64_mul (zlen (sectors f)) 512.

#[global] Instance file_controller : FlashController FileFlash := {
  fl_read := read; fl_write := write; fl_erase := erase; fl_size_bytes := size_bytes;
}.
End Chain.
Arguments FileFlash D : clear implicits.

(** ** The chain behaves as one contiguous volume *)

(** What the backend needs of a driver: sectors in [valid] hold 512 bytes, read
    back what was last written, and do not fail. *)
Class DiskLaws (D : Type) `{BlockDevice D} (valid : Z → Prop) (sec : D → Z → bytes) := {
  sec_len : ∀ d lba, valid lba → zlen (sec d lba) = 512;
  bd_read_sec : ∀ d lba, valid lba → bd_read d lba 512 = Some (sec d lba);
  bd_write_sec : ∀ d lba b, valid lba → zlen b = 512 →
    ∃ d', bd_write d lba b = (true, d') ∧
      ∀ l, sec d' l = if decide (l = lba) then b else sec d l;
}.

Section ChainLaws.
Context {D : Type} `{DiskLaws D valid sec}.

(** The bytes of the file, in chain order. *)
Definition chain_bytes (ss : list Z) (d : D) : bytes := concat (sec d <$> ss).

Lemma zlen_chain_bytes ss d : Forall valid ss → zlen (chain_bytes ss d) = zlen ss * 512.
Proof.
  unfold chain_bytes. induction 1 as [|s ss Hs _ IH]; [done|].
  cbn [fmap list_fmap concat]. rewrite zlen_app, IH, sec_len, zlen_cons by done. lia.
Qed.

Lemma slice_chain_sector ss d i lba :
  Forall valid ss → ss !! i = Some lba →
  slice (512 * Z.of_nat i) 512 (chain_bytes ss d) = sec d lba.
Proof.
  unfold chain_bytes. intros Hv. revert i. induction Hv as [|s ss Hs Hv IH]; intros i Hi; [done|].
  cbn [fmap list_fmap concat]. destruct i as [|i]; simplify_eq/=.
  - change (512 * Z.of_nat 0) with 0. by apply slice_app_exact, sec_len.
  - rewrite slice_app_r; rewrite sec_len by done; [|lia].
    rewrite <-(IH i Hi). f_equal. lia.
Qed.

(** A driver write to one sector is a splice of the file, provided the chain
    visits that sector once. *)
Lemma chain_bytes_write ss d d' i lba b :
  Forall valid ss → NoDup ss → ss !! i = Some lba → zlen b = 512 →
  (∀ l, sec d' l = if decide (l = lba) then b else sec d l) →
  chain_bytes ss d' = splice (512 * Z.of_nat i) b (chain_bytes ss d).
Proof.
  unfold chain_bytes. intros Hv Hnd. revert i.
  induction Hv as [|s ss Hs Hv IH]; intros i Hi Hb Hd; [done|].
  apply NoDup_cons in Hnd as [Hnin Hnd].
  cbn [fmap list_fmap concat]. destruct i as [|i]; simplify_eq/=.
  - rewrite Hd, decide_True by done. change (512 * Z.of_nat 0) with 0.
    rewrite splice_0, drop_app_ge.
    2:{ pose proof (sec_len d lba Hs). unfold zlen in *. lia. }
    pose proof (sec_len d lba Hs). unfold zlen in *.
    replace (length b - length (sec d lba))%nat with 0%nat by lia. cbn [drop].
    f_equal. apply (f_equal (@concat _)).
    apply list_fmap_ext. intros j x Hx. rewrite Hd, decide_False; [done|].
    intros ->. apply Hnin. by eapply list_elem_of_lookup_2.
  - assert (Hne : s ≠ lba). { intros ->. apply Hnin. by eapply list_elem_of_lookup_2. }
    rewrite splice_app_r; rewrite sec_len by done; [|lia].
    rewrite Hd, decide_False by done. f_equal. rewrite (IH Hnd i Hi Hb Hd). f_equal. lia.
Qed.

(** Fuel enough for [n] bytes from [pos]: one turn per sector touched, and the
    one that sees nothing left. *)
Definition enough (fuel : nat) (pos n : Z) : Prop :=
  1 ≤ Z.of_nat fuel ∧ (0 < n → pos mod 512 + n ≤ 512 * (Z.of_nat fuel - 1)).

Lemma next_sector pos : (pos + (512 - pos mod 512)) mod 512 = 0.
Proof.
  pose proof (Z.div_mod pos 512 ltac:(lia)).
  replace (pos + (512 - pos mod 512)) with ((pos / 512 + 1) * 512) by lia.
  apply Z.mod_mul. lia.
Qed.

Lemma enough_step fuel pos n :
  0 ≤ pos → 0 < n → enough (S fuel) pos n →
  let t := Z.min (512 - pos mod 512) n in 0 < t ∧ enough fuel (pos + t) (n - t).
Proof.
  intros Hp Hn [Hf He] t. specialize (He Hn).
  pose proof (Z.mod_pos_bound pos 512 ltac:(lia)). unfold enough, t.
  destruct (Z.min_spec (512 - pos mod 512) n) as [[Hlt ->]|[Hge ->]].
  - rewrite next_sector. lia.
  - lia.
Qed.

Lemma enough_init pos n : 0 ≤ pos → 0 ≤ n → enough (Z.to_nat (n / 512) + 3) pos n.
Proof.
  intros. unfold enough. pose proof (Z.mod_pos_bound pos 512 ltac:(lia)).
  pose proof (Z.div_mod n 512 ltac:(lia)). pose proof (Z.mod_pos_bound n 512 ltac:(lia)).
  assert (0 ≤ n / 512) by (apply Z.div_pos; lia). lia.
Qed.

(** The sector a turn works on, as a part of the file. *)
Lemma sector_at ss d pos :
  Forall valid ss → 0 ≤ pos < zlen ss * 512 →
  ∃ lba, ss !! Z.to_nat (pos / 512) = Some lba ∧ valid lba ∧
    sec d lba = slice (pos - pos mod 512) 512 (chain_bytes ss d) ∧
    0 ≤ pos - pos mod 512 ∧ pos - pos mod 512 + 512 ≤ zlen (chain_bytes ss d).
Proof.
  intros Hv Hp. pose proof (Z.div_mod pos 512 ltac:(lia)).
  pose proof (Z.mod_pos_bound pos 512 ltac:(lia)).
  assert (0 ≤ pos / 512) by (apply Z.div_pos; lia).
  destruct (lookup_lt_is_Some_2 ss (Z.to_nat (pos / 512))) as [lba Hl].
  { unfold zlen in *. lia. }
  exists lba. rewrite zlen_chain_bytes by done. split_and!; [done| | |lia|unfold zlen in *; lia].
  - by eapply Forall_lookup_1.
  - rewrite <-(slice_chain_sector ss d _ _ Hv Hl). f_equal. lia.
Qed.

Lemma chain_read_loop_spec fuel ss d pos n buf :
  Forall valid ss → 0 ≤ pos → 0 ≤ n → pos + n ≤ zlen ss * 512 → enough fuel pos n →
  chain_read_loop fuel ss (λ lba, bd_read d lba 512) pos n buf
  = Ok (buf ++ slice pos n (chain_bytes ss d)).
Proof.
  intros Hv. revert pos n buf. induction fuel as [|fuel IH]; intros pos n buf Hp Hn Hb He.
  { destruct He. lia. }
  cbn [chain_read_loop]. destruct (Z.leb_spec n 0).
  { replace n with 0 by lia. by rewrite slice_zero, app_nil_r. }
  destruct (sector_at ss d pos Hv ltac:(lia)) as (lba & Hl & Hlv & Hsec & Hlo & Hhi).
  rewrite Hl, bd_read_sec by done.
  apply enough_step in He; [|lia..]. cbv zeta in He. destruct He as [Ht He].
  pose proof (Z.mod_pos_bound pos 512 ltac:(lia)).
  set (t := Z.min (512 - pos mod 512) n) in *.
  assert (Hpart : (if (pos mod 512 =? 0) && (t =? 512) then sec d lba
                   else slice (pos mod 512) t (sec d lba)) = slice pos t (chain_bytes ss d)).
  { assert (Hs : slice (pos mod 512) t (sec d lba) = slice pos t (chain_bytes ss d)).
    { rewrite Hsec, slice_slice by lia. f_equal. lia. }
    destruct (Z.eqb_spec (pos mod 512) 0) as [E|]; [|done]. rewrite E in *.
    destruct (Z.eqb_spec t 512) as [->|]; [|done]. simpl. rewrite <-Hs.
    rewrite <-(sec_len d lba Hlv). by rewrite slice_full. }
  rewrite Hpart, IH; [|lia..|done]. f_equal. rewrite <-app_assoc. f_equal.
  rewrite <-slice_add by lia. f_equal. lia.
Qed.

Lemma chain_write_loop_spec fuel ss d pos b :
  Forall valid ss → NoDup ss → 0 ≤ pos → pos + zlen b ≤ zlen ss * 512 → enough fuel pos (zlen b) →
  ∃ d', chain_write_loop fuel ss pos b d = (Ok tt, d') ∧
    chain_bytes ss d' = splice pos b (chain_bytes ss d).
Proof.
  intros Hv Hnd. revert pos b d. induction fuel as [|fuel IH]; intros pos b d Hp Hb He.
  { destruct He. lia. }
  cbn [chain_write_loop]. destruct (Z.leb_spec (zlen b) 0).
  { rewrite (zlen_le_0 b) by done. exists d. by rewrite splice_nil. }
  destruct (sector_at ss d pos Hv ltac:(lia)) as (lba & Hl & Hlv & Hsec & Hlo & Hhi).
  rewrite Hl. apply enough_step in He; [|lia..]. cbv zeta in He. destruct He as [Ht He].
  pose proof (Z.mod_pos_bound pos 512 ltac:(lia)).
  set (t := Z.min (512 - pos mod 512) (zlen b)) in *.
  set (chunk := slice 0 t b). set (rest := slice t (zlen b - t) b).
  assert (Hb' : b = chunk ++ rest).
  { subst chunk rest. rewrite <-(slice_full b) at 1.
    replace (zlen b) with (t + (zlen b - t)) at 1 by lia. by rewrite slice_add by lia. }
  assert (Hc : zlen chunk = t) by (apply zlen_slice; lia).
  assert (Hr : zlen rest = zlen b - t) by (apply zlen_slice; lia).
  pose proof (zlen_chain_bytes ss d Hv) as Hz.
  (* either branch writes the sector patched with the chunk *)
  assert (Hstep : ∀ new, zlen new = 512 →
    splice (pos - pos mod 512) new (chain_bytes ss d) = splice pos chunk (chain_bytes ss d) →
    ∃ d', match bd_write d lba new with
          | (true, d') => chain_write_loop fuel ss (pos + t) rest d'
          | (false, d') => (Err "io", d')
          end = (Ok tt, d') ∧ chain_bytes ss d' = splice pos b (chain_bytes ss d)).
  { intros new Hnew Hs. destruct (bd_write_sec d lba new Hlv Hnew) as (d1 & -> & Hd1).
    pose proof (chain_bytes_write ss d d1 _ lba new Hv Hnd Hl Hnew Hd1) as Hcb.
    replace (512 * Z.of_nat (Z.to_nat (pos / 512))) with (pos - pos mod 512) in Hcb
      by (pose proof (Z.div_mod pos 512 ltac:(lia)); assert (0 ≤ pos / 512) by (apply Z.div_pos; lia); lia).
    destruct (IH (pos + t) rest d1) as (d2 & -> & Hd2); [lia|lia|by rewrite Hr|].
    exists d2. split; [done|]. rewrite Hd2, Hcb, Hs, Hb'. rewrite splice_app_split by lia. by rewrite Hc. }
  destruct ((pos mod 512 =? 0) && (t =? 512)) eqn:E.
  - apply andb_true_iff in E as [E1%Z.eqb_eq E2%Z.eqb_eq].
    apply Hstep; [lia|]. f_equal. lia.
  - rewrite bd_read_sec by done. pose proof (sec_len d lba Hlv).
    apply Hstep; [rewrite zlen_splice; lia|].
    rewrite Hsec, splice_slice_patch by lia. f_equal. lia.
Qed.

(** The device behind the selector. *)
Definition slot (dev : FlashDev) (g : Globals D) : option D :=
  match dev with
  | Usb => usb_msc g | Ata => ata g | Ahci => ahci g | NvmeDev => nvme g
  | VirtioBlk => match virtio_legacy g with Some d => Some d | None => virtio_modern g end
  end.

Lemma with_flash_dev_slot {R} dev (f : D → R * D) g d :
  slot dev g = Some d →
  ∃ g', with_flash_dev dev f g = (Ok (f d).1, g') ∧ slot dev g' = Some (f d).2 ∧
    ((f d).2 = d → g' = g).
Proof.
  unfold slot, with_flash_dev. destruct g as [u a h v l m]. simpl.
  destruct dev; intros Hs; simplify_eq;
    [destruct (f d); eexists; split_and!; [done..|by intros; simplify_eq]..|].
  destruct l as [d'|]; simplify_eq; destruct (f d); eexists; split_and!; try done;
    by intros; simplify_eq.
Qed.

(** A mounted file: driver present, chain of valid sectors without repetition,
    size within the resolver's 64 MiB bound. *)
Definition file_ok (f : FileFlash D) : Prop :=
  is_Some (slot (dev f) (globals f)) ∧ Forall valid (sectors f) ∧ NoDup (sectors f) ∧
  zlen (sectors f) * 512 < 2 ^ 63.

Definition file_bytes (f : FileFlash D) : bytes :=
  match slot (dev f) (globals f) with
  | Some d => chain_bytes (sectors f) d
  | None => []
  end.

Lemma zlen_file_bytes f : file_ok f → zlen (file_bytes f) = zlen (sectors f) * 512.
Proof.
  intros ([d Hd] & Hv & _). unfold file_bytes. rewrite Hd. by apply zlen_chain_bytes.
Qed.

#[global] Instance file_laws : FlashLaws (FileFlash D) file_ok file_bytes.
Proof.
  split; intros f; cbn [fl_size_bytes fl_read fl_write fl_erase file_controller].
  - intros Hok. rewrite zlen_file_bytes by done. destruct Hok as (_ & _ & _ & Hs).
    pose proof (zlen_nonneg (sectors f)). unfold size_bytes, u64_mul. apply Z.mod_small. lia.
  - intros o n Hok Ho Hn. rewrite zlen_file_bytes by done. intros Hb.
    destruct Hok as ([d Hd] & Hv & _ & Hs). unfold read, file_bytes. rewrite Hd.
    destruct (with_flash_dev_slot (dev f)
      (λ d, (chain_read (sectors f) o n (λ lba, bd_read d lba 512), d)) _ _ Hd) as (g' & -> & _ & _).
    cbn [fst mbind res_bind]. unfold chain_read, u64_sat_add, U64_MAX.
    rewrite Z.min_l, (proj2 (Z.ltb_ge _ _)) by lia.
    rewrite chain_read_loop_spec; [done..|]. by apply enough_init.
  - intros o b Hok Ho. rewrite zlen_file_bytes by done. intros Hb.
    destruct Hok as ([d Hd] & Hv & Hnd & Hs). unfold write, file_bytes.
    destruct (with_flash_dev_slot (dev f) (chain_write (sectors f) o b) _ _ Hd) as (g' & -> & Hg' & _).
    revert Hg'. unfold chain_write, u64_sat_add, U64_MAX. rewrite Z.min_l, (proj2 (Z.ltb_ge _ _)) by lia.
    destruct (chain_write_loop_spec (Z.to_nat (zlen b / 512) + 3) (sectors f) d o b) as (d' & -> & Hd');
      [done..|apply enough_init; [done|apply zlen_nonneg]|].
    cbn [fst snd]. intros Hg'. eexists. split; [done|]. unfold file_ok. cbn [dev globals sectors].
    rewrite Hg', Hd. split_and!; eauto.
  - intros o b Hok Ho Hsm. rewrite zlen_file_bytes by done. intros Hb.
    destruct Hok as ([d Hd] & _). unfold write.
    destruct (with_flash_dev_slot (dev f) (chain_write (sectors f) o b) _ _ Hd) as (g' & -> & _ & Hid).
    revert Hid. unfold chain_write, u64_sat_add, U64_MAX. pose proof (zlen_nonneg b).
    rewrite Z.min_l, (proj2 (Z.ltb_lt _ _)) by lia. cbn [fst snd]. intros Hid.
    rewrite (Hid eq_refl). by destruct f.
  - intros o n Hok _ _ _. do 2 eexists. split; [done|]. split_and!; eauto.
Qed.
End ChainLaws.

End File.

(** * [ActiveFlash] *)

Module Active.

Inductive ActiveFlash (D : Type) : Type :=
  | AFile (f : File.FileFlash D)
  | ANvme (f : Nvme.NvmeFlashRegion D)
  | ARam (f : Ram.RamFlash).
Arguments AFile {D} _.
Arguments ANvme {D} _.
Arguments ARam {D} _.

Section Active.
Context {D : Type} `{BlockDevice D}.

Definition read (a : ActiveFlash D) (offset n : Z) : res bytes :=
  match a with
  | AFile f => File.read f offset n
  | ANvme f => Nvme.read f offset n
  | ARam f => Ram.read f offset n
  end.

Definition write (a : ActiveFlash D) (offset : Z) (d : bytes) : res unit * ActiveFlash D :=
  match a with
  | AFile f => let '(r, f') := File.write f offset d in (r, AFile f')
  | ANvme f => let '(r, f') := Nvme.write f offset d in (r, ANvme f')
  | ARam f => let '(r, f') := Ram.write f offset d in (r, ARam f')
  end.

Definition erase (a : ActiveFlash D) (offset size : Z) : res unit * ActiveFlash D :=
  match a with
  | AFile f => let '(r, f') := File.erase f offset size in (r, AFile f')
  | ANvme f => let '(r, f') := Nvme.erase f offset size in (r, ANvme f')
  | ARam f => let '(r, f') := Ram.erase f offset size in (r, ARam f')
  end.

Definition size_bytes (a : ActiveFlash D) : Z :=
  match a with
  | AFile f => File.size_bytes f
  | ANvme f => Nvme.size_bytes f
  | ARam f => Ram.size_bytes f
  end.

#[global] Instance active_controller : FlashController (ActiveFlash D) := {
  fl_read := read; fl_write := write; fl_erase := erase; fl_size_bytes := size_bytes;
}.

(** [init_flash]: file on a FAT data partition, else NVMe, else volatile RAM.
    [probe] is the outcome of [FileFlash::probe], [internal_disk_skipped] and
    [nvme] are the boot state it consults. *)
Definition init_flash (probe : option (File.FileFlash D)) (internal_disk_skipped : bool)
    (nvme : option D) : ActiveFlash D * string :=
  match probe with
  | Some ff => (AFile ff, "file")
  | None =>
      let ram := ARam (Ram.mkRam (replicate (Z.to_nat (1024 * 1024)) Byte.x00)) in
      if internal_disk_skipped then (ram, "ram")
      else match nvme with
           | Some d => (ANvme (Nvme.default_region (Some d)), "nvme")
           | None => (ram, "ram")
           end
  end.
End Active.

Section ActiveLaws.
Context {D : Type} `{File.DiskLaws D valid sec}.

(** The RAM and file backends meet the interface; the NVMe region does not
    (it refuses every access that is not sector-aligned). *)
Definition active_ok (a : ActiveFlash D) : Prop :=
  match a with
  | AFile f => File.file_ok (valid := valid) f
  | ANvme _ => False
  | ARam f => Ram.ram_ok f
  end.

Definition active_bytes (a : ActiveFlash D) : bytes :=
  match a with
  | AFile f => File.file_bytes (sec := sec) f
  | ANvme _ => []
  | ARam f => Ram.data f
  end.

#[global] Instance active_laws : FlashLaws (ActiveFlash D) active_ok active_bytes.
Proof.
  split.
  - intros [f|f|f] Hok; [|done..].
    exact (fl_size_contents (contents := File.file_bytes (sec := sec)) f Hok).
  - intros [f|f|f] o n Hok; [|done|].
    + exact (fl_read_in (contents := File.file_bytes (sec := sec)) f o n Hok).
    + exact (fl_read_in (contents := Ram.data) f o n Hok).
  - intros [f|f|f] o d Hok Ho Hb; [|done|].
    + destruct (fl_write_in (contents := File.file_bytes (sec := sec)) f o d Hok Ho Hb) as (f' & Hw & ?).
      exists (AFile f'). simpl in *. by rewrite Hw.
    + destruct (fl_write_in (contents := Ram.data) f o d Hok Ho Hb) as (f' & Hw & ?).
      exists (ARam f'). simpl in *. by rewrite Hw.
  - intros [f|f|f] o d Hok Ho Hs Hb; [|done|]; simpl.
    + pose proof (fl_write_oob (contents := File.file_bytes (sec := sec)) f o d Hok Ho Hs Hb) as Hw.
      simpl in Hw. by rewrite Hw.
    + pose proof (fl_write_oob (contents := Ram.data) f o d Hok Ho Hs Hb) as Hw.
      simpl in Hw. by rewrite Hw.
  - intros [f|f|f] o n Hok Ho Hn Hs; [|done|].
    + destruct (fl_erase_frame (contents := File.file_bytes (sec := sec)) f o n Hok Ho Hn Hs) as (r & f' & Hw & ?).
      exists r, (AFile f'). split; [|done]. cbn in Hw.
      unfold File.erase in Hw. inversion Hw. done.
    + destruct (fl_erase_frame (contents := Ram.data) f o n Hok Ho Hn Hs) as (r & f' & Hw & ?).
      exists r, (ARam f'). simpl in *. by rewrite Hw.
Qed.
End ActiveLaws.

End Active.

(** * Theorems *)

(** The file backend is a contiguous volume. On a file whose FAT chain visits
    valid sectors without repetition, in any order, a [write] at any byte offset,
    aligned or not, succeeds, and every later [read] inside the file returns the
    old bytes patched with exactly the bytes written. *)
Theorem file_flash_is_a_volume {D} `{File.DiskLaws D valid sec} (f : File.FileFlash D) o d p n :
  File.file_ok (valid := valid) f → 0 ≤ o → o + zlen d ≤ zlen (File.sectors f) * 512 →
  0 ≤ p → 0 ≤ n → p + n ≤ zlen (File.sectors f) * 512 →
  ∃ f', File.write f o d = (Ok tt, f') ∧ File.file_ok (valid := valid) f' ∧
    File.read f' p n = Ok (slice p n (splice o d (File.file_bytes (sec := sec) f))).
Proof.
  intros Hok Ho Hd Hp Hn Hb. pose proof (File.zlen_file_bytes (sec := sec) f Hok) as Hz.
  destruct (fl_write_in (contents := File.file_bytes (sec := sec)) f o d Hok Ho ltac:(lia)) as (f' & Hw & Hok' & Hc).
  exists f'. split; [exact Hw|]. split; [exact Hok'|].
  pose proof (fl_read_in (contents := File.file_bytes (sec := sec)) f' p n Hok' Hp Hn) as Hr.
  rewrite Hc, zlen_splice, Hz in Hr by lia. exact (Hr Hb).
Qed.

(** A disk of 512-byte sectors, zero until written. *)
Definition mem_sec (d : gmap Z bytes) (lba : Z) : bytes :=
  take 512 (default [] (d !! lba) ++ replicate 512 Byte.x00).

#[export] Instance mem_disk : BlockDevice (gmap Z bytes) := {
  bd_read := λ d lba n, if n =? 512 then Some (mem_sec d lba) else None;
  bd_write := λ d lba b, (true, <[lba := b]> d);
  bd_total_sectors := λ _, 4096;
}.

#[export] Instance mem_disk_laws : File.DiskLaws (gmap Z bytes) (λ _, True) mem_sec.
Proof.
  split.
  - intros d lba _. unfold zlen, mem_sec. rewrite length_take, length_app, length_replicate. lia.
  - done.
  - intros d lba b _ Hb. eexists. split; [done|]. intros l. unfold mem_sec.
    destruct (decide (l = lba)) as [->|]; [|by rewrite lookup_insert_ne].
    rewrite lookup_insert_eq. cbn. rewrite take_app_le by (unfold zlen in Hb; lia).
    apply take_ge. unfold zlen in Hb. lia.
Qed.

Definition demo_file : File.FileFlash (gmap Z bytes) :=
  File.mkFile [700; 21; 22] File.Usb (File.mkGlobals (Some ∅) None None None None None).

Lemma file_flash_is_a_volume_witness :
  ∃ f', File.write demo_file 510 [Byte.x01; Byte.x02; Byte.x03] = (Ok tt, f') ∧
    File.file_ok (valid := λ _, True) f' ∧
    File.read f' 509 5 = Ok (slice 509 5 (splice 510 [Byte.x01; Byte.x02; Byte.x03]
                                            (File.file_bytes (sec := mem_sec) demo_file))).
Proof.
  apply (file_flash_is_a_volume demo_file 510 [Byte.x01; Byte.x02; Byte.x03] 509 5); [|by vm_compute..].
  split_and!; [by eexists|by repeat constructor|by apply (bool_decide_unpack _)|by vm_compute].
Defined.
