(* ===== verification/Tickv.v ===== *)
(** TickvLite, the append-log key-value store
    ([crates/k_nano/src/storage/tickv.rs]): the record codec, the volume scanner,
    and the store's operations as state-passing functions over the world made of
    the store, the flash volume and the module's global flags.

    The store is generic in a [FlashController]; the time-stamp counter and the
    outcome of backend initialisation are parameters. *)

From S2P Require Import Prelude Checksum Flash.
Import Crc32 Fnv.

(** * Record format *)

Definition MAGIC : bytes := as_bytes "TKLV".
Definition HEADER : Z := 16.
Definition MAGIC_PREFIX : bytes := as_bytes "TKL".
Definition CKPT_KEY : string := "sys/tickv_ckpt".
Definition MAX_KLEN : Z := 4096.
Definition MAX_VLEN : Z := 2 * 1024 * 1024.
Definition HIGH_WATER : Z := 256 * 1024.
Definition MOUNT_SCAN_BUDGET_US : Z := 3000000.
Definition DEAD_RATIO_NUM : Z := 1.
Definition DEAD_RATIO_DEN : Z := 1.

(** Byte 3 of the magic: ['V'] or 1 is a live record, 0 one invalidated in place. *)
Definition hdr_valid (hdr : bytes) : bool :=
  (4 <=? zlen hdr) && bool_decide (slice 0 3 hdr = MAGIC_PREFIX)
  && (bool_decide (hdr !! 3%nat = Some Byte.x56) || bool_decide (hdr !! 3%nat = Some Byte.x01)).

Definition hdr_invalidated (hdr : bytes) : bool :=
  (4 <=? zlen hdr) && bool_decide (slice 0 3 hdr = MAGIC_PREFIX)
  && bool_decide (hdr !! 3%nat = Some Byte.x00).

Definition hdr_tickv_shaped (hdr : bytes) : bool := hdr_valid hdr || hdr_invalidated hdr.

(** [hdr.iter().all(|&b| b == 0 || b == 0xFF)]: erased or never written. *)
Definition hdr_blank (hdr : bytes) : bool :=
  forallb (λ b, bool_decide (b = Byte.x00) || bool_decide (b = Byte.xff)) hdr.

Definition hdr_klen (hdr : bytes) : Z := from_le_bytes (slice 4 4 hdr).
Definition hdr_vlen (hdr : bytes) : Z := from_le_bytes (slice 8 4 hdr).
Definition hdr_crc (hdr : bytes) : Z := from_le_bytes (slice 12 4 hdr).

Definition record_size (klen vlen : Z) : Z :=
  let body_len := klen + vlen in
  let padded := mask_down 4 (body_len + 15) in
  let rec_body := HEADER + padded in
  mask_down 9 (rec_body + 511).

Definition rec_total (klen vlen : Z) : Z := record_size klen vlen.

Definition align_next (off : Z) : Z := mask_down 9 (u64_add off 512).

Definition advance_oversized (off klen vlen size : Z) : Z :=
  let big := rec_total klen vlen in
  if (512 <=? big) && (u64_sat_add off big <=? size) then u64_add off big else align_next off.

Definition zeros (n : Z) : bytes := replicate (Z.to_nat n) Byte.x00.

(** A whole record, 512-aligned: header, [key ‖ val] padded to 16, zero fill. *)
Definition encode_record (key val : bytes) : bytes :=
  let body_len := zlen key + zlen val in
  let padded := mask_down 4 (body_len + 15) in
  let body := key ++ val ++ zeros (padded - body_len) in
  let crc := crc32 (slice 0 body_len body) in
  let total := record_size (zlen key) (zlen val) in
  MAGIC ++ to_le_bytes 4 (zlen key) ++ to_le_bytes 4 (zlen val) ++ to_le_bytes 4 crc
  ++ body ++ zeros (total - HEADER - padded).

(** * In-memory volume scan *)

Record ScanResult := mkScan {
  sr_map : gmap string bytes;
  sr_offsets : gmap string Z;
  sr_append_off : Z;
  sr_corrupt : Z;
  sr_truncated : bool;
}.

Definition scan_default : ScanResult := mkScan ∅ ∅ 0 0 false.

Definition scan_corrupt (o : ScanResult) : ScanResult :=
  mkScan (sr_map o) (sr_offsets o) (sr_append_off o) (u64_add (sr_corrupt o) 1) (sr_truncated o).
Definition scan_truncated (o : ScanResult) : ScanResult :=
  mkScan (sr_map o) (sr_offsets o) (sr_append_off o) (sr_corrupt o) true.
Definition scan_reach (e : Z) (o : ScanResult) : ScanResult :=
  mkScan (sr_map o) (sr_offsets o) (Z.max (sr_append_off o) e) (sr_corrupt o) (sr_truncated o).

(** The record at [off] once its CRC has been checked. *)
Definition scan_record (body : bytes) (klen vlen off : Z) (o : ScanResult) : ScanResult :=
  match from_utf8 (slice 0 klen body) with
  | Some key =>
      if bool_decide (key = CKPT_KEY) then o
      else if vlen =? 0 then
        mkScan (delete key (sr_map o)) (delete key (sr_offsets o))
          (sr_append_off o) (sr_corrupt o) (sr_truncated o)
      else
        mkScan (<[key := slice klen vlen body]> (sr_map o)) (<[key := off]> (sr_offsets o))
          (sr_append_off o) (sr_corrupt o) (sr_truncated o)
  | None => scan_corrupt o
  end.

(** The loop's outcome: the result, the offset it stopped at, and whether it
    stopped at blank space. *)
Fixpoint scan_volume_loop (fuel : nat) (data : bytes) (off : Z) (o : ScanResult)
    : option (ScanResult * Z * bool) :=
  match fuel with
  | O => None
  | S fuel' =>
      let size := zlen data in
      if size <? u64_add off HEADER then Some (o, off, false) else
      let hdr := slice off HEADER data in
      if negb (hdr_tickv_shaped hdr) then
        if hdr_blank hdr then Some (o, off, true)
        else scan_volume_loop fuel' data (align_next off) (scan_corrupt o)
      else
      let klen := hdr_klen hdr in
      let vlen := hdr_vlen hdr in
      if (MAX_KLEN <? klen) || (MAX_VLEN <? vlen) then
        scan_volume_loop fuel' data (align_next off) (scan_corrupt o)
      else
      let total := record_size klen vlen in
      if size <? u64_add off total then Some (scan_truncated o, off, false) else
      if bool_decide (hdr !! 3%nat = Some Byte.x00) then
        scan_volume_loop fuel' data (u64_add off total) (scan_reach (u64_add off total) o)
      else
      let body := slice (off + HEADER) (klen + vlen) data in
      if negb (crc32 body =? hdr_crc hdr) then
        scan_volume_loop fuel' data (align_next off) (scan_corrupt o)
      else
      scan_volume_loop fuel' data (u64_add off total)
        (scan_record body klen vlen off (scan_reach (u64_add off total) o))
  end.

(** Turns of a scan over [size] bytes: every one moves past a sector boundary. *)
Definition scan_fuel (size : Z) : nat := Z.to_nat (size / 512) + 3.

Definition scan_volume (data : bytes) : option ScanResult :=
  '(o, off, eof) ← scan_volume_loop (scan_fuel (zlen data)) data 0 scan_default;
  Some (if negb eof && (off <? zlen data) then scan_truncated o else o).

(** * The store *)

Record TickvStats := mkStats {
  live_bytes : Z; dead_bytes : Z; corrupt_records : Z; compactions : Z; puts : Z; gets : Z;
}.

Record TickvLite := mkKv {
  index : gmap string Z;
  append_off : Z;
  ready : bool;
  degraded : bool;
  backend : string;
  hw_latched : bool;
  ckpt_dirty : bool;
  stats : TickvStats;
}.

Definition stats_default : TickvStats := mkStats 0 0 0 0 0 0.

Definition new : TickvLite := mkKv ∅ 0 false false "none" false false stats_default.

Definition set_index (i : gmap string Z) (k : TickvLite) : TickvLite :=
  mkKv i (append_off k) (ready k) (degraded k) (backend k) (hw_latched k) (ckpt_dirty k) (stats k).
Definition set_append_off (a : Z) (k : TickvLite) : TickvLite :=
  mkKv (index k) a (ready k) (degraded k) (backend k) (hw_latched k) (ckpt_dirty k) (stats k).
Definition set_ready (r : bool) (k : TickvLite) : TickvLite :=
  mkKv (index k) (append_off k) r (degraded k) (backend k) (hw_latched k) (ckpt_dirty k) (stats k).
Definition set_degraded (d : bool) (k : TickvLite) : TickvLite :=
  mkKv (index k) (append_off k) (ready k) d (backend k) (hw_latched k) (ckpt_dirty k) (stats k).
Definition set_backend (b : string) (k : TickvLite) : TickvLite :=
  mkKv (index k) (append_off k) (ready k) (degraded k) b (hw_latched k) (ckpt_dirty k) (stats k).
Definition set_hw_latched (h : bool) (k : TickvLite) : TickvLite :=
  mkKv (index k) (append_off k) (ready k) (degraded k) (backend k) h (ckpt_dirty k) (stats k).
Definition set_ckpt_dirty (c : bool) (k : TickvLite) : TickvLite :=
  mkKv (index k) (append_off k) (ready k) (degraded k) (backend k) (hw_latched k) c (stats k).
Definition set_stats (s : TickvStats) (k : TickvLite) : TickvLite :=
  mkKv (index k) (append_off k) (ready k) (degraded k) (backend k) (hw_latched k) (ckpt_dirty k) s.

Definition set_live (v : Z) (s : TickvStats) : TickvStats :=
  mkStats v (dead_bytes s) (corrupt_records s) (compactions s) (puts s) (gets s).
Definition set_dead (v : Z) (s : TickvStats) : TickvStats :=
  mkStats (live_bytes s) v (corrupt_records s) (compactions s) (puts s) (gets s).
Definition add_live (v : Z) (s : TickvStats) : TickvStats := set_live (u64_sat_add (live_bytes s) v) s.
Definition add_dead (v : Z) (s : TickvStats) : TickvStats := set_dead (u64_sat_add (dead_bytes s) v) s.
Definition add_corrupt (s : TickvStats) : TickvStats :=
  mkStats (live_bytes s) (dead_bytes s) (u64_sat_add (corrupt_records s) 1) (compactions s) (puts s) (gets s).
Definition add_compaction (s : TickvStats) : TickvStats :=
  mkStats (live_bytes s) (dead_bytes s) (corrupt_records s) (u64_sat_add (compactions s) 1) (puts s) (gets s).
Definition add_put (s : TickvStats) : TickvStats :=
  mkStats (live_bytes s) (dead_bytes s) (corrupt_records s) (compactions s) (u64_sat_add (puts s) 1) (gets s).
Definition add_get (s : TickvStats) : TickvStats :=
  mkStats (live_bytes s) (dead_bytes s) (corrupt_records s) (compactions s) (puts s) (u64_sat_add (gets s) 1).

Definition is_ready (k : TickvLite) : bool := ready k.
Definition is_degraded (k : TickvLite) : bool := degraded k.
Definition live_keys (k : TickvLite) : Z := Z.of_nat (size (index k)).
Definition offset_of (key : string) (k : TickvLite) : option Z := index k !! key.
Definition keys_with_prefix (prefix : string) (k : TickvLite) : list string :=
  filter (λ key, String.prefix prefix key = true) (btree_iter (index k)).*1.

(** [recompute_live_estimate]: 512 per indexed key. *)
Definition recompute_live_estimate (k : TickvLite) : TickvLite :=
  let live := fold_left (λ l _, u64_sat_add l 512) (btree_iter (index k)) 0 in
  set_stats (set_live live (stats k)) k.

Definition gc_due (k : TickvLite) : bool :=
  (HIGH_WATER <? append_off k)
  || ((0 <? live_bytes (stats k))
      && (u64_mul (live_bytes (stats k)) DEAD_RATIO_NUM <? u64_mul (dead_bytes (stats k)) DEAD_RATIO_DEN)).

(** [self.backend == "file" || self.backend == "nvme"]. *)
Definition slow_backend (k : TickvLite) : bool :=
  bool_decide (backend k = "file") || bool_decide (backend k = "nvme").

(** * The world an operation runs in *)

(** [tickv] and [flash] are the statics [TICKV] and [FLASH] ([installed] says
    whether [TICKV] holds a store); [clock] counts the readings taken of the
    time-stamp counter. *)
Record World (F : Type) := mkWorld {
  kv : TickvLite;
  installed : bool;
  flash : option F;
  COMPACTING : bool;
  GC_SUSPENDED : bool;
  COMPACT_SKIPPED : Z;
  COMPACT_SKIPPED_TOTAL : Z;
  clock : nat;
}.
Arguments mkWorld {F} _ _ _ _ _ _ _ _.
Arguments kv {F} _.
Arguments installed {F} _.
Arguments flash {F} _.
Arguments COMPACTING {F} _.
Arguments GC_SUSPENDED {F} _.
Arguments COMPACT_SKIPPED {F} _.
Arguments COMPACT_SKIPPED_TOTAL {F} _.
Arguments clock {F} _.

Section Store.
Context {F : Type} `{FlashController F}.
(** [crate::tsc::now_us()]: the [i]-th reading; 0 while uncalibrated. *)
Context (now_us : nat → Z).
(** [init_flash()]: the backend it installs and the name it returns. *)
Context (init_flash : F * string).
(** The name [mount] derives from the variant of an installed flash. *)
Context (backend_of : F → string).

Local Abbreviation W := (World F).
Local Abbreviation Op := (M W).

Definition upd_kv (f : TickvLite → TickvLite) (w : W) : W :=
  mkWorld (f (kv w)) (installed w) (flash w) (COMPACTING w) (GC_SUSPENDED w)
    (COMPACT_SKIPPED w) (COMPACT_SKIPPED_TOTAL w) (clock w).
Definition set_installed (b : bool) (w : W) : W :=
  mkWorld (kv w) b (flash w) (COMPACTING w) (GC_SUSPENDED w)
    (COMPACT_SKIPPED w) (COMPACT_SKIPPED_TOTAL w) (clock w).
Definition set_flash (f : option F) (w : W) : W :=
  mkWorld (kv w) (installed w) f (COMPACTING w) (GC_SUSPENDED w)
    (COMPACT_SKIPPED w) (COMPACT_SKIPPED_TOTAL w) (clock w).
Definition set_compacting (b : bool) (w : W) : W :=
  mkWorld (kv w) (installed w) (flash w) b (GC_SUSPENDED w)
    (COMPACT_SKIPPED w) (COMPACT_SKIPPED_TOTAL w) (clock w).
Definition set_gc_suspended (b : bool) (w : W) : W :=
  mkWorld (kv w) (installed w) (flash w) (COMPACTING w) b
    (COMPACT_SKIPPED w) (COMPACT_SKIPPED_TOTAL w) (clock w).
Definition set_skipped (n t : Z) (w : W) : W :=
  mkWorld (kv w) (installed w) (flash w) (COMPACTING w) (GC_SUSPENDED w) n t (clock w).
Definition tick_clock (w : W) : W :=
  mkWorld (kv w) (installed w) (flash w) (COMPACTING w) (GC_SUSPENDED w)
    (COMPACT_SKIPPED w) (COMPACT_SKIPPED_TOTAL w) (S (clock w)).

Definition modify_kv (f : TickvLite → TickvLite) : Op unit := m_modify (upd_kv f).
Definition modify_stats (f : TickvStats → TickvStats) : Op unit :=
  modify_kv (λ k, set_stats (f (stats k)) k).
Definition get_kv : Op TickvLite := w ← m_get; mret (kv w).

Definition read_clock : Op Z := λ w, (Ok (now_us (clock w)), tick_clock w).

Definition mount_scan_deadline : Op Z :=
  now ← read_clock;
  mret (if now =? 0 then U64_MAX else u64_sat_add now MOUNT_SCAN_BUDGET_US).

Definition mount_scan_expired (deadline : Z) : Op bool :=
  if deadline =? U64_MAX then mret false
  else now ← read_clock; mret (deadline <=? now).

(** [self.with_flash(|fl| fl.read(..))??] and its siblings. *)
Definition flash_size : Op Z := λ w,
  (fl ← ok_or (flash w) "no flash"; Ok (fl_size_bytes fl), w).
Definition flash_read (off n : Z) : Op bytes := λ w,
  (fl ← ok_or (flash w) "no flash"; fl_read fl off n, w).
Definition flash_write (off : Z) (d : bytes) : Op unit := λ w,
  match flash w with
  | None => (Err "no flash", w)
  | Some fl => let '(r, fl') := fl_write fl off d in (r, set_flash (Some fl') w)
  end.
Definition flash_erase (off n : Z) : Op unit := λ w,
  match flash w with
  | None => (Err "no flash", w)
  | Some fl => let '(r, fl') := fl_erase fl off n in (r, set_flash (Some fl') w)
  end.

(** ** Writing *)

Definition put_raw (key : string) (val : bytes) : Op unit :=
  let rec := encode_record (as_bytes key) val in
  let total := zlen rec in
  k ← get_kv;
  let off := append_off k in
  flash_write off rec;;
  (match index k !! key with
   | Some _ => modify_stats (add_dead total)
   | None => modify_stats (add_live total)
   end);;
  modify_kv (λ k, set_index (<[key := off]> (index k)) k);;
  modify_kv (set_append_off (u64_add off total));;
  modify_stats add_put;;
  (if bool_decide (key = CKPT_KEY) then mret tt else modify_kv (set_ckpt_dirty true)).

Definition invalidate_key (key : string) : Op unit :=
  k ← get_kv;
  if negb (ready k) then m_err "not mounted" else
  off ← m_lift (ok_or (index k !! key) "missing");
  flash_write (u64_add off 3) [Byte.x00];;
  modify_kv (λ k, set_index (delete key (index k)) k);;
  modify_stats (add_dead 512).

Definition get (key : string) : Op bytes :=
  k ← get_kv;
  if negb (ready k) then m_err "not mounted" else
  modify_stats add_get;;
  off ← m_lift (ok_or (index k !! key) "missing");
  hdr ← flash_read off HEADER;
  if negb (hdr_valid hdr) then m_err "missing" else
  let klen := hdr_klen hdr in
  let vlen := hdr_vlen hdr in
  body ← flash_read (u64_add off HEADER) (klen + vlen);
  if negb (crc32 body =? hdr_crc hdr) then m_err "corrupt" else
  mret (slice klen vlen body).

(** FNV over the index in iteration order. *)
Definition fnv_entries (es : list (string * Z)) : Z :=
  fold_left (λ h e, fnv (fnv h (as_bytes e.1)) (to_le_bytes 8 e.2)) es OFFSET.

Definition ckpt_entry (e : string * Z) : bytes :=
  let kb := as_bytes e.1 in
  if 65535 <? zlen kb then [] else to_le_bytes 2 (zlen kb) ++ kb ++ to_le_bytes 8 e.2.

Definition ckpt_body (append : Z) (entries : list (string * Z)) : bytes :=
  as_bytes "TKCK" ++ to_le_bytes 8 append ++ to_le_bytes 8 (fnv_entries entries)
  ++ to_le_bytes 4 (zlen entries) ++ concat (ckpt_entry <$> entries).

Definition ckpt_entries_of (k : TickvLite) : list (string * Z) :=
  filter (λ e, e.1 ≠ CKPT_KEY) (btree_iter (index k)).

Definition write_ckpt : Op unit :=
  k ← get_kv;
  if negb (ready k) then m_err "not mounted" else
  put_raw CKPT_KEY (ckpt_body (append_off k) (ckpt_entries_of k));;
  modify_kv (set_ckpt_dirty false).

(** ** Compaction

    [compact], [put_batch], [maybe_gc] and the high-water flush call each
    other. They are written over the [compact] to call; [compact] then ties
    the knot with one level of nesting, which the [COMPACTING] guard makes
    enough (a nested call would be [OutOfFuel]). *)

Definition maybe_gc_with (compact : Op unit) : Op unit :=
  w ← m_get;
  if COMPACTING w then
    m_modify (set_skipped (u64_add (COMPACT_SKIPPED w) 1) (u64_add (COMPACT_SKIPPED_TOTAL w) 1))
  else if GC_SUSPENDED w then mret tt
  else if slow_backend (kv w) then mret tt
  else if gc_due (kv w) then compact else mret tt.

Definition gc_allowed (w : W) : bool := negb (slow_backend (kv w)) && negb (GC_SUSPENDED w).

Definition flush_opportunistic_with (compact : Op unit) : Op bool :=
  w ← m_get;
  if negb (ready (kv w)) || COMPACTING w then mret false else
  if slow_backend (kv w) then
    if negb (ckpt_dirty (kv w)) then mret false
    else r ← m_try write_ckpt; mret (is_ok r)
  else if negb (gc_due (kv w)) || negb (gc_allowed w) then mret false
  else
    let before := compactions (stats (kv w)) in
    m_try (maybe_gc_with compact);;
    k ← get_kv;
    if compactions (stats k) =? before then mret false
    else modify_kv (λ k, set_hw_latched (HIGH_WATER <=? append_off k) k);; mret true.

Definition maybe_high_water_flush_with (compact : Op unit) : Op unit :=
  w ← m_get;
  if (append_off (kv w) <=? HIGH_WATER) || hw_latched (kv w) then mret tt else
  if COMPACTING w then m_try (maybe_gc_with compact);; mret tt
  else if negb (gc_allowed w) then modify_kv (set_hw_latched true)
  else flush_opportunistic_with compact;; mret tt.

(** [if key != "sys/tickv_ckpt" && contains_key(key) { let _ = invalidate }]. *)
Definition retire_old (key : string) : Op unit :=
  k ← get_kv;
  if negb (bool_decide (key = CKPT_KEY)) && bool_decide (is_Some (index k !! key))
  then m_try (invalidate_key key);; mret tt
  else mret tt.

Fixpoint for_each {A} (f : A → Op unit) (l : list A) : Op unit :=
  match l with
  | [] => mret tt
  | x :: l' => f x;; for_each f l'
  end.

Definition put_batch_with (compact : Op unit) (items : list (string * bytes)) : Op unit :=
  k ← get_kv;
  if negb (ready k) then m_err "not mounted" else
  for_each (λ it, retire_old it.1) items;;
  for_each (λ it, put_raw it.1 it.2) items;;
  if existsb (λ it, negb (bool_decide (it.1 = "__gc_lock"))) items
  then maybe_high_water_flush_with compact else mret tt.

(** The live set [compact] rewrites: keys whose [get] succeeds with a
    non-empty value. *)
Fixpoint collect_live (keys : list string) : Op (list (string * bytes)) :=
  match keys with
  | [] => mret []
  | key :: keys' =>
      r ← m_try (get key);
      rest ← collect_live keys';
      mret (match r with
            | Ok v => if bool_decide (v = []) then rest else (key, v) :: rest
            | _ => rest
            end)
  end.

Fixpoint wipe_loop (fuel : nat) (o wipe : Z) : Op unit :=
  match fuel with
  | O => m_lift OutOfFuel
  | S fuel' =>
      if o <? wipe then
        let n := Z.min 4096 (wipe - o) in
        let n512 := mask_down 9 (n + 511) in
        m_try (flash_erase o n512);;
        flash_write o (zeros n512);;
        wipe_loop fuel' (u64_add o n512) wipe
      else mret tt
  end.

(** [k_nano_slog_gc_skipped]: drains the skip counter into the log. *)
Definition drain_skipped : Op unit :=
  m_modify (λ w, set_skipped 0 (COMPACT_SKIPPED_TOTAL w) w).

Definition reset_log (k : TickvLite) : TickvLite :=
  set_stats (set_live 0 (set_dead 0 (stats k))) (set_append_off 0 (set_index ∅ k)).

Fixpoint compact_n (depth : nat) : Op unit :=
  match depth with
  | O => m_lift OutOfFuel
  | S depth' =>
      k ← get_kv;
      if negb (ready k) then m_err "not mounted" else
      live ← collect_live (btree_iter (index k)).*1;
      k1 ← get_kv;
      let old_append := append_off k1 in
      let wipe := Z.max (mask_down 9 (u64_add old_append 511)) 512 in
      wipe_loop (scan_fuel wipe) 0 wipe;;
      modify_kv reset_log;;
      m_modify (set_compacting true);;
      res ← m_try (put_batch_with (compact_n depth') live);
      ckpt_res ← (if is_ok res then m_try write_ckpt else mret (Ok tt));
      m_modify (set_compacting false);;
      m_lift res;;
      m_lift ckpt_res;;
      drain_skipped;;
      modify_stats add_compaction
  end.

Definition compact : Op unit := compact_n 1.
Definition maybe_gc : Op unit := maybe_gc_with compact.
Definition flush_opportunistic : Op bool := flush_opportunistic_with compact.
Definition maybe_high_water_flush : Op unit := maybe_high_water_flush_with compact.
Definition put_batch : list (string * bytes) → Op unit := put_batch_with compact.

Definition put (key : string) (val : bytes) : Op unit :=
  k ← get_kv;
  if negb (ready k) then m_err "not mounted" else
  retire_old key;;
  put_raw key val;;
  if bool_decide (key = "__gc_lock") then mret tt else maybe_high_water_flush.

Definition delete_key (key : string) : Op unit :=
  r ← m_try (invalidate_key key);
  if is_ok r then mret tt else
  put key [];;
  modify_kv (λ k, set_index (delete key (index k)) k).

(** ** Mounting *)

(** Search for the last checkpoint record with a good CRC. *)
Fixpoint ckpt_scan (fuel : nat) (size deadline off : Z) (found : option bytes) : Op (option bytes) :=
  match fuel with
  | O => m_lift OutOfFuel
  | S fuel' =>
      if size <? u64_add off HEADER then mret found else
      expired ← mount_scan_expired deadline;
      if (expired : bool) then m_err "ckpt scan timeout" else
      hdr ← flash_read off HEADER;
      if negb (hdr_tickv_shaped hdr) then
        if hdr_blank hdr then mret found
        else ckpt_scan fuel' size deadline (align_next off) found
      else
      let klen := hdr_klen hdr in
      let vlen := hdr_vlen hdr in
      if (MAX_KLEN <? klen) || (MAX_VLEN <? vlen) then
        ckpt_scan fuel' size deadline (advance_oversized off klen vlen size) found
      else
      let total := rec_total klen vlen in
      if size <? u64_add off total then mret found else
      keybuf ← flash_read (u64_add off HEADER) klen;
      if bool_decide (from_utf8 keybuf = Some CKPT_KEY) && (24 <=? vlen) then
        val ← flash_read (u64_add (u64_add off HEADER) klen) vlen;
        ckpt_scan fuel' size deadline (u64_add off total)
          (if crc32 (keybuf ++ val) =? hdr_crc hdr then Some val else found)
      else ckpt_scan fuel' size deadline (u64_add off total) found
  end.

(** The [n] entries of a checkpoint body, inserted into the index one by one. *)
Fixpoint ckpt_load (n : nat) (val : bytes) (pos : Z) : Op unit :=
  match n with
  | O => mret tt
  | S n' =>
      if zlen val <? pos + 2 then m_err "ckpt trunc" else
      let kl := from_le_bytes (slice pos 2 val) in
      let pos1 := pos + 2 in
      if zlen val <? pos1 + kl + 8 then m_err "ckpt trunc" else
      key ← m_lift (ok_or (from_utf8 (slice pos1 kl val)) "ckpt key");
      let o := from_le_bytes (slice (pos1 + kl) 8 val) in
      modify_kv (λ k, set_index (<[key := o]> (index k)) k);;
      ckpt_load n' val (pos1 + kl + 8)
  end.

(** [fl.read(o, &mut h)] with the inner error ignored: [h] stays zeroed. *)
Definition read_hdr_lossy (o : Z) : Op bytes :=
  w ← m_get;
  match flash w with
  | None => m_err "no flash"
  | Some fl =>
      match fl_read fl o HEADER with
      | Ok h => mret h
      | Err _ => mret (zeros HEADER)
      | Panic => m_lift Panic
      | OutOfFuel => m_lift OutOfFuel
      end
  end.

(** The end of the furthest record the checkpoint knows of. *)
Fixpoint ckpt_end (offs : list Z) (e : Z) : Op Z :=
  match offs with
  | [] => mret e
  | o :: offs' =>
      r ← m_try (read_hdr_lossy o);
      match r with
      | Ok h =>
          if negb (hdr_valid h) then ckpt_end offs' e else
          let klen := hdr_klen h in
          let vlen := hdr_vlen h in
          if (4096 <? klen) || (2 * 1024 * 1024 <? vlen) then ckpt_end offs' e else
          let e' := u64_sat_add o (rec_total klen vlen) in
          ckpt_end offs' (if e <? e' then e' else e)
      | _ => ckpt_end offs' e
      end
  end.

(** One record with a valid CRC goes into the index; a later one wins. *)
Definition index_record (key : string) (vlen off total : Z) (k : TickvLite) : TickvLite :=
  let old := index k !! key in
  if vlen =? 0 then
    match old with
    | Some _ => set_stats (add_dead total (stats k)) (set_index (delete key (index k)) k)
    | None => k
    end
  else
    let k' := set_index (<[key := off]> (index k)) k in
    match old with
    | Some _ => set_stats (add_dead total (stats k')) k'
    | None => set_stats (add_live total (stats k')) k'
    end.

(** The loop of [scan_range]; its value is the offset it stopped at. *)
Fixpoint scan_range_loop (fuel : nat) (size deadline off : Z) : Op Z :=
  match fuel with
  | O => m_lift OutOfFuel
  | S fuel' =>
      if size <? u64_add off HEADER then mret off else
      expired ← mount_scan_expired deadline;
      if (expired : bool) then modify_kv (set_degraded true);; mret off else
      hdr ← flash_read off HEADER;
      if negb (hdr_tickv_shaped hdr) then
        if hdr_blank hdr then mret off
        else modify_stats add_corrupt;; scan_range_loop fuel' size deadline (align_next off)
      else
      let klen := hdr_klen hdr in
      let vlen := hdr_vlen hdr in
      if (MAX_KLEN <? klen) || (MAX_VLEN <? vlen) then
        modify_stats add_corrupt;;
        scan_range_loop fuel' size deadline (advance_oversized off klen vlen size)
      else
      let total := rec_total klen vlen in
      if size <? u64_add off total then mret off else
      if hdr_invalidated hdr then
        modify_stats (add_dead total);; scan_range_loop fuel' size deadline (u64_add off total)
      else
      body ← flash_read (u64_add off HEADER) (klen + vlen);
      if negb (crc32 body =? hdr_crc hdr) then
        modify_stats add_corrupt;; scan_range_loop fuel' size deadline (align_next off)
      else
      match from_utf8 (slice 0 klen body) with
      | None =>
          modify_stats add_corrupt;; scan_range_loop fuel' size deadline (u64_add off total)
      | Some key =>
          modify_kv (index_record key vlen off total);;
          scan_range_loop fuel' size deadline (u64_add off total)
      end
  end.

Definition scan_range (start : Z) (keep : bool) (deadline : Z) : Op unit :=
  (if keep then mret tt else modify_kv reset_log);;
  size ← flash_size;
  off ← scan_range_loop (scan_fuel size) size deadline start;
  modify_kv (λ k, set_append_off (if degraded k then size else off) k);;
  modify_kv recompute_live_estimate.

Definition recover (deadline : Z) : Op unit := scan_range 0 false deadline.

Definition try_mount_from_ckpt (deadline : Z) : Op unit :=
  modify_kv (λ k, set_append_off 0 (set_index ∅ k));;
  size ← flash_size;
  found ← ckpt_scan (scan_fuel size) size deadline 0 None;
  val ← m_lift (ok_or found "no ckpt");
  if zlen val <? 24 then m_err "ckpt short" else
  if negb (bool_decide (slice 0 4 val = as_bytes "TKCK")) then m_err "bad ckpt magic" else
  let append := from_le_bytes (slice 4 8 val) in
  let want_fnv := from_le_bytes (slice 12 8 val) in
  let n := from_le_bytes (slice 20 4 val) in
  modify_kv (set_index ∅);;
  ckpt_load (Z.to_nat n) val 24;;
  k ← get_kv;
  if negb (fnv_entries (btree_iter (index k)) =? want_fnv) then
    modify_kv (set_index ∅);; m_err "ckpt fnv"
  else
  fresh ← (match head (btree_iter (index k)) with
           | None => mret true
           | Some (_, o) => h ← flash_read o HEADER; mret (hdr_valid h)
           end);
  if negb fresh then modify_kv (set_index ∅);; m_err "ckpt stale" else
  e ← ckpt_end (btree_iter (index k)).*2 append;
  modify_kv (set_append_off e);;
  modify_kv recompute_live_estimate;;
  scan_range (u64_add e (rec_total (zlen (as_bytes CKPT_KEY)) (zlen val))) true deadline.

Definition mount : Op unit :=
  w ← m_get;
  (match flash w with
   | Some fl => modify_kv (set_backend (backend_of fl))
   | None =>
       m_modify (set_flash (Some init_flash.1));; modify_kv (set_backend init_flash.2)
   end);;
  deadline ← mount_scan_deadline;
  modify_kv (set_degraded false);;
  r ← m_try (try_mount_from_ckpt deadline);
  (if is_ok r then mret tt else recover deadline);;
  modify_kv (set_ready true);;
  k ← get_kv;
  if slow_backend k then m_modify (set_gc_suspended true) else mret tt.

(** ** Module-level entry points over the static [TICKV] *)

Definition get_or_insert : Op unit :=
  w ← m_get;
  if installed w then mret tt
  else modify_kv (λ _, new);; m_modify (set_installed true).

Definition put_blob (key : string) (data : bytes) : Op unit :=
  get_or_insert;;
  k ← get_kv;
  (if ready k then mret tt else mount);;
  put key data.

Definition get_blob (key : string) : Op bytes :=
  w ← m_get;
  if negb (installed w) then m_err "no tickv" else
  if negb (ready (kv w)) then m_err "not mounted" else get key.

Definition flush_idle : Op bool :=
  w ← m_get;
  if installed w then flush_opportunistic else mret false.

(** [pending] of [remount_after_usb_msc]: every key that can be read. *)
Fixpoint snapshot (keys : list string) : Op (list (string * bytes)) :=
  match keys with
  | [] => mret []
  | key :: keys' =>
      r ← m_try (get key);
      rest ← snapshot keys';
      mret (match r with Ok v => (key, v) :: rest | _ => rest end)
  end.

Fixpoint migrate (pending : list (string * bytes)) (migrated : Z) : Op Z :=
  match pending with
  | [] => mret migrated
  | (key, v) :: pending' =>
      g ← m_try (get key);
      if is_ok g then migrate pending' migrated else
      p ← m_try (put key v);
      migrate pending' (if is_ok p then migrated + 1 else migrated)
  end.

(** [promoted] is the file flash [try_promote_usb_file_flash] finds. *)
Definition remount_after_usb_msc (promoted : option F) : Op bool :=
  w ← m_get;
  if installed w && negb (bool_decide (backend (kv w) = "ram") && ready (kv w))
     && bool_decide (backend (kv w) = "file") then mret true else
  pending ← (if installed w && bool_decide (backend (kv w) = "ram") && ready (kv w)
             then snapshot (btree_iter (index (kv w))).*1 else mret []);
  match promoted with
  | None => mret false
  | Some fl =>
      m_modify (set_flash (Some fl));;
      get_or_insert;;
      modify_kv (λ k, set_append_off 0 (set_index ∅ (set_ready false k)));;
      m ← m_try mount;
      if negb (is_ok m) then mret false else
      migrated ← migrate pending 0;
      (if 0 <? migrated then m_try write_ckpt;; mret tt else mret tt);;
      mret true
  end.
End Store.
