(* ===== verification/TickvLog.v ===== *)
(** The log a TickvLite volume holds, and what the store's operations do to it.

    A volume is a list of entries, each encoded as one record, followed by blank
    space. The index the store keeps in memory is a function of that list, and
    the scanner recomputes exactly that function. *)

From S2P Require Import Prelude Checksum Flash Tickv.
Import Crc32 Fnv.

(** * The record codec *)

Lemma mask_down_bounds k x : 0 ≤ k → 0 ≤ x → 0 ≤ mask_down k x ≤ x ∧ x < mask_down k x + 2 ^ k.
Proof.
  intros. rewrite mask_down_spec by done.
  pose proof (Z.mod_pos_bound x (2 ^ k) ltac:(lia)). pose proof (Z.mod_le x (2 ^ k)). lia.
Qed.

Lemma mask_down_mod k x : 0 ≤ k → mask_down k x mod 2 ^ k = 0.
Proof.
  intros. rewrite mask_down_spec by done. rewrite Zminus_mod_idemp_r, Z.sub_diag. apply Z.mod_0_l. lia.
Qed.

Lemma padded_bounds n :
  0 ≤ n → n ≤ mask_down 4 (n + 15) < n + 16.
Proof. intros. pose proof (mask_down_bounds 4 (n + 15)). lia. Qed.

Lemma record_size_bounds klen vlen :
  0 ≤ klen → 0 ≤ vlen →
  HEADER + mask_down 4 (klen + vlen + 15) ≤ record_size klen vlen ∧
  512 ≤ record_size klen vlen ≤ klen + vlen + 542 ∧ record_size klen vlen mod 512 = 0.
Proof.
  intros. unfold record_size, HEADER in *. pose proof (padded_bounds (klen + vlen)).
  set (p := mask_down 4 (klen + vlen + 15)) in *.
  pose proof (mask_down_bounds 9 (16 + p + 511)). pose proof (mask_down_mod 9 (16 + p + 511)) as Hm.
  change (2 ^ 9) with 512 in *. set (r := mask_down 9 (16 + p + 511)) in *.
  specialize (Hm ltac:(lia)). pose proof (Z.div_mod r 512). lia.
Qed.

Lemma zlen_zeros n : 0 ≤ n → zlen (zeros n) = n.
Proof. intros. unfold zeros, zlen. rewrite length_replicate. lia. Qed.

Lemma encode_record_body key val :
  encode_record key val =
  MAGIC ++ to_le_bytes 4 (zlen key) ++ to_le_bytes 4 (zlen val) ++ to_le_bytes 4 (crc32 (key ++ val))
  ++ (key ++ val)
  ++ zeros (mask_down 4 (zlen key + zlen val + 15) - (zlen key + zlen val))
  ++ zeros (record_size (zlen key) (zlen val) - HEADER - mask_down 4 (zlen key + zlen val + 15)).
Proof.
  unfold encode_record.
  replace (slice 0 (zlen key + zlen val) (key ++ val ++ zeros (mask_down 4 (zlen key + zlen val + 15)
             - (zlen key + zlen val)))) with (key ++ val).
  { by rewrite <-!app_assoc. }
  rewrite app_assoc, slice_app_exact; [done|]. apply zlen_app.
Qed.

Lemma zlen_encode_record key val : zlen (encode_record key val) = record_size (zlen key) (zlen val).
Proof.
  rewrite encode_record_body. pose proof (zlen_nonneg key). pose proof (zlen_nonneg val).
  pose proof (record_size_bounds (zlen key) (zlen val)).
  pose proof (padded_bounds (zlen key + zlen val)). unfold HEADER in *.
  rewrite !zlen_app, !zlen_to_le_bytes, !zlen_zeros by lia. change (zlen MAGIC) with 4. lia.
Qed.

(** The first 16 bytes of a record, with byte 3 replaced by [tag]. *)
Definition header (tag : Byte.byte) (key val : bytes) : bytes :=
  MAGIC_PREFIX ++ [tag] ++ to_le_bytes 4 (zlen key) ++ to_le_bytes 4 (zlen val)
  ++ to_le_bytes 4 (crc32 (key ++ val)).

Definition padding (key val : bytes) : bytes :=
  zeros (mask_down 4 (zlen key + zlen val + 15) - (zlen key + zlen val))
  ++ zeros (record_size (zlen key) (zlen val) - HEADER - mask_down 4 (zlen key + zlen val + 15)).

Definition record (tag : Byte.byte) (key val : bytes) : bytes :=
  header tag key val ++ (key ++ val) ++ padding key val.

Lemma encode_record_eq key val : encode_record key val = record Byte.x56 key val.
Proof. rewrite encode_record_body. unfold record, header, padding. by rewrite <-!app_assoc. Qed.

Lemma zlen_header tag key val : zlen (header tag key val) = HEADER.
Proof. unfold header. by rewrite !zlen_app, !zlen_to_le_bytes. Qed.

Lemma zlen_record tag key val : zlen (record tag key val) = record_size (zlen key) (zlen val).
Proof.
  rewrite <-zlen_encode_record, encode_record_eq. unfold record.
  by rewrite !zlen_app, !zlen_header.
Qed.

Lemma record_retag tag key val :
  splice 3 [Byte.x00] (record tag key val) = record Byte.x00 key val.
Proof. done. Qed.

Section Header.
Context (tag : Byte.byte) (key val : bytes).
Context (Hk : zlen key ≤ MAX_KLEN) (Hv : zlen val ≤ MAX_VLEN).
Local Abbreviation hdr := (header tag key val).

Lemma header_klen : hdr_klen hdr = zlen key.
Proof.
  unfold hdr_klen, header. change (MAGIC_PREFIX ++ [tag] ++ ?x) with ((MAGIC_PREFIX ++ [tag]) ++ x).
  rewrite slice_app_r by done. change (4 - _) with 0. rewrite slice_app_exact by apply zlen_to_le_bytes.
  apply from_to_le_bytes. pose proof (zlen_nonneg key). unfold MAX_KLEN in *. lia.
Qed.

Lemma header_vlen : hdr_vlen hdr = zlen val.
Proof.
  unfold hdr_vlen, header. rewrite (app_assoc MAGIC_PREFIX), (app_assoc (_ ++ _)).
  assert (zlen ((MAGIC_PREFIX ++ [tag]) ++ to_le_bytes 4 (zlen key)) = 8) as E
    by (by rewrite zlen_app, zlen_to_le_bytes).
  rewrite slice_app_r; rewrite E; [|done]. rewrite slice_app_exact by apply zlen_to_le_bytes.
  apply from_to_le_bytes. pose proof (zlen_nonneg val). unfold MAX_VLEN in *. lia.
Qed.

Lemma header_crc : hdr_crc hdr = crc32 (key ++ val).
Proof.
  unfold hdr_crc, header. rewrite (app_assoc MAGIC_PREFIX), (app_assoc (_ ++ _)), (app_assoc (_ ++ _)).
  assert (zlen (((MAGIC_PREFIX ++ [tag]) ++ to_le_bytes 4 (zlen key)) ++ to_le_bytes 4 (zlen val)) = 12)
    as E by (by rewrite !zlen_app, !zlen_to_le_bytes).
  rewrite slice_app_r; rewrite E; [|done]. change (12 - 12) with 0.
  rewrite <-(app_nil_r (to_le_bytes 4 _)), slice_app_exact by apply zlen_to_le_bytes.
  apply from_to_le_bytes, crc32_u32.
Qed.

Lemma header_tag : hdr !! 3%nat = Some tag.
Proof. done. Qed.

Lemma header_prefix : (4 <=? zlen hdr) && bool_decide (slice 0 3 hdr = MAGIC_PREFIX) = true.
Proof. rewrite zlen_header. done. Qed.
End Header.

Lemma header_valid key val : hdr_valid (header Byte.x56 key val) = true.
Proof. unfold hdr_valid. by rewrite header_prefix. Qed.

Lemma header_not_valid key val : hdr_valid (header Byte.x00 key val) = false.
Proof. unfold hdr_valid. by rewrite header_prefix. Qed.

Lemma header_invalidated key val : hdr_invalidated (header Byte.x00 key val) = true.
Proof. unfold hdr_invalidated. by rewrite header_prefix. Qed.

Lemma header_not_invalidated key val : hdr_invalidated (header Byte.x56 key val) = false.
Proof. unfold hdr_invalidated. by rewrite header_prefix. Qed.

Lemma blank_not_shaped hdr : hdr_blank hdr = true → hdr_tickv_shaped hdr = false.
Proof.
  intros Hb. assert (Hp : bool_decide (slice 0 3 hdr = MAGIC_PREFIX) = false).
  { apply bool_decide_eq_false. intros Hs. destruct hdr as [|b hdr]; [done|].
    unfold hdr_blank in Hb. simpl in Hb. apply andb_true_iff in Hb as [Hb _].
    assert (b = Byte.x54) as -> by (change (slice 0 3 (b :: hdr)) with (b :: slice 0 2 hdr) in Hs; by injection Hs).
    done. }
  unfold hdr_tickv_shaped, hdr_valid, hdr_invalidated. rewrite Hp. by rewrite !andb_false_r.
Qed.

(** * Logs *)

Record entry := mkE { e_valid : bool; e_key : string; e_val : bytes }.

Definition invalidate (e : entry) : entry := mkE false (e_key e) (e_val e).

Definition enc (e : entry) : bytes :=
  record (if e_valid e then Byte.x56 else Byte.x00) (as_bytes (e_key e)) (e_val e).

Definition esize (e : entry) : Z := record_size (zlen (as_bytes (e_key e))) (zlen (e_val e)).

Definition log_bytes (L : list entry) : bytes := concat (enc <$> L).

(** What the reader accepts: a [String] key and lengths within its limits. *)
Definition entry_ok (e : entry) : Prop :=
  str_ok (e_key e) ∧ zlen (as_bytes (e_key e)) ≤ MAX_KLEN ∧ zlen (e_val e) ≤ MAX_VLEN.

Definition index_entry (off : Z) (e : entry) (m : gmap string Z) : gmap string Z :=
  if e_valid e then
    if bool_decide (e_val e = []) then delete (e_key e) m else <[e_key e := off]> m
  else m.

Definition log_step (acc : Z * gmap string Z) (e : entry) : Z * gmap string Z :=
  (acc.1 + esize e, index_entry acc.1 e acc.2).

(** The index a log denotes: offsets of the last live record of each key. *)
Definition log_index (L : list entry) : gmap string Z := (fold_left log_step L (0, ∅)).2.

(** Erased or never-written space. *)
Definition blank (l : bytes) : Prop := hdr_blank l = true.

Lemma zlen_enc e : zlen (enc e) = esize e.
Proof. apply zlen_record. Qed.

Lemma esize_bounds e : 512 ≤ esize e ∧ esize e mod 512 = 0.
Proof.
  pose proof (zlen_nonneg (as_bytes (e_key e))). pose proof (zlen_nonneg (e_val e)).
  pose proof (record_size_bounds (zlen (as_bytes (e_key e))) (zlen (e_val e))). unfold esize. lia.
Qed.

(** The body fits behind the header. *)
Lemma esize_body e : HEADER + (zlen (as_bytes (e_key e)) + zlen (e_val e)) ≤ esize e.
Proof.
  pose proof (zlen_nonneg (as_bytes (e_key e))). pose proof (zlen_nonneg (e_val e)).
  pose proof (padded_bounds (zlen (as_bytes (e_key e)) + zlen (e_val e))).
  pose proof (record_size_bounds (zlen (as_bytes (e_key e))) (zlen (e_val e))). unfold esize. lia.
Qed.

Lemma esize_le e : entry_ok e → esize e ≤ 2 ^ 32.
Proof.
  intros (_ & Hk & Hv). unfold esize, MAX_KLEN, MAX_VLEN in *.
  pose proof (zlen_nonneg (as_bytes (e_key e))). pose proof (zlen_nonneg (e_val e)).
  pose proof (record_size_bounds (zlen (as_bytes (e_key e))) (zlen (e_val e))). lia.
Qed.

Lemma log_bytes_app L1 L2 : log_bytes (L1 ++ L2) = log_bytes L1 ++ log_bytes L2.
Proof. unfold log_bytes. by rewrite fmap_app, concat_app. Qed.

Lemma log_bytes_cons e L : log_bytes (e :: L) = enc e ++ log_bytes L.
Proof. done. Qed.

Lemma log_bytes_nil : log_bytes [] = [].
Proof. done. Qed.

Lemma zlen_log_cons e L : zlen (log_bytes (e :: L)) = esize e + zlen (log_bytes L).
Proof. by rewrite log_bytes_cons, zlen_app, zlen_enc. Qed.

Lemma zlen_log_app L1 L2 : zlen (log_bytes (L1 ++ L2)) = zlen (log_bytes L1) + zlen (log_bytes L2).
Proof. by rewrite log_bytes_app, zlen_app. Qed.

Lemma zlen_log_snoc L e : zlen (log_bytes (L ++ [e])) = zlen (log_bytes L) + esize e.
Proof. rewrite zlen_log_app, zlen_log_cons, log_bytes_nil, zlen_nil. lia. Qed.

Lemma log_mod L : zlen (log_bytes L) mod 512 = 0.
Proof.
  induction L as [|e L IH]; [done|]. rewrite zlen_log_cons, Z.add_mod, IH by lia.
  destruct (esize_bounds e) as [_ ->]. done.
Qed.

Lemma fold_log_fst L acc : (fold_left log_step L acc).1 = acc.1 + zlen (log_bytes L).
Proof.
  revert acc. induction L as [|e L IH]; intros acc; [symmetry; apply Z.add_0_r|].
  rewrite fold_left_cons, IH, zlen_log_cons. simpl. lia.
Qed.

Lemma log_index_snoc L e :
  log_index (L ++ [e]) = index_entry (zlen (log_bytes L)) e (log_index L).
Proof.
  unfold log_index. rewrite fold_left_app. simpl. rewrite fold_log_fst. by rewrite Z.add_0_l.
Qed.

Lemma blank_app a b : blank (a ++ b) ↔ blank a ∧ blank b.
Proof. unfold blank, hdr_blank. by rewrite forallb_app, andb_true_iff. Qed.

Lemma blank_slice o n l : blank l → blank (slice o n l).
Proof.
  unfold blank, hdr_blank, slice. rewrite !forallb_forall. intros Hl x Hx. apply Hl.
  rewrite <-(take_drop (Z.to_nat o) l). apply in_or_app. right.
  rewrite <-(take_drop (Z.to_nat n) (drop (Z.to_nat o) l)). apply in_or_app. by left.
Qed.

Lemma blank_drop n l : blank l → blank (drop n l).
Proof.
  unfold blank, hdr_blank. rewrite !forallb_forall. intros Hl x Hx. apply Hl.
  rewrite <-(take_drop n l). apply in_or_app. by right.
Qed.

Lemma blank_zeros n : blank (zeros n).
Proof. unfold blank, hdr_blank, zeros. by induction (Z.to_nat n). Qed.

(** Reading the record at the head of [enc e ++ R]. *)
Lemma enc_header e R :
  slice 0 HEADER (enc e ++ R)
  = header (if e_valid e then Byte.x56 else Byte.x00) (as_bytes (e_key e)) (e_val e).
Proof. unfold enc, record. rewrite <-app_assoc. apply slice_app_exact, zlen_header. Qed.

Lemma enc_body e R n :
  n = zlen (as_bytes (e_key e)) + zlen (e_val e) →
  slice HEADER n (enc e ++ R) = as_bytes (e_key e) ++ e_val e.
Proof.
  intros ->. unfold enc, record. rewrite <-!app_assoc.
  rewrite slice_app_r; rewrite zlen_header; [|done]. change (HEADER - HEADER) with 0.
  rewrite app_assoc. apply slice_app_exact, zlen_app.
Qed.

Lemma enc_key e R : slice HEADER (zlen (as_bytes (e_key e))) (enc e ++ R) = as_bytes (e_key e).
Proof.
  unfold enc, record. rewrite <-!app_assoc.
  rewrite slice_app_r; rewrite zlen_header; [|done]. change (HEADER - HEADER) with 0.
  by apply slice_app_exact.
Qed.

Lemma enc_val e R :
  slice (HEADER + zlen (as_bytes (e_key e))) (zlen (e_val e)) (enc e ++ R) = e_val e.
Proof.
  unfold enc, record. rewrite <-!app_assoc. pose proof (zlen_nonneg (as_bytes (e_key e))).
  rewrite slice_app_r; rewrite zlen_header; [|lia]. rewrite slice_app_r by lia.
  replace (_ - _ - _) with 0 by lia. by apply slice_app_exact.
Qed.

Lemma enc_tag e R : slice 0 HEADER (enc e ++ R) !! 3%nat = Some (if e_valid e then Byte.x56 else Byte.x00).
Proof. rewrite enc_header. apply header_tag. Qed.

Lemma enc_klen e R : entry_ok e → hdr_klen (slice 0 HEADER (enc e ++ R)) = zlen (as_bytes (e_key e)).
Proof. intros (_ & Hk & Hv). rewrite enc_header. by apply header_klen. Qed.

Lemma enc_vlen e R : entry_ok e → hdr_vlen (slice 0 HEADER (enc e ++ R)) = zlen (e_val e).
Proof. intros (_ & Hk & Hv). rewrite enc_header. by apply header_vlen. Qed.

Lemma enc_crc e R : hdr_crc (slice 0 HEADER (enc e ++ R)) = crc32 (as_bytes (e_key e) ++ e_val e).
Proof. rewrite enc_header. apply header_crc. Qed.

Lemma enc_shaped e R : hdr_tickv_shaped (slice 0 HEADER (enc e ++ R)) = true.
Proof.
  rewrite enc_header. unfold hdr_tickv_shaped. destruct (e_valid e).
  - by rewrite header_valid.
  - rewrite header_invalidated. by destruct (hdr_valid _).
Qed.

Lemma enc_invalidated e R : hdr_invalidated (slice 0 HEADER (enc e ++ R)) = negb (e_valid e).
Proof.
  rewrite enc_header. destruct (e_valid e); [apply header_not_invalidated|apply header_invalidated].
Qed.

Lemma enc_valid e R : hdr_valid (slice 0 HEADER (enc e ++ R)) = e_valid e.
Proof. rewrite enc_header. destruct (e_valid e); [apply header_valid|apply header_not_valid]. Qed.

Lemma entry_ok_limits e :
  entry_ok e → (MAX_KLEN <? zlen (as_bytes (e_key e))) || (MAX_VLEN <? zlen (e_val e)) = false.
Proof. intros (_ & Hk & Hv). apply orb_false_iff. split; by apply Z.ltb_ge. Qed.

(** [off += total] and [(off + 512) & !511] stay below 2^64. *)
Lemma align_next_spec off : 0 ≤ off → off + 512 < 2 ^ 64 → off < align_next off ≤ off + 512.
Proof.
  intros. unfold align_next. rewrite u64_add_small by lia.
  pose proof (mask_down_bounds 9 (off + 512)). change (2 ^ 9) with 512 in *. lia.
Qed.

(** * Scanning a log *)

Section Scan.
Context {F : Type} `{FlashLaws F fl_ok contents}.
Context (now_us : nat → Z).

(** The clock never passes the deadline (an uncalibrated counter sets none). *)
Definition no_timeout (deadline : Z) : Prop :=
  deadline = U64_MAX ∨ ∀ i, now_us i < deadline.

(** The volume holds the log [L], then blank space. *)
Definition holds (f : F) (L : list entry) : Prop :=
  fl_ok f ∧ zlen (contents f) < 2 ^ 62 ∧
  ∃ tail, contents f = log_bytes L ++ tail ∧ blank tail.

(** The world with another store and clock. *)
Definition at_kv (w : World F) (k : TickvLite) (c : nat) : World F :=
  mkWorld k (installed w) (flash w) (COMPACTING w) (GC_SUSPENDED w)
    (COMPACT_SKIPPED w) (COMPACT_SKIPPED_TOTAL w) c.

Lemma at_kv_self w : w = at_kv w (kv w) (clock w).
Proof. by destruct w. Qed.

Lemma expired_false w deadline :
  no_timeout deadline → ∃ c, mount_scan_expired now_us deadline w = (Ok false, at_kv w (kv w) c).
Proof.
  intros Hd. unfold mount_scan_expired. case (Z.eqb_spec deadline U64_MAX) as [->|Hne].
  { exists (clock w). by rewrite <-at_kv_self. }
  destruct Hd as [->|Hd]; [done|]. specialize (Hd (clock w)).
  exists (S (clock w)). unfold mbind, M_bind, read_clock, mret, M_ret.
  by rewrite (proj2 (Z.leb_gt _ _)) by lia.
Qed.

Lemma flash_read_in w f o n :
  flash w = Some f → fl_ok f → 0 ≤ o → 0 ≤ n → o + n ≤ zlen (contents f) →
  flash_read o n w = (Ok (slice o n (contents f)), w).
Proof.
  intros Hf Hok Ho Hn Hb. unfold flash_read. rewrite Hf. cbn.
  by rewrite (fl_read_in (contents := contents)).
Qed.

(** Reading at the boundary between a prefix and the rest of the volume. *)
Lemma flash_read_at w f (P R : bytes) o n :
  flash w = Some f → fl_ok f → contents f = P ++ R → 0 ≤ o → 0 ≤ n → o + n ≤ zlen R →
  flash_read (zlen P + o) n w = (Ok (slice o n R), w).
Proof.
  intros Hf Hok Hc Ho Hn Hb. pose proof (zlen_nonneg P).
  rewrite (flash_read_in w f) by (rewrite ?Hc, ?zlen_app; done || lia).
  do 2 f_equal. rewrite Hc, slice_app_r by lia. f_equal. lia.
Qed.

Lemma scan_fuel_enough size off :
  0 ≤ off ≤ size → off mod 512 = 0 → (Z.to_nat ((size - off) / 512) + 2 < scan_fuel size - Z.to_nat (off / 512) + 1)%nat.
Proof.
  intros Ho Hm. unfold scan_fuel. pose proof (Z.div_mod off 512 ltac:(lia)).
  replace size with ((size - off) + (off / 512) * 512) at 2 by lia.
  rewrite Z.div_add by lia. assert (0 ≤ (size - off) / 512) by (apply Z.div_pos; lia).
  assert (0 ≤ off / 512) by (apply Z.div_pos; lia). lia.
Qed.

(** What the loop does at blank space, or with too little room for a header. *)
Lemma scan_range_loop_end fuel w f P tail deadline :
  flash w = Some f → fl_ok f → zlen (contents f) < 2 ^ 62 → contents f = P ++ tail → blank tail →
  no_timeout deadline →
  ∃ c, scan_range_loop now_us (S fuel) (zlen (contents f)) deadline (zlen P) w
       = (Ok (zlen P), at_kv w (kv w) c).
Proof.
  intros Hf Hok Hs Hc Hb Hd. cbn [scan_range_loop].
  pose proof (zlen_nonneg P). pose proof (zlen_nonneg tail).
  assert (Hz : zlen (contents f) = zlen P + zlen tail) by (by rewrite Hc, zlen_app).
  unfold HEADER in *. rewrite u64_add_small by lia.
  destruct (Z.ltb_spec (zlen (contents f)) (zlen P + 16)).
  { exists (clock w). by rewrite <-at_kv_self. }
  destruct (expired_false w deadline Hd) as [c Hc1]. exists c.
  m_run (apply Hc1).
  m_run (rewrite <-(Z.add_0_r (zlen P)); apply (flash_read_at _ f P tail); done || lia).
  rewrite blank_not_shaped by (by apply blank_slice). cbn [negb].
  assert (hdr_blank (slice 0 16 tail) = true) as -> by (by apply blank_slice). done.
Qed.

(** What one record does to the store. *)
Definition kv_scan (off : Z) (e : entry) (k : TickvLite) : TickvLite :=
  if e_valid e then index_record (e_key e) (zlen (e_val e)) off (esize e) k
  else set_stats (add_dead (esize e) (stats k)) k.

Lemma kv_scan_index off e k :
  ∃ st, kv_scan off e k = set_stats st (set_index (index_entry off e (index k)) k).
Proof.
  unfold kv_scan, index_entry, index_record. destruct k. cbn. destruct (e_valid e); [|by eexists].
  destruct (Z.eqb_spec (zlen (e_val e)) 0) as [E|E].
  - rewrite (zlen_le_0 (e_val e)) by lia. cbn.
    destruct (index !! e_key e) eqn:Ei; eexists; [done|]. by rewrite delete_id.
  - rewrite bool_decide_eq_false_2 by (intros Hn; by rewrite Hn in E).
    destruct (index !! e_key e); by eexists.
Qed.

Lemma scan_range_loop_entry fuel w f P e R deadline :
  flash w = Some f → fl_ok f → zlen (contents f) < 2 ^ 62 →
  contents f = P ++ enc e ++ R → entry_ok e → no_timeout deadline →
  ∃ c, scan_range_loop now_us (S fuel) (zlen (contents f)) deadline (zlen P) w
    = scan_range_loop now_us fuel (zlen (contents f)) deadline (zlen P + esize e)
        (at_kv w (kv_scan (zlen P) e (kv w)) c).
Proof.
  intros Hf Hok Hs Hc He Hd. cbn [scan_range_loop].
  pose proof (zlen_nonneg P). pose proof (zlen_nonneg R). destruct (esize_bounds e) as [Hsz _].
  assert (Hz : zlen (contents f) = zlen P + (esize e + zlen R)) by (by rewrite Hc, !zlen_app, zlen_enc).
  pose proof (zlen_nonneg (as_bytes (e_key e))). pose proof (zlen_nonneg (e_val e)).
  pose proof (record_size_bounds (zlen (as_bytes (e_key e))) (zlen (e_val e))).
  pose proof (padded_bounds (zlen (as_bytes (e_key e)) + zlen (e_val e))). fold (esize e) in *.
  assert (HEADER = 16) as EH by done.
  rewrite !(u64_add_small (zlen P) HEADER) by lia.
  rewrite (proj2 (Z.ltb_ge _ _)) by lia.
  destruct (expired_false w deadline Hd) as [c Hc1]. exists c. m_run (apply Hc1).
  m_run (rewrite <-(Z.add_0_r (zlen P)); apply (flash_read_at _ f P (enc e ++ R));
         rewrite ?zlen_app, ?zlen_enc; done || lia).
  rewrite enc_shaped, enc_klen, enc_vlen, enc_crc, enc_invalidated by done. cbn [negb].
  rewrite entry_ok_limits by done. unfold rec_total. fold (esize e).
  rewrite u64_add_small by lia. rewrite (proj2 (Z.ltb_ge _ _)) by lia.
  unfold kv_scan. destruct (e_valid e) eqn:Ev; cbn [negb]; [|done].
  m_run (apply (flash_read_at _ f P (enc e ++ R)); rewrite ?zlen_app, ?zlen_enc; done || lia).
  rewrite enc_body, Z.eqb_refl by done. cbn [negb].
  rewrite slice_app_exact, from_utf8_as_bytes by (done || apply He). done.
Qed.

Definition kv_scan_step (acc : Z * TickvLite) (e : entry) : Z * TickvLite :=
  (acc.1 + esize e, kv_scan acc.1 e acc.2).

(** The whole loop: from the end of the prefix [P], over the entries [Q]. *)
Lemma scan_range_loop_log Q P f tail deadline fuel w :
  flash w = Some f → fl_ok f → zlen (contents f) < 2 ^ 62 →
  contents f = P ++ log_bytes Q ++ tail → blank tail → Forall entry_ok Q → no_timeout deadline →
  (length Q < fuel)%nat →
  ∃ c, scan_range_loop now_us fuel (zlen (contents f)) deadline (zlen P) w
    = (Ok (zlen P + zlen (log_bytes Q)),
       at_kv w (fold_left kv_scan_step Q (zlen P, kv w)).2 c).
Proof.
  revert P fuel w. induction Q as [|e Q IH]; intros P fuel w Hf Hok Hs Hc Hb Hq Hd Hfuel.
  - destruct fuel as [|fuel]; [simpl in *; lia|]. rewrite log_bytes_nil, zlen_nil, Z.add_0_r.
    by eapply scan_range_loop_end.
  - destruct fuel as [|fuel]; [simpl in *; lia|]. apply Forall_cons in Hq as [He Hq].
    rewrite log_bytes_cons, <-app_assoc in Hc.
    destruct (scan_range_loop_entry fuel w f P e (log_bytes Q ++ tail) deadline) as [c ->]; [done..|].
    destruct (IH (P ++ enc e) fuel (at_kv w (kv_scan (zlen P) e (kv w)) c)) as [c' Hl]; [done|done|done| |done|done|done| |].
    { by rewrite <-app_assoc. }
    { simpl in *. lia. }
    exists c'. rewrite zlen_app, zlen_enc in Hl. rewrite Hl, zlen_log_cons.
    f_equal. f_equal. lia.
Qed.

Lemma fold_kv_scan Q off k m0 :
  index k = m0 →
  ∃ st, (fold_left kv_scan_step Q (off, k)).2
        = set_stats st (set_index (fold_left log_step Q (off, m0)).2 k).
Proof.
  intros <-. revert off k. induction Q as [|e Q IH]; intros off k.
  - exists (stats k). by destruct k.
  - rewrite !fold_left_cons. unfold kv_scan_step at 2, log_step at 2. cbn [fst snd].
    destruct (kv_scan_index off e k) as [st ->].
    destruct (IH (off + esize e) (set_stats st (set_index (index_entry off e (index k)) k))) as [st' ->].
    exists st'. by destruct k.
Qed.
End Scan.

(** * The store a log denotes *)

Definition live_entry (off : Z) (e : entry) (m : gmap string (Z * entry)) : gmap string (Z * entry) :=
  if e_valid e then
    if bool_decide (e_val e = []) then delete (e_key e) m else <[e_key e := (off, e)]> m
  else m.

Definition live_step (acc : Z * gmap string (Z * entry)) (e : entry) : Z * gmap string (Z * entry) :=
  (acc.1 + esize e, live_entry acc.1 e acc.2).

(** Each key's live record, with its offset. *)
Definition log_live (L : list entry) : gmap string (Z * entry) := (fold_left live_step L (0, ∅)).2.

(** The key-value map a log denotes. *)
Definition log_map (L : list entry) : gmap string bytes := (λ p, e_val p.2) <$> log_live L.

Lemma fold_live_fst L acc : (fold_left live_step L acc).1 = acc.1 + zlen (log_bytes L).
Proof.
  revert acc. induction L as [|e L IH]; intros acc; [symmetry; apply Z.add_0_r|].
  rewrite fold_left_cons, IH, zlen_log_cons. simpl. lia.
Qed.

Lemma log_live_snoc L e : log_live (L ++ [e]) = live_entry (zlen (log_bytes L)) e (log_live L).
Proof.
  unfold log_live. rewrite fold_left_app. simpl. rewrite fold_live_fst. by rewrite Z.add_0_l.
Qed.

(** Appending a record leaves the other keys alone. *)
Lemma log_live_snoc_ne L key val k :
  k ≠ key → log_live (L ++ [mkE true key val]) !! k = log_live L !! k.
Proof.
  intros Hne. rewrite log_live_snoc. unfold live_entry. cbn.
  case_bool_decide; [by rewrite lookup_delete_ne|by rewrite lookup_insert_ne].
Qed.

Lemma log_index_live L : log_index L = fst <$> log_live L.
Proof.
  induction L as [|e L IH] using rev_ind; [unfold log_index, log_live; simpl; by rewrite fmap_empty|].
  rewrite log_index_snoc, log_live_snoc, IH. unfold index_entry, live_entry.
  destruct (e_valid e); [|done]. case_bool_decide; [by rewrite fmap_delete|by rewrite fmap_insert].
Qed.

(** The live record of a key is in the log, valid, non-empty and followed by no
    other valid record of that key. *)
Lemma log_live_Some L k off e :
  log_live L !! k = Some (off, e) →
  ∃ L1 L2, L = L1 ++ e :: L2 ∧ off = zlen (log_bytes L1) ∧
    e_valid e = true ∧ e_key e = k ∧ e_val e ≠ [] ∧
    Forall (λ e', e_valid e' = true → e_key e' ≠ k) L2.
Proof.
  revert k off e. induction L as [|e' L IH] using rev_ind; intros k off e; [done|].
  rewrite log_live_snoc. unfold live_entry.
  assert (Hold : log_live L !! k = Some (off, e) → (e_valid e' = true → e_key e' ≠ k) →
    ∃ L1 L2, L ++ [e'] = L1 ++ e :: L2 ∧ off = zlen (log_bytes L1) ∧
      e_valid e = true ∧ e_key e = k ∧ e_val e ≠ [] ∧
      Forall (λ e', e_valid e' = true → e_key e' ≠ k) L2).
  { intros (L1 & L2 & -> & -> & Hv & Hk & Hn & Hf)%IH Hne. exists L1, (L2 ++ [e']).
    split_and!; [by rewrite <-app_assoc|done..|]. by apply Forall_app_2; [|constructor]. }
  destruct (e_valid e') eqn:Ev; [|by intros; apply Hold].
  case_bool_decide as Hval.
  - rewrite lookup_delete_Some. intros [Hne Hl]. by apply Hold.
  - destruct (decide (e_key e' = k)) as [<-|Hne].
    + rewrite lookup_insert_eq. intros [= <- <-]. exists L, []. by rewrite Ev.
    + rewrite lookup_insert_ne by done. intros Hl. by apply Hold.
Qed.

(** Entries of other keys do not touch a key's live record. *)
Lemma live_fold_foreign L off k m :
  Forall (λ e', e_valid e' = true → e_key e' ≠ k) L →
  (fold_left live_step L (off, delete k m)).2 = delete k (fold_left live_step L (off, m)).2.
Proof.
  intros Hf. revert off m. induction Hf as [|e L He _ IH]; intros off m; [done|].
  rewrite !fold_left_cons. unfold live_step at 2 4. cbn [fst snd]. rewrite <-IH. do 2 f_equal.
  unfold live_entry. destruct (e_valid e); [|done]. specialize (He eq_refl).
  case_bool_decide; [by rewrite delete_delete|]. by rewrite delete_insert_ne.
Qed.

(** [put] retires the old record of a key before appending the new one, so a
    valid non-empty record is the last valid one of its key. Checkpoint records
    are the exception: they are only ever superseded. *)
Definition uniq (L : list entry) : Prop :=
  ∀ i j ei ej, L !! i = Some ei → L !! j = Some ej → (i < j)%nat →
    e_valid ei = true → e_valid ej = true → e_key ei = e_key ej → e_key ei ≠ CKPT_KEY → e_val ei = [].

Lemma uniq_prefix_live L1 e L2 k :
  uniq (L1 ++ e :: L2) → e_valid e = true → e_key e = k → k ≠ CKPT_KEY → log_live L1 !! k = None.
Proof.
  intros Hu Hv Hk Hne. destruct (log_live L1 !! k) as [[off e1]|] eqn:E; [|done].
  apply log_live_Some in E as (A & B & -> & _ & Hv1 & Hk1 & Hn1 & _). exfalso. apply Hn1.
  eapply (Hu (length A) (length (A ++ e1 :: B)) e1 e); [..|done|done|congruence|congruence].
  - rewrite <-app_assoc. by apply list_lookup_middle.
  - by apply list_lookup_middle.
  - rewrite length_app. simpl. lia.
Qed.

Lemma log_live_cons_app L1 e L2 :
  log_live (L1 ++ e :: L2)
  = (fold_left live_step L2 (zlen (log_bytes L1) + esize e,
       live_entry (zlen (log_bytes L1)) e (log_live L1))).2.
Proof.
  unfold log_live. rewrite fold_left_app, fold_left_cons.
  pose proof (fold_live_fst L1 (0, ∅)) as Hf. rewrite Z.add_0_l in Hf. rewrite <-Hf. done.
Qed.

(** Invalidating a key's live record in place removes the key. *)
Lemma log_live_retire L1 e L2 k :
  uniq (L1 ++ e :: L2) → e_valid e = true → e_key e = k → k ≠ CKPT_KEY → e_val e ≠ [] →
  Forall (λ e', e_valid e' = true → e_key e' ≠ k) L2 →
  log_live (L1 ++ invalidate e :: L2) = delete k (log_live (L1 ++ e :: L2)).
Proof.
  intros Hu Hv Hk Hne Hn Hf. rewrite !log_live_cons_app, <-live_fold_foreign by done.
  do 2 f_equal. unfold live_entry. rewrite Hv. cbn [invalidate e_valid].
  rewrite bool_decide_eq_false_2 by done. rewrite Hk, delete_insert_eq.
  by rewrite delete_id by (by eapply uniq_prefix_live).
Qed.

Lemma uniq_retire L1 e L2 : uniq (L1 ++ e :: L2) → uniq (L1 ++ invalidate e :: L2).
Proof.
  intros Hu i j ei ej Hi Hj Hlt Hvi Hvj Hk Hne.
  assert (Hback : ∀ n en, (L1 ++ invalidate e :: L2) !! n = Some en → e_valid en = true →
                          (L1 ++ e :: L2) !! n = Some en).
  { intros n en Hn Hvn. destruct (decide (n = length L1)) as [->|].
    - rewrite list_lookup_middle in Hn by done. by simplify_eq.
    - destruct (decide (n < length L1)%nat).
      + rewrite lookup_app_l in * by lia. done.
      + rewrite lookup_app_r in * by lia.
        destruct (n - length L1)%nat eqn:E; [lia|]. done. }
  by eapply (Hu i j); eauto.
Qed.

Lemma live_fold_keeps L off k m :
  Forall (λ e', e_valid e' = true → e_key e' ≠ k) L →
  (fold_left live_step L (off, m)).2 !! k = m !! k.
Proof.
  intros Hf. revert off m. induction Hf as [|e L He _ IH]; intros off m; [done|].
  rewrite fold_left_cons. unfold live_step at 2. cbn [fst snd]. rewrite IH. unfold live_entry.
  destruct (e_valid e); [|done]. specialize (He eq_refl).
  case_bool_decide; [by rewrite lookup_delete_ne|by rewrite lookup_insert_ne].
Qed.

(** In such a log every valid non-empty record is live. *)
Lemma uniq_live L1 e L2 :
  uniq (L1 ++ e :: L2) → e_valid e = true → e_val e ≠ [] → e_key e ≠ CKPT_KEY →
  log_live (L1 ++ e :: L2) !! e_key e = Some (zlen (log_bytes L1), e).
Proof.
  intros Hu Hv Hn Hne. rewrite log_live_cons_app, live_fold_keeps.
  { unfold live_entry. rewrite Hv, bool_decide_eq_false_2 by done. apply lookup_insert_eq. }
  apply Forall_lookup. intros j ej Hj Hvj Hkj. apply Hn.
  eapply (Hu (length L1) (length L1 + S j)%nat e ej); [by apply list_lookup_middle| |lia|done..].
  rewrite lookup_app_r by lia. by replace (length L1 + S j - length L1)%nat with (S j) by lia.
Qed.

(** Appending a record of a key with no live one. *)
Lemma uniq_snoc L e :
  uniq L → (e_key e = CKPT_KEY ∨ log_live L !! e_key e = None) → uniq (L ++ [e]).
Proof.
  intros Hu He i j ei ej Hi Hj Hlt Hvi Hvj Hk Hne.
  apply lookup_snoc_Some in Hj as [[Hj Hlj]|[-> <-]].
  { rewrite lookup_app_l in Hi by lia. by eapply (Hu i j). }
  rewrite lookup_app_l in Hi by done.
  destruct He as [He|He]; [congruence|]. destruct (decide (e_val ei = [])) as [|Hn]; [done|]. exfalso.
  apply list_elem_of_split_length in Hi as (L1 & L2 & -> & ->).
  pose proof (uniq_live L1 ei L2 Hu Hvi Hn Hne) as Hl. rewrite Hk in Hl. congruence.
Qed.

(** * Indexes of a log

    The index recovered from a checkpoint may still name records that were
    invalidated since, and leaves the checkpoint record itself out; reads of such
    keys fail on the header. The keys of [T] may name their tombstone.
    [idx_ok] is the relation every operation keeps. *)

(** The entry whose record starts at [off]. *)
Definition entry_at (L : list entry) (off : Z) (e : entry) : Prop :=
  ∃ L1 L2, L = L1 ++ e :: L2 ∧ off = zlen (log_bytes L1).

Record idx_ok (T : gset string) (idx : gmap string Z) (L : list entry) : Prop := mkIdxOk {
  idx_live : ∀ k off e, k ≠ CKPT_KEY → log_live L !! k = Some (off, e) → idx !! k = Some off;
  idx_stale : ∀ k off, k ≠ CKPT_KEY → idx !! k = Some off → log_live L !! k = None →
    ∃ e, entry_at L off e ∧ e_key e = k ∧
      (e_valid e = false ∧ e_val e ≠ [] ∨ k ∈ T ∧ e_valid e = true ∧ e_val e = []);
  idx_ckpt : ∀ off, idx !! CKPT_KEY = Some off → ∃ e, log_live L !! CKPT_KEY = Some (off, e);
}.

Lemma entry_at_snoc L off e e' : entry_at L off e → entry_at (L ++ [e']) off e.
Proof. intros (L1 & L2 & -> & ->). exists L1, (L2 ++ [e']). by rewrite <-app_assoc. Qed.

Lemma log_live_at L k off e : log_live L !! k = Some (off, e) → entry_at L off e.
Proof. intros (L1 & L2 & -> & -> & _)%log_live_Some. by exists L1, L2. Qed.

(** Two decompositions of a list around an element. *)
Lemma app_cons_inv {A} (A1 A2 B1 B2 : list A) x y :
  A1 ++ x :: A2 = B1 ++ y :: B2 →
  (A1 = B1 ∧ x = y ∧ A2 = B2)
  ∨ (∃ C, B1 = A1 ++ x :: C ∧ A2 = C ++ y :: B2) ∨ (∃ C, A1 = B1 ++ y :: C ∧ B2 = C ++ x :: A2).
Proof.
  intros Heq. apply app_eq_inv in Heq as [([|z C] & -> & Hk)|([|z C] & -> & Hk)]; simplify_eq/=.
  - left. by rewrite app_nil_r.
  - right. right. eauto.
  - left. by rewrite app_nil_r.
  - right. left. eauto.
Qed.

(** An offset names one record. *)
Lemma entry_at_fun L off e e' : entry_at L off e → entry_at L off e' → e = e'.
Proof.
  intros (A & B & -> & ->) (A' & B' & Heq & Ho).
  pose proof (esize_bounds e) as [? _]. pose proof (esize_bounds e') as [? _].
  apply app_cons_inv in Heq as [(_ & -> & _)|[(C & -> & ->)|(C & -> & ->)]]; [done| |];
    rewrite zlen_log_app, zlen_log_cons in Ho; pose proof (zlen_nonneg (log_bytes C)); lia.
Qed.

(** Invalidating one record keeps every other one where it is. *)
Lemma entry_at_retire L1 e L2 off e' :
  entry_at (L1 ++ e :: L2) off e' →
  entry_at (L1 ++ invalidate e :: L2) off (if decide (off = zlen (log_bytes L1)) then invalidate e else e').
Proof.
  intros (A & B & Heq & ->).
  pose proof (esize_bounds e) as [He _]. pose proof (esize_bounds e') as [He' _].
  apply app_cons_inv in Heq as [(-> & -> & ->)|[(C & -> & ->)|(C & -> & ->)]].
  - rewrite decide_True by done. by exists A, B.
  - rewrite decide_False by (rewrite zlen_log_app, zlen_log_cons; pose proof (zlen_nonneg (log_bytes C)); lia).
    exists (L1 ++ invalidate e :: C), B. rewrite <-!app_assoc. split; [done|].
    by rewrite !zlen_log_app, !zlen_log_cons.
  - rewrite decide_False by (rewrite zlen_log_app, zlen_log_cons; pose proof (zlen_nonneg (log_bytes C)); lia).
    exists A, (C ++ invalidate e :: L2). by rewrite <-!app_assoc.
Qed.

Lemma idx_ok_log_index L : idx_ok ∅ (log_index L) L.
Proof.
  rewrite log_index_live. split.
  - intros k off e _ Hl. by rewrite lookup_fmap, Hl.
  - intros k off _ Hi Hl. by rewrite lookup_fmap, Hl in Hi.
  - intros off Hi. rewrite lookup_fmap in Hi. apply fmap_Some in Hi as ([o e] & -> & ->). by eexists.
Qed.

(** Appending a live record. *)
Lemma idx_ok_put T idx L e :
  idx_ok T idx L → e_valid e = true → e_val e ≠ [] →
  idx_ok T (<[e_key e := zlen (log_bytes L)]> idx) (L ++ [e]).
Proof.
  intros [Hlive Hstale Hck] Hv Hn.
  assert (Hs : log_live (L ++ [e]) = <[e_key e := (zlen (log_bytes L), e)]> (log_live L)).
  { rewrite log_live_snoc. unfold live_entry. by rewrite Hv, bool_decide_eq_false_2. }
  split; rewrite Hs.
  - intros k off e' Hk. destruct (decide (e_key e = k)) as [<-|Hne].
    + rewrite !lookup_insert_eq. by intros [= <- <-].
    + rewrite !lookup_insert_ne by done. by eapply Hlive.
  - intros k off Hk. destruct (decide (e_key e = k)) as [<-|Hne].
    + by rewrite !lookup_insert_eq.
    + rewrite !lookup_insert_ne by done. intros Hi Hl.
      destruct (Hstale k off Hk Hi Hl) as (e' & Hat & Hf). exists e'. eauto using entry_at_snoc.
  - intros off. destruct (decide (e_key e = CKPT_KEY)) as [->|Hne].
    + rewrite !lookup_insert_eq. intros [= <-]. by eexists.
    + rewrite !lookup_insert_ne by done. apply Hck.
Qed.

(** Appending a tombstone: the key is in the index until it is dropped. *)
Lemma idx_ok_tombstone T idx L key :
  key ≠ CKPT_KEY → idx_ok T idx L →
  idx_ok ({[key]} ∪ T) (<[key := zlen (log_bytes L)]> idx) (L ++ [mkE true key []]).
Proof.
  intros Hkc [Hlive Hstale Hck]. split; rewrite log_live_snoc; unfold live_entry; cbn.
  - intros k off e' Hk. rewrite lookup_delete_Some. intros [Hne Hl].
    rewrite lookup_insert_ne by done. by eapply Hlive.
  - intros k off Hk. destruct (decide (key = k)) as [<-|Hne].
    + rewrite lookup_insert_eq. intros [= <-] _. exists (mkE true key []). split; [by exists L, []|].
      split; [done|]. right. set_solver.
    + rewrite lookup_insert_ne, lookup_delete_ne by done.
      intros Hi Hl. destruct (Hstale k off Hk Hi Hl) as (e' & Hat & Hf). exists e'.
      split; [by apply entry_at_snoc|]. set_solver.
  - intros off. rewrite lookup_insert_ne, lookup_delete_ne by done. apply Hck.
Qed.

(** Dropping a key that has no live record. *)
Lemma idx_ok_drop T idx L key :
  idx_ok T idx L → key ≠ CKPT_KEY → log_live L !! key = None → idx_ok (T ∖ {[key]}) (delete key idx) L.
Proof.
  intros [Hlive Hstale Hck] Hk Hl. split.
  - intros k off e' Hk' Hl'. rewrite lookup_delete_ne by congruence. by eapply Hlive.
  - intros k off Hk'. rewrite lookup_delete_Some. intros [Hne Hi] Hl'.
    destruct (Hstale k off Hk' Hi Hl') as (e' & Hat & Hf). exists e'. split; [done|]. set_solver.
  - intros off. rewrite lookup_delete_ne by done. apply Hck.
Qed.

Lemma idx_ok_mono T T' idx L : T ⊆ T' → idx_ok T idx L → idx_ok T' idx L.
Proof.
  intros HT [Hlive Hstale Hck]. split; [done| |done]. intros k off Hk Hi Hl.
  destruct (Hstale k off Hk Hi Hl) as (e & Hat & Hf). exists e. split; [done|]. set_solver.
Qed.

(** Invalidating a key's live record and dropping it from the index. *)
Lemma idx_ok_retire T idx L1 e L2 :
  idx_ok T idx (L1 ++ e :: L2) → e_key e ≠ CKPT_KEY → e_valid e = true → e_val e ≠ [] →
  log_live (L1 ++ invalidate e :: L2) = delete (e_key e) (log_live (L1 ++ e :: L2)) →
  idx_ok T (delete (e_key e) idx) (L1 ++ invalidate e :: L2).
Proof.
  intros [Hlive Hstale Hck] Hk Hv Hn0 Hl. split; rewrite Hl.
  - intros k off e' Hk'. rewrite lookup_delete_Some. intros [Hne Hl'].
    rewrite lookup_delete_ne by done. by eapply Hlive.
  - intros k off Hk'. rewrite lookup_delete_Some. intros [Hne Hi]. rewrite lookup_delete_ne by done.
    intros Hn. destruct (Hstale k off Hk' Hi Hn) as (e' & Hat & Hf). eexists.
    split; [by apply entry_at_retire|]. case_decide as Hd; [|done]. subst off.
    assert (e' = e) as -> by (eapply entry_at_fun; [done|by exists L1, L2]). naive_solver.
  - intros off. rewrite !lookup_delete_ne by done. intros (e' & He')%Hck. by exists e'.
Qed.

(** [L'] is [L] with the live record of [key], if there is one, invalidated. *)
Definition retires (key : string) (L L' : list entry) : Prop :=
  (L' = L ∧ log_live L !! key = None)
  ∨ ∃ L1 e L2, L = L1 ++ e :: L2 ∧ L' = L1 ++ invalidate e :: L2 ∧ e_key e = key ∧
      e_valid e = true ∧ e_val e ≠ [] ∧ Forall (λ e', e_valid e' = true → e_key e' ≠ key) L2.

Lemma retires_size key L L' : retires key L L' → zlen (log_bytes L') = zlen (log_bytes L).
Proof.
  intros [[-> _]|(L1 & e & L2 & -> & -> & _)]; [done|]. by rewrite !zlen_log_app, !zlen_log_cons.
Qed.

Lemma retires_live key L L' :
  uniq L → key ≠ CKPT_KEY → retires key L L' → log_live L' = delete key (log_live L).
Proof.
  intros Hu Hne [[-> Hl]|(L1 & e & L2 & -> & -> & <- & Hv & Hn & Hf)].
  - by rewrite delete_id.
  - by apply log_live_retire.
Qed.

Lemma log_map_snoc L key val :
  val ≠ [] → log_map (L ++ [mkE true key val]) = <[key := val]> (log_map L).
Proof.
  intros Hn. unfold log_map. rewrite log_live_snoc. unfold live_entry. cbn.
  rewrite bool_decide_eq_false_2 by done. by rewrite fmap_insert.
Qed.

Lemma log_map_retires key L L' :
  uniq L → key ≠ CKPT_KEY → retires key L L' → log_map L' = delete key (log_map L).
Proof. intros Hu Hne Hr. unfold log_map. by rewrite (retires_live key L L'), fmap_delete. Qed.

Lemma log_map_nonempty L k v : log_map L !! k = Some v → v ≠ [].
Proof.
  unfold log_map. rewrite lookup_fmap. intros ([off e] & Hl & ->)%fmap_Some.
  by apply log_live_Some in Hl as (_ & _ & _ & _ & _ & _ & Hn & _).
Qed.

(** The checkpoint record [write_ckpt] appends to the log [L] indexed by [idx]. *)
Definition ckpt_of (idx : gmap string Z) (L : list entry) : entry :=
  mkE true CKPT_KEY (ckpt_body (zlen (log_bytes L)) (filter (λ e, e.1 ≠ CKPT_KEY) (btree_iter idx))).

(** Logs reachable by retiring live records and appending ordinary ones. *)
Inductive log_ext : list entry → list entry → Prop :=
| ext_refl L : log_ext L L
| ext_retire key L L1 L' : key ≠ CKPT_KEY → retires key L L1 → log_ext L1 L' → log_ext L L'
| ext_append e L L' :
    e_key e ≠ CKPT_KEY → log_live L !! e_key e = None → log_ext (L ++ [e]) L' → log_ext L L'.

Lemma log_ext_trans L1 L2 L3 : log_ext L1 L2 → log_ext L2 L3 → log_ext L1 L3.
Proof. induction 1; eauto using log_ext. Qed.

Lemma log_ext_snoc L e : e_key e ≠ CKPT_KEY → log_live L !! e_key e = None → log_ext L (L ++ [e]).
Proof. eauto using log_ext. Qed.

Lemma log_ext_retires key L L' : key ≠ CKPT_KEY → retires key L L' → log_ext L L'.
Proof. eauto using log_ext. Qed.

#[export] Hint Resolve log_ext_snoc log_ext_retires ext_refl : neural.
