(* ===== verification/TickvSpec.v ===== *)
(** What the operations of TickvLite do, stated on the log of [TickvLog.v], and
    the store's contract: it behaves as a map, across compaction and remount. *)

From S2P Require Import Prelude Checksum Flash Tickv TickvLog.
Import Crc32 Fnv.

Section Ops.
Context {F : Type} `{FlashLaws F fl_ok contents}.
(** The keys whose tombstone may be indexed. *)
Context {T : gset string}.

Local Abbreviation holds := (holds (fl_ok := fl_ok) (contents := contents)).

(** ** State invariant *)

(** The store in [w] is mounted on a volume holding the log [L], with an index
    of [L] and the append offset at its end. *)
Record inv (w : World F) (f : F) (L : list entry) : Prop := mkInv {
  inv_flash : flash w = Some f;
  inv_holds : holds f L;
  inv_entries : Forall entry_ok L;
  inv_uniq : uniq L;
  inv_ready : ready (kv w) = true;
  inv_index : idx_ok T (index (kv w)) L;
  inv_append : append_off (kv w) = zlen (log_bytes L);
}.

(** Fields no write path touches. *)
Record frame (w w' : World F) : Prop := mkFrame {
  fr_ready : ready (kv w') = ready (kv w);
  fr_degraded : degraded (kv w') = degraded (kv w);
  fr_backend : backend (kv w') = backend (kv w);
  fr_compacting : COMPACTING w' = COMPACTING w;
  fr_suspended : GC_SUSPENDED w' = GC_SUSPENDED w;
  fr_installed : installed w' = installed w;
}.

Lemma frame_refl w : frame w w.
Proof. by constructor. Qed.

Lemma frame_trans a b c : frame a b → frame b c → frame a c.
Proof. intros [] []. constructor; congruence. Qed.

(** ** Flash access *)

Lemma flash_write_in w f o d :
  flash w = Some f → fl_ok f → 0 ≤ o → o + zlen d ≤ zlen (contents f) →
  ∃ f', flash_write o d w = (Ok tt, set_flash (Some f') w) ∧ fl_ok f' ∧
    contents f' = splice o d (contents f).
Proof.
  intros Hf Hok Ho Hb. destruct (fl_write_in (contents := contents) f o d Hok Ho Hb) as (f' & Hw & Hok' & Hc).
  exists f'. unfold flash_write. by rewrite Hf, Hw.
Qed.

Lemma flash_write_oob w f o d :
  flash w = Some f → fl_ok f → 0 ≤ o → o + zlen d < 2 ^ 64 → zlen (contents f) < o + zlen d →
  flash_write o d w = (Err "oob", w).
Proof.
  intros Hf Hok Ho Hs Hb. unfold flash_write. rewrite Hf.
  rewrite (fl_write_oob (contents := contents)) by done. rewrite <-Hf. by destruct w.
Qed.

(** ** Appending a record *)

(** The store after [put_raw key val] at offset [off]. *)
Definition kv_put (key : string) (total : Z) (k : TickvLite) : TickvLite :=
  let st := (match index k !! key with
             | Some _ => add_dead total (stats k)
             | None => add_live total (stats k)
             end) in
  mkKv (<[key := append_off k]> (index k)) (u64_add (append_off k) total) (ready k) (degraded k)
    (backend k) (hw_latched k) (if bool_decide (key = CKPT_KEY) then ckpt_dirty k else true) (add_put st).

Lemma put_raw_run key val (w w1 : World F) :
  flash_write (append_off (kv w)) (encode_record (as_bytes key) val) w = (Ok tt, w1) →
  kv w1 = kv w →
  put_raw key val w = (Ok tt, upd_kv (kv_put key (zlen (encode_record (as_bytes key) val))) w1).
Proof.
  intros Hw Hk. unfold put_raw. m_run reflexivity. m_run (apply Hw).
  clear Hw. generalize (zlen (encode_record (as_bytes key) val)). intros total.
  unfold kv_put. destruct w1 as [k1]. cbn in Hk. subst k1. destruct (kv w) as [idx].
  cbn [Tickv.index]. unfold upd_kv. cbn [Tickv.kv Tickv.index].
  destruct (idx !! key), (bool_decide (key = CKPT_KEY)); done.
Qed.

Lemma put_raw_ok w f L key val :
  flash w = Some f → holds f L → append_off (kv w) = zlen (log_bytes L) →
  zlen (log_bytes L) + esize (mkE true key val) ≤ zlen (contents f) →
  ∃ f', put_raw key val w
        = (Ok tt, upd_kv (kv_put key (esize (mkE true key val))) (set_flash (Some f') w)) ∧
    holds f' (L ++ [mkE true key val]) ∧ zlen (contents f') = zlen (contents f).
Proof.
  intros Hf (Hok & Hs & tail & Hc & Hb) Ha Hfit. set (e := mkE true key val) in *.
  assert (Henc : encode_record (as_bytes key) val = enc e) by apply encode_record_eq.
  pose proof (zlen_nonneg (log_bytes L)).
  destruct (flash_write_in w f (append_off (kv w)) (enc e)) as (f' & Hw & Hok' & Hc');
    [done|done|lia|by rewrite Ha, zlen_enc|].
  exists f'. rewrite (put_raw_run key val w (set_flash (Some f') w)) by (rewrite ?Henc; done).
  rewrite Henc, zlen_enc. split; [done|].
  assert (Hl : zlen (contents f') = zlen (contents f)).
  { rewrite Hc', zlen_splice; [done|lia|]. rewrite zlen_enc. lia. }
  split; [|done]. split_and!; [done|lia|]. exists (slice (esize e) (zlen tail - esize e) tail).
  split; [|by apply blank_slice].
  assert (Ht : zlen (contents f) = zlen (log_bytes L) + zlen tail) by (by rewrite Hc, zlen_app).
  pose proof (zlen_enc e). pose proof (esize_bounds e).
  rewrite Hc', Ha, Hc, splice_app_r by lia. rewrite Z.sub_diag, splice_0.
  rewrite log_bytes_app, log_bytes_cons, log_bytes_nil, app_nil_r, <-app_assoc. do 2 f_equal.
  unfold slice, zlen in *. rewrite take_ge; [f_equal; lia|]. rewrite length_drop. lia.
Qed.

Lemma put_raw_oob w f L key val :
  flash w = Some f → holds f L → append_off (kv w) = zlen (log_bytes L) → entry_ok (mkE true key val) →
  zlen (contents f) < zlen (log_bytes L) + esize (mkE true key val) →
  put_raw key val w = (Err "oob", w).
Proof.
  intros Hf (Hok & Hs & tail & Hc & Hb) Ha He Hfit. set (e := mkE true key val) in *.
  assert (Henc : encode_record (as_bytes key) val = enc e) by apply encode_record_eq.
  pose proof (zlen_nonneg (log_bytes L)).
  assert (zlen (log_bytes L) ≤ zlen (contents f)) by (rewrite Hc, zlen_app; pose proof (zlen_nonneg tail); lia).
  pose proof (esize_le e He).
  pose proof (esize_bounds e).
  assert (Hw : flash_write (append_off (kv w)) (enc e) w = (Err "oob", w)).
  { apply (flash_write_oob _ f); rewrite ?Ha, ?zlen_enc; done || lia. }
  unfold put_raw. m_run reflexivity. m_fail (rewrite Henc; apply Hw). done.
Qed.

(** ** Invalidating in place *)

Definition kv_invalidate (key : string) (k : TickvLite) : TickvLite :=
  set_stats (add_dead 512 (stats k)) (set_index (delete key (index k)) k).

Lemma splice_invalidate L1 e L2 tail :
  splice (zlen (log_bytes L1) + 3) [Byte.x00] (log_bytes (L1 ++ e :: L2) ++ tail)
  = log_bytes (L1 ++ invalidate e :: L2) ++ tail.
Proof.
  rewrite !log_bytes_app, !log_bytes_cons, <-!app_assoc.
  pose proof (esize_bounds e). pose proof (zlen_enc e). pose proof (zlen_nonneg (log_bytes L1)).
  rewrite splice_app_r by lia. f_equal. replace (_ + 3 - _) with 3 by lia.
  rewrite splice_app_l; [|done|change (zlen [Byte.x00]) with 1; lia].
  f_equal.
Qed.

Lemma zlen_holds f L : holds f L → zlen (log_bytes L) ≤ zlen (contents f).
Proof. intros (_ & _ & tail & -> & _). rewrite zlen_app. pose proof (zlen_nonneg tail). lia. Qed.

(** A record in the log is inside the volume. *)
Lemma entry_at_bounds f L off e :
  holds f L → entry_at L off e →
  0 ≤ off ∧ off + esize e ≤ zlen (log_bytes L) ∧ zlen (log_bytes L) ≤ zlen (contents f).
Proof.
  intros Hh%zlen_holds (L1 & L2 & -> & ->). revert Hh. rewrite zlen_log_app, zlen_log_cons.
  pose proof (zlen_nonneg (log_bytes L1)). pose proof (zlen_nonneg (log_bytes L2)). lia.
Qed.

(** [invalidate_key] writes the tag byte of the record the index names. *)
Lemma invalidate_key_run w f L key off e :
  inv w f L → index (kv w) !! key = Some off → entry_at L off e →
  ∃ f', invalidate_key key w = (Ok tt, upd_kv (kv_invalidate key) (set_flash (Some f') w)) ∧
    fl_ok f' ∧ contents f' = splice (off + 3) [Byte.x00] (contents f) ∧
    zlen (contents f') = zlen (contents f).
Proof.
  intros [Hf Hh Hent Hu Hr Hi Ha] Hidx Hat. pose proof Hh as (Hok & Hs & Ht).
  pose proof (entry_at_bounds f L off e Hh Hat). pose proof (esize_bounds e).
  assert (Hb : off + 3 + zlen [Byte.x00] ≤ zlen (contents f)) by (change (zlen [Byte.x00]) with 1; lia).
  destruct (flash_write_in w f (off + 3) [Byte.x00]) as (f' & Hw & Hok' & Hc'); [done|done|lia|done|].
  exists f'. split_and!; [|done|done|by rewrite Hc', zlen_splice by lia].
  unfold invalidate_key. m_run reflexivity. rewrite Hr. cbn [negb].
  m_run (rewrite Hidx; reflexivity). m_run (rewrite u64_add_small by lia; apply Hw).
  by destruct w as [[]].
Qed.

Lemma splice_same_byte L1 e L2 tail :
  e_valid e = false →
  splice (zlen (log_bytes L1) + 3) [Byte.x00] (log_bytes (L1 ++ e :: L2) ++ tail)
  = log_bytes (L1 ++ e :: L2) ++ tail.
Proof. intros Hv. rewrite splice_invalidate. destruct e. cbn in *. by subst. Qed.

(** Whatever the index names under [key], it is gone afterwards. *)
Lemma invalidate_key_ok w f L key :
  inv w f L → is_Some (index (kv w) !! key) → key ≠ CKPT_KEY → key ∉ T →
  ∃ f' L', invalidate_key key w = (Ok tt, upd_kv (kv_invalidate key) (set_flash (Some f') w)) ∧
    inv (upd_kv (kv_invalidate key) (set_flash (Some f') w)) f' L' ∧
    zlen (contents f') = zlen (contents f) ∧ retires key L L'.
Proof.
  intros Hinv [off Hidx] Hne HT. pose proof Hinv as [Hf Hh Hent Hu Hr Hi Ha].
  destruct (log_live L !! key) as [[off' e]|] eqn:Hl.
  - assert (off' = off) as -> by (pose proof (idx_live _ _ _ Hi _ _ _ Hne Hl); congruence).
    destruct (invalidate_key_run w f L key off e Hinv Hidx) as (f' & Hrun & Hok' & Hc' & Hz');
      [by eapply log_live_at|].
    apply log_live_Some in Hl as (L1 & L2 & -> & -> & Hv & Hk & Hn & Hfor). subst key.
    exists f', (L1 ++ invalidate e :: L2).
    assert (Hlive : log_live (L1 ++ invalidate e :: L2) = delete (e_key e) (log_live (L1 ++ e :: L2)))
      by (by apply log_live_retire).
    assert (Hsize : zlen (log_bytes (L1 ++ invalidate e :: L2)) = zlen (log_bytes (L1 ++ e :: L2)))
      by (by rewrite !zlen_log_app, !zlen_log_cons).
    split_and!; [done| |done|right; by exists L1, e, L2]. destruct Hh as (Hok & Hs & tail & Hc & Hb). constructor; cbn.
    + done.
    + split_and!; [done|lia|]. exists tail. split; [|done]. rewrite Hc', Hc. apply splice_invalidate.
    + apply Forall_app in Hent as [He1 [He2 He3]%Forall_cons]. apply Forall_app. split; [done|].
      by constructor.
    + by apply uniq_retire.
    + done.
    + by apply idx_ok_retire.
    + by rewrite Hsize.
  - destruct (idx_stale _ _ _ Hi _ _ Hne Hidx Hl) as (e & Hat & _ & [[Hv _]|[? _]]); [|done].
    destruct (invalidate_key_run w f L key off e Hinv Hidx Hat) as (f' & Hrun & Hok' & Hc' & Hz').
    exists f', L. split_and!; [done| |done|by left].
    destruct Hh as (Hok & Hs & tail & Hc & Hb). constructor; cbn; try done.
    + split_and!; [done|lia|]. exists tail. split; [|done]. rewrite Hc', Hc.
      destruct Hat as (L1 & L2 & -> & ->). by apply splice_same_byte.
    + eapply idx_ok_mono; [|by apply idx_ok_drop]. set_solver.
Qed.

(** ** Reading *)

Definition kv_get (k : TickvLite) : TickvLite := set_stats (add_get (stats k)) k.

Lemma inv_kv_get w f L : inv w f L → inv (upd_kv kv_get w) f L.
Proof. intros []. by constructor. Qed.

(** Whatever the record's tag, reading it fetches its header. *)
Lemma get_header w f L off e (R : bytes → M (World F) bytes) :
  inv w f L → entry_at L off e →
  (hdr ← flash_read off HEADER; R hdr) w
  = R (header (if e_valid e then Byte.x56 else Byte.x00) (as_bytes (e_key e)) (e_val e)) w.
Proof.
  intros [Hf Hh Hent Hu Hr Hi Ha] Hat. pose proof (entry_at_bounds f L off e Hh Hat).
  pose proof (esize_bounds e). destruct Hh as (Hok & Hs & tail & Hc & Hb).
  assert (HEADER = 16) as EH by done. destruct Hat as (L1 & L2 & -> & ->).
  pose proof (zlen_nonneg (log_bytes L2)). pose proof (zlen_nonneg tail). rewrite log_bytes_app, log_bytes_cons, <-!app_assoc in Hc.
  m_run (rewrite <-(Z.add_0_r (zlen (log_bytes L1)));
         apply (flash_read_at (contents := contents) _ f _ _ _ _ Hf Hok Hc);
         rewrite ?zlen_app, ?zlen_enc; lia).
  by rewrite enc_header.
Qed.

(** The body of a record in the log. *)
Lemma read_body w f L off e (R : bytes → M (World F) bytes) :
  flash w = Some f → holds f L → entry_at L off e →
  (body ← flash_read (u64_add off HEADER) (zlen (as_bytes (e_key e)) + zlen (e_val e)); R body) w
  = R (as_bytes (e_key e) ++ e_val e) w.
Proof.
  intros Hf Hh Hat. pose proof (entry_at_bounds f L off e Hh Hat).
  destruct Hh as (Hok & Hs & tail & Hc & Hb). destruct Hat as (L1 & L2 & -> & ->).
  rewrite log_bytes_app, log_bytes_cons, <-!app_assoc in Hc.
  pose proof (esize_body e). pose proof (zlen_nonneg (as_bytes (e_key e))).
  pose proof (zlen_nonneg (e_val e)).
  pose proof (zlen_nonneg (log_bytes L2)). pose proof (zlen_nonneg tail).
  assert (HEADER = 16) as EH by done. rewrite u64_add_small by lia.
  m_run (apply (flash_read_at (contents := contents) _ f _ _ _ _ Hf Hok Hc);
         rewrite ?zlen_app, ?zlen_enc; lia).
  by rewrite enc_body.
Qed.

(** A valid record the index names is read back. *)
Lemma get_valid w f L key off e :
  inv w f L → index (kv w) !! key = Some off → entry_at L off e → e_valid e = true →
  get key w = (Ok (e_val e), upd_kv kv_get w).
Proof.
  intros Hinv Hidx Hat Hv.
  unfold get. m_run reflexivity. rewrite (inv_ready _ _ _ Hinv). cbn [negb].
  m_run reflexivity. m_run (rewrite Hidx; reflexivity).
  change (upd_kv _ w) with (upd_kv kv_get w).
  rewrite (get_header _ f L off e) by (done || by apply inv_kv_get).
  assert (He : entry_ok e).
  { destruct Hat as (L1 & L2 & -> & ->). pose proof (inv_entries _ _ _ Hinv) as Hf.
    by apply Forall_app in Hf as [_ [? _]%Forall_cons]. }
  pose proof He as (_ & Hkl & Hvl). rewrite Hv, header_valid. cbn [negb].
  rewrite header_klen, header_vlen, header_crc by done.
  pose proof (inv_kv_get _ _ _ Hinv) as [Hf Hh _ _ _ _ _].
  rewrite (read_body _ f _ _ e) by done.
  by rewrite Z.eqb_refl, slice_app_r, Z.sub_diag, slice_full by lia.
Qed.

Lemma get_live w f L key off e :
  inv w f L → index (kv w) !! key = Some off → log_live L !! key = Some (off, e) →
  get key w = (Ok (e_val e), upd_kv kv_get w).
Proof.
  intros Hinv Hidx Hl. eapply get_valid; [done|done|by eapply log_live_at|].
  by apply log_live_Some in Hl as (_ & _ & _ & _ & Hv & _).
Qed.

Lemma get_invalid w f L key off e :
  inv w f L → index (kv w) !! key = Some off → entry_at L off e → e_valid e = false →
  get key w = (Err "missing", upd_kv kv_get w).
Proof.
  intros Hinv Hidx Hat Hv. unfold get. m_run reflexivity. rewrite (inv_ready _ _ _ Hinv). cbn [negb].
  m_run reflexivity. m_run (rewrite Hidx; reflexivity).
  change (upd_kv _ w) with (upd_kv kv_get w).
  rewrite (get_header _ f L off e) by (done || by apply inv_kv_get).
  by rewrite Hv, header_not_valid.
Qed.

Lemma get_missing w f L key :
  inv w f L → key ≠ CKPT_KEY → key ∉ T → log_live L !! key = None →
  get key w = (Err "missing", upd_kv kv_get w).
Proof.
  intros Hinv Hne HT Hl. destruct (index (kv w) !! key) as [off|] eqn:Hidx.
  - destruct (idx_stale _ _ _ (inv_index _ _ _ Hinv) _ _ Hne Hidx Hl) as (e & Hat & _ & [[Hv _]|[? _]]); [|done].
    by eapply get_invalid.
  - unfold get. m_run reflexivity. rewrite (inv_ready _ _ _ Hinv). cbn [negb].
    m_run reflexivity. by rewrite Hidx.
Qed.

(** [get] is lookup in the map the log denotes. *)
Lemma get_spec w f L key :
  inv w f L → key ≠ CKPT_KEY → key ∉ T →
  get key w = (match log_map L !! key with Some v => Ok v | None => Err "missing" end, upd_kv kv_get w).
Proof.
  intros Hinv Hne HT. unfold log_map. rewrite lookup_fmap.
  destruct (log_live L !! key) as [[off e]|] eqn:Hl; cbn.
  - eapply get_live; [done| |done]. by eapply idx_live; [apply Hinv| |].
  - by eapply get_missing.
Qed.

(** ** Updating *)

(** The store moved on from log [L] to log [L'] on the same volume. *)
Record evolves (w : World F) (f : F) (w' : World F) (f' : F) (L' : list entry) : Prop := mkEvolves {
  ev_inv : inv w' f' L';
  ev_frame : frame w w';
  ev_size : zlen (contents f') = zlen (contents f);
}.

Lemma evolves_refl w f L : inv w f L → evolves w f w f L.
Proof. intros. constructor; [done|apply frame_refl|done]. Qed.

Lemma evolves_trans a fa b fb Lb c fc Lc :
  evolves a fa b fb Lb → evolves b fb c fc Lc → evolves a fa c fc Lc.
Proof. intros [? ? ?] [? ? ?]. constructor; [done|by eapply frame_trans|congruence]. Qed.

(** [retire_old] removes the key's live record, if any. *)
Lemma retire_old_ok w f L key :
  inv w f L → key ≠ CKPT_KEY → key ∉ T →
  ∃ w' f' L', retire_old key w = (Ok tt, w') ∧ evolves w f w' f' L' ∧ retires key L L'.
Proof.
  intros Hinv Hne HT. unfold retire_old. destruct (decide (is_Some (index (kv w) !! key))) as [Hs|Hs].
  - destruct (invalidate_key_ok w f L key Hinv Hs Hne HT) as (f' & L' & Hrun & Hinv' & Hz & Hret).
    eexists _, f', L'. split.
    { m_run reflexivity. rewrite bool_decide_eq_false_2, bool_decide_eq_true_2 by done. cbn [negb andb].
      m_run (unfold m_try; rewrite Hrun; reflexivity). done. }
    split; [|done]. constructor; [done| |done]. by constructor.
  - exists w, f, L. split.
    { m_run reflexivity. rewrite bool_decide_eq_false_2, (bool_decide_eq_false_2 (is_Some _)) by done. done. }
    split; [by apply evolves_refl|]. left. split; [done|].
    apply eq_None_not_Some. intros [[off e] Hl]. apply Hs.
    exists off. by eapply (idx_live _ _ _ (inv_index _ _ _ Hinv)).
Qed.

(** Appending a record for a key that has none. *)
Lemma append_ok w f L key val :
  inv w f L → entry_ok (mkE true key val) → val ≠ [] →
  key = CKPT_KEY ∨ log_live L !! key = None →
  zlen (log_bytes L) + esize (mkE true key val) ≤ zlen (contents f) →
  ∃ w' f', put_raw key val w = (Ok tt, w') ∧ evolves w f w' f' (L ++ [mkE true key val]) ∧
    stats (kv w') = stats (kv_put key (esize (mkE true key val)) (kv w)).
Proof.
  intros [Hf Hh Hent Hu Hr Hi Ha] He Hn Hk Hfit.
  destruct (put_raw_ok w f L key val Hf Hh Ha Hfit) as (f' & Hrun & Hh' & Hz).
  eexists _, f'. split; [done|]. split; [|done]. pose proof (zlen_nonneg (log_bytes L)).
  pose proof (esize_bounds (mkE true key val)). assert (zlen (contents f) < 2 ^ 62) by apply Hh.
  constructor; [constructor| |done]; cbn; try done.
  - apply Forall_app. split; [done|]. by constructor.
  - by apply uniq_snoc.
  - rewrite Ha. by apply (idx_ok_put _ _ _ (mkE true key val)).
  - rewrite zlen_log_snoc, Ha, u64_add_small by lia. done.
Qed.
End Ops.

(** [evolves_trans] across a change of the tombstone set. *)
Lemma evolves_then {F} `{FlashLaws F fl_ok contents} T T' a fa b fb Lb c fc Lc :
  evolves (fl_ok := fl_ok) (contents := contents) (T := T) a fa b fb Lb →
  evolves (fl_ok := fl_ok) (contents := contents) (T := T') b fb c fc Lc →
  evolves (fl_ok := fl_ok) (contents := contents) (T := T') a fa c fc Lc.
Proof. intros [? ? ?] [? ? ?]. constructor; [done|by eapply frame_trans|congruence]. Qed.
