(* ===== verification/TickvGc.v ===== *)
(** Compaction of TickvLite: wiping the log, the live set, the batch rewrite and
    the new checkpoint; and what [put], [delete_key] and the flushes do on top. *)

From S2P Require Import Prelude Checksum Flash Tickv TickvLog TickvSpec.
Import Crc32 Fnv.

(** * Sizes of sub-lists of a log *)

Lemma log_size_perm L1 L2 : L1 ≡ₚ L2 → zlen (log_bytes L1) = zlen (log_bytes L2).
Proof.
  induction 1; rewrite ?zlen_log_cons; try done; lia.
Qed.

Lemma log_size_submseteq L1 L2 : L1 ⊆+ L2 → zlen (log_bytes L1) ≤ zlen (log_bytes L2).
Proof.
  intros [L3 Hp]%submseteq_Permutation. rewrite (log_size_perm _ _ Hp), zlen_log_app.
  pose proof (zlen_nonneg (log_bytes L3)). lia.
Qed.

Lemma entry_at_elem L off e : entry_at L off e → e ∈ L.
Proof. intros (L1 & L2 & -> & _). apply list_elem_of_In, in_elt. Qed.

(** Distinct keys, each with a record in the log, take no more than the log. *)
Definition entry_of (it : string * bytes) : entry := mkE true it.1 it.2.

Lemma items_fit (items : list (string * bytes)) L :
  NoDup items.*1 → (∀ it, it ∈ items → entry_of it ∈ L) →
  zlen (log_bytes (entry_of <$> items)) ≤ zlen (log_bytes L).
Proof.
  intros Hn He. apply log_size_submseteq, NoDup_submseteq.
  - apply (NoDup_fmap_1 e_key). rewrite <-list_fmap_compose. exact Hn.
  - intros e (it & -> & Hit)%list_elem_of_fmap. by apply He.
Qed.

(** The live records among those of [keys]. *)
Definition live_items (L : list entry) (keys : list string) : list (string * bytes) :=
  omap (λ k, pair k <$> log_map L !! k) keys.

(** [Lc] is the live set of [L], packed in index order. *)
Definition packed (L Lc : list entry) : Prop :=
  ∃ T idx, idx_ok T idx L ∧ Lc = entry_of <$> live_items L (btree_iter idx).*1.

(** What a background flush may do to the log of a volume of [cap] bytes. *)
Inductive gc_step (cap : Z) (L L' : list entry) : Prop :=
| gc_idle : L' = L → gc_step cap L L'
| gc_ckpt idx : idx_ok ∅ idx L → L' = L ++ [ckpt_of idx L] → gc_step cap L L'
| gc_packed Lc idx :
    packed L Lc → idx_ok ∅ idx Lc → L' = Lc ++ [ckpt_of idx Lc] → gc_step cap L L'
| gc_full Lc idx :
    packed L Lc → idx_ok ∅ idx Lc → cap < zlen (log_bytes Lc) + esize (ckpt_of idx Lc) →
    L' = Lc → gc_step cap L L'.

Lemma idx_keys_live T idx L k :
  idx_ok T idx L → is_Some (log_map L !! k) → k ≠ CKPT_KEY → k ∈ (btree_iter idx).*1.
Proof.
  unfold log_map. rewrite lookup_fmap, fmap_is_Some. intros Hok [[off e] Hl] Hne.
  pose proof (idx_live _ _ _ Hok _ _ _ Hne Hl) as Hi.
  apply list_elem_of_fmap. exists (k, off). split; [done|]. by apply elem_of_btree_iter.
Qed.

Lemma log_map_items (items : list (string * bytes)) k :
  Forall (λ it, it.2 ≠ []) items → NoDup items.*1 →
  log_map (entry_of <$> items) !! k = (list_to_map items : gmap string bytes) !! k.
Proof.
  induction items as [|[k' v] items IH] using rev_ind; intros Hn Hd; [done|].
  apply Forall_app in Hn as [Hn [Hv _]%Forall_cons].
  rewrite fmap_app in Hd. rewrite fmap_app. apply NoDup_app in Hd as (Hd & Hdis & _). simpl.
  change (entry_of (k', v)) with (mkE true k' v). rewrite log_map_snoc by done.
  rewrite list_to_map_snoc by (intros Hin; eapply Hdis; [done|simpl; by left]).
  destruct (decide (k = k')) as [->|]; [by rewrite !lookup_insert_eq|].
  rewrite !lookup_insert_ne by done. by apply IH.
Qed.

Lemma elem_of_live_items L keys k v :
  (k, v) ∈ live_items L keys ↔ k ∈ keys ∧ log_map L !! k = Some v.
Proof.
  unfold live_items. rewrite list_elem_of_omap. split.
  - intros (k' & Hk & Hm). destruct (log_map L !! k') eqn:E; by simplify_eq/=.
  - intros [Hk Hm]. exists k. by rewrite Hm.
Qed.

Lemma NoDup_live_items L keys : NoDup keys → NoDup (live_items L keys).*1.
Proof.
  unfold live_items. induction 1 as [|k keys Hk _ IH]; [constructor|]. simpl.
  destruct (log_map L !! k) as [v|]; [|exact IH]. simpl. constructor; [|exact IH].
  intros ([k' v'] & -> & (? & _)%elem_of_live_items)%list_elem_of_fmap. done.
Qed.

(** Packing keeps the map a log denotes, the checkpoint's key apart. *)
Lemma packed_map L Lc k : packed L Lc → k ≠ CKPT_KEY → log_map Lc !! k = log_map L !! k.
Proof.
  intros (T & idx & Hok & ->) Hne. set (keys := (btree_iter idx).*1).
  assert (Hd : NoDup (live_items L keys).*1) by apply NoDup_live_items, NoDup_btree_iter_keys.
  rewrite log_map_items; [|apply Forall_forall; intros [k' v] [_ Hm]%elem_of_live_items;
    by eapply log_map_nonempty|done].
  destruct (log_map L !! k) as [v|] eqn:Hm.
  - apply elem_of_list_to_map; [done|]. apply elem_of_live_items. split; [|done].
    eapply idx_keys_live; [done|by rewrite Hm|done].
  - apply not_elem_of_list_to_map. intros ([k' v'] & -> & (_ & Hm')%elem_of_live_items)%list_elem_of_fmap.
    cbn in Hm. congruence.
Qed.

Lemma gc_step_map cap L L' k : gc_step cap L L' → k ≠ CKPT_KEY → log_map L' !! k = log_map L !! k.
Proof.
  intros Hs Hne. destruct Hs as [->|idx Hi ->|Lc idx Hp Hi ->|Lc idx Hp Hi _ ->]; [done|..].
  - unfold ckpt_of. by rewrite log_map_snoc, lookup_insert_ne.
  - unfold ckpt_of. rewrite log_map_snoc, lookup_insert_ne by done. by apply packed_map.
  - by apply packed_map.
Qed.

(** What an index names is in the log, under the same key. *)
Lemma idx_ok_at T idx L k off : idx_ok T idx L → idx !! k = Some off → ∃ e, entry_at L off e ∧ e_key e = k.
Proof.
  intros Hok Hi. destruct (log_live L !! k) as [[off' e]|] eqn:Hl.
  - assert (off' = off) as ->.
    { destruct (decide (k = CKPT_KEY)) as [->|Hne].
      - destruct (idx_ckpt _ _ _ Hok off Hi) as [? ?]. congruence.
      - pose proof (idx_live _ _ _ Hok k off' e Hne Hl). congruence. }
    exists e. split; [by eapply log_live_at|]. by apply log_live_Some in Hl as (_ & _ & _ & _ & _ & Hk & _).
  - destruct (decide (k = CKPT_KEY)) as [->|Hne].
    + destruct (idx_ckpt _ _ _ Hok off Hi) as [? ?]. congruence.
    + destruct (idx_stale _ _ _ Hok k off Hne Hi Hl) as (e & Hat & Hk & _). eauto.
Qed.

Lemma idx_ok_live T idx L k off off' e :
  idx_ok T idx L → idx !! k = Some off → log_live L !! k = Some (off', e) → idx !! k = Some off'.
Proof.
  intros Hok Hi Hl. destruct (decide (k = CKPT_KEY)) as [->|Hne]; [|by eapply idx_live].
  destruct (idx_ckpt _ _ _ Hok off Hi) as [? ?]. congruence.
Qed.

(** Pick the records of a list of keys. *)
Lemma pick_entries (keys : list string) (L : list entry) :
  (∀ k, k ∈ keys → ∃ e, e ∈ L ∧ e_key e = k) → ∃ es, e_key <$> es = keys ∧ es ⊆ L.
Proof.
  induction keys as [|k keys IH]; intros Hk.
  { exists []. split; [done|apply list_subseteq_nil]. }
  destruct (Hk k) as (e & He & <-); [by left|].
  destruct IH as (es & <- & Hes); [intros k' ?; apply Hk; by right|].
  exists (e :: es). split; [done|]. intros x [->|Hx]%elem_of_cons; [done|by apply Hes].
Qed.

Lemma ckpt_entries_size es (es' : list entry) :
  e_key <$> es' = es.*1 → zlen (concat (ckpt_entry <$> es)) ≤ zlen (log_bytes es').
Proof.
  revert es'. induction es as [|[k o] es IH]; intros [|e es'] Heq; try done.
  injection Heq as Hk Heq. rewrite fmap_cons, zlen_log_cons. simpl concat. rewrite zlen_app.
  specialize (IH _ Heq). pose proof (esize_body e) as Hb. rewrite Hk in Hb. unfold HEADER in Hb.
  pose proof (zlen_nonneg (e_val e)). pose proof (zlen_nonneg (as_bytes k)).
  assert (zlen (ckpt_entry (k, o)) ≤ zlen (as_bytes k) + 10).
  { unfold ckpt_entry. cbn [fst snd]. case (65535 <? _); [change (zlen []) with 0; lia|].
    rewrite !zlen_app, !zlen_to_le_bytes. lia. }
  lia.
Qed.

(** A checkpoint of an index is no longer than its log. *)
Lemma ckpt_body_fits a es L :
  NoDup es.*1 → (∀ k o, (k, o) ∈ es → ∃ e, e ∈ L ∧ e_key e = k) →
  zlen (ckpt_body a es) ≤ 24 + zlen (log_bytes L).
Proof.
  intros Hn Hk. destruct (pick_entries es.*1 L) as (es' & Heq & Hsub).
  { intros k ([k' o] & -> & Hin)%list_elem_of_fmap. by eapply Hk. }
  assert (zlen (log_bytes es') ≤ zlen (log_bytes L)).
  { apply log_size_submseteq, NoDup_submseteq; [|done]. apply (NoDup_fmap_1 e_key). by rewrite Heq. }
  pose proof (ckpt_entries_size es es' Heq). unfold ckpt_body.
  rewrite !zlen_app, !zlen_to_le_bytes. change (zlen (as_bytes "TKCK")) with 4. lia.
Qed.

Lemma NoDup_filter_keys {V} (P : string * V → Prop) `{!∀ x, Decision (P x)} (l : list (string * V)) :
  NoDup l.*1 → NoDup (filter P l).*1.
Proof. intros Hn. eapply sublist_NoDup; [exact Hn|]. apply fmap_sublist, sublist_filter. Qed.

(** * Wiping *)

Lemma splice_frame_eq (o : Z) (d l l' : bytes) :
  0 ≤ o → o + zlen d ≤ zlen l → zlen l' = zlen l →
  (∀ p m, 0 ≤ p → 0 ≤ m → (p + m ≤ o ∨ o + zlen d ≤ p) → slice p m l' = slice p m l) →
  splice o d l' = splice o d l.
Proof.
  intros Ho Hb Hl Hs. pose proof (zlen_nonneg d). unfold splice. f_equal; [|f_equal].
  - specialize (Hs 0 o ltac:(lia) ltac:(lia) ltac:(lia)). unfold slice in Hs. simpl in Hs. done.
  - specialize (Hs (o + zlen d) (zlen l - (o + zlen d)) ltac:(lia) ltac:(lia) ltac:(lia)).
    unfold slice, zlen in *. rewrite !take_ge in Hs by (rewrite length_drop; lia).
    by replace (Z.to_nat (o + Z.of_nat (length d))) with (Z.to_nat o + length d)%nat in Hs by lia.
Qed.

Section Gc.
Context {F : Type} `{FlashLaws F fl_ok contents}.

Local Abbreviation holds := (holds (fl_ok := fl_ok) (contents := contents)).
Local Abbreviation inv T := (inv (fl_ok := fl_ok) (contents := contents) (T := T)).
Local Abbreviation evolves T := (evolves (fl_ok := fl_ok) (contents := contents) (T := T)).

Implicit Types T : gset string.

(** One turn of the wipe: erase, then zero. *)
Lemma wipe_step w f o n :
  flash w = Some f → fl_ok f → 0 ≤ o → 0 ≤ n → o + n ≤ zlen (contents f) → zlen (contents f) < 2 ^ 62 →
  ∃ r w1 f', m_try (flash_erase o n) w = (Ok r, w1) ∧
    flash_write o (zeros n) w1 = (Ok tt, set_flash (Some f') w) ∧
    fl_ok f' ∧ contents f' = splice o (zeros n) (contents f).
Proof.
  intros Hf Hok Ho Hn Hb Hs.
  destruct (fl_erase_frame (contents := contents) f o n Hok Ho Hn ltac:(lia))
    as (r & f1 & Her & Hr & Hok1 & Hz1 & Hfr).
  destruct (flash_write_in (contents := contents) (set_flash (Some f1) w) f1 o (zeros n))
    as (f' & Hw & Hok' & Hc'); [done|done|done|rewrite zlen_zeros; lia|].
  exists r, (set_flash (Some f1) w), f'. split_and!; [|rewrite Hw; by destruct w|done|].
  - unfold m_try, flash_erase. rewrite Hf, Her. by destruct Hr as [->| ->].
  - rewrite Hc'. apply splice_frame_eq; rewrite ?zlen_zeros; done.
Qed.

Lemma mask_down_aligned x : 0 ≤ x → x mod 512 = 0 → mask_down 9 (x + 511) = x.
Proof.
  intros Hx Hm. pose proof (mask_down_bounds 9 (x + 511) ltac:(lia) ltac:(lia)) as Hb.
  pose proof (mask_down_mod 9 (x + 511) ltac:(lia)) as Hd. change (2 ^ 9) with 512 in *.
  pose proof (Z.div_mod x 512). pose proof (Z.div_mod (mask_down 9 (x + 511)) 512). lia.
Qed.

(** The loop zeroes everything up to [wipe]. *)
Lemma wipe_loop_ok fuel w f o wipe :
  flash w = Some f → fl_ok f → zlen (contents f) < 2 ^ 62 →
  0 ≤ o ≤ wipe → wipe ≤ zlen (contents f) → o mod 512 = 0 → wipe mod 512 = 0 →
  wipe - o < 512 * Z.of_nat fuel →
  ∃ f', wipe_loop fuel o wipe w = (Ok tt, set_flash (Some f') w) ∧ fl_ok f' ∧
    contents f' = splice o (zeros (wipe - o)) (contents f).
Proof.
  revert w f o. induction fuel as [|fuel IH]; intros w f o Hf Hok Hs Ho Hw Hm Hmw Hfuel; [lia|].
  simpl. case (Z.ltb_spec o wipe) as [Hlt|Hge].
  2:{ assert (o = wipe) as -> by lia. exists f. rewrite <-Hf, Z.sub_diag. split; [by destruct w|].
      split; [done|]. change (zeros 0) with (@nil Byte.byte). by rewrite splice_nil. }
  set (n := Z.min 4096 (wipe - o)).
  assert (Hn : n mod 512 = 0).
  { pose proof (Z.div_mod o 512). pose proof (Z.div_mod wipe 512). unfold n. apply Z.mod_divide; [done|].
    exists (Z.min 8 (wipe / 512 - o / 512)). lia. }
  assert (512 ≤ n) by (pose proof (Z.div_mod n 512); lia).
  rewrite mask_down_aligned by (done || lia).
  destruct (wipe_step w f o n) as (r & w1 & f1 & Her & Hwr & Hok1 & Hc1); [done|done|lia..|].
  assert (Hz1 : zlen (contents f1) = zlen (contents f))
    by (rewrite Hc1, zlen_splice; rewrite ?zlen_zeros; lia).
  rewrite u64_add_small by lia.
  destruct (IH (set_flash (Some f1) w) f1 (o + n)) as (f' & Hrun' & Hok' & Hc'); [done|done|lia..| |done|lia|].
  { rewrite Z.add_mod, Hm, Hn by done. done. }
  exists f'. split; [|split; [done|]].
  - m_run (apply Her). m_run (apply Hwr). rewrite Hrun'. by destruct w.
  - rewrite Hc', Hc1. replace (wipe - o) with (n + (wipe - (o + n))) by lia.
    unfold zeros at 3. rewrite Z2Nat.inj_add, replicate_add by lia. fold (zeros n).
    fold (zeros (wipe - (o + n))). rewrite splice_app_split; rewrite ?zlen_zeros; lia || done.
Qed.

(** After the wipe of a log and its blank tail the volume is an empty log. *)
Lemma wipe_log_ok w f L :
  flash w = Some f → holds f L → 512 ≤ zlen (contents f) →
  let wipe := Z.max (mask_down 9 (u64_add (zlen (log_bytes L)) 511)) 512 in
  ∃ f', wipe_loop (scan_fuel wipe) 0 wipe w = (Ok tt, set_flash (Some f') w) ∧ holds f' [] ∧
    zlen (contents f') = zlen (contents f).
Proof.
  intros Hf Hh Hsz wipe. pose proof (zlen_holds _ _ Hh) as Hz. pose proof (zlen_nonneg (log_bytes L)).
  destruct Hh as (Hok & Hs & tail & Hc & Hb). pose proof (log_mod L).
  assert (wipe = Z.max (zlen (log_bytes L)) 512) as ->.
  { unfold wipe. rewrite u64_add_small, mask_down_aligned by (done || lia). done. }
  set (n := Z.max (zlen (log_bytes L)) 512).
  assert (Hn : n mod 512 = 0) by (unfold n; destruct (Z.max_spec (zlen (log_bytes L)) 512) as [[_ ->]|[_ ->]]; done).
  destruct (wipe_loop_ok (scan_fuel n) w f 0 n) as (f' & Hrun & Hok' & Hc'); try done; try lia.
  { unfold scan_fuel. pose proof (Z.div_mod n 512). lia. }
  rewrite Z.sub_0_r in Hc'. exists f'. split; [done|].
  assert (Hz' : zlen (contents f') = zlen (contents f))
    by (rewrite Hc', zlen_splice; rewrite ?zlen_zeros; lia).
  split; [|done]. split_and!; [done|lia|]. exists (contents f'). split; [done|].
  rewrite Hc'. unfold splice. simpl. apply blank_app. split; [apply blank_zeros|].
  rewrite Hc. unfold zeros. rewrite length_replicate, drop_app_ge by (unfold zlen in *; lia).
  by apply blank_drop.
Qed.

(** ** The live set *)

(** What [get] returns for an indexed key: its value, or nothing, or the empty
    value of a tombstone. *)
Lemma get_indexed {T} w f L key :
  inv T w f L → is_Some (index (kv w) !! key) →
  ∃ r, get key w = (r, upd_kv kv_get w) ∧
    match log_map L !! key with Some v => r = Ok v | None => r = Err "missing" ∨ r = Ok [] end.
Proof.
  intros Hinv [off Hi]. pose proof (inv_index _ _ _ Hinv) as Hok.
  unfold log_map. rewrite lookup_fmap. destruct (log_live L !! key) as [[off' e]|] eqn:Hl; cbn.
  - exists (Ok (e_val e)). split; [|done].
    eapply get_live; [done|by eapply idx_ok_live|done].
  - destruct (decide (key ∈ T)) as [HT|HT].
    + destruct (idx_stale _ _ _ Hok key off) as (e & Hat & Hk & [[Hv _]|(_ & Hv & He)]); [| done..| |].
      * intros ->. destruct (idx_ckpt _ _ _ Hok off Hi) as [? ?]. congruence.
      * eexists. split; [by eapply get_invalid|]. by left.
      * eexists. split; [by eapply get_valid|]. rewrite He. by right.
    + eexists. split; [eapply get_missing; try done|by left].
      intros ->. destruct (idx_ckpt _ _ _ Hok off Hi) as [? ?]. congruence.
Qed.

(** The world after [n] reads. *)
Definition after_gets (n : nat) (w : World F) : World F := Nat.iter n (upd_kv kv_get) w.

Lemma after_gets_S n w : after_gets n (upd_kv kv_get w) = after_gets (S n) w.
Proof. unfold after_gets. by rewrite <-Nat.iter_succ_r. Qed.

Lemma after_gets_evolves {T} n w f L : inv T w f L → evolves T w f (after_gets n w) f L.
Proof.
  intros Hinv. induction n as [|n IH]; [by apply evolves_refl|].
  eapply evolves_trans; [exact IH|]. constructor; [by apply inv_kv_get, IH|by constructor|done].
Qed.

Lemma after_gets_index n w : index (kv (after_gets n w)) = index (kv w).
Proof. induction n as [|n IH]; [done|]. simpl. exact IH. Qed.

Lemma collect_live_ok {T} keys w f L :
  inv T w f L → (∀ k, k ∈ keys → is_Some (index (kv w) !! k)) →
  collect_live keys w = (Ok (live_items L keys), after_gets (length keys) w).
Proof.
  revert w. induction keys as [|k keys IH]; intros w Hinv Hk; [done|].
  cbn [collect_live]. destruct (get_indexed w f L k Hinv (Hk _ (list_elem_of_here _ _))) as (r & Hg & Hr).
  destruct (log_map L !! k) as [v|] eqn:Hm.
  - subst r. m_run (by apply m_try_Ok). m_run (apply IH; [by apply inv_kv_get|]; intros; apply Hk; by right).
    rewrite bool_decide_eq_false_2 by (by eapply log_map_nonempty).
    rewrite after_gets_S. unfold live_items. simpl. by rewrite Hm.
  - destruct Hr as [->| ->]; [m_run (by apply m_try_Err)|m_run (by apply m_try_Ok)];
      m_run (apply IH; [by apply inv_kv_get|]; intros; apply Hk; by right);
      rewrite after_gets_S; unfold live_items; simpl; by rewrite Hm.
Qed.

Lemma live_items_in L keys it : it ∈ live_items L keys → entry_of it ∈ L.
Proof.
  destruct it as [k v]. intros [_ Hm]%elem_of_live_items. unfold log_map in Hm.
  rewrite lookup_fmap in Hm. destruct (log_live L !! k) as [[off e]|] eqn:Hl; simplify_eq/=.
  pose proof (entry_at_elem _ _ _ (log_live_at _ _ _ _ Hl)) as Hin.
  apply log_live_Some in Hl as (_ & _ & _ & _ & Hv & Hk & _). destruct e. cbn in *. by subst.
Qed.

(** ** Rewriting the live set *)

Lemma append_all {T} items w f L :
  inv T w f L → Forall (λ it, entry_ok (entry_of it) ∧ it.2 ≠ []) items → NoDup items.*1 →
  (∀ k, k ∈ items.*1 → log_live L !! k = None) →
  zlen (log_bytes (L ++ (entry_of <$> items))) ≤ zlen (contents f) →
  ∃ w' f', for_each (λ it, put_raw it.1 it.2) items w = (Ok tt, w') ∧
    evolves T w f w' f' (L ++ (entry_of <$> items)).
Proof.
  revert w f L. induction items as [|[k v] items IH]; intros w f L Hinv He Hn Hl Hfit.
  { exists w, f. simpl. rewrite app_nil_r. split; [done|by apply evolves_refl]. }
  apply Forall_cons in He as [[Hok Hne] He]. apply NoDup_cons in Hn as [Hk Hn].
  rewrite fmap_cons, cons_middle, app_assoc in Hfit |- *.
  destruct (append_ok w f L k v Hinv) as (w1 & f1 & Hrun & Hev & _); try done.
  { right. apply Hl. by left. }
  { rewrite zlen_log_app, zlen_log_snoc in Hfit.
    pose proof (zlen_nonneg (log_bytes (entry_of <$> items))). change (entry_of (k, v)) with (mkE true k v) in Hfit. lia. }
  destruct (IH w1 f1 (L ++ [entry_of (k, v)])) as (w' & f' & Hrun' & Hev'); try done.
  { apply Hev. }
  { intros k' Hk'. unfold entry_of. rewrite (log_live_snoc_ne _ k v) by (intros ->; done). apply Hl. by right. }
  { by rewrite (ev_size _ _ _ _ _ Hev). }
  exists w', f'. split; [|by eapply evolves_trans]. simpl. by m_run (apply Hrun).
Qed.

Lemma retire_noop key w : index (kv w) !! key = None → retire_old key w = (Ok tt, w).
Proof.
  intros Hi. unfold retire_old. m_run reflexivity. rewrite Hi.
  rewrite (bool_decide_eq_false_2 (is_Some None)) by apply is_Some_None. by rewrite andb_false_r.
Qed.

Lemma retire_all_noop (items : list (string * bytes)) w :
  index (kv w) = ∅ → for_each (λ it, retire_old it.1) items w = (Ok tt, w).
Proof.
  intros Hi. induction items as [|it items IH]; [done|]. simpl.
  m_run (apply retire_noop; by rewrite Hi). exact IH.
Qed.

(** With [COMPACTING] raised the final flush only counts itself skipped. *)
Lemma hw_flush_compacting {T} c w f L :
  inv T w f L → COMPACTING w = true →
  ∃ w', maybe_high_water_flush_with c w = (Ok tt, w') ∧ evolves T w f w' f L.
Proof.
  intros Hinv Hc. unfold maybe_high_water_flush_with.
  destruct ((append_off (kv w) <=? HIGH_WATER) || hw_latched (kv w)) eqn:E.
  - exists w. split; [m_run reflexivity; by rewrite E|by apply evolves_refl].
  - eexists. split; [m_run reflexivity; rewrite E, Hc|].
    + m_run (apply m_try_Ok; unfold maybe_gc_with; m_run reflexivity; rewrite Hc; reflexivity). done.
    + destruct Hinv. constructor; [by constructor|by constructor|done].
Qed.

Lemma put_batch_compacting {T} c items w f :
  inv T w f [] → COMPACTING w = true → index (kv w) = ∅ →
  Forall (λ it, entry_ok (entry_of it) ∧ it.2 ≠ []) items → NoDup items.*1 →
  zlen (log_bytes (entry_of <$> items)) ≤ zlen (contents f) →
  ∃ w' f', put_batch_with c items w = (Ok tt, w') ∧ evolves T w f w' f' (entry_of <$> items).
Proof.
  intros Hinv Hc Hi He Hn Hfit.
  destruct (append_all items w f [] Hinv He Hn) as (w1 & f1 & Hrun & Hev); [done|done|].
  unfold put_batch_with. rewrite app_nil_l in Hev.
  destruct (hw_flush_compacting (T := T) c w1 f1 (entry_of <$> items)) as (w2 & Hhw & Hev2).
  { apply Hev. } { by rewrite (fr_compacting _ _ (ev_frame _ _ _ _ _ Hev)). }
  exists (if existsb (λ it, negb (bool_decide (it.1 = "__gc_lock"))) items then w2 else w1), f1. split.
  - m_run reflexivity. rewrite (inv_ready _ _ _ Hinv). cbn [negb].
    m_run (by apply retire_all_noop). m_run (apply Hrun). by destruct (existsb _ items).
  - destruct (existsb _ items); [|done]. by eapply evolves_trans.
Qed.

(** ** The checkpoint *)

Lemma write_ckpt_ok {T} w f L :
  inv T w f L → zlen (contents f) + 24 ≤ MAX_VLEN →
  let e := mkE true CKPT_KEY (ckpt_body (append_off (kv w)) (ckpt_entries_of (kv w))) in
  entry_ok e ∧ e_val e ≠ [] ∧
  ((zlen (log_bytes L) + esize e ≤ zlen (contents f) ∧
    ∃ w' f', write_ckpt w = (Ok tt, w') ∧ evolves T w f w' f' (L ++ [e]))
   ∨ (zlen (contents f) < zlen (log_bytes L) + esize e ∧ write_ckpt w = (Err "oob", w))).
Proof.
  intros Hinv Hcap e. pose proof (zlen_holds _ _ (inv_holds _ _ _ Hinv)) as Hz.
  assert (He : entry_ok e).
  { split_and!; [by apply (bool_decide_unpack _)|by vm_compute|].
    etrans; [apply (ckpt_body_fits _ _ L)|lia].
    - apply NoDup_filter_keys, NoDup_btree_iter_keys.
    - intros k off (_ & Hi%elem_of_btree_iter)%list_elem_of_filter.
      destruct (idx_ok_at _ _ _ _ _ (inv_index _ _ _ Hinv) Hi) as (e' & Hat & Hk).
      exists e'. split; [by eapply entry_at_elem|done]. }
  assert (Hn : e_val e ≠ []) by done. split_and!; [done|done|].
  unfold write_ckpt. destruct (decide (zlen (log_bytes L) + esize e ≤ zlen (contents f))) as [Hfit|Hfit].
  - left. split; [done|].
    destruct (append_ok w f L CKPT_KEY (e_val e) Hinv He Hn) as (w1 & f1 & Hrun & Hev & _); [by left|done|].
    eexists _, f1. split.
    { m_run reflexivity. rewrite (inv_ready _ _ _ Hinv). cbn [negb]. m_run (apply Hrun). done. }
    destruct Hev as [[] [] ?]. constructor; [by constructor|by constructor|done].
  - right. split; [lia|]. m_run reflexivity. rewrite (inv_ready _ _ _ Hinv). cbn [negb].
    m_fail (apply (put_raw_oob (contents := contents) w f L); [apply Hinv..|done|unfold e in Hfit; cbn in Hfit; lia]).
    done.
Qed.

(** ** Compaction *)

Lemma reset_log_inv w f : flash w = Some f → holds f [] → ready (kv w) = true → inv ∅ (upd_kv reset_log w) f [].
Proof.
  intros Hf Hh Hr. constructor; cbn; try done.
Qed.

Lemma live_items_ok {T} w f L keys :
  inv T w f L → Forall (λ it, entry_ok (entry_of it) ∧ it.2 ≠ []) (live_items L keys).
Proof.
  intros Hinv. apply Forall_forall. intros [k v] Hin. split.
  - apply live_items_in in Hin. pose proof (inv_entries _ _ _ Hinv) as He.
    rewrite Forall_forall in He. by apply He.
  - apply elem_of_live_items in Hin as [_ Hm]. by eapply log_map_nonempty.
Qed.

(** The part of [compact] that cannot fail: read the live set, wipe, rewrite. *)
Lemma rewrite_log {T} c w f L :
  inv T w f L → COMPACTING w = false → 512 ≤ zlen (contents f) →
  let keys := (btree_iter (index (kv w))).*1 in
  let items := live_items L keys in
  let wipe := Z.max (mask_down 9 (u64_add (append_off (kv w)) 511)) 512 in
  ∃ w1 w2 w3 f3, collect_live keys w = (Ok items, w1) ∧
    append_off (kv w1) = append_off (kv w) ∧
    wipe_loop (scan_fuel wipe) 0 wipe w1 = (Ok tt, w2) ∧
    put_batch_with c items (set_compacting true (upd_kv reset_log w2)) = (Ok tt, w3) ∧
    evolves ∅ (set_compacting true w) f w3 f3 (entry_of <$> items).
Proof.
  intros Hinv Hc Hsz keys items wipe.
  assert (Hcol : collect_live keys w = (Ok items, after_gets (length keys) w)).
  { apply (collect_live_ok _ w f L Hinv). intros k Hk.
    apply list_elem_of_fmap in Hk as ([k' off] & -> & Hi%elem_of_btree_iter). by eexists. }
  pose proof (after_gets_evolves (length keys) w f L Hinv) as Hev.
  set (w1 := after_gets (length keys) w) in *.
  assert (Ha : append_off (kv w1) = append_off (kv w)).
  { rewrite (inv_append _ _ _ Hinv). apply Hev. }
  destruct (wipe_log_ok w1 f L) as (f2 & Hwipe & Hh2 & Hz2); [apply Hev|apply Hev|done|].
  rewrite <-(inv_append _ _ _ Hinv) in Hwipe. fold wipe in Hwipe.
  set (w2 := set_flash (Some f2) w1) in *.
  assert (Hinv2 : inv ∅ (set_compacting true (upd_kv reset_log w2)) f2 []).
  { destruct (reset_log_inv w2 f2) as []; [done|done|apply Hev|by constructor]. }
  destruct (put_batch_compacting (T := ∅) c items (set_compacting true (upd_kv reset_log w2)) f2)
    as (w3 & f3 & Hb & Hev3); [done|done|done|by eapply live_items_ok|
      apply NoDup_live_items, NoDup_btree_iter_keys| |].
  { rewrite Hz2. etrans; [apply (items_fit items L)|apply (zlen_holds (fl_ok := fl_ok)), Hinv].
    - apply NoDup_live_items, NoDup_btree_iter_keys.
    - apply live_items_in. }
  exists w1, w2, w3, f3. split_and!; try done.
  destruct Hev as [_ [] _], Hev3 as [? [] ?]. constructor; [done| |congruence].
  constructor; cbn in *; congruence.
Qed.

(** The outcome of [compact]: the live records, packed, and after them a fresh
    checkpoint, or [Err "oob"] when the checkpoint alone does not fit. *)
Lemma compact_ok {T} d w f L :
  inv T w f L → COMPACTING w = false → 512 ≤ zlen (contents f) → zlen (contents f) + 24 ≤ MAX_VLEN →
  let Lc := entry_of <$> live_items L (btree_iter (index (kv w))).*1 in
  ∃ r w' f' L', compact_n (S d) w = (r, w') ∧ evolves ∅ w f w' f' L' ∧
    ((r = Ok tt ∧ ∃ idx, idx_ok ∅ idx Lc ∧ L' = Lc ++ [ckpt_of idx Lc]) ∨ (r = Err "oob" ∧ L' = Lc ∧ ∃ idx, idx_ok ∅ idx Lc ∧
          zlen (contents f) < zlen (log_bytes Lc) + esize (ckpt_of idx Lc))).
Proof.
  intros Hinv Hc Hsz Hcap Lc.
  destruct (rewrite_log (compact_n d) w f L Hinv Hc Hsz)
    as (w1 & w2 & w3 & f3 & Hcol & Ha & Hwipe & Hb & Hev). fold Lc in Hev.
  pose proof (ev_inv _ _ _ _ _ Hev) as Hinv3. pose proof (ev_size _ _ _ _ _ Hev) as Hz.
  assert (Hcap3 : zlen (contents f3) + 24 ≤ MAX_VLEN) by lia.
  pose proof (write_ckpt_ok w3 f3 Lc Hinv3 Hcap3) as (_ & _ & Hck).
  rewrite (inv_append _ _ _ Hinv3) in Hck.
  change (mkE _ _ _) with (ckpt_of (index (kv w3)) Lc) in Hck.
  cbn [compact_n]. rewrite M_bind_Ok with (a := kv w) (s' := w) by done.
  rewrite (inv_ready _ _ _ Hinv). cbn [negb].
  rewrite (M_bind_Ok _ _ _ _ _ Hcol), M_bind_Ok with (a := kv w1) (s' := w1) by done. rewrite Ha.
  rewrite (M_bind_Ok _ _ _ _ _ Hwipe), M_bind_Ok with (a := tt) (s' := upd_kv reset_log w2) by done.
  rewrite M_bind_Ok with (a := tt) (s' := set_compacting true (upd_kv reset_log w2)) by done.
  rewrite (M_bind_Ok _ _ _ _ _ (m_try_Ok _ _ _ _ Hb)). cbn [is_ok].
  destruct Hck as [(_ & w4 & f4 & Hw & Hev4)|(Hlt & Hw)].
  - rewrite (M_bind_Ok _ _ _ _ _ (m_try_Ok _ _ _ _ Hw)).
    eexists _, _, f4, _. split; [reflexivity|]. split.
    + destruct Hev as [_ [] _], Hev4 as [[] [] ?]. constructor; [by constructor| |congruence].
      constructor; cbn in *; congruence.
    + left. split; [done|]. exists (index (kv w3)). split; [apply Hinv3|done].
  - rewrite (M_bind_Ok _ _ _ _ _ (m_try_Err _ _ _ _ Hw)).
    eexists _, _, f3, _. split; [reflexivity|]. split.
    2:{ right. split_and!; [done|done|]. exists (index (kv w3)). split; [apply Hinv3|]. by rewrite <-Hz. }
    destruct Hev as [[] [] ?]. constructor; [by constructor| |congruence].
    constructor; cbn in *; congruence.
Qed.

(** ** Flushing *)

(** A world that can compact: nobody is, and the volume has a sector and is
    small enough for a checkpoint of it to stay readable. *)
Record can_gc (w : World F) (f : F) : Prop := mkCanGc {
  gc_not_compacting : COMPACTING w = false;
  gc_min : 512 ≤ zlen (contents f);
  gc_max : zlen (contents f) + 24 ≤ MAX_VLEN;
}.

Lemma can_gc_evolves {T} w f w' f' L' : can_gc w f → evolves T w f w' f' L' → can_gc w' f'.
Proof. intros [] [_ [] Hz]. constructor; [congruence|lia..]. Qed.

(** A background step took the log from [L] to [L']. *)
Definition gc_moves (T : gset string) (w : World F) (f : F) (L : list entry) (w' : World F) : Prop :=
  ∃ T' f' L', T' ⊆ T ∧ evolves T' w f w' f' L' ∧ gc_step (zlen (contents f)) L L'.

Lemma gc_moves_refl T w f L : inv T w f L → gc_moves T w f L w.
Proof. intros Hinv. exists T, f, L. split_and!; [done|by apply evolves_refl|by constructor]. Qed.

Lemma compact_moves T d w f L :
  inv T w f L → can_gc w f →
  ∃ r w', compact_n (S d) w = (r, w') ∧ (r = Ok tt ∨ r = Err "oob") ∧ gc_moves T w f L w'.
Proof.
  intros Hinv [Hc Hmin Hmax].
  destruct (compact_ok d w f L Hinv Hc Hmin Hmax) as (r & w' & f' & L' & Hrun & Hev & Hr).
  assert (Hp : packed L (entry_of <$> live_items L (btree_iter (index (kv w))).*1))
    by (exists T, (index (kv w)); split; [apply Hinv|done]).
  exists r, w'. split; [done|]. split; [destruct Hr as [[-> _]|[-> _]]; auto|]. exists ∅, f', L'. split_and!; [set_solver|done|].
  destruct Hr as [(_ & idx & Hi & ->)|(_ & -> & idx & Hi & Hlt)]; [by eapply gc_packed|by eapply gc_full].
Qed.

Lemma maybe_gc_moves T w f L :
  inv T w f L → can_gc w f →
  ∃ r w', maybe_gc w = (r, w') ∧ (r = Ok tt ∨ r = Err "oob") ∧ gc_moves T w f L w'.
Proof.
  intros Hinv Hgc. unfold maybe_gc, maybe_gc_with.
  assert (Hidle : ∃ r w', (mret () : M (World F) unit) w = (r, w') ∧ (r = Ok tt ∨ r = Err "oob") ∧ gc_moves T w f L w').
  { exists (Ok tt), w. split_and!; [done|by left|by apply gc_moves_refl]. }
  erewrite M_bind_Ok by reflexivity. cbv beta. rewrite (gc_not_compacting _ _ Hgc).
  destruct (GC_SUSPENDED w), (slow_backend (kv w)), (gc_due (kv w)); try exact Hidle.
  by apply compact_moves.
Qed.

(** Changing the latch moves nothing. *)
Lemma gc_moves_latch T w f L w' h :
  gc_moves T w f L w' → gc_moves T w f L (upd_kv (λ k, set_hw_latched (h k) k) w').
Proof.
  intros (T' & f' & L' & HT & [[] [] ?] & Hs). exists T', f', L'. split; [done|]. split; [|done].
  constructor; [by constructor|by constructor|done].
Qed.

Lemma flush_fast T w f L :
  inv T w f L → can_gc w f → slow_backend (kv w) = false →
  ∃ b w', flush_opportunistic w = (Ok b, w') ∧ gc_moves T w f L w'.
Proof.
  intros Hinv Hgc Hslow. unfold flush_opportunistic, flush_opportunistic_with.
  erewrite M_bind_Ok by reflexivity. cbv beta.
  rewrite (inv_ready _ _ _ Hinv), (gc_not_compacting _ _ Hgc), Hslow. cbn [negb orb].
  destruct (negb (gc_due (kv w)) || negb (gc_allowed w)).
  { exists false, w. split; [done|by apply gc_moves_refl]. }
  destruct (maybe_gc_moves T w f L Hinv Hgc) as (r & w1 & Hrun & Hr & Hmv). unfold maybe_gc in Hrun.
  rewrite (M_bind_Ok _ _ _ _ _ (m_try_ran _ _ _ _ _ _ Hrun Hr)).
  erewrite M_bind_Ok by reflexivity. cbv beta.
  destruct (compactions (stats (kv w1)) =? compactions (stats (kv w))).
  - exists false, w1. done.
  - eexists true, _. split; [reflexivity|]. by apply gc_moves_latch.
Qed.

(** On the file and NVMe backends the idle flush only writes a checkpoint. *)
Lemma flush_slow w f L :
  inv ∅ w f L → can_gc w f → slow_backend (kv w) = true →
  ∃ b w', flush_opportunistic w = (Ok b, w') ∧ gc_moves ∅ w f L w'.
Proof.
  intros Hinv Hgc Hslow. unfold flush_opportunistic, flush_opportunistic_with.
  erewrite M_bind_Ok by reflexivity. cbv beta.
  rewrite (inv_ready _ _ _ Hinv), (gc_not_compacting _ _ Hgc), Hslow. cbn [negb orb].
  destruct (negb (ckpt_dirty (kv w))).
  { exists false, w. split; [done|by apply gc_moves_refl]. }
  destruct (write_ckpt_ok w f L Hinv (gc_max _ _ Hgc)) as (_ & _ & [(_ & w' & f' & Hrun & Hev)|(_ & Hrun)]).
  - eexists true, w'. split; [by erewrite M_bind_Ok by (by apply m_try_Ok)|].
    exists ∅, f', (L ++ [ckpt_of (index (kv w)) L]). split_and!; [done| |].
    + rewrite (inv_append _ _ _ Hinv) in Hev. exact Hev.
    + eapply gc_ckpt; [apply Hinv|done].
  - eexists false, w. split; [by erewrite M_bind_Ok by (by apply m_try_Err)|by apply gc_moves_refl].
Qed.

Lemma flush_moves w f L :
  inv ∅ w f L → can_gc w f → ∃ b w', flush_opportunistic w = (Ok b, w') ∧ gc_moves ∅ w f L w'.
Proof.
  intros Hinv Hgc. destruct (slow_backend (kv w)) eqn:E; [by apply flush_slow|by apply flush_fast].
Qed.

Lemma hw_flush_moves T w f L :
  inv T w f L → can_gc w f → ∃ w', maybe_high_water_flush w = (Ok tt, w') ∧ gc_moves T w f L w'.
Proof.
  intros Hinv Hgc. unfold maybe_high_water_flush, maybe_high_water_flush_with.
  erewrite M_bind_Ok by reflexivity. cbv beta.
  destruct ((append_off (kv w) <=? HIGH_WATER) || hw_latched (kv w)).
  { exists w. split; [done|by apply gc_moves_refl]. }
  rewrite (gc_not_compacting _ _ Hgc).
  destruct (gc_allowed w) eqn:Ha; cbn [negb].
  - unfold gc_allowed in Ha. apply andb_true_iff in Ha as [Hs%negb_true_iff _].
    destruct (flush_fast T w f L Hinv Hgc Hs) as (b & w' & Hrun & Hmv). unfold flush_opportunistic in Hrun.
    exists w'. split; [by erewrite M_bind_Ok by exact Hrun|done].
  - eexists. split; [reflexivity|]. by apply (gc_moves_latch _ _ _ _ _ (λ _, true)), gc_moves_refl.
Qed.
End Gc.
