(* ===== verification/TickvOps.v ===== *)
(** The public write operations of TickvLite as steps of an abstract map: [put],
    [put_batch], [delete_key], [compact] and the idle flush, on every branch. *)

From S2P Require Import Prelude Checksum Flash Tickv TickvLog TickvSpec TickvGc.
Import Crc32 Fnv.

Section Ops.
Context {F : Type} `{FlashLaws F fl_ok contents}.

Local Abbreviation inv T := (inv (fl_ok := fl_ok) (contents := contents) (T := T)).
Local Abbreviation evolves T := (evolves (fl_ok := fl_ok) (contents := contents) (T := T)).
Local Abbreviation can_gc := (can_gc (contents := contents)).
Local Abbreviation gc_moves := (gc_moves (fl_ok := fl_ok) (contents := contents)).

Lemma gc_moves_empty w f L w' :
  gc_moves ∅ w f L w' → ∃ f' L', evolves ∅ w f w' f' L' ∧ gc_step (zlen (contents f)) L L'.
Proof. intros (T' & f' & L' & HT & Hev & Hs). assert (T' = ∅) as -> by set_solver. eauto. Qed.

(** ** [put] *)

(** The old record is retired first; then the new one is appended, if it fits. *)
Lemma put_ok w f L key val :
  inv ∅ w f L → can_gc w f → key ≠ CKPT_KEY → entry_ok (mkE true key val) → val ≠ [] →
  let fits := zlen (log_bytes L) + esize (mkE true key val) ≤ zlen (contents f) in
  ∃ r w' f' L1 L', put key val w = (r, w') ∧ retires key L L1 ∧ evolves ∅ w f w' f' L' ∧
    ((r = Ok tt ∧ fits ∧ gc_step (zlen (contents f)) (L1 ++ [mkE true key val]) L')
     ∨ (r = Err "oob" ∧ ¬ fits ∧ L' = L1)).
Proof.
  intros Hinv Hgc Hne He Hn fits.
  destruct (retire_old_ok w f L key Hinv Hne) as (w1 & f1 & L1 & Hret & Hev1 & HL1); [set_solver|].
  pose proof (retires_size _ _ _ HL1) as Hz1. pose proof (ev_size _ _ _ _ _ Hev1) as Hc1.
  assert (Hl : log_live L1 !! key = None)
    by (rewrite (retires_live key L L1) by (done || apply Hinv); apply lookup_delete_eq).
  unfold put. erewrite M_bind_Ok by reflexivity. cbv beta. rewrite (inv_ready _ _ _ Hinv). cbn [negb].
  rewrite (M_bind_Ok _ _ _ _ _ Hret).
  destruct (decide fits) as [Hfit|Hfit]; unfold fits in Hfit.
  - destruct (append_ok (T := ∅) w1 f1 L1 key val) as (w2 & f2 & Hput & Hev2 & _);
      [apply Hev1|done|done|by right|lia|].
    rewrite (M_bind_Ok _ _ _ _ _ Hput). pose proof (evolves_trans _ _ _ _ _ _ _ _ Hev1 Hev2) as Hev.
    assert (Hmv : ∃ w', (if bool_decide (key = "__gc_lock") then mret () else maybe_high_water_flush) w2
                        = (Ok tt, w') ∧ gc_moves ∅ w2 f2 (L1 ++ [mkE true key val]) w').
    { case_bool_decide; [exists w2; split; [done|by apply gc_moves_refl, Hev2]|].
      apply hw_flush_moves; [apply Hev2|by eapply can_gc_evolves]. }
    destruct Hmv as (w' & -> & (f' & L' & Hev' & Hs)%gc_moves_empty).
    exists (Ok tt), w', f', L1, L'. split_and!; [done|done|by eapply evolves_trans|]. left.
    rewrite (ev_size _ _ _ _ _ Hev) in Hs. done.
  - exists (Err "oob"), w1, f1, L1, L1. split_and!; [|done|done|by right].
    erewrite M_bind_Err; [done|]. eapply put_raw_oob; [apply Hev1..|done|lia].
Qed.

(** ** [delete_key] *)

Lemma append_tombstone w f L key :
  inv ∅ w f L → key ≠ CKPT_KEY → entry_ok (mkE true key []) → log_live L !! key = None →
  zlen (log_bytes L) + esize (mkE true key []) ≤ zlen (contents f) →
  ∃ w' f', put_raw key [] w = (Ok tt, w') ∧ evolves {[key]} w f w' f' (L ++ [mkE true key []]).
Proof.
  intros [Hf Hh Hent Hu Hr Hi Ha] Hne He Hl Hfit.
  destruct (put_raw_ok w f L key [] Hf Hh Ha Hfit) as (f' & Hrun & Hh' & Hz).
  eexists _, f'. split; [done|]. pose proof (zlen_nonneg (log_bytes L)).
  pose proof (esize_bounds (mkE true key [])). assert (zlen (contents f) < 2 ^ 62) by apply Hh.
  constructor; [constructor| |done]; cbn; try done.
  - apply Forall_app. split; [done|]. by constructor.
  - apply uniq_snoc; [done|]. by right.
  - rewrite Ha. eapply idx_ok_mono; [|by apply idx_ok_tombstone]. set_solver.
  - rewrite zlen_log_snoc, Ha, u64_add_small by lia. done.
Qed.

(** Dropping the key from the index, once it has no live record. *)
Lemma drop_key T w f L key :
  inv T w f L → T ⊆ {[key]} → key ≠ CKPT_KEY → log_live L !! key = None →
  evolves ∅ w f (upd_kv (λ k, set_index (delete key (index k)) k) w) f L.
Proof.
  intros [Hf Hh Hent Hu Hr Hi Ha] HT Hne Hl. constructor; [constructor|by constructor|done]; cbn; try done.
  eapply idx_ok_mono; [|by apply idx_ok_drop]. set_solver.
Qed.

Lemma gc_step_live cap L L' k :
  gc_step cap L L' → k ≠ CKPT_KEY → log_live L !! k = None → log_live L' !! k = None.
Proof.
  intros Hs Hne Hl. pose proof (gc_step_map _ _ _ _ Hs Hne) as Hm. unfold log_map in Hm.
  rewrite !lookup_fmap, Hl in Hm. by destruct (log_live L' !! k).
Qed.

(** An indexed key is invalidated in place; another one gets a tombstone. *)
Lemma delete_key_ok w f L key :
  inv ∅ w f L → can_gc w f → key ≠ CKPT_KEY → entry_ok (mkE true key []) →
  ∃ r w' f' L', delete_key key w = (r, w') ∧ evolves ∅ w f w' f' L' ∧
    ((r = Ok tt ∧ (retires key L L'
        ∨ log_live L !! key = None ∧ gc_step (zlen (contents f)) (L ++ [mkE true key []]) L'))
     ∨ (r = Err "oob" ∧ L' = L ∧ log_live L !! key = None ∧
        zlen (contents f) < zlen (log_bytes L) + esize (mkE true key []))).
Proof.
  intros Hinv Hgc Hne He. unfold delete_key.
  destruct (decide (is_Some (index (kv w) !! key))) as [Hs|Hs].
  { destruct (invalidate_key_ok w f L key Hinv Hs Hne) as (f' & L' & Hrun & Hinv' & Hz & Hret); [set_solver|].
    eexists (Ok tt), _, f', L'. rewrite (M_bind_Ok _ _ _ _ _ (m_try_Ok _ _ _ _ Hrun)).
    split; [done|]. split; [constructor; [done|by constructor|done]|]. left. split; [done|by left]. }
  assert (Hi : index (kv w) !! key = None) by (by apply eq_None_not_Some).
  assert (Hl : log_live L !! key = None).
  { apply eq_None_not_Some. intros [[off e] Hl]. apply Hs. exists off.
    by eapply (idx_live _ _ _ (inv_index _ _ _ Hinv)). }
  assert (Hmiss : invalidate_key key w = (Err "missing", w)).
  { unfold invalidate_key. erewrite M_bind_Ok by reflexivity. cbv beta.
    rewrite (inv_ready _ _ _ Hinv). cbn [negb]. by rewrite Hi. }
  rewrite (M_bind_Ok _ _ _ _ _ (m_try_Err _ _ _ _ Hmiss)). cbn [is_ok].
  destruct (decide (zlen (log_bytes L) + esize (mkE true key []) ≤ zlen (contents f))) as [Hfit|Hfit].
  - destruct (append_tombstone w f L key Hinv Hne He Hl Hfit) as (w1 & f1 & Hraw & Hev1).
    assert (Hmv : ∃ w2, (if bool_decide (key = "__gc_lock") then mret () else maybe_high_water_flush) w1
                        = (Ok tt, w2) ∧ gc_moves {[key]} w1 f1 (L ++ [mkE true key []]) w2).
    { case_bool_decide; [exists w1; split; [done|by apply gc_moves_refl, Hev1]|].
      apply hw_flush_moves; [apply Hev1|by eapply can_gc_evolves]. }
    destruct Hmv as (w2 & Hrun & T' & f2 & L2 & HT & Hev2 & Hs2).
    assert (Hl2 : log_live L2 !! key = None).
    { eapply gc_step_live; [done|done|]. rewrite log_live_snoc. apply lookup_delete_eq. }
    pose proof (drop_key T' w2 f2 L2 key (ev_inv _ _ _ _ _ Hev2) HT Hne Hl2) as Hev3.
    eexists (Ok tt), _, f2, L2. split; [|split].
    + erewrite M_bind_Ok; [reflexivity|]. unfold put. erewrite M_bind_Ok by reflexivity. cbv beta.
      rewrite (inv_ready _ _ _ Hinv). cbn [negb].
      rewrite (M_bind_Ok _ _ _ _ _ (retire_noop key w Hi)), (M_bind_Ok _ _ _ _ _ Hraw). exact Hrun.
    + eapply evolves_then; [exact Hev1|]. eapply evolves_then; [exact Hev2|exact Hev3].
    + left. split; [done|]. right. split; [done|]. by rewrite <-(ev_size _ _ _ _ _ Hev1).
  - exists (Err "oob"), w, f, L. split; [|split; [by apply evolves_refl|right; split_and!; (done || lia)]].
    erewrite M_bind_Err; [done|]. unfold put. erewrite M_bind_Ok by reflexivity. cbv beta.
    rewrite (inv_ready _ _ _ Hinv). cbn [negb]. rewrite (M_bind_Ok _ _ _ _ _ (retire_noop key w Hi)).
    erewrite M_bind_Err; [done|]. eapply put_raw_oob; [apply Hinv..|done|lia].
Qed.

(** ** [put_batch] *)

Definition item_ok (it : string * bytes) : Prop :=
  it.1 ≠ CKPT_KEY ∧ entry_ok (entry_of it) ∧ it.2 ≠ [].

(** Every key of the batch is retired first. *)
Lemma retire_all_ok (items : list (string * bytes)) w f L :
  inv ∅ w f L → Forall item_ok items →
  ∃ w' f' L', for_each (λ it, retire_old it.1) items w = (Ok tt, w') ∧ evolves ∅ w f w' f' L' ∧
    log_ext L L' ∧ zlen (log_bytes L') = zlen (log_bytes L) ∧
    log_map L' = filter (λ kv, kv.1 ∉ items.*1) (log_map L).
Proof.
  revert w f L. induction items as [|it items IH]; intros w f L Hinv Hit.
  { exists w, f, L. split_and!; [done|by apply evolves_refl|constructor|done|].
    symmetry. apply map_filter_id. set_solver. }
  apply Forall_cons in Hit as [(Hne & _) Hit].
  destruct (retire_old_ok w f L it.1 Hinv Hne) as (w1 & f1 & L1 & Hret & Hev1 & HL1); [set_solver|].
  destruct (IH w1 f1 L1) as (w' & f' & L' & Hrun & Hev & Hext & Hz & Hm); [apply Hev1|done|].
  exists w', f', L'. split_and!.
  - simpl. by rewrite (M_bind_Ok _ _ _ _ _ Hret).
  - by eapply evolves_trans.
  - eapply log_ext_trans; [|done]. by eapply log_ext_retires.
  - rewrite Hz. by eapply retires_size.
  - rewrite Hm, (log_map_retires it.1 L L1) by (done || apply Hinv).
    apply map_eq. intros k. rewrite !map_lookup_filter, lookup_delete. simpl.
    destruct (log_map L !! k) as [v|]; case_decide as Hk; simpl; try done;
      repeat case_guard; set_solver.
Qed.

(** Then each record is appended, until one does not fit. *)
Lemma append_batch items w f L :
  inv ∅ w f L → Forall item_ok items → NoDup items.*1 →
  (∀ k, k ∈ items.*1 → log_live L !! k = None) →
  ∃ r w' f' dn rest, for_each (λ it, put_raw it.1 it.2) items w = (r, w') ∧ items = dn ++ rest ∧
    evolves ∅ w f w' f' (L ++ (entry_of <$> dn)) ∧
    ((r = Ok tt ∧ rest = []) ∨ (r = Err "oob" ∧ rest ≠ [] ∧
       zlen (contents f) < zlen (log_bytes (L ++ (entry_of <$> items))))).
Proof.
  revert w f L. induction items as [|[k v] items IH]; intros w f L Hinv Hit Hd Hl.
  { exists (Ok tt), w, f, [], []. split_and!; [done|done| |by left].
    simpl. rewrite app_nil_r. by apply evolves_refl. }
  apply Forall_cons in Hit as [(Hne & He & Hn) Hit]. apply NoDup_cons in Hd as [Hk Hd].
  change (entry_of (k, v)) with (mkE true k v) in He. cbn in Hne, Hn.
  destruct (decide (zlen (log_bytes L) + esize (mkE true k v) ≤ zlen (contents f))) as [Hfit|Hfit].
  - destruct (append_ok w f L k v Hinv) as (w1 & f1 & Hput & Hev1 & _); [done|done| |done|].
    { right. apply Hl. by left. }
    destruct (IH w1 f1 (L ++ [mkE true k v])) as (r & w' & f' & dn & rest & Hrun & -> & Hev & Hr);
      [apply Hev1|done|done| |].
    { intros k' Hk'. rewrite (log_live_snoc_ne _ k v) by (intros ->; done). apply Hl. by right. }
    exists r, w', f', ((k, v) :: dn), rest. split_and!.
    + simpl. by rewrite (M_bind_Ok _ _ _ _ _ Hput).
    + done.
    + rewrite fmap_cons, cons_middle, app_assoc. by eapply evolves_trans.
    + rewrite (ev_size _ _ _ _ _ Hev1), <-app_assoc in Hr. exact Hr.
  - exists (Err "oob"), w, f, [], ((k, v) :: items). split_and!.
    + simpl. erewrite M_bind_Err; [done|]. eapply put_raw_oob; [apply Hinv..|done|lia].
    + done.
    + simpl. rewrite app_nil_r. by apply evolves_refl.
    + right. split_and!; [done|done|]. rewrite zlen_log_app, fmap_cons, zlen_log_cons.
      pose proof (zlen_nonneg (log_bytes (entry_of <$> items))).
      change (entry_of (k, v)) with (mkE true k v). lia.
Qed.

Lemma log_map_app_items (items : list (string * bytes)) L :
  Forall (λ it, it.2 ≠ []) items → NoDup items.*1 →
  log_map (L ++ (entry_of <$> items)) = list_to_map items ∪ log_map L.
Proof.
  induction items as [|[k v] items IH] using rev_ind; intros Hn Hd.
  { simpl. by rewrite app_nil_r, (left_id_L ∅ (∪)). }
  apply Forall_app in Hn as [Hn [Hv _]%Forall_cons].
  rewrite fmap_app in Hd. apply NoDup_app in Hd as (Hd & Hdis & _).
  rewrite fmap_app, app_assoc. simpl. change (entry_of (k, v)) with (mkE true k v).
  rewrite log_map_snoc, IH by done.
  rewrite list_to_map_snoc by (intros Hin; eapply Hdis; [done|simpl; by left]).
  by rewrite insert_union_l.
Qed.

Lemma items_nonempty items : Forall item_ok items → Forall (λ it, it.2 ≠ []) items.
Proof. intros Hit. eapply Forall_impl; [exact Hit|]. by intros it (_ & _ & ?). Qed.

Lemma log_ext_items L items :
  Forall item_ok items → NoDup items.*1 → (∀ k, k ∈ items.*1 → log_live L !! k = None) →
  log_ext L (L ++ (entry_of <$> items)).
Proof.
  revert L. induction items as [|[k v] items IH]; intros L Hit Hd Hl.
  { simpl. rewrite app_nil_r. constructor. }
  apply Forall_cons in Hit as [(Hne & _ & Hn) Hit]. apply NoDup_cons in Hd as [Hk Hd].
  rewrite fmap_cons, cons_middle, app_assoc.
  apply (ext_append (entry_of (k, v))); [exact Hne|apply Hl; by left|]. apply IH; [done|done|].
  intros k' Hk'. rewrite (log_live_snoc_ne _ k v) by (intros ->; done). apply Hl. by right.
Qed.

(** All or a prefix of the batch is stored; every key of it lost its old value. *)
Lemma put_batch_ok items w f L :
  inv ∅ w f L → can_gc w f → Forall item_ok items → NoDup items.*1 →
  ∃ r w' f' L1 L' dn rest, put_batch items w = (r, w') ∧ evolves ∅ w f w' f' L' ∧
    items = dn ++ rest ∧ log_ext L L1 ∧ gc_step (zlen (contents f)) L1 L' ∧
    zlen (log_bytes L1) = zlen (log_bytes L) + zlen (log_bytes (entry_of <$> dn)) ∧
    log_map L1 = list_to_map dn ∪ filter (λ kv, kv.1 ∉ items.*1) (log_map L) ∧
    ((r = Ok tt ∧ rest = []) ∨ (r = Err "oob" ∧ rest ≠ [] ∧
       zlen (contents f) < zlen (log_bytes L) + zlen (log_bytes (entry_of <$> items)))).
Proof.
  intros Hinv Hgc Hit Hd.
  destruct (retire_all_ok items w f L Hinv Hit) as (w1 & f1 & L1 & Hret & Hev1 & Hext & Hz & Hm).
  pose proof (ev_size _ _ _ _ _ Hev1) as Hc1.
  assert (Hfree : ∀ k, k ∈ items.*1 → log_live L1 !! k = None).
  { intros k Hk. assert (Hmk : log_map L1 !! k = None).
    { rewrite Hm. apply map_lookup_filter_None. right. intros v _ Hn. by apply Hn. }
    unfold log_map in Hmk. rewrite lookup_fmap in Hmk. by destruct (log_live L1 !! k). }
  destruct (append_batch items w1 f1 L1) as (r & w2 & f2 & dn & rest & Hrun & -> & Hev2 & Hr);
    [apply Hev1|done|done| |].
  { exact Hfree. }
  pose proof (evolves_trans _ _ _ _ _ _ _ _ Hev1 Hev2) as Hev.
  assert (Hdn : Forall item_ok dn) by (by apply Forall_app in Hit as [? _]).
  assert (Hdd : NoDup dn.*1) by (rewrite fmap_app in Hd; by apply NoDup_app in Hd as [? _]).
  unfold put_batch, put_batch_with. erewrite M_bind_Ok by reflexivity. cbv beta.
  rewrite (inv_ready _ _ _ Hinv). cbn [negb]. rewrite (M_bind_Ok _ _ _ _ _ Hret).
  assert (Hfacts : log_ext L (L1 ++ (entry_of <$> dn)) ∧
    zlen (log_bytes (L1 ++ (entry_of <$> dn))) = zlen (log_bytes L) + zlen (log_bytes (entry_of <$> dn)) ∧
    log_map (L1 ++ (entry_of <$> dn)) = list_to_map dn ∪ filter (λ kv, kv.1 ∉ (dn ++ rest).*1) (log_map L)).
  { split_and!.
    - eapply log_ext_trans; [done|]. apply log_ext_items; [done|done|].
      intros k Hk. apply Hfree. rewrite fmap_app. set_solver.
    - rewrite zlen_log_app. lia.
    - rewrite log_map_app_items, Hm by (done || by apply items_nonempty). done. }
  destruct Hr as [[-> ->]|(-> & Hrest & Hlt)].
  - rewrite (M_bind_Ok _ _ _ _ _ Hrun).
    assert (Hmv : ∃ w', (if existsb (λ it, negb (bool_decide (it.1 = "__gc_lock"))) (dn ++ [])
                         then maybe_high_water_flush_with compact else mret ()) w2 = (Ok tt, w') ∧
                        gc_moves ∅ w2 f2 (L1 ++ (entry_of <$> dn)) w').
    { destruct (existsb _ _); [|exists w2; split; [done|by apply gc_moves_refl, Hev2]].
      apply hw_flush_moves; [apply Hev2|by eapply can_gc_evolves]. }
    destruct Hmv as (w' & -> & (f' & L' & Hev' & Hs)%gc_moves_empty).
    exists (Ok tt), w', f', (L1 ++ (entry_of <$> dn)), L', dn, []. split_and!; try apply Hfacts; try done.
    + by eapply evolves_trans.
    + by rewrite <-(ev_size _ _ _ _ _ Hev).
    + by left.
  - rewrite (M_bind_Err _ _ _ _ _ Hrun).
    exists (Err "oob"), w2, f2, (L1 ++ (entry_of <$> dn)), (L1 ++ (entry_of <$> dn)), dn, rest.
    split_and!; try apply Hfacts; try done; [by constructor|].
    right. split_and!; [done|done|]. rewrite zlen_log_app in Hlt. lia.
Qed.
End Ops.
