(* ===== verification/TickvMount.v ===== *)
(** Mounting TickvLite: a checkpoint in the log describes the log before it, every
    operation keeps that so, and [mount], whether it loads the checkpoint and
    replays the tail or rescans everything, rebuilds an index of the log. *)

From S2P Require Import Prelude Checksum Flash Tickv TickvLog TickvSpec TickvGc.
Import Crc32 Fnv.

(** * What a checkpoint promises *)

(** [idx] knows every live record of [L], and names only records of [L]. *)
Record covers (idx : gmap string Z) (L : list entry) : Prop := mkCovers {
  cov_live : ∀ k off e, k ≠ CKPT_KEY → log_live L !! k = Some (off, e) → idx !! k = Some off;
  cov_at : ∀ k off, k ≠ CKPT_KEY → idx !! k = Some off →
    ∃ e, entry_at L off e ∧ e_key e = k ∧ e_val e ≠ [];
}.

(** The last checkpoint of [L] covers the log before it. *)
Definition ckpt_ok (L : list entry) : Prop :=
  ∀ L1 e L2, L = L1 ++ e :: L2 → e_key e = CKPT_KEY → Forall (λ e', e_key e' ≠ CKPT_KEY) L2 →
    ∃ idx, covers idx L1 ∧ e_val e = e_val (ckpt_of idx L1).

Lemma uniq_app_l L1 L2 : uniq (L1 ++ L2) → uniq L1.
Proof.
  intros Hu i j ei ej Hi Hj. apply Hu; rewrite lookup_app_l; eauto using lookup_lt_Some.
Qed.

Lemma log_live_nonempty L k off e : log_live L !! k = Some (off, e) → e_key e = k ∧ e_val e ≠ [].
Proof. by intros (_ & _ & _ & _ & _ & ? & ? & _)%log_live_Some. Qed.

Lemma idx_ok_covers idx L : idx_ok ∅ idx L → covers idx L.
Proof.
  intros [Hlive Hstale _]. split; [done|]. intros k off Hk Hi.
  destruct (log_live L !! k) as [[off' e]|] eqn:Hl.
  - assert (off' = off) as -> by (pose proof (Hlive _ _ _ Hk Hl); congruence).
    exists e. split; [by eapply log_live_at|by eapply log_live_nonempty].
  - destruct (Hstale k off Hk Hi Hl) as (e & Hat & Hke & [[_ Hn]|[? _]]); [eauto|set_solver].
Qed.

Lemma covers_retires key idx L L' :
  uniq L → key ≠ CKPT_KEY → retires key L L' → covers idx L → covers idx L'.
Proof.
  intros Hu Hne Hr [Hlive Hat]. pose proof (retires_live key L L' Hu Hne Hr) as Hl. split.
  - intros k off e Hk. rewrite Hl, lookup_delete_Some. intros [_ ?]. by eapply Hlive.
  - intros k off Hk Hi. destruct (Hat k off Hk Hi) as (e & He & Hke & Hn).
    destruct Hr as [[-> _]|(L1 & x & L2 & -> & -> & _)]; [eauto|].
    eexists. split; [by apply entry_at_retire|]. case_decide as Hd; [|done]. subst off.
    assert (e = x) as -> by (eapply entry_at_fun; [done|by exists L1, L2]). done.
Qed.

Lemma ckpt_of_size idx L L' :
  zlen (log_bytes L) = zlen (log_bytes L') → ckpt_of idx L = ckpt_of idx L'.
Proof. intros Hz. unfold ckpt_of. by rewrite Hz. Qed.

(** ** Every write keeps it *)

Lemma ckpt_ok_nil : ckpt_ok [].
Proof. intros [|] ? ? ?; done. Qed.

Lemma ckpt_ok_append L e : e_key e ≠ CKPT_KEY → ckpt_ok L → ckpt_ok (L ++ [e]).
Proof.
  intros Hne Hck L1 x L2 Heq Hx Hf. destruct L2 as [|y L2 _] using rev_ind.
  - apply app_inj_tail in Heq as [_ ->]. done.
  - rewrite app_comm_cons, app_assoc in Heq. apply app_inj_tail in Heq as [-> _].
    apply Forall_app in Hf as [Hf _]. by eapply Hck.
Qed.

Lemma ckpt_ok_ckpt idx L : idx_ok ∅ idx L → ckpt_ok (L ++ [ckpt_of idx L]).
Proof.
  intros Hi L1 x L2 Heq Hx Hf. destruct L2 as [|y L2 _] using rev_ind.
  - apply app_inj_tail in Heq as [-> <-]. exists idx. split; [by apply idx_ok_covers|done].
  - rewrite app_comm_cons, app_assoc in Heq. apply app_inj_tail in Heq as [_ <-].
    apply Forall_app in Hf as [_ [Hc _]%Forall_cons]. by destruct Hc.
Qed.

Lemma ckpt_ok_retires key L L' :
  uniq L → key ≠ CKPT_KEY → retires key L L' → ckpt_ok L → ckpt_ok L'.
Proof.
  intros Hu Hne [[-> _]|(A & x & B & -> & -> & Hk & Hv & Hn & Hfor)] Hck; [done|].
  intros L1 e L2 Heq He Hf.
  apply app_cons_inv in Heq as [(-> & <- & ->)|[(C & -> & ->)|(C & -> & ->)]].
  - cbn in He. congruence.
  - destruct (Hck (A ++ x :: C) e L2) as (idx & Hcov & Hval); [by rewrite <-app_assoc|done|done|].
    exists idx. apply Forall_app in Hfor as [Hfor _]. split.
    + eapply (covers_retires key); [|done| |done].
      * eapply uniq_app_l. rewrite <-app_assoc. exact Hu.
      * right. by exists A, x, C.
    + rewrite Hval. f_equal. apply ckpt_of_size. by rewrite !zlen_log_app, !zlen_log_cons.
  - apply Forall_app in Hf as [Hf1 [Hf2 Hf3]%Forall_cons].
    apply (Hck L1 e (C ++ x :: B)); [by rewrite <-app_assoc|done|].
    apply Forall_app. split; [done|]. by constructor.
Qed.

Lemma uniq_retires key L L' : uniq L → retires key L L' → uniq L'.
Proof. intros Hu [[-> _]|(A & x & B & -> & -> & _)]; [done|by apply uniq_retire]. Qed.

Lemma ckpt_ok_ext L L' : uniq L → log_ext L L' → ckpt_ok L → ckpt_ok L'.
Proof.
  intros Hu Hext. induction Hext as [|key L L1 L' Hne Hr _ IH|e L L' Hne Hl _ IH]; intros Hck; [done|..].
  - apply IH; [by eapply uniq_retires|by eapply ckpt_ok_retires].
  - apply IH; [apply uniq_snoc; [done|by right]|by apply ckpt_ok_append].
Qed.

(** A compaction that leaves no checkpoint has run out of room for it. *)
Lemma packed_size L Lc : packed L Lc → zlen (log_bytes Lc) ≤ zlen (log_bytes L).
Proof.
  intros (T & idx & Hok & ->). apply items_fit.
  - apply NoDup_live_items, NoDup_btree_iter_keys.
  - intros it. apply live_items_in.
Qed.

Lemma ckpt_of_esize T idx L : idx_ok T idx L → esize (ckpt_of idx L) ≤ zlen (log_bytes L) + 580.
Proof.
  intros Hok. unfold esize. cbn [ckpt_of e_key e_val].
  set (body := ckpt_body _ _). assert (Hb : zlen body ≤ 24 + zlen (log_bytes L)).
  { apply ckpt_body_fits; [apply NoDup_filter_keys, NoDup_btree_iter_keys|].
    intros k o (_ & Hi%elem_of_btree_iter)%list_elem_of_filter.
    destruct (idx_ok_at _ _ _ _ _ Hok Hi) as (e & Hat & Hk). exists e. split; [by eapply entry_at_elem|done]. }
  pose proof (record_size_bounds (zlen (as_bytes CKPT_KEY)) (zlen body)).
  pose proof (zlen_nonneg body). change (zlen (as_bytes CKPT_KEY)) with 14 in *. lia.
Qed.

Lemma ckpt_ok_gc cap L L' :
  2 * zlen (log_bytes L) + 580 ≤ cap → gc_step cap L L' → ckpt_ok L → ckpt_ok L'.
Proof.
  intros Hcap Hs Hck.
  destruct Hs as [->|idx Hi ->|Lc idx Hp Hi ->|Lc idx Hp Hi Hlt ->]; [done|by apply ckpt_ok_ckpt..|].
  pose proof (packed_size _ _ Hp). pose proof (ckpt_of_esize _ _ _ Hi). lia.
Qed.

(** * Replaying records into an index *)

(** One more record after an indexed log. *)
Lemma idx_ok_index_entry idx L e :
  idx_ok ∅ idx L → e_key e ≠ CKPT_KEY → idx_ok ∅ (index_entry (zlen (log_bytes L)) e idx) (L ++ [e]).
Proof.
  intros Hok Hne. unfold index_entry. destruct e as [v key val]. cbn in *. destruct v.
  - case_bool_decide as Hv; [subst val|by apply (idx_ok_put _ _ _ (mkE true key val))].
    pose proof (idx_ok_tombstone ∅ idx L key Hne Hok) as Ht. apply idx_ok_drop with (key := key) in Ht; [|done|].
    + rewrite delete_insert_eq in Ht. eapply idx_ok_mono; [|done]. set_solver.
    + rewrite log_live_snoc. apply lookup_delete_eq.
  - destruct Hok as [Hlive Hstale Hck].
    split; rewrite log_live_snoc; unfold live_entry; cbn [e_valid]; [done| |done].
    intros k off Hk Hi Hl. destruct (Hstale k off Hk Hi Hl) as (e & Hat & Hf). exists e.
    split; [by apply entry_at_snoc|done].
Qed.

Lemma idx_ok_replay Q idx L :
  idx_ok ∅ idx L → Forall (λ e, e_key e ≠ CKPT_KEY) Q →
  idx_ok ∅ (fold_left log_step Q (zlen (log_bytes L), idx)).2 (L ++ Q).
Proof.
  revert idx L. induction Q as [|e Q IH]; intros idx L Hok Hq; [by rewrite app_nil_r|].
  apply Forall_cons in Hq as [He Hq]. rewrite fold_left_cons, cons_middle, app_assoc.
  unfold log_step at 2. cbn [fst snd]. rewrite <-zlen_log_snoc. apply IH; [|done].
  by apply idx_ok_index_entry.
Qed.

(** A checkpoint's index is an index of the log up to and including it. *)
Lemma covers_idx_ok idx L e :
  uniq L → covers idx L → e_key e = CKPT_KEY → idx_ok ∅ (delete CKPT_KEY idx) (L ++ [e]).
Proof.
  intros Hu [Hlive Hat] He.
  assert (Hl : ∀ k, k ≠ CKPT_KEY → log_live (L ++ [e]) !! k = log_live L !! k).
  { intros k Hk. rewrite log_live_snoc. unfold live_entry. destruct (e_valid e); [|done]. rewrite He.
    case_bool_decide; [by rewrite lookup_delete_ne|by rewrite lookup_insert_ne]. }
  split.
  - intros k off e' Hk. rewrite Hl, lookup_delete_ne by done. by apply Hlive.
  - intros k off Hk. rewrite Hl, lookup_delete_ne by done. intros Hi Hn.
    destruct (Hat k off Hk Hi) as (e' & Hat' & Hke & Hne). exists e'.
    split; [by apply entry_at_snoc|]. split; [done|]. left. split; [|done].
    destruct (e_valid e') eqn:Hv; [|done]. destruct Hat' as (L1 & L2 & -> & ->).
    pose proof (uniq_live L1 e' L2 Hu Hv Hne) as Hlv. rewrite Hke in Hlv. rewrite Hlv in Hn by done. done.
  - intros off. by rewrite lookup_delete_eq.
Qed.

(** * Checkpoint bodies *)

Definition ckpt_entry_ok (e : string * Z) : Prop :=
  str_ok e.1 ∧ zlen (as_bytes e.1) ≤ MAX_KLEN ∧ 0 ≤ e.2 < 2 ^ 64.

Definition ins_entry (m : gmap string Z) (e : string * Z) : gmap string Z := <[e.1 := e.2]> m.

Lemma zlen_ckpt_entry e :
  ckpt_entry_ok e → ckpt_entry e = to_le_bytes 2 (zlen (as_bytes e.1)) ++ as_bytes e.1 ++ to_le_bytes 8 e.2.
Proof.
  intros (_ & Hk & _). unfold ckpt_entry, MAX_KLEN in *. by rewrite (proj2 (Z.ltb_ge _ _)) by lia.
Qed.

Lemma fold_ins_entry es :
  NoDup es.*1 → fold_left ins_entry es (∅ : gmap string Z) = list_to_map es.
Proof.
  induction es as [|[k o] es IH] using rev_ind; intros Hd; [done|].
  rewrite fmap_app in Hd. apply NoDup_app in Hd as (Hd & Hdis & _).
  rewrite fold_left_app, IH by done.
  by rewrite list_to_map_snoc by (intros Hin; eapply Hdis; [done|simpl; by left]).
Qed.

Section Mount.
Context {F : Type} `{FlashLaws F fl_ok contents}.
Context (now_us : nat → Z).

Local Abbreviation holds := (holds (fl_ok := fl_ok) (contents := contents)).
Local Abbreviation inv T := (inv (fl_ok := fl_ok) (contents := contents) (T := T)).

(** Reading back what [ckpt_body] wrote. *)
Lemma ckpt_load_ok es pre (w : World F) :
  Forall ckpt_entry_ok es →
  ckpt_load (length es) (pre ++ concat (ckpt_entry <$> es)) (zlen pre) w
  = (Ok tt, upd_kv (λ k, set_index (fold_left ins_entry es (index k)) k) w).
Proof.
  revert pre w. induction es as [|e es IH]; intros pre w Hes; [by destruct w as [[]]|].
  apply Forall_cons in Hes as [He Hes]. cbn [length ckpt_load]. rewrite fmap_cons. cbn [concat].
  pose proof He as (Hs & Hk & Ho). rewrite zlen_ckpt_entry by done. unfold MAX_KLEN in Hk.
  set (kb := as_bytes e.1) in *. set (R := concat (ckpt_entry <$> es)).
  pose proof (zlen_nonneg pre). pose proof (zlen_nonneg kb). pose proof (zlen_nonneg R).
  assert (Hz2 : zlen (to_le_bytes 2 (zlen kb)) = 2) by apply zlen_to_le_bytes.
  assert (Hz8 : zlen (to_le_bytes 8 e.2) = 8) by apply zlen_to_le_bytes.
  assert (Hlen : zlen (pre ++ (to_le_bytes 2 (zlen kb) ++ kb ++ to_le_bytes 8 e.2) ++ R)
                 = zlen pre + (2 + (zlen kb + 8) + zlen R)) by (rewrite !zlen_app; lia).
  rewrite Hlen, (proj2 (Z.ltb_ge _ _)) by lia.
  assert (Hkl : from_le_bytes (slice (zlen pre) 2 (pre ++ (to_le_bytes 2 (zlen kb) ++ kb ++ to_le_bytes 8 e.2) ++ R))
                = zlen kb).
  { rewrite slice_app_r, Z.sub_diag by lia. rewrite <-!app_assoc, slice_app_exact by done.
    apply from_to_le_bytes. lia. }
  rewrite Hkl, (proj2 (Z.ltb_ge _ _)) by lia.
  assert (Hkey : slice (zlen pre + 2) (zlen kb) (pre ++ (to_le_bytes 2 (zlen kb) ++ kb ++ to_le_bytes 8 e.2) ++ R) = kb).
  { rewrite slice_app_r by lia. rewrite <-!app_assoc, slice_app_r by lia.
    rewrite Hz2. replace (_ - _ - 2) with 0 by lia. by apply slice_app_exact. }
  assert (Hutf : from_utf8 kb = Some e.1) by (by apply from_utf8_as_bytes).
  rewrite Hkey. m_run (rewrite Hutf; reflexivity).
  assert (Hoff : from_le_bytes (slice (zlen pre + 2 + zlen kb) 8
                   (pre ++ (to_le_bytes 2 (zlen kb) ++ kb ++ to_le_bytes 8 e.2) ++ R)) = e.2).
  { rewrite slice_app_r by lia. rewrite <-!app_assoc, !slice_app_r by lia.
    rewrite Hz2. replace (_ - _ - 2 - _) with 0 by lia. rewrite slice_app_exact by done.
    apply from_to_le_bytes. lia. }
  rewrite Hoff. m_run reflexivity.
  replace (zlen pre + 2 + zlen kb + 8)
    with (zlen (pre ++ to_le_bytes 2 (zlen kb) ++ kb ++ to_le_bytes 8 e.2)) by (rewrite !zlen_app; lia).
  rewrite app_assoc, IH by done. by destruct w as [[]].
Qed.

(** ** Looking for the checkpoint *)

Definition is_ckpt (e : entry) : bool := bool_decide (e_key e = CKPT_KEY) && (24 <=? zlen (e_val e)).

Definition last_ckpt (Q : list entry) (found : option bytes) : option bytes :=
  fold_left (λ acc e, if is_ckpt e then Some (e_val e) else acc) Q found.

Lemma ckpt_scan_entry fuel w f P e R deadline found :
  flash w = Some f → fl_ok f → zlen (contents f) < 2 ^ 62 →
  contents f = P ++ enc e ++ R → entry_ok e → no_timeout now_us deadline →
  ∃ c, ckpt_scan now_us (S fuel) (zlen (contents f)) deadline (zlen P) found w
    = ckpt_scan now_us fuel (zlen (contents f)) deadline (zlen P + esize e)
        (if is_ckpt e then Some (e_val e) else found) (at_kv w (kv w) c).
Proof.
  intros Hf Hok Hs Hc He Hd. cbn [ckpt_scan].
  pose proof (zlen_nonneg P). pose proof (zlen_nonneg R). destruct (esize_bounds e) as [Hsz _].
  assert (Hz : zlen (contents f) = zlen P + (esize e + zlen R)) by (by rewrite Hc, !zlen_app, zlen_enc).
  pose proof (zlen_nonneg (as_bytes (e_key e))). pose proof (zlen_nonneg (e_val e)).
  pose proof (esize_body e). assert (HEADER = 16) as EH by done.
  rewrite !(u64_add_small (zlen P) HEADER) by lia. rewrite (proj2 (Z.ltb_ge _ _)) by lia.
  destruct (expired_false now_us w deadline Hd) as [c Hc1]. exists c. m_run (apply Hc1).
  m_run (rewrite <-(Z.add_0_r (zlen P)); apply (flash_read_at (contents := contents) _ f P (enc e ++ R));
         rewrite ?zlen_app, ?zlen_enc; done || lia).
  rewrite enc_shaped, enc_klen, enc_vlen, enc_crc by done. cbn [negb].
  rewrite entry_ok_limits by done. unfold rec_total. fold (esize e).
  rewrite !(u64_add_small (zlen P) (esize e)) by lia. rewrite (proj2 (Z.ltb_ge _ _)) by lia.
  m_run (apply (flash_read_at (contents := contents) _ f P (enc e ++ R)); rewrite ?zlen_app, ?zlen_enc; done || lia).
  rewrite enc_key. rewrite from_utf8_as_bytes by apply He. unfold is_ckpt.
  rewrite (bool_decide_ext (Some (e_key e) = Some CKPT_KEY) (e_key e = CKPT_KEY)) by (split; congruence).
  destruct (_ && _); [|done]. rewrite u64_add_small, <-Z.add_assoc by lia.
  m_run (apply (flash_read_at (contents := contents) _ f P (enc e ++ R)); rewrite ?zlen_app, ?zlen_enc; done || lia).
  by rewrite enc_val, Z.eqb_refl.
Qed.

Lemma ckpt_scan_end fuel w f P tail deadline found :
  flash w = Some f → fl_ok f → zlen (contents f) < 2 ^ 62 → contents f = P ++ tail → blank tail →
  no_timeout now_us deadline →
  ∃ c, ckpt_scan now_us (S fuel) (zlen (contents f)) deadline (zlen P) found w
       = (Ok found, at_kv w (kv w) c).
Proof.
  intros Hf Hok Hs Hc Hb Hd. cbn [ckpt_scan].
  pose proof (zlen_nonneg P). pose proof (zlen_nonneg tail).
  assert (Hz : zlen (contents f) = zlen P + zlen tail) by (by rewrite Hc, zlen_app).
  unfold HEADER in *. rewrite u64_add_small by lia.
  destruct (Z.ltb_spec (zlen (contents f)) (zlen P + 16)).
  { exists (clock w). by rewrite <-at_kv_self. }
  destruct (expired_false now_us w deadline Hd) as [c Hc1]. exists c. m_run (apply Hc1).
  m_run (rewrite <-(Z.add_0_r (zlen P)); apply (flash_read_at (contents := contents) _ f P tail); done || lia).
  rewrite blank_not_shaped by (by apply blank_slice). cbn [negb].
  assert (hdr_blank (slice 0 16 tail) = true) as -> by (by apply blank_slice). done.
Qed.

Lemma ckpt_scan_log Q P f tail deadline fuel w found :
  flash w = Some f → fl_ok f → zlen (contents f) < 2 ^ 62 →
  contents f = P ++ log_bytes Q ++ tail → blank tail → Forall entry_ok Q → no_timeout now_us deadline →
  (length Q < fuel)%nat →
  ∃ c, ckpt_scan now_us fuel (zlen (contents f)) deadline (zlen P) found w
       = (Ok (last_ckpt Q found), at_kv w (kv w) c).
Proof.
  revert P fuel w found. induction Q as [|e Q IH]; intros P fuel w found Hf Hok Hs Hc Hb Hq Hd Hfuel.
  - destruct fuel as [|fuel]; [simpl in *; lia|]. by eapply ckpt_scan_end.
  - destruct fuel as [|fuel]; [simpl in *; lia|]. apply Forall_cons in Hq as [He Hq].
    rewrite log_bytes_cons, <-app_assoc in Hc.
    destruct (ckpt_scan_entry fuel w f P e (log_bytes Q ++ tail) deadline found) as [c ->]; [done..|].
    destruct (IH (P ++ enc e) fuel (at_kv w (kv w) c) (if is_ckpt e then Some (e_val e) else found))
      as [c' Hl]; [done|done|done| |done|done|done|simpl in *; lia|].
    { by rewrite <-app_assoc. }
    exists c'. rewrite zlen_app, zlen_enc in Hl. exact Hl.
Qed.

(** Enough turns for every record of the volume. *)
Lemma fuel_enough (Q : list entry) size : zlen (log_bytes Q) ≤ size → (length Q < scan_fuel size)%nat.
Proof.
  intros Hh. unfold scan_fuel.
  assert (Hn : 512 * Z.of_nat (length Q) ≤ zlen (log_bytes Q)).
  { clear. induction Q as [|e Q IH]; [done|]. rewrite zlen_log_cons. pose proof (esize_bounds e). simpl length. lia. }
  pose proof (Z.div_mod size 512). pose proof (Z.mod_pos_bound size 512). lia.
Qed.

(** ** Scanning *)

(** What mounting leaves alone. *)
Record mframe (w w' : World F) : Prop := mkMframe {
  mf_flash : flash w' = flash w;
  mf_frame : frame w w';
}.

Lemma mframe_trans a b c : mframe a b → mframe b c → mframe a c.
Proof. intros [Hf Hr] [Hf' Hr']. split; [congruence|by eapply frame_trans]. Qed.

Lemma scan_range_ok keep w f P Q tail deadline :
  flash w = Some f → fl_ok f → zlen (contents f) < 2 ^ 62 →
  contents f = P ++ log_bytes Q ++ tail → blank tail → Forall entry_ok Q → no_timeout now_us deadline →
  degraded (kv w) = false →
  ∃ w', scan_range now_us (zlen P) keep deadline w = (Ok tt, w') ∧ mframe w w' ∧
    index (kv w') = (fold_left log_step Q (zlen P, if keep then index (kv w) else ∅)).2 ∧
    append_off (kv w') = zlen P + zlen (log_bytes Q).
Proof.
  intros Hf Hok Hs Hc Hb Hq Hd Hdeg. unfold scan_range.
  set (w0 := if keep then w else upd_kv reset_log w).
  assert (Hw0 : (if keep then mret () else modify_kv reset_log) w = (Ok tt, w0)) by (by destruct keep).
  assert (Hf0 : flash w0 = Some f) by (by destruct keep). rewrite (M_bind_Ok _ _ _ _ _ Hw0).
  erewrite M_bind_Ok; [|unfold flash_size; rewrite Hf0; cbn; by rewrite (fl_size_contents (contents := contents))].
  destruct (scan_range_loop_log now_us Q P f tail deadline (scan_fuel (zlen (contents f))) w0)
    as [c Hrun]; try done.
  { apply fuel_enough. rewrite Hc, !zlen_app. pose proof (zlen_nonneg P). pose proof (zlen_nonneg tail). lia. }
  rewrite (M_bind_Ok _ _ _ _ _ Hrun).
  destruct (fold_kv_scan Q (zlen P) (kv w0) (index (kv w0)) eq_refl) as [st ->].
  eexists. split; [reflexivity|].
  assert (Hi : index (kv w0) = if keep then index (kv w) else ∅) by (by destruct keep). rewrite Hi.
  assert (Hdeg0 : degraded (kv w0) = false) by (by destruct keep). cbn. rewrite Hdeg0.
  split; [|done]. split; [by destruct keep|]. destruct keep; constructor; done.
Qed.

(** ** Reading a record's header *)

Lemma header_at f L off e :
  holds f L → entry_at L off e →
  fl_read f off HEADER = Ok (header (if e_valid e then Byte.x56 else Byte.x00) (as_bytes (e_key e)) (e_val e)).
Proof.
  intros Hh Hat. pose proof (entry_at_bounds f L off e Hh Hat). pose proof (esize_bounds e).
  destruct Hh as (Hok & Hs & tail & Hc & Hb). assert (HEADER = 16) as EH by done.
  rewrite (fl_read_in (contents := contents)) by (done || lia). f_equal.
  destruct Hat as (L1 & L2 & -> & ->).
  rewrite Hc, log_bytes_app, log_bytes_cons, <-!app_assoc, slice_app_r, Z.sub_diag by lia. apply enc_header.
Qed.

Lemma hdr_valid_at f L off e :
  holds f L → entry_at L off e → ∃ h, fl_read f off HEADER = Ok h ∧ hdr_valid h = e_valid e.
Proof.
  intros Hh Hat. eexists. split; [by eapply header_at|].
  destruct (e_valid e); [apply header_valid|apply header_not_valid].
Qed.

(** Records that end before [e0] do not move it. *)
Lemma ckpt_end_ok offs e0 w f L :
  flash w = Some f → holds f L → Forall entry_ok L →
  (∀ o, o ∈ offs → ∃ e, entry_at L o e ∧ o + esize e ≤ e0) → e0 < 2 ^ 62 →
  ckpt_end offs e0 w = (Ok e0, w).
Proof.
  intros Hf Hh Hent Hoffs He0. induction offs as [|o offs IH]; [done|]. cbn [ckpt_end].
  destruct (Hoffs o) as (e & Hat & Hle); [by left|].
  assert (He : entry_ok e) by (by eapply (proj1 (Forall_forall _ _) Hent), entry_at_elem).
  pose proof He as (_ & Hk & Hv). pose proof (header_at f L o e Hh Hat) as Hhd.
  assert (IH' : ckpt_end offs e0 w = (Ok e0, w)) by (apply IH; intros o' Ho'; apply Hoffs; by right).
  assert (Hr : read_hdr_lossy o w
    = (Ok (header (if e_valid e then Byte.x56 else Byte.x00) (as_bytes (e_key e)) (e_val e)), w)).
  { unfold read_hdr_lossy. m_run reflexivity. by rewrite Hf, Hhd. }
  rewrite (M_bind_Ok _ _ _ _ _ (m_try_Ok _ _ _ _ Hr)).
  destruct (e_valid e); [rewrite header_valid|by rewrite header_not_valid]. cbn [negb].
  rewrite header_klen, header_vlen by done. pose proof (entry_ok_limits e He) as Hlim.
  unfold MAX_KLEN, MAX_VLEN in Hlim. rewrite Hlim. unfold rec_total. fold (esize e).
  pose proof (entry_at_bounds f L o e Hh Hat). pose proof (esize_bounds e).
  rewrite u64_sat_add_small by lia. by rewrite (proj2 (Z.ltb_ge _ _)) by lia.
Qed.

(** ** The checkpoint path *)

Lemma ckpt_body_fields a es :
  0 ≤ a < 2 ^ 64 → 0 ≤ fnv_entries es < 2 ^ 64 → zlen es < 2 ^ 32 →
  let b := ckpt_body a es in
  (zlen b <? 24) = false ∧ slice 0 4 b = as_bytes "TKCK" ∧ from_le_bytes (slice 4 8 b) = a ∧
  from_le_bytes (slice 12 8 b) = fnv_entries es ∧ from_le_bytes (slice 20 4 b) = zlen es ∧
  ∃ pre, zlen pre = 24 ∧ b = pre ++ concat (ckpt_entry <$> es).
Proof.
  intros Ha Hf Hn b. pose proof (zlen_nonneg es).
  set (p1 := as_bytes "TKCK"). set (p2 := to_le_bytes 8 a). set (p3 := to_le_bytes 8 (fnv_entries es)).
  set (p4 := to_le_bytes 4 (zlen es)). set (R := concat (ckpt_entry <$> es)).
  assert (Hb : b = p1 ++ p2 ++ p3 ++ p4 ++ R) by done. pose proof (zlen_nonneg R).
  assert (zlen p1 = 4 ∧ zlen p2 = 8 ∧ zlen p3 = 8 ∧ zlen p4 = 4) as (Z1 & Z2 & Z3 & Z4)
    by (unfold p2, p3, p4; rewrite !zlen_to_le_bytes; done).
  rewrite Hb. split_and!.
  - rewrite !zlen_app. apply Z.ltb_ge. lia.
  - by apply slice_app_exact.
  - rewrite slice_app_r by lia. rewrite Z1, slice_app_exact by done. by apply from_to_le_bytes.
  - rewrite !slice_app_r by lia. rewrite Z1, Z2, slice_app_exact by done. by apply from_to_le_bytes.
  - rewrite !slice_app_r by lia. rewrite Z1, Z2, Z3, slice_app_exact by done. apply from_to_le_bytes. lia.
  - exists (p1 ++ p2 ++ p3 ++ p4). split; [rewrite !zlen_app; lia|by rewrite <-!app_assoc].
Qed.

(** The entries of the checkpoint of [idx]. *)
Definition ckpt_es (idx : gmap string Z) : list (string * Z) :=
  filter (λ e, e.1 ≠ CKPT_KEY) (btree_iter idx).

Lemma ckpt_es_map idx : list_to_map (ckpt_es idx) = delete CKPT_KEY idx.
Proof.
  apply map_eq. intros k. apply option_eq. intros o.
  rewrite <-elem_of_list_to_map by apply NoDup_filter_keys, NoDup_btree_iter_keys.
  unfold ckpt_es. rewrite list_elem_of_filter, elem_of_btree_iter, lookup_delete_Some. cbn. naive_solver.
Qed.

Lemma ckpt_es_iter idx : btree_iter (delete CKPT_KEY idx) = ckpt_es idx.
Proof.
  rewrite <-ckpt_es_map. apply btree_iter_list_to_map.
  - apply StronglySorted_filter, btree_iter_sorted.
  - apply NoDup_filter_keys, NoDup_btree_iter_keys.
Qed.

Lemma elem_of_ckpt_es idx k o : (k, o) ∈ ckpt_es idx ↔ k ≠ CKPT_KEY ∧ idx !! k = Some o.
Proof. unfold ckpt_es. by rewrite list_elem_of_filter, elem_of_btree_iter. Qed.

Lemma fnv_fold_u64 es h :
  0 ≤ h < 2 ^ 64 →
  0 ≤ fold_left (λ h (e : string * Z), fnv (fnv h (as_bytes e.1)) (to_le_bytes 8 e.2)) es h < 2 ^ 64.
Proof.
  revert h. induction es as [|e es IH]; intros h Hh; [exact Hh|]. rewrite fold_left_cons. apply IH.
  apply fnv_u64, fnv_u64, Hh.
Qed.

Lemma fnv_entries_u64 es : 0 ≤ fnv_entries es < 2 ^ 64.
Proof. apply fnv_fold_u64. by split. Qed.

Lemma last_ckpt_app L1 e L2 :
  is_ckpt e = true → Forall (λ e', e_key e' ≠ CKPT_KEY) L2 →
  last_ckpt (L1 ++ e :: L2) None = Some (e_val e).
Proof.
  intros He Hf. unfold last_ckpt. rewrite fold_left_app, fold_left_cons. cbv beta. rewrite He.
  induction Hf as [|x L2 Hx _ IH]; [done|]. rewrite fold_left_cons. unfold is_ckpt at 2.
  by rewrite bool_decide_eq_false_2 by done.
Qed.

Lemma last_ckpt_none L : Forall (λ e, e_key e ≠ CKPT_KEY) L → last_ckpt L None = None.
Proof.
  unfold last_ckpt. induction 1 as [|x L Hx _ IH]; [done|]. rewrite fold_left_cons. unfold is_ckpt at 2.
  by rewrite bool_decide_eq_false_2 by done.
Qed.

(** What the entries of a checkpoint that covers [L1] look like. *)
Lemma covers_es idx L1 R f :
  holds f (L1 ++ R) → Forall entry_ok (L1 ++ R) → covers idx L1 →
  Forall ckpt_entry_ok (ckpt_es idx) ∧
  (∀ o, o ∈ (ckpt_es idx).*2 → ∃ e, entry_at (L1 ++ R) o e ∧ o + esize e ≤ zlen (log_bytes L1)).
Proof.
  intros Hh Hent [_ Hat]. pose proof (zlen_holds _ _ Hh) as Hz. assert (zlen (contents f) < 2 ^ 62) by apply Hh.
  assert (Hall : ∀ k o, (k, o) ∈ ckpt_es idx → ∃ e, entry_at (L1 ++ R) o e ∧ e_key e = k ∧
                  o + esize e ≤ zlen (log_bytes L1) ∧ 0 ≤ o).
  { intros k o [Hk Hi]%elem_of_ckpt_es. destruct (Hat k o Hk Hi) as (e & (A & B & -> & ->) & Hke & _).
    exists e. pose proof (zlen_nonneg (log_bytes A)). pose proof (zlen_nonneg (log_bytes B)).
    split; [exists A, (B ++ R); by rewrite <-app_assoc|]. rewrite zlen_log_app, zlen_log_cons. split_and!; [done|lia|lia]. }
  split.
  - apply Forall_forall. intros [k o] Hin. destruct (Hall k o Hin) as (e & Hat' & <- & Hle & Ho).
    assert (He : entry_ok e) by (by eapply (proj1 (Forall_forall _ _) Hent), entry_at_elem).
    pose proof (esize_bounds e). rewrite zlen_log_app in Hz. pose proof (zlen_nonneg (log_bytes R)).
    destruct He as (? & ? & _). split_and!; cbn; [done|done|lia|lia].
  - intros o ([k o'] & -> & Hin)%list_elem_of_fmap. destruct (Hall k o' Hin) as (e & ? & _ & ? & _). eauto.
Qed.

Lemma ckpt_es_length idx L1 e :
  entry_ok e → e_val e = e_val (ckpt_of idx L1) → Forall ckpt_entry_ok (ckpt_es idx) → zlen (ckpt_es idx) < 2 ^ 32.
Proof.
  intros (_ & _ & Hv) He Hes. rewrite He in Hv. cbn [ckpt_of e_val] in Hv. fold (ckpt_es idx) in Hv.
  assert (zlen (ckpt_es idx) ≤ zlen (concat (ckpt_entry <$> ckpt_es idx))).
  { clear -Hes. induction Hes as [|x es Hx _ IH]; [done|]. rewrite fmap_cons. cbn [concat].
    rewrite zlen_app, zlen_ckpt_entry, !zlen_app, !zlen_to_le_bytes by done.
    pose proof (zlen_nonneg (as_bytes x.1)). unfold zlen at 1. simpl length. unfold zlen in IH at 1. lia. }
  unfold ckpt_body in Hv. rewrite !zlen_app in Hv. unfold MAX_VLEN in Hv.
  pose proof (zlen_nonneg (as_bytes "TKCK")). pose proof (zlen_nonneg (to_le_bytes 8 (zlen (log_bytes L1)))).
  pose proof (zlen_nonneg (to_le_bytes 8 (fnv_entries (ckpt_es idx)))).
  pose proof (zlen_nonneg (to_le_bytes 4 (zlen (ckpt_es idx)))). lia.
Qed.

(** From a loaded index on: freshness probe, end of the log, tail replay. *)
Lemma ckpt_resume w f L1 e L2 idx deadline :
  flash w = Some f → holds f (L1 ++ e :: L2) → Forall entry_ok (L1 ++ e :: L2) → uniq (L1 ++ e :: L2) →
  e_key e = CKPT_KEY → Forall (λ e', e_key e' ≠ CKPT_KEY) L2 → covers idx L1 →
  no_timeout now_us deadline → degraded (kv w) = false → index (kv w) = delete CKPT_KEY idx →
  ∃ w', (modify_kv (set_append_off (zlen (log_bytes L1)));;
         modify_kv recompute_live_estimate;;
         scan_range now_us (u64_add (zlen (log_bytes L1)) (rec_total (zlen (as_bytes CKPT_KEY)) (zlen (e_val e))))
           true deadline) w = (Ok tt, w') ∧
    mframe w w' ∧ idx_ok ∅ (index (kv w')) (L1 ++ e :: L2) ∧
    append_off (kv w') = zlen (log_bytes (L1 ++ e :: L2)).
Proof.
  intros Hf Hh Hent Hu Hk Hn Hcov Hd Hdeg Hi. m_run reflexivity. m_run reflexivity.
  assert (Hsz : zlen (contents f) < 2 ^ 62) by apply Hh. pose proof (zlen_holds _ _ Hh) as Hz.
  pose proof (zlen_nonneg (log_bytes L1)). pose proof (zlen_nonneg (log_bytes L2)). pose proof (esize_bounds e).
  rewrite zlen_log_app, zlen_log_cons in Hz. unfold rec_total. rewrite <-Hk. fold (esize e).
  rewrite u64_add_small, <-zlen_log_snoc by lia.
  destruct Hh as (Hok & _ & tail & Hc & Hb).
  assert (Hent2 : Forall entry_ok L2) by (by apply Forall_app in Hent as [_ [_ ?]%Forall_cons]).
  set (w1 := upd_kv recompute_live_estimate (upd_kv (set_append_off (zlen (log_bytes L1))) w)).
  destruct (scan_range_ok true w1 f (log_bytes (L1 ++ [e])) L2 tail deadline) as (w' & Hrun & Hfr & Hidx & Hap);
    try done.
  { rewrite Hc. by rewrite cons_middle, (app_assoc L1), log_bytes_app, <-app_assoc. }
  exists w'. split; [done|]. rewrite (cons_middle e), (app_assoc L1). split_and!.
  - eapply mframe_trans; [|exact Hfr]. by constructor.
  - rewrite Hidx. cbn. rewrite Hi. apply idx_ok_replay; [|done]. apply covers_idx_ok; [|done|done].
    by eapply uniq_app_l.
  - by rewrite Hap, (zlen_log_app (L1 ++ [e]) L2).
Qed.

(** The checkpoint [e] of a log it covers is loaded, unless the first key it
    names has been invalidated since; the records after it are replayed. *)
Lemma try_mount_ckpt w f L1 e L2 idx deadline :
  flash w = Some f → holds f (L1 ++ e :: L2) → Forall entry_ok (L1 ++ e :: L2) → uniq (L1 ++ e :: L2) →
  e_key e = CKPT_KEY → Forall (λ e', e_key e' ≠ CKPT_KEY) L2 → covers idx L1 →
  e_val e = e_val (ckpt_of idx L1) → no_timeout now_us deadline → degraded (kv w) = false →
  ∃ r w', try_mount_from_ckpt now_us deadline w = (r, w') ∧ mframe w w' ∧
    (r = Err "ckpt stale" ∨ r = Ok tt ∧ idx_ok ∅ (index (kv w')) (L1 ++ e :: L2) ∧
                            append_off (kv w') = zlen (log_bytes (L1 ++ e :: L2))).
Proof.
  intros Hf Hh Hent Hu Hk Hn Hcov Hval Hd Hdeg.
  destruct (covers_es idx L1 (e :: L2) f Hh Hent Hcov) as [Hes Hoffs].
  assert (He : entry_ok e) by (by apply Forall_app in Hent as [_ [? _]%Forall_cons]).
  pose proof (ckpt_es_length idx L1 e He Hval Hes) as Hlen. pose proof (zlen_holds _ _ Hh) as Hz.
  pose proof Hh as (Hok & Hsz & tail & Hc & Hb). pose proof (zlen_nonneg (log_bytes L1)).
  pose proof (zlen_nonneg (log_bytes (e :: L2))). rewrite zlen_log_app in Hz.
  destruct (ckpt_body_fields (zlen (log_bytes L1)) (ckpt_es idx)) as (B1 & B2 & B3 & B4 & B5 & pre & Hpre & B6);
    [lia|apply fnv_entries_u64|done|]. cbn [ckpt_of e_val] in Hval. fold (ckpt_es idx) in Hval.
  rewrite <-Hval in B1, B2, B3, B4, B5, B6.
  assert (Hck : is_ckpt e = true).
  { unfold is_ckpt. rewrite bool_decide_eq_true_2 by done. apply Z.ltb_ge in B1. by apply Z.leb_le. }
  unfold try_mount_from_ckpt. erewrite M_bind_Ok by reflexivity. cbv beta.
  erewrite M_bind_Ok by (unfold flash_size; cbn; rewrite Hf; cbn; by rewrite (fl_size_contents (contents := contents))).
  cbv beta. set (w1 := upd_kv _ w).
  destruct (ckpt_scan_log (L1 ++ e :: L2) [] f tail deadline (scan_fuel (zlen (contents f))) w1 None)
    as [c Hscan]; [done|done|done|done|done|done|done|apply fuel_enough; rewrite zlen_log_app; lia|].
  rewrite (M_bind_Ok _ _ _ _ _ Hscan), last_ckpt_app by done.
  erewrite M_bind_Ok by reflexivity. cbv beta. rewrite B1, B2, bool_decide_eq_true_2 by done. cbn [negb].
  rewrite B3, B4, B5. erewrite M_bind_Ok by reflexivity. cbv beta.
  set (w2 := upd_kv (set_index ∅) _).
  assert (Hload : ckpt_load (Z.to_nat (zlen (ckpt_es idx))) (e_val e) 24 w2
                  = (Ok tt, upd_kv (λ k, set_index (delete CKPT_KEY idx) k) w2)).
  { rewrite B6, <-Hpre. unfold zlen at 1. rewrite Nat2Z.id, ckpt_load_ok by done.
    rewrite <-ckpt_es_map, <-fold_ins_entry; [done|]. apply NoDup_filter_keys, NoDup_btree_iter_keys. }
  rewrite (M_bind_Ok _ _ _ _ _ Hload). erewrite M_bind_Ok by reflexivity. cbv beta.
  set (w3 := upd_kv (λ k, set_index (delete CKPT_KEY idx) k) w2).
  change (index (kv w3)) with (delete CKPT_KEY idx). rewrite ckpt_es_iter, Z.eqb_refl. cbn [negb].
  assert (Hfr3 : mframe w w3) by (by constructor).
  assert (Hf3 : flash w3 = Some f) by done.
  set (probe := match head (ckpt_es idx) with Some _ => _ | None => _ end).
  assert (Hprobe : ∃ b, probe w3 = (Ok b, w3)).
  { unfold probe. destruct (head (ckpt_es idx)) as [[k o]|] eqn:Hhd; [|by exists true].
    destruct (Hoffs o) as (e' & Hat & _).
    { apply list_elem_of_fmap. exists (k, o). split; [done|]. by apply head_Some_elem_of. }
    destruct (hdr_valid_at f _ o e' Hh Hat) as (h & Hrd & _). exists (hdr_valid h).
    erewrite M_bind_Ok; [done|]. unfold flash_read. rewrite Hf3. cbn. by rewrite Hrd. }
  destruct Hprobe as [b Hprobe]. rewrite (M_bind_Ok _ _ _ _ _ Hprobe). destruct b; cbn [negb].
  2:{ eexists _, _. split; [reflexivity|]. split; [by constructor|by left]. }
  rewrite (M_bind_Ok _ _ _ _ _ (ckpt_end_ok _ (zlen (log_bytes L1)) w3 f _ Hf3 Hh Hent Hoffs ltac:(lia))).
  destruct (ckpt_resume w3 f L1 e L2 idx deadline) as (w' & Hrun & Hfr & Hidx & Hap); try done.
  exists (Ok tt), w'. split; [exact Hrun|]. split; [by eapply mframe_trans|]. by right.
Qed.

Lemma log_ckpt_split (L : list entry) :
  Forall (λ e, e_key e ≠ CKPT_KEY) L
  ∨ ∃ L1 e L2, L = L1 ++ e :: L2 ∧ e_key e = CKPT_KEY ∧ Forall (λ e', e_key e' ≠ CKPT_KEY) L2.
Proof.
  induction L as [|x L IH]; [by left|]. destruct IH as [IH|(L1 & e & L2 & -> & He & Hf)].
  - destruct (decide (e_key x = CKPT_KEY)) as [Hx|Hx]; [right; by exists [], x, L|left; by constructor].
  - right. by exists (x :: L1), e, L2.
Qed.

(** The checkpoint path either builds an index of the log or gives up. *)
Lemma try_mount_ok w f L deadline :
  flash w = Some f → holds f L → Forall entry_ok L → uniq L → ckpt_ok L →
  no_timeout now_us deadline → degraded (kv w) = false →
  ∃ r w', m_try (try_mount_from_ckpt now_us deadline) w = (Ok r, w') ∧ mframe w w' ∧
    (is_ok r = false ∨ is_ok r = true ∧ idx_ok ∅ (index (kv w')) L ∧ append_off (kv w') = zlen (log_bytes L)).
Proof.
  intros Hf Hh Hent Hu Hck Hd Hdeg. destruct (log_ckpt_split L) as [Hn|(L1 & e & L2 & -> & He & Hn)].
  - pose proof (zlen_holds _ _ Hh) as Hz. destruct Hh as (Hok & Hsz & tail & Hc & Hb).
    destruct (ckpt_scan_log L [] f tail deadline (scan_fuel (zlen (contents f)))
                (upd_kv (λ k, set_append_off 0 (set_index ∅ k)) w) None) as [c Hscan];
      [done|done|done|done|done|done|done|by apply fuel_enough|].
    rewrite last_ckpt_none in Hscan by done. eexists (Err "no ckpt"), _. split.
    { eapply m_try_Err. unfold try_mount_from_ckpt. erewrite M_bind_Ok by reflexivity. cbv beta.
      erewrite M_bind_Ok by (unfold flash_size; cbn; rewrite Hf; cbn; by rewrite (fl_size_contents (contents := contents))).
      rewrite (M_bind_Ok _ _ _ _ _ Hscan). reflexivity. }
    split; [by constructor|by left].
  - destruct (Hck L1 e L2 eq_refl He Hn) as (idx & Hcov & Hval).
    destruct (try_mount_ckpt w f L1 e L2 idx deadline) as (r & w' & Hrun & Hfr & Hr); try done.
    exists r, w'. destruct Hr as [->|(-> & Hidx & Hap)].
    + split; [by apply m_try_Err|]. split; [done|by left].
    + split; [by apply m_try_Ok|]. split; [done|by right].
Qed.

Lemma recover_ok w f L deadline :
  flash w = Some f → holds f L → Forall entry_ok L → no_timeout now_us deadline → degraded (kv w) = false →
  ∃ w', recover now_us deadline w = (Ok tt, w') ∧ mframe w w' ∧
    index (kv w') = log_index L ∧ append_off (kv w') = zlen (log_bytes L).
Proof.
  intros Hf (Hok & Hsz & tail & Hc & Hb) Hent Hd Hdeg. unfold recover.
  apply (scan_range_ok false w f [] L tail deadline); done.
Qed.

(** ** [mount] *)

(** Every deadline [mount] sets is met: the counter is uncalibrated, or the
    whole run of readings stays within the scan budget. *)
Definition clock_ok : Prop :=
  ∀ i, now_us i = 0 ∨ ∀ j, now_us j < u64_sat_add (now_us i) MOUNT_SCAN_BUDGET_US.

Lemma clock_ok_deadline (w : World F) :
  clock_ok → ∃ d w', mount_scan_deadline now_us w = (Ok d, w') ∧ no_timeout now_us d ∧
    w' = tick_clock w.
Proof.
  intros Hc. eexists _, _. split; [reflexivity|]. split; [|done]. unfold no_timeout.
  destruct (Hc (clock w)) as [->|Hj]; [by left|].
  destruct (now_us (clock w) =? 0); [by left|by right].
Qed.

Context (init_flash : F * string) (backend_of : F → string).

Lemma mount_ok w f L :
  flash w = Some f ∨ flash w = None ∧ init_flash.1 = f →
  holds f L → Forall entry_ok L → uniq L → ckpt_ok L → clock_ok →
  ∃ w', mount now_us init_flash backend_of w = (Ok tt, w') ∧ inv ∅ w' f L ∧
    degraded (kv w') = false ∧ COMPACTING w' = COMPACTING w ∧ installed w' = installed w.
Proof.
  intros Hf Hh Hent Hu Hck Hclk. unfold mount. erewrite M_bind_Ok by reflexivity. cbv beta.
  set (setup := match flash w with Some _ => _ | None => _ end).
  assert (Hset : ∃ w1, setup w = (Ok tt, w1) ∧ flash w1 = Some f ∧ COMPACTING w1 = COMPACTING w ∧
                       installed w1 = installed w).
  { unfold setup. destruct Hf as [E|[E <-]]; rewrite E; eexists; (split; [reflexivity|done]). }
  destruct Hset as (w1 & Hset & Hf1 & Hc1 & Hi1). rewrite (M_bind_Ok _ _ _ _ _ Hset).
  destruct (clock_ok_deadline w1 Hclk) as (d & w2 & Hdl & Hd & ->). rewrite (M_bind_Ok _ _ _ _ _ Hdl).
  erewrite M_bind_Ok by reflexivity. cbv beta. set (w2 := upd_kv _ (tick_clock w1)).
  destruct (try_mount_ok w2 f L d) as (r & w3 & Htry & Hfr & Hr); try done.
  rewrite (M_bind_Ok _ _ _ _ _ Htry).
  assert (Hrec : ∃ w4, (if is_ok r then mret () else recover now_us d) w3 = (Ok tt, w4) ∧ mframe w2 w4 ∧
            idx_ok ∅ (index (kv w4)) L ∧ append_off (kv w4) = zlen (log_bytes L)).
  { destruct Hr as [->|(-> & Hidx & Hap)]; [|by exists w3].
    destruct (recover_ok w3 f L d) as (w4 & Hrun & Hfr4 & Hidx & Hap); try done.
    { by rewrite (mf_flash _ _ Hfr). }
    { by rewrite (fr_degraded _ _ (mf_frame _ _ Hfr)). }
    exists w4. split_and!; [done|by eapply mframe_trans| |done]. rewrite Hidx. apply idx_ok_log_index. }
  destruct Hrec as (w4 & Hrec & [Hf4 Hfr4] & Hidx & Hap). rewrite (M_bind_Ok _ _ _ _ _ Hrec).
  erewrite M_bind_Ok by reflexivity. cbv beta. erewrite M_bind_Ok by reflexivity. cbv beta.
  destruct Hfr4. destruct (slow_backend _); eexists; (split; [reflexivity|]); (split; [|cbn in *; split_and!; congruence]);
    constructor; cbn in *; try done; congruence.
Qed.
End Mount.
