(* ===== verification/TickvRefine.v ===== *)
(** TickvLite as a finite map. [abs_exec] is the contract of the store's public
    operations; [run] executes a sequence of them, remounts included, on the code's
    own definitions. *)

From S2P Require Import Prelude Checksum Flash Tickv TickvLog TickvSpec TickvGc TickvOps TickvMount.
Import Crc32 Fnv.

(** * Commands *)

Inductive cmd :=
| CPut (key : string) (val : bytes)
| CBatch (items : list (string * bytes))
| CDelete (key : string)
| CGet (key : string)
| CCompact
| CIdle
| CRemount.

#[global] Instance cmd_eq_dec : EqDecision cmd.
Proof. solve_decision. Defined.

Inductive reply :=
| RUnit (r : res unit)
| RVal (r : res bytes).

(** Keys a [String] can hold, within the limits of the scanner, not the store's
    own checkpoint key; values within its limit, not empty (an empty value is a
    tombstone). *)
Definition key_okb (key : string) : bool :=
  negb (bool_decide (key = CKPT_KEY)) && utf8_valid (as_bytes key) && (zlen (as_bytes key) <=? MAX_KLEN).

Definition item_okb (it : string * bytes) : bool :=
  key_okb it.1 && (zlen it.2 <=? MAX_VLEN) && negb (bool_decide (it.2 = [])).

Definition cmd_okb (c : cmd) : bool :=
  match c with
  | CPut key val => item_okb (key, val)
  | CBatch items => forallb item_okb items && bool_decide (NoDup items.*1)
  | CDelete key | CGet key => key_okb key
  | CCompact | CIdle | CRemount => true
  end.

(** Bytes a command may append. *)
Definition cost (c : cmd) : Z :=
  match c with
  | CPut key val => record_size (zlen (as_bytes key)) (zlen val)
  | CBatch items => foldr (λ it a, record_size (zlen (as_bytes it.1)) (zlen it.2) + a) 0 items
  | CDelete key => record_size (zlen (as_bytes key)) 0
  | _ => 0
  end.

(** * The contract *)

Definition lookup_reply (m : gmap string bytes) (key : string) : reply :=
  RVal (match m !! key with Some v => Ok v | None => Err "missing" end).

(** With room on the volume every command succeeds. *)
Definition abs_exec (c : cmd) (m : gmap string bytes) : reply * gmap string bytes :=
  match c with
  | CPut key val => (RUnit (Ok tt), <[key := val]> m)
  | CBatch items => (RUnit (Ok tt), list_to_map items ∪ m)
  | CDelete key => (RUnit (Ok tt), delete key m)
  | CGet key => (lookup_reply m key, m)
  | CCompact | CIdle | CRemount => (RUnit (Ok tt), m)
  end.

Fixpoint abs_run (cs : list cmd) (m : gmap string bytes) : list reply * gmap string bytes :=
  match cs with
  | [] => ([], m)
  | c :: cs' =>
      let '(r, m1) := abs_exec c m in
      let '(rs, m2) := abs_run cs' m1 in
      (r :: rs, m2)
  end.

(** On a volume that may be full a write may fail instead: a [put] then loses the
    key's old value, a batch the old values of all its keys, a compaction nothing. *)
Inductive kv_spec (c : cmd) (m : gmap string bytes) : reply → gmap string bytes → Prop :=
| spec_ok : kv_spec c m (abs_exec c m).1 (abs_exec c m).2
| spec_put_full key val : c = CPut key val → kv_spec c m (RUnit (Err "oob")) (delete key m)
| spec_batch_full items dn rest :
    c = CBatch items → items = dn ++ rest → rest ≠ [] →
    kv_spec c m (RUnit (Err "oob")) (list_to_map dn ∪ filter (λ kv, kv.1 ∉ items.*1) m)
| spec_delete_full key : c = CDelete key → m !! key = None → kv_spec c m (RUnit (Err "oob")) m
| spec_compact_full : c = CCompact → kv_spec c m (RUnit (Err "oob")) m.

Inductive kv_trace : list cmd → gmap string bytes → list reply → gmap string bytes → Prop :=
| trace_nil m : kv_trace [] m [] m
| trace_cons c cs m r m1 rs m2 :
    kv_spec c m r m1 → kv_trace cs m1 rs m2 → kv_trace (c :: cs) m (r :: rs) m2.

(** * The map a log stands for *)

Definition abs (L : list entry) : gmap string bytes := delete CKPT_KEY (log_map L).

Lemma abs_gc cap L L' : gc_step cap L L' → abs L' = abs L.
Proof.
  intros Hs. apply map_eq. intros k. unfold abs. destruct (decide (k = CKPT_KEY)) as [->|Hne].
  - by rewrite !lookup_delete_eq.
  - rewrite !lookup_delete_ne by done. by eapply gc_step_map.
Qed.

Lemma abs_retires key L L' : uniq L → key ≠ CKPT_KEY → retires key L L' → abs L' = delete key (abs L).
Proof. intros Hu Hne Hr. unfold abs. by rewrite (log_map_retires key L L'), delete_delete by done. Qed.

Lemma abs_put key val L L1 :
  uniq L → key ≠ CKPT_KEY → val ≠ [] → retires key L L1 →
  abs (L1 ++ [mkE true key val]) = <[key := val]> (abs L).
Proof.
  intros Hu Hne Hn Hr. unfold abs. rewrite log_map_snoc, (log_map_retires key L L1) by done.
  by rewrite insert_delete_eq, delete_insert_ne.
Qed.

Lemma abs_None L k : log_live L !! k = None → abs L !! k = None.
Proof.
  intros Hl. unfold abs. rewrite lookup_delete. case_decide; [done|].
  unfold log_map. by rewrite lookup_fmap, Hl.
Qed.

Lemma abs_tombstone L key : log_live L !! key = None → abs (L ++ [mkE true key []]) = delete key (abs L).
Proof.
  intros Hl. unfold abs, log_map. rewrite log_live_snoc. unfold live_entry. cbn.
  by rewrite fmap_delete, delete_delete.
Qed.

Lemma abs_batch L L1 (dn items : list (string * bytes)) :
  Forall item_ok dn →
  log_map L1 = list_to_map dn ∪ filter (λ kv, kv.1 ∉ items.*1) (log_map L) →
  abs L1 = list_to_map dn ∪ filter (λ kv, kv.1 ∉ items.*1) (abs L).
Proof.
  intros Hit Hm. unfold abs. rewrite Hm, delete_union, map_filter_delete. f_equal.
  apply delete_id, not_elem_of_list_to_map. intros (it & Hk & Hin)%list_elem_of_fmap.
  destruct (proj1 (Forall_forall _ _) Hit it Hin) as [Hne _]. congruence.
Qed.

Lemma union_filter (items : list (string * bytes)) (m : gmap string bytes) :
  list_to_map items ∪ filter (λ kv, kv.1 ∉ items.*1) m = (list_to_map items : gmap string bytes) ∪ m.
Proof.
  apply map_eq. intros k. rewrite !lookup_union. destruct (list_to_map items !! k) as [v|] eqn:E; [by rewrite !union_Some_l|].
  rewrite !(left_id_L None (∪)). apply not_elem_of_list_to_map in E. rewrite map_lookup_filter.
  destruct (m !! k); [|done]. simpl. by rewrite option_guard_True.
Qed.

Lemma cost_batch items : cost (CBatch items) = zlen (log_bytes (entry_of <$> items)).
Proof. cbn. induction items as [|it items IH]; [done|]. rewrite fmap_cons, zlen_log_cons. simpl. by rewrite IH. Qed.

(** The checks on commands mean what the operations' lemmas ask for. *)
Lemma key_okb_spec key val :
  key_okb key = true → zlen val ≤ MAX_VLEN → key ≠ CKPT_KEY ∧ entry_ok (mkE true key val).
Proof.
  unfold key_okb. rewrite !andb_true_iff. intros ((Hk%negb_true_iff%bool_decide_eq_false & Hu) & Hl%Z.leb_le) Hv.
  split; [done|]. by split_and!.
Qed.

Lemma item_okb_spec it : item_okb it = true → item_ok it.
Proof.
  unfold item_okb. rewrite !andb_true_iff.
  intros ((Hk & Hv%Z.leb_le) & Hn%negb_true_iff%bool_decide_eq_false).
  destruct (key_okb_spec _ _ Hk Hv). by split_and!.
Qed.

(** * Running the code *)

Section Run.
Context {F : Type} `{FlashLaws F fl_ok contents}.
Context (now_us : nat → Z) (init_flash : F * string) (backend_of : F → string).

(** Power cycle: the statics start over, the medium keeps its bytes. *)
Definition restart (w : World F) : World F := mkWorld new false (flash w) false false 0 0 (clock w).

Definition as_unit {A} (m : M (World F) A) : M (World F) reply :=
  r ← m_try m; mret (RUnit (res_map (λ _, tt) r)).

Definition exec (c : cmd) : M (World F) reply :=
  match c with
  | CPut key val => as_unit (put key val)
  | CBatch items => as_unit (put_batch items)
  | CDelete key => as_unit (delete_key key)
  | CGet key => r ← m_try (get key); mret (RVal r)
  | CCompact => as_unit compact
  | CIdle => as_unit flush_opportunistic
  | CRemount => m_modify restart;; get_or_insert;; as_unit (mount now_us init_flash backend_of)
  end.

Fixpoint run (cs : list cmd) : M (World F) (list reply) :=
  match cs with
  | [] => mret []
  | c :: cs' => r ← exec c; rs ← run cs'; mret (r :: rs)
  end.

(** The volume stays half empty all along: with that every checkpoint fits. *)
Definition roomy (c : cmd) (w : World F) : bool :=
  match flash w with
  | Some f => 2 * (append_off (kv w) + cost c) + 580 <=? fl_size_bytes f
  | None => false
  end.

Fixpoint trace_okb (cs : list cmd) (w : World F) : bool :=
  match cs with
  | [] => true
  | c :: cs' => cmd_okb c && roomy c w && trace_okb cs' (exec c w).2
  end.

Local Abbreviation inv T := (inv (fl_ok := fl_ok) (contents := contents) (T := T)).
Local Abbreviation evolves T := (evolves (fl_ok := fl_ok) (contents := contents) (T := T)).
Local Abbreviation can_gc := (can_gc (contents := contents)).

(** ** One step *)

(** What a command leaves behind: its reply, the log it wrote, and the
    housekeeping that followed. *)
Definition stepped (c : cmd) (w : World F) (f : F) (L : list entry) : Prop :=
  ∃ rep w' f' L1 L', exec c w = (Ok rep, w') ∧ evolves ∅ w f w' f' L' ∧
    log_ext L L1 ∧ gc_step (zlen (contents f)) L1 L' ∧ zlen (log_bytes L1) ≤ zlen (log_bytes L) + cost c ∧
    kv_spec c (abs L) rep (abs L') ∧
    (2 * (zlen (log_bytes L) + cost c) + 580 ≤ zlen (contents f) → (rep, abs L') = abs_exec c (abs L)).

Lemma as_unit_run {A} (m : M (World F) A) w r w' a e :
  m w = (r, w') → r = Ok a ∨ r = Err e → as_unit m w = (Ok (RUnit (res_map (λ _, tt) r)), w').
Proof. intros Hm Hr. unfold as_unit. by rewrite (M_bind_Ok _ _ _ _ _ (m_try_ran _ _ _ _ _ _ Hm Hr)). Qed.

Lemma cost_put key val : cost (CPut key val) = esize (mkE true key val).
Proof. done. Qed.

Lemma step_put w f L key val :
  inv ∅ w f L → can_gc w f → cmd_okb (CPut key val) = true → stepped (CPut key val) w f L.
Proof.
  intros Hinv Hgc (Hne & He & Hn)%item_okb_spec. unfold entry_of in He. cbn in Hne, He, Hn.
  destruct (put_ok w f L key val Hinv Hgc Hne He Hn) as (r & w' & f' & L1 & L' & Hrun & Hret & Hev & Hr).
  pose proof (inv_uniq _ _ _ Hinv) as Hu. pose proof (retires_size _ _ _ Hret) as Hz.
  pose proof (log_ext_retires key L L1 Hne Hret) as Hext.
  assert (Hrun' : exec (CPut key val) w = (Ok (RUnit (res_map (λ _, tt) r)), w')).
  { eapply as_unit_run; [done|]. destruct Hr as [[-> _]|[-> _]]; eauto. }
  destruct Hr as [(-> & Hfit & Hs)|(-> & Hfit & ->)].
  - assert (Habs : abs L' = <[key := val]> (abs L)).
    { rewrite (abs_gc _ _ _ Hs). by apply abs_put. }
    exists (RUnit (Ok tt)), w', f', (L1 ++ [mkE true key val]), L'. split_and!; try done.
    + eapply log_ext_trans; [exact Hext|]. apply log_ext_snoc; [done|].
      rewrite (retires_live key L L1 Hu Hne Hret). apply lookup_delete_eq.
    + rewrite zlen_log_snoc, Hz, cost_put. done.
    + rewrite Habs. apply spec_ok.
    + by rewrite Habs.
  - exists (RUnit (Err "oob")), w', f', L1, L1. split_and!; try done; [by constructor|..].
    + rewrite cost_put. pose proof (esize_bounds (mkE true key val)). lia.
    + rewrite (abs_retires key L L1) by done. by eapply spec_put_full.
    + intros Hroom. rewrite cost_put in Hroom. pose proof (esize_bounds (mkE true key val)).
      pose proof (zlen_nonneg (log_bytes L)). lia.
Qed.

Lemma step_delete w f L key :
  inv ∅ w f L → can_gc w f → cmd_okb (CDelete key) = true → stepped (CDelete key) w f L.
Proof.
  intros Hinv Hgc Hk. pose proof (key_okb_spec key [] Hk ltac:(done)) as [Hne He].
  destruct (delete_key_ok w f L key Hinv Hgc Hne He) as (r & w' & f' & L' & Hrun & Hev & Hr).
  pose proof (inv_uniq _ _ _ Hinv) as Hu. assert (Hc : cost (CDelete key) = esize (mkE true key [])) by done.
  pose proof (esize_bounds (mkE true key [])). pose proof (zlen_nonneg (log_bytes L)).
  assert (Hrun' : exec (CDelete key) w = (Ok (RUnit (res_map (λ _, tt) r)), w')).
  { eapply as_unit_run; [done|]. destruct Hr as [[-> _]|[-> _]]; eauto. }
  destruct Hr as [(-> & [Hret|[Hl Hs]])|(-> & -> & Hl & Hfull)].
  - exists (RUnit (Ok tt)), w', f', L', L'. rewrite (abs_retires key L L') by done.
    split_and!; try done; [by eapply log_ext_retires|by constructor| |apply spec_ok].
    rewrite (retires_size _ _ _ Hret). lia.
  - exists (RUnit (Ok tt)), w', f', (L ++ [mkE true key []]), L'.
    rewrite (abs_gc _ _ _ Hs), (abs_tombstone L key) by done.
    split_and!; try done; [by apply log_ext_snoc| |apply spec_ok]. by rewrite zlen_log_snoc, Hc.
  - exists (RUnit (Err "oob")), w', f', L, L. split_and!; try done; [constructor|by constructor|lia| |lia].
    eapply spec_delete_full; [done|]. by apply abs_None.
Qed.

Lemma step_batch w f L items :
  inv ∅ w f L → can_gc w f → cmd_okb (CBatch items) = true → stepped (CBatch items) w f L.
Proof.
  intros Hinv Hgc Hok. apply andb_true_iff in Hok as [Hit Hd%bool_decide_eq_true].
  assert (Hitems : Forall item_ok items).
  { apply Forall_forall. intros it Hin. apply item_okb_spec.
    by apply (proj1 (forallb_forall _ _) Hit), list_elem_of_In. }
  destruct (put_batch_ok items w f L Hinv Hgc Hitems Hd)
    as (r & w' & f' & L1 & L' & dn & rest & Hrun & Hev & Heq & Hext & Hs & Hz & Hm & Hr).
  assert (Hc : cost (CBatch items) = zlen (log_bytes (entry_of <$> items))) by apply cost_batch.
  assert (Hrun' : exec (CBatch items) w = (Ok (RUnit (res_map (λ _, tt) r)), w')).
  { eapply as_unit_run; [done|]. destruct Hr as [[-> _]|[-> _]]; eauto. }
  assert (Habs : abs L' = list_to_map dn ∪ filter (λ kv, kv.1 ∉ items.*1) (abs L)).
  { rewrite (abs_gc _ _ _ Hs). apply abs_batch; [|done].
    apply (Forall_app _ dn rest). by rewrite <-Heq. }
  assert (Hsz : zlen (log_bytes L1) ≤ zlen (log_bytes L) + cost (CBatch items)).
  { rewrite Hz, Hc, Heq, fmap_app, zlen_log_app. pose proof (zlen_nonneg (log_bytes (entry_of <$> rest))). lia. }
  destruct Hr as [[-> ->]|(-> & Hrest & Hfull)].
  - rewrite app_nil_r in Heq. subst dn.
    assert (Hun : abs L' = list_to_map items ∪ abs L) by (rewrite Habs; by apply union_filter).
    exists (RUnit (Ok tt)), w', f', L1, L'. split_and!; try done.
    + rewrite Hun. apply spec_ok.
    + by rewrite Hun.
  - exists (RUnit (Err "oob")), w', f', L1, L'. split_and!; try done.
    + rewrite Habs. by eapply spec_batch_full.
    + rewrite Hc. pose proof (zlen_nonneg (log_bytes L)).
      pose proof (zlen_nonneg (log_bytes (entry_of <$> items))). lia.
Qed.

Lemma step_get w f L key :
  inv ∅ w f L → cmd_okb (CGet key) = true → stepped (CGet key) w f L.
Proof.
  intros Hinv Hk. pose proof (key_okb_spec key [] Hk ltac:(done)) as [Hne _].
  assert (Hget : exec (CGet key) w = (Ok (lookup_reply (abs L) key), upd_kv kv_get w)).
  { unfold exec, lookup_reply, abs. rewrite lookup_delete_ne by done.
    pose proof (get_spec w f L key Hinv Hne ltac:(set_solver)) as Hg.
    destruct (log_map L !! key);
      [rewrite (M_bind_Ok _ _ _ _ _ (m_try_Ok _ _ _ _ Hg))|rewrite (M_bind_Ok _ _ _ _ _ (m_try_Err _ _ _ _ Hg))]; done. }
  exists (lookup_reply (abs L) key), (upd_kv kv_get w), f, L, L. split_and!; try done.
  - constructor; [by apply inv_kv_get|by constructor|done].
  - constructor.
  - by constructor.
  - cbn. lia.
  - apply (spec_ok (CGet key)).
Qed.

Lemma step_compact w f L : inv ∅ w f L → can_gc w f → stepped CCompact w f L.
Proof.
  intros Hinv [Hc Hmin Hmax].
  destruct (compact_ok 0 w f L Hinv Hc Hmin Hmax) as (r & w' & f' & L' & Hrun & Hev & Hr).
  assert (Hp : packed L (entry_of <$> live_items L (btree_iter (index (kv w))).*1))
    by (exists ∅, (index (kv w)); split; [apply Hinv|done]).
  assert (Hs : gc_step (zlen (contents f)) L L').
  { destruct Hr as [(_ & idx & Hi & ->)|(_ & -> & idx & Hi & Hlt)]; [by eapply gc_packed|by eapply gc_full]. }
  exists (RUnit (res_map (λ _, tt) r)), w', f', L, L'. split_and!; try done.
  - eapply as_unit_run; [exact Hrun|]. destruct Hr as [[-> _]|[-> _]]; eauto.
  - constructor.
  - cbn. lia.
  - rewrite (abs_gc _ _ _ Hs). destruct Hr as [[-> _]|[-> _]]; [apply (spec_ok CCompact)|by apply spec_compact_full].
  - intros Hroom. rewrite (abs_gc _ _ _ Hs). destruct Hr as [[-> _]|(_ & _ & idx & Hi & Hlt)]; [done|].
    pose proof (packed_size _ _ Hp). pose proof (ckpt_of_esize _ _ _ Hi). cbn in Hroom. lia.
Qed.

Lemma step_idle w f L : inv ∅ w f L → can_gc w f → stepped CIdle w f L.
Proof.
  intros Hinv Hgc. destruct (flush_moves w f L Hinv Hgc) as (b & w' & Hrun & (f' & L' & Hev & Hs)%gc_moves_empty).
  exists (RUnit (Ok tt)), w', f', L, L'. rewrite (abs_gc _ _ _ Hs). split_and!; try done.
  - exact (as_unit_run _ _ _ _ b "" Hrun (or_introl eq_refl)).
  - constructor.
  - cbn. lia.
  - apply (spec_ok CIdle).
Qed.

Lemma step_ok c w f L :
  inv ∅ w f L → can_gc w f → cmd_okb c = true → c ≠ CRemount → stepped c w f L.
Proof.
  destruct c; intros; auto using step_put, step_batch, step_delete, step_get, step_compact, step_idle; done.
Qed.

(** ** Traces *)

(** Any sequence, the volume full or not, without a power cycle. *)
Lemma run_spec cs w f L :
  inv ∅ w f L → can_gc w f → Forall (λ c, cmd_okb c = true ∧ c ≠ CRemount) cs →
  ∃ rs w' f' L', run cs w = (Ok rs, w') ∧ inv ∅ w' f' L' ∧ kv_trace cs (abs L) rs (abs L').
Proof.
  revert w f L. induction cs as [|c cs IH]; intros w f L Hinv Hgc Hcs.
  { exists [], w, f, L. split_and!; [done|done|constructor]. }
  apply Forall_cons in Hcs as [[Hok Hc] Hcs].
  destruct (step_ok c w f L Hinv Hgc Hok Hc) as (rep & w1 & f1 & L1 & L1' & Hrun & Hev & _ & _ & _ & Hspec & _).
  destruct (IH w1 f1 L1') as (rs & w' & f' & L' & Hrun' & Hinv' & Htr); [apply Hev|by eapply can_gc_evolves|done|].
  exists (rep :: rs), w', f', L'. split_and!; [|done|by econstructor].
  cbn [run]. rewrite (M_bind_Ok _ _ _ _ _ Hrun). by rewrite (M_bind_Ok _ _ _ _ _ Hrun').
Qed.

(** The invariant with which a power cycle is harmless. *)
Record good (w : World F) (f : F) (L : list entry) : Prop := mkGood {
  g_inv : inv ∅ w f L;
  g_gc : can_gc w f;
  g_ckpt : ckpt_ok L;
}.

Lemma remount_good w f L :
  flash w = Some f → holds (fl_ok := fl_ok) (contents := contents) f L → Forall entry_ok L → uniq L →
  ckpt_ok L → 512 ≤ zlen (contents f) → zlen (contents f) + 24 ≤ MAX_VLEN → clock_ok now_us →
  ∃ w', exec CRemount w = (Ok (RUnit (Ok tt)), w') ∧ good w' f L.
Proof.
  intros Hf Hh Hent Hu Hck Hmin Hmax Hclk.
  destruct (mount_ok now_us init_flash backend_of (set_installed true (restart w)) f L)
    as (w' & Hrun & Hinv & _ & Hc & _); [by left|done..|].
  exists w'. split; [|by constructor].
  unfold exec. erewrite M_bind_Ok by reflexivity. erewrite M_bind_Ok by reflexivity.
  exact (as_unit_run _ _ _ _ tt "" Hrun (or_introl eq_refl)).
Qed.

Lemma step_good c w f L :
  good w f L → clock_ok now_us → cmd_okb c = true → roomy c w = true →
  ∃ w' f' L', exec c w = (Ok (abs_exec c (abs L)).1, w') ∧ good w' f' L' ∧ abs L' = (abs_exec c (abs L)).2.
Proof.
  intros [Hinv Hgc Hck] Hclk Hok Hroom. unfold roomy in Hroom. rewrite (inv_flash _ _ _ Hinv) in Hroom.
  assert (Hfl : fl_ok f) by apply (inv_holds _ _ _ Hinv).
  rewrite (inv_append _ _ _ Hinv), (fl_size_contents (contents := contents) f Hfl) in Hroom.
  apply Z.leb_le in Hroom. destruct (decide (c = CRemount)) as [->|Hc].
  - destruct (remount_good w f L) as (w' & Hrun & Hg); try apply Hinv; try apply Hgc; try done.
    exists w', f, L. done.
  - assert (Hs : stepped c w f L) by (by apply step_ok).
    destruct Hs as (rep & w' & f' & L1 & L' & Hrun & Hev & Hext & Hs & Hz & _ & Hdet).
    specialize (Hdet Hroom). rewrite <-Hdet. exists w', f', L'. split_and!; [done| |done].
    constructor; [apply Hev|by eapply can_gc_evolves|].
    eapply ckpt_ok_gc; [|exact Hs|]; [lia|]. eapply ckpt_ok_ext; [apply Hinv|done|done].
Qed.

Lemma run_good cs w f L :
  good w f L → clock_ok now_us → trace_okb cs w = true →
  ∃ w' f' L', run cs w = (Ok (abs_run cs (abs L)).1, w') ∧ good w' f' L' ∧ abs L' = (abs_run cs (abs L)).2.
Proof.
  intros Hg Hclk. revert w f L Hg. induction cs as [|c cs IH]; intros w f L Hg Htr.
  { exists w, f, L. done. }
  cbn [trace_okb] in Htr. apply andb_true_iff in Htr as [[Hok Hroom]%andb_true_iff Htr].
  destruct (step_good c w f L Hg Hclk Hok Hroom) as (w1 & f1 & L1 & Hrun & Hg1 & Ha1).
  rewrite Hrun in Htr. destruct (IH w1 f1 L1 Hg1 Htr) as (w' & f' & L' & Hrun' & Hg' & Ha').
  exists w', f', L'. cbn [run abs_run]. rewrite (M_bind_Ok _ _ _ _ _ Hrun), (M_bind_Ok _ _ _ _ _ Hrun').
  rewrite Ha1 in Ha' |- *. destruct (abs_exec c (abs L)) as [r m]. cbn [fst snd] in *.
  destruct (abs_run cs m) as [rs m']. done.
Qed.

(** A store that has never been opened on [f]. *)
Definition fresh (f : F) : World F := mkWorld new false (Some f) false false 0 0 0.
End Run.
