(* ===== verification/TickvThm.v ===== *)
(** The theorems about TickvLite: it is a map across compaction and remount, what
    is left when the volume is full, the recursion guard of compaction, the scan,
    corruption, and three defects. *)

From S2P Require Import Prelude Checksum Flash Tickv TickvLog TickvSpec TickvGc TickvOps TickvMount TickvRefine.
Import Crc32 Fnv.

(** * The recursion guard *)

Section Guard.
Context {F : Type} `{FlashController F}.

(** [m] leaves the [COMPACTING] flag as it finds it. *)
Definition keeps_flag {A} (m : M (World F) A) : Prop := ∀ w, COMPACTING (m w).2 = COMPACTING w.

Lemma keeps_bind {A B} (m : M (World F) A) (k : A → M (World F) B) :
  keeps_flag m → (∀ a, keeps_flag (k a)) → keeps_flag (m ≫= k).
Proof.
  intros Hm Hk w. unfold mbind, M_bind. specialize (Hm w). destruct (m w) as [[] w']; cbn in *; try done.
  by rewrite Hk.
Qed.

Lemma keeps_try {A} (m : M (World F) A) : keeps_flag m → keeps_flag (m_try m).
Proof. intros Hm w. unfold m_try. specialize (Hm w). by destruct (m w) as [[] w']. Qed.

Lemma keeps_ret {A} (a : A) : keeps_flag (mret a : M (World F) A).
Proof. done. Qed.

Lemma keeps_lift {A} (r : res A) : keeps_flag (m_lift r : M (World F) A).
Proof. done. Qed.

Lemma keeps_get_kv : keeps_flag (get_kv : M (World F) _).
Proof. done. Qed.

Lemma keeps_modify_kv g : keeps_flag (modify_kv g : M (World F) _).
Proof. done. Qed.

Lemma keeps_flash_write o d : keeps_flag (flash_write o d : M (World F) _).
Proof. intros w. unfold flash_write. destruct (flash w); [|done]. by destruct (fl_write _ _ _). Qed.

#[local] Hint Resolve keeps_bind keeps_try keeps_ret keeps_lift keeps_get_kv keeps_modify_kv keeps_flash_write : core.

Lemma keeps_put_raw key val : keeps_flag (put_raw key val : M (World F) _).
Proof.
  unfold put_raw. apply keeps_bind; [done|]. intros k. apply keeps_bind; [apply keeps_flash_write|]. intros _.
  apply keeps_bind; [by destruct (index k !! key)|]. intros _. repeat (apply keeps_bind; [done|]; intros _).
  by case_bool_decide.
Qed.

Lemma keeps_retire_old key : keeps_flag (retire_old key : M (World F) _).
Proof.
  unfold retire_old. apply keeps_bind; [done|]. intros k. destruct (_ && _); [|done].
  apply keeps_bind; [apply keeps_try|done]. unfold invalidate_key. apply keeps_bind; [done|]. intros k'.
  destruct (negb (ready k')); [done|]. apply keeps_bind; [done|]. intros off.
  apply keeps_bind; [apply keeps_flash_write|done].
Qed.

Lemma keeps_for_each {A} (g : A → M (World F) unit) l :
  (∀ a, keeps_flag (g a)) → keeps_flag (for_each g l).
Proof. intros Hg. induction l as [|a l IH]; [done|]. by apply keeps_bind. Qed.

(** Two continuations that agree where the flag is still up. *)
Lemma bind_under_flag {A B} (m : M (World F) A) (k k' : A → M (World F) B) w :
  keeps_flag m → COMPACTING w = true → (∀ a w', COMPACTING w' = true → k a w' = k' a w') →
  (m ≫= k) w = (m ≫= k') w.
Proof.
  intros Hm Hw Hk. specialize (Hm w). unfold mbind, M_bind. destruct (m w) as [[] w']; try done.
  apply Hk. by rewrite <-Hw, <-Hm.
Qed.

(** With the flag up, a batch never calls the [compact] it was given. *)
Lemma put_batch_guarded c c' items w :
  COMPACTING w = true → put_batch_with c items w = put_batch_with c' items w.
Proof.
  intros Hw. unfold put_batch_with. apply bind_under_flag; [done|done|]. intros k w1 Hw1.
  destruct (negb (ready k)); [done|].
  apply bind_under_flag; [by apply keeps_for_each; intros; apply keeps_retire_old|done|]. intros _ w2 Hw2.
  apply bind_under_flag; [by apply keeps_for_each; intros; apply keeps_put_raw|done|]. intros _ w3 Hw3.
  destruct (existsb _ items); [|done]. unfold maybe_high_water_flush_with, maybe_gc_with, m_try, mbind, M_bind, m_get.
  destruct (_ || _); [done|]. by rewrite Hw3, Hw3.
Qed.

Lemma bind_ext {A B} (m : M (World F) A) (k k' : A → M (World F) B) w :
  (∀ a w', k a w' = k' a w') → (m ≫= k) w = (m ≫= k') w.
Proof. intros Hk. unfold mbind, M_bind. destruct (m w) as [[] w']; [apply Hk|done..]. Qed.

(** However many levels of nesting [op] is allowed, it behaves as [flat]. *)
Definition never_nests (op : nat → M (World F) unit) (flat : M (World F) unit) : Prop :=
  ∀ d w, op (S d) w = flat w.

(** The [COMPACTING] guard makes [compact] non-recursive. Whatever the flash
    does, the batch that rewrites the live set never compacts again: any number
    of allowed nested compactions gives the run with none. *)
Theorem compact_not_reentrant : never_nests compact_n compact.
Proof.
  intros d w. unfold compact. cbn [compact_n]. apply bind_ext. intros k w0. destruct (negb (ready k)); [done|].
  apply bind_ext. intros live w1. apply bind_ext. intros k1 w2.
  apply bind_ext. intros _ w3. apply bind_ext. intros _ w4. cbv [mbind M_bind m_modify m_try].
  by rewrite (put_batch_guarded (compact_n d) (compact_n 0)).
Qed.
End Guard.

(** * The store is a map *)

(** A blank volume with room for a checkpoint, no larger than a record can describe. *)
Definition volume_ok (v : bytes) : Prop := blank v ∧ 580 ≤ zlen v ∧ zlen v + 24 ≤ MAX_VLEN.

Section Map.
Context {F : Type} `{FlashLaws F fl_ok contents}.
Context (now_us : nat → Z) (init_flash : F * string) (backend_of : F → string).

Lemma fresh_good f :
  fl_ok f → blank (contents f) → 580 ≤ zlen (contents f) → zlen (contents f) + 24 ≤ MAX_VLEN →
  clock_ok now_us →
  ∃ w', exec now_us init_flash backend_of CRemount (fresh f) = (Ok (RUnit (Ok tt)), w') ∧
    good (fl_ok := fl_ok) (contents := contents) w' f [].
Proof.
  intros Hok Hb Hmin Hmax Hclk. unfold MAX_VLEN in *.
  apply (remount_good now_us init_flash backend_of (fresh f) f []); try done; try lia.
  - split_and!; [done|lia|]. by exists (contents f).
  - apply ckpt_ok_nil.
Qed.

(** C1: refinement. On a blank volume of 580 bytes to 2 MiB less 24 whose mount scans meet
    their deadline ([clock_ok]), TickvLite behaves exactly as a finite map under every
    sequence of [put], [put_batch], [delete_key], [get], [compact], idle flushes and power
    cycles followed by [mount] in which, at every step, the command is allowed ([cmd_okb]:
    the keys are UTF-8, not longer than a record can hold and not the reserved one of the
    checkpoint, the values are neither empty nor too long, and the keys of a batch are
    distinct) and leaves half of the volume free ([roomy]): every reply is the one the map
    gives, and nothing panics, fails or runs out of fuel. A batch with a repeated key is no
    map update ([batch_duplicate_resurrects]). *)
Theorem store_is_a_map f cs :
  fl_ok f → volume_ok (contents f) →
  clock_ok now_us → trace_okb now_us init_flash backend_of (CRemount :: cs) (fresh f) = true →
  ∃ w', run now_us init_flash backend_of (CRemount :: cs) (fresh f)
        = (Ok (abs_run (CRemount :: cs) ∅).1, w').
Proof.
  intros Hok (Hb & Hmin & Hmax) Hclk Htr. destruct (fresh_good f Hok Hb Hmin Hmax Hclk) as (w1 & Hrun & Hg).
  cbn [trace_okb] in Htr. rewrite Hrun in Htr. apply andb_true_iff in Htr as [_ Htr].
  destruct (run_good now_us init_flash backend_of cs w1 f [] Hg Hclk Htr) as (w' & f' & L' & Hrun' & _).
  exists w'. cbn [run]. rewrite (M_bind_Ok _ _ _ _ _ Hrun), (M_bind_Ok _ _ _ _ _ Hrun').
  cbn [abs_run abs_exec]. change (abs []) with (∅ : gmap string bytes).
  by destruct (abs_run cs ∅).
Qed.

(** C5: refinement without any assumption on free space. After the first [mount] of a blank
    volume as in the claim above, every sequence of allowed commands ([cmd_okb]) without a
    power cycle is a trace of the map in which a write may instead report [oob]: a failed
    [put] has deleted its key, a failed batch all of its keys but a stored prefix, a failed
    delete or compaction nothing. *)
Theorem store_full_spec f cs :
  fl_ok f → volume_ok (contents f) →
  clock_ok now_us → Forall (λ c, cmd_okb c = true ∧ c ≠ CRemount) cs →
  ∃ rs w' m', run now_us init_flash backend_of (CRemount :: cs) (fresh f) = (Ok rs, w') ∧
    kv_trace (CRemount :: cs) ∅ rs m'.
Proof.
  intros Hok (Hb & Hmin & Hmax) Hclk Hcs. destruct (fresh_good f Hok Hb Hmin Hmax Hclk) as (w1 & Hrun & [Hinv Hgc _]).
  destruct (run_spec now_us init_flash backend_of cs w1 f [] Hinv Hgc Hcs) as (rs & w' & f' & L' & Hrun' & _ & Htr).
  exists (RUnit (Ok tt) :: rs), w', (abs L'). split.
  - cbn [run]. by rewrite (M_bind_Ok _ _ _ _ _ Hrun), (M_bind_Ok _ _ _ _ _ Hrun').
  - eapply trace_cons; [apply (spec_ok CRemount)|exact Htr].
Qed.
End Map.

(** ** On the RAM backend *)

Definition ram_init : Ram.RamFlash * string := (Ram.mkRam (zeros 8192), "ram").
Definition ram_backend (_ : Ram.RamFlash) : string := "ram".
Definition no_clock (_ : nat) : Z := 0.

Definition demo : list cmd :=
  [CPut "agent/a" (as_bytes "one"); CPut "agent/b" (as_bytes "two"); CPut "agent/a" (as_bytes "three");
   CGet "agent/a"; CDelete "agent/b"; CGet "agent/b"; CBatch [("k1", as_bytes "x"); ("k2", as_bytes "y")];
   CCompact; CRemount; CGet "agent/a"; CGet "k2"; CIdle; CDelete "none"; CGet "none"].

Lemma no_clock_ok : clock_ok no_clock.
Proof. intros i. by left. Qed.

Lemma store_is_a_map_witness :
  ∃ w', run no_clock ram_init ram_backend (CRemount :: demo) (fresh ram_init.1)
        = (Ok (abs_run (CRemount :: demo) ∅).1, w').
Proof.
  apply (store_is_a_map (contents := Ram.data) no_clock ram_init ram_backend ram_init.1 demo).
  - by vm_compute.
  - split_and!; by vm_compute.
  - apply no_clock_ok.
  - by vm_compute.
Defined.

Lemma store_full_spec_witness :
  ∃ rs w' m', run no_clock ram_init ram_backend [CRemount; CPut "a" (as_bytes "v"); CGet "a"] (fresh ram_init.1)
    = (Ok rs, w') ∧ kv_trace [CRemount; CPut "a" (as_bytes "v"); CGet "a"] ∅ rs m'.
Proof.
  apply (store_full_spec (contents := Ram.data) no_clock ram_init ram_backend ram_init.1
           [CPut "a" (as_bytes "v"); CGet "a"]).
  - by vm_compute.
  - split_and!; by vm_compute.
  - apply no_clock_ok.
  - repeat constructor; (by vm_compute || done).
Defined.

(** * Defects

    Concrete runs on small volumes, by evaluation. *)

Definition file_backend (_ : Ram.RamFlash) : string := "file".

(** A defect. [compact] copies the old checkpoint record into the new log. When
    the new checkpoint does not fit ([oob]), the next mount trusts the old one,
    whose offsets describe the log before the compaction, and [get], which never
    compares the key of the record it reads, returns another key's value. *)
Theorem stale_ckpt_returns_wrong_value :
  (run no_clock ram_init file_backend
     [CRemount; CPut "b" (as_bytes "bee"); CPut "a" (as_bytes "ant"); CIdle; CGet "a"; CCompact; CGet "a";
      CRemount; CGet "a"] (fresh (Ram.mkRam (zeros 1536)))).1
  = Ok [RUnit (Ok tt); RUnit (Ok tt); RUnit (Ok tt); RUnit (Ok tt); RVal (Ok (as_bytes "ant"));
        RUnit (Err "oob"); RVal (Ok (as_bytes "ant")); RUnit (Ok tt); RVal (Ok (as_bytes "bee"))].
Proof. vm_compute. reflexivity. Qed.

(** A defect. [put] invalidates the key's old record before it knows that the
    new one fits, so a [put] that reports [oob] has lost the old value as well. *)
Theorem failed_put_loses_old_value :
  (run no_clock ram_init ram_backend
     [CRemount; CPut "k" (as_bytes "old"); CGet "k"; CPut "k" (as_bytes "new"); CGet "k"]
     (fresh (Ram.mkRam (zeros 900)))).1
  = Ok [RUnit (Ok tt); RUnit (Ok tt); RVal (Ok (as_bytes "old")); RUnit (Err "oob"); RVal (Err "missing")].
Proof. vm_compute. reflexivity. Qed.

(** A defect. A batch that names a key twice leaves two valid records of it;
    [delete_key] invalidates only the indexed one, and the other comes back at the
    next mount. *)
Theorem batch_duplicate_resurrects :
  (run no_clock ram_init ram_backend
     [CRemount; CBatch [("k", as_bytes "one"); ("k", as_bytes "two")]; CGet "k"; CDelete "k"; CGet "k";
      CRemount; CGet "k"] (fresh ram_init.1)).1
  = Ok [RUnit (Ok tt); RUnit (Ok tt); RVal (Ok (as_bytes "two")); RUnit (Ok tt); RVal (Err "missing");
        RUnit (Ok tt); RVal (Ok (as_bytes "one"))].
Proof. vm_compute. reflexivity. Qed.

(** * NVMe *)

Section NvmeMount.
Context {D : Type} `{BlockDevice D}.
Context (now_us : nat → Z) (init_flash : Active.ActiveFlash D * string)
  (backend_of : Active.ActiveFlash D → string).

Lemma nvme_header_unaligned r (w : World (Active.ActiveFlash D)) :
  flash w = Some (Active.ANvme r) → flash_read 0 HEADER w = (Err "unaligned", w).
Proof. intros Hf. unfold flash_read. by rewrite Hf. Qed.

Lemma nvme_size_ok total : 1 ≤ total < 2 ^ 54 → (u64_sat_mul total 512 <? u64_add 0 HEADER) = false.
Proof.
  intros Ht. apply Z.ltb_ge. unfold u64_sat_mul, U64_MAX. rewrite u64_add_small by done.
  unfold HEADER. lia.
Qed.

(** A region of at least one sector, within the 64-bit range. *)
Definition region_ok (r : Nvme.NvmeFlashRegion D) : Prop := 1 ≤ Nvme.total_lbas r < 2 ^ 54.

(** A defect. On the NVMe backend TickvLite can never mount: the region refuses
    reads that are not whole sectors, and both mount paths start by reading a
    16-byte header, so [mount] fails with ["unaligned"] whatever is on the disk. *)
Theorem nvme_never_mounts r :
  region_ok r → clock_ok now_us →
  (mount now_us init_flash backend_of (fresh (Active.ANvme r))).1 = Err "unaligned".
Proof.
  intros Ht Hclk. unfold region_ok in Ht. unfold mount. erewrite M_bind_Ok by reflexivity. cbv beta. cbn [flash fresh].
  erewrite M_bind_Ok by reflexivity. cbv beta. set (w1 := upd_kv _ _).
  destruct (clock_ok_deadline now_us w1 Hclk) as (d & w2 & Hdl & Hd & ->).
  rewrite (M_bind_Ok _ _ _ _ _ Hdl). erewrite M_bind_Ok by reflexivity. cbv beta.
  set (w2 := upd_kv _ (tick_clock w1)).
  assert (Hex : ∀ w : World (Active.ActiveFlash D), ∃ c, mount_scan_expired now_us d w = (Ok false, at_kv w (kv w) c))
    by (intros w; by apply expired_false).
  assert (Hfuel : ∃ n, scan_fuel (u64_sat_mul (Nvme.total_lbas r) 512) = S n).
  { unfold scan_fuel. rewrite Nat.add_comm. by eexists. }
  destruct Hfuel as [n Hfuel].
  assert (Htry : ∃ w3, try_mount_from_ckpt now_us d w2 = (Err "unaligned", w3) ∧
                       flash w3 = Some (Active.ANvme r)).
  { unfold try_mount_from_ckpt. set (w3 := upd_kv (λ k, set_append_off 0 (set_index ∅ k)) w2).
    destruct (Hex w3) as [c Hc]. eexists. split.
    - erewrite M_bind_Ok by reflexivity. cbv beta. erewrite M_bind_Ok by reflexivity. cbv beta.
      cbn [fl_size_bytes Active.active_controller Active.size_bytes]. unfold Nvme.size_bytes. rewrite Hfuel.
      cbn [ckpt_scan]. rewrite nvme_size_ok by done. apply M_bind_Err.
      erewrite M_bind_Ok by exact Hc. cbv beta iota. apply M_bind_Err. by apply (nvme_header_unaligned r).
    - done. }
  destruct Htry as (w3 & Htry & Hf3). rewrite (M_bind_Ok _ _ _ _ _ (m_try_Err _ _ _ _ Htry)). cbn [is_ok].
  assert (Hrec : ∃ w4, recover now_us d w3 = (Err "unaligned", w4)).
  { destruct (Hex (upd_kv reset_log w3)) as [c Hc]. eexists. unfold recover, scan_range.
    erewrite M_bind_Ok by reflexivity. cbv beta.
    erewrite M_bind_Ok by (unfold flash_size; cbn; rewrite Hf3; reflexivity). cbv beta.
    cbn [fl_size_bytes Active.active_controller Active.size_bytes]. unfold Nvme.size_bytes. rewrite Hfuel.
    cbn [scan_range_loop]. rewrite nvme_size_ok by done. apply M_bind_Err.
    erewrite M_bind_Ok by exact Hc. cbv beta iota. apply M_bind_Err. by apply (nvme_header_unaligned r). }
  destruct Hrec as [w4 Hrec]. by rewrite (M_bind_Err _ _ _ _ _ Hrec).
Qed.
End NvmeMount.

(** A disk that reads zeros: enough to instantiate the interface. *)
#[local] Instance zero_disk : BlockDevice unit := {
  bd_read := λ _ _ n, Some (zeros n); bd_write := λ d _ _, (true, d); bd_total_sectors := λ _, 100000;
}.

Lemma nvme_never_mounts_witness :
  (mount no_clock (Active.ANvme (Nvme.default_region (Some tt)), "nvme") (λ _, "nvme")
     (fresh (Active.ANvme (Nvme.default_region (Some tt))))).1 = Err "unaligned".
Proof.
  apply (nvme_never_mounts no_clock (Active.ANvme (Nvme.default_region (Some tt)), "nvme") (λ _, "nvme")
           (Nvme.default_region (Some tt))).
  - by vm_compute.
  - apply no_clock_ok.
Defined.

(** * Corruption *)

Section Corrupt.
Context {F : Type} `{FlashLaws F fl_ok contents}.

Lemma splice_byte (i : Z) (b a : Byte.byte) (l : bytes) :
  0 ≤ i → l !! Z.to_nat i = Some a →
  ∃ pre post, l = pre ++ a :: post ∧ splice i [b] l = pre ++ b :: post.
Proof.
  intros Hi Ha. exists (take (Z.to_nat i) l), (drop (S (Z.to_nat i)) l).
  split; [by rewrite take_drop_middle|]. unfold splice. simpl.
  by replace (Z.to_nat i + 1)%nat with (S (Z.to_nat i)) by lia.
Qed.

Lemma slice_splice_inside (o n p : Z) (d l : bytes) :
  0 ≤ o → 0 ≤ p → p + zlen d ≤ n → o + n ≤ zlen l →
  slice o n (splice (o + p) d l) = splice p d (slice o n l).
Proof.
  intros Ho Hp Hn Hl. pose proof (zlen_nonneg d). apply list_eq. intros j.
  rewrite lookup_slice, lookup_splice by lia. rewrite lookup_splice by (rewrite zlen_slice; lia).
  rewrite lookup_slice. unfold zlen in *. repeat case_decide; try lia; try done. f_equal. lia.
Qed.

(** The two reads of [get] on a record whose body has been replaced. *)
Lemma get_record_with (w : World F) f key val off body :
  flash w = Some f → fl_ok f → zlen (contents f) < 2 ^ 62 → ready (kv w) = true →
  index (kv w) !! key = Some off → 0 ≤ off → zlen (as_bytes key) ≤ MAX_KLEN → zlen val ≤ MAX_VLEN →
  off + record_size (zlen (as_bytes key)) (zlen val) ≤ zlen (contents f) →
  slice off HEADER (contents f) = header Byte.x56 (as_bytes key) val →
  slice (off + HEADER) (zlen (as_bytes key) + zlen val) (contents f) = body →
  (get key w).1 = if crc32 body =? crc32 (as_bytes key ++ val)
                  then Ok (slice (zlen (as_bytes key)) (zlen val) body) else Err "corrupt".
Proof.
  intros Hf Hok Hs Hr Hi Ho Hk Hv Hb Hhd Hbody.
  pose proof (esize_body (mkE true key val)) as Hsz. unfold esize in Hsz. cbn [e_key e_val] in Hsz.
  pose proof (zlen_nonneg (as_bytes key)). pose proof (zlen_nonneg val). assert (HEADER = 16) as EH by done.
  unfold get. erewrite M_bind_Ok by reflexivity. cbv beta. rewrite Hr. cbn [negb].
  erewrite M_bind_Ok by reflexivity. cbv beta. erewrite M_bind_Ok by (rewrite Hi; reflexivity). cbv beta.
  erewrite M_bind_Ok by (apply (flash_read_in (contents := contents) _ f); (exact Hf || done || lia)).
  cbv beta. rewrite Hhd, header_valid, header_klen, header_vlen, header_crc by done. cbn [negb].
  rewrite u64_add_small by lia.
  erewrite M_bind_Ok by (apply (flash_read_in (contents := contents) _ f); (exact Hf || done || lia)).
  cbv beta. rewrite Hbody. by destruct (_ =? _).
Qed.

(** The record of [key] at [off] reads as it was written, save byte [i] of its key
    and value, which is now [b]. *)
Definition damaged (v : bytes) (off : Z) (key : string) (val : bytes) (i : Z) (b : Byte.byte) : Prop :=
  slice off (record_size (zlen (as_bytes key)) (zlen val)) v
  = splice (HEADER + i) [b] (encode_record (as_bytes key) val) ∧
  0 ≤ i < zlen (as_bytes key) + zlen val ∧ (as_bytes key ++ val) !! Z.to_nat i ≠ Some b.

(** C7: error detection. If one byte of the key or value of a stored record is
    changed on the medium, [get] reports ["corrupt"]: it never returns altered
    data, whichever byte it is and whatever it became. *)
Theorem get_detects_corruption (w : World F) f key val off i b :
  flash w = Some f → fl_ok f → zlen (contents f) < 2 ^ 62 → ready (kv w) = true →
  index (kv w) !! key = Some off → 0 ≤ off → zlen (as_bytes key) ≤ MAX_KLEN → zlen val ≤ MAX_VLEN →
  off + record_size (zlen (as_bytes key)) (zlen val) ≤ zlen (contents f) →
  damaged (contents f) off key val i b →
  (get key w).1 = Err "corrupt".
Proof.
  intros Hf Hok Hs Hr Hi Ho Hk Hv Hb (Hrec & Hin & Hne). set (n := record_size _ _) in *.
  pose proof (esize_body (mkE true key val)) as Hsz. unfold esize in Hsz. cbn [e_key e_val] in Hsz. fold n in Hsz.
  pose proof (zlen_nonneg (as_bytes key)). pose proof (zlen_nonneg val). assert (HEADER = 16) as EH by done.
  rewrite encode_record_eq in Hrec. set (e := mkE true key val).
  assert (Henc : zlen (record Byte.x56 (as_bytes key) val) = n) by apply zlen_record.
  destruct (lookup_lt_is_Some_2 (as_bytes key ++ val) (Z.to_nat i)) as [a Ha].
  { rewrite length_app. unfold zlen in *. lia. }
  destruct (splice_byte i b a (as_bytes key ++ val) ltac:(lia) Ha) as (pre & post & E1 & E2).
  assert (Hbody : slice (off + HEADER) (zlen (as_bytes key) + zlen val) (contents f)
                  = splice i [b] (as_bytes key ++ val)).
  { rewrite <-(slice_slice off n) by lia. rewrite Hrec, slice_splice_inside
      by (change (zlen [b]) with 1; lia). f_equal.
    pose proof (enc_body e [] _ eq_refl) as Hx. rewrite app_nil_r in Hx. exact Hx. }
  rewrite (get_record_with w f key val off _ Hf Hok Hs Hr Hi Ho Hk Hv Hb) with (2 := Hbody).
  - rewrite E2, (proj2 (Z.eqb_neq _ _)); [done|]. rewrite E1. apply crc32_one_byte. congruence.
  - rewrite <-(Z.add_0_r off), <-(slice_slice off n 0) by lia. rewrite Hrec, slice_splice_before by lia.
    pose proof (enc_header e []) as Hx. rewrite app_nil_r in Hx. exact Hx.
Qed.
End Corrupt.

Definition corrupt_ram : Ram.RamFlash :=
  Ram.mkRam (splice 17 [Byte.x00] (encode_record (as_bytes "k") (as_bytes "val")) ++ zeros 512).

Definition corrupt_world : World Ram.RamFlash :=
  upd_kv (λ k, set_ready true (set_index {["k" := 0]} k)) (fresh corrupt_ram).

Lemma get_detects_corruption_witness : (get "k" corrupt_world).1 = Err "corrupt".
Proof.
  apply (get_detects_corruption (contents := Ram.data) corrupt_world corrupt_ram "k" (as_bytes "val") 0 1 Byte.x00);
    try done; try (by vm_compute).
Defined.
