(* ===== verification/TickvScan.v ===== *)
(** The in-memory volume scan ([scan_volume] of [tickv.rs]): it terminates on every
    byte string, and on a log it finds the map the store itself denotes. *)

From S2P Require Import Prelude Checksum Flash Tickv TickvLog TickvMount TickvRefine.
Import Crc32.

(** * Termination *)

(** Sizes and offsets stay clear of the end of the 64-bit range. *)
Definition addressable (volume : bytes) : Prop := zlen volume < 2 ^ 62.

(** The scan is at a sector boundary, not far past the end, with turns to spare. *)
Definition scan_at (size off : Z) (fuel : nat) : Prop :=
  0 ≤ off ≤ size + 496 ∧ off mod 512 = 0 ∧ size / 512 - off / 512 + 1 < Z.of_nat fuel.

Lemma scan_at_next size off off' fuel :
  scan_at size off (S fuel) → off < off' ≤ size + 496 → off' mod 512 = 0 → scan_at size off' fuel.
Proof.
  intros (Ho & Hm & Hf) Ho' Hm'. split_and!; [lia..|done|].
  pose proof (Z.div_mod off 512). pose proof (Z.div_mod off' 512). lia.
Qed.

(** Skipping to the next sector, and past a record. *)
Lemma scan_at_align size off fuel :
  size < 2 ^ 62 → scan_at size off (S fuel) → off + 16 ≤ size → scan_at size (align_next off) fuel.
Proof.
  intros Hsz Hat Hb. pose proof Hat as (Ho & _). pose proof (align_next_spec off ltac:(lia) ltac:(lia)).
  eapply scan_at_next; [done|lia|]. apply (mask_down_mod 9). lia.
Qed.

Lemma scan_at_record size off fuel klen vlen :
  size < 2 ^ 62 → scan_at size off (S fuel) → 0 ≤ klen ≤ MAX_KLEN → 0 ≤ vlen ≤ MAX_VLEN →
  u64_add off (record_size klen vlen) ≤ size → scan_at size (u64_add off (record_size klen vlen)) fuel.
Proof.
  intros Hsz Hat Hk Hv. unfold MAX_KLEN, MAX_VLEN in *. pose proof Hat as (Ho & Hm & _).
  destruct (record_size_bounds klen vlen) as (_ & Hr & Hrm); [lia..|]. rewrite u64_add_small by lia.
  intros Hb. eapply scan_at_next; [done|lia|]. by rewrite Z.add_mod, Hm, Hrm.
Qed.

Lemma hdr_klen_nonneg hdr : zlen hdr = 16 → 0 ≤ hdr_klen hdr ∧ 0 ≤ hdr_vlen hdr.
Proof.
  intros Hz. unfold hdr_klen, hdr_vlen.
  assert (zlen (slice 4 4 hdr) = 4 ∧ zlen (slice 8 4 hdr) = 4) as [H4 H8] by (rewrite !zlen_slice; lia).
  pose proof (from_le_bytes_bound (slice 4 4 hdr) 4). pose proof (from_le_bytes_bound (slice 8 4 hdr) 4).
  unfold zlen in *. lia.
Qed.

Lemma scan_volume_loop_total fuel data off o :
  zlen data < 2 ^ 62 → scan_at (zlen data) off fuel → is_Some (scan_volume_loop fuel data off o).
Proof.
  intros Hsz. revert off o. induction fuel as [|fuel IH]; intros off o Hat.
  { destruct Hat as (Ho & Hm & Hf). pose proof (Z.div_mod off 512). pose proof (Z.div_mod (zlen data) 512).
    pose proof (Z.mod_pos_bound (zlen data) 512). lia. }
  assert (Ho : 0 ≤ off ≤ zlen data + 496) by apply Hat. cbn [scan_volume_loop]. unfold HEADER.
  rewrite u64_add_small by lia. destruct (Z.ltb_spec (zlen data) (off + 16)) as [|Hb]; [done|].
  set (hdr := slice off 16 data). destruct (hdr_klen_nonneg hdr) as [Hk Hv].
  { unfold hdr. rewrite zlen_slice; lia. }
  assert (Halign : ∀ o', is_Some (scan_volume_loop fuel data (align_next off) o'))
    by (intros o'; by apply IH, scan_at_align).
  destruct (negb (hdr_tickv_shaped hdr)); [by destruct (hdr_blank hdr)|].
  destruct (_ || _) eqn:Hlim; [done|]. apply orb_false_iff in Hlim as [Hk'%Z.ltb_ge Hv'%Z.ltb_ge].
  destruct (Z.ltb_spec (zlen data) (u64_add off (record_size (hdr_klen hdr) (hdr_vlen hdr)))) as [|Hr]; [done|].
  assert (Hrec : ∀ o', is_Some (scan_volume_loop fuel data (u64_add off (record_size (hdr_klen hdr) (hdr_vlen hdr))) o'))
    by (intros o'; by apply IH, scan_at_record).
  case_bool_decide; [done|]. by destruct (negb _).
Qed.

(** Termination. [scan_volume] returns on every byte string that fits in memory:
    the loop moves to a later sector boundary at every turn, whatever the lengths
    in the headers claim. *)
Theorem scan_volume_total data : addressable data → is_Some (scan_volume data).
Proof.
  intros Hsz. unfold addressable in Hsz. unfold scan_volume.
  destruct (scan_volume_loop_total (scan_fuel (zlen data)) data 0 scan_default) as [[[o off] eof] ->]; [done| |done].
  pose proof (zlen_nonneg data). split_and!; [lia|lia|done|]. unfold scan_fuel. rewrite Z.div_0_l by done.
  pose proof (Z.div_pos (zlen data) 512). lia.
Qed.

Lemma scan_volume_total_witness : is_Some (scan_volume (as_bytes "TKLV" ++ replicate 600 Byte.xfe)).
Proof. apply scan_volume_total. by vm_compute. Defined.

(** * Rescanning an arbitrary volume *)

Section Recover.
Context {F : Type} `{FlashLaws F fl_ok contents}.
Context (now_us : nat → Z).

Lemma scan_at_oversized size off fuel klen vlen :
  size < 2 ^ 62 → scan_at size off (S fuel) → off + 16 ≤ size → 0 ≤ klen → 0 ≤ vlen →
  scan_at size (advance_oversized off klen vlen size) fuel.
Proof.
  intros Hsz Hat Hb Hk Hv. unfold advance_oversized, rec_total. pose proof Hat as (Ho & Hm & _).
  destruct (record_size_bounds klen vlen) as (_ & Hr & Hrm); [lia..|].
  destruct (_ && _) eqn:E; [|by apply scan_at_align].
  apply andb_true_iff in E as [_ E%Z.leb_le]. unfold u64_sat_add, U64_MAX in E.
  rewrite u64_add_small by lia. eapply scan_at_next; [done|lia|]. by rewrite Z.add_mod, Hm, Hrm.
Qed.

Lemma expired_run (w : World F) deadline :
  ∃ b c, mount_scan_expired now_us deadline w = (Ok b, at_kv w (kv w) c).
Proof.
  unfold mount_scan_expired. destruct (deadline =? U64_MAX).
  - exists false, (clock w). by rewrite <-at_kv_self.
  - by eexists _, (S (clock w)).
Qed.

Lemma scan_range_loop_total fuel (w : World F) f off deadline :
  flash w = Some f → fl_ok f → zlen (contents f) < 2 ^ 62 → scan_at (zlen (contents f)) off fuel →
  ∃ off' w', scan_range_loop now_us fuel (zlen (contents f)) deadline off w = (Ok off', w').
Proof.
  intros Hf0 Hok Hsz. revert w off Hf0. induction fuel as [|fuel IH]; intros w off Hf Hat.
  { destruct Hat as (Ho & Hm & Hfu). pose proof (Z.div_mod off 512). pose proof (Z.div_mod (zlen (contents f)) 512).
    pose proof (Z.mod_pos_bound (zlen (contents f)) 512). lia. }
  assert (Ho : 0 ≤ off ≤ zlen (contents f) + 496) by apply Hat. cbn [scan_range_loop]. unfold HEADER.
  rewrite !(u64_add_small off 16) by lia. destruct (Z.ltb_spec (zlen (contents f)) (off + 16)) as [|Hb]; [by eexists _, _|].
  destruct (expired_run w deadline) as (b & c & Hex). rewrite (M_bind_Ok _ _ _ _ _ Hex).
  destruct b; [by eexists _, _|]. set (w1 := at_kv w (kv w) c). assert (Hf1 : flash w1 = Some f) by done.
  erewrite M_bind_Ok by (apply (flash_read_in (contents := contents) _ f); (exact Hf1 || done || lia)). cbv beta.
  set (hdr := slice off 16 (contents f)). destruct (hdr_klen_nonneg hdr) as [Hk Hv].
  { unfold hdr. rewrite zlen_slice; lia. }
  assert (Hgo : ∀ g off', scan_at (zlen (contents f)) off' fuel →
            ∃ off'' w', (modify_kv g;; scan_range_loop now_us fuel (zlen (contents f)) deadline off') w1 = (Ok off'', w')).
  { intros g off' Hat'. erewrite M_bind_Ok by reflexivity. by apply IH. }
  destruct (negb (hdr_tickv_shaped hdr)).
  { destruct (hdr_blank hdr); [by eexists _, _|]. by apply Hgo, scan_at_align. }
  destruct (_ || _) eqn:Hlim; [by apply Hgo, scan_at_oversized|].
  apply orb_false_iff in Hlim as [Hk'%Z.ltb_ge Hv'%Z.ltb_ge]. unfold rec_total.
  destruct (Z.ltb_spec (zlen (contents f)) (u64_add off (record_size (hdr_klen hdr) (hdr_vlen hdr)))) as [|Hr];
    [by eexists _, _|].
  pose proof (scan_at_record _ off fuel _ _ Hsz Hat (conj Hk Hk') (conj Hv Hv') Hr) as Hnext.
  destruct (hdr_invalidated hdr); [by apply Hgo|].
  destruct (record_size_bounds (hdr_klen hdr) (hdr_vlen hdr)) as (Hp & Hrb & _); [done..|].
  pose proof (padded_bounds (hdr_klen hdr + hdr_vlen hdr) ltac:(lia)). unfold HEADER, MAX_KLEN, MAX_VLEN in *.
  rewrite u64_add_small in Hr by lia.
  erewrite M_bind_Ok by (apply (flash_read_in (contents := contents) _ f); (exact Hf1 || done || lia)). cbv beta.
  destruct (negb _); [by apply Hgo, scan_at_align|]. destruct (from_utf8 _); by apply Hgo.
Qed.

(** C33: totality of recovery. Whatever bytes the volume holds, and whenever the
    scan deadline strikes, the full rescan of [mount] ends normally: it neither
    loops, nor reads outside the volume, nor fails. *)
Theorem recover_total (w : World F) f deadline :
  flash w = Some f → fl_ok f → addressable (contents f) →
  ∃ w', recover now_us deadline w = (Ok tt, w').
Proof.
  intros Hf Hok Hsz. unfold addressable in Hsz. unfold recover, scan_range. erewrite M_bind_Ok by reflexivity. cbv beta.
  erewrite M_bind_Ok by (unfold flash_size; cbn; rewrite Hf; cbn; by rewrite (fl_size_contents (contents := contents))).
  destruct (scan_range_loop_total (scan_fuel (zlen (contents f))) (upd_kv reset_log w) f 0 deadline)
    as (off' & w' & Hrun); [done|done|done| |].
  { pose proof (zlen_nonneg (contents f)). split_and!; [lia|lia|done|]. unfold scan_fuel.
    rewrite Z.div_0_l by done. pose proof (Z.div_pos (zlen (contents f)) 512). lia. }
  rewrite (M_bind_Ok _ _ _ _ _ Hrun). by eexists.
Qed.
End Recover.

Lemma recover_total_witness :
  ∃ w', recover (λ i, Z.of_nat i) 3 (fresh (Ram.mkRam (as_bytes "TKLV" ++ replicate 5000 Byte.xff))) = (Ok tt, w').
Proof.
  apply (recover_total (contents := Ram.data) _ _ (Ram.mkRam (as_bytes "TKLV" ++ replicate 5000 Byte.xff)));
    by vm_compute.
Defined.

(** * Scanning a log in memory *)

(** What one record of a log does to the result. *)
Definition scan_entry (off : Z) (e : entry) (o : ScanResult) : ScanResult :=
  let o1 := scan_reach (off + esize e) o in
  if e_valid e
  then scan_record (as_bytes (e_key e) ++ e_val e) (zlen (as_bytes (e_key e))) (zlen (e_val e)) off o1
  else o1.

Lemma scan_volume_entry fuel P e R o :
  zlen (P ++ enc e ++ R) < 2 ^ 62 → entry_ok e →
  scan_volume_loop (S fuel) (P ++ enc e ++ R) (zlen P) o
  = scan_volume_loop fuel (P ++ enc e ++ R) (zlen P + esize e) (scan_entry (zlen P) e o).
Proof.
  intros Hs He. cbn [scan_volume_loop]. set (data := P ++ enc e ++ R) in *.
  pose proof (zlen_nonneg P). pose proof (zlen_nonneg R). destruct (esize_bounds e) as [Hsz _].
  assert (Hz : zlen data = zlen P + (esize e + zlen R)) by (unfold data; by rewrite !zlen_app, zlen_enc).
  pose proof (esize_body e). pose proof (zlen_nonneg (as_bytes (e_key e))). pose proof (zlen_nonneg (e_val e)).
  assert (HEADER = 16) as EH by done. rewrite (u64_add_small (zlen P) HEADER) by lia.
  rewrite (proj2 (Z.ltb_ge _ _)) by lia.
  assert (Hhd : slice (zlen P) HEADER data = slice 0 HEADER (enc e ++ R))
    by (unfold data; rewrite slice_app_r, Z.sub_diag by lia; done).
  rewrite Hhd, enc_shaped, enc_klen, enc_vlen, enc_crc by done. cbn [negb].
  rewrite entry_ok_limits by done. fold (esize e). rewrite u64_add_small by lia.
  rewrite (proj2 (Z.ltb_ge _ _)) by lia. rewrite enc_tag. unfold scan_entry.
  destruct (e_valid e); cbn [negb]; [|by rewrite bool_decide_eq_true_2].
  rewrite bool_decide_eq_false_2 by done.
  assert (Hbody : slice (zlen P + HEADER) (zlen (as_bytes (e_key e)) + zlen (e_val e)) data
                  = as_bytes (e_key e) ++ e_val e).
  { unfold data. rewrite slice_app_r by lia. replace (zlen P + HEADER - zlen P) with HEADER by lia. by apply enc_body. }
  by rewrite Hbody, Z.eqb_refl.
Qed.

Definition scan_step (acc : Z * ScanResult) (e : entry) : Z * ScanResult :=
  (acc.1 + esize e, scan_entry acc.1 e acc.2).

Lemma scan_volume_log Q P tail fuel o :
  zlen (P ++ log_bytes Q ++ tail) < 2 ^ 62 → blank tail → Forall entry_ok Q → (length Q < fuel)%nat →
  ∃ eof, scan_volume_loop fuel (P ++ log_bytes Q ++ tail) (zlen P) o
    = Some ((fold_left scan_step Q (zlen P, o)).2, zlen P + zlen (log_bytes Q), eof) ∧
      (eof = true ∨ zlen tail < 16).
Proof.
  revert P fuel o. induction Q as [|e Q IH]; intros P fuel o Hs Hb Hq Hfuel.
  - destruct fuel as [|fuel]; [simpl in *; lia|]. change (log_bytes []) with (@nil Byte.byte) in *.
    rewrite app_nil_l in *. cbn [scan_volume_loop fold_left snd]. change (zlen []) with 0. rewrite Z.add_0_r.
    pose proof (zlen_nonneg P). rewrite zlen_app in *. unfold HEADER. rewrite u64_add_small by (pose proof (zlen_nonneg tail); lia).
    destruct (Z.ltb_spec (zlen P + zlen tail) (zlen P + 16)); [exists false; split; [done|right; lia]|].
    rewrite slice_app_r, Z.sub_diag by lia. rewrite blank_not_shaped by (by apply blank_slice). cbn [negb].
    assert (hdr_blank (slice 0 16 tail) = true) as -> by (by apply blank_slice). exists true. auto.
  - destruct fuel as [|fuel]; [simpl in *; lia|]. apply Forall_cons in Hq as [He Hq].
    rewrite log_bytes_cons, <-app_assoc in *. rewrite scan_volume_entry by done.
    destruct (IH (P ++ enc e) fuel (scan_entry (zlen P) e o)) as (eof & Hl & Heof);
      [by rewrite <-app_assoc|done|done|simpl in *; lia|].
    rewrite <-app_assoc, zlen_app, zlen_enc in Hl. exists eof. rewrite Hl. split; [|done].
    rewrite zlen_app, zlen_enc, fold_left_cons. by rewrite Z.add_assoc.
Qed.

(** The result after a log, field by field. *)
Definition scan_of (L : list entry) (o : ScanResult) : Prop :=
  sr_map o = abs L ∧ sr_offsets o = delete CKPT_KEY (log_index L) ∧
  sr_append_off o = zlen (log_bytes L) ∧ sr_corrupt o = 0 ∧ sr_truncated o = false.

Lemma scan_of_snoc L e o :
  entry_ok e → scan_of L o → scan_of (L ++ [e]) (scan_entry (zlen (log_bytes L)) e o).
Proof.
  intros (Hu & Hk & Hv) (Hm & Ho & Ha & Hc & Ht). pose proof (esize_bounds e).
  pose proof (zlen_nonneg (log_bytes L)). unfold scan_of.
  rewrite zlen_log_snoc, log_index_snoc. unfold abs, log_map, scan_entry, index_entry in *.
  rewrite log_live_snoc. unfold live_entry. destruct (e_valid e).
  2:{ cbn. rewrite Ha. split_and!; try done. lia. }
  unfold scan_record. rewrite slice_app_exact, from_utf8_as_bytes by done.
  destruct (Z.eqb_spec (zlen (e_val e)) 0) as [E|E].
  - rewrite (bool_decide_eq_true_2 (e_val e = [])) by (apply zlen_le_0; lia).
    case_bool_decide as Hck; cbn; rewrite Ha, ?fmap_delete, Hm, Ho; split_and!; try done; try lia.
    + rewrite Hck. by rewrite delete_delete_eq.
    + rewrite Hck. by rewrite delete_delete_eq.
    + apply delete_delete.
    + apply delete_delete.
  - rewrite (bool_decide_eq_false_2 (e_val e = [])) by (intros Hn; by rewrite Hn in E).
    rewrite slice_app_r, Z.sub_diag, slice_full by lia.
    case_bool_decide as Hck; cbn; rewrite Ha, ?fmap_insert, Hm, Ho; split_and!; try done; try lia.
    + rewrite Hck. by rewrite delete_insert_eq.
    + rewrite Hck. by rewrite delete_insert_eq.
    + by rewrite delete_insert_ne.
    + by rewrite delete_insert_ne.
Qed.

Lemma scan_fold_fst Q a o : (fold_left scan_step Q (a, o)).1 = a + zlen (log_bytes Q).
Proof.
  revert a o. induction Q as [|e Q IH]; intros a o; [symmetry; apply Z.add_0_r|].
  rewrite fold_left_cons. unfold scan_step at 2. rewrite IH, zlen_log_cons. cbn [fst]. lia.
Qed.

Lemma scan_fold_of Q : Forall entry_ok Q → scan_of Q (fold_left scan_step Q (0, scan_default)).2.
Proof.
  induction Q as [|e Q IH] using rev_ind; intros Hq; [done|].
  apply Forall_app in Hq as [Hq [He _]%Forall_cons]. rewrite fold_left_app. cbn [fold_left]. unfold scan_step at 1.
  cbn [snd]. rewrite scan_fold_fst. by apply scan_of_snoc, IH.
Qed.

(** The scanner agrees with the store. On a volume holding any log of
    well-formed records (live, invalidated, overwritten, deleted, checkpoints)
    followed by blank space, [scan_volume] returns exactly the map the log denotes,
    the offsets of its live records, the end of the log, and no corruption. *)
Theorem scan_volume_agrees L tail :
  Forall entry_ok L → blank tail → 16 ≤ zlen tail → addressable (log_bytes L ++ tail) →
  scan_volume (log_bytes L ++ tail)
  = Some (mkScan (abs L) (delete CKPT_KEY (log_index L)) (zlen (log_bytes L)) 0 false).
Proof.
  intros He Hb Ht Hs. unfold addressable in Hs. unfold scan_volume.
  destruct (scan_volume_log L [] tail (scan_fuel (zlen (log_bytes L ++ tail))) scan_default) as (eof & Hl & Heof);
    [done|done|done|apply fuel_enough; rewrite zlen_app; lia|].
  change ([] ++ log_bytes L ++ tail) with (log_bytes L ++ tail) in Hl. change (zlen []) with 0 in Hl. rewrite Hl.
  destruct Heof as [->|]; [|lia]. cbn. destruct (scan_fold_of L He) as (E1 & E2 & E3 & E4 & E5).
  destruct (fold_left scan_step L (0, scan_default)).2. cbn in *. by subst.
Qed.

Definition demo_log : list entry :=
  [mkE false "a" (as_bytes "one"); mkE true "b" (as_bytes "two"); mkE true "a" (as_bytes "three"); mkE true "b" []].

Lemma scan_volume_agrees_witness :
  scan_volume (log_bytes demo_log ++ zeros 512)
  = Some (mkScan (abs demo_log) (delete CKPT_KEY (log_index demo_log)) (zlen (log_bytes demo_log)) 0 false).
Proof.
  apply scan_volume_agrees; [|by vm_compute..]. repeat constructor; by vm_compute.
Defined.
