(* ===== verification/TicketLock.v ===== *)
(** The FIFO ticket spinlock ([crates/ticket-lock/src/lib.rs]) as a transition
    system: each atomic access of [lock], [try_lock] and the guard's [drop] is one
    action of one thread, in any interleaving. Counters are [usize], 64 bits,
    wrapping. *)

From S2P Require Import Prelude.
From stdpp Require Import functions.
#[local] Open Scope Z_scope.

Module TicketLock.

(** Where a thread is: outside, spinning in [lock] with its ticket, between the
    load and the compare-exchange of [try_lock], or owning a guard. *)
Inductive pc :=
| Idle
| Waiting (my_ticket : Z)
| TryLoaded (now_serving : Z)
| Holding.

#[global] Instance pc_eq_dec : EqDecision pc.
Proof. solve_decision. Defined.

Record Lock (T : Type) := mkLock {
  ticket : Z;
  serving : Z;
  data : T;
  threads : nat → pc;
}.
Arguments mkLock {T} _ _ _ _.
Arguments ticket {T} _.
Arguments serving {T} _.
Arguments data {T} _.
Arguments threads {T} _.

Section Lock.
Context {T : Type}.
Implicit Types s : Lock T.

Definition new (value : T) : Lock T := mkLock 0 0 value (λ _, Idle).

Definition goto (t : nat) (p : pc) (s : Lock T) : Lock T :=
  mkLock (ticket s) (serving s) (data s) (<[t := p]> (threads s)).

Inductive act :=
| LockTake (t : nat)
| LockSpin (t : nat)
| TryLoad (t : nat)
| TryCas (t : nat)
| Write (t : nat) (v : T)
| Unlock (t : nat).

(** One atomic access; [None] when the thread is not at that point. *)
Definition step (a : act) (s : Lock T) : option (Lock T) :=
  match a with
  | LockTake t =>
      match threads s t with
      | Idle => Some (mkLock (u64_add (ticket s) 1) (serving s) (data s) (<[t := Waiting (ticket s)]> (threads s)))
      | _ => None
      end
  | LockSpin t =>
      match threads s t with
      | Waiting m => Some (if serving s =? m then goto t Holding s else s)
      | _ => None
      end
  | TryLoad t =>
      match threads s t with
      | Idle => Some (goto t (TryLoaded (serving s)) s)
      | _ => None
      end
  | TryCas t =>
      match threads s t with
      | TryLoaded n =>
          if ticket s =? n
          then Some (mkLock (u64_add n 1) (serving s) (data s) (<[t := Holding]> (threads s)))
          else Some (goto t Idle s)
      | _ => None
      end
  | Write t v =>
      match threads s t with
      | Holding => Some (mkLock (ticket s) (serving s) v (threads s))
      | _ => None
      end
  | Unlock t =>
      match threads s t with
      | Holding => Some (mkLock (ticket s) (u64_add (serving s) 1) (data s) (<[t := Idle]> (threads s)))
      | _ => None
      end
  end.

Definition is_locked s : bool := negb (ticket s =? serving s).

Fixpoint steps (l : list act) (s : Lock T) : option (Lock T) :=
  match l with
  | [] => Some s
  | a :: l' => s' ← step a s; steps l' s'
  end.

(** States reached from a new lock in [n] accesses. *)
Inductive reach (v : T) : nat → Lock T → Prop :=
| reach_new : reach v 0 (new v)
| reach_step n s a s' : reach v n s → step a s = Some s' → reach v (S n) s'.

Lemma steps_reach v l n s s' : reach v n s → steps l s = Some s' → reach v (length l + n) s'.
Proof.
  revert n s. induction l as [|a l IH]; intros n s Hr Hs; [by injection Hs as <-|].
  cbn in Hs. destruct (step a s) as [s1|] eqn:E; [|done].
  replace (length (a :: l) + n)%nat with (length l + S n)%nat by (simpl; lia).
  eapply IH; [by econstructor|done].
Qed.

(** ** Invariant

    The tickets handed out and not yet served, [serving .. ticket), are held by
    one thread each; the guard's owner has the lowest. *)
Record inv (n : nat) (s : Lock T) : Prop := mkInv {
  i_bound : 0 ≤ serving s ≤ ticket s ∧ ticket s ≤ Z.of_nat n;
  i_wait : ∀ t m, threads s t = Waiting m → serving s ≤ m < ticket s;
  i_wait_inj : ∀ t t' m, threads s t = Waiting m → threads s t' = Waiting m → t = t';
  i_hold : ∀ t, threads s t = Holding → serving s < ticket s;
  i_hold_inj : ∀ t t', threads s t = Holding → threads s t' = Holding → t = t';
  i_hold_wait : ∀ t t' m, threads s t = Holding → threads s t' = Waiting m → m ≠ serving s;
  i_cover : ∀ m, serving s ≤ m < ticket s → ∃ t, threads s t = Waiting m ∨ (threads s t = Holding ∧ m = serving s);
  i_try : ∀ t k, threads s t = TryLoaded k → k ≤ serving s;
}.

Lemma inv_new v : inv 0 (new v).
Proof. constructor; cbn; try done. intros m Hm. lia. Qed.

Lemma insert_thread (f : nat → pc) t p t' : (<[t := p]> f) t' = if decide (t = t') then p else f t'.
Proof.
  destruct (decide (t = t')) as [->|Hne]; [apply fn_lookup_insert|by apply fn_lookup_insert_ne].
Qed.

(** Every field of [inv] after the thread map changed at [t]. *)
Ltac thread_cases :=
  repeat match goal with
  | H : context [(<[_ := _]> _) _] |- _ => rewrite insert_thread in H
  | |- context [(<[_ := _]> _) _] => rewrite insert_thread
  | H : context [decide (?a = ?b)] |- _ => destruct (decide (a = b)); [subst|]
  end; simplify_eq.

(** Close a case with the bounds on tickets, or by contradiction. *)
Ltac by_facts Hw Hh Hcontra :=
  solve [ done | lia | eauto
        | match goal with H : threads _ _ = Waiting _ |- _ => pose proof (Hw _ _ H); lia end
        | match goal with H : threads _ _ = Holding |- _ => pose proof (Hh _ H); lia end
        | exfalso; Hcontra ].

Lemma inv_goto n s t p :
  inv n s → (∀ m, threads s t ≠ Waiting m) → threads s t ≠ Holding →
  p = Idle ∨ (∃ k, p = TryLoaded k ∧ k ≤ serving s) → inv n (goto t p s).
Proof.
  intros [Hb Hw Hwi Hh Hhi Hhw Hc Ht] Hnw Hnh Hp. constructor; cbn; [done|..].
  - intros t' m Ht'. thread_cases; [naive_solver|eauto].
  - intros t1 t2 m H1 H2. thread_cases; [naive_solver..|eauto].
  - intros t' Ht'. thread_cases; [naive_solver|eauto].
  - intros t1 t2 H1 H2. thread_cases; [naive_solver..|eauto].
  - intros t1 t2 m H1 H2. thread_cases; [naive_solver..|eauto].
  - intros m Hm. destruct (Hc m Hm) as [t' Ht']. exists t'. rewrite insert_thread.
    case_decide; [subst t'; destruct Ht' as [?|[? _]]; [by destruct (Hnw m)|done]|done].
  - intros t' k Ht'. thread_cases; [naive_solver|eauto].
Qed.

Lemma inv_take n s t :
  inv n s → Z.of_nat n < 2 ^ 64 - 1 → threads s t = Idle →
  inv (S n) (mkLock (ticket s + 1) (serving s) (data s) (<[t := Waiting (ticket s)]> (threads s))).
Proof.
  intros [Hb Hw Hwi Hh Hhi Hhw Hc Ht] Hn Hpc. constructor; cbn; [lia|..].
  - intros t' m Ht'. thread_cases; by_facts Hw Hh idtac.
  - intros t1 t2 m H1 H2. thread_cases; by_facts Hw Hh idtac.
  - intros t' Ht'. thread_cases; by_facts Hw Hh idtac.
  - intros t1 t2 H1 H2. thread_cases; by_facts Hw Hh idtac.
  - intros t1 t2 m H1 H2. thread_cases; by_facts Hw Hh idtac.
  - intros m Hm. destruct (decide (m = ticket s)) as [->|Hne].
    + exists t. rewrite insert_thread, decide_True by done. by left.
    + destruct (Hc m ltac:(lia)) as [t' Ht']. exists t'. rewrite insert_thread.
      case_decide; [subst t'; destruct Ht' as [?|[? _]]; congruence|done].
  - intros t' k Ht'. thread_cases; by_facts Hw Hh idtac.
Qed.

(** Entering, from the queue or by [try_lock] on a free lock. *)
Lemma inv_enter n s t :
  inv n s → threads s t = Waiting (serving s) → inv n (goto t Holding s).
Proof.
  intros [Hb Hw Hwi Hh Hhi Hhw Hc Ht] Hpc. pose proof (Hw _ _ Hpc) as Hlt.
  assert (Hno : ∀ t', threads s t' ≠ Holding) by (intros t' Ht'; by apply (Hhw _ _ _ Ht' Hpc)).
  constructor; cbn; [done|..].
  - intros t' m Ht'. thread_cases; by_facts Hw Hh ltac:(naive_solver).
  - intros t1 t2 m H1 H2. thread_cases; by_facts Hw Hh ltac:(naive_solver).
  - intros t' Ht'. thread_cases; by_facts Hw Hh ltac:(naive_solver).
  - intros t1 t2 H1 H2. thread_cases; by_facts Hw Hh ltac:(naive_solver).
  - intros t1 t2 m H1 H2 Hm. subst m. thread_cases; by_facts Hw Hh ltac:(naive_solver).
  - intros m Hm. destruct (Hc m Hm) as [t' Ht']. exists t'. rewrite insert_thread.
    case_decide; [subst t'|done]. right. split; [done|]. destruct Ht' as [?|[_ ?]]; congruence.
  - intros t' k Ht'. thread_cases; by_facts Hw Hh ltac:(naive_solver).
Qed.

Lemma inv_try n s t k :
  inv n s → Z.of_nat n < 2 ^ 64 - 1 → threads s t = TryLoaded k → ticket s = k →
  inv (S n) (mkLock (ticket s + 1) (serving s) (data s) (<[t := Holding]> (threads s))).
Proof.
  intros [Hb Hw Hwi Hh Hhi Hhw Hc Ht] Hn Hpc Hk. pose proof (Ht _ _ Hpc) as Hle.
  assert (Heq : ticket s = serving s) by lia.
  assert (Hnw : ∀ t' m, threads s t' ≠ Waiting m) by (intros t' m Ht'; pose proof (Hw _ _ Ht'); lia).
  assert (Hnh : ∀ t', threads s t' ≠ Holding) by (intros t' Ht'; pose proof (Hh _ Ht'); lia).
  constructor; cbn; [lia|..].
  - intros t' m Ht'. thread_cases; by_facts Hw Hh ltac:(naive_solver).
  - intros t1 t2 m H1 H2. thread_cases; by_facts Hw Hh ltac:(naive_solver).
  - intros t' Ht'. thread_cases; by_facts Hw Hh ltac:(naive_solver).
  - intros t1 t2 H1 H2. thread_cases; by_facts Hw Hh ltac:(naive_solver).
  - intros t1 t2 m H1 H2 Hm. subst m. thread_cases; by_facts Hw Hh ltac:(naive_solver).
  - intros m Hm. exists t. rewrite insert_thread, decide_True by done. right. split; [done|lia].
  - intros t' k' Ht'. thread_cases; by_facts Hw Hh ltac:(naive_solver).
Qed.

Lemma inv_unlock n s t :
  inv n s → threads s t = Holding →
  inv n (mkLock (ticket s) (serving s + 1) (data s) (<[t := Idle]> (threads s))).
Proof.
  intros [Hb Hw Hwi Hh Hhi Hhw Hc Ht] Hpc. pose proof (Hh _ Hpc) as Hlt. constructor; cbn; [lia|..].
  - intros t' m Ht'. thread_cases. pose proof (Hw _ _ Ht'). pose proof (Hhw _ _ _ Hpc Ht'). lia.
  - intros t1 t2 m H1 H2. thread_cases; by_facts Hw Hh ltac:(naive_solver).
  - intros t' Ht'. thread_cases; by_facts Hw Hh ltac:(naive_solver).
  - intros t1 t2 H1 H2. thread_cases; by_facts Hw Hh ltac:(naive_solver).
  - intros t1 t2 m H1 H2 Hm. subst m. thread_cases; by_facts Hw Hh ltac:(naive_solver).
  - intros m Hm. destruct (Hc m ltac:(lia)) as [t' Ht']. exists t'. rewrite insert_thread.
    case_decide; [subst t'; destruct Ht' as [?|[_ ?]]; [congruence|lia]|]. destruct Ht' as [?|[_ ?]]; [by left|lia].
  - intros t' k Ht'. thread_cases. pose proof (Ht _ _ Ht'). lia.
Qed.

Lemma inv_weaken n s : inv n s → inv (S n) s.
Proof. intros []. constructor; try done. lia. Qed.

Lemma inv_step n s a s' :
  inv n s → Z.of_nat n < 2 ^ 64 - 1 → step a s = Some s' → inv (S n) s'.
Proof.
  intros Hinv Hn Hs. pose proof (i_bound _ _ Hinv) as Hb.
  destruct a as [t|t|t|t|t v|t]; cbn in Hs; destruct (threads s t) as [|m|k|] eqn:E; simplify_eq.
  - rewrite u64_add_small by lia. by apply inv_take.
  - destruct (Z.eqb_spec (serving s) m) as [<-|]; apply inv_weaken; [by apply inv_enter|done].
  - apply inv_weaken, inv_goto; [done|congruence..|]. right. by eexists.
  - destruct (Z.eqb_spec (ticket s) k) as [Hk|]; simplify_eq.
    + rewrite u64_add_small by lia. by eapply inv_try.
    + apply inv_weaken, inv_goto; [done|congruence..|by left].
  - apply inv_weaken. destruct Hinv. by constructor.
  - pose proof (i_hold _ _ Hinv _ E). rewrite u64_add_small by lia. apply inv_weaken. by apply inv_unlock.
Qed.

Lemma reach_inv v n s : reach v n s → Z.of_nat n < 2 ^ 64 → inv n s.
Proof.
  intros Hr. induction Hr as [|n s a s' Hr IH Hs]; intros Hn; [apply inv_new|].
  eapply inv_step; [apply IH; lia|lia|done].
Qed.

(** ** Theorems *)

Lemma serving_mono n s a s' :
  inv n s → Z.of_nat n < 2 ^ 64 - 1 → step a s = Some s' → serving s ≤ serving s'.
Proof.
  intros Hinv Hn Hs. pose proof (i_bound _ _ Hinv).
  destruct a as [t|t|t|t|t v|t]; cbn in Hs; destruct (threads s t) as [|m|k|] eqn:E; simplify_eq; cbn; try lia.
  - destruct (_ =? _); cbn; lia.
  - destruct (_ =? _); simplify_eq; cbn; lia.
  - pose proof (i_hold _ _ Hinv _ E). rewrite u64_add_small by lia. lia.
Qed.

(** A waiter keeps waiting until its ticket is served. *)
Lemma waiter_step s a s' t m :
  step a s = Some s' → threads s t = Waiting m → threads s' t = Waiting m ∨ m ≤ serving s.
Proof.
  intros Hs Ht. destruct a as [u|u|u|u|u v|u]; cbn in Hs; destruct (threads s u) as [|k|k|] eqn:E; simplify_eq;
    destruct (decide (u = t)) as [->|Hne]; try congruence; cbn;
    rewrite ?insert_thread, ?decide_False by done; auto.
  - rewrite Ht in E. injection E as <-. destruct (Z.eqb_spec (serving s) m) as [<-|]; [by right|by left].
  - destruct (_ =? _); cbn; rewrite ?insert_thread, ?decide_False by done; auto.
  - destruct (_ =? _); simplify_eq; cbn; rewrite ?insert_thread, ?decide_False by done; auto.
Qed.

Lemma waiter_steps v l n s s' t m :
  reach v n s → Z.of_nat (length l + n) < 2 ^ 64 → steps l s = Some s' →
  threads s t = Waiting m ∨ m ≤ serving s → threads s' t = Waiting m ∨ m ≤ serving s'.
Proof.
  revert n s. induction l as [|a l IH]; intros n s Hr Hn Hs Ht; [by injection Hs as <-|].
  cbn in Hs. destruct (step a s) as [s1|] eqn:E; [|done]. simpl length in Hn.
  pose proof (reach_inv v n s Hr ltac:(lia)) as Hinv. pose proof (serving_mono n s a s1 Hinv ltac:(lia) E).
  apply (IH (S n) s1); [by econstructor|lia|done|].
  destruct Ht as [Ht|Ht]; [destruct (waiter_step s a s1 t m E Ht); [by left|right; lia]|right; lia].
Qed.
End Lock.
Arguments act T : clear implicits.

(** C17: mutual exclusion. In every interleaving of fewer than 2^64 atomic accesses
    by any number of threads, at most one thread owns a guard, whether it came
    through [lock] or [try_lock], and only its owner can change the data. *)
Theorem mutual_exclusion {T} (v : T) n s a s' :
  reach v n s → Z.of_nat n < 2 ^ 64 → step a s = Some s' →
  (∀ t t', threads s t = Holding → threads s t' = Holding → t = t') ∧
  (data s' = data s ∨ ∃ t x, a = Write t x ∧ ∀ t', threads s t' = Holding ↔ t' = t).
Proof.
  intros Hr Hn Hs. pose proof (i_hold_inj _ _ (reach_inv v n s Hr Hn)) as Hi. split; [exact Hi|].
  destruct a as [t|t|t|t|t x|t]; cbn in Hs; destruct (threads s t) as [|m|k|] eqn:E; simplify_eq; try (by left).
  - left. by destruct (_ =? _).
  - left. destruct (_ =? _); by simplify_eq.
  - right. exists t, x. split; [done|]. intros t'. split; [intros Ht'; by eapply Hi|by intros ->].
Qed.

(** First come, first served. If [t] drew a lower ticket than [t'] and both
    wait, then whenever [t'] owns the guard later on, [t] is no longer waiting with
    that ticket: it has been served before. *)
Theorem fifo {T} (v : T) n s t t' m m' l s' :
  reach v n s → threads s t = Waiting m → threads s t' = Waiting m' → m < m' →
  steps l s = Some s' → Z.of_nat (length l + n) < 2 ^ 64 →
  threads s' t' = Holding → threads s' t ≠ Waiting m.
Proof.
  intros Hr Ht Ht' Hlt Hs Hn Hh Hw.
  destruct (waiter_steps v l n s s' t' m' Hr Hn Hs (or_introl Ht')) as [Hw'|Hge]; [congruence|].
  pose proof (steps_reach v l n s s' Hr Hs) as Hr'. pose proof (i_wait _ _ (reach_inv _ _ _ Hr' Hn) _ _ Hw). lia.
Qed.

(** No lost tickets. Whenever the lock is taken, some thread owns the guard or
    some waiting thread's next look at [serving] makes it the owner; whenever it is
    free, a [try_lock] that nobody interrupts succeeds. *)
Theorem never_stuck {T} (v : T) n s :
  reach v n s → Z.of_nat n < 2 ^ 64 →
  if is_locked s
  then ∃ t, threads s t = Holding ∨ ∃ s', step (LockSpin t) s = Some s' ∧ threads s' t = Holding
  else ∀ t, threads s t = Idle → ∃ s', steps [TryLoad t; TryCas t] s = Some s' ∧ threads s' t = Holding.
Proof.
  intros Hr Hn. pose proof (reach_inv v n s Hr Hn) as Hinv. unfold is_locked.
  destruct (Z.eqb_spec (ticket s) (serving s)) as [Heq|Hne]; cbn [negb].
  - intros t Ht. cbn. rewrite Ht. cbn. rewrite insert_thread, decide_True by done. cbn.
    rewrite (proj2 (Z.eqb_eq _ _) Heq). cbn. eexists. split; [done|]. cbn. by rewrite insert_thread, decide_True.
  - destruct (i_cover _ _ Hinv (serving s)) as [t [Ht|[Ht _]]]; [pose proof (i_bound _ _ Hinv); lia|..].
    + exists t. right. eexists. cbn. rewrite Ht, Z.eqb_refl. split; [done|]. cbn. by rewrite insert_thread, decide_True.
    + exists t. by left.
Qed.

(** A run of three threads: 0 holds, 1 and 2 queue behind it. *)
Definition contended : Lock Z :=
  default (new 7) (steps [LockTake 0; LockSpin 0; LockTake 1; LockTake 2] (new 7)).

Lemma contended_reach : reach 7 4 contended.
Proof. by apply (steps_reach 7 [LockTake 0; LockSpin 0; LockTake 1; LockTake 2] 0 (new 7)); [constructor|]. Qed.

Definition after_write : Lock Z := default (new 7) (step (Write 0 9) contended).

Lemma mutual_exclusion_witness :
  (∀ t t', threads contended t = Holding → threads contended t' = Holding → t = t') ∧
  (data after_write = data contended ∨ ∃ t x, Write 0 9 = Write t x ∧ ∀ t', threads contended t' = Holding ↔ t' = t).
Proof. by apply (mutual_exclusion 7 4 contended (Write 0 9) after_write contended_reach). Defined.

Definition served : Lock Z :=
  default (new 7) (steps [Unlock 0; LockSpin 2; LockSpin 1; Unlock 1; LockSpin 2] contended).

Lemma fifo_witness : threads served 2%nat = Holding ∧ threads served 1%nat ≠ Waiting 1.
Proof.
  split; [done|].
  by apply (fifo 7 4 contended 1 2 1 2 [Unlock 0; LockSpin 2; LockSpin 1; Unlock 1; LockSpin 2] served contended_reach).
Defined.

Lemma never_stuck_witness :
  ∃ t, threads contended t = Holding ∨ ∃ s', step (LockSpin t) contended = Some s' ∧ threads s' t = Holding.
Proof. by apply (never_stuck 7 4 contended contended_reach). Defined.

End TicketLock.
