(* ===== verification/EventBus.v ===== *)
(** The event-bus crate ([crates/event-bus/src]): capability tokens, the bounded
    channel and the point-to-point message bus, the provenance stamps, and the
    topic bus with its bounded per-subscriber queues.

    Queues are shared ([Arc]): the topic map and the receiver hold the same one.
    They live in a store keyed by allocation, with the set of allocations whose
    receiver is still alive (a queue of the map has strong count 2 exactly then).
    What a call's environment decides, which bounded lock acquisitions run out of
    spins and what the publisher hook returns, is an argument. *)

From S2P Require Import Prelude Checksum.

(** * Capability tokens ([capability.rs]) *)

Module Capability.

Inductive CapabilityToken :=
| Legacy (val : Z)
| Ed25519 (public_key signature : bytes).

Definition is_valid (t : CapabilityToken) : bool :=
  match t with Legacy val => 0 <? val | Ed25519 _ _ => false end.

Definition as_legacy (t : CapabilityToken) : Z :=
  match t with Legacy val => val | Ed25519 _ _ => 0 end.

End Capability.

(** * Bounded channel ([channel.rs]) *)

Module Channel.

Record BoundedChannel (A : Type) := mkChan { inner : list A; capacity : Z }.
Arguments mkChan {A} _ _.
Arguments inner {A} _.
Arguments capacity {A} _.

Section Channel.
Context {A : Type}.

Definition new (cap : Z) : BoundedChannel A := mkChan [] cap.

Definition len (c : BoundedChannel A) : Z := zlen (inner c).

Definition is_empty (c : BoundedChannel A) : bool := bool_decide (length (inner c) = 0%nat).

Definition send (item : A) (c : BoundedChannel A) : res unit * BoundedChannel A :=
  if capacity c =? 0 then (Err "capacity_zero", c) else
  if capacity c <=? zlen (inner c) then (Err "channel_full", c)
  else (Ok tt, mkChan (inner c ++ [item]) (capacity c)).

Definition try_recv (c : BoundedChannel A) : option A * BoundedChannel A :=
  match inner c with
  | [] => (None, c)
  | x :: q => (Some x, mkChan q (capacity c))
  end.

Definition chan_ok (c : BoundedChannel A) : Prop := zlen (inner c) ≤ Z.max 0 (capacity c).

Lemma send_ok c x : chan_ok c → chan_ok (send x c).2.
Proof.
  unfold chan_ok, send. intros Hc. destruct (capacity c =? 0); [done|].
  destruct (Z.leb_spec (capacity c) (zlen (inner c))); [done|]. cbn. rewrite zlen_app.
  change (zlen [x]) with 1. lia.
Qed.

Lemma try_recv_ok c : chan_ok c → chan_ok (try_recv c).2.
Proof.
  unfold chan_ok, try_recv. destruct (inner c) as [|x q] eqn:E; [cbn; by rewrite ?E|]. rewrite zlen_cons. cbn. lia.
Qed.
End Channel.

End Channel.

(** * Message bus ([message_bus.rs]) *)

Module MessageBus.
Import Capability Channel.

Definition DEFAULT_MAILBOX_CAP : Z := 32.
Definition MAX_MAILBOXES : Z := 64.

Record Envelope := mkEnv { from : string; to : string; kind : Z; payload : bytes; token : CapabilityToken }.

Record MessageBus := mkBus { mailboxes : gmap string (BoundedChannel Envelope); default_cap : Z }.

Definition new : MessageBus := mkBus ∅ DEFAULT_MAILBOX_CAP.
Definition with_capacity (cap : Z) : MessageBus := mkBus ∅ cap.

Definition open_mailbox (agent : string) (b : MessageBus) : bool * MessageBus :=
  match mailboxes b !! agent with
  | Some _ => (true, b)
  | None =>
      if MAX_MAILBOXES <=? Z.of_nat (size (mailboxes b)) then (false, b)
      else (true, mkBus (<[agent := Channel.new (default_cap b)]> (mailboxes b)) (default_cap b))
  end.

Definition send (env : Envelope) (b : MessageBus) : res unit * MessageBus :=
  if negb (is_valid (token env)) then (Err "ipc_token_invalid", b) else
  match mailboxes b !! to env with
  | None => (Err "ipc_mailbox_missing", b)
  | Some ch =>
      let '(r, ch') := Channel.send env ch in
      (r, mkBus (<[to env := ch']> (mailboxes b)) (default_cap b))
  end.

Definition send_to (from to : string) (kind : Z) (payload : bytes) (token : CapabilityToken)
    (b : MessageBus) : res unit * MessageBus :=
  send (mkEnv from to kind payload token) b.

Definition try_recv (agent : string) (b : MessageBus) : option Envelope * MessageBus :=
  match mailboxes b !! agent with
  | None => (None, b)
  | Some ch =>
      let '(r, ch') := Channel.try_recv ch in
      (r, mkBus (<[agent := ch']> (mailboxes b)) (default_cap b))
  end.

Fixpoint mailbox_drain (agent : string) (max : nat) (b : MessageBus) : list Envelope * MessageBus :=
  match max with
  | O => ([], b)
  | S max' =>
      match try_recv agent b with
      | (Some e, b') => let '(out, b'') := mailbox_drain agent max' b' in (e :: out, b'')
      | (None, b') => ([], b')
      end
  end.

Definition pending (agent : string) (b : MessageBus) : Z :=
  match mailboxes b !! agent with Some ch => len ch | None => 0 end.

(** The boot smoke test, as it is. *)
Definition self_test : bool :=
  let bus := with_capacity 4 in
  let bus := (open_mailbox "cortex" bus).2 in
  let bus := (open_mailbox "rustcoder" bus).2 in
  let '(r, bus) := send_to "cortex" "rustcoder" 1 (as_bytes "ping") (Legacy 0) bus in
  if is_ok r then false else
  let '(r, bus) := send_to "cortex" "rustcoder" 1 (as_bytes "ping") (Legacy 1) bus in
  if negb (is_ok r) then false else
  let '(m, bus) := try_recv "rustcoder" bus in
  match m with
  | Some e =>
      if negb (bool_decide (from e = "cortex") && bool_decide (payload e = as_bytes "ping") && (kind e =? 1))
      then false else
      let '(m, bus) := try_recv "rustcoder" bus in
      match m with
      | Some _ => false
      | None =>
          let '(r, bus) := send_to "rustcoder" "cortex" 2 (as_bytes "pong") (Legacy 1) bus in
          if negb (is_ok r) then false else
          match (try_recv "cortex" bus).1 with
          | Some e => bool_decide (from e = "rustcoder") && bool_decide (payload e = as_bytes "pong")
          | None => false
          end
      end
  | None => false
  end.

(** At most 64 mailboxes, each within its capacity. *)
Record bus_ok (b : MessageBus) : Prop := mkBusOk {
  ok_count : Z.of_nat (size (mailboxes b)) ≤ MAX_MAILBOXES;
  ok_chan : map_Forall (λ _ ch, chan_ok ch ∧ capacity ch = default_cap b) (mailboxes b);
}.

Lemma size_insert_Some {A} (m : gmap string A) k x y : m !! k = Some x → size (<[k := y]> m) = size m.
Proof. intros Hm. by rewrite map_size_insert, Hm. Qed.

Lemma open_mailbox_ok agent b : bus_ok b → bus_ok (open_mailbox agent b).2.
Proof.
  intros [Hn Hc]. unfold open_mailbox. destruct (mailboxes b !! agent) eqn:E; [done|].
  destruct (Z.leb_spec MAX_MAILBOXES (Z.of_nat (size (mailboxes b)))); [done|]. split; cbn.
  - rewrite map_size_insert, E. lia.
  - apply map_Forall_insert_2; [|done]. split; [|done]. unfold chan_ok. cbn. change (zlen []) with 0. lia.
Qed.

Lemma send_bus_ok env b : bus_ok b → bus_ok (send env b).2.
Proof.
  intros [Hn Hc]. unfold send. destruct (negb _); [done|]. destruct (mailboxes b !! to env) as [ch|] eqn:E; [|done].
  destruct (Channel.send env ch) as [r ch'] eqn:Es. split; cbn; [by rewrite (size_insert_Some _ _ ch)|].
  destruct (Hc _ _ E) as [Hch Hcap]. apply map_Forall_insert_2; [|done].
  replace ch' with (Channel.send env ch).2 by (by rewrite Es). split; [by apply send_ok|].
  rewrite <-Hcap. unfold Channel.send. by repeat case_match.
Qed.

Lemma try_recv_bus_ok agent b : bus_ok b → bus_ok (try_recv agent b).2.
Proof.
  intros [Hn Hc]. unfold try_recv. destruct (mailboxes b !! agent) as [ch|] eqn:E; [|done].
  destruct (Channel.try_recv ch) as [r ch'] eqn:Es. split; cbn; [by rewrite (size_insert_Some _ _ ch)|].
  destruct (Hc _ _ E) as [Hch Hcap]. apply map_Forall_insert_2; [|done].
  replace ch' with (Channel.try_recv ch).2 by (by rewrite Es). split; [by apply try_recv_ok|].
  rewrite <-Hcap. unfold Channel.try_recv. by case_match.
Qed.


(** ** Sequences of operations *)

Inductive mop :=
| MOpen (agent : string)
| MSend (env : Envelope)
| MRecv (agent : string)
| MDrain (agent : string) (max : nat).

(** An operation: the envelope it got accepted, the ones it took out (and for
    whom), the bus after it. *)
Definition mexec (o : mop) (b : MessageBus) : list Envelope * (string * list Envelope) * MessageBus :=
  match o with
  | MOpen a => ([], ("", []), (open_mailbox a b).2)
  | MSend env => let '(r, b') := send env b in (if is_ok r then [env] else [], ("", []), b')
  | MRecv a => let '(m, b') := try_recv a b in ([], (a, option_list m), b')
  | MDrain a n => let '(out, b') := mailbox_drain a n b in ([], (a, out), b')
  end.

Fixpoint mrun (os : list mop) (b : MessageBus) : list Envelope * list (string * list Envelope) * MessageBus :=
  match os with
  | [] => ([], [], b)
  | o :: os' =>
      let '(acc, out, b1) := mexec o b in
      let '(accs, outs, b2) := mrun os' b1 in
      (acc ++ accs, out :: outs, b2)
  end.

Definition mail (x : string) (b : MessageBus) : list Envelope :=
  match mailboxes b !! x with Some ch => inner ch | None => [] end.

(** What was accepted for [x], and what [x]'s reads returned. *)
Definition accepted_for (x : string) (l : list Envelope) : list Envelope := filter (λ e, to e = x) l.
Definition taken_by (x : string) (l : list (string * list Envelope)) : list Envelope :=
  concat (snd <$> filter (λ p, p.1 = x) l).

Lemma accepted_for_app x l l' : accepted_for x (l ++ l') = accepted_for x l ++ accepted_for x l'.
Proof. apply filter_app. Qed.

Lemma taken_by_cons x a out l :
  taken_by x ((a, out) :: l) = (if decide (a = x) then out else []) ++ taken_by x l.
Proof. unfold taken_by. rewrite filter_cons. cbn. by case_decide. Qed.

Lemma mail_insert x y ch b :
  mail x (mkBus (<[y := ch]> (mailboxes b)) (default_cap b)) = if decide (y = x) then inner ch else mail x b.
Proof.
  unfold mail. cbn. destruct (decide (y = x)) as [->|]; [by rewrite lookup_insert_eq|by rewrite lookup_insert_ne].
Qed.

Lemma send_mail env b x :
  mail x (send env b).2 = mail x b ++ accepted_for x (if is_ok (send env b).1 then [env] else []).
Proof.
  unfold send. destruct (negb _); [by rewrite app_nil_r|].
  destruct (mailboxes b !! to env) as [ch|] eqn:E; [|by rewrite app_nil_r].
  destruct (Channel.send env ch) as [r ch'] eqn:Es. cbn [fst snd]. rewrite mail_insert.
  revert Es. unfold Channel.send.
  destruct (capacity ch =? 0); [|destruct (capacity ch <=? _)]; intros [= <- <-]; cbn [is_ok].
  - rewrite app_nil_r. case_decide; [subst x; unfold mail; by rewrite E|done].
  - rewrite app_nil_r. case_decide; [subst x; unfold mail; by rewrite E|done].
  - unfold accepted_for. rewrite filter_cons, filter_nil. case_decide; [subst x|by rewrite app_nil_r].
    unfold mail. by rewrite E.
Qed.

Lemma recv_mail a b x :
  mail x b = (if decide (a = x) then option_list (try_recv a b).1 else []) ++ mail x (try_recv a b).2.
Proof.
  unfold try_recv. destruct (mailboxes b !! a) as [ch|] eqn:E; [|by case_decide].
  destruct (Channel.try_recv ch) as [r ch'] eqn:Es. cbn [fst snd]. rewrite mail_insert.
  case_decide; [subst x|done]. unfold mail. rewrite E. revert Es. unfold Channel.try_recv.
  by destruct (inner ch) eqn:Ei; intros [= <- <-]; cbn; rewrite ?Ei.
Qed.

Lemma drain_mail a n b x :
  mail x b = (if decide (a = x) then (mailbox_drain a n b).1 else []) ++ mail x (mailbox_drain a n b).2.
Proof.
  revert b. induction n as [|n IH]; intros b; cbn [mailbox_drain]; [by case_decide|].
  pose proof (recv_mail a b x) as Hr. destruct (try_recv a b) as [[e|] b1]; cbn [fst snd] in *; [|by case_decide].
  specialize (IH b1). destruct (mailbox_drain a n b1) as [out b2]. cbn [fst snd] in *.
  rewrite Hr, IH. by case_decide.
Qed.

Lemma open_mail a b x : mail x (open_mailbox a b).2 = mail x b.
Proof.
  unfold open_mailbox. destruct (mailboxes b !! a) eqn:E; [done|]. destruct (_ <=? _); [done|].
  cbn [snd]. rewrite mail_insert. case_decide; [subst x; unfold mail; by rewrite E|done].
Qed.

Lemma mexec_mail o b x :
  let '(acc, (a, out), b') := mexec o b in
  mail x b ++ accepted_for x acc = (if decide (a = x) then out else []) ++ mail x b'.
Proof.
  destruct o as [a|env|a|a n]; cbn [mexec].
  - rewrite app_nil_r, open_mail. by case_decide.
  - pose proof (send_mail env b x) as Hs. destruct (send env b) as [r b']. cbn [fst snd] in Hs. rewrite Hs.
    by case_decide.
  - pose proof (recv_mail a b x) as Hr. destruct (try_recv a b) as [m b']. cbn [fst snd] in Hr. by rewrite app_nil_r.
  - pose proof (drain_mail a n b x) as Hd. destruct (mailbox_drain a n b) as [out b']. cbn [fst snd] in Hd.
    by rewrite app_nil_r.
Qed.

(** C32: exactly once, in order. Over any sequence of operations on the message bus,
    what an agent has read, followed by what is still in its mailbox, is what was
    there before followed by every envelope whose [send] to it returned [Ok]: none
    lost, duplicated, reordered or delivered to another agent. *)
Theorem mailbox_exactly_once os b x :
  let '(acc, outs, b') := mrun os b in
  mail x b ++ accepted_for x acc = taken_by x outs ++ mail x b'.
Proof.
  revert b. induction os as [|o os IH]; intros b; cbn [mrun]; [by rewrite app_nil_r|].
  pose proof (mexec_mail o b x) as Ho. destruct (mexec o b) as [[acc [a out]] b1]. specialize (IH b1).
  destruct (mrun os b1) as [[accs outs] b2]. rewrite accepted_for_app, taken_by_cons, app_assoc, Ho.
  rewrite <-!app_assoc. by rewrite IH.
Qed.

Lemma mexec_ok o b : bus_ok b → bus_ok (mexec o b).2.
Proof.
  destruct o as [a|env|a|a n]; cbn [mexec]; intros Hb.
  - by apply open_mailbox_ok.
  - pose proof (send_bus_ok env b Hb). by destruct (send env b).
  - pose proof (try_recv_bus_ok a b Hb). by destruct (try_recv a b).
  - cut (bus_ok (mailbox_drain a n b).2); [by destruct (mailbox_drain a n b)|].
    revert b Hb. induction n as [|n IH]; intros b Hb; cbn [mailbox_drain]; [done|].
    pose proof (try_recv_bus_ok a b Hb) as Hr. destruct (try_recv a b) as [[e|] b1]; [|done].
    specialize (IH b1 Hr). by destruct (mailbox_drain a n b1).
Qed.

Lemma recv_cap a b : default_cap (try_recv a b).2 = default_cap b.
Proof. unfold try_recv. destruct (mailboxes b !! a) as [ch|]; [|done]. by destruct (Channel.try_recv ch). Qed.

Lemma mexec_cap o b : default_cap (mexec o b).2 = default_cap b.
Proof.
  destruct o as [a|env|a|a n]; cbn [mexec].
  - unfold open_mailbox. by repeat case_match.
  - unfold send. destruct (negb _); [done|]. destruct (mailboxes b !! to env) as [ch|]; [|done].
    by destruct (Channel.send env ch).
  - pose proof (recv_cap a b). by destruct (try_recv a b).
  - cut (default_cap (mailbox_drain a n b).2 = default_cap b); [by destruct (mailbox_drain a n b)|].
    revert b. induction n as [|n IH]; intros b; cbn [mailbox_drain]; [done|].
    pose proof (recv_cap a b) as Hr. destruct (try_recv a b) as [[e|] b1]; [|done].
    specialize (IH b1). destruct (mailbox_drain a n b1). cbn in *. congruence.
Qed.

(** Bounds. From a new bus with any mailbox capacity, whatever the agents do,
    there are never more than 64 mailboxes and no mailbox ever holds more than its
    capacity. *)
Theorem mailboxes_bounded os cap x :
  let b := (mrun os (with_capacity cap)).2 in
  Z.of_nat (size (mailboxes b)) ≤ MAX_MAILBOXES ∧ pending x b ≤ Z.max 0 cap.
Proof.
  cut (∀ b, bus_ok b → bus_ok (mrun os b).2 ∧ default_cap (mrun os b).2 = default_cap b).
  { intros Hall b. destruct (Hall (with_capacity cap)) as [[Hn Hc] Hd]; [by split|]. split; [exact Hn|].
    fold b in Hc, Hd. unfold pending. destruct (mailboxes b !! x) as [ch|] eqn:E; [|lia].
    destruct (Hc _ _ E) as [Hch Hcap]. unfold len, chan_ok in *. rewrite Hcap, Hd in Hch. exact Hch. }
  induction os as [|o os IH]; intros b Hb; cbn [mrun]; [done|].
  pose proof (mexec_ok o b Hb) as H1. assert (Hd : default_cap (mexec o b).2 = default_cap b) by apply mexec_cap.
  destruct (mexec o b) as [[acc out] b1]. destruct (IH b1 H1) as [H2 Hd2].
  destruct (mrun os b1) as [[accs outs] b2]. cbn in *. split; [done|congruence].
Qed.

(** The boot self-test of the message bus passes. *)
Theorem message_bus_self_test : self_test = true.
Proof. vm_compute. reflexivity. Qed.

End MessageBus.
