(* ===== verification/EventStamp.v ===== *)
(** Provenance stamps of the event bus ([crates/event-bus/src/stamp.rs]): each
    published event gets a stamp whose hash chains the previous one, in a ring of
    512 that remembers the hash before its oldest entry. *)

From S2P Require Import Prelude Checksum.
Import Fnv.

Module Stamp.

Definition STAMP_RING_CAP : Z := 512.
Definition HASH_PREFIX_MAX : Z := 256.

Record Stamp := mkStamp {
  seq : Z; event_id : Z; token_id : Z; publisher : Z; causal_parent_id : Z; taint_label : Z;
  algo : Z; digest_len : Z; payload_digest : bytes; chain_hash : bytes;
}.

Record StampRing := mkRing {
  entries : list Stamp; last_hash : bytes; base_hash : bytes; next_seq : Z; dropped : Z;
}.

Definition zero_hash : bytes := replicate 32 Byte.x00.

Definition new : StampRing := mkRing [] zero_hash zero_hash 0 0.

Definition push (st : Stamp) (r : StampRing) : StampRing :=
  let '(es, base, drp) :=
    if STAMP_RING_CAP <=? zlen (entries r) then
      match entries r with
      | ev :: es => (es, chain_hash ev, u64_sat_add (dropped r) 1)
      | [] => ([], base_hash r, dropped r)
      end
    else (entries r, base_hash r, dropped r) in
  mkRing (es ++ [st]) (chain_hash st) base (u64_add (seq st) 1) drp.

(** FNV-1a 64, padded to 32 bytes. *)
Definition fnv1a64_pad32 (data : bytes) : bytes :=
  to_le_bytes 8 (fnv OFFSET data) ++ replicate 24 Byte.x00.

(** A function pointer: [Fallback] is the address of [fnv1a64_pad32], whether or not it was
    passed to [register_audit_hooks], and [Registered h] any other function's; [algo_for]
    compares addresses, not what the functions compute. *)
Inductive HashFn := Fallback | Registered (h : bytes → bytes).

Definition hash (f : HashFn) : bytes → bytes :=
  match f with Fallback => fnv1a64_pad32 | Registered h => h end.

Definition algo_for (f : HashFn) : Z := match f with Fallback => 0 | Registered _ => 1 end.

(** [copy_into] on a fixed buffer and a cursor, capped at the room left. *)
Definition copy_into (src : bytes) (d : bytes * Z) : bytes * Z :=
  let '(dst, pos) := d in
  let room := u64_sat_sub (zlen dst) pos in
  let n := Z.min (zlen src) room in
  (splice pos (slice 0 n src) dst, pos + n).

Definition put_u64 (v : Z) : bytes * Z → bytes * Z := copy_into (to_le_bytes 8 v).
Definition put_u32 (v : Z) : bytes * Z → bytes * Z := copy_into (to_le_bytes 4 v).

Definition filled (d : bytes * Z) : bytes := slice 0 d.2 d.1.

Definition chain_of (prev_hash : bytes) (seq event_id token_id publisher causal_parent_id taint_label
    algo digest_len : Z) (payload_digest : bytes) (hasher : HashFn) : bytes :=
  let cbuf := (replicate 128 Byte.x00, 0) in
  let cbuf := copy_into prev_hash cbuf in
  let cbuf := put_u64 seq cbuf in
  let cbuf := put_u64 event_id cbuf in
  let cbuf := put_u64 token_id cbuf in
  let cbuf := put_u64 publisher cbuf in
  let cbuf := put_u64 causal_parent_id cbuf in
  let cbuf := put_u32 taint_label cbuf in
  let cbuf := copy_into (to_le_bytes 1 algo) cbuf in
  let cbuf := put_u32 digest_len cbuf in
  let cbuf := copy_into payload_digest cbuf in
  hash hasher (filled cbuf).

Definition starts_with (p l : bytes) : bool := bool_decide (slice 0 (zlen p) l = p).

Definition build_stamp (seq event_id token_id publisher : Z) (prev_hash topic payload : bytes)
    (hasher : HashFn) : Stamp :=
  let prefix_len := if starts_with (as_bytes "AUDIO_") topic then 0 else Z.min (zlen payload) HASH_PREFIX_MAX in
  let algo := algo_for hasher in
  let digest_len := prefix_len in
  let causal_parent_id := 0 in
  let taint_label := 0 in
  let topic_n := Z.min (zlen topic) 64 in
  let dbuf := (replicate 328 Byte.x00, 0) in
  let dbuf := copy_into (slice 0 topic_n topic) dbuf in
  let dbuf := copy_into (slice 0 prefix_len payload) dbuf in
  let dbuf := put_u64 (zlen payload) dbuf in
  let payload_digest := hash hasher (filled dbuf) in
  let chain := chain_of prev_hash seq event_id token_id publisher causal_parent_id taint_label
                 algo digest_len payload_digest hasher in
  mkStamp seq event_id token_id publisher causal_parent_id taint_label algo digest_len payload_digest chain.

(** The hash an entry must carry, given its predecessor's. *)
Definition want (prev : bytes) (st : Stamp) (hasher : HashFn) : bytes :=
  chain_of prev (seq st) (event_id st) (token_id st) (publisher st) (causal_parent_id st) (taint_label st)
    (algo st) (digest_len st) (payload_digest st) (if algo st =? 0 then Fallback else hasher).

(** [Ok(n)] is [inl n], [Err(seq)] is [inr seq]. *)
Fixpoint verify_from (prev : bytes) (n : Z) (es : list Stamp) (hasher : HashFn) : Z + Z :=
  match es with
  | [] => inl n
  | st :: es' =>
      if negb (bool_decide (want prev st hasher = chain_hash st)) then inr (seq st)
      else verify_from (chain_hash st) (n + 1) es' hasher
  end.

Definition verify_stamps (r : StampRing) (hasher : HashFn) : Z + Z :=
  verify_from (base_hash r) 0 (entries r) hasher.

(** ** Layout of the hashed buffers *)

(** The buffer holds [pre], then [n] bytes of room. *)
Definition cursor (d : bytes * Z) (pre : bytes) (n : Z) : Prop :=
  ∃ post, d = (pre ++ post, zlen pre) ∧ zlen post = n.

Lemma cursor_copy src d pre n :
  cursor d pre n → zlen src ≤ n → cursor (copy_into src d) (pre ++ src) (n - zlen src).
Proof.
  intros (post & -> & <-) Hfit. exists (drop (length src) post). unfold copy_into.
  pose proof (zlen_nonneg pre). rewrite !zlen_app. unfold u64_sat_sub. rewrite Z.min_l by lia.
  rewrite slice_full, splice_app_r, Z.sub_diag, splice_0 by lia. rewrite <-app_assoc. split; [done|].
  unfold zlen in *. rewrite length_drop. lia.
Qed.

Lemma cursor_filled d pre n : cursor d pre n → filled d = pre.
Proof. intros (post & -> & _). by apply slice_app_exact. Qed.

(** What the chain hash covers: 113 bytes, every field at a fixed place. *)
Definition chain_input (prev : bytes) (st : Stamp) : bytes :=
  prev ++ to_le_bytes 8 (seq st) ++ to_le_bytes 8 (event_id st) ++ to_le_bytes 8 (token_id st)
  ++ to_le_bytes 8 (publisher st) ++ to_le_bytes 8 (causal_parent_id st) ++ to_le_bytes 4 (taint_label st)
  ++ to_le_bytes 1 (algo st) ++ to_le_bytes 4 (digest_len st) ++ payload_digest st.

(** One more [copy_into] on the buffer [H] describes. *)
Ltac put src H := apply (cursor_copy src) in H; [|rewrite ?zlen_to_le_bytes; lia].

Lemma want_input prev st hasher :
  zlen prev = 32 → zlen (payload_digest st) = 32 →
  want prev st hasher = hash (if algo st =? 0 then Fallback else hasher) (chain_input prev st).
Proof.
  intros Hp Hd. unfold want, chain_of, put_u64, put_u32. f_equal.
  assert (H0 : cursor (replicate 128 Byte.x00, 0) [] 128) by (by exists (replicate 128 Byte.x00)).
  put prev H0.
  put (to_le_bytes 8 (seq st)) H0.
  put (to_le_bytes 8 (event_id st)) H0.
  put (to_le_bytes 8 (token_id st)) H0.
  put (to_le_bytes 8 (publisher st)) H0.
  put (to_le_bytes 8 (causal_parent_id st)) H0.
  put (to_le_bytes 4 (taint_label st)) H0.
  put (to_le_bytes 1 (algo st)) H0.
  put (to_le_bytes 4 (digest_len st)) H0.
  put (payload_digest st) H0.
  erewrite cursor_filled by exact H0. unfold chain_input. by rewrite <-!app_assoc.
Qed.

(** ** The ring keeps a verifiable chain *)

Definition stamp_ok (st : Stamp) : Prop := zlen (payload_digest st) = 32 ∧ zlen (chain_hash st) = 32.

(** Each entry carries the hash of its predecessor and its fields, under the
    hasher its [algo] names. *)
Fixpoint chained (prev : bytes) (es : list Stamp) (h : HashFn) : Prop :=
  match es with
  | [] => True
  | st :: es' => want prev st h = chain_hash st ∧ chained (chain_hash st) es' h
  end.

Definition tip (prev : bytes) (es : list Stamp) : bytes := from_option chain_hash prev (last es).

Record ring_ok (h : HashFn) (r : StampRing) : Prop := mkRingOk {
  r_len : zlen (entries r) ≤ STAMP_RING_CAP;
  r_chain : chained (base_hash r) (entries r) h;
  r_tip : last_hash r = tip (base_hash r) (entries r);
}.

Lemma chained_snoc prev es st h :
  chained prev (es ++ [st]) h ↔ chained prev es h ∧ want (tip prev es) st h = chain_hash st.
Proof.
  revert prev. induction es as [|e es IH]; intros prev; [unfold tip; cbn; naive_solver|].
  cbn [app chained]. rewrite IH. unfold tip. rewrite last_cons. destruct (last es); cbn; naive_solver.
Qed.

Lemma verify_chained prev n es h : chained prev es h → verify_from prev n es h = inl (n + zlen es).
Proof.
  revert prev n. induction es as [|st es IH]; intros prev n Hc; [cbn; f_equal; unfold zlen; simpl; lia|].
  destruct Hc as [Hw Hc]. cbn [verify_from]. rewrite bool_decide_eq_true_2 by done. cbn [negb].
  rewrite IH by done. f_equal. rewrite zlen_cons. lia.
Qed.

(** A stamp built on the ring's last hash, by the fallback or by [h]. *)
Lemma push_ring_ok h r st : ring_ok h r → want (last_hash r) st h = chain_hash st → ring_ok h (push st r).
Proof.
  intros [Hl Hc Ht] Hw. unfold push. destruct (Z.leb_spec STAMP_RING_CAP (zlen (entries r))) as [Hfull|Hroom].
  - destruct (entries r) as [|ev es] eqn:E; [by vm_compute in Hfull|]. destruct Hc as [_ Hc].
    rewrite zlen_cons in *. split; cbn [entries base_hash last_hash].
    + rewrite zlen_app. change (zlen [st]) with 1. lia.
    + apply chained_snoc. split; [done|]. rewrite <-Hw, Ht. unfold tip. rewrite last_cons. by destruct (last es).
    + unfold tip. by rewrite last_snoc.
  - split; cbn [entries base_hash last_hash].
    + rewrite zlen_app. change (zlen [st]) with 1. lia.
    + apply chained_snoc. split; [done|]. by rewrite <-Ht.
    + unfold tip. by rewrite last_snoc.
Qed.

Lemma build_stamp_want seq0 id tok pub prev topic payload hasher h :
  hasher = Fallback ∨ hasher = h →
  let st := build_stamp seq0 id tok pub prev topic payload hasher in want prev st h = chain_hash st.
Proof. intros [->|Hh]; [done|subst]. unfold want. cbn. by destruct h. Qed.

Lemma new_ring_ok h : ring_ok h new.
Proof. by split. Qed.

(** ** Tampering *)

Lemma length_to_le_bytes n z : length (to_le_bytes n z) = n.
Proof. pose proof (zlen_to_le_bytes n z). unfold zlen in *. lia. Qed.

Lemma to_le_bytes_inj n a b :
  0 ≤ a < 2 ^ (Z.of_nat n * 8) → 0 ≤ b < 2 ^ (Z.of_nat n * 8) → to_le_bytes n a = to_le_bytes n b → a = b.
Proof. intros Ha Hb He. rewrite <-(from_to_le_bytes n a), <-(from_to_le_bytes n b) by done. by rewrite He. Qed.

(** Fields at their machine widths. *)
Definition widths (st : Stamp) : Prop :=
  0 ≤ seq st < 2 ^ 64 ∧ 0 ≤ event_id st < 2 ^ 64 ∧ 0 ≤ token_id st < 2 ^ 64 ∧ 0 ≤ publisher st < 2 ^ 64 ∧
  0 ≤ causal_parent_id st < 2 ^ 64 ∧ 0 ≤ taint_label st < 2 ^ 32 ∧ 0 ≤ algo st < 2 ^ 8 ∧
  0 ≤ digest_len st < 2 ^ 32 ∧ zlen (payload_digest st) = 32.

Lemma chain_input_inj prev st st' :
  widths st → widths st' → chain_input prev st = chain_input prev st' → chain_hash st = chain_hash st' → st = st'.
Proof.
  intros (A1 & A2 & A3 & A4 & A5 & A6 & A7 & A8 & A9) (B1 & B2 & B3 & B4 & B5 & B6 & B7 & B8 & B9) He Hc.
  unfold chain_input in He. apply app_inv_head in He.
  repeat match type of He with
  | to_le_bytes ?n ?x ++ _ = to_le_bytes ?n ?y ++ _ =>
      let E := fresh "E" in
      apply app_inj_1 in He as [E He]; [|by rewrite !length_to_le_bytes];
      apply to_le_bytes_inj in E; [|done..]
  end.
  destruct st, st'. cbn in *. by subst.
Qed.

Lemma chained_app prev A B h : chained prev (A ++ B) h ↔ chained prev A h ∧ chained (tip prev A) B h.
Proof.
  revert prev. induction A as [|a A IH]; intros prev; [unfold tip; cbn; naive_solver|].
  cbn [app chained]. rewrite IH. unfold tip. rewrite last_cons. destruct (last A); cbn; naive_solver.
Qed.

Lemma verify_app prev n A st B h :
  chained prev A h →
  verify_from prev n (A ++ st :: B) h = verify_from (tip prev A) (n + zlen A) (st :: B) h.
Proof.
  revert prev n. induction A as [|a A IH]; intros prev n Hc.
  { change (zlen (@nil Stamp)) with 0. by rewrite Z.add_0_r. }
  destruct Hc as [Hw Hc]. cbn [app]. rewrite zlen_cons, Z.add_assoc. unfold tip. rewrite last_cons.
  etrans; [|etrans; [apply (IH (chain_hash a) (n + 1) Hc)|]].
  - cbn [verify_from]. by rewrite (bool_decide_eq_true_2 (want prev a h = _)) by done.
  - unfold tip. by destruct (last A).
Qed.

Definition with_entries (es : list Stamp) (r : StampRing) : StampRing :=
  mkRing es (last_hash r) (base_hash r) (next_seq r) (dropped r).

Definition set_chain_hash (c : bytes) (st : Stamp) : Stamp :=
  mkStamp (seq st) (event_id st) (token_id st) (publisher st) (causal_parent_id st) (taint_label st)
    (algo st) (digest_len st) (payload_digest st) c.

(** Tamper evidence of the fields. Take a ring whose chain is intact and change
    any fields of any one entry (its algorithm tag and stored hash apart): the audit
    names that entry, unless the change is a collision of the hash function on the
    113-byte record it covers. *)
Theorem tampered_fields_detected h r A st B st' :
  ring_ok h r → entries r = A ++ st :: B → zlen (tip (base_hash r) A) = 32 →
  widths st → widths st' → algo st' = algo st → chain_hash st' = chain_hash st → st' ≠ st →
  verify_stamps (with_entries (A ++ st' :: B) r) h = inr (seq st')
  ∨ ∃ x y, x ≠ y ∧ zlen x = 113 ∧ zlen y = 113 ∧
      hash (if algo st =? 0 then Fallback else h) x = hash (if algo st =? 0 then Fallback else h) y.
Proof.
  intros [_ Hc _] He Hp Hw Hw' Ha Hh Hne. rewrite He in Hc.
  pose proof (proj1 (chained_app _ _ _ _) Hc) as [HcA [HwA _]].
  set (prev := tip (base_hash r) A) in *. unfold verify_stamps. cbn [with_entries base_hash entries].
  rewrite verify_app by done. cbn [verify_from]. fold prev.
  destruct (decide (want prev st' h = chain_hash st')) as [Heq|Hd]; [|left; by rewrite bool_decide_eq_false_2].
  right. assert (Hz : ∀ s0, widths s0 → zlen (payload_digest s0) = 32) by (by intros s0 (? & ? & ? & ? & ? & ? & ? & ? & ?)).
  rewrite want_input, Ha, Hh in Heq by auto. rewrite want_input in HwA by auto.
  exists (chain_input prev st), (chain_input prev st'). split_and!.
  - intros Hin. apply Hne. symmetry. by apply (chain_input_inj prev).
  - unfold chain_input. rewrite !zlen_app, !zlen_to_le_bytes, Hp, Hz by done. lia.
  - unfold chain_input. rewrite !zlen_app, !zlen_to_le_bytes, Hp, Hz by done. lia.
  - congruence.
Qed.

(** Tamper evidence of the hashes. Replacing the stored hash of any one entry of
    an intact ring by anything else makes the audit stop at that entry. *)
Theorem tampered_hash_detected h r A st B c :
  ring_ok h r → entries r = A ++ st :: B → c ≠ chain_hash st →
  verify_stamps (with_entries (A ++ set_chain_hash c st :: B) r) h = inr (seq st).
Proof.
  intros [_ Hc _] He Hne. rewrite He in Hc. pose proof (proj1 (chained_app _ _ _ _) Hc) as [HcA [HwA _]].
  unfold verify_stamps. cbn [with_entries base_hash entries]. rewrite verify_app by done. cbn [verify_from].
  rewrite bool_decide_eq_false_2; [done|]. cbn [chain_hash set_chain_hash].
  change (want ?p (set_chain_hash c st) h) with (want p st h). rewrite HwA. congruence.
Qed.

(** A ring of three stamps made by the fallback. *)
Definition demo_ring : StampRing :=
  let add i r := push (build_stamp i (1000 + i) 1 42 (last_hash r) (as_bytes "TEST") (as_bytes "hello") Fallback) r in
  add 2 (add 1 (add 0 new)).

Lemma demo_ring_ok h : ring_ok h demo_ring.
Proof.
  unfold demo_ring. repeat (apply push_ring_ok; [|apply build_stamp_want; by left]). apply new_ring_ok.
Qed.

Definition demo_entry (i : nat) : Stamp :=
  default (build_stamp 0 0 0 0 [] [] [] Fallback) (entries demo_ring !! i).

Lemma tampered_hash_detected_witness :
  verify_stamps (with_entries ([demo_entry 0] ++ set_chain_hash zero_hash (demo_entry 1) :: [demo_entry 2]) demo_ring)
    Fallback = inr 1.
Proof.
  apply (tampered_hash_detected Fallback demo_ring [demo_entry 0] (demo_entry 1) [demo_entry 2] zero_hash).
  - apply demo_ring_ok.
  - by vm_compute.
  - by vm_compute.
Defined.

Definition forged : Stamp :=
  let st := demo_entry 1 in
  mkStamp (seq st) 0xDEAD (token_id st) (publisher st) (causal_parent_id st) (taint_label st)
    (algo st) (digest_len st) (payload_digest st) (chain_hash st).

Lemma tampered_fields_detected_witness :
  verify_stamps (with_entries ([demo_entry 0] ++ forged :: [demo_entry 2]) demo_ring) Fallback = inr 1
  ∨ ∃ x y, x ≠ y ∧ zlen x = 113 ∧ zlen y = 113 ∧
      hash (if algo (demo_entry 1) =? 0 then Fallback else Fallback) x
      = hash (if algo (demo_entry 1) =? 0 then Fallback else Fallback) y.
Proof.
  apply (tampered_fields_detected Fallback demo_ring [demo_entry 0] (demo_entry 1) [demo_entry 2] forged).
  - apply demo_ring_ok.
  - by vm_compute.
  - by vm_compute.
  - repeat split; by vm_compute.
  - repeat split; by vm_compute.
  - by vm_compute.
  - by vm_compute.
  - by vm_compute.
Defined.

End Stamp.
