(* ===== verification/EventTopics.v ===== *)
(** The topic buses of the event-bus crate: [EventBus] ([bus.rs]) and [LatentBus]
    ([latent.rs]), publish/subscribe with bounded drop-oldest queues shared between
    the topic map and the receivers. *)

From S2P Require Import Prelude EventBus EventStamp.
Import Capability.

(** * Queues shared by the topic map and the receivers *)

Module Topics.

Section Topics.
Context {A : Type}.

(** The topic map, the store of queues, the queues whose receiver is alive, and
    the next allocation. *)
Record Topics := mkTopics {
  subscribers : gmap string (list nat);
  queues : gmap nat (list A);
  alive : gset nat;
  next : nat;
}.

Definition empty : Topics := mkTopics ∅ ∅ ∅ 0.

Record Receiver := mkRx { topic : string; queue : nat }.

Definition set_subscribers (m : gmap string (list nat)) (s : Topics) : Topics :=
  mkTopics m (queues s) (alive s) (next s).
Definition set_queues (q : gmap nat (list A)) (s : Topics) : Topics :=
  mkTopics (subscribers s) q (alive s) (next s).

(** [while q.len() >= depth { q.pop_front() }; q.push_back(x)]. *)
Fixpoint pop_down (depth : nat) (q : list A) : list A :=
  match q with
  | [] => []
  | _ :: q' => if (depth <=? length q)%nat then pop_down depth q' else q
  end.

Definition push_bounded (q : list A) (x : A) (depth : nat) : list A := pop_down depth q ++ [x].

Definition subscribe (t : string) (s : Topics) : Receiver * Topics :=
  let q := next s in
  let qs := match subscribers s !! t with Some qs => qs ++ [q] | None => [q] end in
  (mkRx t q, mkTopics (<[t := qs]> (subscribers s)) (<[q := []]> (queues s)) ({[q]} ∪ alive s) (S q)).

Definition retain (t : string) (P : nat → Prop) `{!∀ q, Decision (P q)} (s : Topics) : Topics :=
  match subscribers s !! t with
  | None => s
  | Some qs =>
      let qs' := filter P qs in
      set_subscribers (if bool_decide (qs' = []) then delete t (subscribers s)
                       else <[t := qs']> (subscribers s)) s
  end.

Definition unsubscribe (rx : Receiver) (s : Topics) : Topics := retain (topic rx) (λ q, q ≠ queue rx) s.

(** The receiver goes out of scope. *)
Definition drop_rx (rx : Receiver) (s : Topics) : Topics :=
  mkTopics (subscribers s) (queues s) (alive s ∖ {[queue rx]}) (next s).

Definition pop (q : nat) (s : Topics) : option A * Topics :=
  match queues s !! q with
  | Some (x :: l) => (Some x, set_queues (<[q := l]> (queues s)) s)
  | _ => (None, s)
  end.

Definition contents (q : nat) (s : Topics) : list A := default [] (queues s !! q).

(** [queues.retain(|q| Arc::strong_count(q) > 1)]. *)
Definition prune (t : string) (s : Topics) : Topics := retain t (λ q, q ∈ alive s) s.

(** Fan-out over the queues of a topic, skipping the ones whose lock is busy;
    [delivered] counts the others. *)
Fixpoint fan_out (busy : nat → bool) (x : A) (depth : nat) (qs : list nat)
    (delivered : Z) (st : gmap nat (list A)) : Z * gmap nat (list A) :=
  match qs with
  | [] => (delivered, st)
  | q :: qs' =>
      if busy q then fan_out busy x depth qs' delivered st
      else fan_out busy x depth qs' (u64_sat_add delivered 1)
             (<[q := push_bounded (default [] (st !! q)) x depth]> st)
  end.

Definition deliver (busy : nat → bool) (x : A) (depth : nat) (t : string) (s : Topics) : Z * Topics :=
  let s1 := prune t s in
  let '(n, st) := fan_out busy x depth (default [] (subscribers s1 !! t)) 0 (queues s1) in
  (n, set_queues st s1).

(** ** Lemmas *)

Lemma pop_down_length depth q : (0 < depth)%nat → (length (pop_down depth q) < depth)%nat.
Proof.
  intros Hd. induction q as [|x q IH]; [done|]. cbn [pop_down].
  destruct (Nat.leb_spec depth (length (x :: q))); [done|]. done.
Qed.

(** Drop-oldest: the queue keeps the last [depth] of everything pushed. *)
Definition lastn (n : nat) (l : list A) : list A := drop (length l - n) l.

Lemma pop_down_drop depth q : pop_down depth q = drop (S (length q) - depth) q.
Proof.
  induction q as [|x q IH]; [by rewrite drop_nil|]. cbn [pop_down].
  destruct (Nat.leb_spec depth (length (x :: q))) as [Hle|Hlt].
  - rewrite IH. simpl length in *. replace (S (S (length q)) - depth)%nat with (S (S (length q) - depth)) by lia. done.
  - simpl length in *. replace (S (S (length q)) - depth)%nat with 0%nat by lia. done.
Qed.

Lemma push_bounded_lastn q x depth : (0 < depth)%nat → push_bounded q x depth = lastn depth (q ++ [x]).
Proof.
  intros Hd. unfold push_bounded, lastn. rewrite pop_down_drop, length_app. simpl length.
  replace (length q + 1 - depth)%nat with (S (length q) - depth)%nat by lia.
  by rewrite drop_app_le by lia.
Qed.

Lemma lastn_app n l1 l2 : lastn n (lastn n l1 ++ l2) = lastn n (l1 ++ l2).
Proof.
  unfold lastn. rewrite !length_app, length_drop, !drop_app, drop_drop, length_drop.
  f_equal; [f_equal; lia|f_equal; lia].
Qed.

Lemma lastn_length n l : (length (lastn n l) ≤ n)%nat.
Proof. unfold lastn. rewrite length_drop. lia. Qed.

(** ** Invariant *)

(** Each topic lists its queues once; a queue belongs to one topic, exists and is
    within the topic's depth. *)
Record topics_ok (depth : string → nat) (s : Topics) : Prop := mkTopicsOk {
  t_list : ∀ t qs, subscribers s !! t = Some qs → qs ≠ [] ∧ NoDup qs;
  t_owner : ∀ t t' qs qs' q, subscribers s !! t = Some qs → subscribers s !! t' = Some qs' →
    q ∈ qs → q ∈ qs' → t = t';
  t_queue : ∀ t qs q, subscribers s !! t = Some qs → q ∈ qs →
    (q < next s)%nat ∧ ∃ l, queues s !! q = Some l ∧ (length l ≤ depth t)%nat;
  t_fresh : ∀ q, is_Some (queues s !! q) → (q < next s)%nat;
}.

Lemma empty_ok depth : topics_ok depth empty.
Proof. split; cbn; try done. intros q [x Hx]. by rewrite lookup_empty in Hx. Qed.

Lemma subscribe_ok depth t s : topics_ok depth s → topics_ok depth (subscribe t s).2.
Proof.
  intros [Hl Ho Hq Hf]. cbn.
  set (qs0 := match subscribers s !! t with Some qs => qs ++ [next s] | None => [next s] end).
  assert (Hin : ∀ q, q ∈ qs0 → q = next s ∨ ∃ qs, subscribers s !! t = Some qs ∧ q ∈ qs).
  { unfold qs0. intros q. destruct (subscribers s !! t) as [qs|]; set_solver. }
  assert (Hold : ∀ t' qs' q, subscribers s !! t' = Some qs' → q ∈ qs' → (q < next s)%nat) by (intros; eapply Hq; eauto).
  split; cbn.
  - intros t' qs'. destruct (decide (t = t')) as [<-|Hne]; [|rewrite lookup_insert_ne by done; apply Hl].
    rewrite lookup_insert_eq. intros [= <-]. unfold qs0. destruct (subscribers s !! t) as [qs|] eqn:E.
    + split; [by destruct qs|]. apply NoDup_app. split_and!; [by eapply Hl| |apply NoDup_singleton].
      intros q Hq1 ->%list_elem_of_singleton. pose proof (Hold _ _ _ E Hq1). lia.
    + split; [done|apply NoDup_singleton].
  - intros t1 t2 qs1 qs2 q. rewrite !lookup_insert.
    repeat case_decide; intros E1 E2 H1 H2; simplify_eq; try done.
    + destruct (Hin _ H1) as [->|(qs & E & Hq')]; [pose proof (Hold _ _ _ E2 H2); lia|by eapply Ho].
    + destruct (Hin _ H2) as [->|(qs & E & Hq')]; [pose proof (Hold _ _ _ E1 H1); lia|by eapply Ho].
    + by eapply Ho.
  - intros t' qs' q. rewrite lookup_insert. case_decide; intros E H1; simplify_eq.
    + destruct (Hin _ H1) as [->|(qs & E & Hq')].
      * split; [lia|]. exists []. rewrite lookup_insert_eq. split; [done|simpl; lia].
      * destruct (Hq _ _ _ E Hq') as (Hlt & l & Hl' & Hd). split; [lia|]. exists l. by rewrite lookup_insert_ne by lia.
    + destruct (Hq _ _ _ E H1) as (Hlt & l & Hl' & Hd). split; [lia|]. exists l. by rewrite lookup_insert_ne by lia.
  - intros q. rewrite lookup_insert. case_decide; [lia|]. intros Hs%Hf. lia.
Qed.

(** Removing queues from one topic. *)
Lemma retain_lookup t P `{!∀ q, Decision (P q)} s t' :
  subscribers (retain t P s) !! t'
  = if decide (t' = t) then match subscribers s !! t with
      | None => None
      | Some qs => if bool_decide (filter P qs = []) then None else Some (filter P qs) end
    else subscribers s !! t'.
Proof.
  unfold retain. destruct (subscribers s !! t) as [qs|] eqn:E; [|by case_decide; subst].
  cbn. case_bool_decide; case_decide; subst;
    rewrite ?lookup_delete_eq, ?lookup_delete_ne, ?lookup_insert_eq, ?lookup_insert_ne by done; done.
Qed.

Lemma retain_rest t P `{!∀ q, Decision (P q)} s :
  queues (retain t P s) = queues s ∧ alive (retain t P s) = alive s ∧ next (retain t P s) = next s.
Proof. unfold retain. by destruct (subscribers s !! t). Qed.

Lemma retain_sub t P `{!∀ q, Decision (P q)} s t' qs' :
  (∀ qs, subscribers s !! t' = Some qs → qs ≠ []) →
  subscribers (retain t P s) !! t' = Some qs' →
  qs' ≠ [] ∧ ∃ qs, subscribers s !! t' = Some qs ∧ sublist qs' qs.
Proof.
  intros Hne. rewrite retain_lookup. case_decide as Ht; [subst t'|intros E; eauto].
  destruct (subscribers s !! t) as [qs|]; [|done]. case_bool_decide; [done|]. intros [= <-].
  split; [done|]. exists qs. split; [done|apply sublist_filter].
Qed.

Lemma retain_ok depth t P `{!∀ q, Decision (P q)} s : topics_ok depth s → topics_ok depth (retain t P s).
Proof.
  intros [Hl Ho Hq Hf]. destruct (retain_rest t P s) as (Eq & _ & En).
  assert (Hsub : ∀ t' qs', subscribers (retain t P s) !! t' = Some qs' →
            qs' ≠ [] ∧ ∃ qs, subscribers s !! t' = Some qs ∧ sublist qs' qs).
  { intros t' qs'. apply retain_sub. intros qs E. by destruct (Hl _ _ E). }
  split.
  - intros t' qs' (Hne & qs & E & Hs)%Hsub. split; [done|]. eapply sublist_NoDup; [by eapply Hl|done].
  - intros t1 t2 qs1 qs2 q (_ & qs1' & E1 & S1)%Hsub (_ & qs2' & E2 & S2)%Hsub H1 H2.
    exact (Ho _ _ _ _ q E1 E2 (elem_of_sublist _ _ _ H1 S1) (elem_of_sublist _ _ _ H2 S2)).
  - intros t' qs' q (_ & qs & E & Hs)%Hsub Hin. rewrite Eq, En. exact (Hq _ _ _ E (elem_of_sublist _ _ _ Hin Hs)).
  - intros q. rewrite Eq, En. apply Hf.
Qed.

Lemma pop_ok depth q s : topics_ok depth s → topics_ok depth (pop q s).2.
Proof.
  intros [Hl Ho Hq Hf]. unfold pop. destruct (queues s !! q) as [[|x l]|] eqn:E; [done| |done].
  split; cbn; [done|done| |].
  - intros t qs q' Et Hin. destruct (Hq _ _ _ Et Hin) as (Hlt & l' & El & Hd). split; [done|].
    rewrite lookup_insert. case_decide; [subst q'; simplify_eq; exists l; simpl in *; split; [done|lia]|eauto].
  - intros q'. rewrite lookup_insert. case_decide; [subst q'; intros _; apply Hf; by eexists|apply Hf].
Qed.

(** ** Fan-out *)

Lemma decide_iff {B} (P Q : Prop) `{Decision P, Decision Q} (x y : B) :
  (P ↔ Q) → (if decide P then x else y) = (if decide Q then x else y).
Proof. intros HPQ. destruct (decide P), (decide Q); tauto. Qed.

Lemma fan_out_lookup busy x depth qs n st q :
  NoDup qs →
  (fan_out busy x depth qs n st).2 !! q
  = if decide (q ∈ qs ∧ busy q = false) then Some (push_bounded (default [] (st !! q)) x depth) else st !! q.
Proof.
  revert n st. induction qs as [|q0 qs IH]; intros n st Hnd; cbn [fan_out].
  { rewrite decide_False by set_solver. done. }
  apply NoDup_cons in Hnd as [Hq0 Hnd]. destruct (busy q0) eqn:Eb; rewrite IH by done.
  - destruct (decide (q = q0)) as [->|Hne].
    + rewrite (decide_False (P := q0 ∈ qs ∧ _)) by (intros [? ?]; done).
      by rewrite decide_False by (intros [_ ?]; congruence).
    + apply decide_iff. set_solver.
  - destruct (decide (q = q0)) as [->|Hne].
    + rewrite (decide_False (P := q0 ∈ qs ∧ _)) by (intros [? ?]; done).
      rewrite decide_True by (split; [apply list_elem_of_here|done]). by rewrite lookup_insert_eq.
    + rewrite lookup_insert_ne by done. apply decide_iff. set_solver.
Qed.

Lemma fan_out_count busy x depth qs n st :
  0 ≤ n → n + zlen qs < 2 ^ 64 →
  (fan_out busy x depth qs n st).1 = n + zlen (filter (λ q, busy q = false) qs).
Proof.
  revert n st. induction qs as [|q qs IH]; intros n st Hn Hs; cbn [fan_out]; [by rewrite Z.add_0_r|].
  rewrite zlen_cons in Hs. rewrite filter_cons. pose proof (zlen_nonneg qs).
  destruct (busy q); rewrite IH by (rewrite ?u64_sat_add_small; lia).
  - by rewrite decide_False.
  - rewrite decide_True by done. rewrite zlen_cons, u64_sat_add_small by lia. lia.
Qed.

(** The subscribers of [t] whose receiver is alive. *)
Definition listeners (t : string) (s : Topics) : list nat :=
  filter (λ q, q ∈ alive s) (default [] (subscribers s !! t)).

Lemma prune_listeners t s : default [] (subscribers (prune t s) !! t) = listeners t s.
Proof.
  unfold prune, listeners. rewrite retain_lookup, decide_True by done.
  destruct (subscribers s !! t) as [qs|]; [|done]. simpl. case_bool_decide as E; [by rewrite E|done].
Qed.

Lemma NoDup_listeners depth t s : topics_ok depth s → NoDup (listeners t s).
Proof.
  intros Hok. unfold listeners. apply NoDup_filter. destruct (subscribers s !! t) as [qs|] eqn:E; [|constructor].
  by eapply (t_list _ _ Hok).
Qed.

Lemma deliver_queues depth busy x d t s q :
  topics_ok depth s →
  queues (deliver busy x d t s).2 !! q
  = if decide (q ∈ listeners t s ∧ busy q = false)
    then Some (push_bounded (contents q s) x d) else queues s !! q.
Proof.
  intros Hok. unfold deliver. destruct (retain_rest t (λ q, q ∈ alive s) s) as (Eq & _ & _). fold (prune t s) in Eq.
  pose proof (fan_out_lookup busy x d (listeners t s) 0 (queues (prune t s)) q (NoDup_listeners _ _ _ Hok)) as Hf.
  rewrite prune_listeners. destruct (fan_out _ _ _ _ _ _) as [n st]. cbn in *. by rewrite Hf, Eq.
Qed.

Lemma deliver_subscribers busy x d t s :
  subscribers (deliver busy x d t s).2 = subscribers (prune t s) ∧
  alive (deliver busy x d t s).2 = alive s ∧ next (deliver busy x d t s).2 = next s.
Proof.
  unfold deliver. destruct (retain_rest t (λ q, q ∈ alive s) s) as (_ & Ea & En). fold (prune t s) in Ea, En.
  by destruct (fan_out _ _ _ _ _ _).
Qed.

Lemma deliver_count depth busy x d t s :
  topics_ok depth s → zlen (listeners t s) < 2 ^ 64 →
  (deliver busy x d t s).1 = zlen (filter (λ q, busy q = false) (listeners t s)).
Proof.
  intros Hok Hs. unfold deliver. rewrite prune_listeners.
  pose proof (fan_out_count busy x d (listeners t s) 0 (queues (prune t s))) as Hf.
  destruct (fan_out _ _ _ _ _ _) as [n st]. cbn in *. rewrite Hf by lia. lia.
Qed.

Lemma deliver_ok depth busy x t s :
  topics_ok depth s → (0 < depth t)%nat → topics_ok depth (deliver busy x (depth t) t s).2.
Proof.
  intros Hok Hd. pose proof (retain_ok depth t (λ q, q ∈ alive s) s Hok) as Hp. fold (prune t s) in Hp.
  destruct (deliver_subscribers busy x (depth t) t s) as (Es & _ & En).
  destruct (retain_rest t (λ q, q ∈ alive s) s) as (Eq & _ & En'). fold (prune t s) in Eq, En'.
  pose proof (λ q, deliver_queues depth busy x (depth t) t s q Hok) as Hq. pose proof Hp as [Pl Po Pq Pf]. split.
  - rewrite Es. exact Pl.
  - rewrite Es. exact Po.
  - rewrite Es, En, <-En'. intros t' qs q E Hin. destruct (Pq _ _ _ E Hin) as (Hlt & l & El & Hl).
    split; [done|]. rewrite Hq, <-Eq. case_decide as Hc; [|by exists l]. eexists. split; [done|].
    destruct Hc as [Hlis _]. assert (t' = t) as ->.
    { apply (Po t' t qs (listeners t s) q E); [|done|done]. rewrite <-prune_listeners in Hlis |- *.
      destruct (subscribers (prune t s) !! t); [done|]. by apply elem_of_nil in Hlis. }
    rewrite push_bounded_lastn by done. apply lastn_length.
  - intros q. rewrite En, Hq. case_decide as Hc; [|apply (t_fresh _ _ Hok)]. intros _.
    destruct Hc as [Hlis _]. unfold listeners in Hlis. apply list_elem_of_filter in Hlis as [_ Hin].
    destruct (subscribers s !! t) as [qs|] eqn:E; [|by apply elem_of_nil in Hin].
    by eapply (t_queue _ _ Hok).
Qed.
End Topics.
Arguments Topics A : clear implicits.

End Topics.

(** * EventBus ([bus.rs]) *)

Module EventBus.
Import Topics.

Definition LOCK_SPIN_BUDGET : Z := 256.
Definition DEFAULT_QUEUE_DEPTH : nat := 64.
Definition STREAM_QUEUE_DEPTH : nat := 8.

Definition queue_depth_for (topic : string) : nat :=
  if bool_decide (topic = "AUDIO_FRAME") || bool_decide (topic = "AUDIO_IN") || bool_decide (topic = "AUDIO_OUT")
  then STREAM_QUEUE_DEPTH else DEFAULT_QUEUE_DEPTH.

Record Event := mkEvent { id : Z; ev_topic : string; payload : bytes; token : CapabilityToken }.

(** The bus and the module's statics; [hooks] is what [register_audit_hooks] last
    stored. *)
Record EventBus := mkBus {
  topics : Topics Event;
  next_event_id : Z;
  audit : Stamp.StampRing;
  next_seq : Z;
  AUDIT_SKIPPED : Z;
  CLONED_BYTES : Z;
  CLONED_COUNT : Z;
  hooks : option Stamp.HashFn;
}.

Definition new : EventBus := mkBus Topics.empty 1 Stamp.new 0 0 0 0 None.

Definition set_topics (t : Topics Event) (b : EventBus) : EventBus :=
  mkBus t (next_event_id b) (audit b) (next_seq b) (AUDIT_SKIPPED b) (CLONED_BYTES b) (CLONED_COUNT b) (hooks b).

(** What one call meets: locks that stay busy for the whole spin budget, and the
    publisher hook's answer. *)
Record Env := mkEnv { audit_busy : bool; map_busy : bool; queue_busy : nat → bool; publisher : Z }.

Definition register_audit_hooks (hasher : Stamp.HashFn) (b : EventBus) : EventBus :=
  mkBus (topics b) (next_event_id b) (audit b) (next_seq b) (AUDIT_SKIPPED b) (CLONED_BYTES b) (CLONED_COUNT b)
    (Some hasher).

Definition active_hasher (b : EventBus) : Stamp.HashFn :=
  match hooks b with None => Stamp.Fallback | Some h => h end.

Definition active_publisher (env : Env) (b : EventBus) : Z :=
  match hooks b with None => 0 | Some _ => publisher env end.

Definition subscribe (topic : string) (b : EventBus) : Receiver * EventBus :=
  let '(rx, t) := Topics.subscribe topic (topics b) in (rx, set_topics t b).

Definition unsubscribe (rx : Receiver) (b : EventBus) : EventBus :=
  set_topics (Topics.unsubscribe rx (topics b)) b.

Definition drop_receiver (rx : Receiver) (b : EventBus) : EventBus :=
  set_topics (Topics.drop_rx rx (topics b)) b.

(** The stamp of an event, if the ring's lock is free. *)
Definition stamp_event (env : Env) (ev : Event) (b : EventBus) : EventBus :=
  if audit_busy env then
    mkBus (topics b) (next_event_id b) (audit b) (next_seq b) (u64_add (AUDIT_SKIPPED b) 1)
      (CLONED_BYTES b) (CLONED_COUNT b) (hooks b)
  else
    let st := Stamp.build_stamp (next_seq b) (id ev) (as_legacy (token ev)) (active_publisher env b)
                (Stamp.last_hash (audit b)) (as_bytes (ev_topic ev)) (payload ev) (active_hasher b) in
    mkBus (topics b) (next_event_id b) (Stamp.push st (audit b)) (u64_add (next_seq b) 1) (AUDIT_SKIPPED b)
      (CLONED_BYTES b) (CLONED_COUNT b) (hooks b).

Definition publish (env : Env) (event : Event) (b : EventBus) : res Z * EventBus :=
  if negb (is_valid (token event)) then (Err "token de capacidade invalido", b) else
  let ev := mkEvent (next_event_id b) (ev_topic event) (payload event) (token event) in
  let b := mkBus (topics b) (u64_add (next_event_id b) 1) (audit b) (next_seq b) (AUDIT_SKIPPED b)
             (CLONED_BYTES b) (CLONED_COUNT b) (hooks b) in
  let b := stamp_event env ev b in
  if map_busy env then (Ok 0, b) else
  let '(n, t) := Topics.deliver (queue_busy env) ev (queue_depth_for (ev_topic ev)) (ev_topic ev) (topics b) in
  (Ok n, mkBus t (next_event_id b) (audit b) (next_seq b) (AUDIT_SKIPPED b)
           (u64_add (CLONED_BYTES b) (n * zlen (payload ev))) (u64_add (CLONED_COUNT b) n) (hooks b)).

Definition try_receive (env : Env) (rx : Receiver) (b : EventBus) : option Event * EventBus :=
  if queue_busy env (queue rx) then (None, b)
  else let '(r, t) := Topics.pop (queue rx) (topics b) in (r, set_topics t b).

Definition pending_len (env : Env) (rx : Receiver) (b : EventBus) : Z :=
  if queue_busy env (queue rx) then 0 else zlen (Topics.contents (queue rx) (topics b)).

Definition has_pending (env : Env) (rx : Receiver) (b : EventBus) : bool :=
  if queue_busy env (queue rx) then false else negb (bool_decide (length (Topics.contents (queue rx) (topics b)) = 0%nat)).

(** [Err(u64::MAX)] when the ring's lock stays busy. *)
Definition audit_verify (env : Env) (b : EventBus) : Z + Z :=
  if audit_busy env then inr U64_MAX else Stamp.verify_stamps (audit b) (active_hasher b).

Definition audit_dropped (env : Env) (b : EventBus) : Z :=
  if audit_busy env then AUDIT_SKIPPED b else Stamp.dropped (audit b).

Definition subscriber_count (env : Env) (topic : string) (b : EventBus) : Z * EventBus :=
  if map_busy env then (0, b) else
  let t := Topics.prune topic (topics b) in
  (zlen (default [] (Topics.subscribers t !! topic)), set_topics t b).

(** ** Any use of the bus *)

Inductive bop :=
| BSubscribe (topic : string)
| BUnsubscribe (rx : Receiver)
| BDrop (rx : Receiver)
| BPublish (ev : Event)
| BReceive (rx : Receiver)
| BCount (topic : string)
| BRegister (hasher : Stamp.HashFn).

Definition bexec (env : Env) (o : bop) (b : EventBus) : EventBus :=
  match o with
  | BSubscribe t => (subscribe t b).2
  | BUnsubscribe rx => unsubscribe rx b
  | BDrop rx => drop_receiver rx b
  | BPublish ev => (publish env ev b).2
  | BReceive rx => (try_receive env rx b).2
  | BCount t => (subscriber_count env t b).2
  | BRegister h => register_audit_hooks h b
  end.

Definition brun (l : list (Env * bop)) (b : EventBus) : EventBus := fold_left (λ b eo, bexec eo.1 eo.2 b) l b.

Lemma depth_pos t : (0 < queue_depth_for t)%nat.
Proof. unfold queue_depth_for. destruct (_ || _); unfold STREAM_QUEUE_DEPTH, DEFAULT_QUEUE_DEPTH; lia. Qed.

(** Queues within their depth, and an intact stamp chain under [h]. *)
Record bus_ok (h : Stamp.HashFn) (b : EventBus) : Prop := mkBusOk {
  b_topics : topics_ok queue_depth_for (topics b);
  b_ring : ∀ hf, hooks b = None ∨ hf = h → Stamp.ring_ok hf (audit b);
  b_hooks : hooks b = None ∨ hooks b = Some h;
}.

Lemma new_bus_ok h : bus_ok h new.
Proof. split; [apply Topics.empty_ok|intros; apply Stamp.new_ring_ok|by left]. Qed.

Lemma stamp_event_ok h env ev b : bus_ok h b → bus_ok h (stamp_event env ev b) ∧ topics (stamp_event env ev b) = topics b.
Proof.
  intros [Ht Hr Hh]. unfold stamp_event. destruct (audit_busy env); (split; [|done]); split; cbn; try done.
  intros hf Hhf. apply Stamp.push_ring_ok; [by apply Hr|]. apply Stamp.build_stamp_want. unfold active_hasher.
  destruct Hh as [E|E]; rewrite E; [by left|]. right. destruct Hhf as [E'|E']; congruence.
Qed.

Lemma publish_ok h env ev b : bus_ok h b → bus_ok h (publish env ev b).2.
Proof.
  intros Hb. unfold publish. destruct (negb _); [done|].
  set (ev' := mkEvent _ _ _ _). set (b1 := mkBus _ _ _ _ _ _ _ _).
  assert (Hb1 : bus_ok h b1) by (by destruct Hb).
  destruct (stamp_event_ok h env ev' b1 Hb1) as [[Ht Hr Hh] _].
  destruct (map_busy env); [done|].
  pose proof (Topics.deliver_ok queue_depth_for (queue_busy env) ev' (ev_topic ev') _ Ht (depth_pos _)) as Hd.
  destruct (Topics.deliver _ _ _ _ _) as [n t]. by split.
Qed.

Lemma bexec_ok h env o b :
  bus_ok h b → (∀ h', o = BRegister h' → h' = h) → bus_ok h (bexec env o b).
Proof.
  intros Hb Ho. destruct o as [t|rx|rx|ev|rx|t|h']; cbn [bexec].
  - destruct Hb as [Ht Hr Hh]. pose proof (Topics.subscribe_ok _ t _ Ht). unfold subscribe. cbn. by split.
  - destruct Hb as [Ht Hr Hh]. split; [by apply Topics.retain_ok|done|done].
  - destruct Hb as [[] Hr Hh]. split; [by split|done|done].
  - by apply publish_ok.
  - unfold try_receive. destruct (queue_busy _ _); [done|]. destruct Hb as [Ht Hr Hh].
    pose proof (Topics.pop_ok _ (queue rx) _ Ht) as Hp. destruct (Topics.pop _ _) as [r t]. by split.
  - unfold subscriber_count. destruct (map_busy env); [done|]. destruct Hb as [Ht Hr Hh].
    split; [by apply Topics.retain_ok|done|done].
  - rewrite (Ho h' eq_refl). destruct Hb as [Ht Hr Hh]. split; [done| |by right].
    intros hf [E|E]; [done|]. apply Hr. by right.
Qed.

Lemma brun_ok h l b :
  bus_ok h b → Forall (λ eo, ∀ h', eo.2 = BRegister h' → h' = h) l → bus_ok h (brun l b).
Proof.
  intros Hb Hl. revert b Hb. induction Hl as [|[env o] l Ho _ IH]; intros b Hb; [done|].
  cbn. apply IH. by apply bexec_ok.
Qed.

(** ** The queues alone, whatever hashers are registered *)

Lemma stamp_event_topics env ev b :
  topics (stamp_event env ev b) = topics b ∧ next_event_id (stamp_event env ev b) = next_event_id b.
Proof. unfold stamp_event. by destruct (audit_busy env). Qed.

(** The event as it is queued: the bus overwrites the identifier. *)
Definition numbered (b : EventBus) (ev : Event) : Event :=
  mkEvent (next_event_id b) (ev_topic ev) (payload ev) (token ev).

Lemma publish_topics env ev b :
  topics (publish env ev b).2
  = if negb (is_valid (token ev)) || map_busy env then topics b
    else (Topics.deliver (queue_busy env) (numbered b ev) (queue_depth_for (ev_topic ev)) (ev_topic ev) (topics b)).2.
Proof.
  unfold publish. destruct (negb _); [done|]. cbn [orb].
  set (ev' := mkEvent _ _ _ _). set (b1 := mkBus _ _ _ _ _ _ _ _).
  pose proof (proj1 (stamp_event_topics env ev' b1)) as E. destruct (map_busy env); [done|].
  rewrite E. change (topics b1) with (topics b). by destruct (Topics.deliver _ _ _ _ _).
Qed.

Lemma bexec_topics_ok env o b :
  topics_ok queue_depth_for (topics b) → topics_ok queue_depth_for (topics (bexec env o b)).
Proof.
  intros Ht. destruct o as [t|rx|rx|ev|rx|t|h']; cbn [bexec].
  - exact (Topics.subscribe_ok _ t _ Ht).
  - by apply Topics.retain_ok.
  - destruct Ht. by split.
  - rewrite publish_topics. destruct (_ || _); [done|]. apply Topics.deliver_ok; [done|apply depth_pos].
  - unfold try_receive. destruct (queue_busy _ _); [done|].
    pose proof (Topics.pop_ok _ (queue rx) _ Ht) as Hp. by destruct (Topics.pop _ _).
  - unfold subscriber_count. destruct (map_busy env); [done|]. by apply Topics.retain_ok.
  - done.
Qed.

Lemma brun_topics_ok l b :
  topics_ok queue_depth_for (topics b) → topics_ok queue_depth_for (topics (brun l b)).
Proof. revert b. induction l as [|[env o] l IH]; intros b Hb; [done|]. cbn. by apply IH, bexec_topics_ok. Qed.

Lemma used_topics_ok l : topics_ok queue_depth_for (topics (brun l new)).
Proof. apply brun_topics_ok, Topics.empty_ok. Qed.

(** ** A receiver that stays subscribed and does not read *)

Definition quietb (q : nat) (eo : Env * bop) : bool :=
  negb (map_busy eo.1) && negb (queue_busy eo.1 q)
  && match eo.2 with
     | BUnsubscribe rx | BDrop rx | BReceive rx => negb (queue rx =? q)%nat
     | _ => true
     end.

Definition accepted (t : string) (o : bop) (b : EventBus) : list Event :=
  match o with
  | BPublish ev => if is_valid (token ev) && bool_decide (ev_topic ev = t) then [numbered b ev] else []
  | _ => []
  end.

(** The events accepted on topic [t] along a run, as they are queued. *)
Fixpoint published (t : string) (l : list (Env * bop)) (b : EventBus) : list Event :=
  match l with
  | [] => []
  | (env, o) :: l' => accepted t o b ++ published t l' (bexec env o b)
  end.

Lemma listeners_retain q t t' P `{!∀ q, Decision (P q)} (s : Topics Event) :
  P q → q ∈ listeners t s → q ∈ listeners t (retain t' P s).
Proof.
  intros HP. unfold listeners. destruct (retain_rest t' P s) as (_ & -> & _). rewrite retain_lookup.
  case_decide as Ht; [subst t'|done]. destruct (subscribers s !! t) as [qs|]; [|done].
  simpl. rewrite !list_elem_of_filter. intros [Ha Hq].
  assert (Hf : q ∈ filter P qs) by (by apply list_elem_of_filter).
  case_bool_decide as E; [|done]. rewrite E in Hf. by apply elem_of_nil in Hf.
Qed.

Lemma quiet_step t q env o b :
  topics_ok queue_depth_for (topics b) → q ∈ listeners t (topics b) → quietb q (env, o) = true →
  q ∈ listeners t (topics (bexec env o b)) ∧
  contents q (topics (bexec env o b))
  = lastn (queue_depth_for t) (contents q (topics b) ++ accepted t o b).
Proof.
  intros Hok Hq Hquiet. unfold quietb in Hquiet. cbn in Hquiet.
  apply andb_prop in Hquiet as [[Hmap%negb_true_iff Hbusy%negb_true_iff]%andb_prop Hop].
  assert (Hsub : ∃ qs, subscribers (topics b) !! t = Some qs ∧ q ∈ qs ∧ q ∈ alive (topics b)).
  { unfold listeners in Hq. apply list_elem_of_filter in Hq as [Ha Hq].
    destruct (subscribers (topics b) !! t) as [qs|]; [by exists qs|by apply elem_of_nil in Hq]. }
  destruct Hsub as (qs & Eqs & Hqs & Halive).
  destruct (t_queue _ _ Hok _ _ _ Eqs Hqs) as (Hlt & l & El & Hl).
  assert (Hc : contents q (topics b) = l) by (unfold contents; by rewrite El).
  assert (Hid : lastn (queue_depth_for t) (l ++ []) = l).
  { rewrite app_nil_r. unfold lastn. replace (length l - queue_depth_for t)%nat with 0%nat by lia. done. }
  rewrite Hc. destruct o as [t'|rx|rx|ev|rx|t'|h']; cbn [bexec accepted]; rewrite ?Hid.
  - unfold subscribe. cbn. split.
    + unfold listeners. cbn. apply list_elem_of_filter. split; [set_solver|]. rewrite lookup_insert.
      case_decide as E; [subst t'; rewrite Eqs; cbn; set_solver|by rewrite Eqs].
    + unfold contents. cbn. rewrite lookup_insert_ne by lia. by rewrite El.
  - split; [apply listeners_retain; [|done]|].
    + apply negb_true_iff, Nat.eqb_neq in Hop. congruence.
    + unfold unsubscribe, contents. cbn. destruct (retain_rest (topic rx) (λ q, q ≠ queue rx) (topics b)) as (E & _).
      unfold Topics.unsubscribe. by rewrite E, El.
  - apply negb_true_iff, Nat.eqb_neq in Hop. split; [|by unfold contents; cbn; rewrite El].
    unfold listeners. cbn. rewrite Eqs. apply list_elem_of_filter. split; [set_solver|done].
  - rewrite publish_topics, Hmap, orb_false_r. destruct (is_valid (token ev)); [|cbn; by rewrite Hid].
    cbn [negb andb]. pose proof (deliver_queues _ (queue_busy env) (numbered b ev) (queue_depth_for (ev_topic ev))
      (ev_topic ev) _ q Hok) as Hd.
    destruct (deliver_subscribers (queue_busy env) (numbered b ev) (queue_depth_for (ev_topic ev)) (ev_topic ev) (topics b))
      as (Es & Ea & _). split.
    + unfold listeners. rewrite Es, Ea. pose proof (listeners_retain q t (ev_topic ev) (λ q, q ∈ alive (topics b)) _ Halive Hq) as Hr.
      unfold listeners in Hr. fold (prune (ev_topic ev) (topics b)) in Hr.
      destruct (retain_rest (ev_topic ev) (λ q, q ∈ alive (topics b)) (topics b)) as (_ & E & _).
      fold (prune (ev_topic ev) (topics b)) in E. by rewrite E in Hr.
    + unfold contents at 1. rewrite Hd, Hc. case_bool_decide as Et.
      * subst t. rewrite decide_True by done. cbn. apply push_bounded_lastn, depth_pos.
      * rewrite decide_False, El, Hid; [done|]. intros [Hl' _]. apply Et. unfold listeners in Hl'.
        apply list_elem_of_filter in Hl' as [_ Hl'].
        destruct (subscribers (topics b) !! ev_topic ev) as [qs'|] eqn:E'; [|by apply elem_of_nil in Hl'].
        by eapply (t_owner _ _ Hok).
  - unfold try_receive. destruct (queue_busy env (queue rx)); [done|].
    apply negb_true_iff, Nat.eqb_neq in Hop. unfold Topics.pop.
    destruct (queues (topics b) !! queue rx) as [[|x l']|]; cbn; [done| |done].
    split; [done|]. unfold contents. cbn. by rewrite lookup_insert_ne by done.
  - unfold subscriber_count. rewrite Hmap. cbn. split; [by apply listeners_retain|].
    destruct (retain_rest t' (λ q, q ∈ alive (topics b)) (topics b)) as (E & _).
    fold (prune t' (topics b)) in E. unfold contents. by rewrite E, El.
  - done.
Qed.

Lemma quiet_run t q l b :
  topics_ok queue_depth_for (topics b) → q ∈ listeners t (topics b) → forallb (quietb q) l = true →
  contents q (topics (brun l b)) = lastn (queue_depth_for t) (contents q (topics b) ++ published t l b).
Proof.
  revert b. induction l as [|[env o] l IH]; intros b Hok Hq Hl.
  - cbn. destruct (list_elem_of_filter (λ q, q ∈ alive (topics b)) (default [] (subscribers (topics b) !! t)) q) as [Hf _].
    specialize (Hf Hq) as [_ Hqs]. destruct (subscribers (topics b) !! t) as [qs|] eqn:E; [|by apply elem_of_nil in Hqs].
    destruct (t_queue _ _ Hok _ _ _ E Hqs) as (_ & l & El & Hlen). unfold contents. rewrite El. simpl.
    rewrite app_nil_r. unfold lastn. by replace (length l - queue_depth_for t)%nat with 0%nat by lia.
  - cbn in Hl. apply andb_prop in Hl as [Ho Hl].
    destruct (quiet_step t q env o b Hok Hq Ho) as [Hq' Hc].
    change (brun ((env, o) :: l) b) with (brun l (bexec env o b)).
    rewrite IH by (done || by apply bexec_topics_ok). rewrite Hc, lastn_app. cbn [published]. by rewrite app_assoc.
Qed.

(** C19: Publishing after any use of the bus, with the map's lock free: the event
    gets the next identifier; exactly the live subscribers of its topic whose queue
    lock is free receive it, and the result is their number; each such queue becomes
    the last [depth] events of what it held followed by the new one, every other
    queue is as it was, and subscribers whose receiver is gone are forgotten. *)
Theorem publish_delivers l env ev :
  let b := brun l new in
  let hit q := q ∈ listeners (ev_topic ev) (topics b) ∧ queue_busy env q = false in
  is_valid (token ev) = true → map_busy env = false →
  zlen (listeners (ev_topic ev) (topics b)) < 2 ^ 64 →
  (publish env ev b).1
  = Ok (zlen (filter (λ q, queue_busy env q = false) (listeners (ev_topic ev) (topics b)))) ∧
  (∀ q, contents q (topics (publish env ev b).2)
        = if decide (hit q) then lastn (queue_depth_for (ev_topic ev)) (contents q (topics b) ++ [numbered b ev])
          else contents q (topics b)) ∧
  default [] (subscribers (topics (publish env ev b).2) !! ev_topic ev) = listeners (ev_topic ev) (topics b).
Proof.
  intros b hit Hv Hm Hs. pose proof (used_topics_ok l) as Hok. fold b in Hok.
  assert (Hr : (publish env ev b).1 = Ok (Topics.deliver (queue_busy env) (numbered b ev) (queue_depth_for (ev_topic ev)) (ev_topic ev) (topics b)).1).
  { unfold publish. rewrite Hv, Hm. cbn [negb]. set (ev' := mkEvent _ _ _ _). set (b1 := mkBus _ _ _ _ _ _ _ _).
    rewrite (proj1 (stamp_event_topics env ev' b1)). change (topics b1) with (topics b).
    by destruct (Topics.deliver _ _ _ _ _). }
  rewrite Hr, publish_topics, Hv, Hm. cbn [negb orb]. split_and!.
  - f_equal. by eapply deliver_count.
  - intros q. unfold contents at 1. rewrite (deliver_queues _ _ _ _ _ _ q Hok). unfold hit.
    case_decide; [|done]. cbn. apply push_bounded_lastn, depth_pos.
  - by rewrite (proj1 (deliver_subscribers _ _ _ _ _)), prune_listeners.
Qed.

Lemma publish_delivers_witness :
  let env := mkEnv false false (λ q, (q =? 1)%nat) 7 in
  let ev := mkEvent 0 "AUDIO_IN" [] (Legacy 1) in
  let b := brun [(env, BSubscribe "AUDIO_IN"); (env, BSubscribe "AUDIO_IN"); (env, BSubscribe "AUDIO_IN");
                 (env, BDrop (mkRx "AUDIO_IN" 2))] new in
  (publish env ev b).1 = Ok 1.
Proof.
  intros env ev b.
  destruct (publish_delivers [(env, BSubscribe "AUDIO_IN"); (env, BSubscribe "AUDIO_IN"); (env, BSubscribe "AUDIO_IN");
                 (env, BDrop (mkRx "AUDIO_IN" 2))] env ev) as [E _]; [reflexivity|reflexivity|vm_compute; reflexivity|].
  etransitivity; [exact E|]. vm_compute. reflexivity.
Defined.

(** A publish whose capability token is invalid is refused and leaves the bus,
    its identifiers, counters and audit ring untouched; one that meets a busy map
    delivers to nobody and leaves every queue as it was. *)
Theorem publish_refused env ev b :
  (is_valid (token ev) = false → publish env ev b = (Err "token de capacidade invalido", b)) ∧
  (is_valid (token ev) = true → map_busy env = true →
   (publish env ev b).1 = Ok 0 ∧ topics (publish env ev b).2 = topics b ∧
   next_event_id (publish env ev b).2 = u64_add (next_event_id b) 1).
Proof.
  split; [intros Hv; unfold publish; by rewrite Hv|].
  intros Hv Hm. rewrite publish_topics, Hv, Hm. split_and!; [|done|]; unfold publish; rewrite Hv, Hm; cbn [negb].
  - done.
  - set (ev' := mkEvent _ _ _ _). set (b1 := mkBus _ _ _ _ _ _ _ _). cbn. by rewrite (proj2 (stamp_event_topics env ev' b1)).
Qed.

Lemma publish_refused_witness :
  (publish (mkEnv false true (λ _, false) 7) (mkEvent 0 "X" [] (Legacy 0)) new).1 = Err "token de capacidade invalido"
  ∧ (publish (mkEnv false true (λ _, false) 7) (mkEvent 0 "X" [] (Legacy 1)) new).1 = Ok 0.
Proof.
  split.
  - rewrite (proj1 (publish_refused _ _ _)); reflexivity.
  - apply (proj2 (publish_refused _ _ _)); reflexivity.
Defined.

(** A receiver subscribed at any point, which then neither reads nor leaves while
    its locks are free, finds in its queue exactly the most recent events accepted on
    its topic since it subscribed, in publication order, at most [depth] of them. *)
Theorem slow_receiver_keeps_newest l0 t l :
  let rx := (subscribe t (brun l0 new)).1 in
  let b := (subscribe t (brun l0 new)).2 in
  forallb (quietb (queue rx)) l = true →
  contents (queue rx) (topics (brun l b)) = lastn (queue_depth_for t) (published t l b).
Proof.
  unfold subscribe. cbn. set (b0 := brun l0 new). set (b := set_topics _ _). intros Hl.
  pose proof (used_topics_ok l0) as Hok. fold b0 in Hok.
  assert (Hok' : topics_ok queue_depth_for (topics b)) by exact (Topics.subscribe_ok _ t _ Hok).
  assert (Hin : next (topics b0) ∈ listeners t (topics b)).
  { unfold listeners, b. cbn. rewrite lookup_insert_eq. apply list_elem_of_filter. split; [set_solver|].
    destruct (subscribers (topics b0) !! t); cbn; set_solver. }
  rewrite (quiet_run t) by done.
  unfold contents, b. cbn. by rewrite lookup_insert_eq.
Qed.

Lemma slow_receiver_keeps_newest_witness :
  let env := mkEnv false false (λ _, false) 7 in
  let pub x := (env, BPublish (mkEvent 0 "AUDIO_IN" x (Legacy 1))) in
  let rx := (subscribe "AUDIO_IN" (brun [pub []] new)).1 in
  let b := (subscribe "AUDIO_IN" (brun [pub []] new)).2 in
  map id (contents (queue rx) (topics (brun (replicate 10 (pub [])) b))) = [4; 5; 6; 7; 8; 9; 10; 11].
Proof.
  intros env pub rx b. etransitivity.
  - apply f_equal. apply (slow_receiver_keeps_newest [pub []] "AUDIO_IN" (replicate 10 (pub []))).
    vm_compute. reflexivity.
  - vm_compute. reflexivity.
Defined.

(** C20: Whatever sequence of operations the bus goes through, with whatever
    contention, as long as every [register_audit_hooks] among them passes the same hasher
    [h] (the fallback or another function): every subscribed queue stays within the depth
    of its topic (8 for the audio streams, 64 otherwise), and [audit_verify], called when
    the lock of the audit ring is free, finds the chain intact and reports every stamp the
    ring retains. With a second hasher it may not verify, and with the lock taken it
    reports an error. *)
Theorem bus_bounded_and_audited h l env :
  Forall (λ eo, ∀ h', eo.2 = BRegister h' → h' = h) l → audit_busy env = false →
  let b := brun l new in
  (∀ t qs q, subscribers (topics b) !! t = Some qs → q ∈ qs →
     (length (contents q (topics b)) ≤ queue_depth_for t)%nat) ∧
  audit_verify env b = inl (zlen (Stamp.entries (audit b))).
Proof.
  intros Hl Ha b. pose proof (brun_ok h l new (new_bus_ok h) Hl) as [Ht Hr Hh]. fold b in Ht, Hr, Hh. split.
  - intros t qs q E Hq. destruct (t_queue _ _ Ht _ _ _ E Hq) as (_ & l' & El & Hlen). unfold contents. by rewrite El.
  - unfold audit_verify. rewrite Ha. unfold Stamp.verify_stamps.
    rewrite Stamp.verify_chained; [by rewrite Z.add_0_l|]. apply Hr. unfold active_hasher.
    destruct Hh as [E|E]; rewrite E; [by left|by right].
Qed.

(** Runs that register [h] only. *)
Lemma bus_bounded_and_audited_witness :
  let env := mkEnv false false (λ _, false) 7 in
  let h := Stamp.Registered (λ _ : bytes, replicate 32 Byte.x01) in
  audit_verify env (brun [(env, BPublish (mkEvent 0 "A" [] (Legacy 1))); (env, BRegister h);
                          (env, BPublish (mkEvent 0 "B" [] (Legacy 1)))] new) = inl 2.
Proof.
  intros env h.
  destruct (bus_bounded_and_audited h [(env, BPublish (mkEvent 0 "A" [] (Legacy 1))); (env, BRegister h);
                          (env, BPublish (mkEvent 0 "B" [] (Legacy 1)))] env) as [_ E].
  - repeat constructor; cbn; intros h' [= <-]; reflexivity.
  - reflexivity.
  - rewrite E. vm_compute. reflexivity.
Defined.
End EventBus.

(** * LatentBus ([latent.rs]) *)

Module LatentBus.
Import Topics.

Definition LATENT_DIM : Z := 256.
Definition LATENT_QUEUE_DEPTH : nat := 16.

Record LatentPacket := mkPacket {
  id : Z; pk_topic : string; vec : list Z; token : CapabilityToken; norm_bits : Z }.

Record LatentBus := mkLatent {
  topics : Topics LatentPacket; next_id : Z; publish_count : Z; recv_count : Z }.

Definition new : LatentBus := mkLatent Topics.empty 1 0 0.

Definition set_topics (t : Topics LatentPacket) (b : LatentBus) : LatentBus :=
  mkLatent t (next_id b) (publish_count b) (recv_count b).

Definition subscribe (topic : string) (b : LatentBus) : Receiver * LatentBus :=
  let '(rx, t) := Topics.subscribe topic (topics b) in (rx, set_topics t b).

Definition unsubscribe (rx : Receiver) (b : LatentBus) : LatentBus :=
  set_topics (Topics.unsubscribe rx (topics b)) b.

Definition drop_receiver (rx : Receiver) (b : LatentBus) : LatentBus :=
  set_topics (Topics.drop_rx rx (topics b)) b.

(** The locks here are blocking, so no queue is skipped. *)
Definition publish (packet : LatentPacket) (b : LatentBus) : res Z * LatentBus :=
  if negb (is_valid (token packet)) then (Err "token de capacidade invalido", b) else
  let packet := mkPacket (next_id b) (pk_topic packet) (vec packet) (token packet) (norm_bits packet) in
  let '(n, t) := Topics.deliver (λ _, false) packet LATENT_QUEUE_DEPTH (pk_topic packet) (topics b) in
  (Ok n, mkLatent t (u64_add (next_id b) 1) (u64_add (publish_count b) 1) (recv_count b)).

Definition try_receive (rx : Receiver) (b : LatentBus) : option LatentPacket * LatentBus :=
  match Topics.pop (queue rx) (topics b) with
  | (Some pkt, t) => (Some pkt, mkLatent t (next_id b) (publish_count b) (u64_add (recv_count b) 1))
  | (None, t) => (None, set_topics t b)
  end.

Definition has_pending (rx : Receiver) (b : LatentBus) : bool :=
  negb (bool_decide (Topics.contents (queue rx) (topics b) = [])).

Definition stats (b : LatentBus) : Z * Z := (publish_count b, recv_count b).

Inductive lop :=
| LSubscribe (topic : string)
| LUnsubscribe (rx : Receiver)
| LDrop (rx : Receiver)
| LPublish (p : LatentPacket)
| LReceive (rx : Receiver).

Inductive lreply :=
| LDone
| LRx (rx : Receiver)
| LPublished (r : res Z)
| LGot (p : option LatentPacket).

Definition lexec (o : lop) (b : LatentBus) : lreply * LatentBus :=
  match o with
  | LSubscribe t => let '(rx, b') := subscribe t b in (LRx rx, b')
  | LUnsubscribe rx => (LDone, unsubscribe rx b)
  | LDrop rx => (LDone, drop_receiver rx b)
  | LPublish p => let '(r, b') := publish p b in (LPublished r, b')
  | LReceive rx => let '(r, b') := try_receive rx b in (LGot r, b')
  end.

Fixpoint lrun (l : list lop) (b : LatentBus) : list lreply * LatentBus :=
  match l with
  | [] => ([], b)
  | o :: l' => let '(r, b1) := lexec o b in let '(rs, b2) := lrun l' b1 in (r :: rs, b2)
  end.

Definition is_published (r : lreply) : bool := match r with LPublished (Ok _) => true | _ => false end.
Definition is_got (r : lreply) : bool := match r with LGot (Some _) => true | _ => false end.
Definition count (f : lreply → bool) (rs : list lreply) : Z := zlen (List.filter f rs).

Lemma lexec_stats o b r b' :
  lexec o b = (r, b') →
  publish_count b' = (if is_published r then u64_add (publish_count b) 1 else publish_count b) ∧
  recv_count b' = (if is_got r then u64_add (recv_count b) 1 else recv_count b).
Proof.
  destruct o as [t|rx|rx|p|rx]; cbn [lexec]; intros H.
  - unfold subscribe in H. cbn in H. by simplify_eq.
  - by simplify_eq.
  - by simplify_eq.
  - unfold publish in H. destruct (negb _); [by simplify_eq|].
    destruct (Topics.deliver _ _ _ _ _) as [n t]. by simplify_eq.
  - unfold try_receive in H. destruct (Topics.pop _ _) as [[x|] t]; by simplify_eq.
Qed.

Lemma lexec_topics_ok o b :
  topics_ok (λ _, LATENT_QUEUE_DEPTH) (topics b) → topics_ok (λ _, LATENT_QUEUE_DEPTH) (topics (lexec o b).2).
Proof.
  intros Ht. destruct o as [t|rx|rx|p|rx]; cbn [lexec].
  - exact (Topics.subscribe_ok _ t _ Ht).
  - by apply Topics.retain_ok.
  - destruct Ht. by split.
  - unfold publish. destruct (negb _); [done|]. set (p' := mkPacket _ _ _ _ _).
    pose proof (Topics.deliver_ok (λ _, LATENT_QUEUE_DEPTH) (λ _, false) p' (pk_topic p') _ Ht) as Hd.
    destruct (Topics.deliver _ _ _ _ _) as [n t]. apply Hd. unfold LATENT_QUEUE_DEPTH. lia.
  - unfold try_receive. pose proof (Topics.pop_ok _ (queue rx) _ Ht) as Hp. by destruct (Topics.pop _ _) as [[x|] t].
Qed.

Lemma lrun_stats l b rs b' :
  lrun l b = (rs, b') →
  topics_ok (λ _, LATENT_QUEUE_DEPTH) (topics b) →
  0 ≤ publish_count b → 0 ≤ recv_count b →
  publish_count b + zlen l < 2 ^ 64 → recv_count b + zlen l < 2 ^ 64 →
  publish_count b' = publish_count b + count is_published rs ∧
  recv_count b' = recv_count b + count is_got rs ∧
  topics_ok (λ _, LATENT_QUEUE_DEPTH) (topics b').
Proof.
  revert b rs. induction l as [|o l IH]; intros b rs H Ht Hp Hr Sp Sr; cbn [lrun] in H.
  { simplify_eq. unfold count. cbn. rewrite zlen_nil. lia || (split_and!; [lia|lia|done]). }
  rewrite zlen_cons in *. destruct (lexec o b) as [r b1] eqn:E. destruct (lrun l b1) as [rs' b2] eqn:E2. simplify_eq.
  destruct (lexec_stats _ _ _ _ E) as [Ep Er]. pose proof (lexec_topics_ok o b Ht) as Ht1. rewrite E in Ht1.
  pose proof (zlen_nonneg l). assert (Hbp : 0 ≤ publish_count b1 ≤ publish_count b + 1 ∧ 0 ≤ recv_count b1 ≤ recv_count b + 1).
  { rewrite Ep, Er. destruct (is_published r), (is_got r); rewrite ?u64_add_small by lia; lia. }
  destruct (IH b1 rs' E2 Ht1) as (E3 & E4 & Ht2); [lia..|].
  unfold count in *. cbn [List.filter]. rewrite E3, E4, Ep, Er.
  split_and!; [| |done].
  - destruct (is_published r); rewrite ?zlen_cons, ?u64_add_small by lia; lia.
  - destruct (is_got r); rewrite ?zlen_cons, ?u64_add_small by lia; lia.
Qed.

(** The counters of the latent bus are honest over any history: [publish_count]
    is the number of packets accepted and [recv_count] the number of packets that
    readers really obtained, never the fan-out; and no subscribed queue ever holds
    more than 16 packets. *)
Theorem latent_stats_honest l :
  zlen l < 2 ^ 64 →
  let '(rs, b) := lrun l new in
  stats b = (count is_published rs, count is_got rs) ∧
  (∀ t qs q, subscribers (topics b) !! t = Some qs → q ∈ qs →
     (length (contents q (topics b)) ≤ LATENT_QUEUE_DEPTH)%nat).
Proof.
  intros Hl. destruct (lrun l new) as [rs b] eqn:E.
  destruct (lrun_stats _ _ _ _ E) as (Ep & Er & Ht); [apply Topics.empty_ok|cbn; lia..|].
  unfold stats. rewrite Ep, Er. split; [done|].
  intros t qs q Eq Hq. destruct (t_queue _ _ Ht _ _ _ Eq Hq) as (_ & l' & El & Hlen). unfold contents. by rewrite El.
Qed.

Lemma latent_stats_honest_witness :
  let p := mkPacket 0 "THOUGHT_LLM" (replicate 256 0) (Legacy 1) 0 in
  let l := [LSubscribe "THOUGHT_LLM"; LSubscribe "THOUGHT_LLM"; LPublish p; LReceive (mkRx "THOUGHT_LLM" 0)] in
  stats (lrun l new).2 = (1, 1).
Proof.
  intros p l. assert (H : zlen l < 2 ^ 64) by (vm_compute; reflexivity).
  pose proof (latent_stats_honest l H) as Hs. destruct (lrun l new) as [rs b] eqn:E.
  destruct Hs as [Hs _]. cbn [snd]. rewrite Hs. vm_compute in E. injection E as <- <-. reflexivity.
Defined.
End LatentBus.
