(* ===== verification/AgentBudget.v ===== *)
(** Support of the agent scheduler ([agent-core]): the per-agent budgets and their
    watchdog ([budget.rs]), the hook registry ([hooks.rs]), crews of agents and
    their tasks ([crew.rs]) and state graphs ([state_graph.rs]). *)

From S2P Require Import Prelude.

(** * Budgets ([budget.rs]) *)

Module Budget.

Inductive AgentWatchdogState := Normal | Warning | Paused | Crashed.

#[global] Instance AgentWatchdogState_eq_dec : EqDecision AgentWatchdogState.
Proof. solve_decision. Defined.

Record AgentBudget := mkBudget {
  ticks_used : Z; tick_budget : Z; overruns : Z; watchdog : AgentWatchdogState; agent_name : string }.

Definition new_budget (name : string) (budget : Z) : AgentBudget := mkBudget 0 budget 0 Normal name.

Definition barred (w : AgentWatchdogState) : bool := match w with Paused | Crashed => true | _ => false end.

Definition allow_poll1 (b : AgentBudget) : bool * AgentBudget :=
  if barred (watchdog b) then (false, b)
  else (true, mkBudget (u64_sat_add (ticks_used b) 1) (tick_budget b) (overruns b) (watchdog b) (agent_name b)).

Definition note_wall_overrun1 (b : AgentBudget) : AgentBudget :=
  if decide (watchdog b = Crashed) then b else
  let o := u64_sat_add (overruns b) 1 in
  mkBudget (ticks_used b) (tick_budget b) o (if 3 <? o then Paused else Warning) (agent_name b).

Definition consume1 (ticks : Z) (b : AgentBudget) : bool * AgentBudget :=
  (negb (barred (watchdog b)),
   mkBudget (u64_sat_add (ticks_used b) ticks) (tick_budget b) (overruns b) (watchdog b) (agent_name b)).

Definition reset1 (b : AgentBudget) : AgentBudget :=
  mkBudget 0 (tick_budget b) (overruns b) (if decide (watchdog b = Warning) then Normal else watchdog b) (agent_name b).

Definition recover1 (b : AgentBudget) : AgentBudget := mkBudget 0 (tick_budget b) 0 Normal (agent_name b).

(** The manager: a map by agent name and a default budget. *)
Record BudgetManager := mkManager { budgets : gmap string AgentBudget; default_budget : Z }.

Definition new : BudgetManager := mkManager ∅ 100.

Definition on (f : AgentBudget → AgentBudget) (name : string) (m : BudgetManager) : BudgetManager :=
  mkManager (alter f name (budgets m)) (default_budget m).

Definition register (name : string) (budget : option Z) (m : BudgetManager) : BudgetManager :=
  mkManager (<[name := new_budget name (default (default_budget m) budget)]> (budgets m)) (default_budget m).

Definition consume (name : string) (ticks : Z) (m : BudgetManager) : bool * BudgetManager :=
  match budgets m !! name with
  | Some b => ((consume1 ticks b).1, on (λ b, (consume1 ticks b).2) name m)
  | None => (true, m)
  end.

Definition allow_poll (name : string) (m : BudgetManager) : bool * BudgetManager :=
  match budgets m !! name with
  | Some b => ((allow_poll1 b).1, on (λ b, (allow_poll1 b).2) name m)
  | None => (true, m)
  end.

Definition note_wall_overrun : string → BudgetManager → BudgetManager := on note_wall_overrun1.
Definition recover : string → BudgetManager → BudgetManager := on recover1.

Definition reset_all (m : BudgetManager) : BudgetManager := mkManager (reset1 <$> budgets m) (default_budget m).

Definition get_state (name : string) (m : BudgetManager) : option AgentWatchdogState :=
  watchdog <$> budgets m !! name.

Definition stats (m : BudgetManager) : list (string * Z * AgentWatchdogState) :=
  map (λ kb, (agent_name kb.2, ticks_used kb.2, watchdog kb.2)) (btree_iter (budgets m)).

(** May the agent be ticked, as far as its budget goes? *)
Definition may_poll (name : string) (m : BudgetManager) : bool :=
  match budgets m !! name with Some b => negb (barred (watchdog b)) | None => true end.

Lemma allow_poll_may name m : (allow_poll name m).1 = may_poll name m.
Proof.
  unfold allow_poll, may_poll, allow_poll1. destruct (budgets m !! name) as [b|]; [|done].
  by destruct (watchdog b).
Qed.

Lemma lookup_on f name name' m :
  budgets (on f name m) !! name' = if decide (name' = name) then f <$> budgets m !! name else budgets m !! name'.
Proof.
  cbn. case_decide as E; [subst; by rewrite lookup_alter_eq|by rewrite lookup_alter_ne].
Qed.

Lemma allow_poll_lookup name name' m :
  budgets (allow_poll name m).2 !! name'
  = if decide (name' = name) then (λ b, (allow_poll1 b).2) <$> budgets m !! name else budgets m !! name'.
Proof.
  unfold allow_poll. destruct (budgets m !! name) as [b|] eqn:E; cbn [snd].
  - rewrite lookup_on, E. done.
  - case_decide as Ee; [subst; by rewrite E|done].
Qed.

(** ** The overrun account *)

(** What the scheduler does to one budget, between two recoveries. *)
Inductive bev := Overrun | Reset | Poll | Consume (n : Z).

Definition bev_exec (b : AgentBudget) (e : bev) : AgentBudget :=
  match e with
  | Overrun => note_wall_overrun1 b
  | Reset => reset1 b
  | Poll => (allow_poll1 b).2
  | Consume n => (consume1 n b).2
  end.

Fixpoint overrun_count (l : list bev) : Z :=
  match l with
  | [] => 0
  | Overrun :: l' => 1 + overrun_count l'
  | _ :: l' => overrun_count l'
  end.

Lemma overrun_count_nonneg l : 0 ≤ overrun_count l.
Proof. induction l as [|[| | |n] l IH]; cbn; lia. Qed.

Lemma overrun_count_app l l' : overrun_count (l ++ l') = overrun_count l + overrun_count l'.
Proof. induction l as [|[| | |n] l IH]; cbn; lia. Qed.

(** The states a live budget can be in. *)
Definition account_ok (n : Z) (b : AgentBudget) : Prop :=
  overruns b = Z.min n U64_MAX ∧ watchdog b ≠ Crashed ∧ (watchdog b = Paused ↔ 3 < n).

Lemma bev_account n b e :
  0 ≤ n → account_ok n b → account_ok (n + overrun_count [e]) (bev_exec b e).
Proof.
  intros Hn (Ho & Hc & Hp). unfold account_ok. destruct e as [| | |k]; cbn -[U64_MAX u64_sat_add].
  - unfold note_wall_overrun1. rewrite decide_False by done. cbn -[U64_MAX]. rewrite Ho.
    unfold u64_sat_add, U64_MAX. destruct (Z.ltb_spec 3 (Z.min (Z.min n (2 ^ 64 - 1) + 1) (2 ^ 64 - 1))).
    + split_and!; [lia|done|]. split; [lia|done].
    + split_and!; [lia|done|]. split; [done|lia].
  - rewrite Z.add_0_r. split_and!; [done|by case_decide|]. rewrite <-Hp. case_decide as E; [rewrite E|]; split; congruence.
  - rewrite Z.add_0_r. unfold allow_poll1. by destruct (barred _).
  - rewrite Z.add_0_r. done.
Qed.

Lemma account_run l n b :
  0 ≤ n → account_ok n b → account_ok (n + overrun_count l) (fold_left bev_exec l b).
Proof.
  revert n b. induction l as [|e l IH]; intros n b Hn Hb; [by rewrite Z.add_0_r|].
  rewrite fold_left_cons. change (e :: l) with ([e] ++ l). rewrite overrun_count_app, Z.add_assoc.
  pose proof (overrun_count_nonneg [e]). apply IH; [lia|]. by apply bev_account.
Qed.

(** The overrun budget of an agent: over any interleaving of polls, per-cycle
    resets and slow ticks since the last recovery, the agent is refused exactly when
    more than three ticks overran; resetting the cycle never forgives an overrun. *)
Theorem paused_after_four_overruns name budget l :
  let b := fold_left bev_exec l (new_budget name budget) in
  (allow_poll1 b).1 = false ↔ 3 < overrun_count l.
Proof.
  intros b. assert (H0 : account_ok 0 (new_budget name budget)).
  { split_and!; [done|done|]. split; [done|lia]. }
  destruct (account_run l 0 _ ltac:(lia) H0) as (_ & Hc & Hp). fold b in Hc, Hp. rewrite Z.add_0_l in Hp.
  unfold allow_poll1. destruct (watchdog b); cbn; rewrite <-Hp; split; congruence.
Qed.

Lemma recover_fresh b : account_ok 0 (recover1 b).
Proof. split_and!; [done|done|]. split; [done|lia]. Qed.
End Budget.

(** * Hooks ([hooks.rs]) *)

Module Hooks.

Inductive HookResult := Allow | Block | Modify.
Inductive HookType := PreTick | PostTick | OnCrash | OnSpawn.

#[global] Instance HookResult_eq_dec : EqDecision HookResult.
Proof. solve_decision. Defined.
#[global] Instance HookType_eq_dec : EqDecision HookType.
Proof. solve_decision. Defined.

Record Hook := mkHook { hook_type : HookType; name : string; callback : string → Z → HookResult }.

Definition HookRegistry : Type := list Hook.
Definition new : HookRegistry := [].
Definition register (h : Hook) (r : HookRegistry) : HookRegistry := r ++ [h].

Fixpoint run (ty : HookType) (agent_name : string) (tick : Z) (r : HookRegistry) : list (string * HookResult) :=
  match r with
  | [] => []
  | h :: r' =>
      if decide (hook_type h = ty) then
        let result := callback h agent_name tick in
        (name h, result) :: (if decide (result = Block) then [] else run ty agent_name tick r')
      else run ty agent_name tick r'
  end.

Fixpoint check (ty : HookType) (agent_name : string) (tick : Z) (r : HookRegistry) : bool :=
  match r with
  | [] => true
  | h :: r' =>
      if decide (hook_type h = ty)
      then if decide (callback h agent_name tick = Block) then false else check ty agent_name tick r'
      else check ty agent_name tick r'
  end.

Lemma check_spec ty a t r :
  check ty a t r = true ↔ Forall (λ h, hook_type h = ty → callback h a t ≠ Block) r.
Proof.
  induction r as [|h r IH]; cbn; [done|]. rewrite Forall_cons.
  destruct (decide (hook_type h = ty)) as [E|E]; [|rewrite IH; split; [by intros|by intros [_ ?]]].
  destruct (decide (callback h a t = Block)) as [B|B]; [|rewrite IH; split; [by intros|by intros [_ ?]]].
  split; [done|]. intros [H _]. by destruct (H E).
Qed.

(** A hook chain runs in registration order up to the first [Block] and no
    further, and [check] lets the agent proceed exactly when no hook of that type
    answers [Block] ([Modify] counts as [Allow]). *)
Theorem hook_chain ty a t r :
  (∃ done rest, filter (λ h, hook_type h = ty) r = done ++ rest ∧
     run ty a t r = map (λ h, (name h, callback h a t)) done ∧
     (rest = [] ∨ ∃ h, last done = Some h ∧ callback h a t = Block) ∧
     Forall (λ h, callback h a t ≠ Block) (take (length done - 1) done)) ∧
  (check ty a t r = true ↔ Forall (λ x, x.2 ≠ Block) (run ty a t r)).
Proof.
  split.
  - induction r as [|h r (dn & rest & Ef & Er & Hl & Hn)]; cbn [run]; [by exists [], []; auto|].
    rewrite filter_cons. destruct (decide (hook_type h = ty)) as [E|E]; [|by exists dn, rest].
    destruct (decide (callback h a t = Block)) as [B|B].
    + exists [h], (filter (λ h, hook_type h = ty) r). cbn. split_and!; [done|done|right; by exists h|constructor].
    + exists (h :: dn), rest. rewrite Ef, Er. split_and!; [done|done| |].
      * destruct Hl as [->|(h' & Hh & Hb)]; [by left|right]. exists h'. by rewrite last_cons, Hh.
      * destruct dn as [|h' dn]; cbn in *; [constructor|]. rewrite Nat.sub_0_r in Hn. by constructor.
  - induction r as [|h r IH]; cbn; [done|]. destruct (decide (hook_type h = ty)); [|done].
    destruct (decide (callback h a t = Block)) as [B|B]; cbn.
    + split; [done|]. intros Hf. inversion Hf. done.
    + rewrite IH, Forall_cons. cbn. tauto.
Qed.
End Hooks.

(** * Crews ([crew.rs]) *)

(** [iter_mut().find(p)] followed by an update of what it found. *)
Fixpoint update_first {A} (p : A → bool) (f : A → A) (l : list A) : list A :=
  match l with
  | [] => []
  | x :: l' => if p x then f x :: l' else x :: update_first p f l'
  end.

Lemma find_update_first {A} (p : A → bool) f l :
  (∀ x, p x = true → p (f x) = true) → List.find p (update_first p f l) = f <$> List.find p l.
Proof.
  intros Hf. induction l as [|x l IH]; [done|]. cbn. destruct (p x) eqn:E; cbn; [by rewrite Hf|by rewrite E].
Qed.

Module Crews.

Inductive ProcessType := Sequential | Hierarchical.
Inductive OutputSchema := OAny | OString | OJson (keys : list string).

Record ScheduledTask := mkTask {
  id : Z; description : string; agent_name : string; skill : string; depends_on : list Z;
  expected_output : OutputSchema; priority : Z; done : bool; result : bytes }.

Record Crew := mkCrew {
  crew_id : Z; name : string; goal : string; process : ProcessType; agent_ids : list nat;
  tasks : list ScheduledTask; active : bool }.

Definition new_crew (id : Z) (name goal : string) (process : ProcessType) : Crew :=
  mkCrew id name goal process [] [] false.

Definition add_task (desc agent skill : string) (c : Crew) : Z * Crew :=
  let id := (zlen (tasks c) mod 2 ^ 16 + 1) mod 2 ^ 16 in
  (id, mkCrew (crew_id c) (name c) (goal c) (process c) (agent_ids c)
         (tasks c ++ [mkTask id desc agent skill [] OAny 5 false []]) (active c)).

Record CrewPool := mkPool { crews : list Crew; next_id : Z }.

Definition new : CrewPool := mkPool [] 1.

Definition create (name goal : string) (process : ProcessType) (p : CrewPool) : Z * CrewPool :=
  (next_id p, mkPool (crews p ++ [new_crew (next_id p) name goal process]) ((next_id p + 1) mod 2 ^ 16)).

Definition get (cid : Z) (p : CrewPool) : option Crew := List.find (λ c, crew_id c =? cid) (crews p).

Definition update (cid : Z) (f : Crew → Crew) (p : CrewPool) : CrewPool :=
  mkPool (update_first (λ c, crew_id c =? cid) f (crews p)) (next_id p).

Definition set_active (b : bool) (c : Crew) : Crew :=
  mkCrew (crew_id c) (name c) (goal c) (process c) (agent_ids c) (tasks c) b.
Definition set_tasks (l : list ScheduledTask) (c : Crew) : Crew :=
  mkCrew (crew_id c) (name c) (goal c) (process c) (agent_ids c) l (active c).

Definition assign_to_crew (cid : Z) (agent_idx : nat) : CrewPool → CrewPool :=
  update cid (λ c, if decide (agent_idx ∈ agent_ids c) then c
                   else mkCrew (crew_id c) (name c) (goal c) (process c) (agent_ids c ++ [agent_idx])
                          (tasks c) (active c)).

Definition kickoff (cid : Z) (p : CrewPool) : bool * CrewPool :=
  match get cid p with Some _ => (true, update cid (set_active true) p) | None => (false, p) end.

(** Dependencies on unknown tasks count as met. *)
Definition dep_met (l : list ScheduledTask) (dep : Z) : bool :=
  match List.find (λ dt, id dt =? dep) l with Some dt => done dt | None => true end.

Definition ready (l : list ScheduledTask) (t : ScheduledTask) : bool :=
  if done t then false else forallb (dep_met l) (depends_on t).

Definition next_ready_task (cid : Z) (p : CrewPool) : option ScheduledTask :=
  c ← get cid p; if negb (active c) then None else List.find (ready (tasks c)) (tasks c).

Definition finish (r : bytes) (t : ScheduledTask) : ScheduledTask :=
  mkTask (id t) (description t) (agent_name t) (skill t) (depends_on t) (expected_output t) (priority t) true r.

Definition complete_in (tid : Z) (r : bytes) (c : Crew) : Crew :=
  let c := set_tasks (update_first (λ t, id t =? tid) (finish r) (tasks c)) c in
  if forallb done (tasks c) then set_active false c else c.

Definition complete_task (cid tid : Z) (r : bytes) : CrewPool → CrewPool := update cid (complete_in tid r).

Definition list_active (p : CrewPool) : list Crew := List.filter active (crews p).

(** ** Running a crew to completion *)

Lemma get_update cid f p :
  (∀ c, crew_id (f c) = crew_id c) → get cid (update cid f p) = f <$> get cid p.
Proof. intros Hf. unfold get, update. cbn. apply find_update_first. intros c. by rewrite Hf. Qed.

Lemma complete_in_id tid r c : crew_id (complete_in tid r c) = crew_id c.
Proof. unfold complete_in. by destruct (forallb done _). Qed.

(** Take the next ready task, complete it, and again. *)
Fixpoint drive (n : nat) (work : ScheduledTask → bytes) (cid : Z) (p : CrewPool) : list Z * CrewPool :=
  match n with
  | O => ([], p)
  | S n' =>
      match next_ready_task cid p with
      | None => ([], p)
      | Some t => let '(l, p') := drive n' work cid (complete_task cid (id t) (work t) p) in (id t :: l, p')
      end
  end.

Definition undone (l : list ScheduledTask) : list Z := map id (List.filter (λ t, negb (done t)) l).

(** Dependencies can be ranked. *)
Definition acyclic (rank : Z → nat) (l : list ScheduledTask) : Prop :=
  ∀ t dep, t ∈ l → dep ∈ depends_on t → dep ∈ map id l → (rank dep < rank (id t))%nat.

Lemma find_id l dep : match List.find (λ t, id t =? dep) l with
                      | Some t => t ∈ l ∧ id t = dep
                      | None => dep ∉ map id l end.
Proof.
  induction l as [|t l IH]; cbn; [set_solver|]. destruct (Z.eqb_spec (id t) dep); [set_solver|].
  destruct (List.find _ l); set_solver.
Qed.

Lemma ready_exists rank l t0 :
  acyclic rank l → t0 ∈ l → done t0 = false → ∃ t, t ∈ l ∧ ready l t = true.
Proof.
  intros Ha. remember (rank (id t0)) as n eqn:En. revert t0 En.
  induction n as [n IH] using lt_wf_ind. intros t0 -> Hin Hd.
  destruct (forallb (dep_met l) (depends_on t0)) eqn:E; [exists t0; unfold ready; rewrite Hd; by split|].
  assert (Hex : existsb (λ d, negb (dep_met l d)) (depends_on t0) = true).
  { clear -E. induction (depends_on t0) as [|d ds IH]; [done|]. cbn in *. destruct (dep_met l d); [by apply IH|done]. }
  apply existsb_exists in Hex as (dep & Hdep%list_elem_of_In & Hnm).
  unfold dep_met in Hnm. pose proof (find_id l dep) as Hf.
  destruct (List.find _ l) as [dt|]; [|done]. destruct Hf as [Hdt Eid].
  apply (IH (rank dep)) with dt; [|by rewrite Eid|done|by destruct (done dt)].
  apply (Ha t0 dep Hin Hdep). apply list_elem_of_fmap. by exists dt.
Qed.

Lemma find_ready rank l :
  acyclic rank l → undone l ≠ [] → ∃ t, List.find (ready l) l = Some t ∧ t ∈ l ∧ ready l t = true.
Proof.
  intros Ha Hu. destruct (List.find (ready l) l) as [t|] eqn:E.
  { apply find_some in E as [Hin Hr]. exists t. rewrite list_elem_of_In. auto. }
  exfalso. unfold undone in Hu. destruct (List.filter (λ t, negb (done t)) l) as [|t0 rest] eqn:Ef; [done|].
  assert (Ht0 : In t0 (List.filter (λ t, negb (done t)) l)) by (rewrite Ef; by left).
  apply filter_In in Ht0 as [Hin Hd]. apply negb_true_iff in Hd.
  destruct (ready_exists rank l t0 Ha) as (t & Ht & Hr); [by apply list_elem_of_In|done|].
  pose proof (find_none _ _ E t) as Hnone. rewrite <-list_elem_of_In in Hnone. rewrite Hnone in Hr; done.
Qed.

Lemma finish_undone l t r :
  NoDup (map id l) → t ∈ l → done t = false →
  undone l ≡ₚ id t :: undone (update_first (λ x, id x =? id t) (finish r) l).
Proof.
  intros Hnd Hin Hd. induction l as [|x l IH]; [by apply elem_of_nil in Hin|].
  cbn in Hnd. apply NoDup_cons in Hnd as [Hx Hnd]. unfold undone in *. cbn.
  destruct (Z.eqb_spec (id x) (id t)) as [E|E]; cbn.
  - assert (x = t) as ->.
    { apply elem_of_cons in Hin as [<-|Hin]; [done|]. destruct Hx. rewrite E. apply list_elem_of_fmap. by exists t. }
    by rewrite Hd.
  - apply elem_of_cons in Hin as [->|Hin]; [done|]. destruct (negb (done x)); cbn; rewrite IH by done; [|done].
    apply Permutation_swap.
Qed.

Lemma update_first_ids tid r l :
  map id (update_first (λ x, id x =? tid) (finish r) l) = map id l ∧
  ∀ t', t' ∈ update_first (λ x, id x =? tid) (finish r) l → ∃ t, t ∈ l ∧ id t' = id t ∧ depends_on t' = depends_on t.
Proof.
  induction l as [|x l [IH1 IH2]]; cbn; [set_solver|]. destruct (id x =? tid); cbn.
  - split; [done|]. intros t' [->|Hin]%elem_of_cons; [exists x|exists t']; set_solver.
  - split; [by rewrite IH1|]. intros t' [->|Hin]%elem_of_cons; [exists x; set_solver|].
    destruct (IH2 t' Hin) as (t & Ht & E). exists t. set_solver.
Qed.

Lemma acyclic_finish rank tid r l :
  acyclic rank l → acyclic rank (update_first (λ x, id x =? tid) (finish r) l).
Proof.
  intros Ha t' dep Hin Hdep Hid. destruct (update_first_ids tid r l) as [E1 E2]. rewrite E1 in Hid.
  destruct (E2 t' Hin) as (t & Ht & -> & Ed). rewrite Ed in Hdep. by apply (Ha t).
Qed.

Lemma undone_nil l : undone l = [] ↔ forallb done l = true.
Proof. unfold undone. induction l as [|t l IH]; cbn; [done|]. destruct (done t); cbn; [done|]. by split. Qed.

Lemma drive_all rank work cid n p c :
  get cid p = Some c → NoDup (map id (tasks c)) → acyclic rank (tasks c) → active c = true →
  length (undone (tasks c)) = S n →
  ∃ l p' c', drive (S n) work cid p = (l, p') ∧ get cid p' = Some c' ∧
    l ≡ₚ undone (tasks c) ∧ undone (tasks c') = [] ∧ active c' = false.
Proof.
  revert p c. induction n as [|n IH]; intros p c Hg Hnd Ha Hact Hlen.
  all: destruct (find_ready rank (tasks c) Ha) as (t & Ef & Hin & Hr); [by destruct (undone (tasks c))|].
  all: assert (Hnext : next_ready_task cid p = Some t) by (unfold next_ready_task; rewrite Hg; cbn; by rewrite Hact).
  all: assert (Hd : done t = false) by (unfold ready in Hr; by destruct (done t)).
  all: pose proof (finish_undone (tasks c) t (work t) Hnd Hin Hd) as Hu.
  all: assert (Hg' : get cid (complete_task cid (id t) (work t) p) = Some (complete_in (id t) (work t) c))
         by (unfold complete_task; rewrite get_update, Hg by (intros; apply complete_in_id); done).
  all: set (l' := update_first _ _ _) in Hu.
  all: assert (Ht' : tasks (complete_in (id t) (work t) c) = l') by (unfold complete_in; by destruct (forallb done _)).
  all: assert (Hlen' : length (undone (tasks c)) = S (length (undone l'))) by (by rewrite Hu).
  - exists [id t], (complete_task cid (id t) (work t) p), (complete_in (id t) (work t) c).
    assert (E : undone l' = []) by (apply nil_length_inv; lia).
    change (drive 1 work cid p) with (match next_ready_task cid p with None => ([], p) | Some t =>
      let '(l, p') := drive 0 work cid (complete_task cid (id t) (work t) p) in (id t :: l, p') end).
    rewrite Hnext. cbn [drive]. split_and!; [done|done|by rewrite Hu, E|by rewrite Ht'|].
    unfold complete_in. cbn [tasks set_tasks]. fold l'. by rewrite (proj1 (undone_nil l') E).
  - destruct (IH (complete_task cid (id t) (work t) p) (complete_in (id t) (work t) c)) as (l & p' & c' & Ed & Eg & Hp & Hn & Hi);
      [done|rewrite Ht'; unfold l'; by rewrite (proj1 (update_first_ids _ _ _))|
       rewrite Ht'; by apply acyclic_finish| |rewrite Ht'; lia|].
    { unfold complete_in. cbn [tasks set_tasks]. fold l'. destruct (forallb done l') eqn:E; [|done].
      apply undone_nil in E. rewrite E in Hlen'. cbn in Hlen'. lia. }
    exists (id t :: l), p', c'.
    change (drive (S (S n)) work cid p) with (match next_ready_task cid p with None => ([], p) | Some t =>
      let '(l, p') := drive (S n) work cid (complete_task cid (id t) (work t) p) in (id t :: l, p') end).
    rewrite Hnext, Ed. split_and!; [done|done| |done|done]. rewrite Ht' in Hp. by rewrite Hu, Hp.
Qed.

(** A crew whose dependencies have no cycle never gets stuck: taking the next
    ready task and completing it, as many times as there are unfinished tasks,
    executes each of them exactly once and leaves the crew finished and inactive. *)
Theorem crew_completes rank work cid p c :
  get cid p = Some c → NoDup (map id (tasks c)) → acyclic rank (tasks c) → active c = true →
  undone (tasks c) ≠ [] →
  ∃ l p' c', drive (length (undone (tasks c))) work cid p = (l, p') ∧ get cid p' = Some c' ∧
    l ≡ₚ undone (tasks c) ∧ forallb done (tasks c') = true ∧ active c' = false.
Proof.
  intros Hg Hnd Ha Hact Hu. destruct (undone (tasks c)) as [|x u] eqn:E; [done|].
  destruct (drive_all rank work cid (length u) p c Hg Hnd Ha Hact) as (l & p' & c' & H1 & H2 & H3 & H4 & H5); [by rewrite E|].
  exists l, p', c'. rewrite E in H3. rewrite <-undone_nil. done.
Qed.

(** A task is handed out only when the crew is active, the task is unfinished and
    every task of the crew it depends on is done. *)
Theorem next_ready_task_sound cid p t :
  next_ready_task cid p = Some t →
  ∃ c, get cid p = Some c ∧ active c = true ∧ t ∈ tasks c ∧ done t = false ∧
    ∀ dep dt, dep ∈ depends_on t → List.find (λ x, id x =? dep) (tasks c) = Some dt → done dt = true.
Proof.
  unfold next_ready_task. destruct (get cid p) as [c|]; [|done]. cbn. destruct (active c) eqn:Ea; [|done]. cbn.
  intros [Hin Hr]%find_some. exists c. rewrite list_elem_of_In. unfold ready in Hr. destruct (done t); [done|].
  rewrite forallb_forall in Hr. split_and!; try done. intros dep dt Hdep Hf.
  specialize (Hr dep). rewrite <-list_elem_of_In in Hr. specialize (Hr Hdep). unfold dep_met in Hr. by rewrite Hf in Hr.
Qed.

(** A crew of three tasks, the first waiting for the other two. *)
Definition demo_pool : CrewPool :=
  let task i deps := mkTask i "t" "a" "s" deps OAny 5 false [] in
  mkPool [mkCrew 1 "c" "g" Sequential [] [task 1 [2; 3]; task 2 [3]; task 3 []] true] 2.

Lemma crew_completes_witness : (drive 3 (λ _, []) 1 demo_pool).1 ≡ₚ [1; 2; 3].
Proof.
  destruct (crew_completes (λ z, Z.to_nat (3 - z)) (λ _, []) 1 demo_pool
              (mkCrew 1 "c" "g" Sequential []
                 [mkTask 1 "t" "a" "s" [2; 3] OAny 5 false []; mkTask 2 "t" "a" "s" [3] OAny 5 false [];
                  mkTask 3 "t" "a" "s" [] OAny 5 false []] true)) as (l & p' & c' & E & _ & Hp & _).
  - reflexivity.
  - apply (bool_decide_unpack _). vm_compute. exact I.
  - intros t dep Ht Hd Hm. cbn in Ht.
    repeat (apply elem_of_cons in Ht as [->|Ht]; [cbn in Hd; set_unfold in Hd; destruct_or?; subst; cbn; (lia || done)|]).
    by apply elem_of_nil in Ht.
  - reflexivity.
  - vm_compute. discriminate.
  - cbn [undone tasks List.filter done negb map length id] in E, Hp. rewrite E. exact Hp.
Defined.

Lemma next_ready_task_sound_witness :
  ∃ c, get 1 demo_pool = Some c ∧ active c = true.
Proof.
  destruct (next_ready_task_sound 1 demo_pool (mkTask 3 "t" "a" "s" [] OAny 5 false [])) as (c & Hg & Ha & _);
    [reflexivity|]. exists c. auto.
Defined.
End Crews.

(** * State graphs ([state_graph.rs]) *)

Module Graph.
Section Graph.
(** What edge conditions can read. *)
Context {W : Type}.

Record GraphNode := mkNode { agent_name : string; description : string }.
Record GraphEdge := mkEdge { from : nat; to : nat; condition : W → bool; label : string }.
Record StateGraph := mkGraph {
  nodes : list GraphNode; edges : list GraphEdge; current : option nat; start_node : nat }.

Definition new : StateGraph := mkGraph [] [] None 0.

Definition add_node (name desc : string) (g : StateGraph) : nat * StateGraph :=
  (length (nodes g), mkGraph (nodes g ++ [mkNode name desc]) (edges g) (current g) (start_node g)).

Definition add_edge (e : GraphEdge) (g : StateGraph) : StateGraph :=
  mkGraph (nodes g) (edges g ++ [e]) (current g) (start_node g).

Definition position (g : StateGraph) : nat := default (start_node g) (current g).

Definition advance (w : W) (g : StateGraph) : nat * StateGraph :=
  match List.find (λ e, (from e =? position g)%nat && condition e w) (edges g) with
  | Some e => (to e, mkGraph (nodes g) (edges g) (Some (to e)) (start_node g))
  | None => (position g, g)
  end.

Definition current_agent (g : StateGraph) : option string := agent_name <$> nodes g !! position g.

Fixpoint walk (ws : list W) (g : StateGraph) : list nat * StateGraph :=
  match ws with
  | [] => ([], g)
  | w :: ws' => let '(n, g1) := advance w g in let '(l, g2) := walk ws' g1 in (n :: l, g2)
  end.

(** Edges stay inside the graph. *)
Definition closed (g : StateGraph) : Prop :=
  (position g < length (nodes g))%nat ∧ Forall (λ e, to e < length (nodes g))%nat (edges g).

Lemma advance_closed w g : closed g → closed (advance w g).2 ∧ nodes (advance w g).2 = nodes g.
Proof.
  intros [Hp He]. unfold advance. destruct (List.find _ _) as [e|] eqn:E; [|done].
  apply find_some in E as [Hin _]. rewrite <-list_elem_of_In in Hin. rewrite Forall_forall in He.
  split; [|done]. split; cbn; [by apply He|by apply Forall_forall].
Qed.

(** A workflow whose edges point to existing nodes always designates an agent,
    whatever its edge conditions answer along the way, and each step stays put or
    follows an edge that leaves the current node and whose condition holds. *)
Theorem walk_stays_in_graph ws g :
  closed g →
  is_Some (current_agent (walk ws g).2) ∧
  ∀ w, advance w g = (position g, g) ∨
    ∃ e, e ∈ edges g ∧ from e = position g ∧ condition e w = true ∧ (advance w g).1 = to e ∧
      position (advance w g).2 = to e.
Proof.
  intros Hc. split.
  - revert g Hc. induction ws as [|w ws IH]; intros g Hc; cbn [walk].
    + cbn [snd]. destruct Hc as [Hp _]. unfold current_agent. destruct (lookup_lt_is_Some_2 _ _ Hp) as [n ->]. by eexists.
    + pose proof (advance_closed w g Hc) as [Hc' _]. destruct (advance w g) as [n g1].
      specialize (IH g1 Hc'). by destruct (walk ws g1).
  - intros w. unfold advance. destruct (List.find _ _) as [e|] eqn:E; [right|by left].
    apply find_some in E as [Hin [Hf Hcnd]%andb_prop]. exists e. rewrite list_elem_of_In.
    by apply Nat.eqb_eq in Hf.
Qed.
End Graph.
Arguments GraphEdge W : clear implicits.
Arguments StateGraph W : clear implicits.

Lemma walk_stays_in_graph_witness :
  current_agent (walk [true; false]
    (mkGraph [mkNode "observe" ""; mkNode "act" ""] [mkEdge 0 1 (λ b : bool, b) "go"] None 0)).2 = Some "act".
Proof.
  set (g := mkGraph _ _ _ _).
  destruct (proj1 (walk_stays_in_graph [true; false] g ltac:(split; [cbn; lia|repeat constructor; cbn; lia]))) as [x Hx].
  vm_compute in Hx. vm_compute. congruence.
Defined.
End Graph.
