(* ===== verification/AgentCore.v ===== *)
(** The agent registry and its cooperative scheduler ([agent-core/src/lib.rs]).

    An agent is any type with the operations of the [Agent] trait; the theorems
    hold for all of them. What the scheduler reads from the platform (clock
    readings, the shared tick latch, the UI predicates, respawn requests) is the
    input of each cycle. Diagnostics (traces, stamps, heartbeat, metrics and log
    callbacks) only observe and are left out. *)

From S2P Require Import Prelude AgentBudget.
From Stdlib Require Import Sorting.Sorted.

Module AgentCore.
Import Budget.

(** * Data *)

Inductive AgentTier := Permanent | User.
Definition tier_priority (t : AgentTier) : Z := match t with Permanent => 0 | User => 1 end.

Inductive AgentKind := System | Driver | Inference | Router | Console | Network | Skill.
Inductive ScheduleKind := Oneshot | Continuous | PollEvery (n : Z) | EventDriven.
Inductive FlowTrigger :=
| FSchedule (s : ScheduleKind)
| FStart
| FListen (topic : string)
| FRouter (topic : string).

#[global] Instance ScheduleKind_eq_dec : EqDecision ScheduleKind.
Proof. solve_decision. Defined.

Inductive AgentTickResult := Pending | TDone | TCrashed.
Inductive AgentState := Inactive | Active | Done | ACrashed.

#[global] Instance AgentState_eq_dec : EqDecision AgentState.
Proof. solve_decision. Defined.

Record AgentManifest := mkManifest {
  m_name : string; m_kind : AgentKind; m_schedule : ScheduleKind; m_auto_start : bool; m_persist : bool }.

Record CrewManifest := mkCrewM {
  role : string; goal : string; backstory : string; flow : FlowTrigger; crew_id : option Z }.

Record Bench := mkBench {
  waiting_us : Z; turnaround_us : Z; bench_ticks : Z; tick_start_ms : Z; last_end_ms : Z }.

(** The trait: [Box<dyn Agent>] is a value of some type [A] that has it. Agents talk
    to each other and to the devices through globals, the world [W] they share. *)
Class Agent (A W : Type) := {
  manifest : A → AgentManifest;
  tick : A → Z → Z → W → AgentTickResult * A * W;
  on_activate : A → W → A * W;
  has_pending : A → W → bool;
}.

(** * When an agent is due *)

(** The subtraction of two [u64] wraps in the release build. *)
Definition should_poll_flow (f : FlowTrigger) (tick last_poll : Z) (has_event : bool) : bool :=
  match f with
  | FSchedule s =>
      match s with
      | Continuous => true
      | PollEvery n => (last_poll =? 0) || (n <=? u64_sub tick last_poll)
      | Oneshot => true
      | EventDriven => has_event
      end
  | FStart => last_poll =? 0
  | FListen _ | FRouter _ => has_event
  end.

Definition watchdog_should_crash (urgency consecutive_pending : Z) : bool :=
  (urgency =? 0) && (10000 <? consecutive_pending).

Definition event_driven_has_event (last_poll : Z) (has_pending : bool) : bool := (last_poll =? 0) || has_pending.

Definition among (l : list string) (s : string) : bool := bool_decide (s ∈ l).

Definition ui_critical_agent : string → bool :=
  among ["display"; "input"; "hw_bridge"; "mouse"; "audio_mixer"; "JARBAS"; "intent_router"; "hermes_console"].

Definition heavy_agent : string → bool :=
  among ["infer_worker"; "network_agent"; "cortex_llm"; "sleep_cycle"; "auto_learn"; "self_evolve"; "browser"].

Definition TICK_WATCHDOG_MS : Z := 500.
Definition MAX_ROUNDS : Z := 10000.

(** [sort_by] with a descending comparison: a stable sort. *)
Fixpoint insert_desc {X} (score : X → Z) (x : X) (l : list X) : list X :=
  match l with
  | [] => [x]
  | y :: l' => if score y <=? score x then x :: l else y :: insert_desc score x l'
  end.

Definition sort_desc {X} (score : X → Z) (l : list X) : list X := foldr (insert_desc score) [] l.

Section Registry.
Context {A W : Type} `{!Agent A W}.

Record AgentInstance := mkInst {
  agent : A;
  state : AgentState;
  last_poll : Z;
  tick_counter : Z;
  name : string;
  auto_start : bool;
  schedule : ScheduleKind;
  consecutive_pending : Z;
  crew : CrewManifest;
  tier : AgentTier;
  affinity_ring : Z;
  goal_urgency : Z;
  novelty_score : Z;
  coherence_partner : option nat;
  paused_ticks : Z;
  lifetime_paused_polls : Z;
  bench : Bench;
}.

Definition with_agent (v : A) (a : AgentInstance) : AgentInstance :=
  mkInst v (state a) (last_poll a) (tick_counter a) (name a) (auto_start a) (schedule a)
    (consecutive_pending a) (crew a) (tier a) (affinity_ring a) (goal_urgency a) (novelty_score a)
    (coherence_partner a) (paused_ticks a) (lifetime_paused_polls a) (bench a).
Definition with_state (v : AgentState) (a : AgentInstance) : AgentInstance :=
  mkInst (agent a) v (last_poll a) (tick_counter a) (name a) (auto_start a) (schedule a)
    (consecutive_pending a) (crew a) (tier a) (affinity_ring a) (goal_urgency a) (novelty_score a)
    (coherence_partner a) (paused_ticks a) (lifetime_paused_polls a) (bench a).
Definition with_last_poll (v : Z) (a : AgentInstance) : AgentInstance :=
  mkInst (agent a) (state a) v (tick_counter a) (name a) (auto_start a) (schedule a)
    (consecutive_pending a) (crew a) (tier a) (affinity_ring a) (goal_urgency a) (novelty_score a)
    (coherence_partner a) (paused_ticks a) (lifetime_paused_polls a) (bench a).
Definition with_tick_counter (v : Z) (a : AgentInstance) : AgentInstance :=
  mkInst (agent a) (state a) (last_poll a) v (name a) (auto_start a) (schedule a)
    (consecutive_pending a) (crew a) (tier a) (affinity_ring a) (goal_urgency a) (novelty_score a)
    (coherence_partner a) (paused_ticks a) (lifetime_paused_polls a) (bench a).
Definition with_consecutive_pending (v : Z) (a : AgentInstance) : AgentInstance :=
  mkInst (agent a) (state a) (last_poll a) (tick_counter a) (name a) (auto_start a) (schedule a) v
    (crew a) (tier a) (affinity_ring a) (goal_urgency a) (novelty_score a) (coherence_partner a)
    (paused_ticks a) (lifetime_paused_polls a) (bench a).
Definition with_affinity_ring (v : Z) (a : AgentInstance) : AgentInstance :=
  mkInst (agent a) (state a) (last_poll a) (tick_counter a) (name a) (auto_start a) (schedule a)
    (consecutive_pending a) (crew a) (tier a) v (goal_urgency a) (novelty_score a)
    (coherence_partner a) (paused_ticks a) (lifetime_paused_polls a) (bench a).
Definition with_goal_urgency (v : Z) (a : AgentInstance) : AgentInstance :=
  mkInst (agent a) (state a) (last_poll a) (tick_counter a) (name a) (auto_start a) (schedule a)
    (consecutive_pending a) (crew a) (tier a) (affinity_ring a) v (novelty_score a)
    (coherence_partner a) (paused_ticks a) (lifetime_paused_polls a) (bench a).
Definition with_novelty_score (v : Z) (a : AgentInstance) : AgentInstance :=
  mkInst (agent a) (state a) (last_poll a) (tick_counter a) (name a) (auto_start a) (schedule a)
    (consecutive_pending a) (crew a) (tier a) (affinity_ring a) (goal_urgency a) v
    (coherence_partner a) (paused_ticks a) (lifetime_paused_polls a) (bench a).
Definition with_paused_ticks (v : Z) (a : AgentInstance) : AgentInstance :=
  mkInst (agent a) (state a) (last_poll a) (tick_counter a) (name a) (auto_start a) (schedule a)
    (consecutive_pending a) (crew a) (tier a) (affinity_ring a) (goal_urgency a) (novelty_score a)
    (coherence_partner a) v (lifetime_paused_polls a) (bench a).
Definition with_lifetime_paused_polls (v : Z) (a : AgentInstance) : AgentInstance :=
  mkInst (agent a) (state a) (last_poll a) (tick_counter a) (name a) (auto_start a) (schedule a)
    (consecutive_pending a) (crew a) (tier a) (affinity_ring a) (goal_urgency a) (novelty_score a)
    (coherence_partner a) (paused_ticks a) v (bench a).
Definition with_bench (v : Bench) (a : AgentInstance) : AgentInstance :=
  mkInst (agent a) (state a) (last_poll a) (tick_counter a) (name a) (auto_start a) (schedule a)
    (consecutive_pending a) (crew a) (tier a) (affinity_ring a) (goal_urgency a) (novelty_score a)
    (coherence_partner a) (paused_ticks a) (lifetime_paused_polls a) v.

Definition new_instance (a : A) : AgentInstance :=
  let m := manifest a in
  let ring := match m_schedule m with Continuous | Oneshot => 0 | PollEvery _ => 1 | EventDriven => 2 end in
  let urgency := match m_schedule m with Continuous => 100 | _ => 0 end in
  mkInst a Inactive 0 0 (m_name m) (m_auto_start m) (m_schedule m) 0
    (mkCrewM "" "" "" (FSchedule (m_schedule m)) None) Permanent ring urgency 0 None 0 0 (mkBench 0 0 0 0 0).

Record AgentRegistry := mkReg {
  agents : list AgentInstance; budget_manager : BudgetManager; hooks : Hooks.HookRegistry; world : W }.

Definition new_registry (w : W) : AgentRegistry := mkReg [] Budget.new Hooks.new w.

Definition set_agents (l : list AgentInstance) (r : AgentRegistry) : AgentRegistry :=
  mkReg l (budget_manager r) (hooks r) (world r).
Definition set_budgets (m : BudgetManager) (r : AgentRegistry) : AgentRegistry := mkReg (agents r) m (hooks r) (world r).
Definition set_world (w : W) (r : AgentRegistry) : AgentRegistry := mkReg (agents r) (budget_manager r) (hooks r) w.

(** [self.agents[i]] updated, for an index the caller has read. *)
Definition upd (i : nat) (f : AgentInstance → AgentInstance) (r : AgentRegistry) : AgentRegistry :=
  set_agents (alter f i (agents r)) r.

Definition register (a : A) (r : AgentRegistry) : nat * AgentRegistry :=
  (length (agents r),
   mkReg (agents r ++ [new_instance a]) (Budget.register (m_name (manifest a)) None (budget_manager r))
     (hooks r) (world r)).

Definition activate (i : nat) (r : AgentRegistry) : AgentRegistry :=
  match agents r !! i with
  | None => r
  | Some a =>
      let '(ag, w) := on_activate (agent a) (world r) in
      set_world w (upd i (λ _, with_agent ag (with_state Active a)) r)
  end.

Definition register_hook (h : Hooks.Hook) (r : AgentRegistry) : AgentRegistry :=
  mkReg (agents r) (budget_manager r) (Hooks.register h (hooks r)) (world r).

Definition set_budget (name : string) (max_ticks : Z) (r : AgentRegistry) : AgentRegistry :=
  set_budgets (Budget.register name (Some max_ticks) (budget_manager r)) r.

Definition named (n : string) (a : AgentInstance) : bool := bool_decide (name a = n).

Definition get (n : string) (r : AgentRegistry) : option AgentInstance := List.find (named n) (agents r).

(** [get_mut(name)] and a field update. *)
Definition set_by_name (f : AgentInstance → AgentInstance) (n : string) (r : AgentRegistry) : bool * AgentRegistry :=
  match get n r with
  | Some _ => (true, set_agents (update_first (named n) f (agents r)) r)
  | None => (false, r)
  end.

Definition set_affinity_ring (n : string) (ring : Z) : AgentRegistry → bool * AgentRegistry :=
  set_by_name (with_affinity_ring ring) n.

Definition set_urgency (n : string) (urgency : Z) : AgentRegistry → bool * AgentRegistry :=
  set_by_name (with_goal_urgency urgency) n.

Definition boost_novelty (n : string) (amount : Z) : AgentRegistry → bool * AgentRegistry :=
  set_by_name (λ a, with_novelty_score (u8_sat_add (novelty_score a) amount) a) n.

Definition apply_priority_hints (hints : list (string * Z)) (r : AgentRegistry) : AgentRegistry :=
  set_agents (fold_left (λ l h, map (λ a, if named h.1 a then with_goal_urgency h.2 a else a) l) hints (agents r)) r.

Definition active_count (r : AgentRegistry) : Z :=
  zlen (List.filter (λ a, bool_decide (state a = Active)) (agents r)).

Definition bench_snapshot (r : AgentRegistry) : list (string * Z * Z * Z) :=
  map (λ a, (name a, bench_ticks (bench a), waiting_us (bench a), turnaround_us (bench a))) (agents r).

(** ** Poll order *)

Definition ring_of (r : AgentRegistry) (i : nat) : Z := from_option affinity_ring 0 (agents r !! i).
Definition score_of (r : AgentRegistry) (i : nat) : Z :=
  from_option (λ a, goal_urgency a * 2 + novelty_score a) 0 (agents r !! i).

Definition agents_by_affinity_ring (ring : Z) (r : AgentRegistry) : list nat :=
  List.filter (λ i, ring_of r i =? ring) (seq 0 (length (agents r))).

Definition poll_order_by_affinity (r : AgentRegistry) : list nat :=
  concat (map (λ ring, sort_desc (score_of r) (agents_by_affinity_ring ring r)) [0; 1; 2])
  ++ List.filter (λ i, 2 <? ring_of r i) (seq 0 (length (agents r))).

(** ** One tick *)

Definition check_budget (i : nat) (r : AgentRegistry) : bool * AgentRegistry :=
  match agents r !! i with
  | None => (false, r)
  | Some a =>
      if 0 <? paused_ticks a then
        let a' := with_lifetime_paused_polls (u64_sat_add (lifetime_paused_polls a) 1)
                    (with_paused_ticks (u64_sat_add (paused_ticks a) 1) a) in
        if 10000 <=? lifetime_paused_polls a' then (false, upd i (λ _, with_state ACrashed a') r)
        else if 1000 <=? paused_ticks a' then
          (false, set_budgets (Budget.recover (name a) (budget_manager r)) (upd i (λ _, with_paused_ticks 0 a') r))
        else (false, upd i (λ _, a') r)
      else
        let '(ok, m) := Budget.allow_poll (name a) (budget_manager r) in
        if negb ok then
          (false, upd i (λ _, with_lifetime_paused_polls (u64_sat_add (lifetime_paused_polls a) 1)
                                (with_paused_ticks 1 a)) (set_budgets m r))
        else (true, set_budgets m r)
  end.

(** [clock]: the reading of the clock hook, when one is registered. *)
Definition bench_record (clock : option Z) (a : AgentInstance) : AgentInstance :=
  let b := bench a in
  let start := tick_start_ms b in
  if start =? 0 then a else
  match clock with
  | None => with_bench (mkBench (waiting_us b) (turnaround_us b) (bench_ticks b) 0 (last_end_ms b)) a
  | Some now =>
      let turnaround := u64_sat_sub now start in
      let waiting := if last_end_ms b =? 0 then 0 else u64_sat_sub start (last_end_ms b) in
      with_bench (mkBench (u64_sat_add (waiting_us b) (u64_sat_mul waiting 1000))
                    (u64_sat_add (turnaround_us b) (u64_sat_mul turnaround 1000))
                    (u64_sat_add (bench_ticks b) 1) 0 now) a
  end.

Definition apply_result (clock : option Z) (result : AgentTickResult) (tick_id : Z) (a : AgentInstance)
    : AgentInstance :=
  let a := with_last_poll tick_id (bench_record clock a) in
  match result with
  | Pending =>
      let a := with_consecutive_pending (u64_sat_add (consecutive_pending a) 1) a in
      if watchdog_should_crash (goal_urgency a) (consecutive_pending a) then with_state ACrashed a else a
  | TDone =>
      let a := with_consecutive_pending 0 a in
      if decide (schedule a = Oneshot) then with_state Done a else a
  | TCrashed => with_state ACrashed a
  end.

(** The crash hooks only observe. *)
Definition apply_tick_result (clock : option Z) (i : nat) (result : AgentTickResult) (tick_id : Z)
    : AgentRegistry → AgentRegistry := upd i (apply_result clock result tick_id).

(** The body run under the tick latch, for an index in range. *)
Definition call_tick (tick_id : Z) (i : nat) (a : AgentInstance) (r : AgentRegistry)
    : AgentTickResult * AgentRegistry :=
  let tc := u64_add (tick_counter a) 1 in
  let '(result, ag, w) := tick (agent a) tick_id tc (world r) in
  (result, set_world w (upd i (λ _, with_agent ag (with_tick_counter tc a)) r)).

(** ** The platform, as one cycle sees it *)

(** The platform around the tick of one agent: is the tick latch obtained within
    its budget; the clock before the tick, at the slow-tick check and when the
    result is applied; is the frame overdue after the tick, and for the display
    tick that follows, its latch and clock. *)
Record Slot := mkSlot {
  latched : bool; t0 : Z; t_slow : Z; t_end : Z; overdue : bool; d_latched : bool; d_end : Z }.

(** [respawns]: the names asked for, each with what [spawn_agent] returns. *)
Record Cycle := mkCycle {
  respawns : list (string * option A);
  smp_offload : bool; ui_live : bool; ui_overdue_now : bool; clock_set : bool; slow_set : bool;
  first_latched : bool; first_end : Z;
  slots : nat → Slot }.

Definition clock (c : Cycle) (now : Z) : option Z := if clock_set c then Some now else None.

Definition respawn (nm : string) (o : option A) (r : AgentRegistry) : AgentRegistry :=
  match o with
  | None => r
  | Some ag =>
      let i := length (agents r) in
      let r := mkReg (agents r ++ [new_instance ag]) (Budget.register nm None (budget_manager r)) (hooks r) (world r) in
      activate i r
  end.

Definition respawn_all (l : list (string * option A)) (r : AgentRegistry) : AgentRegistry :=
  fold_left (λ r x, respawn x.1 x.2 r) l r.

(** What the other cores are handed: index, ring, priority, partner, urgency. *)
Definition smp_batch (r : AgentRegistry) : list (nat * Z * Z * option nat * Z) :=
  omap (λ ia : nat * AgentInstance,
          let '(i, a) := ia in
          if bool_decide (state a = Active) && negb (affinity_ring a =? 0)
          then Some (i, affinity_ring a, tier_priority (tier a), coherence_partner a, goal_urgency a) else None)
       (imap pair (agents r)).

(** A tick of the first agent called "display", if active and the latch is free. *)
Definition tick_display (c : Cycle) (latch : bool) (t_end tick_id : Z) (pr : Z * AgentRegistry)
    : Z * AgentRegistry :=
  let '(polled, r) := pr in
  match list_find (λ a, name a = "display") (agents r) with
  | None => (polled, r)
  | Some (di, a) =>
      if bool_decide (state a = Active) && latch then
        let '(result, r) := call_tick tick_id di a r in
        (u32_sat_add polled 1, apply_tick_result (clock c t_end) di result tick_id r)
      else (polled, r)
  end.

(** The tests before the budget, in order. *)
Definition poll_due (c : Cycle) (tick_id : Z) (w : W) (a : AgentInstance) : bool :=
  let s := schedule a in
  if negb (bool_decide (state a = Active)) then false
  else if smp_offload c && (1 <=? affinity_ring a) then false
  else if ui_live c && bool_decide (name a = "display") then false
  else if ui_overdue_now c && heavy_agent (name a) then false
  else if ui_live c && negb (ui_critical_agent (name a)) && bool_decide (s = Continuous) && negb (tick_id mod 8 =? 0)
  then false
  else if ui_live c && negb (ui_critical_agent (name a))
          && match s with PollEvery _ => true | _ => false end && negb (tick_id mod 4 =? 0)
  then false
  else if (goal_urgency a =? 0) && (50 <? consecutive_pending a) && negb (tick_id mod 5 =? 0) then false
  else
    let has_event := negb (bool_decide (s = EventDriven))
                     || event_driven_has_event (last_poll a) (has_pending (agent a) w) in
    should_poll_flow (flow (crew a)) tick_id (last_poll a) has_event.

Definition poll_agent (c : Cycle) (tick_id : Z) (i : nat) (pr : Z * AgentRegistry) : res (Z * AgentRegistry) :=
  let '(polled, r) := pr in
  match agents r !! i with
  | None => Panic
  | Some a =>
      if negb (poll_due c tick_id (world r) a) then Ok (polled, r) else
      let '(ok, r) := check_budget i r in
      if negb ok then Ok (polled, r) else
      if negb (Hooks.check Hooks.PreTick (name a) tick_id (hooks r)) then Ok (polled, r) else
      let s := slots c i in
      let wdt_t0 := default 0 (clock c (t0 s)) in
      let b := bench a in
      let a := with_bench (mkBench (waiting_us b) (turnaround_us b) (bench_ticks b) wdt_t0 (last_end_ms b)) a in
      let r := upd i (λ _, a) r in
      if negb (latched s) then Ok (polled, r) else
      let '(result, r) := call_tick tick_id i a r in
      let r := if clock_set c && slow_set c && (TICK_WATCHDOG_MS <? u64_sub (t_slow s) wdt_t0)
               then set_budgets (Budget.note_wall_overrun (name a) (budget_manager r)) r else r in
      let polled := u32_sat_add polled 1 in
      let '(polled, r) :=
        if negb (bool_decide (name a = "display")) && overdue s
        then tick_display c (d_latched s) (d_end s) tick_id (polled, r) else (polled, r) in
      Ok (polled, apply_tick_result (clock c (t_end s)) i result tick_id r)
  end.

Fixpoint poll_loop (c : Cycle) (tick_id : Z) (order : list nat) (pr : Z * AgentRegistry) : res (Z * AgentRegistry) :=
  match order with
  | [] => Ok pr
  | i :: order' => pr' ← poll_agent c tick_id i pr; poll_loop c tick_id order' pr'
  end.

Definition decay (r : AgentRegistry) : AgentRegistry :=
  set_agents (map (λ a, if 0 <? novelty_score a then with_novelty_score (novelty_score a - 1) a else a) (agents r)) r.

(** One iteration of the loop of [run]. *)
Definition cycle (c : Cycle) (tick_id : Z) (r : AgentRegistry) : res (Z * AgentRegistry) :=
  let r := set_budgets (Budget.reset_all (budget_manager r)) r in
  let r := respawn_all (respawns c) r in
  let pr := if ui_live c then tick_display c (first_latched c) (first_end c) tick_id (0, r) else (0, r) in
  '(polled, r) ← poll_loop c tick_id (poll_order_by_affinity pr.2) pr;
  Ok (polled, decay r).

(** The entry of [run]: inactive agents that start on their own are activated. *)
Definition run_start (r : AgentRegistry) : AgentRegistry :=
  fold_left (λ r i, match agents r !! i with
                    | Some a => if bool_decide (state a = Inactive) && auto_start a then activate i r else r
                    | None => r end) (seq 0 (length (agents r))) r.

(** [run], for the cycles [cs] met so far; [tick_id] counts from 1. *)
Fixpoint run_from (tick_id : Z) (cs : list Cycle) (r : AgentRegistry) : res AgentRegistry :=
  match cs with
  | [] => Ok r
  | c :: cs' => '(_, r') ← cycle c tick_id r; run_from (u64_add tick_id 1) cs' r'
  end.

Definition run (cs : list Cycle) (r : AgentRegistry) : res AgentRegistry := run_from 1 cs (run_start r).

(** The same tick on another core, under the latch it waits for. *)
Definition tick_agent_by_index (clk : option (Z * Z)) (i : nat) (tick_id : Z) (r : AgentRegistry)
    : bool * AgentRegistry :=
  match agents r !! i with
  | None => (false, r)
  | Some a =>
      if negb (bool_decide (state a = Active)) then (false, r) else
      let '(ok, r) := check_budget i r in
      if negb ok then (false, r) else
      let b := bench a in
      let a' := with_bench (mkBench (waiting_us b) (turnaround_us b) (bench_ticks b) (from_option fst 0 clk) (last_end_ms b)) a in
      let '(result, r) := call_tick tick_id i a' r in
      (true, apply_tick_result (snd <$> clk) i result tick_id r)
  end.

(** ** Boot *)

Definition init_activate (r : AgentRegistry) : AgentRegistry :=
  fold_left (λ r i, match agents r !! i with
                    | Some a =>
                        if bool_decide (schedule a = Oneshot) && auto_start a
                           && negb (bool_decide (state a = Done)) && negb (bool_decide (state a = ACrashed))
                        then activate i r else r
                    | None => r end) (seq 0 (length (agents r))) r.

Definition init_step (round : Z) (st : bool * AgentRegistry) (i : nat) : bool * AgentRegistry :=
  let '(any, r) := st in
  match agents r !! i with
  | None => st
  | Some a =>
      if bool_decide (schedule a = Oneshot) && bool_decide (state a = Active) then
        let '(result, r) := call_tick round i a r in
        (true, match result with
               | TDone => upd i (with_state Done) r
               | TCrashed => upd i (with_state ACrashed) r
               | Pending => r
               end)
      else st
  end.

Definition init_round (round : Z) (r : AgentRegistry) : bool * AgentRegistry :=
  fold_left (init_step round) (seq 0 (length (agents r))) (false, r).

(** At most [left] more rounds. *)
Fixpoint init_rounds (left : nat) (round : Z) (r : AgentRegistry) : AgentRegistry :=
  match left with
  | O => r
  | S left' => let '(any, r') := init_round round r in if any then init_rounds left' (round + 1) r' else r'
  end.

Definition init_phase (r : AgentRegistry) : AgentRegistry := init_rounds (Z.to_nat MAX_ROUNDS) 1 (init_activate r).
End Registry.
Arguments AgentInstance A : clear implicits.
Arguments AgentRegistry A W : clear implicits.
Arguments Cycle A : clear implicits.

End AgentCore.
