(* ===== verification/AgentThm.v ===== *)
(** What the scheduler guarantees: the poll order, which agents a cycle may change,
    how often an agent is ticked, the pause and crash policy, and the boot phase. *)

From S2P Require Import Prelude AgentBudget AgentCore.
Import AgentCore Budget.
From Stdlib Require Import Sorting.Sorted.

(** * Poll order *)

Section SortDesc.
Context {X : Type} (score : X → Z).

Lemma insert_desc_perm x l : insert_desc score x l ≡ₚ x :: l.
Proof.
  induction l as [|y l IH]; cbn; [done|]. destruct (score y <=? score x); [done|].
  rewrite IH. apply Permutation_swap.
Qed.

Lemma sort_desc_perm l : sort_desc score l ≡ₚ l.
Proof. induction l as [|x l IH]; cbn; [done|]. by rewrite insert_desc_perm, IH. Qed.

(** Descending scores; equal scores keep the order [R] of the input. *)
Definition desc (R : X → X → Prop) (x y : X) : Prop := score y < score x ∨ score y = score x ∧ R x y.

Lemma insert_desc_sorted R x l :
  Forall (R x) l → StronglySorted (desc R) l → StronglySorted (desc R) (insert_desc score x l).
Proof.
  intros HR Hs. induction Hs as [|y l Hs IH Hy]; cbn; [by repeat constructor|].
  apply Forall_cons in HR as [HRy HR]. destruct (Z.leb_spec (score y) (score x)) as [Hle|Hgt].
  - constructor; [by constructor|]. rewrite Forall_cons. split; [unfold desc; destruct (decide (score y = score x)); [by right|left; lia]|].
    rewrite Forall_forall in Hy, HR |- *. intros z Hz. destruct (Hy z Hz) as [H|[H _]]; [left; lia|].
    destruct (decide (score y = score x)); [right; split; [lia|by apply HR]|left; lia].
  - constructor; [by apply IH|]. apply Forall_forall. intros z Hz. rewrite insert_desc_perm in Hz.
    apply elem_of_cons in Hz as [->|Hz]; [by left|]. rewrite Forall_forall in Hy. by apply Hy.
Qed.

Lemma sort_desc_sorted R l : StronglySorted R l → StronglySorted (desc R) (sort_desc score l).
Proof.
  induction 1 as [|x l Hs IH Hx]; [constructor|].
  change (sort_desc score (x :: l)) with (insert_desc score x (sort_desc score l)).
  apply insert_desc_sorted; [|done]. by rewrite sort_desc_perm.
Qed.
End SortDesc.

Lemma StronglySorted_filter_bool {X} (R : X → X → Prop) (f : X → bool) l :
  StronglySorted R l → StronglySorted R (List.filter f l).
Proof.
  induction 1 as [|x l Hs IH Hx]; cbn; [constructor|]. destruct (f x); [|done]. constructor; [done|].
  apply Forall_forall. intros y Hy. rewrite list_elem_of_In, filter_In in Hy. destruct Hy as [Hy _].
  rewrite <-list_elem_of_In in Hy. by apply (proj1 (Forall_forall _ _) Hx).
Qed.

Lemma StronglySorted_app {X} (R : X → X → Prop) l1 l2 :
  StronglySorted R l1 → StronglySorted R l2 → (∀ x y, x ∈ l1 → y ∈ l2 → R x y) → StronglySorted R (l1 ++ l2).
Proof.
  intros H1 H2 H12. induction H1 as [|x l Hs IH Hx]; [done|]. cbn. constructor.
  - apply IH. intros. apply H12; [by right|done].
  - apply Forall_app. split; [done|]. apply Forall_forall. intros y Hy. apply H12; [by left|done].
Qed.

Lemma StronglySorted_mono {X} (R R' : X → X → Prop) l :
  (∀ x y, x ∈ l → y ∈ l → R x y → R' x y) → StronglySorted R l → StronglySorted R' l.
Proof.
  intros H Hs. induction Hs as [|x l Hs IH Hx]; constructor.
  - apply IH. intros. apply H; [by right|by right|done].
  - apply Forall_forall. intros y Hy. apply H; [by left|by right|]. by apply (proj1 (Forall_forall _ _) Hx).
Qed.

Lemma seq_sorted s n : StronglySorted lt (seq s n).
Proof.
  revert s. induction n as [|n IH]; intros s; cbn; constructor; [done|].
  apply Forall_forall. intros y Hy%elem_of_seq. lia.
Qed.

(** Three-way split of a list by a key in 0..2, the rest last. *)
Lemma filter_rings_perm {X} (key : X → Z) l :
  Forall (λ x, 0 ≤ key x) l →
  concat (map (λ k, List.filter (λ x, key x =? k) l) [0; 1; 2]) ++ List.filter (λ x, 2 <? key x) l ≡ₚ l.
Proof.
  induction 1 as [|x l Hx Hl IH]; [done|]. cbn -[Z.eqb Z.ltb] in *. rewrite app_nil_r in *.
  repeat match goal with |- context [key x =? ?k] => destruct (Z.eqb_spec (key x) k) end;
    destruct (Z.ltb_spec 2 (key x)); try lia; cbn; rewrite <-!app_assoc in *; cbn in *.
  all: etrans; [|apply perm_skip, IH]; rewrite ?app_assoc; try done.
  all: symmetry; apply Permutation_cons_app; by rewrite <-?app_assoc.
Qed.

Section Thm.
Context {A W : Type} `{!Agent A W}.
Implicit Types (r : AgentRegistry A W) (a : AgentInstance A) (c : Cycle A).

Definition rings_ok r : Prop := Forall (λ a, 0 ≤ affinity_ring a) (agents r).

Lemma ring_of_nonneg r i : rings_ok r → 0 ≤ ring_of r i.
Proof.
  intros Hr. unfold ring_of. destruct (agents r !! i) as [a|] eqn:E; [|done]. cbn.
  by apply (Forall_lookup_1 _ _ _ _ Hr E).
Qed.

Lemma poll_order_perm r : rings_ok r → poll_order_by_affinity r ≡ₚ seq 0 (length (agents r)).
Proof.
  intros Hr. unfold poll_order_by_affinity, agents_by_affinity_ring.
  etrans; [|apply (filter_rings_perm (ring_of r)); apply Forall_forall; intros; by apply ring_of_nonneg].
  f_equiv. cbn. rewrite !app_nil_r. by rewrite !sort_desc_perm.
Qed.

(** Who comes first: the lower ring; in rings 0 to 2 the higher score (urgency
    twice, novelty once), otherwise the earlier registration. *)
Definition before r (i j : nat) : Prop :=
  let ri := Z.min 3 (ring_of r i) in
  let rj := Z.min 3 (ring_of r j) in
  ri < rj ∨ ri = rj ∧
    if ri <=? 2 then desc (score_of r) lt i j else (i < j)%nat.

Lemma ring_sorted r k :
  k ≤ 2 → StronglySorted (before r) (sort_desc (score_of r) (agents_by_affinity_ring k r)).
Proof.
  intros Hk. eapply StronglySorted_mono; [|apply sort_desc_sorted, StronglySorted_filter_bool, seq_sorted].
  assert (Hin : ∀ x, x ∈ sort_desc (score_of r) (agents_by_affinity_ring k r) → ring_of r x = k).
  { intros x. rewrite sort_desc_perm, list_elem_of_In. intros [_ Hx]%filter_In. by apply Z.eqb_eq. }
  intros x y Hx Hy Hd. unfold before. rewrite (Hin _ Hx), (Hin _ Hy). right. split; [done|].
  by rewrite Z.min_r, (proj2 (Z.leb_le k 2)) by lia.
Qed.

Lemma poll_order_sorted r : rings_ok r → StronglySorted (before r) (poll_order_by_affinity r).
Proof.
  intros Hr. unfold poll_order_by_affinity. cbn [map concat]. rewrite app_nil_r.
  assert (Hin : ∀ k x, x ∈ sort_desc (score_of r) (agents_by_affinity_ring k r) → ring_of r x = k).
  { intros k x. rewrite sort_desc_perm, list_elem_of_In. intros [_ Hx]%filter_In. by apply Z.eqb_eq. }
  assert (Hrest : ∀ x, x ∈ List.filter (λ i, 2 <? ring_of r i) (seq 0 (length (agents r))) → 2 < ring_of r x).
  { intros x. rewrite list_elem_of_In. intros [_ Hx]%filter_In. by apply Z.ltb_lt. }
  assert (Hlt : ∀ x y, Z.min 3 (ring_of r x) < Z.min 3 (ring_of r y) → before r x y) by (intros; by left).
  assert (Hend : StronglySorted (before r) (List.filter (λ i, 2 <? ring_of r i) (seq 0 (length (agents r))))).
  { eapply StronglySorted_mono; [|apply StronglySorted_filter_bool, seq_sorted].
    intros x y Hx%Hrest Hy%Hrest Hxy. unfold before. right. rewrite !Z.min_l by lia. split; [done|].
    by rewrite (proj2 (Z.leb_gt 3 2)) by lia. }
  repeat apply StronglySorted_app; try (apply ring_sorted; lia); try done.
  all: intros x y Hx Hy; apply Hlt; rewrite ?elem_of_app in *; destruct_or?; 
    repeat match goal with
    | H : _ ∈ sort_desc _ _ |- _ => apply Hin in H
    | H : _ ∈ List.filter _ _ |- _ => apply Hrest in H end; lia.
Qed.

(** * What a cycle may do to an instance *)

(** The scheduler never touches an instance that is not active, nor the static
    part of any; a poll stamps the current cycle. *)
Record evo (tid : Z) a a' : Prop := mkEvo {
  e_name : name a' = name a;
  e_schedule : schedule a' = schedule a;
  e_auto : auto_start a' = auto_start a;
  e_crew : crew a' = crew a;
  e_tier : tier a' = tier a;
  e_ring : affinity_ring a' = affinity_ring a;
  e_urgency : goal_urgency a' = goal_urgency a;
  e_idle : state a ≠ Active → a' = a;
  e_state : state a = Active → state a' ≠ Inactive;
  e_poll : last_poll a' = last_poll a ∨ last_poll a' = tid;
}.

Ltac evo_solve := split; cbn; first [done|congruence|by left|by right].

#[global] Instance evo_refl tid : Reflexive (evo tid).
Proof. intros a. split; auto. congruence. Qed.

#[global] Instance evo_trans tid : Transitive (evo tid).
Proof.
  intros a b d [] []. split; try congruence.
  - intros H. rewrite <-(e_idle0 H). apply e_idle1. by rewrite (e_idle0 H).
  - intros H Hd. destruct (decide (state b = Active)) as [Hb|Hb]; [by apply e_state1|].
    rewrite (e_idle1 Hb) in Hd. by apply e_state0.
  - destruct e_poll1 as [->|]; auto.
Qed.

Lemma alter_const {X} (x : X) i (l : list X) : alter (λ _, x) i l = <[i := x]> l.
Proof. revert i. induction l as [|y l IH]; intros [|i]; cbn; try done. f_equal. apply IH. Qed.

Lemma Forall2_insert_evo tid r i a a' :
  agents r !! i = Some a → evo tid a a' → Forall2 (evo tid) (agents r) (<[i := a']> (agents r)).
Proof.
  intros Hi He. apply Forall2_same_length_lookup. split; [by rewrite length_insert|].
  intros j x y Hx Hy. destruct (decide (i = j)) as [<-|Hne].
  - rewrite list_lookup_insert_eq in Hy by (by apply lookup_lt_Some in Hi). congruence.
  - rewrite list_lookup_insert_ne in Hy by done. assert (x = y) as -> by congruence. done.
Qed.

(** A budget check of an active agent. *)
Lemma check_budget_spec tid i r a :
  agents r !! i = Some a → state a = Active →
  ∃ a', agents (check_budget i r).2 = <[i := a']> (agents r) ∧ evo tid a a' ∧
    hooks (check_budget i r).2 = hooks r ∧ world (check_budget i r).2 = world r ∧
    tick_counter a' = tick_counter a ∧
    (∀ n, n ≠ name a → budgets (budget_manager (check_budget i r).2) !! n = budgets (budget_manager r) !! n) ∧
    ((check_budget i r).1 = true → a' = a) ∧
    (paused_ticks a = 0 → (check_budget i r).1 = may_poll (name a) (budget_manager r)).
Proof.
  intros Hi Ha. unfold check_budget. rewrite Hi. destruct (Z.ltb_spec 0 (paused_ticks a)) as [Hp|Hp].
  - set (a1 := with_lifetime_paused_polls _ _).
    destruct (10000 <=? lifetime_paused_polls a1); [|destruct (1000 <=? paused_ticks a1)]; cbn [fst snd].
    + exists (with_state ACrashed a1). cbn. rewrite alter_const. split_and!; try done; [|lia]. evo_solve.
    + exists (with_paused_ticks 0 a1). cbn [agents set_budgets upd set_agents budget_manager hooks world]. rewrite alter_const.
      split_and!; try done; [evo_solve|intros n Hn|lia].
      unfold Budget.recover. rewrite lookup_on. by rewrite decide_False.
    + exists a1. cbn. rewrite alter_const. split_and!; try done; [|lia]. evo_solve.
  - pose proof (allow_poll_may (name a) (budget_manager r)) as Hm.
    pose proof (λ n, allow_poll_lookup (name a) n (budget_manager r)) as Hl.
    destruct (Budget.allow_poll _ _) as [ok m]. cbn in Hm, Hl. destruct ok; cbn [negb fst snd].
    + exists a. cbn. rewrite list_insert_id by done. split_and!; try done.
      intros n Hn. rewrite Hl. by rewrite decide_False.
    + eexists. cbn. rewrite alter_const. split_and!; try done; [evo_solve|].
      intros n Hn. rewrite Hl. by rewrite decide_False.
Qed.

(** One tick: the counter advances by one. *)
Lemma call_tick_spec tid t i r a :
  state a = Active →
  ∃ res a', (call_tick t i a r).1 = res ∧ agents (call_tick t i a r).2 = <[i := a']> (agents r) ∧
    evo tid a a' ∧ state a' = Active ∧ tick_counter a' = u64_add (tick_counter a) 1 ∧
    hooks (call_tick t i a r).2 = hooks r ∧ budget_manager (call_tick t i a r).2 = budget_manager r.
Proof.
  intros Ha. unfold call_tick. destruct (tick _ _ _ _) as [[res ag] w]. cbn. rewrite alter_const.
  exists res, (with_agent ag (with_tick_counter (u64_add (tick_counter a) 1) a)). split_and!; try done. evo_solve.
Qed.

Lemma bench_record_fields clk a :
  name (bench_record clk a) = name a ∧ schedule (bench_record clk a) = schedule a ∧
  auto_start (bench_record clk a) = auto_start a ∧ crew (bench_record clk a) = crew a ∧
  tier (bench_record clk a) = tier a ∧ affinity_ring (bench_record clk a) = affinity_ring a ∧
  goal_urgency (bench_record clk a) = goal_urgency a ∧ state (bench_record clk a) = state a ∧
  tick_counter (bench_record clk a) = tick_counter a ∧
  consecutive_pending (bench_record clk a) = consecutive_pending a.
Proof. unfold bench_record. destruct (_ =? 0), clk; done. Qed.

Lemma apply_result_spec clk res tid a :
  state a = Active →
  evo tid a (apply_result clk res tid a) ∧ last_poll (apply_result clk res tid a) = tid ∧
  tick_counter (apply_result clk res tid a) = tick_counter a.
Proof.
  intros Ha. destruct (bench_record_fields clk a) as (H1 & H2 & H3 & H4 & H5 & H6 & H7 & H8 & H9 & H10).
  assert (Hs : ∀ a', name a' = name a → schedule a' = schedule a → auto_start a' = auto_start a → crew a' = crew a →
    tier a' = tier a → affinity_ring a' = affinity_ring a → goal_urgency a' = goal_urgency a → state a' ≠ Inactive →
    last_poll a' = tid → tick_counter a' = tick_counter a → evo tid a a' ∧ last_poll a' = tid ∧ tick_counter a' = tick_counter a).
  { intros. split_and!; try done. evo_solve. }
  unfold apply_result. destruct res; cbn zeta.
  - destruct (watchdog_should_crash _ _); apply Hs; cbn; congruence.
  - destruct (decide _); apply Hs; cbn; congruence.
  - apply Hs; cbn; congruence.
Qed.

(** The display tick changes the first "display" only, and only if active. *)
Lemma tick_display_spec c latch te tid p r :
  agents (tick_display c latch te tid (p, r)).2 = agents r ∨
  ∃ di d d', list_find (λ a, name a = "display") (agents r) = Some (di, d) ∧ state d = Active ∧
    agents (tick_display c latch te tid (p, r)).2 = <[di := d']> (agents r) ∧ evo tid d d'.
Proof.
  unfold tick_display. destruct (list_find _ _) as [[di d]|] eqn:Ef; [|by left].
  destruct (bool_decide (state d = Active)) eqn:Es; [|by left]. apply bool_decide_eq_true in Es.
  destruct latch; [|by left]. cbn [andb]. right. exists di, d.
  destruct (call_tick_spec tid tid di r d Es) as (res & d1 & Hr & Hag & He & Hs & _).
  destruct (call_tick _ _ _ _) as [res' r']. cbn in Hr, Hag. subst res'. cbn.
  exists (apply_result (clock c te) res tid d1). split_and!; try done.
  - rewrite Hag. apply list_eq. intros j. destruct (decide (j = di)) as [->|Hne].
    + assert (Hlt : (di < length (agents r))%nat) by (apply list_find_Some in Ef as (Ef & _); by apply lookup_lt_Some in Ef).
      rewrite list_lookup_alter_eq, !list_lookup_insert_eq by done. done.
    + by rewrite list_lookup_alter_ne, !list_lookup_insert_ne by done.
  - etrans; [done|]. by apply apply_result_spec.
Qed.

Lemma tick_display_rest c latch te tid p r :
  hooks (tick_display c latch te tid (p, r)).2 = hooks r ∧
  budget_manager (tick_display c latch te tid (p, r)).2 = budget_manager r.
Proof.
  unfold tick_display. destruct (list_find _ _) as [[di d]|]; [|done]. destruct (_ && _); [|done].
  unfold call_tick. by destruct (tick _ _ _ _) as [[res ag] w].
Qed.

Lemma tick_display_evo c latch te tid p r :
  Forall2 (evo tid) (agents r) (agents (tick_display c latch te tid (p, r)).2).
Proof.
  destruct (tick_display_spec c latch te tid p r) as [->|(di & d & d' & Hf & _ & -> & He)]; [done|].
  apply list_find_Some in Hf as (Hd & _). by eapply Forall2_insert_evo.
Qed.

(** Index [j] is not the agent the display ticks go to. *)
Definition shielded r (j : nat) : Prop :=
  list_find (λ n, n = "display") (map name (agents r)) ≠ Some (j, "display").

Lemma shielded_name r j b : agents r !! j = Some b → name b ≠ "display" → shielded r j.
Proof.
  intros Hj Hn (Hf & _)%list_find_Some. change (map name (agents r)) with (name <$> agents r) in Hf.
  rewrite list_lookup_fmap, Hj in Hf. cbn in Hf. congruence.
Qed.

Lemma evo_names tid r r' : Forall2 (evo tid) (agents r) (agents r') → map name (agents r') = map name (agents r).
Proof. induction 1 as [|x y l l' He _ IH]; [done|]. cbn. by rewrite (e_name _ _ _ He), IH. Qed.

Lemma evo_shielded tid r r' j : Forall2 (evo tid) (agents r) (agents r') → shielded r j → shielded r' j.
Proof. intros H. unfold shielded. by rewrite (evo_names _ _ _ H). Qed.

Lemma tick_display_other c latch te tid p r j :
  shielded r j → agents (tick_display c latch te tid (p, r)).2 !! j = agents r !! j.
Proof.
  intros Hs. destruct (tick_display_spec c latch te tid p r) as [->|(di & d & d' & Hf & _ & -> & He)]; [done|].
  rewrite list_lookup_insert_ne; [done|]. intros ->. apply Hs.
  apply list_find_Some in Hf as (Hd & Hdn & Hmin). apply list_find_Some. change (map name (agents r)) with (name <$> agents r).
  rewrite list_lookup_fmap, Hd, <-Hdn. split_and!; [done|done|]. intros i y Hy Hlt.
  rewrite list_lookup_fmap in Hy. apply fmap_Some in Hy as (x & Hx & ->). rewrite Hdn. by eapply Hmin.
Qed.

Lemma poll_due_active c tid w a : poll_due c tid w a = true → state a = Active.
Proof. unfold poll_due. by case_bool_decide. Qed.

Definition start_bench (t : Z) a : AgentInstance A :=
  let b := bench a in with_bench (mkBench (waiting_us b) (turnaround_us b) (bench_ticks b) t (last_end_ms b)) a.

(** The part of a poll that ticks agent [i], from the latch on. *)
Definition tick_and_apply c (tid : Z) (i : nat) (p : Z) a r : Z * AgentRegistry A W :=
  let s := slots c i in
  let wdt_t0 := default 0 (clock c (t0 s)) in
  let '(result, r) := call_tick tid i a r in
  let r := if clock_set c && slow_set c && (TICK_WATCHDOG_MS <? u64_sub (t_slow s) wdt_t0)
           then set_budgets (Budget.note_wall_overrun (name a) (budget_manager r)) r else r in
  let polled := u32_sat_add p 1 in
  let '(polled, r) :=
    if negb (bool_decide (name a = "display")) && overdue s
    then tick_display c (d_latched s) (d_end s) tid (polled, r) else (polled, r) in
  (polled, apply_tick_result (clock c (t_end s)) i result tid r).

Lemma tick_and_apply_spec c tid i p a r :
  agents r !! i = Some a → state a = Active →
  let r' := (tick_and_apply c tid i p a r).2 in
  Forall2 (evo tid) (agents r) (agents r') ∧ hooks r' = hooks r ∧
  (∀ j, j ≠ i → shielded r j → agents r' !! j = agents r !! j) ∧
  (∀ n, n ≠ name a → budgets (budget_manager r') !! n = budgets (budget_manager r) !! n) ∧
  (∃ a', agents r' !! i = Some a' ∧ tick_counter a' = u64_add (tick_counter a) 1 ∧ last_poll a' = tid).
Proof.
  intros Hi Ha. unfold tick_and_apply. set (s := slots c i). set (w0 := default 0 _).
  destruct (call_tick_spec tid tid i r a Ha) as (res & a1 & Hr & Hag & He & Hs & Htc & Hh & Hb).
  destruct (call_tick _ _ _ _) as [res' r1]. cbn in Hr, Hag, Hh, Hb. subst res'.
  set (r2 := if clock_set c && _ && _ then set_budgets _ r1 else r1).
  assert (H2 : agents r2 = agents r1 ∧ hooks r2 = hooks r1 ∧
               ∀ n, n ≠ name a → budgets (budget_manager r2) !! n = budgets (budget_manager r1) !! n).
  { unfold r2. destruct (_ && _); [|done]. split_and!; [done|done|]. intros n Hn. cbn [set_budgets budget_manager].
    unfold Budget.note_wall_overrun. rewrite lookup_on. by rewrite decide_False. }
  destruct H2 as (E2 & F2 & G2). assert (Hi1 : agents r2 !! i = Some a1).
  { rewrite E2, Hag. apply list_lookup_insert_eq. by apply lookup_lt_Some in Hi. }
  assert (Hev2 : Forall2 (evo tid) (agents r) (agents r2)).
  { rewrite E2, Hag. exact (Forall2_insert_evo tid r i a a1 Hi He). }
  set (pr := if negb _ && overdue s then tick_display _ _ _ _ _ else _).
  assert (H3 : Forall2 (evo tid) (agents r2) (agents pr.2) ∧ hooks pr.2 = hooks r2 ∧ budget_manager pr.2 = budget_manager r2
               ∧ (∀ j, shielded r2 j → agents pr.2 !! j = agents r2 !! j)
               ∧ agents pr.2 !! i = Some a1).
  { unfold pr. case_bool_decide as Hn; cbn [negb andb]; [by split_and!|]. destruct (overdue s); [|by split_and!].
    destruct (tick_display_rest c (d_latched s) (d_end s) tid (u32_sat_add p 1) r2) as [-> ->].
    split_and!; [apply tick_display_evo|done|done|intros; by apply tick_display_other|].
    rewrite tick_display_other; [done|]. apply (shielded_name _ _ _ Hi1). by rewrite (e_name _ _ _ He). }
  destruct pr as [polled r3]. cbn in H3. destruct H3 as (E3 & F3 & G3 & O3 & I3).
  destruct (apply_result_spec (clock c (t_end s)) res tid a1 Hs) as (He4 & Hl4 & Ht4). cbn [snd].
  assert (Hins : agents (apply_tick_result (clock c (t_end s)) i res tid r3)
                 = <[i := apply_result (clock c (t_end s)) res tid a1]> (agents r3)).
  { cbn. rewrite <-(list_insert_id (agents r3) i a1) at 1 by done. apply list_eq. intros j.
    assert (i < length (agents r3))%nat by (by apply lookup_lt_Some in I3).
    destruct (decide (j = i)) as [->|Hne]; [by rewrite list_lookup_alter_eq, !list_lookup_insert_eq|].
    by rewrite list_lookup_alter_ne, !list_lookup_insert_ne. }
  rewrite Hins. split_and!.
  - etrans; [exact Hev2|]. etrans; [exact E3|]. by eapply Forall2_insert_evo.
  - cbn. congruence.
  - intros j Hne Hj. rewrite list_lookup_insert_ne by done. rewrite O3 by (by eapply evo_shielded).
    rewrite E2, Hag. by rewrite list_lookup_insert_ne.
  - intros n Hn. cbn. rewrite G3, G2, Hb by done. done.
  - eexists. rewrite list_lookup_insert_eq by (by apply lookup_lt_Some in I3). split; [done|]. by rewrite Ht4, Htc.
Qed.

(** ** A poll *)

(** Nothing stands between the agent and its tick. *)
Definition clear_to_run c (tid : Z) (i : nat) a r : bool :=
  poll_due c tid (world r) a && (paused_ticks a =? 0) && may_poll (name a) (budget_manager r)
  && Hooks.check Hooks.PreTick (name a) tid (hooks r) && latched (slots c i).

Lemma poll_agent_ran c tid i p r a :
  agents r !! i = Some a → poll_due c tid (world r) a = true → (check_budget i r).1 = true →
  Hooks.check Hooks.PreTick (name a) tid (hooks r) = true → latched (slots c i) = true →
  poll_agent c tid i (p, r)
  = Ok (let a0 := start_bench (default 0 (clock c (t0 (slots c i)))) a in
        tick_and_apply c tid i p a0 (upd i (λ _, a0) (check_budget i r).2)).
Proof.
  intros Hi Hdue Hok Hh Hl. unfold poll_agent, tick_and_apply. rewrite Hi, Hdue. cbn [negb].
  destruct (check_budget_spec tid i r a Hi (poll_due_active _ _ _ _ Hdue)) as (a' & _ & _ & Hhk & _).
  destruct (check_budget i r) as [ok r1]. cbn in Hok, Hhk. subst ok. cbn [negb snd].
  rewrite Hhk, Hh, Hl. cbn [negb]. unfold start_bench. cbn zeta. cbn [name with_bench].
  destruct (call_tick _ _ _ _) as [res r2]. by destruct (if negb _ && _ then _ else _).
Qed.

Record polled (tid : Z) (i : nat) a (ran : bool) r r' : Prop := mkPolled {
  p_evo : Forall2 (evo tid) (agents r) (agents r');
  p_hooks : hooks r' = hooks r;
  p_other : ∀ j, j ≠ i → shielded r j → agents r' !! j = agents r !! j;
  p_budgets : ∀ n, n ≠ name a → budgets (budget_manager r') !! n = budgets (budget_manager r) !! n;
  p_self : ∃ a', agents r' !! i = Some a' ∧
    (tick_counter a' = tick_counter a ∨ tick_counter a' = u64_add (tick_counter a) 1) ∧
    (ran = true → tick_counter a' = u64_add (tick_counter a) 1 ∧ last_poll a' = tid);
}.

Lemma polled_same tid i a r : agents r !! i = Some a → polled tid i a false r r.
Proof. intros Hi. split; try done. exists a. split_and!; [done|by left|done]. Qed.

Lemma poll_agent_spec c tid i p r a :
  agents r !! i = Some a →
  ∃ p' r', poll_agent c tid i (p, r) = Ok (p', r') ∧ polled tid i a (clear_to_run c tid i a r) r r' ∧
    (poll_due c tid (world r) a = false → r' = r).
Proof.
  intros Hi. unfold clear_to_run. destruct (poll_due c tid (world r) a) eqn:Hdue.
  2:{ exists p, r. unfold poll_agent. rewrite Hi, Hdue. split_and!; [done|by apply polled_same|done]. }
  pose proof (poll_due_active _ _ _ _ Hdue) as Ha. cbn [andb].
  destruct (check_budget_spec tid i r a Hi Ha) as (a1 & Hag & He & Hhk & Hw & Htc & Hbd & Hid & Hmay).
  assert (Hlt : (i < length (agents r))%nat) by (by apply lookup_lt_Some in Hi).
  assert (Hmid : ∀ ran a2, (ran = true → False) → evo tid a a2 → tick_counter a2 = tick_counter a →
    ∀ r2, agents r2 = <[i := a2]> (agents r) → hooks r2 = hooks r →
    budget_manager r2 = budget_manager (check_budget i r).2 → polled tid i a ran r r2).
  { intros ran a2 Hran He2 Ht2 r2 Ha2 Hh2 Hb2. split; [rewrite Ha2; by eapply Forall2_insert_evo|done| | |].
    - intros j Hne _. rewrite Ha2. by rewrite list_lookup_insert_ne.
    - intros n Hn. rewrite Hb2. by apply Hbd.
    - exists a2. rewrite Ha2, list_lookup_insert_eq by done. split_and!; [done|by left|]. intros Ht. by destruct Hran. }
  destruct (check_budget i r) as [ok r1] eqn:Ecb. cbn [fst snd] in *. destruct ok.
  2:{ exists p, r1. unfold poll_agent. rewrite Hi, Hdue, Ecb. cbn [negb]. split_and!; [done| |done].
      apply (Hmid _ a1); try done. intros H. repeat (apply andb_prop in H as [H ?]).
      apply Z.eqb_eq in H. specialize (Hmay H). congruence. }
  assert (a1 = a) as -> by (by apply Hid). rewrite list_insert_id in Hag by done.
  destruct (Hooks.check Hooks.PreTick (name a) tid (hooks r)) eqn:Ehk.
  2:{ exists p, r1. unfold poll_agent. rewrite Hi, Hdue, Ecb. cbn [negb]. rewrite Hhk, Ehk. split_and!; [done| |done].
      apply (Hmid _ a); try done; [|by rewrite list_insert_id]. rewrite andb_false_r. done. }
  set (a0 := start_bench (default 0 (clock c (t0 (slots c i)))) a).
  assert (He0 : evo tid a a0) by evo_solve.
  destruct (latched (slots c i)) eqn:El.
  2:{ exists p, (upd i (λ _, a0) r1). unfold poll_agent. rewrite Hi, Hdue, Ecb. cbn [negb]. rewrite Hhk, Ehk, El.
      split_and!; [done| |done]. apply (Hmid _ a0); try done; [by rewrite andb_false_r|]. cbn. by rewrite alter_const, Hag. }
  pose proof (poll_agent_ran c tid i p r a Hi Hdue) as Hran. rewrite Ecb in Hran. specialize (Hran eq_refl Ehk El).
  cbn [snd] in Hran. fold a0 in Hran. cbn zeta in Hran. set (r0 := upd i (λ _, a0) r1) in Hran.
  assert (Hr0 : agents r0 = <[i := a0]> (agents r)) by (cbn; by rewrite alter_const, Hag).
  destruct (tick_and_apply_spec c tid i p a0 r0) as (T1 & T2 & T3 & T4 & a' & T5 & T6 & T7);
    [by rewrite Hr0, list_lookup_insert_eq|done|].
  destruct (tick_and_apply c tid i p a0 r0) as [p' r']. exists p', r'. split_and!; [done| |done]. cbn [snd] in *. split.
  - etrans; [by eapply (Forall2_insert_evo tid r i a a0)|]. by rewrite <-Hr0.
  - rewrite T2. done.
  - intros j Hne Hj. assert (Hev0 : Forall2 (evo tid) (agents r) (agents r0)).
    { rewrite Hr0. by eapply Forall2_insert_evo. }
    rewrite T3 by (done || by eapply evo_shielded). rewrite Hr0. by rewrite list_lookup_insert_ne.
  - intros n Hn. rewrite T4 by done. by apply Hbd.
  - exists a'. split_and!; [done|by right|done].
Qed.

(** ** The poll loop *)

Lemma Forall2_evo_lookup tid r r' j b :
  Forall2 (evo tid) (agents r) (agents r') → agents r !! j = Some b →
  ∃ b', agents r' !! j = Some b' ∧ evo tid b b'.
Proof. intros H Hj. destruct (Forall2_lookup_l _ _ _ _ _ H Hj) as (b' & ? & ?). eauto. Qed.

Lemma poll_loop_spec c tid order p r :
  Forall (λ i, i < length (agents r))%nat order →
  ∃ p' r', poll_loop c tid order (p, r) = Ok (p', r') ∧
    Forall2 (evo tid) (agents r) (agents r') ∧ hooks r' = hooks r.
Proof.
  revert p r. induction order as [|i order IH]; intros p r Ho; [by exists p, r|].
  apply Forall_cons in Ho as [Hi Ho]. destruct (lookup_lt_is_Some_2 _ _ Hi) as [a Ha].
  destruct (poll_agent_spec c tid i p r a Ha) as (p1 & r1 & E1 & [P1 P2 _ _ _] & _).
  destruct (IH p1 r1) as (p2 & r2 & E2 & F2 & H2).
  { by rewrite <-(Forall2_length _ _ _ P1). }
  exists p2, r2. cbn [poll_loop]. rewrite E1. cbn [mbind res_bind]. split_and!; [done|by etrans|congruence].
Qed.

(** Agents other than the display change at their own turn only. *)
Lemma poll_loop_frame c tid order p r p' r' j b :
  poll_loop c tid order (p, r) = Ok (p', r') → Forall (λ i, i < length (agents r))%nat order →
  j ∉ order → agents r !! j = Some b → shielded r j →
  agents r' !! j = Some b ∧ hooks r' = hooks r ∧
  ((∀ i a, i ∈ order → agents r !! i = Some a → name a ≠ name b) →
   budgets (budget_manager r') !! name b = budgets (budget_manager r) !! name b).
Proof.
  revert p r. induction order as [|i order IH]; intros p r E Ho Hj Hb Hn; cbn [poll_loop] in E.
  { by simplify_eq. }
  apply Forall_cons in Ho as [Hi Ho]. destruct (lookup_lt_is_Some_2 _ _ Hi) as [a Ha].
  destruct (poll_agent_spec c tid i p r a Ha) as (p1 & r1 & E1 & [P1 P2 P3 P4 _] & _).
  rewrite E1 in E. cbn [mbind res_bind] in E.
  destruct (IH p1 r1 E) as (I1 & I2 & I3).
  - by rewrite <-(Forall2_length _ _ _ P1).
  - set_solver.
  - rewrite P3; [done|set_solver|done].
  - by eapply evo_shielded.
  - split_and!; [done|congruence|]. intros Hnames. rewrite I3.
    + apply P4. apply not_eq_sym. apply (Hnames i); [apply list_elem_of_here|done].
    + intros i' a' Hi' Ha'. destruct (lookup_lt_is_Some_2 (agents r) i') as [a0 Ha0].
      { rewrite (Forall2_length _ _ _ P1). by apply lookup_lt_Some in Ha'. }
      destruct (Forall2_evo_lookup _ _ _ _ _ P1 Ha0) as (a1 & Ha1 & He1). assert (a1 = a') as -> by congruence.
      rewrite (e_name _ _ _ He1). apply (Hnames i'); [by apply list_elem_of_further|done].
Qed.

Lemma poll_loop_app c tid o1 o2 pr :
  poll_loop c tid (o1 ++ o2) pr = (poll_loop c tid o1 pr ≫= poll_loop c tid o2).
Proof.
  revert pr. induction o1 as [|i o1 IH]; intros pr; [done|]. cbn [app poll_loop].
  destruct (poll_agent c tid i pr); cbn; [apply IH|done..].
Qed.

(** The whole history of one agent in the loop is its own poll. *)
Lemma poll_loop_at c tid order p r j b :
  Forall (λ i, i < length (agents r))%nat order → NoDup order → j ∈ order →
  agents r !! j = Some b → shielded r j →
  ∃ p1 r1 p2 r2 p3 r3, poll_loop c tid order (p, r) = Ok (p3, r3) ∧
    poll_agent c tid j (p1, r1) = Ok (p2, r2) ∧
    agents r1 !! j = Some b ∧ hooks r1 = hooks r ∧ agents r3 !! j = agents r2 !! j ∧
    ((∀ i a, i ≠ j → agents r !! i = Some a → name a ≠ name b) →
     budgets (budget_manager r1) !! name b = budgets (budget_manager r) !! name b).
Proof.
  intros Ho Hnd Hj Hb Hn. apply list_elem_of_split in Hj as (o1 & o2 & ->).
  apply Forall_app in Ho as [Ho1 [Hoj Ho2]%Forall_cons].
  apply NoDup_app in Hnd as (_ & Hdis & [Hj2 _]%NoDup_cons).
  assert (Hj1 : j ∉ o1) by (intros H; apply (Hdis j H); by left).
  destruct (poll_loop_spec c tid o1 p r Ho1) as (p1 & r1 & E1 & F1 & H1).
  destruct (poll_loop_frame _ _ _ _ _ _ _ _ _ E1 Ho1 Hj1 Hb Hn) as (B1 & _ & G1).
  destruct (poll_agent_spec c tid j p1 r1 b B1) as (p2 & r2 & E2 & [P1 P2 P3 P4 (b' & P5 & _)] & _).
  assert (Ho2' : Forall (λ i, i < length (agents r2))%nat o2).
  { by rewrite <-(Forall2_length _ _ _ P1), <-(Forall2_length _ _ _ F1). }
  destruct (poll_loop_spec c tid o2 p2 r2 Ho2') as (p3 & r3 & E3 & F3 & H3).
  assert (Hn' : shielded r2 j) by (eapply evo_shielded, evo_shielded; done).
  destruct (poll_loop_frame _ _ _ _ _ _ _ _ _ E3 Ho2' Hj2 P5 Hn') as (B3 & _ & _).
  exists p1, r1, p2, r2, p3, r3. split_and!; [|done|done|done|congruence|].
  - rewrite poll_loop_app, E1. cbn [mbind res_bind poll_loop]. rewrite E2. done.
  - intros Hnames. apply G1. intros i a Hin. apply Hnames. set_solver.
Qed.

(** ** Respawns and decay *)

Definition fade a : AgentInstance A :=
  if 0 <? novelty_score a then with_novelty_score (novelty_score a - 1) a else a.

Lemma fade_fields a :
  name (fade a) = name a ∧ state (fade a) = state a ∧ schedule (fade a) = schedule a ∧
  tick_counter (fade a) = tick_counter a ∧ last_poll (fade a) = last_poll a ∧ agent (fade a) = agent a ∧
  affinity_ring (fade a) = affinity_ring a ∧ crew (fade a) = crew a.
Proof. unfold fade. by destruct (0 <? novelty_score a). Qed.

Lemma decay_lookup r j : agents (decay r) !! j = fade <$> agents r !! j.
Proof. apply list_lookup_fmap. Qed.

Lemma activate_spec i r a :
  agents r !! i = Some a →
  ∃ a', agents (activate i r) = <[i := a']> (agents r) ∧ name a' = name a ∧ affinity_ring a' = affinity_ring a ∧
    state a' = Active ∧ schedule a' = schedule a ∧ auto_start a' = auto_start a ∧ tick_counter a' = tick_counter a ∧
    last_poll a' = last_poll a ∧ hooks (activate i r) = hooks r ∧ budget_manager (activate i r) = budget_manager r.
Proof.
  intros Hi. unfold activate. rewrite Hi. destruct (on_activate _ _) as [ag w]. cbn. rewrite alter_const.
  by eexists.
Qed.

Definition spawned (l : list (string * option A)) : list A := omap snd l.

Lemma respawn_spec nm o r :
  ∃ ext, agents (respawn nm o r) = agents r ++ ext ∧ hooks (respawn nm o r) = hooks r ∧
    map name ext = map (λ x, m_name (manifest x)) (omap (M := list) (λ x, x) [o]) ∧
    Forall (λ a, 0 ≤ affinity_ring a ∧ state a = Active ∧ last_poll a = 0) ext ∧
    (∀ n, n ≠ nm → budgets (budget_manager (respawn nm o r)) !! n = budgets (budget_manager r) !! n).
Proof.
  unfold respawn. destruct o as [ag|]; [|exists []; rewrite app_nil_r; by split_and!].
  set (r1 := mkReg _ _ _ _). assert (Hi : agents r1 !! length (agents r) = Some (new_instance ag)).
  { cbn. rewrite lookup_app_r, Nat.sub_diag by lia. done. }
  destruct (activate_spec _ r1 _ Hi) as (a' & E & En & Er & Es & _ & _ & _ & El & Eh & Eb). exists [a'].
  split_and!.
  - rewrite E. cbn. rewrite insert_app_r_alt by lia. by rewrite Nat.sub_diag.
  - by rewrite Eh.
  - cbn. by rewrite En.
  - constructor; [|done]. rewrite Er, Es, El. split; [|done]. cbn. by destruct (m_schedule _).
  - intros n Hn. rewrite Eb. cbn. by rewrite lookup_insert_ne.
Qed.

Lemma respawn_all_spec l r :
  ∃ ext, agents (respawn_all l r) = agents r ++ ext ∧ hooks (respawn_all l r) = hooks r ∧
    map name ext = map (λ x, m_name (manifest x)) (spawned l) ∧
    Forall (λ a, 0 ≤ affinity_ring a ∧ state a = Active ∧ last_poll a = 0) ext ∧
    (∀ n, n ∉ l.*1 → budgets (budget_manager (respawn_all l r)) !! n = budgets (budget_manager r) !! n).
Proof.
  unfold respawn_all. revert r. induction l as [|[nm o] l IH]; intros r; [exists []; rewrite app_nil_r; by split_and!|].
  rewrite fold_left_cons. destruct (respawn_spec nm o r) as (e1 & A1 & H1 & N1 & F1 & B1). cbn [fst snd].
  destruct (IH (respawn nm o r)) as (e2 & A2 & H2 & N2 & F2 & B2). exists (e1 ++ e2). split_and!.
  - by rewrite A2, A1, app_assoc.
  - congruence.
  - rewrite map_app, N1, N2. unfold spawned. cbn. by destruct o.
  - by apply Forall_app.
  - intros n Hn. cbn in Hn. rewrite B2, B1; [done|set_solver|set_solver].
Qed.

(** ** A cycle *)

Definition refresh c r : AgentRegistry A W :=
  respawn_all (respawns c) (set_budgets (Budget.reset_all (budget_manager r)) r).

Definition display_first c (tid : Z) r : Z * AgentRegistry A W :=
  if ui_live c then tick_display c (first_latched c) (first_end c) tid (0, r) else (0, r).

Lemma cycle_unfold c tid r :
  cycle c tid r
  = ('(p, r') ← poll_loop c tid (poll_order_by_affinity (display_first c tid (refresh c r)).2)
                  (display_first c tid (refresh c r)); Ok (p, decay r')).
Proof. done. Qed.

Lemma refresh_spec c r :
  rings_ok r →
  ∃ ext, agents (refresh c r) = agents r ++ ext ∧ rings_ok (refresh c r) ∧ hooks (refresh c r) = hooks r ∧
    map name ext = map (λ x, m_name (manifest x)) (spawned (respawns c)) ∧
    Forall (λ a, last_poll a = 0) ext ∧
    (∀ n, n ∉ (respawns c).*1 → budgets (budget_manager (refresh c r)) !! n = reset1 <$> budgets (budget_manager r) !! n).
Proof.
  intros Hr. unfold refresh.
  destruct (respawn_all_spec (respawns c) (set_budgets (Budget.reset_all (budget_manager r)) r)) as (ext & E & Hh & Hn & Hf & Hb).
  exists ext. split_and!; [done| |done|done| |].
  - unfold rings_ok. rewrite E. apply Forall_app. split; [done|]. eapply Forall_impl; [exact Hf|]. by intros a [? _].
  - eapply Forall_impl; [exact Hf|]. by intros a (_ & _ & ?).
  - intros n Hn'. rewrite Hb by done. cbn. by rewrite lookup_fmap.
Qed.

Lemma display_first_spec c tid r :
  Forall2 (evo tid) (agents r) (agents (display_first c tid r).2) ∧
  hooks (display_first c tid r).2 = hooks r ∧ budget_manager (display_first c tid r).2 = budget_manager r ∧
  ∀ j, shielded r j → agents (display_first c tid r).2 !! j = agents r !! j.
Proof.
  unfold display_first. destruct (ui_live c); [|by split_and!].
  destruct (tick_display_rest c (first_latched c) (first_end c) tid 0 r) as [-> ->].
  split_and!; [apply tick_display_evo|done|done|intros; by apply tick_display_other].
Qed.

Lemma evo_rings tid r r' : Forall2 (evo tid) (agents r) (agents r') → rings_ok r → rings_ok r'.
Proof.
  unfold rings_ok. intros H Hr. induction H as [|x y l l' He _ IH]; [done|]. apply Forall_cons in Hr as [Hx Hr].
  constructor; [by rewrite (e_ring _ _ _ He)|by apply IH].
Qed.

Lemma order_in_range r : rings_ok r → Forall (λ i, i < length (agents r))%nat (poll_order_by_affinity r).
Proof. intros Hr. rewrite poll_order_perm by done. apply Forall_forall. intros i Hi%elem_of_seq. lia. Qed.

Lemma order_NoDup r : rings_ok r → NoDup (poll_order_by_affinity r).
Proof. intros Hr. rewrite poll_order_perm by done. apply NoDup_ListNoDup, seq_NoDup. Qed.

Lemma cycle_spec c tid r :
  rings_ok r →
  ∃ p r', cycle c tid r = Ok (p, r') ∧ rings_ok r' ∧ hooks r' = hooks r ∧
    length (agents r') = (length (agents r) + length (spawned (respawns c)))%nat ∧
    (∀ j a, agents r !! j = Some a → ∃ a', evo tid a a' ∧ agents r' !! j = Some (fade a')) ∧
    (∀ j a, agents r' !! j = Some a → (length (agents r) ≤ j)%nat → last_poll a = 0 ∨ last_poll a = tid).
Proof.
  intros Hr. destruct (refresh_spec c r Hr) as (ext & E & Hr1 & Hh & Hn & Hz & _).
  destruct (display_first_spec c tid (refresh c r)) as (D1 & D2 & D3 & _).
  pose proof (evo_rings _ _ _ D1 Hr1) as Hr2. rewrite cycle_unfold.
  destruct (display_first c tid (refresh c r)) as [p0 r0]. cbn [snd] in *.
  destruct (poll_loop_spec c tid _ p0 r0 (order_in_range r0 Hr2)) as (p1 & r1 & L1 & L2 & L3).
  pose proof (evo_rings _ _ _ L2 Hr2) as Hr3.
  assert (Hev : Forall2 (evo tid) (agents (refresh c r)) (agents r1)) by (by etrans).
  exists p1, (decay r1). rewrite L1. cbn [mbind res_bind]. split_and!.
  - done.
  - unfold rings_ok, decay. cbn. apply Forall_fmap. eapply Forall_impl; [exact Hr3|].
    intros a Ha. cbn. destruct (0 <? novelty_score a); exact Ha.
  - cbn. congruence.
  - cbn. rewrite length_map, <-(Forall2_length _ _ _ Hev), E, length_app. f_equal.
    by rewrite <-(length_map name), Hn, length_map.
  - intros j a Hj. destruct (Forall2_evo_lookup _ _ _ j a Hev) as (a' & Hj' & He).
    { rewrite E. by apply lookup_app_l_Some. }
    exists a'. by rewrite decay_lookup, Hj'.
  - intros j a Hj Hlen. rewrite decay_lookup in Hj. apply fmap_Some in Hj as (a1 & Hj & ->).
    destruct (Forall2_lookup_r _ _ _ _ _ Hev Hj) as (a0 & Hj0 & He). rewrite E, lookup_app_r in Hj0 by done.
    rewrite Forall_forall in Hz. pose proof (Hz a0 (list_elem_of_lookup_2 _ _ _ Hj0)) as Hz0.
    destruct (fade_fields a1) as (_ & _ & _ & _ & -> & _). destruct (e_poll _ _ _ He) as [->|]; auto.
Qed.

Lemma shielded_app r r' ext j :
  agents r' = agents r ++ ext → (j < length (agents r))%nat → shielded r j → shielded r' j.
Proof.
  intros E Hj Hs (Hf & _ & Hmin)%list_find_Some. apply Hs. apply list_find_Some. rewrite E, map_app in Hf, Hmin.
  rewrite lookup_app_l in Hf by (by rewrite length_map). split_and!; [done|done|].
  intros i y Hy Hlt. apply (Hmin i); [by apply lookup_app_l_Some|done].
Qed.

(** One cycle, seen from an agent that the display ticks do not go to. *)
Lemma cycle_at c tid r j b :
  rings_ok r → agents r !! j = Some b → shielded r j →
  ∃ p r' rj b', cycle c tid r = Ok (p, r') ∧ agents r' !! j = Some (fade b') ∧
    agents rj !! j = Some b ∧ hooks rj = hooks r ∧
    (tick_counter b' = tick_counter b ∨ tick_counter b' = u64_add (tick_counter b) 1) ∧
    (poll_due c tid (world rj) b = false → b' = b) ∧
    (clear_to_run c tid j b rj = true → tick_counter b' = u64_add (tick_counter b) 1 ∧ last_poll b' = tid) ∧
    ((∀ i a, i ≠ j → agents r !! i = Some a → name a ≠ name b) →
     name b ∉ map (λ x, m_name (manifest x)) (spawned (respawns c)) → name b ∉ (respawns c).*1 →
     budgets (budget_manager rj) !! name b = reset1 <$> budgets (budget_manager r) !! name b).
Proof.
  intros Hr Hj Hn. destruct (refresh_spec c r Hr) as (ext & E & Hr1 & Hh & Hnm & _ & Hbud).
  assert (Hj1 : agents (refresh c r) !! j = Some b) by (rewrite E; by apply lookup_app_l_Some).
  destruct (display_first_spec c tid (refresh c r)) as (D1 & D2 & D3 & D4).
  assert (Hs1 : shielded (refresh c r) j) by (eapply shielded_app; [exact E|by eapply lookup_lt_Some|done]).
  pose proof (evo_rings _ _ _ D1 Hr1) as Hr2. pose proof (D4 j Hs1) as Hj2. rewrite Hj1 in Hj2.
  pose proof (evo_shielded _ _ _ _ D1 Hs1) as Hs2. rewrite cycle_unfold.
  destruct (display_first c tid (refresh c r)) as [p0 r0]. cbn [snd] in *.
  destruct (poll_loop_at c tid (poll_order_by_affinity r0) p0 r0 j b) as (p1 & r1 & p2 & r2 & p3 & r3 & L1 & L2 & L3 & L4 & L5 & L6);
    [by apply order_in_range|by apply order_NoDup| |done|done|].
  { rewrite poll_order_perm by done. apply elem_of_seq. apply lookup_lt_Some in Hj2. lia. }
  destruct (poll_agent_spec c tid j p1 r1 b L3) as (p2' & r2' & E2 & [_ _ _ _ (b' & P5 & P6 & P7)] & P8).
  rewrite L2 in E2. simplify_eq. exists p3, (decay r3), r1, b'. rewrite L1. cbn [mbind res_bind].
  split_and!; [done|by rewrite decay_lookup, L5, P5|done|congruence|done| |done|].
  - intros Hd. rewrite (P8 Hd) in P5. congruence.
  - intros Hu Hs Hq. rewrite L6; [by rewrite D3, Hbud|]. intros i a Hne Hi.
    destruct (Forall2_lookup_r _ _ _ _ _ D1 Hi) as (a0 & Hi0 & He). rewrite (e_name _ _ _ He).
    rewrite E in Hi0. apply lookup_app_Some in Hi0 as [Hi0|[_ Hi0]]; [by apply (Hu i)|].
    intros En. apply Hs. rewrite <-Hnm, <-En. apply list_elem_of_fmap. exists a0. split; [done|].
    by eapply list_elem_of_lookup_2.
Qed.
End Thm.
