(* ===== verification/AgentSched.v ===== *)
(** The scheduler's properties, from the lemmas on one poll and one cycle. *)

From S2P Require Import Prelude AgentBudget AgentCore AgentThm.
Import AgentCore Budget.
From Stdlib Require Import Sorting.Sorted.

(** An agent that always answers the same, for concrete runs. *)
Definition Demo : Type := AgentManifest * AgentTickResult.
#[global] Instance demo_agent : Agent Demo unit := {|
  manifest := fst; tick d _ _ w := (d.2, d, w); on_activate d w := (d, w); has_pending _ _ := false |}.

Definition demo (n : string) (s : ScheduleKind) (t : AgentTickResult) : Demo := (mkManifest n System s true false, t).

Definition demo_slot : Slot := mkSlot true 1 2 3 false true 4.
Definition demo_cycle (ui offload : bool) : Cycle Demo :=
  mkCycle [] offload ui false true true true 0 (λ _, demo_slot).

Definition demo_reg (l : list Demo) : AgentRegistry Demo unit :=
  fold_left (λ r d, (AgentCore.register d r).2) l (new_registry tt).

Section Sched.
Context {A W : Type} `{!Agent A W}.
Implicit Types (r : AgentRegistry A W) (a : AgentInstance A) (c : Cycle A).

(** Everyone once, by ring, then score, then registration. *)
Definition fair_order r (order : list nat) : Prop :=
  order ≡ₚ seq 0 (length (agents r)) ∧ StronglySorted (before r) order.

Definition finished a : Prop := state a = Done ∨ state a = ACrashed.

(** The agent's object and the record of its ticks are as they were. *)
Definition not_run a a' : Prop :=
  agent a' = agent a ∧ tick_counter a' = tick_counter a ∧ last_poll a' = last_poll a.

(** Between two states of the registry no finished agent ran or changed its state. *)
Definition rest_since r r' : Prop :=
  ∀ j a, agents r !! j = Some a → finished a → ∃ a', agents r' !! j = Some a' ∧ state a' = state a ∧ not_run a a'.

Definition ran_once a a' : Prop := tick_counter a' = u64_add (tick_counter a) 1.

(** An agent of the desktop: continuous, on this core, urgent, UI-critical. *)
Record interactive a : Prop := mkInteractive {
  i_state : state a = Active;
  i_schedule : schedule a = Continuous;
  i_flow : flow (crew a) = FSchedule Continuous;
  i_ring : affinity_ring a = 0;
  i_urgency : 0 < goal_urgency a;
  i_critical : ui_critical_agent (name a) = true;
  i_name : name a ≠ "display";
}.

(** Nothing else answers to the name of agent [j]. *)
Definition sole_name c r (j : nat) a : Prop :=
  (∀ i b, i ≠ j → agents r !! i = Some b → name b ≠ name a) ∧
  name a ∉ map (λ x, m_name (manifest x)) (spawned (respawns c)) ∧ name a ∉ (respawns c).*1.

(** Handed to the other cores. *)
Definition handed_out r (j : nat) : Prop := j ∈ map (λ x, x.1.1.1.1) (smp_batch r).

(** [d1] is a display registered after another one. *)
Definition later_display r (d1 : nat) a : Prop :=
  agents r !! d1 = Some a ∧ name a = "display" ∧
  ∃ d0 a0, (d0 < d1)%nat ∧ agents r !! d0 = Some a0 ∧ name a0 = "display".

(** The result [Pending] applied [n] times. *)
Definition pending_times (clk : option Z) (tid : Z) (n : nat) a : AgentInstance A :=
  Nat.iter n (apply_result clk Pending tid) a.

(** Where the boot phase can leave a one-shot agent. *)
Definition booted a a' : Prop :=
  finished a' ∨ state a' = Active ∧ tick_counter a' = u64_add (tick_counter a) MAX_ROUNDS.

(** The poll order of a cycle contains every agent exactly once, the lower
    affinity ring first; inside rings 0 to 2 by descending goal score (urgency
    counted twice, plus novelty) and, between equal scores, by registration. *)
Theorem poll_order_correct r : rings_ok r → fair_order r (poll_order_by_affinity r).
Proof. intros Hr. split; [by apply poll_order_perm|by apply poll_order_sorted]. Qed.

(** ** Runs *)

Lemma start_step r i :
  rings_ok r →
  let r' := match agents r !! i with
            | Some a => if bool_decide (state a = Inactive) && auto_start a then activate i r else r
            | None => r end in
  rings_ok r' ∧ length (agents r') = length (agents r) ∧
  (∀ j a, agents r !! j = Some a → state a ≠ Inactive → agents r' !! j = Some a) ∧
  (Forall (λ a, last_poll a = 0) (agents r) → Forall (λ a, last_poll a = 0) (agents r')).
Proof.
  intros Hr. destruct (agents r !! i) as [a|] eqn:Hi; [|done]. destruct (bool_decide _) eqn:Eb; [|done].
  destruct (auto_start a); [|done]. cbn [andb]. apply bool_decide_eq_true in Eb.
  destruct (activate_spec i r a Hi) as (a' & E & _ & Er & _ & _ & _ & _ & El & _).
  unfold rings_ok. rewrite E, length_insert. split_and!; [|done| |].
  - apply Forall_insert; [done|]. rewrite Er. by apply (Forall_lookup_1 _ _ _ _ Hr Hi).
  - intros j b Hj Hb. rewrite list_lookup_insert_ne; [done|]. congruence.
  - intros Hl. apply Forall_insert; [done|]. rewrite El. by apply (Forall_lookup_1 _ _ _ _ Hl Hi).
Qed.

Lemma run_start_spec r :
  rings_ok r →
  rings_ok (run_start r) ∧
  (∀ j a, agents r !! j = Some a → state a ≠ Inactive → agents (run_start r) !! j = Some a) ∧
  (Forall (λ a, last_poll a = 0) (agents r) → Forall (λ a, last_poll a = 0) (agents (run_start r))).
Proof.
  unfold run_start. generalize (seq 0 (length (agents r))). intros l. revert r.
  induction l as [|i l IH]; intros r Hr; [done|]. rewrite fold_left_cons.
  destruct (start_step r i Hr) as (S1 & _ & S3 & S4). destruct (IH _ S1) as (I1 & I2 & I3). split_and!; auto.
Qed.

#[local] Instance rest_since_refl : Reflexive rest_since.
Proof using. intros r j a Hj _. exists a. by split_and!. Qed.

#[local] Instance rest_since_trans : Transitive rest_since.
Proof using.
  intros r1 r2 r3 H1 H2 j a Hj Hf. destruct (H1 j a Hj Hf) as (b & Hb & Hs & Hn1 & Hn2 & Hn3).
  destruct (H2 j b Hb) as (d & Hd & Hs' & Hm1 & Hm2 & Hm3); [unfold finished in *; by rewrite Hs|]. exists d. unfold not_run. split_and!; congruence.
Qed.

Lemma evo_rest tid r r' : Forall2 (evo tid) (agents r) (agents r') → rest_since r r'.
Proof using.
  intros Hev j a Hj Hf. destruct (Forall2_evo_lookup _ _ _ j a Hev Hj) as (b & Hb & He). exists b.
  rewrite (e_idle _ _ _ He) by (destruct Hf; congruence). split; [|by split_and!]. rewrite Hb. f_equal. apply (e_idle _ _ _ He). destruct Hf; congruence.
Qed.

Lemma cycle_rest c tid r : rings_ok r → ∃ p r', cycle c tid r = Ok (p, r') ∧ rings_ok r' ∧ rest_since r r'.
Proof using.
  intros Hr. destruct (cycle_spec c tid r Hr) as (p & r' & E & Hr' & _ & _ & Hev & _). exists p, r'. split_and!; [done..|].
  intros j a Hj Hf. destruct (Hev j a Hj) as (b & He & Hb). rewrite (e_idle _ _ _ He) in Hb by (destruct Hf; congruence).
  destruct (fade_fields a) as (_ & Fs & _ & Ft & Fl & Fa & _). exists (fade a). by split_and!.
Qed.

Lemma run_from_rest cs : ∀ tid r, rings_ok r → ∃ r', run_from tid cs r = Ok r' ∧ rings_ok r' ∧ rest_since r r'.
Proof using.
  induction cs as [|c cs IH]; intros tid r Hr; [by exists r|]. cbn [run_from].
  destruct (cycle_rest c tid r Hr) as (p & r1 & -> & Hr1 & H1). cbn [mbind res_bind].
  destruct (IH (u64_add tid 1) r1 Hr1) as (r2 & -> & Hr2 & H2). exists r2. split_and!; [done..|]. by etrans.
Qed.

(** The cycle count that [run_from] reaches. *)
Fixpoint tid_after (n : nat) (tid : Z) : Z := match n with O => tid | S n => tid_after n (u64_add tid 1) end.

Lemma run_from_app cs1 cs2 : ∀ tid r, run_from tid (cs1 ++ cs2) r = (r1 ← run_from tid cs1 r; run_from (tid_after (length cs1) tid) cs2 r1).
Proof using.
  induction cs1 as [|c cs1 IH]; intros tid r; [done|]. cbn [app run_from length tid_after]. destruct (cycle c tid r) as [[p r1]| | |]; [|done..]. apply IH.
Qed.

(** The agents polled so far and those still to be polled, in one cycle. *)
Lemma cycle_split_rest c tid r o1 o2 :
  rings_ok r → poll_order_by_affinity (display_first c tid (refresh c r)).2 = o1 ++ o2 →
  ∃ p m p' m', poll_loop c tid o1 (display_first c tid (refresh c r)) = Ok (p, m) ∧ poll_loop c tid o2 (p, m) = Ok (p', m') ∧
    cycle c tid r = Ok (p', decay m') ∧ rest_since m m'.
Proof using.
  intros Hr Ho. destruct (refresh_spec c r Hr) as (_ & _ & Hr1 & _). destruct (display_first_spec c tid (refresh c r)) as (D1 & _).
  pose proof (order_in_range _ (evo_rings _ _ _ D1 Hr1)) as Hin. rewrite Ho in Hin. rewrite cycle_unfold, Ho, poll_loop_app. destruct (display_first c tid (refresh c r)) as [p0 r0].
  cbn [snd] in *. apply Forall_app in Hin as [Hin1 Hin2]. destruct (poll_loop_spec c tid o1 p0 r0 Hin1) as (p & m & E1 & F1 & _). rewrite E1.
  rewrite (Forall2_length _ _ _ F1) in Hin2. destruct (poll_loop_spec c tid o2 p m Hin2) as (p' & m' & E2 & F2 & _).
  exists p, m, p', m'. cbn [mbind res_bind]. rewrite E2. split_and!; [done..|by eapply evo_rest].
Qed.

(** C9: The scheduler never runs an agent that is done or crashed. For any registry (the
    rings of its agents are not negative, a [u8] in the code) and any cycles, the loop never
    indexes out of range; an agent that had finished before [run] was entered, or that has
    finished after any number of cycles [cs1], keeps its object, its counters and its state
    through all the cycles [cs2] that follow; and within a cycle an agent that has finished
    once a part [o1] of the polling order has been served does so while the rest [o2] is. *)
Theorem finished_agents_rest cs1 cs2 r :
  rings_ok r →
  ∃ r1 r2, run cs1 r = Ok r1 ∧ run (cs1 ++ cs2) r = Ok r2 ∧ rest_since r r1 ∧ rest_since r1 r2 ∧
    ∀ c tid o1 o2, poll_order_by_affinity (display_first c tid (refresh c r1)).2 = o1 ++ o2 →
      ∃ p m p' m', poll_loop c tid o1 (display_first c tid (refresh c r1)) = Ok (p, m) ∧ poll_loop c tid o2 (p, m) = Ok (p', m') ∧
        cycle c tid r1 = Ok (p', decay m') ∧ rest_since m m'.
Proof using.
  intros Hr. destruct (run_start_spec r Hr) as (Hr0 & Hkeep & _). destruct (run_from_rest cs1 1 (run_start r) Hr0) as (r1 & E1 & Hr1 & H1).
  destruct (run_from_rest cs2 (tid_after (length cs1) 1) r1 Hr1) as (r2 & E2 & _ & H2). exists r1, r2. unfold run. rewrite run_from_app, E1. split_and!; [done|done| |done|].
  - intros j a Hj Hf. apply (H1 j a); [|done]. apply Hkeep; [done|]. destruct Hf; congruence.
  - intros c tid o1 o2 Ho. by apply cycle_split_rest.
Qed.

(** One cycle ticks an agent other than the display at most once, and only if
    it was due: active, not handed to another core, and not postponed by the UI
    mode, its own schedule or the rate limit. *)
Theorem ticked_at_most_once c tid r j a :
  rings_ok r → agents r !! j = Some a → name a ≠ "display" →
  ∃ p r' a', cycle c tid r = Ok (p, r') ∧ agents r' !! j = Some a' ∧
    (tick_counter a' = tick_counter a ∨ ran_once a a') ∧
    ((∀ w, poll_due c tid w a = false) → not_run a a').
Proof.
  intros Hr Hj Hn. unfold ran_once, not_run. destruct (cycle_at c tid r j a Hr Hj (shielded_name _ _ _ Hj Hn))
    as (p & r' & rj & a' & E & Hj' & _ & _ & Ht & Hd & _).
  destruct (fade_fields a') as (_ & _ & _ & Ft & Fl & Fa & _).
  exists p, r', (fade a'). rewrite Ft, Fa, Fl. split_and!; [done|done|done|].
  intros Hw. by rewrite (Hd (Hw _)).
Qed.

(** C18: Interactive agents are never starved: an active, continuous agent of ring 0 with
    some urgency, named among the UI-critical ones (not the display), the only one of that
    name and none being respawned under it, not paused, whose budget is not barred and whom
    no pre-tick hook blocks, is ticked exactly once in every cycle in which its slot obtains
    the tick latch (which a worker on another core may hold) — whatever the other agents
    do, with or without the desktop, an overdue frame or other cores. *)
Theorem interactive_agent_ticked c tid r j a :
  rings_ok r → agents r !! j = Some a → interactive a → sole_name c r j a → paused_ticks a = 0 →
  may_poll (name a) (budget_manager r) = true →
  Hooks.check Hooks.PreTick (name a) tid (hooks r) = true →
  latched (slots c j) = true →
  ∃ p r' a', cycle c tid r = Ok (p, r') ∧ agents r' !! j = Some a' ∧
    ran_once a a' ∧ last_poll a' = tid.
Proof.
  intros Hr Hj [Ha Hsch Hfl Hring Hurg Hcrit Hn] (Huniq & Hsp & Hre) Hp Hmay Hhk Hl. unfold ran_once.
  destruct (cycle_at c tid r j a Hr Hj (shielded_name _ _ _ Hj Hn))
    as (p & r' & rj & a' & E & Hj' & Hrj & Hh & _ & _ & Hrun & Hbud).
  destruct (fade_fields a') as (_ & _ & _ & Ft & Fl & _).
  exists p, r', (fade a'). rewrite Ft, Fl. split_and!; [done|done|apply Hrun..].
  all: unfold clear_to_run; rewrite Hh, Hhk, Hl, Hp; cbn [Z.eqb andb].
  all: assert (Hheavy : heavy_agent (name a) = false) by (apply bool_decide_eq_true in Hcrit;
    apply bool_decide_eq_false; clear -Hcrit; set_unfold; intros H; destruct_or?; congruence).
  all: assert (Hdue : poll_due c tid (world rj) a = true)
    by (unfold poll_due; rewrite Ha, Hsch, Hfl, Hring, Hcrit, Hheavy;
        rewrite (bool_decide_eq_false_2 (name a = "display")) by done;
        rewrite (proj2 (Z.eqb_neq (goal_urgency a) 0)) by lia; rewrite !andb_false_r; done).
  all: assert (Hm : may_poll (name a) (budget_manager rj) = true)
    by (unfold may_poll in *; rewrite Hbud by done; destruct (budgets (budget_manager r) !! name a) as [b|]; [|done];
        cbn; destruct (watchdog b); done).
  all: by rewrite Hdue, Hm.
Qed.

(** ** Periodic agents *)

Definition stamps_upto (t : Z) r : Prop := Forall (λ a, 0 ≤ last_poll a ≤ t) (agents r).

Lemma cycle_stamps c tid r p r' :
  rings_ok r → 0 ≤ tid → stamps_upto tid r → cycle c tid r = Ok (p, r') → stamps_upto tid r' ∧ rings_ok r'.
Proof.
  intros Hr Ht Hs E. destruct (cycle_spec c tid r Hr) as (p1 & r1 & E1 & Hr1 & _ & Hlen & Hev & Hnew).
  rewrite E in E1. simplify_eq. split; [|done]. apply Forall_lookup. intros j a Hj.
  destruct (decide (j < length (agents r))%nat) as [Hlt|Hge].
  - destruct (lookup_lt_is_Some_2 _ _ Hlt) as [b Hb]. destruct (Hev j b Hb) as (b' & He & Hj').
    rewrite Hj in Hj'. simplify_eq. destruct (fade_fields b') as (_ & _ & _ & _ & -> & _).
    pose proof (Forall_lookup_1 _ _ _ _ Hs Hb). cbn in *. destruct (e_poll _ _ _ He) as [->| ->]; lia.
  - destruct (Hnew j a Hj ltac:(lia)) as [->| ->]; lia.
Qed.

Lemma run_stamps cs r r' :
  rings_ok r → Forall (λ a, last_poll a = 0) (agents r) → zlen cs + 1 < 2 ^ 64 → run cs r = Ok r' →
  stamps_upto (zlen cs) r' ∧ rings_ok r'.
Proof.
  intros Hr Hz Hlen E. destruct (run_start_spec r Hr) as (Hr1 & _ & Hz1). specialize (Hz1 Hz).
  assert (Hs : stamps_upto 0 (run_start r)) by (eapply Forall_impl; [exact Hz1|]; cbn; intros; lia).
  unfold run in E. revert E. revert Hr1 Hs. generalize (run_start r). clear r Hr Hz Hz1.
  assert (H : ∀ t r, rings_ok r → stamps_upto t r → 0 ≤ t → t + zlen cs + 1 < 2 ^ 64 →
    run_from (t + 1) cs r = Ok r' → stamps_upto (t + zlen cs) r' ∧ rings_ok r').
  { induction cs as [|c cs IH]; intros t r Hr Hs Ht Hl E; cbn [run_from] in E.
    - simplify_eq. change (zlen (@nil (Cycle A))) with 0. by rewrite Z.add_0_r.
    - rewrite zlen_cons in *. destruct (cycle_spec c (t + 1) r Hr) as (p & r1 & E1 & _). rewrite E1 in E.
      cbn [mbind res_bind] in E. destruct (cycle_stamps c (t + 1) r p r1 Hr) as [Hs1 Hr1]; [lia| |done|].
      { eapply Forall_impl; [exact Hs|]. cbn. intros. lia. }
      pose proof (zlen_nonneg cs). rewrite u64_add_small in E by lia.
      replace (t + (1 + zlen cs)) with (t + 1 + zlen cs) by lia. apply (IH ltac:(lia) (t + 1) r1); [done|done|lia|lia|done]. }
  intros r Hr Hs E. replace (zlen cs) with (0 + zlen cs) by lia. apply (H 0 r); [done|done|lia|lia|done].
Qed.

(** Along any run, an agent on a [PollEvery n] flow that is ticked in some
    cycle was last polled at least [n] cycles earlier, or never before: the
    unsigned subtraction of the schedule test never wraps, because no agent is
    ever stamped with a cycle that has not happened. *)
Theorem poll_every_spacing cs r0 r c j a n :
  rings_ok r0 → Forall (λ a, last_poll a = 0) (agents r0) → zlen cs + 1 < 2 ^ 64 → run cs r0 = Ok r →
  agents r !! j = Some a → name a ≠ "display" → flow (crew a) = FSchedule (PollEvery n) →
  let tid := zlen cs + 1 in
  ∃ p r' a', cycle c tid r = Ok (p, r') ∧ agents r' !! j = Some a' ∧
    (not_run a a' ∨ last_poll a = 0 ∨ n ≤ tid - last_poll a).
Proof.
  intros Hr0 Hz Hlen Erun Hj Hn Hfl tid. destruct (run_stamps cs r0 r Hr0 Hz Hlen Erun) as [Hs Hr].
  destruct (cycle_at c tid r j a Hr Hj (shielded_name _ _ _ Hj Hn)) as (p & r' & rj & a' & E & Hj' & _ & _ & _ & Hd & _).
  destruct (fade_fields a') as (_ & _ & _ & Ft & Fl & Fa & _). exists p, r', (fade a'). unfold not_run. rewrite Ft, Fl, Fa.
  split_and!; [done|done|]. destruct (decide (last_poll a = 0)) as [H0|H0]; [by right; left|].
  destruct (Z.le_gt_cases n (tid - last_poll a)) as [Hle|Hgt]; [by right; right|]. left. rewrite Hd; [done|].
  pose proof (Forall_lookup_1 _ _ _ _ Hs Hj) as Hb. cbn in Hb. unfold tid in *.
  assert (Hsp : should_poll_flow (flow (crew a)) (zlen cs + 1) (last_poll a)
      (negb (bool_decide (schedule a = EventDriven)) || event_driven_has_event (last_poll a) (has_pending (agent a) (world rj))) = false).
  { rewrite Hfl. cbn. rewrite (proj2 (Z.eqb_neq _ _) H0). cbn. unfold u64_sub. rewrite Z.mod_small by lia.
    apply Z.leb_gt. lia. }
  unfold poll_due. rewrite Hsp. repeat (match goal with |- (if ?b then _ else _) = _ => destruct b end; [done|]). done.
Qed.

(** ** Offloading and the display *)

(** With offloading on, the work is split: an active agent of ring 1 or more is
    in the batch handed to the other cores and this core leaves it untouched in
    this cycle; no agent of ring 0 is in the batch. *)
Theorem offload_partition c tid r j a :
  rings_ok r → smp_offload c = true → agents r !! j = Some a → name a ≠ "display" →
  (1 ≤ affinity_ring a →
     (state a = Active →
      (j, affinity_ring a, tier_priority (tier a), coherence_partner a, goal_urgency a) ∈ smp_batch r) ∧
     ∃ p r', cycle c tid r = Ok (p, r') ∧ agents r' !! j = Some (fade a)) ∧
  (affinity_ring a = 0 → ¬ handed_out r j).
Proof.
  intros Hr Hoff Hj Hn. split.
  - intros Hring. split.
    + intros Ha. unfold smp_batch. apply list_elem_of_omap. exists (j, a). split.
      * apply list_elem_of_lookup. exists j. rewrite list_lookup_imap, Hj. done.
      * cbn. rewrite bool_decide_eq_true_2 by done. by rewrite (proj2 (Z.eqb_neq _ _)) by lia.
    + destruct (cycle_at c tid r j a Hr Hj (shielded_name _ _ _ Hj Hn)) as (p & r' & rj & a' & E & Hj' & _ & _ & _ & Hd & _).
      exists p, r'. split; [done|]. rewrite Hj', Hd; [done|]. unfold poll_due. destruct (negb _); [done|].
      by rewrite Hoff, (proj2 (Z.leb_le 1 _)).
  - intros Hring Hin. apply list_elem_of_fmap in Hin as ([[[[i ?] ?] ?] ?] & Hi & Hin). cbn in Hi. subst i.
    unfold smp_batch in Hin. apply list_elem_of_omap in Hin as ([i b] & Hib & Hf).
    apply list_elem_of_lookup in Hib as [k Hk]. rewrite list_lookup_imap in Hk.
    destruct (agents r !! k) as [b0|] eqn:Ek; [|done]. cbn in Hk. simplify_eq. cbn in Hf.
    destruct (bool_decide _ && _) eqn:Eb; [|done]. simplify_eq. by rewrite Hring, andb_false_r in Eb.
Qed.

(** While the desktop is live, a second agent called "display" is never
    ticked: the scheduler's display ticks go to the first one even when it has
    crashed, and the poll loop skips the name. A respawned display therefore never
    paints. *)
Theorem respawned_display_never_ticked c tid r d1 a1 :
  rings_ok r → ui_live c = true → later_display r d1 a1 →
  ∃ p r', cycle c tid r = Ok (p, r') ∧ agents r' !! d1 = Some (fade a1).
Proof.
  intros Hr Hui (H1 & Hn1 & d0 & a0 & Hlt & H0 & Hn0). assert (Hs : shielded r d1).
  { intros (_ & _ & Hmin)%list_find_Some. apply (Hmin d0 "display"); [|done|done].
    change (map name (agents r)) with (name <$> agents r). rewrite list_lookup_fmap, H0. cbn. by rewrite Hn0. }
  destruct (cycle_at c tid r d1 a1 Hr H1 Hs) as (p & r' & rj & a' & E & Hj' & _ & _ & _ & Hd & _).
  exists p, r'. split; [done|]. rewrite Hj', Hd; [done|]. unfold poll_due. destruct (negb _); [done|].
  destruct (smp_offload c && _); [done|]. by rewrite Hui, bool_decide_eq_true_2.
Qed.

(** ** The pause policy *)

Inductive gev :=
| GCheck (k : nat)                              (* a budget check of agent [k] *)
| GOverrun (n : string)                         (* a slow tick reported *)
| GReset                                        (* start of a cycle *)
| GRegister (n : string) (budget : option Z).   (* a budget registered anew *)

(** Both callers test that the agent is active first. *)
Definition gexec r (e : gev) : AgentRegistry A W :=
  match e with
  | GCheck k => match agents r !! k with
                | Some a => if bool_decide (state a = Active) then (check_budget k r).2 else r
                | None => r end
  | GOverrun n => set_budgets (Budget.note_wall_overrun n (budget_manager r)) r
  | GReset => set_budgets (Budget.reset_all (budget_manager r)) r
  | GRegister n b => set_budgets (Budget.register n b (budget_manager r)) r
  end.

Definition refused1 (i : nat) r (e : gev) : Z :=
  match e with
  | GCheck k => match agents r !! k with
                | Some a => if bool_decide (k = i) && bool_decide (state a = Active) && negb (check_budget k r).1 then 1 else 0
                | None => 0 end
  | _ => 0
  end.

(** How many polls of agent [i] were refused along the way. *)
Fixpoint refused (i : nat) (l : list gev) r : Z :=
  match l with
  | [] => 0
  | e :: l' => refused1 i r e + refused i l' (gexec r e)
  end.

(** The account of an agent refused [n] times. *)
Definition account (n : Z) a : Prop :=
  lifetime_paused_polls a = n ∧ 0 ≤ n ≤ 10000 ∧
  (n < 10000 → state a = Active ∧ paused_ticks a = n mod 1000) ∧ (n = 10000 → state a = ACrashed).

Lemma check_budget_other i k r : i ≠ k → agents (check_budget k r).2 !! i = agents r !! i.
Proof.
  intros Hne. unfold check_budget. destruct (agents r !! k) as [a|]; [|done].
  destruct (0 <? paused_ticks a).
  - destruct (10000 <=? _); [|destruct (1000 <=? _)]; cbn; by rewrite alter_const, list_lookup_insert_ne.
  - destruct (Budget.allow_poll _ _) as [[] m]; cbn; [done|]. by rewrite alter_const, list_lookup_insert_ne.
Qed.

Lemma mod_succ n : 0 ≤ n → (n + 1) mod 1000 = if n mod 1000 =? 999 then 0 else n mod 1000 + 1.
Proof.
  intros Hn. pose proof (Z.div_mod n 1000). pose proof (Z.mod_pos_bound n 1000).
  destruct (Z.eqb_spec (n mod 1000) 999).
  - symmetry. apply (Zmod_unique _ _ (n / 1000 + 1)); lia.
  - symmetry. apply (Zmod_unique _ _ (n / 1000)); lia.
Qed.

Lemma check_budget_account i n r a :
  agents r !! i = Some a → account n a → n < 10000 →
  ∃ a', agents (check_budget i r).2 !! i = Some a' ∧ account (n + if (check_budget i r).1 then 0 else 1) a'.
Proof.
  intros Hi (Hl & Hn & Hlive & Hdead) Hlt. destruct (Hlive Hlt) as [Hs Hp].
  assert (Hin : (i < length (agents r))%nat) by (by apply lookup_lt_Some in Hi).
  pose proof (mod_succ n ltac:(lia)) as Hm. pose proof (Z.mod_pos_bound n 1000 ltac:(lia)) as Hb.
  unfold check_budget. rewrite Hi. destruct (Z.ltb_spec 0 (paused_ticks a)) as [Hpos|Hz].
  - set (a1 := with_lifetime_paused_polls _ _).
    assert (Hl1 : lifetime_paused_polls a1 = n + 1) by (cbn; rewrite u64_sat_add_small; lia).
    assert (Hp1 : paused_ticks a1 = n mod 1000 + 1) by (cbn; rewrite u64_sat_add_small; lia).
    assert (Hs1 : state a1 = Active) by done. clearbody a1. rewrite Hl1, Hp1.
    destruct (Z.leb_spec 10000 (n + 1)); [|destruct (Z.leb_spec 1000 (n mod 1000 + 1))].
    all: eexists; cbn -[Z.modulo]; rewrite alter_const, list_lookup_insert_eq by done; split; [done|].
    all: unfold account; cbn -[Z.modulo]; rewrite ?Hl1, ?Hp1, ?Hm.
    + split_and!; [done|lia|lia|lia|done].
    + destruct (Z.eqb_spec (n mod 1000) 999); [|lia]. split_and!; [done|lia|lia|done|lia].
    + destruct (Z.eqb_spec (n mod 1000) 999); [lia|]. split_and!; [done|lia|lia|done|lia].
  - destruct (Budget.allow_poll _ _) as [[] m]; cbn -[Z.modulo].
    + exists a. rewrite Z.add_0_r. unfold account. split_and!; try done; lia.
    + eexists. rewrite alter_const, list_lookup_insert_eq by done. split; [done|].
      unfold account. cbn -[Z.modulo]. rewrite u64_sat_add_small, Hl, Hm by lia.
      destruct (Z.eqb_spec (n mod 1000) 999); [lia|]. assert (n ≠ 9999) by (intros ->; discriminate || (cbn in *; lia)).
      split_and!; [done|lia|lia| |lia]. intros _. split; [done|lia].
Qed.

Lemma gexec_account i n r a e :
  agents r !! i = Some a → account n a →
  ∃ a', agents (gexec r e) !! i = Some a' ∧ account (n + refused1 i r e) a'.
Proof.
  intros Hi Ha. destruct e as [k|nm| |nm b]; cbn [gexec refused1]; try (exists a; by rewrite Z.add_0_r).
  destruct (agents r !! k) as [b|] eqn:Hk; [|exists a; by rewrite Z.add_0_r].
  destruct (decide (k = i)) as [->|Hne].
  - rewrite (bool_decide_eq_true_2 (i = i)) by done. assert (b = a) as -> by congruence.
    destruct (bool_decide (state a = Active)) eqn:Es; cbn [andb]; [|exists a; by rewrite Z.add_0_r].
    apply bool_decide_eq_true in Es. assert (Hlt : n < 10000).
    { destruct Ha as (_ & Hn & _ & Hd). destruct (decide (n = 10000)) as [E|]; [specialize (Hd E); congruence|lia]. }
    destruct (check_budget_account i n r a Hi Ha Hlt) as (a' & Hi' & Ha'). exists a'. split; [done|].
    by destruct (check_budget i r).1.
  - rewrite (bool_decide_eq_false_2 (k = i)) by done. cbn [andb]. rewrite Z.add_0_r. exists a. split; [|done].
    destruct (bool_decide _); [|done]. by rewrite check_budget_other.
Qed.

(** The pause policy, over any sequence of budget checks of any agents, slow
    ticks, cycle resets and budget registrations: an agent that starts clean is
    refused at most 10,000 polls in its life; it is marked crashed exactly at the
    10,000th, and until then it is still active, its current pause having lasted
    the refusals since the last multiple of 1,000. *)
Theorem pause_policy i l r a :
  agents r !! i = Some a → state a = Active → paused_ticks a = 0 → lifetime_paused_polls a = 0 →
  ∃ a', agents (fold_left gexec l r) !! i = Some a' ∧
    lifetime_paused_polls a' = refused i l r ∧ 0 ≤ refused i l r ≤ 10000 ∧
    (refused i l r < 10000 → state a' = Active ∧ paused_ticks a' = refused i l r mod 1000) ∧
    (refused i l r = 10000 → state a' = ACrashed).
Proof.
  intros Hi Hs Hp Hl. assert (Ha : account 0 a) by (unfold account; split_and!; try done; lia).
  assert (H : ∀ n r a, agents r !! i = Some a → account n a →
            ∃ a', agents (fold_left gexec l r) !! i = Some a' ∧ account (n + refused i l r) a').
  { clear. induction l as [|e l IH]; intros n r a Hi Ha; [exists a; cbn; by rewrite Z.add_0_r|].
    rewrite fold_left_cons. destruct (gexec_account i n r a e Hi Ha) as (a1 & Hi1 & Ha1).
    destruct (IH _ _ _ Hi1 Ha1) as (a' & Hi' & Ha'). exists a'. split; [done|]. cbn [refused]. by rewrite Z.add_assoc. }
  destruct (H 0 r a Hi Ha) as (a' & Hi' & Ha'). rewrite Z.add_0_l in Ha'. by exists a'.
Qed.

Definition checks (n : nat) (i : nat) r : AgentRegistry A W := Nat.iter n (λ r, (check_budget i r).2) r.

(** During a pause the budget is barred until the thousandth refusal, which clears it. *)
Lemma checks_paused n i r a b :
  agents r !! i = Some a → state a = Active → paused_ticks a = 0 → 0 ≤ lifetime_paused_polls a ≤ 8999 →
  budgets (budget_manager r) !! name a = Some b → barred (watchdog b) = true → (1 ≤ n ≤ 1000)%nat →
  ∃ a', agents (checks n i r) !! i = Some a' ∧ state a' = Active ∧ name a' = name a ∧
    lifetime_paused_polls a' = lifetime_paused_polls a + Z.of_nat n ∧
    (n < 1000 → paused_ticks a' = Z.of_nat n ∧ budgets (budget_manager (checks n i r)) !! name a = Some b)%nat ∧
    (n = 1000%nat → paused_ticks a' = 0 ∧ budgets (budget_manager (checks n i r)) !! name a = Some (recover1 b)).
Proof.
  intros Hi Hs Hp Hl Hb Hbar. assert (Hlen : (i < length (agents r))%nat) by (by apply lookup_lt_Some in Hi).
  induction n as [|n IH]; [lia|]. intros Hn.
  change (checks (S n) i r) with (check_budget i (checks n i r)).2. destruct (decide (n = 0)%nat) as [->|Hn0].
  - change (checks 0 i r) with r. unfold check_budget. rewrite Hi, (proj2 (Z.ltb_ge 0 _)) by lia.
    unfold Budget.allow_poll. rewrite Hb. unfold allow_poll1. rewrite Hbar. cbn [negb fst snd].
    eexists. cbn [upd set_budgets set_agents agents budget_manager on budgets]. rewrite alter_const, list_lookup_insert_eq by done. cbn.
    rewrite u64_sat_add_small, lookup_alter_eq, Hb by lia. cbn. rewrite Hbar. split_and!; [done|done|done|cbn; lia|done|by intros].
  - destruct (IH ltac:(lia)) as (a1 & Hi1 & Hs1 & Hn1 & Hl1 & Hmid & _). destruct (Hmid ltac:(lia)) as [Hp1 Hb1].
    set (r1 := checks n i r) in *. clearbody r1. assert (Hlen1 : (i < length (agents r1))%nat) by (by apply lookup_lt_Some in Hi1).
    unfold check_budget. rewrite Hi1, Hp1, (proj2 (Z.ltb_lt 0 (Z.of_nat n))) by lia.
    set (a2 := with_lifetime_paused_polls _ _).
    assert (H2 : lifetime_paused_polls a2 = lifetime_paused_polls a + Z.of_nat (S n) ∧ paused_ticks a2 = Z.of_nat (S n)
                 ∧ state a2 = Active ∧ name a2 = name a) by (cbn; rewrite !u64_sat_add_small; [split_and!; [lia|lia|done|done]|lia|lia]).
    destruct H2 as (E1 & E2 & E3 & E4). clearbody a2. rewrite E1, E2, (proj2 (Z.leb_gt 10000 _)) by lia.
    destruct (Z.leb_spec 1000 (Z.of_nat (S n))); cbn [snd].
    + eexists. cbn [upd set_budgets set_agents agents budget_manager]. rewrite alter_const, list_lookup_insert_eq by done.
      cbn [state name with_paused_ticks lifetime_paused_polls paused_ticks].
      split_and!; [done|done|done|done|intros; lia|]. intros _. split; [done|].
      unfold Budget.recover. rewrite lookup_on, Hn1, decide_True, Hb1 by done. done.
    + eexists. cbn [upd set_agents agents budget_manager]. rewrite alter_const, list_lookup_insert_eq by done.
      split_and!; [done|done|done|done|done|intros; lia].
Qed.

(** A pause ends: an agent barred for its overruns is refused exactly 1,000
    polls in a row (while its lifetime allowance lasts), after which its account is
    wiped and the next poll is granted. *)
Theorem pause_lasts_1000_polls i r a b :
  agents r !! i = Some a → state a = Active → paused_ticks a = 0 → 0 ≤ lifetime_paused_polls a ≤ 8999 →
  budgets (budget_manager r) !! name a = Some b → barred (watchdog b) = true →
  (∀ n, (n < 1000)%nat → (check_budget i (checks n i r)).1 = false) ∧
  (check_budget i (checks 1000 i r)).1 = true.
Proof.
  intros Hi Hs Hp Hl Hb Hbar. split.
  - intros n Hn. destruct (decide (n = 0)%nat) as [->|Hn0].
    + change (checks 0 i r) with r. unfold check_budget. rewrite Hi, (proj2 (Z.ltb_ge 0 _)) by lia.
      unfold Budget.allow_poll. rewrite Hb. unfold allow_poll1. by rewrite Hbar.
    + destruct (checks_paused n i r a b Hi Hs Hp Hl Hb Hbar ltac:(lia)) as (a' & Hi' & _ & _ & _ & Hmid & _).
      destruct (Hmid Hn) as [Hp' _]. unfold check_budget. rewrite Hi', Hp', (proj2 (Z.ltb_lt 0 (Z.of_nat n))) by lia.
      destruct (10000 <=? _); [done|]. by destruct (1000 <=? _).
  - destruct (checks_paused 1000 i r a b Hi Hs Hp Hl Hb Hbar ltac:(lia)) as (a' & Hi' & _ & Hn' & _ & _ & Hend).
    destruct (Hend eq_refl) as [Hp' Hb']. generalize dependent (checks 1000 i r). intros r' Hi' Hb' Hb''. 
    unfold check_budget. rewrite Hi', Hp'. cbn [Z.ltb Z.compare]. unfold Budget.allow_poll. rewrite Hn'.
    rewrite Hb''. done.
Qed.

(** ** The pending watchdog *)

(** The watchdog of agents that never finish: an active agent answering
    [Pending] [n] times in a row is crashed exactly when its urgency is zero and
    [n] exceeds 10,000; interactive agents (urgency above zero) never are. *)
Theorem watchdog_crashes_at_10001 clk tid a n :
  state a = Active → consecutive_pending a = 0 → (Z.of_nat n < 2 ^ 64) →
  let a' := pending_times clk tid n a in
  consecutive_pending a' = Z.of_nat n ∧ goal_urgency a' = goal_urgency a ∧
  (state a' = ACrashed ↔ goal_urgency a = 0 ∧ 10000 < Z.of_nat n).
Proof.
  intros Hs Hc Hn. unfold pending_times. induction n as [|n IH]; cbn [Nat.iter nat_rect].
  { rewrite Hc, Hs. split_and!; [done|done|]. split; [done|lia]. }
  cbv zeta in IH. change (nat_rect _ _ _ n) with (Nat.iter n (apply_result clk Pending tid) a).
  destruct (IH ltac:(lia)) as (I1 & I2 & I3). set (x := Nat.iter n _ a) in *. clearbody x.
  unfold apply_result. cbn zeta. destruct (bench_record_fields clk x) as (_ & _ & _ & _ & _ & _ & Hu & Hst & _ & Hcp).
  set (y := with_consecutive_pending _ _).
  assert (Hy : consecutive_pending y = Z.of_nat (S n) ∧ goal_urgency y = goal_urgency a ∧ state y = state x).
  { cbn. rewrite Hcp, Hu, Hst, I1, I2, u64_sat_add_small by lia. split_and!; [lia|done|done]. }
  destruct Hy as (Y1 & Y2 & Y3). clearbody y. unfold watchdog_should_crash. rewrite Y1, Y2.
  destruct (Z.eqb_spec (goal_urgency a) 0) as [Eu|Eu]; cbn [andb].
  - destruct (Z.ltb_spec 10000 (Z.of_nat (S n))); cbn; rewrite ?Y1, ?Y2, ?Y3; (split_and!; [done|done|]); [done|].
    rewrite I3. split; [lia|lia].
  - rewrite Y1, Y2, Y3, I3. split_and!; [done|done|]. split; [lia|lia].
Qed.

(** ** Boot *)

Definition booting a : Prop := schedule a = Oneshot ∧ state a = Active.

(** One round, for one agent. *)
Definition round_rel a a' : Prop :=
  (booting a → schedule a' = Oneshot ∧ tick_counter a' = u64_add (tick_counter a) 1 ∧
               (state a' = Active ∨ state a' = Done ∨ state a' = ACrashed)) ∧
  (¬ booting a → a' = a).

Lemma init_step_spec round any r i a :
  agents r !! i = Some a →
  ∃ a', agents (init_step round (any, r) i).2 = <[i := a']> (agents r) ∧ round_rel a a' ∧
    ((init_step round (any, r) i).1 = false → any = false ∧ ¬ booting a).
Proof.
  intros Hi. unfold init_step. rewrite Hi. unfold round_rel, booting.
  destruct (bool_decide (schedule a = Oneshot)) eqn:E1; [|apply bool_decide_eq_false in E1];
    [|exists a; rewrite list_insert_id by done; split_and!; tauto].
  destruct (bool_decide (state a = Active)) eqn:E2; [|apply bool_decide_eq_false in E2];
    [|exists a; rewrite list_insert_id by done; split_and!; tauto].
  apply bool_decide_eq_true in E1, E2. cbn [andb].
  destruct (call_tick_spec 0 round i r a E2) as (res & a1 & Hr & Hag & He & Hs & Ht & _).
  destruct (call_tick _ _ _ _) as [res' r1]. cbn in Hr, Hag. subst res'. cbn [fst snd].
  assert (Hlt : (i < length (agents r))%nat) by (by apply lookup_lt_Some in Hi).
  pose proof (e_schedule _ _ _ He) as Hsch.
  assert (Hupd : ∀ st, agents (upd i (with_state st) r1) = <[i := with_state st a1]> (agents r)).
  { intros st. cbn. rewrite Hag. apply list_eq. intros j. destruct (decide (j = i)) as [->|Hne].
    - by rewrite list_lookup_alter_eq, !list_lookup_insert_eq.
    - by rewrite list_lookup_alter_ne, !list_lookup_insert_ne. }
  destruct res; [exists a1|exists (with_state Done a1)|exists (with_state ACrashed a1)]; rewrite ?Hupd; cbn;
    (split_and!; [done|intros _; split_and!; [congruence|done|tauto]|tauto|done]).
Qed.

Lemma init_fold round l any r :
  NoDup l → Forall (λ i, i < length (agents r))%nat l →
  let st := fold_left (init_step round) l (any, r) in
  length (agents st.2) = length (agents r) ∧
  ∀ j a, agents r !! j = Some a → ∃ a', agents st.2 !! j = Some a' ∧
    (j ∉ l → a' = a) ∧ (j ∈ l → round_rel a a' ∧ (st.1 = false → ¬ booting a)) ∧ (st.1 = false → any = false).
Proof.
  revert any r. induction l as [|i l IH]; intros any r Hnd Hl; cbn zeta.
  { split; [done|]. intros j a Hj. exists a. split_and!; [done|done|set_solver|done]. }
  apply NoDup_cons in Hnd as [Hi Hnd]. apply Forall_cons in Hl as [Hlt Hl]. rewrite fold_left_cons.
  destruct (lookup_lt_is_Some_2 _ _ Hlt) as [b Hb].
  destruct (init_step_spec round any r i b Hb) as (b' & Hag & Hrel & Hany).
  destruct (init_step round (any, r) i) as [any1 r1]. cbn [fst snd] in *.
  destruct (IH any1 r1 Hnd) as [Hlen Hall]; [by rewrite Hag, length_insert|]. cbn zeta in Hlen, Hall.
  split; [by rewrite Hlen, Hag, length_insert|]. intros j a Hj. destruct (decide (j = i)) as [->|Hne].
  - assert (b = a) as -> by congruence. destruct (Hall i b') as (a' & Ha' & Hout & _ & Hf).
    { rewrite Hag. by apply list_lookup_insert_eq. }
    exists a'. rewrite (Hout Hi) in Ha' |- *. split_and!; [done|set_solver| |intros Hff; by apply Hany, Hf].
    intros _. split; [done|]. intros Hff. by apply Hany, Hf.
  - destruct (Hall j a) as (a' & Ha' & Hout & Hin & Hf); [by rewrite Hag, list_lookup_insert_ne|].
    exists a'. split_and!; [done|set_solver| |intros Hff; by apply Hany, Hf].
    intros [->|Hjl]%elem_of_cons; [done|]. by apply Hin.
Qed.

Lemma init_round_spec round r :
  length (agents (init_round round r).2) = length (agents r) ∧
  ∀ j a, agents r !! j = Some a → ∃ a', agents (init_round round r).2 !! j = Some a' ∧ round_rel a a' ∧
    ((init_round round r).1 = false → ¬ booting a).
Proof.
  unfold init_round. destruct (init_fold round (seq 0 (length (agents r))) false r) as [Hlen Hall].
  - apply NoDup_ListNoDup, seq_NoDup.
  - apply Forall_forall. intros i Hi%elem_of_seq. lia.
  - split; [done|]. intros j a Hj. destruct (Hall j a Hj) as (a' & Ha' & _ & Hin & _). exists a'. split; [done|].
    apply Hin. apply elem_of_seq. apply lookup_lt_Some in Hj. lia.
Qed.

(** After at most [left] rounds. *)
Lemma init_rounds_spec left round r j a :
  agents r !! j = Some a →
  ∃ a', agents (init_rounds left round r) !! j = Some a' ∧
    (booting a → state a' = Done ∨ state a' = ACrashed ∨
                 (state a' = Active ∧ tick_counter a' = (tick_counter a + Z.of_nat left) mod 2 ^ 64)
                 ∨ left = 0%nat) ∧
    (left = 0%nat ∨ ¬ booting a → a' = a).
Proof.
  revert round r a. induction left as [|left IH]; intros round r a Hj.
  { exists a. split_and!; tauto. }
  cbn [init_rounds]. destruct (init_round_spec round r) as [_ Hall]. destruct (Hall j a Hj) as (a1 & Hj1 & [Hb Hnb] & Hf).
  destruct (init_round round r) as [any r1]. cbn [fst snd] in *. destruct any.
  2:{ exists a1. split_and!; [done|intros H; by destruct (Hf eq_refl)|]. intros [?|H]; [done|]. by apply Hnb. }
  destruct (IH (round + 1) r1 a1 Hj1) as (a' & Hj' & Hb' & Hnb'). exists a'. split_and!; [done| |].
  - intros H. destruct (Hb H) as (Hs1 & Ht1 & Hst1). destruct Hst1 as [Hact|Hfin].
    + destruct (Hb' (conj Hs1 Hact)) as [?|[?|[[H1 H2]|H1]]]; [tauto|tauto| |].
      * right; right; left. split; [done|]. rewrite H2, Ht1. unfold u64_add. rewrite Zplus_mod_idemp_l. f_equal. lia.
      * right; right; left. rewrite Hnb' by tauto. split; [done|]. rewrite Ht1, H1. unfold u64_add. f_equal.
    + rewrite Hnb'; [tauto|]. right. unfold booting. destruct Hfin; intros [_ ?]; congruence.
  - intros [?|H]; [done|]. rewrite <-(Hnb H) in H |- *. apply Hnb'. by right.
Qed.

Definition boots a : bool :=
  bool_decide (schedule a = Oneshot) && auto_start a && negb (bool_decide (state a = Done))
  && negb (bool_decide (state a = ACrashed)).

Lemma init_activate_fold l r :
  NoDup l →
  let r' := fold_left (λ r i, match agents r !! i with
                    | Some a => if boots a then activate i r else r | None => r end) l r in
  ∀ j a, agents r !! j = Some a → ∃ a', agents r' !! j = Some a' ∧
    (j ∉ l ∨ boots a = false → a' = a) ∧
    (j ∈ l → boots a = true → booting a' ∧ tick_counter a' = tick_counter a).
Proof.
  revert r. induction l as [|i l IH]; intros r Hnd; cbn zeta; intros j a Hj.
  { exists a. split_and!; [done|done|set_solver]. }
  apply NoDup_cons in Hnd as [Hi Hnd]. rewrite fold_left_cons. set (r1 := match _ with Some _ => _ | None => _ end).
  destruct (decide (j = i)) as [->|Hne].
  - assert (H1 : ∃ a1, agents r1 !! i = Some a1 ∧ (boots a = false → a1 = a) ∧
                   (boots a = true → booting a1 ∧ tick_counter a1 = tick_counter a)).
    { unfold r1. rewrite Hj. destruct (boots a) eqn:Eb; [|exists a; by split_and!].
      destruct (activate_spec i r a Hj) as (a1 & E & _ & _ & Es & Esch & _ & Et & _). exists a1.
      rewrite E. split_and!; [apply list_lookup_insert_eq; by apply lookup_lt_Some in Hj|done|].
      intros _. split; [|done]. split; [|done]. rewrite Esch. unfold boots in Eb.
      repeat (apply andb_prop in Eb as [Eb _]). by apply bool_decide_eq_true in Eb. }
    destruct H1 as (a1 & Hj1 & Hf & Ht). destruct (IH r1 Hnd i a1 Hj1) as (a' & Hj' & Hout & _).
    rewrite Hout in Hj' by (by left). exists a1. split_and!; [done| |done]. intros [H|H]; [set_solver|by apply Hf].
  - assert (Hj1 : agents r1 !! j = Some a).
    { unfold r1. destruct (agents r !! i) as [b|] eqn:Hb; [|done]. destruct (boots b); [|done].
      destruct (activate_spec i r b Hb) as (a1 & E & _). rewrite E. by rewrite list_lookup_insert_ne. }
    destruct (IH r1 Hnd j a Hj1) as (a' & Hj' & Hout & Hin). exists a'. split_and!; [done| |].
    + intros [H|H]; apply Hout; [left; set_solver|by right].
    + intros [->|H]%elem_of_cons; [done|]. by apply Hin.
Qed.

Lemma init_activate_spec r j a :
  agents r !! j = Some a →
  ∃ a', agents (init_activate r) !! j = Some a' ∧ (boots a = false → a' = a) ∧
    (boots a = true → booting a' ∧ tick_counter a' = tick_counter a).
Proof.
  intros Hj. destruct (init_activate_fold (seq 0 (length (agents r))) r) with (j := j) (a := a) as (a' & Hj' & Hout & Hin).
  - apply NoDup_ListNoDup, seq_NoDup.
  - done.
  - exists a'. split_and!; [done|intros H; apply Hout; by right|]. apply Hin. apply elem_of_seq.
    apply lookup_lt_Some in Hj. lia.
Qed.

(** The boot phase cannot hang: it performs at most 10,000 rounds, after which
    every one-shot agent that starts on its own is done, crashed, or still active
    having been ticked in each of the 10,000 rounds; agents of other kinds, and
    those already done or crashed, are left exactly as they were. *)
Theorem init_phase_outcome r j a :
  agents r !! j = Some a →
  ∃ a', agents (init_phase r) !! j = Some a' ∧
    (schedule a = Oneshot → auto_start a = true →
       booted a a') ∧
    (schedule a ≠ Oneshot ∨ finished a → a' = a).
Proof.
  intros Hj. unfold booted, finished. unfold init_phase. destruct (init_activate_spec r j a Hj) as (a1 & Hj1 & Hkeep & Hboot).
  destruct (init_rounds_spec (Z.to_nat MAX_ROUNDS) 1 (init_activate r) j a1 Hj1) as (a' & Hj' & Hb & Hnb).
  exists a'. split_and!; [done| |].
  - intros Hs Hauto. destruct (boots a) eqn:Eb.
    + destruct (Hboot eq_refl) as [Hbt Ht]. destruct (Hb Hbt) as [?|[?|[[H1 H2]|H]]]; [tauto|tauto| |done].
      right. split; [done|]. by rewrite H2, Ht.
    + unfold boots in Eb. rewrite bool_decide_eq_true_2, Hauto in Eb by done. cbn in Eb.
      rewrite (Hkeep eq_refl) in *. assert (Hfin : state a = Done ∨ state a = ACrashed).
      { destruct (decide (state a = Done)); [by left|]. destruct (decide (state a = ACrashed)); [by right|].
        by rewrite !bool_decide_eq_false_2 in Eb by done. }
      rewrite Hnb; [tauto|]. right. unfold booting. destruct Hfin; intros [_ ?]; congruence.
  - intros H. assert (Hbf : boots a = false).
    { unfold boots. destruct H as [H|[H|H]]; [by rewrite bool_decide_eq_false_2| |]; rewrite H; cbn; by rewrite ?andb_false_r. }
    rewrite (Hkeep Hbf) in *. apply Hnb. right. unfold booting. destruct H as [H|[H|H]]; intros [? ?]; congruence.
Qed.
End Sched.

Lemma poll_order_correct_witness :
  poll_order_by_affinity (demo_reg [demo "e" EventDriven Pending; demo "p" (PollEvery 3) Pending;
                                    demo "o" Oneshot Pending; demo "c" Continuous Pending]) ≡ₚ [0; 1; 2; 3]%nat.
Proof.
  destruct (poll_order_correct (demo_reg [demo "e" EventDriven Pending; demo "p" (PollEvery 3) Pending;
                                    demo "o" Oneshot Pending; demo "c" Continuous Pending])) as [E _].
  - repeat constructor; cbn; lia.
  - exact E.
Defined.

(** A registry whose second agent crashed. *)
Definition crashed_reg : AgentRegistry Demo unit :=
  upd 1 (with_state ACrashed) (demo_reg [demo "input" Continuous Pending; demo "x" Continuous Pending]).

(** The first agent crashes in the first cycle; the second crashed before. *)
Definition finishing_reg : AgentRegistry Demo unit :=
  upd 1 (with_state ACrashed) (demo_reg [demo "input" Continuous TCrashed; demo "x" Continuous Pending]).

Lemma finished_agents_rest_witness :
  ∃ r1 r2 a1 a2, run [demo_cycle false false] finishing_reg = Ok r1 ∧ run ([demo_cycle false false] ++ [demo_cycle true true; demo_cycle false false]) finishing_reg = Ok r2 ∧
    agents r1 !! 0%nat = Some a1 ∧ state a1 = ACrashed ∧ agents r2 !! 0%nat = Some a2 ∧ state a2 = ACrashed ∧ tick_counter a2 = tick_counter a1.
Proof.
  destruct (finished_agents_rest [demo_cycle false false] [demo_cycle true true; demo_cycle false false] finishing_reg) as (r1 & r2 & E1 & E2 & _ & H & _);
    [repeat constructor; cbn; lia|].
  assert (Hd : option_map state (agents r1 !! 0%nat) = Some ACrashed) by (vm_compute in E1; injection E1 as <-; reflexivity).
  destruct (agents r1 !! 0%nat) as [a1|] eqn:Ha; [|discriminate]. injection Hd as Hd.
  destruct (H 0%nat a1 Ha (or_intror Hd)) as (a2 & Ha2 & Hs & _ & Ht & _). exists r1, r2, a1, a2. rewrite Hs. auto 10.
Defined.

Lemma ticked_at_most_once_witness :
  ∃ p r' a', cycle (demo_cycle false false) 7 crashed_reg = Ok (p, r') ∧ agents r' !! 1%nat = Some a' ∧ tick_counter a' = 0.
Proof.
  destruct (ticked_at_most_once (demo_cycle false false) 7 crashed_reg 1
              (with_state ACrashed (new_instance (W := unit) (demo "x" Continuous Pending))))
    as (p & r' & a' & E & Hj & _ & Hd).
  - repeat constructor; cbn; lia.
  - reflexivity.
  - cbn. discriminate.
  - exists p, r', a'. split; [exact E|]. split; [exact Hj|]. apply (Hd (λ _, eq_refl)).
Defined.

Lemma interactive_agent_ticked_witness :
  ∃ p r' a', cycle (demo_cycle true true) 7 (run_start crashed_reg) = Ok (p, r') ∧ agents r' !! 0%nat = Some a' ∧
    last_poll a' = 7.
Proof.
  destruct (interactive_agent_ticked (demo_cycle true true) 7 (run_start crashed_reg) 0
              (with_state Active (new_instance (W := unit) (demo "input" Continuous Pending))))
    as (p & r' & a' & E & Hj & _ & Hl); try reflexivity.
  - repeat constructor; cbn; lia.
  - split; (reflexivity || discriminate || (cbn; lia)).
  - split; [|split; apply not_elem_of_nil].
    intros [|[|i]] b Hne Hb; [done|vm_compute in Hb; injection Hb as <-; cbn; discriminate|discriminate Hb].
  - exists p, r', a'. auto.
Defined.

(** A registry after one cycle. *)
Definition after_one (l : list Demo) : AgentRegistry Demo unit :=
  match run [demo_cycle false false] (demo_reg l) with Ok r => r | _ => new_registry tt end.

Definition first_agent (r : AgentRegistry Demo unit) : AgentInstance Demo :=
  default (new_instance (W := unit) (demo "none" Oneshot Pending)) (agents r !! 0%nat).

Lemma poll_every_spacing_witness :
  ∃ p r' a', cycle (demo_cycle false false) 2 (after_one [demo "p" (PollEvery 3) Pending]) = Ok (p, r')
    ∧ agents r' !! 0%nat = Some a' ∧ tick_counter a' = 1.
Proof.
  destruct (poll_every_spacing [demo_cycle false false] (demo_reg [demo "p" (PollEvery 3) Pending])
              (after_one [demo "p" (PollEvery 3) Pending]) (demo_cycle false false) 0
              (first_agent (after_one [demo "p" (PollEvery 3) Pending])) 3) as (p & r' & a' & E & Hj & Hs).
  - repeat constructor; cbn; lia.
  - repeat constructor.
  - vm_compute. reflexivity.
  - vm_compute. reflexivity.
  - vm_compute. reflexivity.
  - vm_compute. discriminate.
  - vm_compute. reflexivity.
  - exists p, r', a'. split; [exact E|]. split; [exact Hj|].
    destruct Hs as [(_ & Ht & _)|[H|H]]; [exact Ht|exfalso; vm_compute in H; discriminate H|].
    exfalso. vm_compute in H. exact (H eq_refl).
Defined.

Lemma offload_partition_witness :
  ∃ p r', cycle (demo_cycle false true) 1 (demo_reg [demo "p" (PollEvery 3) Pending]) = Ok (p, r') ∧
    agents r' !! 0%nat = Some (fade (new_instance (W := unit) (demo "p" (PollEvery 3) Pending))).
Proof.
  destruct (offload_partition (demo_cycle false true) 1 (demo_reg [demo "p" (PollEvery 3) Pending]) 0
              (new_instance (W := unit) (demo "p" (PollEvery 3) Pending))) as [H _].
  - repeat constructor; cbn; lia.
  - reflexivity.
  - reflexivity.
  - cbn. discriminate.
  - apply H. cbn. lia.
Defined.

(** The display crashed and was respawned: two entries, the first one dead. *)
Definition two_displays : AgentRegistry Demo unit :=
  upd 0 (with_state ACrashed) (run_start (demo_reg [demo "display" Continuous Pending; demo "display" Continuous Pending])).

Lemma respawned_display_never_ticked_witness :
  ∃ p r', cycle (demo_cycle true false) 8 two_displays = Ok (p, r') ∧ tick_counter <$> agents r' !! 1%nat = Some 0.
Proof.
  destruct (respawned_display_never_ticked (demo_cycle true false) 8 two_displays 1
              (with_state Active (new_instance (W := unit) (demo "display" Continuous Pending)))) as (p & r' & E & Hj).
  - repeat constructor; cbn; lia.
  - reflexivity.
  - split; [reflexivity|split; [reflexivity|]]. eexists 0%nat, _. split; [lia|]. split; reflexivity.
  - exists p, r'. split; [exact E|]. rewrite Hj. reflexivity.
Defined.

Definition active_reg : AgentRegistry Demo unit := run_start (demo_reg [demo "x" Continuous Pending]).

Lemma pause_policy_witness :
  ∃ a', agents (fold_left gexec [GOverrun "x"; GOverrun "x"; GReset; GOverrun "x"; GOverrun "x"; GCheck 0; GCheck 0] active_reg)
          !! 0%nat = Some a' ∧ lifetime_paused_polls a' = 2.
Proof.
  destruct (pause_policy 0 [GOverrun "x"; GOverrun "x"; GReset; GOverrun "x"; GOverrun "x"; GCheck 0; GCheck 0] active_reg
              (first_agent active_reg)) as (a' & Hj & Hl & _); try reflexivity.
  exists a'. split; [exact Hj|]. rewrite Hl. vm_compute. reflexivity.
Defined.

Lemma pause_lasts_1000_polls_witness :
  (check_budget 0 (checks 1000 0 (fold_left gexec [GOverrun "x"; GOverrun "x"; GOverrun "x"; GOverrun "x"] active_reg))).1 = true.
Proof.
  apply (pause_lasts_1000_polls 0 (fold_left gexec [GOverrun "x"; GOverrun "x"; GOverrun "x"; GOverrun "x"] active_reg)
           (first_agent active_reg) (mkBudget 0 100 4 Paused "x")); try reflexivity.
  vm_compute. split; discriminate.
Defined.

Lemma watchdog_crashes_at_10001_witness :
  let a := with_state Active (new_instance (W := unit) (demo "x" (PollEvery 1) Pending)) in
  state (pending_times None 5 (Z.to_nat 10001) a) = ACrashed.
Proof.
  intros a.
  destruct (watchdog_crashes_at_10001 None 5 a (Z.to_nat 10001)) as (_ & _ & H); [reflexivity|reflexivity|lia|].
  apply H. split; [reflexivity|lia].
Defined.

Lemma init_phase_outcome_witness :
  ∃ a', agents (init_phase (demo_reg [demo "x" Oneshot TDone])) !! 0%nat = Some a' ∧
    (state a' = Done ∨ state a' = ACrashed ∨ state a' = Active).
Proof.
  destruct (init_phase_outcome (demo_reg [demo "x" Oneshot TDone]) 0
              (new_instance (W := unit) (demo "x" Oneshot TDone))) as (a' & Hj & Hb & _); [reflexivity|].
  exists a'. split; [exact Hj|]. destruct (Hb eq_refl eq_refl) as [[H|H]|[H _]]; auto.
Defined.
