(* ===== verification/NfsNode.v ===== *)
(** Nodes of the NeuralFS tree ([crates/k_nano/src/neural_fs/btree.rs]): keys, leaf
    values, the 4096-byte node with its sorted items, reading and writing nodes on a
    block device, and the walks from the root.

    A node is its bytes, as in the code; [node_rep] relates them to the list of
    items they encode, on which the operations are insertions and deletions. *)

From S2P Require Import Prelude Checksum Flash.
From Stdlib Require Import Sorting.Sorted.
Import Crc32c.

(** * Sectors and blocks *)

Section Sectors.
Context {D : Type} `{BlockDevice D}.

(** Eight sectors, each at an address the code may have computed with checked
    arithmetic ([None] when it overflowed): the first failure ends the loop. *)
Fixpoint read_sectors (lbas : list (option Z)) (d : D) : option bytes :=
  match lbas with
  | [] => Some []
  | l :: ls => lba ← l; s ← bd_read d lba 512; r ← read_sectors ls d; Some (s ++ r)
  end.

Fixpoint write_sectors (lbas : list (option Z)) (data : bytes) (d : D) : bool * D :=
  match lbas with
  | [] => (true, d)
  | None :: _ => (false, d)
  | Some lba :: ls =>
      match bd_write d lba (slice 0 512 data) with
      | (true, d') => write_sectors ls (drop 512 data) d'
      | (false, d') => (false, d')
      end
  end.
End Sectors.

(** [start_lba.checked_add(block.checked_mul(8)?.checked_add(i)?)?] and
    [start_lba + block * 8 + i]. *)
Definition lbas_checked (start block : Z) : list (option Z) :=
  (λ i, m ← checked_mul block 8; s ← checked_add m i; checked_add start s) <$> seqZ 0 8.
Definition lbas_from (lba : Z) : list (option Z) := (λ i, Some (u64_add lba i)) <$> seqZ 0 8.
Definition lbas_wrapping (start block : Z) : list (option Z) :=
  lbas_from (u64_add start (u64_mul block 8)).

Module Btree.

(** * Keys *)

Definition LEAF_ITEM_SIZE : Z := 48.
Definition LEAF_HEADER : Z := 24.
Definition MAX_LEAF_ITEMS : Z := 84.

Inductive ItemType := TInode | TDirEntry | TFileExtent | TFreeExtent | TChecksum.

#[global] Instance ItemType_eq_dec : EqDecision ItemType.
Proof. solve_decision. Defined.

Definition item_type_u8 (t : ItemType) : Z :=
  match t with TInode => 1 | TDirEntry => 2 | TFileExtent => 3 | TFreeExtent => 4 | TChecksum => 5 end.

Record Key := mkKey { object_id : Z; item_type : ItemType; offset : Z }.

#[global] Instance Key_eq_dec : EqDecision Key.
Proof. solve_decision. Defined.

Definition key_from_bytes (b : bytes) : Key :=
  mkKey (from_le_bytes (slice 0 8 b))
    (match from_le_bytes (slice 8 1 b) with
     | 1 => TInode | 2 => TDirEntry | 3 => TFileExtent | 4 => TFreeExtent | _ => TChecksum
     end)
    (from_le_bytes (slice 9 8 b)).

Definition key_to_bytes (k : Key) : bytes :=
  to_le_bytes 8 (object_id k) ++ to_le_bytes 1 (item_type_u8 (item_type k)) ++ to_le_bytes 8 (offset k).

Definition key_cmp (a b : Key) : comparison :=
  match object_id a ?= object_id b with
  | Eq => match item_type_u8 (item_type a) ?= item_type_u8 (item_type b) with
          | Eq => offset a ?= offset b
          | o => o
          end
  | o => o
  end.

(** * Leaf values: 31 bytes *)

Definition zero_value : bytes := replicate 31 Byte.x00.

Definition from_inode (mode size data_block block_count : Z) : bytes :=
  put_fields [(0, to_le_bytes 2 mode); (2, to_le_bytes 8 size); (10, to_le_bytes 8 data_block);
              (18, to_le_bytes 4 block_count)] zero_value.

Definition as_inode (v : bytes) : Z * Z * Z * Z :=
  (from_le_bytes (slice 0 2 v), from_le_bytes (slice 2 8 v),
   from_le_bytes (slice 10 8 v), from_le_bytes (slice 18 4 v)).

Definition from_inode_crc (mode size data_block block_count data_crc : Z) : bytes :=
  splice 22 (to_le_bytes 4 data_crc) (from_inode mode size data_block block_count).

Definition inode_crc (v : bytes) : Z := from_le_bytes (slice 22 4 v).

Definition from_dir (child_inode : Z) (name : string) : bytes :=
  let nb := as_bytes name in
  let n := Z.min (zlen nb) 22 in
  put_fields [(0, to_le_bytes 8 child_inode); (8, to_le_bytes 1 n); (9, slice 0 n nb)] zero_value.

Definition as_dir (v : bytes) : Z * string :=
  let n := Z.min (from_le_bytes (slice 8 1 v)) 22 in
  (from_le_bytes (slice 0 8 v), default "" (from_utf8 (slice 9 n v))).

Definition from_extent (start count : Z) : bytes :=
  put_fields [(0, to_le_bytes 8 start); (8, to_le_bytes 8 count)] zero_value.

Definition as_extent (v : bytes) : Z * Z := (from_le_bytes (slice 0 8 v), from_le_bytes (slice 8 8 v)).

Definition from_checksum (crc : Z) : bytes := put_fields [(0, to_le_bytes 4 crc)] zero_value.
Definition as_checksum (v : bytes) : Z := from_le_bytes (slice 0 4 v).

Definition from_child_ptr (child : Z) : bytes := put_fields [(0, to_le_bytes 8 child)] zero_value.
Definition as_child_ptr (v : bytes) : Z := from_le_bytes (slice 0 8 v).

(** * Nodes *)

Record BTreeNode := mkNode { block_addr : Z; data : bytes }.

Definition set_data (b : bytes) (n : BTreeNode) : BTreeNode := mkNode (block_addr n) b.
Definition set_block_addr (a : Z) (n : BTreeNode) : BTreeNode := mkNode a (data n).
Definition patch (o : Z) (d : bytes) (n : BTreeNode) : BTreeNode := set_data (splice o d (data n)) n.

Definition new (addr : Z) : BTreeNode :=
  mkNode addr (splice 8 (to_le_bytes 8 addr) (splice 6 (to_le_bytes 2 0) (splice 4 (to_le_bytes 1 0)
    (replicate 4096 Byte.x00)))).

Definition level (n : BTreeNode) : Z := from_le_bytes (slice 4 1 (data n)).
Definition set_level (l : Z) : BTreeNode → BTreeNode := patch 4 (to_le_bytes 1 l).
Definition item_count (n : BTreeNode) : Z := from_le_bytes (slice 6 2 (data n)).
Definition set_item_count (c : Z) : BTreeNode → BTreeNode := patch 6 (to_le_bytes 2 c).
Definition generation (n : BTreeNode) : Z := from_le_bytes (slice 16 8 (data n)).
Definition set_generation (g : Z) : BTreeNode → BTreeNode := patch 16 (to_le_bytes 8 g).
Definition leftmost_child (n : BTreeNode) : Z := from_le_bytes (slice 4088 8 (data n)).
Definition set_leftmost_child (b : Z) : BTreeNode → BTreeNode := patch 4088 (to_le_bytes 8 b).

Definition compute_checksum (n : BTreeNode) : Z := crc32c (slice 4 4092 (data n)).
Definition write_checksum (n : BTreeNode) : BTreeNode := patch 0 (to_le_bytes 4 (compute_checksum n)) n.

Definition item_off (idx : Z) : option Z := m ← checked_mul idx LEAF_ITEM_SIZE; checked_add LEAF_HEADER m.

Definition get_item (n : BTreeNode) (idx : Z) : option bytes :=
  if item_count n <=? idx then None else
  off ← item_off idx;
  if 4096 <? off + LEAF_ITEM_SIZE then None else Some (slice off LEAF_ITEM_SIZE (data n)).

Definition get_key_value (n : BTreeNode) (idx : Z) : option (Key * bytes) :=
  item ← get_item n idx; Some (key_from_bytes item, slice 17 31 item).

(** [Ok(i)] is [inl i], [Err(i)] is [inr i]. *)
Fixpoint find_loop (n : BTreeNode) (key : Key) (ixs : list Z) : Z + Z :=
  match ixs with
  | [] => inr (item_count n)
  | i :: ixs' =>
      match get_item n i with
      | None => inr i
      | Some item =>
          match key_cmp (key_from_bytes item) key with
          | Eq => inl i
          | Gt => inr i
          | Lt => find_loop n key ixs'
          end
      end
  end.

Definition find_key (n : BTreeNode) (key : Key) : Z + Z := find_loop n key (seqZ 0 (item_count n)).

(** The ranges are inside the node because [count < MAX_LEAF_ITEMS]. *)
Definition insert (key : Key) (value : bytes) (n : BTreeNode) : bool * BTreeNode :=
  let count := item_count n in
  if MAX_LEAF_ITEMS <=? count then (false, n) else
  match find_key n key with
  | inl _ => (false, n)
  | inr pos =>
      let off := LEAF_HEADER + pos * LEAF_ITEM_SIZE in
      let n1 := if pos <? count
                then patch (off + LEAF_ITEM_SIZE) (slice off ((count - pos) * LEAF_ITEM_SIZE) (data n)) n
                else n in
      let n2 := patch (off + 17) value (patch off (key_to_bytes key) n1) in
      (true, set_item_count (count + 1) n2)
  end.

(** [copy_within(src..src+len, dst)] panics outside the node. *)
Definition copy_within (src len dst : Z) (n : BTreeNode) : res BTreeNode :=
  if (4096 <? src + len) || (4096 <? dst + len) then Panic
  else Ok (patch dst (slice src len (data n)) n).

Definition fill_zero (off len : Z) (n : BTreeNode) : res BTreeNode :=
  if 4096 <? off + len then Panic else Ok (patch off (replicate (Z.to_nat len) Byte.x00) n).

Definition delete_at (idx : Z) (n : BTreeNode) : res (bool * BTreeNode) :=
  let count := item_count n in
  if count <=? idx then Ok (false, n) else
  let off i := LEAF_HEADER + i * LEAF_ITEM_SIZE in
  n1 ← (if idx + 1 <? count
        then copy_within (off (idx + 1)) ((count - idx - 1) * LEAF_ITEM_SIZE) (off idx) n else Ok n);
  n2 ← fill_zero (off (count - 1)) LEAF_ITEM_SIZE n1;
  Ok (true, set_item_count (count - 1) n2).

Definition delete_key (key : Key) (n : BTreeNode) : res (bool * BTreeNode) :=
  match find_key n key with inl i => delete_at i n | inr _ => Ok (false, n) end.

Definition update_at (idx : Z) (value : bytes) (n : BTreeNode) : res (bool * BTreeNode) :=
  if item_count n <=? idx then Ok (false, n) else
  let off := LEAF_HEADER + idx * LEAF_ITEM_SIZE in
  if 4096 <? off + 48 then Panic else Ok (true, patch (off + 17) value n).

(** The first key above [key] sends it to the child before that key. *)
Fixpoint child_loop (n : BTreeNode) (key : Key) (ixs : list Z) : option Z :=
  match ixs with
  | [] => None
  | i :: ixs' =>
      match get_key_value n i with
      | Some (k, _) =>
          match key_cmp key k with
          | Lt => Some (if i =? 0 then leftmost_child n
                        else match get_key_value n (i - 1) with Some (_, pv) => as_child_ptr pv | None => 0 end)
          | _ => child_loop n key ixs'
          end
      | None => child_loop n key ixs'
      end
  end.

Definition child_for_key (n : BTreeNode) (key : Key) : Z :=
  if level n =? 0 then block_addr n else
  match child_loop n key (seqZ 0 (item_count n)) with
  | Some c => c
  | None =>
      if item_count n =? 0 then leftmost_child n
      else match get_key_value n (item_count n - 1) with Some (_, v) => as_child_ptr v | None => 0 end
  end.

(** The copying and the deleting loop of the splits. A [None] is the [?] of
    [get_key_value]; the callers then drop both nodes. *)
Fixpoint copy_items (n : BTreeNode) (ixs : list Z) (right : BTreeNode) : option BTreeNode :=
  match ixs with
  | [] => Some right
  | i :: ixs' => '(k, v) ← get_key_value n i; copy_items n ixs' (insert k v right).2
  end.

Fixpoint delete_items (ixs : list Z) (n : BTreeNode) : res BTreeNode :=
  match ixs with
  | [] => Ok n
  | i :: ixs' => '(_, n') ← delete_at i n; delete_items ixs' n'
  end.

Definition split_into (left right : BTreeNode) : res (option (Key * BTreeNode * BTreeNode)) :=
  let count := item_count left in
  if count <? 2 then Ok None else
  let mid := count / 2 in
  match get_key_value left mid with
  | None => Ok None
  | Some (sep, _) =>
      match copy_items left (seqZ mid (count - mid)) (set_level 0 right) with
      | None => Ok None
      | Some right' => left' ← delete_items (reverse (seqZ mid (count - mid))) left; Ok (Some (sep, left', right'))
      end
  end.

Definition split_internal_into (left right : BTreeNode) : res (option (Key * BTreeNode * BTreeNode)) :=
  let count := item_count left in
  if count <? 2 then Ok None else
  let mid := count / 2 in
  match get_key_value left mid with
  | None => Ok None
  | Some (sep_key, sep_val) =>
      let right0 := set_leftmost_child (as_child_ptr sep_val) (set_level (level left) right) in
      match copy_items left (seqZ (mid + 1) (count - (mid + 1))) right0 with
      | None => Ok None
      | Some right' => left' ← delete_items (reverse (seqZ mid (count - mid))) left; Ok (Some (sep_key, left', right'))
      end
  end.

(** Every pointer to [old]; [update_at] is in range because [get_key_value] was. *)
Fixpoint replace_loop (old new_ : Z) (ixs : list Z) (found : bool) (n : BTreeNode) : res (bool * BTreeNode) :=
  match ixs with
  | [] => Ok (found, n)
  | i :: ixs' =>
      match get_key_value n i with
      | Some (_, v) =>
          if as_child_ptr v =? old
          then '(_, n') ← update_at i (from_child_ptr new_) n; replace_loop old new_ ixs' true n'
          else replace_loop old new_ ixs' found n
      | None => replace_loop old new_ ixs' found n
      end
  end.

Definition replace_child_ptr (old new_ : Z) (n : BTreeNode) : res (bool * BTreeNode) :=
  let '(found, n1) := if leftmost_child n =? old then (true, set_leftmost_child new_ n) else (false, n) in
  replace_loop old new_ (seqZ 0 (item_count n1)) found n1.

(** * Nodes on a device *)

Section Device.
Context {D : Type} `{BlockDevice D}.

Definition read (d : D) (start addr : Z) : option BTreeNode :=
  b ← read_sectors (lbas_checked start addr) d;
  if verify_block b then Some (mkNode addr b) else None.

Definition stamp (n : BTreeNode) : BTreeNode := write_checksum (patch 8 (to_le_bytes 8 (block_addr n)) n).

Definition write (start : Z) (n : BTreeNode) (d : D) : bool * BTreeNode * D :=
  let n' := stamp n in
  let '(ok, d') := write_sectors (lbas_wrapping start (block_addr n)) (data n') d in
  (ok, n', d').

(** The walks give up after eight nodes; address 0 is no child. *)
Fixpoint find_leaf_loop (fuel : nat) (d : D) (start addr : Z) (key : Key) : option BTreeNode :=
  match fuel with
  | O => None
  | S fuel' =>
      n ← read d start addr;
      if level n =? 0 then Some n else
      let next := child_for_key n key in
      if next =? 0 then None else find_leaf_loop fuel' d start next key
  end.

Definition btree_find_leaf (d : D) (start root : Z) (key : Key) : option BTreeNode :=
  find_leaf_loop 8 d start root key.

Fixpoint lookup_loop (fuel : nat) (d : D) (start addr : Z) (key : Key) : option bytes :=
  match fuel with
  | O => None
  | S fuel' =>
      n ← read d start addr;
      if level n =? 0 then
        match find_key n key with inl i => snd <$> get_key_value n i | inr _ => None end
      else
        let next := child_for_key n key in
        if next =? 0 then None else lookup_loop fuel' d start next key
  end.

Definition btree_lookup (d : D) (start root : Z) (key : Key) : option bytes := lookup_loop 8 d start root key.

(** The items the callback sees, and whether the walk reached every leaf. *)
Definition node_items (n : BTreeNode) : list (Key * bytes) := omap (get_key_value n) (seqZ 0 (item_count n)).

Fixpoint walk_all (w : Z → bool * list (Key * bytes)) (children : list Z) : bool * list (Key * bytes) :=
  match children with
  | [] => (true, [])
  | c :: cs =>
      if c =? 0 then walk_all w cs else
      match w c with
      | (true, seen) => let '(ok, seen') := walk_all w cs in (ok, seen ++ seen')
      | (false, seen) => (false, seen)
      end
  end.

Fixpoint walk (fuel : nat) (d : D) (start addr : Z) : bool * list (Key * bytes) :=
  match fuel with
  | O => (false, [])
  | S fuel' =>
      match read d start addr with
      | None => (false, [])
      | Some n =>
          if level n =? 0 then (true, node_items n)
          else walk_all (walk fuel' d start) (leftmost_child n :: (as_child_ptr ∘ snd <$> node_items n))
      end
  end.

(** Depths 0 to 8. *)
Definition btree_scan_leaves (d : D) (start root : Z) : bool * list (Key * bytes) := walk 9 d start root.
End Device.

End Btree.
