(* ===== verification/NfsRep.v ===== *)
(** What a NeuralFS node holds: the sorted list of items its 4096 bytes encode, and
    the node operations of [NfsNode.v] as operations on that list. *)

From S2P Require Import Prelude Checksum Flash NfsNode.
From Stdlib Require Import Sorting.Sorted.
Import Btree.

#[local] Arguments item_count : simpl never.
#[local] Arguments level : simpl never.
#[local] Arguments leftmost_child : simpl never.
#[local] Arguments get_item : simpl never.
#[local] Arguments get_key_value : simpl never.
#[local] Arguments patch : simpl never.

(** * The order of keys *)

Definition key_lt (a b : Key) : Prop := key_cmp a b = Lt.

#[global] Instance key_lt_dec : RelDecision key_lt.
Proof. intros a b. unfold key_lt. apply _. Defined.

Lemma item_type_u8_inj t t' : item_type_u8 t = item_type_u8 t' → t = t'.
Proof. by destruct t, t'. Qed.

Lemma key_lt_iff a b :
  key_lt a b ↔ object_id a < object_id b ∨ object_id a = object_id b ∧
    (item_type_u8 (item_type a) < item_type_u8 (item_type b) ∨
     item_type_u8 (item_type a) = item_type_u8 (item_type b) ∧ offset a < offset b).
Proof.
  unfold key_lt, key_cmp. destruct (Z.compare_spec (object_id a) (object_id b)); [|split; intros; [lia|done]|split; [done|lia]].
  destruct (Z.compare_spec (item_type_u8 (item_type a)) (item_type_u8 (item_type b)));
    [|split; intros; [lia|done]|split; [done|lia]].
  rewrite Z.compare_lt_iff. lia.
Qed.

Lemma key_cmp_spec a b : CompareSpec (a = b) (key_lt a b) (key_lt b a) (key_cmp a b).
Proof.
  destruct (key_cmp a b) eqn:E; constructor; [|done|].
  - unfold key_cmp in E. destruct a as [o t f], b as [o' t' f']; cbn in *.
    destruct (Z.compare_spec o o') as [->| |]; [|done..].
    destruct (Z.compare_spec (item_type_u8 t) (item_type_u8 t')) as [->%item_type_u8_inj| |]; [|done..].
    by apply Z.compare_eq_iff in E as ->.
  - apply key_lt_iff. unfold key_cmp in E.
    destruct (Z.compare_spec (object_id a) (object_id b)); [|done|lia].
    destruct (Z.compare_spec (item_type_u8 (item_type a)) (item_type_u8 (item_type b))); [|done|lia].
    apply Z.compare_gt_iff in E. lia.
Qed.

#[global] Instance key_lt_trans : Transitive key_lt.
Proof. intros a b c. rewrite !key_lt_iff. lia. Qed.

#[global] Instance key_lt_irrefl : Irreflexive key_lt.
Proof. intros a. unfold complement. rewrite key_lt_iff. lia. Qed.

#[global] Instance key_countable : Countable Key.
Proof.
  apply (inj_countable' (λ k, (object_id k, item_type_u8 (item_type k), offset k))
    (λ '(o, t, f), mkKey o (match t with 1 => TInode | 2 => TDirEntry | 3 => TFileExtent | 4 => TFreeExtent | _ => TChecksum end) f)).
  by intros [o [] f].
Defined.

(** * Items *)

Definition key_ok (k : Key) : Prop := 0 ≤ object_id k < 2 ^ 64 ∧ 0 ≤ offset k < 2 ^ 64.
Definition item_ok (it : Key * bytes) : Prop := key_ok it.1 ∧ zlen it.2 = 31.

Definition enc_item (it : Key * bytes) : bytes := key_to_bytes it.1 ++ it.2.
Definition enc_items (its : list (Key * bytes)) : bytes := concat (enc_item <$> its).

Lemma zlen_key_to_bytes k : zlen (key_to_bytes k) = 17.
Proof. unfold key_to_bytes. by autorewrite with zlen. Qed.
#[global] Hint Rewrite zlen_key_to_bytes : zlen.

Lemma key_bytes_roundtrip k : key_ok k → ∀ r, key_from_bytes (key_to_bytes k ++ r) = k.
Proof.
  intros [Ho Hf] r. unfold key_from_bytes, key_to_bytes. rewrite <-!app_assoc.
  assert (H0 : zlen (to_le_bytes 8 (object_id k)) = 8) by by autorewrite with zlen.
  assert (H1 : zlen (to_le_bytes 1 (item_type_u8 (item_type k))) = 1) by by autorewrite with zlen.
  assert (H2 : zlen (to_le_bytes 8 (offset k)) = 8) by by autorewrite with zlen.
  rewrite (slice_app_exact _ _ 8) by done. rewrite (slice_app_r 8), (slice_app_r 9) by lia.
  rewrite H0. change (8 - 8) with 0. change (9 - 8) with 1. rewrite (slice_app_exact _ _ 1) by done.
  rewrite (slice_app_r 1) by lia. rewrite H1, (slice_app_exact _ _ 8) by done.
  rewrite !from_to_le_bytes; [|done| |done]; [|by destruct (item_type k)].
  by destruct k as [o [] f].
Qed.

Lemma zlen_enc_item it : item_ok it → zlen (enc_item it) = 48.
Proof. intros [_ Hv]. unfold enc_item. autorewrite with zlen. lia. Qed.

Lemma zlen_enc_items its : Forall item_ok its → zlen (enc_items its) = 48 * zlen its.
Proof.
  unfold enc_items. induction 1 as [|it its Hi _ IH]; [done|].
  cbn [fmap list_fmap concat]. rewrite zlen_app, IH, zlen_enc_item, zlen_cons by done. lia.
Qed.

Lemma enc_items_app l1 l2 : enc_items (l1 ++ l2) = enc_items l1 ++ enc_items l2.
Proof. unfold enc_items. by rewrite fmap_app, concat_app. Qed.

Lemma enc_items_cons it l : enc_items (it :: l) = enc_item it ++ enc_items l.
Proof. done. Qed.

(** * Splices at known places *)

Lemma splice_mid {A} (p x q d : list A) o :
  zlen p = o → zlen x = zlen d → splice o d (p ++ x ++ q) = p ++ d ++ q.
Proof.
  intros <- Hx. unfold splice, zlen in *. rewrite Nat2Z.id, take_app_length.
  rewrite drop_app_ge by lia. replace (length p + length d - length p)%nat with (length x) by lia.
  by rewrite drop_app_length.
Qed.

(** * The representation *)

(** A header whose count is the number of items, the items, and what follows. *)
Record node_rep (its : list (Key * bytes)) (n : BTreeNode) : Prop := mkRep {
  nr_split : ∃ h4 h16 pad, data n = (h4 ++ to_le_bytes 2 (zlen its) ++ h16) ++ enc_items its ++ pad ∧
    zlen h4 = 6 ∧ zlen h16 = 16 ∧ zlen pad = 4072 - 48 * zlen its;
  nr_max : zlen its ≤ MAX_LEAF_ITEMS;
  nr_ok : Forall item_ok its;
}.

(** The parts of a node no item operation touches. *)
Definition same_frame (n n' : BTreeNode) : Prop :=
  block_addr n' = block_addr n ∧ slice 0 6 (data n') = slice 0 6 (data n) ∧
  slice 8 16 (data n') = slice 8 16 (data n) ∧ slice 4056 40 (data n') = slice 4056 40 (data n).

#[global] Instance same_frame_refl : Reflexive same_frame.
Proof. done. Qed.

#[global] Instance same_frame_trans : Transitive same_frame.
Proof. intros a b c (H1&H2&H3&H4) (H5&H6&H7&H8). split_and!; congruence. Qed.

Lemma same_frame_level n n' : same_frame n n' → level n' = level n.
Proof.
  intros (_ & H & _). unfold level. f_equal. change 4 with (0 + 4). rewrite <-!(slice_slice 0 6) by lia. by rewrite H.
Qed.

Lemma same_frame_leftmost n n' : same_frame n n' → leftmost_child n' = leftmost_child n.
Proof.
  intros (_ & _ & _ & H). unfold leftmost_child. f_equal. change 4088 with (4056 + 32).
  rewrite <-!(slice_slice 4056 40) by lia. by rewrite H.
Qed.

Section Rep.
Implicit Types (its : list (Key * bytes)) (n : BTreeNode).

Lemma rep_len its n : node_rep its n → zlen (data n) = 4096.
Proof.
  intros [(h4 & h16 & pad & -> & H1 & H2 & H3) _ Hok]. autorewrite with zlen.
  rewrite zlen_enc_items by done. lia.
Qed.

Lemma rep_count its n : node_rep its n → item_count n = zlen its.
Proof.
  intros [(h4 & h16 & pad & E & H1 & H2 & H3) Hm Hok]. unfold item_count. rewrite E, <-!app_assoc.
  rewrite (slice_mid h4) by (by autorewrite with zlen). apply from_to_le_bytes.
  pose proof (zlen_nonneg its). unfold MAX_LEAF_ITEMS in Hm. lia.
Qed.

(** The same bytes, cut at item [i]. *)
Lemma rep_cut its n i : node_rep its n → (i ≤ length its)%nat →
  ∃ h4 h16 pad, data n = (h4 ++ to_le_bytes 2 (zlen its) ++ h16) ++ enc_items (take i its) ++ enc_items (drop i its) ++ pad ∧
    zlen h4 = 6 ∧ zlen h16 = 16 ∧ zlen pad = 4072 - 48 * zlen its ∧
    zlen (enc_items (take i its)) = 48 * Z.of_nat i ∧
    zlen (enc_items (drop i its)) = 48 * (zlen its - Z.of_nat i).
Proof.
  intros [(h4 & h16 & pad & E & H1 & H2 & H3) Hm Hok] Hi. exists h4, h16, pad.
  rewrite E, app_assoc, (app_assoc (enc_items _) (enc_items _)), <-enc_items_app, take_drop, <-app_assoc.
  rewrite !zlen_enc_items by auto using Forall_take, Forall_drop.
  unfold zlen. rewrite length_take, length_drop. split_and!; try done; lia.
Qed.

Lemma item_off_small i : 0 ≤ i < 2 ^ 32 → item_off i = Some (24 + i * 48).
Proof.
  intros Hi. unfold item_off, checked_mul, checked_add, LEAF_ITEM_SIZE, LEAF_HEADER, U64_MAX.
  rewrite (proj2 (Z.leb_le _ _)) by lia. cbn. by rewrite (proj2 (Z.leb_le _ _)) by lia.
Qed.

Lemma rep_get_item its n (i : nat) it :
  node_rep its n → its !! i = Some it → get_item n (Z.of_nat i) = Some (enc_item it).
Proof.
  intros Hr Hi. pose proof (lookup_lt_Some _ _ _ Hi) as Hlt.
  destruct (rep_cut its n i Hr) as (h4 & h16 & pad & E & H1 & H2 & H3 & H4 & H5); [lia|].
  pose proof (nr_max _ _ Hr) as Hm. pose proof (rep_count _ _ Hr) as Hc. unfold MAX_LEAF_ITEMS in Hm.
  assert (Z.of_nat i < zlen its) by (unfold zlen; lia).
  unfold get_item. rewrite Hc, (proj2 (Z.leb_gt _ _)) by done.
  rewrite item_off_small by lia. cbn [mbind option_bind]. unfold LEAF_ITEM_SIZE.
  rewrite (proj2 (Z.ltb_ge _ _)) by lia. f_equal. rewrite E, (drop_S its it i Hi), enc_items_cons.
  rewrite app_assoc, <-(app_assoc (enc_item it)). apply slice_mid; [autorewrite with zlen; lia|].
  apply zlen_enc_item. by apply (Forall_lookup_1 _ _ _ _ (nr_ok _ _ Hr) Hi).
Qed.

Lemma rep_get_key_value its n (i : nat) : node_rep its n → get_key_value n (Z.of_nat i) = its !! i.
Proof.
  intros Hr. unfold get_key_value. destruct (its !! i) as [[k v]|] eqn:Hi.
  - rewrite (rep_get_item its n i (k, v)) by done. cbn [mbind option_bind]. unfold enc_item; cbn [fst snd].
    destruct (Forall_lookup_1 _ _ _ _ (nr_ok _ _ Hr) Hi) as [Hk Hv]. cbn in *.
    rewrite key_bytes_roundtrip by done. f_equal. f_equal.
    rewrite slice_app_r by (by autorewrite with zlen). autorewrite with zlen. rewrite <-Hv. apply slice_full.
  - unfold get_item. rewrite (rep_count _ _ Hr), (proj2 (Z.leb_le _ _)); [done|].
    apply lookup_ge_None in Hi. unfold zlen. lia.
Qed.

(** ** Searching *)

Fixpoint search (k : Key) its (i : Z) : Z + Z :=
  match its with
  | [] => inr i
  | (k', _) :: its' => match key_cmp k' k with Eq => inl i | Gt => inr i | Lt => search k its' (i + 1) end
  end.

Lemma rep_find_loop its n k l i :
  node_rep its n → (i ≤ length its)%nat → drop i its = l →
  find_loop n k (seqZ (Z.of_nat i) (zlen l)) = search k l (Z.of_nat i).
Proof.
  intros Hr. revert i. induction l as [|[k' v] l IH]; intros i Hi Hd.
  - change (zlen []) with 0. rewrite seqZ_nil by lia. cbn [find_loop search]. rewrite (rep_count _ _ Hr). f_equal. apply (f_equal length) in Hd. rewrite length_drop in Hd.
    cbn in Hd. unfold zlen. lia.
  - assert (Hl : its !! i = Some (k', v)) by (by rewrite <-(Nat.add_0_r i), <-lookup_drop, Hd).
    rewrite zlen_cons, seqZ_cons by (pose proof (zlen_nonneg l); lia). cbn [find_loop search].
    rewrite (rep_get_item its n i (k', v)) by done. unfold enc_item; cbn [fst snd].
    rewrite key_bytes_roundtrip by (apply (Forall_lookup_1 _ _ _ _ (nr_ok _ _ Hr) Hl)).
    destruct (key_cmp k' k); [done| |done].
    replace (Z.pred (1 + zlen l)) with (zlen l) by lia. replace (Z.succ (Z.of_nat i)) with (Z.of_nat (S i)) by lia.
    rewrite (IH (S i)).
    + f_equal. lia.
    + apply lookup_lt_Some in Hl. lia.
    + rewrite (drop_S its (k', v) i Hl) in Hd. by simplify_eq.
Qed.

Lemma rep_find_key its n k : node_rep its n → find_key n k = search k its 0.
Proof.
  intros Hr. unfold find_key. rewrite (rep_count _ _ Hr). by apply (rep_find_loop its n k its 0); [|lia|].
Qed.

(** On sorted items the search splits the list at the key. *)
Definition sorted its : Prop := StronglySorted key_lt its.*1.

Lemma search_spec k its i :
  sorted its →
  match search k its i with
  | inl j => ∃ p v, its !! p = Some (k, v) ∧ j = i + Z.of_nat p
  | inr j => ∃ p, (p ≤ length its)%nat ∧ j = i + Z.of_nat p ∧
      Forall (λ it, key_lt it.1 k) (take p its) ∧ Forall (λ it, key_lt k it.1) (drop p its)
  end.
Proof.
  unfold sorted. revert i. induction its as [|[k' v] its IH]; intros i Hs; cbn [search].
  - exists 0%nat. split_and!; [done|lia|constructor..].
  - cbn in Hs. apply StronglySorted_inv in Hs as [Hs Hf].
    destruct (key_cmp_spec k' k) as [->|Hlt|Hgt].
    + exists 0%nat, v. split; [done|lia].
    + specialize (IH (i + 1) Hs). destruct (search k its (i + 1)) as [j|j].
      * destruct IH as (p & v' & Hp & ->). exists (S p), v'. split; [done|lia].
      * destruct IH as (p & Hp & -> & H1 & H2). exists (S p). split_and!; [cbn; lia|lia| |done].
        by constructor.
    + exists 0%nat. split_and!; [lia|lia|constructor|]. constructor; [done|].
      rewrite Forall_fmap in Hf. eapply Forall_impl; [exact Hf|]. intros it Hit. by transitivity k'.
Qed.

(** ** Building representations *)

Lemma frame_of n n' h4 h16 c c' Q Q' R :
  block_addr n' = block_addr n →
  data n = (h4 ++ to_le_bytes 2 c ++ h16) ++ Q ++ R → data n' = (h4 ++ to_le_bytes 2 c' ++ h16) ++ Q' ++ R →
  zlen h4 = 6 → zlen h16 = 16 → 40 ≤ zlen R → zlen Q = zlen Q' → zlen Q + zlen R = 4072 →
  same_frame n n'.
Proof.
  intros Ha E E' H4 H16 HR HQ HT. unfold same_frame. rewrite E, E'. split; [done|].
  assert (Hc : ∀ c, zlen (to_le_bytes 2 c) = 2) by (intros; by autorewrite with zlen).
  split_and!.
  - rewrite <-!app_assoc. by rewrite !(slice_app_exact h4).
  - rewrite <-!app_assoc, !(app_assoc h4). rewrite !(slice_mid (h4 ++ _)) by (rewrite ?zlen_app, ?Hc; lia). done.
  - rewrite !(app_assoc _ _ R), !(slice_app_r 4056) by (rewrite !zlen_app, Hc; lia).
    do 2 f_equal. rewrite !zlen_app, !Hc. lia.
Qed.

Lemma shift_right {A} (p B pad : list A) o :
  zlen p = o → 48 ≤ zlen pad → splice (o + 48) B (p ++ B ++ pad) = p ++ take 48 (B ++ pad) ++ B ++ drop 48 pad.
Proof.
  intros <- Hp. unfold splice, zlen in *. rewrite take_app_ge by lia. rewrite <-app_assoc.
  replace (Z.to_nat (Z.of_nat (length p) + 48) - length p)%nat with 48%nat by lia. do 3 f_equal.
  rewrite drop_app_ge by lia. rewrite drop_app_ge by lia. f_equal. lia.
Qed.

Lemma shift_left {A} (p e B pad : list A) o :
  zlen p = o → splice o B (p ++ e ++ B ++ pad) = p ++ B ++ drop (length B) (e ++ B) ++ pad.
Proof.
  intros <-. unfold splice, zlen in *. rewrite Nat2Z.id, take_app_length. do 2 f_equal.
  rewrite drop_app_ge by lia. rewrite (app_assoc e), drop_app_le by (rewrite length_app; lia). do 2 f_equal. lia.
Qed.

(** ** Insertion *)

Lemma insert_bytes hd A B X1 X2 pad k v o :
  zlen (hd ++ A) = o → zlen X1 = 17 → zlen X2 = 31 → zlen v = 31 →
  splice (o + 17) v (splice o (key_to_bytes k) ((hd ++ A) ++ (X1 ++ X2) ++ B ++ pad))
  = hd ++ A ++ enc_item (k, v) ++ B ++ pad.
Proof.
  intros Ho H1 H2 Hv. rewrite <-(app_assoc X1), (splice_mid (hd ++ A) X1) by (rewrite ?zlen_key_to_bytes; done).
  rewrite (app_assoc (hd ++ A)), (splice_mid _ X2) by (autorewrite with zlen in *; lia).
  unfold enc_item; cbn [fst snd]. by rewrite <-!app_assoc.
Qed.

Lemma insert_shift n hd A B pad o c :
  data n = (hd ++ A) ++ B ++ pad → zlen (hd ++ A) = o → zlen B = c * 48 → 0 ≤ c → 48 ≤ zlen pad →
  ∃ X1 X2, data (if 0 <? c then patch (o + 48) (slice o (c * 48) (data n)) n else n)
    = (hd ++ A) ++ (X1 ++ X2) ++ B ++ drop 48 pad ∧ zlen X1 = 17 ∧ zlen X2 = 31.
Proof.
  intros E Ho HB Hc Hpad. exists (take 17 (take 48 (B ++ pad))), (drop 17 (take 48 (B ++ pad))).
  rewrite take_drop. split.
  - destruct (Z.ltb_spec 0 c).
    + unfold patch, set_data; cbn [data]. rewrite E. rewrite (slice_mid (hd ++ A) B) by done.
      rewrite (shift_right (hd ++ A) B pad) by done. by rewrite <-!app_assoc.
    + assert (B = []) as -> by (apply zlen_le_0; lia). rewrite E. cbn [app]. by rewrite take_drop.
  - unfold zlen in *. rewrite !length_take, !length_drop, !length_take, !length_app. lia.
Qed.

Lemma rep_insert its n k v p :
  node_rep its n → item_ok (k, v) → search k its 0 = inr (Z.of_nat p) → (p ≤ length its)%nat →
  zlen its < MAX_LEAF_ITEMS →
  ∃ n', insert k v n = (true, n') ∧ node_rep (take p its ++ (k, v) :: drop p its) n' ∧ same_frame n n'.
Proof.
  intros Hr [Hk Hv] Hs Hp Hm. destruct (rep_cut its n p Hr Hp) as (h4 & h16 & pad & E & H4 & H16 & Hpad & HA & HB).
  set (A := enc_items (take p its)) in *. set (B := enc_items (drop p its)) in *.
  set (hd := h4 ++ to_le_bytes 2 (zlen its) ++ h16) in *. cbn in Hv. unfold MAX_LEAF_ITEMS in Hm.
  assert (Hhd : zlen hd = 24) by (unfold hd; autorewrite with zlen; lia).
  unfold insert. rewrite (rep_count _ _ Hr), (rep_find_key its) by done. rewrite (proj2 (Z.leb_gt _ _)) by done.
  rewrite Hs. unfold LEAF_HEADER, LEAF_ITEM_SIZE. set (o := 24 + Z.of_nat p * 48).
  rewrite (app_assoc hd) in E.
  destruct (insert_shift n hd A B pad o (zlen its - Z.of_nat p) E) as (X1 & X2 & E1 & HX1 & HX2);
    [rewrite zlen_app; lia|lia|unfold zlen; lia|lia|].
  set (n1 := if _ <? zlen its then _ else n). assert (En1 : data n1 = (hd ++ A) ++ (X1 ++ X2) ++ B ++ drop 48 pad).
  { rewrite <-E1. unfold n1. destruct (Z.ltb_spec (Z.of_nat p) (zlen its)), (Z.ltb_spec 0 (zlen its - Z.of_nat p)); done || lia. }
  assert (Hb1 : block_addr n1 = block_addr n) by (unfold n1; by destruct (Z.of_nat p <? zlen its)).
  eexists. split; [reflexivity|]. set (its' := take p its ++ (k, v) :: drop p its).
  assert (Hlen : zlen its' = zlen its + 1).
  { unfold its', zlen. rewrite length_app. cbn. rewrite length_take, length_drop. lia. }
  assert (Hd : data (set_item_count (zlen its + 1) (patch (o + 17) v (patch o (key_to_bytes k) n1)))
    = (h4 ++ to_le_bytes 2 (zlen its + 1) ++ h16) ++ enc_items its' ++ drop 48 pad).
  { unfold set_item_count, patch, set_data; cbn [data]. rewrite En1, insert_bytes by (rewrite ?zlen_app; lia).
    unfold hd. rewrite <-!app_assoc, (splice_mid h4) by (by autorewrite with zlen).
    unfold its', A, B. by rewrite enc_items_app, enc_items_cons, <-!app_assoc. }
  pose proof (zlen_nonneg its).
  assert (Hdp : zlen (drop 48 pad) = 4072 - 48 * zlen its') by (unfold zlen in *; rewrite length_drop; lia).
  assert (Hok : Forall item_ok its').
  { apply Forall_app. split; [by apply Forall_take, (nr_ok _ n)|]. constructor; [by split|by apply Forall_drop, (nr_ok _ n)]. }
  split.
  - split; [|unfold MAX_LEAF_ITEMS; lia|done]. exists h4, h16, (drop 48 pad). rewrite Hlen at 1. split_and!; done.
  - eapply (frame_of _ _ h4 h16 _ _ (A ++ B ++ take 48 pad) _ (drop 48 pad)); [exact Hb1| |exact Hd|done..| | |].
    + rewrite E. unfold hd. rewrite <-!app_assoc. by rewrite (take_drop 48 pad).
    + lia.
    + rewrite zlen_enc_items, !zlen_app by done. unfold zlen in *. rewrite length_take. lia.
    + rewrite !zlen_app. unfold zlen in *. rewrite length_take. lia.
Qed.

Lemma rep_insert_full its n k v : node_rep its n → zlen its = MAX_LEAF_ITEMS → insert k v n = (false, n).
Proof. intros Hr Hm. unfold insert. rewrite (rep_count _ _ Hr), Hm. by rewrite (proj2 (Z.leb_le _ _)). Qed.

Lemma rep_insert_dup its n k v i : node_rep its n → search k its 0 = inl i → insert k v n = (false, n).
Proof.
  intros Hr Hs. unfold insert. rewrite (rep_find_key its), Hs by done. by destruct (_ <=? item_count n).
Qed.

(** ** Deletion and update *)

Lemma rep_delete_at its n (i : nat) :
  node_rep its n → (i < length its)%nat →
  ∃ n', delete_at (Z.of_nat i) n = Ok (true, n') ∧ node_rep (delete i its) n' ∧ same_frame n n'.
Proof.
  intros Hr Hi. destruct (lookup_lt_is_Some_2 its i Hi) as [it Hit].
  destruct (rep_cut its n i Hr) as (h4 & h16 & pad & E & H4 & H16 & Hpad & HA & HB); [lia|].
  rewrite (drop_S its it i Hit), enc_items_cons in E, HB.
  assert (He : zlen (enc_item it) = 48) by (apply zlen_enc_item, (Forall_lookup_1 _ _ _ _ (nr_ok _ _ Hr) Hit)).
  set (A := enc_items (take i its)) in *. set (B := enc_items (drop (S i) its)) in *.
  set (hd := h4 ++ to_le_bytes 2 (zlen its) ++ h16) in *.
  assert (Hhd : zlen hd = 24) by (unfold hd; autorewrite with zlen; lia).
  pose proof (nr_max _ _ Hr) as Hm. unfold MAX_LEAF_ITEMS in Hm. rewrite zlen_app in HB.
  assert (Hlt : Z.of_nat i < zlen its) by (unfold zlen; lia).
  set (Y := drop (length B) (enc_item it ++ B)).
  assert (HY : zlen Y = 48) by (unfold Y, zlen in *; rewrite length_drop, length_app; lia).
  rewrite <-app_assoc in E. assert (E1 : ∃ n1, (if Z.of_nat i + 1 <? zlen its then copy_within (24 + (Z.of_nat i + 1) * 48)
      ((zlen its - Z.of_nat i - 1) * 48) (24 + Z.of_nat i * 48) n else Ok n) = Ok n1 ∧
      data n1 = ((hd ++ A) ++ B) ++ Y ++ pad ∧ block_addr n1 = block_addr n).
  { destruct (Z.ltb_spec (Z.of_nat i + 1) (zlen its)).
    - unfold copy_within. rewrite !(proj2 (Z.ltb_ge _ _)) by lia. cbn [orb]. eexists; split; [done|]. split; [|done].
      unfold patch, set_data; cbn [data]. rewrite E, !app_assoc, <-(app_assoc _ B), (slice_mid _ B) by (rewrite ?zlen_app; lia).
      rewrite <-!app_assoc, (app_assoc hd), (shift_left (hd ++ A)) by (rewrite zlen_app; lia). by rewrite <-!app_assoc.
    - exists n. assert (HB0 : B = []) by (apply zlen_le_0; lia). unfold Y. rewrite E, HB0.
      split_and!; [done| |done]. cbn. by rewrite !app_nil_r, <-!app_assoc. }
  destruct E1 as (n1 & Ec & En1 & Hb1). unfold delete_at. rewrite (rep_count _ _ Hr), (proj2 (Z.leb_gt _ _)) by done.
  unfold LEAF_HEADER, LEAF_ITEM_SIZE. rewrite Ec. cbn [mbind res_bind].
  unfold fill_zero. rewrite (proj2 (Z.ltb_ge _ _)) by lia. cbn [mbind res_bind]. eexists. split; [reflexivity|].
  assert (Hlen : zlen (delete i its) = zlen its - 1) by (unfold zlen; rewrite length_delete by done; lia).
  assert (Hd : data (set_item_count (zlen its - 1) (patch (24 + (zlen its - 1) * 48) (replicate (Z.to_nat 48) Byte.x00) n1))
    = (h4 ++ to_le_bytes 2 (zlen its - 1) ++ h16) ++ enc_items (delete i its) ++ replicate (Z.to_nat 48) Byte.x00 ++ pad).
  { unfold set_item_count, patch, set_data; cbn [data]. rewrite En1.
    rewrite (splice_mid _ Y) by (rewrite ?HY, ?zlen_app; done || lia). unfold hd.
    rewrite <-!app_assoc, (splice_mid h4) by (by autorewrite with zlen). unfold A, B.
    rewrite delete_take_drop, enc_items_app. by rewrite <-!app_assoc. }
  assert (Hz : zlen (replicate (Z.to_nat 48) Byte.x00) = 48) by done. split.
  - split; [|unfold MAX_LEAF_ITEMS; lia|].
    + exists h4, h16, (replicate (Z.to_nat 48) Byte.x00 ++ pad). rewrite Hlen at 1. rewrite zlen_app.
      split_and!; [done..|lia].
    + rewrite delete_take_drop. apply Forall_app; split; [apply Forall_take|apply Forall_drop]; apply (nr_ok _ n Hr).
  - eapply (frame_of _ _ h4 h16 _ _ (A ++ enc_item it ++ B) (enc_items (delete i its) ++ replicate (Z.to_nat 48) Byte.x00) pad);
      [exact Hb1| | |done..| | |].
    + rewrite E. unfold hd. by rewrite <-!app_assoc.
    + rewrite Hd. by rewrite <-!app_assoc.
    + lia.
    + rewrite !zlen_app, Hz, zlen_enc_items; [lia|].
      rewrite delete_take_drop. apply Forall_app; split; [apply Forall_take|apply Forall_drop]; apply (nr_ok _ n Hr).
    + rewrite !zlen_app. lia.
Qed.

Lemma rep_update_at its n (i : nat) k v v' :
  node_rep its n → its !! i = Some (k, v) → zlen v' = 31 →
  ∃ n', update_at (Z.of_nat i) v' n = Ok (true, n') ∧ node_rep (<[i := (k, v')]> its) n' ∧ same_frame n n'.
Proof.
  intros Hr Hit Hv'. pose proof (lookup_lt_Some _ _ _ Hit) as Hi.
  destruct (rep_cut its n i Hr) as (h4 & h16 & pad & E & H4 & H16 & Hpad & HA & HB); [lia|].
  rewrite (drop_S its _ i Hit), enc_items_cons in E, HB. destruct (Forall_lookup_1 _ _ _ _ (nr_ok _ _ Hr) Hit) as [Hk Hv].
  cbn in Hk, Hv. pose proof (nr_max _ _ Hr) as Hm. unfold MAX_LEAF_ITEMS in Hm.
  assert (Hlt : Z.of_nat i < zlen its) by (unfold zlen; lia).
  unfold update_at. rewrite (rep_count _ _ Hr), (proj2 (Z.leb_gt _ _)) by done. unfold LEAF_HEADER, LEAF_ITEM_SIZE.
  rewrite (proj2 (Z.ltb_ge _ _)) by lia. eexists. split; [reflexivity|].
  set (A := enc_items (take i its)) in *. set (B := enc_items (drop (S i) its)) in *.
  set (hd := h4 ++ to_le_bytes 2 (zlen its) ++ h16) in *.
  assert (Hhd : zlen hd = 24) by (unfold hd; autorewrite with zlen; lia).
  assert (Hd : data (patch (24 + Z.of_nat i * 48 + 17) v' n) = hd ++ (A ++ enc_item (k, v') ++ B) ++ pad).
  { unfold patch, set_data; cbn [data]. rewrite E. unfold enc_item; cbn [fst snd].
    rewrite <-!app_assoc, (app_assoc A), (app_assoc hd). rewrite (splice_mid _ v) by (rewrite ?zlen_app, ?zlen_key_to_bytes; lia).
    by rewrite <-!app_assoc. }
  assert (Hok : Forall item_ok (<[i:=(k, v')]> its)) by (apply Forall_insert; [apply (nr_ok _ n Hr)|by split]).
  split.
  - split; [|unfold zlen in *; rewrite length_insert; unfold MAX_LEAF_ITEMS; lia|done].
    assert (Hlen : zlen (<[i:=(k, v')]> its) = zlen its) by (unfold zlen; by rewrite length_insert).
    exists h4, h16, pad. rewrite Hlen. split_and!; [|done..]. rewrite Hd. unfold hd. f_equal.
    rewrite insert_take_drop, enc_items_app, enc_items_cons by done. done.
  - eapply (frame_of _ _ h4 h16 _ _ (A ++ enc_item (k, v) ++ B) _ pad); [done| |exact Hd|done..| | |].
    + rewrite E. unfold hd. by rewrite <-!app_assoc.
    + lia.
    + rewrite !zlen_app, !zlen_enc_item by done. done.
    + rewrite !zlen_app in *. lia.
Qed.

(** ** Header fields and the trailing pointer *)

Lemma rep_patch_head its n o d : node_rep its n → 0 ≤ o → o + zlen d ≤ 6 → node_rep its (patch o d n).
Proof.
  intros [(h4 & h16 & pad & E & H4 & H16 & Hpad) Hm Hok] Ho Hd. split; [|done..].
  exists (splice o d h4), h16, pad. rewrite zlen_splice by lia. split_and!; [|done..].
  unfold patch, set_data; cbn [data]. rewrite E, <-!app_assoc. apply splice_app_l; lia.
Qed.

Lemma rep_patch_mid its n o d : node_rep its n → 8 ≤ o → o + zlen d ≤ 24 → node_rep its (patch o d n).
Proof.
  intros [(h4 & h16 & pad & E & H4 & H16 & Hpad) Hm Hok] Ho Hd. split; [|done..].
  assert (Hc : zlen (to_le_bytes 2 (zlen its)) = 2) by by autorewrite with zlen.
  exists h4, (splice (o - 8) d h16), pad. rewrite zlen_splice by lia. split_and!; [|done..].
  unfold patch, set_data; cbn [data]. rewrite E, <-!app_assoc.
  rewrite (splice_app_r o d h4), (splice_app_r _ d (to_le_bytes 2 _)) by lia. rewrite H4, Hc, splice_app_l by lia.
  do 2 f_equal. f_equal. f_equal. lia.
Qed.

Lemma rep_patch_tail its n o d : node_rep its n → 4056 ≤ o → o + zlen d ≤ 4096 → node_rep its (patch o d n).
Proof.
  intros [(h4 & h16 & pad & E & H4 & H16 & Hpad) Hm Hok] Ho Hd. split; [|done..].
  set (hd := h4 ++ to_le_bytes 2 (zlen its) ++ h16) in *.
  assert (Hhd : zlen hd = 24) by (unfold hd; autorewrite with zlen; lia). unfold MAX_LEAF_ITEMS in *.
  pose proof (zlen_enc_items its Hok) as Hen. exists h4, h16, (splice (o - 24 - 48 * zlen its) d pad).
  rewrite zlen_splice by lia. split_and!; [|done..]. unfold patch, set_data; cbn [data]. rewrite E.
  fold hd. rewrite (splice_app_r o d hd), (splice_app_r _ d (enc_items its)) by lia. by rewrite Hhd, Hen.
Qed.

Lemma rep_set_level its n l : node_rep its n → node_rep its (set_level l n).
Proof. intros. apply rep_patch_head; autorewrite with zlen; done || lia. Qed.

Lemma rep_set_generation its n g : node_rep its n → node_rep its (set_generation g n).
Proof. intros. apply rep_patch_mid; autorewrite with zlen; done || lia. Qed.

Lemma rep_set_leftmost its n c : node_rep its n → node_rep its (set_leftmost_child c n).
Proof. intros. apply rep_patch_tail; autorewrite with zlen; done || lia. Qed.

Lemma rep_set_block_addr its n a : node_rep its n → node_rep its (set_block_addr a n).
Proof. by intros [? ? ?]. Qed.

Lemma rep_new a : node_rep [] (new a).
Proof.
  split; [|done|done]. exists (replicate 6 Byte.x00), (to_le_bytes 8 a ++ replicate 8 Byte.x00), (replicate 4072 Byte.x00).
  split_and!; [|done|by autorewrite with zlen|done]. unfold new; cbn [data].
  assert (H1 : splice 4 (to_le_bytes 1 0) (replicate 4096 Byte.x00) = replicate 4096 Byte.x00) by by vm_compute.
  assert (H2 : splice 6 (to_le_bytes 2 0) (replicate 4096 Byte.x00)
    = (replicate 6 Byte.x00 ++ to_le_bytes 2 0) ++ replicate 8 Byte.x00 ++ replicate 4080 Byte.x00) by by vm_compute.
  rewrite H1, H2, splice_mid by (by autorewrite with zlen). change (zlen []) with 0. rewrite <-!app_assoc. do 3 f_equal.
Qed.

Lemma level_new a : level (new a) = 0.
Proof.
  destruct (rep_new a) as [(h4 & h16 & pad & E & _) _ _]. unfold level, new; cbn [data].
  rewrite slice_splice_before; [|lia|lia|lia|rewrite !zlen_splice; by autorewrite with zlen].
  rewrite slice_splice_before; [|lia|lia|lia|by vm_compute]. by vm_compute.
Qed.

Lemma level_set_level its n l : node_rep its n → 0 ≤ l < 256 → level (set_level l n) = l.
Proof.
  intros Hr Hl. pose proof (rep_len _ _ Hr) as Hn. unfold level, set_level, patch, set_data; cbn [data].
  assert (Hz : zlen (to_le_bytes 1 l) = 1) by by autorewrite with zlen.
  rewrite <-Hz at 1. rewrite slice_splice_same by lia. by apply from_to_le_bytes.
Qed.

Lemma leftmost_set its n c : node_rep its n → 0 ≤ c < 2 ^ 64 → leftmost_child (set_leftmost_child c n) = c.
Proof.
  intros Hr Hl. pose proof (rep_len _ _ Hr) as Hn. unfold leftmost_child, set_leftmost_child, patch, set_data; cbn [data].
  assert (Hz : zlen (to_le_bytes 8 c) = 8) by by autorewrite with zlen.
  rewrite <-Hz at 1. rewrite slice_splice_same by lia. by apply from_to_le_bytes.
Qed.

(** Patches away from the level byte and from the trailing pointer. *)
Lemma level_patch its n o d : node_rep its n → 5 ≤ o ≤ 4096 → level (patch o d n) = level n.
Proof.
  intros Hr%rep_len Ho. unfold level, patch, set_data; cbn [data]. f_equal. apply slice_splice_before; lia.
Qed.

Lemma leftmost_patch its n o d : node_rep its n → 0 ≤ o → o + zlen d ≤ 4088 → leftmost_child (patch o d n) = leftmost_child n.
Proof.
  intros Hr%rep_len Ho Hd. unfold leftmost_child, patch, set_data; cbn [data]. f_equal. apply slice_splice_after; lia.
Qed.

(** ** Items as a map *)

Definition items_map its : gmap Key bytes := list_to_map its.

Lemma StronglySorted_take {A} (R : A → A → Prop) (l : list A) i : StronglySorted R l → StronglySorted R (take i l).
Proof. intros H. rewrite <-(take_drop i l) in H. by apply StronglySorted_app in H as (_ & H & _). Qed.

Lemma StronglySorted_drop {A} (R : A → A → Prop) (l : list A) i : StronglySorted R l → StronglySorted R (drop i l).
Proof. intros H. rewrite <-(take_drop i l) in H. by apply StronglySorted_app in H as (_ & _ & H). Qed.

Lemma sorted_app its1 its2 :
  sorted (its1 ++ its2) ↔ sorted its1 ∧ sorted its2 ∧ ∀ a b, a ∈ its1 → b ∈ its2 → key_lt a.1 b.1.
Proof.
  unfold sorted. rewrite fmap_app, StronglySorted_app. split.
  - intros (H1 & H2 & H3). split_and!; [done..|]. intros a b Ha Hb. apply H1; by apply list_elem_of_fmap_2.
  - intros (H1 & H2 & H3). split_and!; [|done..]. intros a b (a' & -> & Ha)%list_elem_of_fmap (b' & -> & Hb)%list_elem_of_fmap. auto.
Qed.

Lemma sorted_NoDup its : sorted its → NoDup its.*1.
Proof.
  unfold sorted. induction 1 as [|k l _ IH Hf]; constructor; [|done]. intros Hk.
  by apply (irreflexivity key_lt k), (proj1 (Forall_forall _ _) Hf).
Qed.

Lemma sorted_take its i : sorted its → sorted (take i its).
Proof. unfold sorted. rewrite fmap_take. apply StronglySorted_take. Qed.

Lemma sorted_drop its i : sorted its → sorted (drop i its).
Proof. unfold sorted. rewrite fmap_drop. apply StronglySorted_drop. Qed.

Lemma sorted_delete its i : sorted its → sorted (delete i its).
Proof.
  intros Hs. rewrite delete_take_drop. apply sorted_app. split_and!; [by apply sorted_take|by apply sorted_drop|].
  rewrite <-(take_drop i its) in Hs. apply sorted_app in Hs as (_ & _ & H). intros a b Ha Hb. apply H; [done|].
  apply list_elem_of_lookup in Hb as [j Hb]. rewrite lookup_drop in Hb. apply list_elem_of_lookup. exists (S j).
  rewrite lookup_drop. by replace (i + S j)%nat with (S i + j)%nat by lia.
Qed.

Lemma sorted_insert its p k v :
  sorted its → Forall (λ it, key_lt it.1 k) (take p its) → Forall (λ it, key_lt k it.1) (drop p its) →
  sorted (take p its ++ (k, v) :: drop p its).
Proof.
  intros Hs H1 H2. rewrite Forall_forall in H1. apply sorted_app. split_and!.
  - by apply sorted_take.
  - unfold sorted. cbn. constructor; [by apply (sorted_drop its p)|]. by rewrite Forall_fmap.
  - rewrite Forall_forall in H2. intros a b Ha Hb. apply elem_of_cons in Hb as [->|Hb]; [by apply H1|].
    transitivity k; [by apply H1|by apply H2].
Qed.

Lemma items_map_lookup its k v : sorted its → items_map its !! k = Some v ↔ (k, v) ∈ its.
Proof. intros Hs%sorted_NoDup. unfold items_map. by rewrite elem_of_list_to_map. Qed.

Lemma items_map_insert its p k v :
  Forall (λ it, key_lt it.1 k) (take p its) → items_map (take p its ++ (k, v) :: drop p its) = <[k := v]> (items_map its).
Proof.
  intros H1. unfold items_map. rewrite list_to_map_app, list_to_map_cons. rewrite <-(take_drop p its) at 3.
  rewrite list_to_map_app. rewrite <-insert_union_r; [done|]. apply not_elem_of_list_to_map. intros Hk.
  rewrite Forall_forall in H1. apply list_elem_of_fmap in Hk as ([k' v'] & -> & Hin). apply H1 in Hin. by apply (irreflexivity key_lt k').
Qed.

Lemma items_map_delete its i k v : sorted its → its !! i = Some (k, v) → items_map (delete i its) = delete k (items_map its).
Proof.
  intros Hs Hi. pose proof (sorted_NoDup _ Hs) as Hn. unfold items_map.
  assert (Hp : its ≡ₚ (k, v) :: delete i its) by by apply delete_Permutation.
  assert (Hk : k ∉ (delete i its).*1).
  { rewrite Hp in Hn. cbn in Hn. by apply NoDup_cons in Hn as [Hn _]. }
  rewrite (list_to_map_proper its _ Hn Hp), list_to_map_cons, delete_insert_id; [done|]. by apply not_elem_of_list_to_map.
Qed.

Lemma search_map k its : sorted its →
  match search k its 0 with
  | inl _ => is_Some (items_map its !! k)
  | inr _ => items_map its !! k = None
  end.
Proof.
  intros Hs. pose proof (search_spec k its 0 Hs) as H. destruct (search k its 0).
  - destruct H as (p & v & Hp & _). exists v. apply items_map_lookup; [done|]. by eapply list_elem_of_lookup_2.
  - destruct H as (p & _ & _ & H1 & H2). unfold items_map. apply not_elem_of_list_to_map.
    intros (it & -> & Hin)%list_elem_of_fmap. rewrite <-(take_drop p its) in Hin. rewrite Forall_forall in H1, H2.
    apply elem_of_app in Hin as [Hin|Hin]; [apply H1 in Hin|apply H2 in Hin]; by apply (irreflexivity key_lt it.1).
Qed.

Lemma size_items_map its : sorted its → Z.of_nat (size (items_map its)) = zlen its.
Proof.
  intros Hs%sorted_NoDup. unfold items_map, zlen. f_equal. rewrite <-length_map_to_list.
  by rewrite (map_to_list_to_map its Hs).
Qed.

(** ** Operations on sorted nodes *)

Definition srep its n : Prop := node_rep its n ∧ sorted its.

Lemma srep_insert its n k v :
  srep its n → item_ok (k, v) → items_map its !! k = None → zlen its < MAX_LEAF_ITEMS →
  ∃ p n', insert k v n = (true, n') ∧ srep (take p its ++ (k, v) :: drop p its) n' ∧ same_frame n n' ∧ (p ≤ length its)%nat ∧
    Forall (λ it, key_lt it.1 k) (take p its) ∧ Forall (λ it, key_lt k it.1) (drop p its).
Proof.
  intros [Hr Hs] Hok Hk Hm. pose proof (search_map k its Hs) as Hsm. pose proof (search_spec k its 0 Hs) as Hsp.
  destruct (search k its 0) as [j|j] eqn:E; [rewrite Hk in Hsm; by destruct Hsm|].
  destruct Hsp as (p & Hp & -> & H1 & H2). exists p.
  destruct (rep_insert its n k v p) as (n' & Hn & Hr' & Hf); try done.
  exists n'. split_and!; try done. split; [done|]. by apply sorted_insert.
Qed.

Lemma srep_insert_exists its n k v : srep its n → is_Some (items_map its !! k) → insert k v n = (false, n).
Proof.
  intros [Hr Hs] [v' Hk]. pose proof (search_map k its Hs) as Hsm. destruct (search k its 0) eqn:E.
  - by eapply rep_insert_dup.
  - congruence.
Qed.

Lemma srep_delete_key its n k :
  srep its n →
  match items_map its !! k with
  | None => delete_key k n = Ok (false, n)
  | Some _ => ∃ i v n', delete_key k n = Ok (true, n') ∧ its !! i = Some (k, v) ∧ srep (delete i its) n' ∧ same_frame n n'
  end.
Proof.
  intros [Hr Hs]. pose proof (search_map k its Hs) as Hsm. pose proof (search_spec k its 0 Hs) as Hsp.
  unfold delete_key. rewrite (rep_find_key its) by done. destruct (search k its 0) as [j|j].
  - destruct Hsm as [v' ->]. destruct Hsp as (p & v & Hp & ->). rewrite Z.add_0_l.
    destruct (rep_delete_at its n p) as (n' & Hn & Hr' & Hf); [done|by eapply lookup_lt_Some|].
    exists p, v, n'. split_and!; try done. split; [done|by apply sorted_delete].
  - by rewrite Hsm.
Qed.

(** What [find_key] followed by [get_key_value] gives. *)
Definition node_lookup n (k : Key) : option bytes :=
  match find_key n k with inl i => snd <$> get_key_value n i | inr _ => None end.

Lemma srep_lookup its n k : srep its n → node_lookup n k = items_map its !! k.
Proof.
  intros [Hr Hs]. unfold node_lookup. pose proof (search_map k its Hs) as Hsm. pose proof (search_spec k its 0 Hs) as Hsp.
  rewrite (rep_find_key its) by done. destruct (search k its 0) as [j|j]; [|by rewrite Hsm].
  destruct Hsp as (p & v & Hp & ->). rewrite Z.add_0_l, (rep_get_key_value its), Hp by done. cbn. symmetry.
  apply items_map_lookup; [done|]. by eapply list_elem_of_lookup_2.
Qed.

(** ** Splitting *)

Lemma insert_last R n k v :
  srep R n → item_ok (k, v) → Forall (λ it, key_lt it.1 k) R → zlen R < MAX_LEAF_ITEMS →
  ∃ n', insert k v n = (true, n') ∧ srep (R ++ [(k, v)]) n' ∧ same_frame n n'.
Proof.
  intros Hr Hok Hlt Hm. destruct (srep_insert R n k v) as (p & n' & Hn & Hr' & Hf & Hp & H1 & H2); try done.
  - unfold items_map. apply not_elem_of_list_to_map. intros (it & -> & Hin)%list_elem_of_fmap.
    rewrite Forall_forall in Hlt. by apply (irreflexivity key_lt it.1), Hlt.
  - exists n'. split_and!; try done. assert (Hd : drop p R = []).
    { destruct (drop p R) as [|it l] eqn:Hd; [done|]. exfalso. apply Forall_inv in H2. rewrite Forall_forall in Hlt.
      apply (irreflexivity key_lt k). transitivity it.1; [done|]. apply Hlt. rewrite <-(take_drop p R), Hd. set_solver. }
    rewrite Hd in Hr'. rewrite (take_ge R p) in Hr'; [done|]. apply (f_equal length) in Hd. rewrite length_drop in Hd. cbn in Hd. lia.
Qed.

Lemma srep_copy_items its n l i R right :
  srep its n → drop i its = l → srep R right → sorted (R ++ l) → zlen (R ++ l) ≤ MAX_LEAF_ITEMS →
  ∃ right', copy_items n (seqZ (Z.of_nat i) (zlen l)) right = Some right' ∧ srep (R ++ l) right' ∧ same_frame right right'.
Proof.
  intros Hn. revert i R right. induction l as [|[k v] l IH]; intros i R right Hd HR Hs Hm.
  - exists right. rewrite app_nil_r. change (zlen []) with 0. rewrite seqZ_nil by lia. done.
  - assert (Hl : its !! i = Some (k, v)) by (by rewrite <-(Nat.add_0_r i), <-lookup_drop, Hd).
    rewrite zlen_cons, seqZ_cons by (pose proof (zlen_nonneg l); lia). cbn [copy_items].
    rewrite (rep_get_key_value its) by apply Hn. rewrite Hl. cbn [mbind option_bind].
    assert (Hok : item_ok (k, v)) by (apply (Forall_lookup_1 _ _ _ _ (nr_ok _ _ (proj1 Hn)) Hl)).
    apply sorted_app in Hs as Hs'. destruct Hs' as (_ & _ & HRl).
    destruct (insert_last R right k v) as (r' & Hr' & HR' & Hf'); try done.
    { apply Forall_forall. intros it Hit. apply (HRl it (k, v)); [done|]. by left. }
    { rewrite zlen_app, zlen_cons in Hm. pose proof (zlen_nonneg l). lia. }
    rewrite Hr'; cbn [snd]. replace (Z.pred (1 + zlen l)) with (zlen l) by lia.
    replace (Z.succ (Z.of_nat i)) with (Z.of_nat (S i)) by lia. rewrite cons_middle, app_assoc in Hs, Hm.
    destruct (IH (S i) (R ++ [(k, v)]) r') as (r'' & Hc & HR'' & Hf''); try done.
    { rewrite (drop_S its (k, v) i Hl) in Hd. by simplify_eq. }
    exists r''. rewrite cons_middle, app_assoc. split_and!; [done..|by transitivity r'].
Qed.

Lemma srep_delete_items its n i c :
  srep its n → length its = (i + c)%nat →
  ∃ n', delete_items (reverse (seqZ (Z.of_nat i) (Z.of_nat c))) n = Ok n' ∧ srep (take i its) n' ∧ same_frame n n'.
Proof.
  revert its n. induction c as [|c IH]; intros its n Hn Hl.
  - exists n. rewrite take_ge by lia. done.
  - rewrite Nat2Z.inj_succ, <-Z.add_1_r, seqZ_app by lia.
    rewrite (seqZ_cons (Z.of_nat i + Z.of_nat c) 1), (seqZ_nil _ (Z.pred 1)) by lia. rewrite reverse_app, reverse_singleton. cbn [app delete_items].
    rewrite <-Nat2Z.inj_add. destruct (rep_delete_at its n (i + c)) as (n1 & H1 & Hr1 & Hf1); [apply Hn|lia|].
    rewrite H1. cbn [mbind res_bind]. assert (Hd : delete (i + c)%nat its = take (i + c) its).
    { rewrite delete_take_drop, drop_ge by lia. apply app_nil_r. }
    rewrite Hd in Hr1. destruct (IH (take (i + c) its) n1) as (n' & H' & Hr' & Hf').
    + split; [done|]. by apply sorted_take, Hn.
    + rewrite length_take. lia.
    + exists n'. rewrite take_take in Hr'. replace (i `min` (i + c))%nat with i in Hr' by lia.
      split_and!; [done..|by transitivity n1].
Qed.

(** A leaf with at least two items is cut in the middle: the upper half goes to the
    right node and its first key is the separator. *)
Lemma srep_split_into its left right :
  srep its left → 2 ≤ zlen its → srep [] right →
  ∃ sep v l' r', split_into left right = Ok (Some (sep, l', r')) ∧
    its !! (length its / 2)%nat = Some (sep, v) ∧
    srep (take (length its / 2) its) l' ∧ srep (drop (length its / 2) its) r' ∧
    same_frame left l' ∧ same_frame (set_level 0 right) r'.
Proof.
  intros Hl H2 Hr. set (mid := (length its / 2)%nat). pose proof (Nat.div_mod_eq (length its) 2) as Hdm. fold mid in Hdm.
  pose proof (Nat.mod_upper_bound (length its) 2). pose proof (nr_max _ _ (proj1 Hl)) as Hm.
  assert (Hmid : zlen its / 2 = Z.of_nat mid) by (unfold zlen; by rewrite <-(Nat2Z.inj_div _ 2)).
  destruct (lookup_lt_is_Some_2 its mid) as [[sep v] Hs]; [unfold zlen in H2; lia|].
  unfold split_into. rewrite (rep_count _ _ (proj1 Hl)), (proj2 (Z.ltb_ge _ _)), Hmid by done.
  rewrite (rep_get_key_value its), Hs by apply Hl.
  assert (Hc : zlen its - Z.of_nat mid = zlen (drop mid its)) by (unfold zlen; rewrite length_drop; lia).
  destruct (srep_copy_items its left (drop mid its) mid [] (set_level 0 right)) as (r' & Hr' & Hrr & Hrf); try done.
  - split; [by apply rep_set_level, Hr|constructor].
  - cbn. by apply sorted_drop, Hl.
  - cbn. unfold zlen, MAX_LEAF_ITEMS in *. rewrite length_drop. lia.
  - rewrite Hc, Hr'. destruct (srep_delete_items its left mid (length its - mid)) as (l' & Hl' & Hll & Hlf); [done|lia|].
    replace (zlen (drop mid its)) with (Z.of_nat (length its - mid)) by (unfold zlen; rewrite length_drop; lia).
    rewrite Hl'. exists sep, v, l', r'. split_and!; done.
Qed.

(** An internal node: the middle separator moves up, its child becomes the leftmost
    child of the right node. *)
Lemma srep_split_internal its left right :
  srep its left → 2 ≤ zlen its → srep [] right →
  ∃ sep v l' r', split_internal_into left right = Ok (Some (sep, l', r')) ∧
    its !! (length its / 2)%nat = Some (sep, v) ∧
    srep (take (length its / 2) its) l' ∧ srep (drop (S (length its / 2)) its) r' ∧
    same_frame left l' ∧ same_frame (set_leftmost_child (as_child_ptr v) (set_level (level left) right)) r'.
Proof.
  intros Hl H2 Hr. set (mid := (length its / 2)%nat). pose proof (Nat.div_mod_eq (length its) 2) as Hdm. fold mid in Hdm.
  pose proof (Nat.mod_upper_bound (length its) 2). pose proof (nr_max _ _ (proj1 Hl)) as Hm.
  assert (Hmid : zlen its / 2 = Z.of_nat mid) by (unfold zlen; by rewrite <-(Nat2Z.inj_div _ 2)).
  destruct (lookup_lt_is_Some_2 its mid) as [[sep v] Hs]; [unfold zlen in H2; lia|].
  unfold split_internal_into. rewrite (rep_count _ _ (proj1 Hl)), (proj2 (Z.ltb_ge _ _)), Hmid by done.
  rewrite (rep_get_key_value its), Hs by apply Hl.
  assert (Hc : zlen its - (Z.of_nat mid + 1) = zlen (drop (S mid) its)) by (unfold zlen in *; rewrite length_drop; lia).
  destruct (srep_copy_items its left (drop (S mid) its) (S mid) [] (set_leftmost_child (as_child_ptr v) (set_level (level left) right)))
    as (r' & Hr' & Hrr & Hrf); try done.
  - split; [by apply rep_set_leftmost, rep_set_level, Hr|constructor].
  - cbn. by apply sorted_drop, Hl.
  - cbn. unfold zlen, MAX_LEAF_ITEMS in *. rewrite length_drop. lia.
  - replace (Z.of_nat mid + 1) with (Z.of_nat (S mid)) in * by lia. rewrite Hc, Hr'.
    destruct (srep_delete_items its left mid (length its - mid)) as (l' & Hl' & Hll & Hlf); [done|lia|].
    replace (zlen its - Z.of_nat mid) with (Z.of_nat (length its - mid)) by (unfold zlen; lia).
    rewrite Hl'. exists sep, v, l', r'. split_and!; done.
Qed.

Lemma rep_node_items its n : node_rep its n → node_items n = its.
Proof.
  intros Hr. unfold node_items. rewrite (rep_count _ _ Hr).
  cut (∀ l i, drop i its = l → omap (get_key_value n) (seqZ (Z.of_nat i) (zlen l)) = l).
  { intros Hc. exact (Hc its 0%nat eq_refl). }
  induction l as [|it l IH]; intros i Hd; [done|].
  assert (Hl : its !! i = Some it) by (by rewrite <-(Nat.add_0_r i), <-lookup_drop, Hd).
  rewrite zlen_cons, seqZ_cons by (pose proof (zlen_nonneg l); lia). cbn [omap list_omap].
  rewrite (rep_get_key_value its), Hl by done. f_equal. replace (Z.pred (1 + zlen l)) with (zlen l) by lia.
  replace (Z.succ (Z.of_nat i)) with (Z.of_nat (S i)) by lia. apply IH.
  rewrite (drop_S its it i Hl) in Hd. by simplify_eq.
Qed.
End Rep.

(** * A node is a bounded map *)

Inductive nop := NInsert (k : Key) (v : bytes) | NDelete (k : Key).

Definition nop_ok (o : nop) : Prop := match o with NInsert k v => item_ok (k, v) | NDelete _ => True end.

Definition nexec (o : nop) (n : BTreeNode) : res (bool * BTreeNode) :=
  match o with NInsert k v => Ok (insert k v n) | NDelete k => delete_key k n end.

Fixpoint nrun (l : list nop) (n : BTreeNode) : res (list bool * BTreeNode) :=
  match l with
  | [] => Ok ([], n)
  | o :: l' => '(b, n1) ← nexec o n; '(bs, n2) ← nrun l' n1; Ok (b :: bs, n2)
  end.

(** The contract: a map of at most 84 entries that never overwrites. *)
Definition mexec (o : nop) (m : gmap Key bytes) : bool * gmap Key bytes :=
  match o with
  | NInsert k v =>
      if bool_decide (is_Some (m !! k)) || (MAX_LEAF_ITEMS <=? Z.of_nat (size m)) then (false, m) else (true, <[k := v]> m)
  | NDelete k => (bool_decide (is_Some (m !! k)), delete k m)
  end.

Fixpoint mrun (l : list nop) (m : gmap Key bytes) : list bool * gmap Key bytes :=
  match l with
  | [] => ([], m)
  | o :: l' => let '(b, m1) := mexec o m in let '(bs, m2) := mrun l' m1 in (b :: bs, m2)
  end.

Lemma nexec_refines o its n :
  nop_ok o → srep its n →
  ∃ its' n', nexec o n = Ok ((mexec o (items_map its)).1, n') ∧ srep its' n' ∧ items_map its' = (mexec o (items_map its)).2.
Proof.
  intros Ho Hr. destruct o as [k v|k]; cbn [nexec mexec].
  - rewrite size_items_map by apply Hr. case_bool_decide as Hk; cbn [orb].
    + exists its, n. by rewrite (srep_insert_exists its n k v).
    + destruct (Z.leb_spec MAX_LEAF_ITEMS (zlen its)).
      * exists its, n. rewrite (rep_insert_full its n k v); [done|apply Hr|]. pose proof (nr_max _ _ (proj1 Hr)). lia.
      * destruct (srep_insert its n k v) as (p & n' & Hn & Hr' & _ & _ & H1 & _); try done.
        { by apply eq_None_not_Some. }
        rewrite Hn. eexists _, n'. split_and!; [done..|]. by apply items_map_insert.
  - pose proof (srep_delete_key its n k Hr) as Hd. destruct (items_map its !! k) as [v|] eqn:E.
    + destruct Hd as (i & v' & n' & Hn & Hi & Hr' & _). rewrite Hn. exists (delete i its), n'. split_and!; [done..|].
      eapply items_map_delete; [apply Hr|done].
    + rewrite Hd. exists its, n. split_and!; [done..|]. cbn. by rewrite delete_id.
Qed.

(** C15: A node is a sorted map of at most 84 items. Whatever sequence of insertions and
    deletions a fresh node goes through, no operation panics, each one answers as the
    map does (an insertion is refused exactly for a present key or a full node), every
    key is then found with its value or not at all, and the items lie sorted. *)
Theorem node_is_a_map a l :
  Forall nop_ok l →
  let '(replies, m) := mrun l ∅ in
  ∃ n, nrun l (new a) = Ok (replies, n) ∧ (∀ k, node_lookup n k = m !! k) ∧
    sorted (node_items n) ∧ items_map (node_items n) = m.
Proof.
  intros Hl. assert (Hgen : ∀ its n, srep its n → let '(replies, m) := mrun l (items_map its) in
    ∃ its' n', nrun l n = Ok (replies, n') ∧ srep its' n' ∧ items_map its' = m).
  { induction Hl as [|o l Ho _ IH]; intros its n Hr; cbn [mrun nrun]; [by exists its, n|].
    destruct (nexec_refines o its n Ho Hr) as (its1 & n1 & H1 & Hr1 & Hm1). rewrite H1. cbn [mbind res_bind].
    destruct (mexec o (items_map its)) as [b m1]. cbn in *. subst m1. specialize (IH its1 n1 Hr1).
    destruct (mrun l (items_map its1)) as [bs m2]. destruct IH as (its2 & n2 & H2 & Hr2 & Hm2).
    rewrite H2. by exists its2, n2. }
  specialize (Hgen [] (new a)). change (items_map []) with (∅ : gmap Key bytes) in Hgen. destruct (mrun l ∅) as [replies m].
  destruct Hgen as (its & n & Hn & Hr & Hm); [split; [apply rep_new|constructor]|].
  exists n. rewrite (rep_node_items its n) by apply Hr. split_and!; [done| |apply Hr|done].
  intros k. rewrite (srep_lookup its) by done. by rewrite Hm.
Qed.

Definition demo_nops : list nop :=
  [NInsert (mkKey 7 TInode 0) (from_inode 0x81A4 5 40 1); NInsert (mkKey 2 TDirEntry 9) (from_dir 7 "t");
   NInsert (mkKey 7 TInode 0) zero_value; NDelete (mkKey 3 TInode 0); NDelete (mkKey 7 TInode 0)].

Lemma node_is_a_map_witness :
  mrun demo_nops ∅ = ([true; true; false; false; true], {[mkKey 2 TDirEntry 9 := from_dir 7 "t"]}) ∧
  ∃ n, nrun demo_nops (new 12) = Ok ([true; true; false; false; true], n) ∧
    node_lookup n (mkKey 7 TInode 0) = None ∧ node_lookup n (mkKey 2 TDirEntry 9) = Some (from_dir 7 "t").
Proof.
  assert (Hok : Forall nop_ok demo_nops) by
    (repeat (apply Forall_cons_2; [unfold nop_ok, item_ok, key_ok; cbn; split_and?; done || by vm_compute|]); apply Forall_nil_2).
  assert (E : mrun demo_nops ∅ = ([true; true; false; false; true], {[mkKey 2 TDirEntry 9 := from_dir 7 "t"]})) by by vm_compute.
  split; [exact E|]. pose proof (node_is_a_map 12 demo_nops Hok) as H. rewrite E in H.
  destruct H as (n & Hn & Hk & _). exists n. split; [exact Hn|]. split; rewrite Hk; by vm_compute.
Defined.
