(* ===== verification/NfsFormat.v ===== *)
(** On-disk formats of NeuralFS: the superblock and its backup ([superblock.rs]),
    inode records ([inode.rs]), directory keys ([dir.rs]) and leaf values. *)

From S2P Require Import Prelude Checksum Flash NfsNode.
Import Crc32c Btree.

(** * Superblock *)

Module Super.

Definition SUPERBLOCK_MAGIC : bytes := as_bytes "NEURALFS".

Record Superblock := mkSb {
  magic : bytes; version : Z; total_blocks : Z; free_blocks : Z; allocated_inodes : Z; last_tx_id : Z;
  root_inode : Z; inode_tree_root : Z; free_extent_root : Z; checksum_tree_root : Z;
  journal_start : Z; journal_blocks : Z; uuid : Z * Z; label : list Z; next_cow_block : Z }.

#[global] Instance Superblock_eq_dec : EqDecision Superblock.
Proof. solve_decision. Defined.

Definition with_free_blocks (x : Z) (s : Superblock) : Superblock :=
  mkSb (magic s) (version s) (total_blocks s) x (allocated_inodes s) (last_tx_id s) (root_inode s) (inode_tree_root s)
    (free_extent_root s) (checksum_tree_root s) (journal_start s) (journal_blocks s) (uuid s) (label s) (next_cow_block s).
Definition with_allocated_inodes (x : Z) (s : Superblock) : Superblock :=
  mkSb (magic s) (version s) (total_blocks s) (free_blocks s) x (last_tx_id s) (root_inode s) (inode_tree_root s)
    (free_extent_root s) (checksum_tree_root s) (journal_start s) (journal_blocks s) (uuid s) (label s) (next_cow_block s).
Definition with_last_tx_id (x : Z) (s : Superblock) : Superblock :=
  mkSb (magic s) (version s) (total_blocks s) (free_blocks s) (allocated_inodes s) x (root_inode s) (inode_tree_root s)
    (free_extent_root s) (checksum_tree_root s) (journal_start s) (journal_blocks s) (uuid s) (label s) (next_cow_block s).
Definition with_inode_tree_root (x : Z) (s : Superblock) : Superblock :=
  mkSb (magic s) (version s) (total_blocks s) (free_blocks s) (allocated_inodes s) (last_tx_id s) (root_inode s) x
    (free_extent_root s) (checksum_tree_root s) (journal_start s) (journal_blocks s) (uuid s) (label s) (next_cow_block s).
Definition with_next_cow_block (x : Z) (s : Superblock) : Superblock :=
  mkSb (magic s) (version s) (total_blocks s) (free_blocks s) (allocated_inodes s) (last_tx_id s) (root_inode s) (inode_tree_root s)
    (free_extent_root s) (checksum_tree_root s) (journal_start s) (journal_blocks s) (uuid s) (label s) x.

(** Bytes 48 to 55 are unused. *)
Definition sb_fields (s : Superblock) : list (Z * bytes) :=
  [(0, SUPERBLOCK_MAGIC); (8, to_le_bytes 4 (version s)); (12, to_le_bytes 4 0);
   (16, to_le_bytes 8 (total_blocks s)); (24, to_le_bytes 8 (free_blocks s));
   (32, to_le_bytes 8 (allocated_inodes s)); (40, to_le_bytes 8 (last_tx_id s));
   (56, to_le_bytes 8 (root_inode s)); (64, to_le_bytes 8 (inode_tree_root s));
   (72, to_le_bytes 8 (free_extent_root s)); (80, to_le_bytes 8 (checksum_tree_root s));
   (88, to_le_bytes 8 (journal_start s)); (96, to_le_bytes 8 (journal_blocks s));
   (104, to_le_bytes 8 (uuid s).1); (112, to_le_bytes 8 (uuid s).2); (120, to_le_bytes 8 (next_cow_block s))].

Definition encode_block (s : Superblock) : bytes :=
  let block := put_fields (sb_fields s) (replicate 4096 Byte.x00) in
  splice 12 (to_le_bytes 4 (crc32c (slice 4 4092 block))) block.

(** [Superblock::read] on a block that passed the checks. *)
Definition decode_block (b : bytes) : Superblock :=
  let u64 o := from_le_bytes (slice o 8 b) in
  mkSb SUPERBLOCK_MAGIC (from_le_bytes (slice 8 4 b)) (u64 16) (u64 24) (u64 32) (u64 40) (u64 56) (u64 64) (u64 72)
    (u64 80) (u64 88) (u64 96) (u64 104, u64 112) [0; 0; 0; 0] (u64 120).

(** The checks of [read_block]: magic, then the CRC with its own field cleared. *)
Definition check_block (block : bytes) : option bytes :=
  if negb (bool_decide (slice 0 8 block = SUPERBLOCK_MAGIC)) then None else
  let stored_crc := from_le_bytes (slice 12 4 block) in
  let block' := splice 12 (to_le_bytes 4 0) block in
  if stored_crc =? crc32c (slice 4 4092 block') then Some block' else None.

Section Device.
Context {D : Type} `{BlockDevice D}.

Definition read_block (d : D) (start block_num : Z) : option bytes :=
  b ← read_sectors (lbas_checked start block_num) d; check_block b.

Definition read (d : D) (start : Z) : option Superblock :=
  b ← (match read_block d start 1 with Some b => Some b | None => read_block d start 2 end);
  Some (decode_block b).

(** [unwrap_or(u64::MAX)] makes an overflow, and the address [u64::MAX] itself, a failure. *)
Definition lbas_capped (start block : Z) : list (option Z) :=
  (λ l, lba ← l; if lba =? U64_MAX then None else Some lba) <$> lbas_checked start block.

Definition write_block (start block_num : Z) (data : bytes) (d : D) : bool * D :=
  write_sectors (lbas_capped start block_num) data d.

Definition write (start : Z) (s : Superblock) (d : D) : bool * D :=
  let block := encode_block s in
  match write_block start 1 block d with
  | (true, d') => write_block start 2 block d'
  | (false, d') => (false, d')
  end.
End Device.

End Super.

(** * Inodes *)

Module Inode.

Definition S_IFREG : Z := 0x8000.
Definition S_IFDIR : Z := 0x4000.

Record Inode := mkInode {
  mode : Z; owner : Z; size : Z; ctime : Z; mtime : Z; block_count : Z; link_count : Z; flags : Z }.

Definition new_file : Inode := mkInode (Z.lor S_IFREG 0x1A4) 0 0 0 0 0 1 0.
Definition new_dir : Inode := mkInode (Z.lor S_IFDIR 0x1ED) 0 0 0 0 0 2 0.

Definition to_bytes (i : Inode) : bytes :=
  let b := put_fields [(0, to_le_bytes 2 (mode i)); (2, to_le_bytes 2 (owner i)); (4, to_le_bytes 8 (size i));
    (12, to_le_bytes 8 (ctime i)); (20, to_le_bytes 8 (mtime i)); (28, to_le_bytes 8 (block_count i));
    (36, to_le_bytes 4 (link_count i)); (40, to_le_bytes 4 (flags i))] (replicate 128 Byte.x00) in
  splice 44 (to_le_bytes 4 (crc32c (slice 0 44 b))) b.

Definition from_bytes (b : bytes) : option Inode :=
  if zlen b <? 48 then None else
  if negb (from_le_bytes (slice 44 4 b) =? crc32c (slice 0 44 b)) then None else
  Some (mkInode (from_le_bytes (slice 0 2 b)) (from_le_bytes (slice 2 2 b)) (from_le_bytes (slice 4 8 b))
    (from_le_bytes (slice 12 8 b)) (from_le_bytes (slice 20 8 b)) (from_le_bytes (slice 28 8 b))
    (from_le_bytes (slice 36 4 b)) (from_le_bytes (slice 40 4 b))).

Definition is_dir (i : Inode) : bool := negb (Z.land (mode i) S_IFDIR =? 0).
Definition is_file (i : Inode) : bool := negb (Z.land (mode i) S_IFREG =? 0).

Definition make_key (inode_id : Z) : Key := mkKey inode_id TInode 0.

End Inode.

(** * Directory keys *)

Module Dir.

Definition PRIME1 : Z := 0x9E3779B185EBCA87.
Definition PRIME2 : Z := 0xC2B2AE3D27D4EB4F.
Definition PRIME3 : Z := 0x85EBCA6B.
Definition PRIME5 : Z := 0x165667B19E3779F9.

Definition rotate_left (n x : Z) : Z := Z.lor (Z.shiftl x n mod 2 ^ 64) (Z.shiftr x (64 - n)).

(** Eight bytes at a time, then the rest byte by byte. *)
Fixpoint hash_words (n : nat) (data : bytes) (h : Z) : Z :=
  match n with
  | O => h
  | S n' =>
      let v := from_le_bytes (take 8 data) in
      hash_words n' (drop 8 data) (u64_mul (rotate_left 31 (u64_add h (u64_mul v PRIME2))) PRIME1)
  end.

Definition hash_tail (data : bytes) (h : Z) : Z :=
  fold_left (λ h b, u64_mul (rotate_left 11 (u64_add h (u64_mul (byte.unsigned b) PRIME5))) PRIME1) data h.

Definition xxhash64 (data : bytes) : Z :=
  let words := (length data / 8)%nat in
  let h := hash_tail (drop (8 * words) data) (hash_words words data (u64_add PRIME5 (zlen data))) in
  let h := Z.lxor h (Z.shiftr h 33) in
  let h := u64_mul h PRIME2 in
  let h := Z.lxor h (Z.shiftr h 29) in
  let h := u64_mul h PRIME3 in
  Z.lxor h (Z.shiftr h 32).

Definition make_key (parent_inode : Z) (name : string) : Key :=
  mkKey parent_inode TDirEntry (xxhash64 (as_bytes name)).

End Dir.
