(* ===== verification/NfsVolume.v ===== *)
(** The NeuralFS volume ([crates/k_nano/src/neural_fs/volume.rs]) and its journal
    ([journal.rs]): formatting and mounting, block allocation, the copy-on-write
    tree, transactions, files and directories.

    Operations run over a [World] made of the mounted volume and the device. Cache
    flushes have no effect on what the device reads back and are left out, as are log
    lines. *)

From S2P Require Import Prelude Checksum Flash NfsNode NfsFormat.
Import Crc32c Btree Super.

(** * Journal *)

Module Journal.

Definition JOURNAL_MAGIC : bytes := as_bytes "NRFSJRNL".
Definition CRC_OFFSET : Z := 24.

Record Journal := mkJournal { tx_id : Z; dirty_blocks : list (Z * bytes) }.

Definition new : Journal := mkJournal 0 [].
Definition begin_tx (tx : Z) (j : Journal) : Journal := mkJournal tx [].
Definition log_block (block_addr : Z) (data : bytes) (j : Journal) : Journal :=
  mkJournal (tx_id j) (dirty_blocks j ++ [(block_addr, data)]).

(** The block addresses, eight bytes each, from byte 24. *)
Fixpoint put_addrs (i : Z) (addrs : list Z) (h : bytes) : bytes :=
  match addrs with
  | [] => h
  | a :: addrs' => put_addrs (i + 1) addrs' (splice (CRC_OFFSET + i * 8) (to_le_bytes 8 a) h)
  end.

(** The header before its CRC is filled in (bytes 20 to 23 are still zero). *)
Definition header0 (j : Journal) : bytes :=
  put_addrs 0 (dirty_blocks j).*1
    (put_fields [(0, JOURNAL_MAGIC); (8, to_le_bytes 8 (tx_id j)); (16, to_le_bytes 4 (zlen (dirty_blocks j)))]
       (replicate 512 Byte.x00)).

Definition header (j : Journal) : bytes :=
  let h := header0 j in
  splice 20 (to_le_bytes 4 (crc32c (slice 0 (CRC_OFFSET + zlen (dirty_blocks j) * 8) h))) h.

Section Device.
Context {D : Type} `{BlockDevice D}.

Fixpoint write_blocks (lba : Z) (blocks : list (Z * bytes)) (d : D) : bool * D :=
  match blocks with
  | [] => (true, d)
  | (_, data) :: blocks' =>
      match write_sectors (lbas_from lba) data d with
      | (true, d') => write_blocks (u64_add lba 8) blocks' d'
      | (false, d') => (false, d')
      end
  end.

Definition commit (start : Z) (sb : Superblock) (j : Journal) (d : D) : bool * D :=
  let count := zlen (dirty_blocks j) in
  if count =? 0 then (true, d) else
  if journal_blocks sb <=? count then (false, d) else
  if 512 <? CRC_OFFSET + count * 8 then (false, d) else
  let journal_lba := u64_add start (u64_mul (journal_start sb) 8) in
  match write_blocks (u64_add journal_lba 1) (dirty_blocks j) d with
  | (true, d') => bd_write d' journal_lba (header j)
  | (false, d') => (false, d')
  end.

(** [None] is a failed bounds check or transfer: [return false]. *)
Fixpoint replay (start journal_lba : Z) (sb : Superblock) (hdr : bytes) (is_ : list Z) (d : D) : bool * D :=
  match is_ with
  | [] => (true, d)
  | i :: is' =>
      let ba := from_le_bytes (slice (CRC_OFFSET + i * 8) 8 hdr) in
      if (ba <? u64_add (inode_tree_root sb) 2) || (total_blocks sb <=? ba) then (false, d) else
      match read_sectors (lbas_from (u64_add (u64_add journal_lba 1) (i * 8))) d with
      | None => (false, d)
      | Some data =>
          match write_sectors (lbas_from (u64_add start (u64_mul ba 8))) data d with
          | (true, d') => replay start journal_lba sb hdr is' d'
          | (false, d') => (false, d')
          end
      end
  end.

Definition recover (start : Z) (sb : Superblock) (d : D) : bool * D :=
  let journal_lba := u64_add start (u64_mul (journal_start sb) 8) in
  match bd_read d journal_lba 512 with
  | None => (false, d)
  | Some hdr =>
      if negb (bool_decide (slice 0 8 hdr = JOURNAL_MAGIC)) then (true, d) else
      let journal_tx := from_le_bytes (slice 8 8 hdr) in
      if journal_tx <=? last_tx_id sb then (true, d) else
      let count := from_le_bytes (slice 16 4 hdr) in
      if (count =? 0) || (journal_blocks sb <=? count) then (true, d) else
      let crc_size := CRC_OFFSET + count * 8 in
      if 512 <? crc_size then (false, d) else
      if negb (from_le_bytes (slice 20 4 hdr) =? crc32c (slice 0 crc_size hdr)) then (false, d) else
      match replay start journal_lba sb hdr (seqZ 0 count) d with
      | (true, d') => (true, (bd_write d' journal_lba (replicate 512 Byte.x00)).2)
      | (false, d') => (false, d')
      end
  end.
End Device.

End Journal.

(** * The volume *)

Module Volume.

Definition FREE_LIST_MAGIC : bytes := as_bytes "NRFSFREE".
Definition FREE_LIST_MAX : Z := 510.

(** [free_stack] is the [Vec]: its last element is the top. *)
Record NeuralVolume := mkVol {
  sb : Superblock; start_lba : Z; tx_id : Z; journal : Journal.Journal; dirty : bool; free_stack : list Z }.

Definition with_sb (s : Superblock) (v : NeuralVolume) : NeuralVolume :=
  mkVol s (start_lba v) (tx_id v) (journal v) (dirty v) (free_stack v).
Definition with_journal (j : Journal.Journal) (v : NeuralVolume) : NeuralVolume :=
  mkVol (sb v) (start_lba v) (tx_id v) j (dirty v) (free_stack v).
Definition with_tx_id (t : Z) (v : NeuralVolume) : NeuralVolume :=
  mkVol (sb v) (start_lba v) t (journal v) (dirty v) (free_stack v).
Definition with_free_stack (l : list Z) (v : NeuralVolume) : NeuralVolume :=
  mkVol (sb v) (start_lba v) (tx_id v) (journal v) (dirty v) l.

Definition write_block_static {D} `{BlockDevice D} (start block : Z) (data : bytes) (d : D) : bool * D :=
  write_sectors (lbas_wrapping start block) data d.
Definition read_block_static {D} `{BlockDevice D} (start block : Z) (d : D) : option bytes :=
  read_sectors (lbas_wrapping start block) d.

(** ** Allocation (in memory) *)

Definition next_block1 (v : NeuralVolume) : option Z * NeuralVolume :=
  match last (free_stack v) with
  | Some b => (Some b, with_free_stack (take (length (free_stack v) - 1) (free_stack v)) v)
  | None =>
      let s := sb v in
      if (free_blocks s =? 0) || (total_blocks s <=? next_cow_block s) then (None, v) else
      (Some (next_cow_block s),
       with_sb (with_free_blocks (u64_sat_sub (free_blocks s) 1)
                 (with_next_cow_block (u64_add (next_cow_block s) 1) s)) v)
  end.

(** [windows(2).all(|w| w[1] == w[0] + 1)]. *)
Fixpoint contiguous (l : list Z) : bool :=
  match l with
  | a :: (b :: _) as l' => (b =? u64_add a 1) && contiguous l'
  | _ => true
  end.

Definition bump (n : Z) (v : NeuralVolume) : option (Z * Z) * NeuralVolume :=
  let s := sb v in
  let start := next_cow_block s in
  if (free_blocks s <? n) || (total_blocks s <? u64_add start n) then (None, v) else
  (Some (start, n mod 2 ^ 32),
   with_sb (with_free_blocks (u64_sat_sub (free_blocks s) n) (with_next_cow_block (u64_add start n) s)) v).

Definition alloc_contiguous1 (n : Z) (v : NeuralVolume) : option (Z * Z) * NeuralVolume :=
  if n =? 0 then (Some (0, 0), v) else
  let k := Z.to_nat n in
  if n <=? zlen (free_stack v) then
    let picked := merge_sort Z.le (drop (length (free_stack v) - k) (free_stack v)) in
    let rest := take (length (free_stack v) - k) (free_stack v) in
    if contiguous picked then
      (Some (hd 0 picked, n mod 2 ^ 32),
       with_sb (with_free_blocks (u64_sat_sub (free_blocks (sb v)) n) (sb v)) (with_free_stack rest v))
    else bump n (with_free_stack (rest ++ picked) v)
  else bump n v.

Definition reclaim_block1 (block : Z) (v : NeuralVolume) : NeuralVolume :=
  if (block =? 0) || (total_blocks (sb v) <=? block) then v else
  if FREE_LIST_MAX <=? zlen (free_stack v) then v else
  with_sb (with_free_blocks (u64_sat_add (free_blocks (sb v)) 1) (sb v)) (with_free_stack (free_stack v ++ [block]) v).

(** The page the free list is stored on: the topmost 510 blocks, bottom first. *)
Definition free_page (stack : list Z) : bytes :=
  let n := Z.min (zlen stack) FREE_LIST_MAX in
  let kept := drop (length stack - Z.to_nat n) stack in
  splice 16 (concat (to_le_bytes 8 <$> kept))
    (put_fields [(0, FREE_LIST_MAGIC); (8, to_le_bytes 4 n)] (replicate 4096 Byte.x00)).

Definition parse_free_page (total : Z) (page : bytes) : list Z :=
  if negb (bool_decide (slice 0 8 page = FREE_LIST_MAGIC)) then [] else
  let count := Z.min (from_le_bytes (slice 8 4 page)) FREE_LIST_MAX in
  filter (λ b, 0 < b ∧ b < total) ((λ i, from_le_bytes (slice (16 + i * 8) 8 page)) <$> seqZ 0 count).

Section Volume.
Context {D : Type} `{BlockDevice D}.

(** ** Formatting and mounting *)

Fixpoint zero_blocks (start : Z) (blocks : list Z) (d : D) : bool * D :=
  match blocks with
  | [] => (true, d)
  | b :: blocks' =>
      match write_block_static start b (replicate 4096 Byte.x00) d with
      | (true, d') => zero_blocks start blocks' d'
      | (false, d') => (false, d')
      end
  end.

Definition format_sb (total_blocks journal_blocks free_list leaf_addr : Z) : Superblock :=
  mkSb SUPERBLOCK_MAGIC 1 total_blocks (total_blocks - leaf_addr - 1) 1 0 1 leaf_addr free_list 0 3 journal_blocks
    (0x4E555241, 0x4C46435F) [0; 0; 0; 0] (leaf_addr + 1).

Definition format (start total_lba : Z) (d : D) : bool * D :=
  let total_blocks := total_lba / 8 in
  if total_blocks <? 64 then (false, d) else
  let journal_blocks := Z.min (Z.max (total_blocks / 100) 8) 256 in
  let free_list := 3 + journal_blocks in
  let leaf_addr := free_list + 1 in
  if total_blocks <=? leaf_addr + 8 then (false, d) else
  let sb := format_sb total_blocks journal_blocks free_list leaf_addr in
  match Super.write start sb d with
  | (false, d1) => (false, d1)
  | (true, d1) =>
      match zero_blocks start ((λ i, u64_add 3 i) <$> seqZ 0 journal_blocks) d1 with
      | (false, d2) => (false, d2)
      | (true, d2) =>
          match write_block_static start free_list (splice 0 FREE_LIST_MAGIC (replicate 4096 Byte.x00)) d2 with
          | (false, d3) => (false, d3)
          | (true, d3) =>
              let leaf := set_generation 1 (Btree.new leaf_addr) in
              match insert (Inode.make_key 1) (from_inode (Z.lor Inode.S_IFDIR 0x1ED) 0 0 0) leaf with
              | (false, _) => (false, d3)
              | (true, leaf') => let '(ok, _, d4) := Btree.write start leaf' d3 in (ok, d4)
              end
          end
      end
  end.

Definition load_free_list (start : Z) (s : Superblock) (d : D) : list Z :=
  if free_extent_root s =? 0 then [] else
  match read_block_static start (free_extent_root s) d with
  | None => []
  | Some page => parse_free_page (total_blocks s) page
  end.

Definition mount (start : Z) (d : D) : option NeuralVolume * D :=
  match Super.read d start with
  | None => (None, d)
  | Some s =>
      if negb (bool_decide (magic s = SUPERBLOCK_MAGIC)) then (None, d) else
      match Journal.recover start s d with
      | (false, d') => (None, d')
      | (true, d') => (Some (mkVol s start 0 Journal.new false (load_free_list start s d')), d')
      end
  end.

(** ** Operations of a mounted volume *)

Record World := mkWorld { vol : NeuralVolume; dev : D }.
Local Abbreviation Op A := (M World A).

Definition set_vol (v : NeuralVolume) (w : World) : World := mkWorld v (dev w).
Definition upd_vol (f : NeuralVolume → NeuralVolume) : Op unit := m_modify (λ w, set_vol (f (vol w)) w).
Definition get_vol : Op NeuralVolume := λ w, (Ok (vol w), w).
Definition on_vol {A} (f : NeuralVolume → A * NeuralVolume) : Op A :=
  λ w, let '(a, v) := f (vol w) in (Ok a, set_vol v w).

(** Device calls at the volume's start. *)
Definition read_node (addr : Z) : Op (option BTreeNode) := λ w, (Ok (Btree.read (dev w) (start_lba (vol w)) addr), w).
Definition write_node (n : BTreeNode) : Op bool := λ w,
  let '(ok, _, d) := Btree.write (start_lba (vol w)) n (dev w) in (Ok ok, mkWorld (vol w) d).
Definition write_block_raw (block : Z) (data : bytes) : Op bool := λ w,
  let '(ok, d) := write_block_static (start_lba (vol w)) block data (dev w) in (Ok ok, mkWorld (vol w) d).
Definition scan_items : Op (bool * list (Key * bytes)) := λ w,
  (Ok (btree_scan_leaves (dev w) (start_lba (vol w)) (inode_tree_root (sb (vol w)))), w).

Definition next_block : Op (option Z) := on_vol next_block1.
Definition alloc_contiguous (n : Z) : Op (option (Z * Z)) := on_vol (alloc_contiguous1 n).
Definition reclaim_block (block : Z) : Op unit := upd_vol (reclaim_block1 block).
Definition set_root (a : Z) : Op unit := upd_vol (λ v, with_sb (with_inode_tree_root a (sb v)) v).
Definition log_block (a : Z) (data : bytes) : Op unit := upd_vol (λ v, with_journal (Journal.log_block a data (journal v)) v).

Definition begin_tx : Op unit :=
  upd_vol (λ v, let t := u64_add (tx_id v) 1 in with_journal (Journal.begin_tx t (journal v)) (with_tx_id t v)).

Definition persist_free_list : Op bool := λ w,
  let addr := free_extent_root (sb (vol w)) in
  if addr =? 0 then (Ok true, w) else
  let '(ok, d) := write_block_static (start_lba (vol w)) addr (free_page (free_stack (vol w))) (dev w) in
  (Ok ok, mkWorld (vol w) d).

Definition journal_commit : Op bool := λ w,
  let '(ok, d) := Journal.commit (start_lba (vol w)) (sb (vol w)) (journal (vol w)) (dev w) in (Ok ok, mkWorld (vol w) d).

Definition write_sb : Op bool := λ w,
  let '(ok, d) := Super.write (start_lba (vol w)) (sb (vol w)) (dev w) in (Ok ok, mkWorld (vol w) d).

Definition commit_tx : Op bool :=
  ok ← persist_free_list;
  if negb ok then mret false else
  ok ← journal_commit;
  if negb ok then mret false else
  upd_vol (λ v, with_sb (with_last_tx_id (tx_id v) (sb v)) v);;
  write_sb.

(** ** The copy-on-write tree *)

(** [gen] is [self.tx_id.max(1)]. *)
Definition tx_gen (v : NeuralVolume) : Z := Z.max (tx_id v) 1.

Fixpoint collect_path_loop (fuel : nat) (addr : Z) (key : Key) (path : list BTreeNode) : Op (option (list BTreeNode)) :=
  match fuel with
  | O => mret None
  | S fuel' =>
      o ← read_node addr;
      match o with
      | None => mret None
      | Some n =>
          if level n =? 0 then mret (Some (path ++ [n])) else
          let next := child_for_key n key in
          if next =? 0 then mret None else collect_path_loop fuel' next key (path ++ [n])
      end
  end.

Definition collect_path (key : Key) : Op (option (list BTreeNode)) :=
  v ← get_vol; collect_path_loop 8 (inode_tree_root (sb v)) key [].

Definition has_child (n : BTreeNode) (child : Z) : bool :=
  (leftmost_child n =? child) || existsb (λ it, as_child_ptr it.2 =? child) (node_items n).

Fixpoint find_parent_loop (fuel : nat) (addr child : Z) (hint : Key) (path : list BTreeNode) : Op (option (list BTreeNode)) :=
  match fuel with
  | O => mret None
  | S fuel' =>
      o ← read_node addr;
      match o with
      | None => mret None
      | Some n =>
          if level n =? 0 then mret None else
          if has_child n child then mret (Some (path ++ [n])) else
          let next := child_for_key n hint in
          if next =? 0 then mret None else find_parent_loop fuel' next child hint (path ++ [n])
      end
  end.

Definition find_parent_path (child : Z) (hint : Key) : Op (option (list BTreeNode)) :=
  v ← get_vol;
  if inode_tree_root (sb v) =? child then mret (Some []) else
  find_parent_loop 8 (inode_tree_root (sb v)) child hint [].

(** [while let Some(parent) = ancestors.pop()]: the list is bottom first. *)
Fixpoint cow_up (rev_ancestors : list BTreeNode) (old_child new_child : Z) : Op bool :=
  match rev_ancestors with
  | [] => mret true
  | parent :: rest =>
      o ← next_block;
      match o with
      | None => mret false
      | Some new_p =>
          v ← get_vol;
          '(_, n1) ← m_lift (replace_child_ptr old_child new_child (set_block_addr new_p parent));
          let n2 := set_generation (tx_gen v) n1 in
          log_block new_p (data n2);;
          ok ← write_node n2;
          if negb ok then mret false else
          reclaim_block (block_addr parent);;
          (if bool_decide (rest = []) then set_root new_p else mret tt);;
          cow_up rest (block_addr parent) new_p
      end
  end.

Definition cow_update_ancestors (ancestors : list BTreeNode) (old_child new_child : Z) : Op bool :=
  cow_up (reverse ancestors) old_child new_child.

Definition cow_leaf_for_key (hint_key : Key) : Op (option BTreeNode) :=
  o ← collect_path hint_key;
  match o with
  | None => mret None
  | Some path =>
      match last path with
      | None => mret None
      | Some old =>
          let ancestors := take (length path - 1) path in
          b ← next_block;
          match b with
          | None => mret None
          | Some new_addr =>
              v ← get_vol;
              let node := set_generation (tx_gen v) (set_block_addr new_addr old) in
              reclaim_block (block_addr old);;
              match ancestors with
              | [] => set_root new_addr;; mret (Some node)
              | _ :: _ =>
                  ok ← cow_update_ancestors ancestors (block_addr old) new_addr;
                  mret (if negb ok then None else Some node)
              end
          end
      end
  end.

Definition ok_or_err {A} (m : Op (option A)) (e : string) : Op A :=
  o ← m; m_lift (ok_or o e).

Definition new_root (lvl left : Z) (sep : Key) (right : Z) : Op unit :=
  root_addr ← ok_or_err next_block "no space root";
  v ← get_vol;
  let n0 := set_leftmost_child left (set_level lvl (Btree.new root_addr)) in
  match insert sep (from_child_ptr right) n0 with
  | (false, _) => m_err "root insert"
  | (true, n1) =>
      let n2 := set_generation (tx_gen v) n1 in
      log_block root_addr (data n2);;
      ok ← write_node n2;
      if negb ok then m_err "root write" else set_root root_addr
  end.

(** Recursive in the code; every call moves one level up the path. *)
Fixpoint insert_separator (fuel : nat) (sep : Key) (left_child right_child : Z) : Op unit :=
  match fuel with
  | O => m_lift OutOfFuel
  | S fuel' =>
      path ← ok_or_err (find_parent_path left_child sep) "parent path";
      match last path with
      | None => new_root 1 left_child sep right_child
      | Some parent0 =>
          let path := take (length path - 1) path in
          let parent_level := level parent0 in
          let old_p := block_addr parent0 in
          new_p ← ok_or_err next_block "no space";
          v ← get_vol;
          let parent := set_block_addr new_p parent0 in
          let sep_val := from_child_ptr right_child in
          match insert sep sep_val parent with
          | (true, parent1) =>
              let parent2 := set_generation (tx_gen v) parent1 in
              log_block new_p (data parent2);;
              ok ← write_node parent2;
              if negb ok then m_err "parent write" else
              reclaim_block old_p;;
              match path with
              | [] => set_root new_p
              | _ :: _ =>
                  ok ← cow_update_ancestors path old_p new_p;
                  if negb ok then m_err "ancestor cow" else mret tt
              end
          | (false, _) =>
              right_addr ← ok_or_err next_block "no space";
              s ← m_lift (split_internal_into parent (Btree.new right_addr));
              '(mid_sep, parent1, right1) ← m_lift (ok_or s "split parent");
              '(parent2, right2) ←
                (match key_cmp sep mid_sep with
                 | Lt => match insert sep sep_val parent1 with
                         | (true, p) => mret (p, right1) | (false, _) => m_err "insert parent left" end
                 | _ => match insert sep sep_val right1 with
                        | (true, r) => mret (parent1, r) | (false, _) => m_err "insert parent right" end
                 end);
              let parent3 := set_generation (tx_gen v) parent2 in
              let right3 := set_generation (tx_gen v) right2 in
              log_block new_p (data parent3);;
              log_block right_addr (data right3);;
              ok ← write_node parent3;
              ok ← (if (ok : bool) then write_node right3 else mret false);
              if negb ok then m_err "parent split write" else
              reclaim_block old_p;;
              match path with
              | [] => new_root (u8_sat_add parent_level 1) new_p mid_sep right_addr
              | _ :: _ =>
                  ok ← cow_update_ancestors path old_p new_p;
                  if negb ok then m_err "ancestor after split" else
                  insert_separator fuel' mid_sep new_p right_addr
              end
          end
      end
  end.

Definition split_and_insert (left : BTreeNode) (key : Key) (val : bytes) : Op unit :=
  right_addr ← ok_or_err next_block "no space";
  v ← get_vol;
  s ← m_lift (split_into left (Btree.new right_addr));
  '(sep, left1, right1) ← m_lift (ok_or s "split");
  '(left2, right2) ←
    (match key_cmp key sep with
     | Lt => match insert key val left1 with (true, l) => mret (l, right1) | (false, _) => m_err "insert left" end
     | _ => match insert key val right1 with (true, r) => mret (left1, r) | (false, _) => m_err "insert right" end
     end);
  let left3 := set_generation (tx_gen v) left2 in
  let right3 := set_generation (tx_gen v) right2 in
  log_block (block_addr left3) (data left3);;
  log_block (block_addr right3) (data right3);;
  ok ← write_node left3;
  ok ← (if (ok : bool) then write_node right3 else mret false);
  if negb ok then m_err "split write" else
  insert_separator 10 sep (block_addr left3) (block_addr right3).

Definition leaf_insert (key : Key) (val : bytes) : Op unit :=
  leaf ← ok_or_err (cow_leaf_for_key key) "cow leaf";
  match insert key val leaf with
  | (true, leaf') =>
      log_block (block_addr leaf') (data leaf');;
      ok ← write_node leaf';
      if negb ok then m_err "leaf write" else mret tt
  | (false, _) =>
      if MAX_LEAF_ITEMS <=? item_count leaf then split_and_insert leaf key val else m_err "insert failed"
  end.
End Volume.
Arguments World D : clear implicits.
Abbreviation Op D A := (M (World D) A).

End Volume.
