(* ===== verification/NfsFiles.v ===== *)
(** Files and directories of a NeuralFS volume (the public half of
    [crates/k_nano/src/neural_fs/volume.rs]) and the in-memory disk its smoke tests
    run on. *)

From S2P Require Import Prelude Checksum Flash NfsNode NfsFormat NfsVolume.
Import Crc32c Btree Super Volume.

(** * [MemoryDisk] *)

(** [lba * 512] wraps at 64 bits. Where adding the length wraps as well, the code's test
    passes and the slice panics; the model fails there. *)
Module MemDisk.

Record MemoryDisk := mkMem { mdata : bytes }.

Definition new (size_bytes : Z) : MemoryDisk := mkMem (replicate (Z.to_nat size_bytes) Byte.x00).
Definition sector_count (m : MemoryDisk) : Z := zlen (mdata m) / 512.

Definition in_range (lba n : Z) (m : MemoryDisk) : bool := (u64_mul lba 512 + n <=? zlen (mdata m)) && (n mod 512 =? 0).

Definition read_sectors (m : MemoryDisk) (lba n : Z) : option bytes :=
  if in_range lba n m then Some (slice (u64_mul lba 512) n (mdata m)) else None.

Definition write_sectors (m : MemoryDisk) (lba : Z) (buf : bytes) : bool * MemoryDisk :=
  if in_range lba (zlen buf) m then (true, mkMem (splice (u64_mul lba 512) buf (mdata m))) else (false, m).

#[export] Instance memory_disk : BlockDevice MemoryDisk := {
  bd_read := read_sectors; bd_write := write_sectors; bd_total_sectors := sector_count }.

End MemDisk.

(** * Names and paths *)

Module Files.

Definition slash : Ascii.ascii := Ascii.ascii_of_byte Byte.x2f.

(** [path.split('/')]: always at least one part. *)
Fixpoint split_slash (s : string) : string * list string :=
  match s with
  | EmptyString => ("", [])
  | String c s' =>
      let '(p, ps) := split_slash s' in
      if Ascii.eqb c slash then ("", p :: ps) else (String c p, ps)
  end.

Definition path_parts (path : string) : list string := let '(p, ps) := split_slash path in p :: ps.

Fixpoint trim_start (s : string) : string :=
  match s with
  | String c s' => if Ascii.eqb c slash then trim_start s' else s
  | EmptyString => EmptyString
  end.

Fixpoint trim_end (s : string) : string :=
  match s with
  | EmptyString => EmptyString
  | String c s' => match trim_end s' with
                   | EmptyString => if Ascii.eqb c slash then EmptyString else String c EmptyString
                   | t => String c t
                   end
  end.

(** [path.trim_matches('/')]. *)
Definition trim_slashes (s : string) : string := trim_end (trim_start s).

Definition bad_byte (b : Byte.byte) : bool :=
  let x := byte.unsigned b in (x =? 0x2F) || (x =? 0x5C) || (x =? 0) || (x <? 0x20).

Definition valid_name (name : string) : bool :=
  let nb := as_bytes name in
  if bool_decide (name = "") || (22 <? zlen nb) then false else
  if bool_decide (name = "..") || bool_decide (name = ".") then false else
  negb (existsb bad_byte nb).

Section Files.
Context {D : Type} `{BlockDevice D}.

(** * Looking things up: the volume and the device are only read *)

Definition tree_get (w : World D) (k : Key) : option bytes :=
  btree_lookup (dev w) (start_lba (vol w)) (inode_tree_root (sb (vol w))) k.

Definition lookup_inode_full (w : World D) (ino : Z) : option (Z * Z * Z * Z * Z) :=
  v ← tree_get w (Inode.make_key ino);
  let '(mode, size, db, bc) := as_inode v in Some (mode, size, db, bc, inode_crc v).

Definition lookup_inode (w : World D) (ino : Z) : option (Z * Z * Z * Z) :=
  '(m, s, d, b, _) ← lookup_inode_full w ino; Some (m, s, d, b).

Definition lookup_dir_entry (w : World D) (parent : Z) (name : string) : option Z :=
  v ← tree_get w (Dir.make_key parent name); Some (as_dir v).1.

Fixpoint resolve_parts (w : World D) (cur : Z) (parts : list string) : option Z :=
  match parts with
  | [] => Some cur
  | p :: parts' =>
      if bool_decide (p = "") then resolve_parts w cur parts'
      else c ← lookup_dir_entry w cur p; resolve_parts w c parts'
  end.

Definition resolve_path (w : World D) (path : string) : option Z :=
  let path := trim_slashes path in
  let root := root_inode (sb (vol w)) in
  if bool_decide (path = "") then Some root else resolve_parts w root (path_parts path).

Definition dir_names (dir_ino : Z) (items : list (Key * bytes)) : list string :=
  omap (λ it, if bool_decide (object_id it.1 = dir_ino) && bool_decide (item_type it.1 = TDirEntry)
              then let name := (as_dir it.2).2 in if bool_decide (name = "") then None else Some name
              else None) items.

Definition list_dir (w : World D) (dir_ino : Z) : res (list string) :=
  let '(ok, items) := btree_scan_leaves (dev w) (start_lba (vol w)) (inode_tree_root (sb (vol w))) in
  if negb ok then Err "scan failed" else Ok (dir_names dir_ino items).

Definition extent_key (ino : Z) : Key := mkKey ino TFileExtent 0.
Definition checksum_key (ino block : Z) : Key := mkKey ino TChecksum block.

(** The extent item, or the inode's own copy of it. *)
Definition file_extent (w : World D) (ino data_block block_count : Z) : Z * Z :=
  match tree_get w (extent_key ino) with Some v => as_extent v | None => (data_block, block_count) end.

Fixpoint read_pages (w : World D) (size : Z) (blocks : list Z) (out : bytes) : res bytes :=
  match blocks with
  | [] => Ok out
  | b :: blocks' =>
      match read_block_static (start_lba (vol w)) b (dev w) with
      | None => Err "data read"
      | Some page =>
          let out' := out ++ slice 0 (Z.min (size - zlen out) 4096) page in
          if size <=? zlen out' then Ok out' else read_pages w size blocks' out'
      end
  end.

Definition extent_blocks (start count : Z) : list Z := (λ bi, u64_add start bi) <$> seqZ 0 count.

Definition read_file (w : World D) (ino : Z) : res bytes :=
  match lookup_inode_full w ino with
  | None => Err "no inode"
  | Some (mode, size, data_block, block_count, data_crc) =>
      if Z.land mode Inode.S_IFREG =? 0 then Err "not a file" else
      if (size =? 0) || (block_count =? 0) then Ok [] else
      let '(start, count) := file_extent w ino data_block block_count in
      out ← read_pages w size (extent_blocks start count) [];
      let out := slice 0 size out in
      if negb (data_crc =? 0) && (0 <? size) && negb (crc32c out =? data_crc) then Err "data crc mismatch" else Ok out
  end.

(** The streaming checksum over the pages, stopping at [size]. *)
Fixpoint crc_pages (w : World D) (size : Z) (blocks : list Z) (consumed crc : Z) : res Z :=
  match blocks with
  | [] => Ok crc
  | b :: blocks' =>
      match read_block_static (start_lba (vol w)) b (dev w) with
      | None => Err "data read"
      | Some page =>
          let n := Z.min (size - consumed) 4096 in
          let crc' := update crc (slice 0 n page) in
          if size <=? consumed + n then Ok crc' else crc_pages w size blocks' (consumed + n) crc'
      end
  end.

Definition verify_file (w : World D) (ino : Z) : res bool :=
  match lookup_inode_full w ino with
  | None => Err "no inode"
  | Some (mode, size, data_block, block_count, data_crc) =>
      if Z.land mode Inode.S_IFREG =? 0 then Err "not a file" else
      if (size =? 0) || (block_count =? 0) || (data_crc =? 0) then Ok true else
      let '(start, count) := file_extent w ino data_block block_count in
      crc ← crc_pages w size (extent_blocks start count) 0 Crc32c.new;
      Ok (finish crc =? data_crc)
  end.

Definition page_crc_ok (w : World D) (ino block : Z) (page : bytes) : bool :=
  match tree_get w (checksum_key ino block) with
  | Some v => (as_checksum v =? 0) || (crc32c page =? as_checksum v)
  | None => true
  end.

Fixpoint range_pages (w : World D) (ino start offset want first_blk : Z) (bis : list Z) (out : bytes) : res bytes :=
  match bis with
  | [] => Ok out
  | bi :: bis' =>
      match read_block_static (start_lba (vol w)) (u64_add (u64_add start first_blk) bi) (dev w) with
      | None => Err "data read"
      | Some page =>
          if negb (page_crc_ok w ino (first_blk + bi) page) then Err "block crc mismatch" else
          let abs := (first_blk + bi) * 4096 in
          let begin := if abs <? offset then offset - abs else 0 in
          let take_ := Z.min (4096 - begin) (want - zlen out) in
          let out' := out ++ slice begin take_ page in
          if want <=? zlen out' then Ok out' else range_pages w ino start offset want first_blk bis' out'
      end
  end.

Definition div_ceil (a b : Z) : Z := (a + b - 1) / b.

Definition read_range (w : World D) (ino offset len : Z) : res bytes :=
  match lookup_inode w ino with
  | None => Err "no inode"
  | Some (mode, size, data_block, block_count) =>
      if Z.land mode Inode.S_IFREG =? 0 then Err "not a file" else
      if (size =? 0) || (block_count =? 0) || (size <=? offset) then Ok [] else
      let '(start, count) := file_extent w ino data_block block_count in
      let first_blk := offset / 4096 in
      let want := Z.min (u64_sat_sub size offset) len in
      let last_blk := div_ceil (offset + want) 4096 in
      let blocks := Z.min (u64_sat_sub last_blk first_blk) count in
      out ← range_pages w ino start offset want first_blk (seqZ 0 blocks) [];
      Ok (slice 0 want out)
  end.

Definition probe_block_magic (d : D) (start block_num : Z) : bool :=
  match bd_read d (u64_add start (u64_mul block_num 8)) 512 with
  | None => false
  | Some s => bool_decide (slice 0 8 s = SUPERBLOCK_MAGIC)
  end.

Definition probe_magic (d : D) (start : Z) : bool := probe_block_magic d start 1 || probe_block_magic d start 2.

(** * Creating *)

Definition get_world : Op D (World D) := λ w, (Ok w, w).

Definition create_node (mode parent : Z) (name : string) : Op D Z :=
  begin_tx;;
  v ← get_vol;
  let ino := u64_add (allocated_inodes (sb v)) 1 in
  leaf_insert (Inode.make_key ino) (from_inode mode 0 0 0);;
  leaf_insert (Dir.make_key parent name) (from_dir ino name);;
  upd_vol (λ v, with_sb (with_allocated_inodes ino (sb v)) v);;
  ok ← commit_tx;
  if negb ok then m_err "commit" else mret ino.

Definition create_file (parent : Z) (name : string) : Op D Z :=
  w ← get_world;
  if negb (valid_name name) then m_err "bad name" else
  if bool_decide (is_Some (lookup_dir_entry w parent name)) then m_err "exists" else
  '(mode, _, _, _) ← m_lift (ok_or (lookup_inode w parent) "parent missing");
  if Z.land mode Inode.S_IFDIR =? 0 then m_err "not a dir" else
  create_node (Z.lor Inode.S_IFREG 0x1A4) parent name.

Definition create_dir (parent : Z) (name : string) : Op D Z :=
  w ← get_world;
  if negb (valid_name name) then m_err "bad name" else
  if bool_decide (is_Some (lookup_dir_entry w parent name)) then m_err "exists" else
  create_node (Z.lor Inode.S_IFDIR 0x1ED) parent name.

(** * Writing *)

(** Removing the checksum items of [ino] from one leaf. *)
Definition is_checksum_of (ino : Z) (k : Key) : bool :=
  bool_decide (object_id k = ino) && bool_decide (item_type k = TChecksum).

Fixpoint purge_leaf (fuel : nat) (ino i : Z) (removed : bool) (leaf : BTreeNode) : res (bool * BTreeNode) :=
  match fuel with
  | O => OutOfFuel
  | S fuel' =>
      if item_count leaf <=? i then Ok (removed, leaf) else
      match get_key_value leaf i with
      | Some (k, _) =>
          if is_checksum_of ino k
          then '(_, leaf') ← delete_at i leaf; purge_leaf fuel' ino i true leaf'
          else purge_leaf fuel' ino (i + 1) removed leaf
      | None => purge_leaf fuel' ino (i + 1) removed leaf
      end
  end.

(** Each turn rescans the tree and purges the leaf of the first item left. *)
Fixpoint purge_loop (fuel : nat) (ino : Z) : Op D unit :=
  match fuel with
  | O => m_lift OutOfFuel
  | S fuel' =>
      '(_, items) ← scan_items;
      match List.find (λ it, is_checksum_of ino it.1) items with
      | None => mret tt
      | Some (hint, _) =>
          leaf ← ok_or_err (cow_leaf_for_key hint) "cow leaf";
          '(removed, leaf') ← m_lift (purge_leaf (S (Z.to_nat (item_count leaf))) ino 0 false leaf);
          if negb removed then m_err "purge no item" else
          log_block (block_addr leaf') (data leaf');;
          ok ← write_node leaf';
          if negb ok then m_err "purge leaf write" else purge_loop fuel' ino
      end
  end.

(** One turn per item at most. *)
Definition purge_checksum_items (ino : Z) : Op D unit :=
  '(_, items) ← scan_items; purge_loop (S (length items)) ino.

Fixpoint reclaim_all (blocks : list Z) : Op D unit :=
  match blocks with [] => mret tt | b :: bs => reclaim_block b;; reclaim_all bs end.

(** [pull] fills the front of the buffer it is given and returns how many bytes it
    put there; here it returns those bytes and its own next state. *)
Section Pull.
Context {P : Type} (pull : P → Z → res bytes * P).

Fixpoint pull_page (fuel : nat) (want : Z) (page : bytes) (p : P) : res bytes * P :=
  match fuel with
  | O => (OutOfFuel, p)
  | S fuel' =>
      if want <=? zlen page then (Ok page, p) else
      match pull p (want - zlen page) with
      | (Ok b, p') => if zlen b =? 0 then (Err "short pull", p') else pull_page fuel' want (page ++ b) p'
      | (Err e, p') => (Err e, p')
      | (Panic, p') => (Panic, p')
      | (OutOfFuel, p') => (OutOfFuel, p')
      end
  end.

Fixpoint write_pages (blocks : list Z) (all_blocks : list Z) (left : Z) (crc : Z) (crcs : list Z) (p : P)
    : Op D (Z * list Z) :=
  match blocks with
  | [] => mret (crc, crcs)
  | b :: blocks' =>
      let want := Z.min left 4096 in
      let '(r, p') := pull_page (S (Z.to_nat want)) want [] p in
      got ← m_lift r;
      let page := got ++ replicate (Z.to_nat (4096 - want)) Byte.x00 in
      ok ← write_block_raw b page;
      if negb ok then reclaim_all all_blocks;; m_err "data write" else
      write_pages blocks' all_blocks (left - want) (update crc got) (crcs ++ [crc32c page]) p'
  end.

Fixpoint insert_checksums (ino bi : Z) (crcs : list Z) : Op D unit :=
  match crcs with
  | [] => mret tt
  | c :: crcs' => leaf_insert (checksum_key ino bi) (from_checksum c);; insert_checksums ino (bi + 1) crcs'
  end.

(** The inode and extent items of the new contents. *)
Definition update_inode (ino : Z) (new_val : bytes) (first_block block_count blocks_needed : Z) (all_blocks : list Z) : Op D unit :=
  let inode_key := Inode.make_key ino in
  leaf ← ok_or_err (cow_leaf_for_key inode_key) "cow";
  '(_, leaf) ← m_lift (delete_key inode_key leaf);
  '(_, leaf) ← m_lift (delete_key (extent_key ino) leaf);
  match insert inode_key new_val leaf with
  | (false, _) =>
      log_block (block_addr leaf) (data leaf);;
      write_node leaf;;
      leaf_insert inode_key new_val;;
      if 0 <? blocks_needed then leaf_insert (extent_key ino) (from_extent first_block block_count) else mret tt
  | (true, leaf) =>
      let leaf := if 0 <? blocks_needed then (insert (extent_key ino) (from_extent first_block block_count) leaf).2 else leaf in
      log_block (block_addr leaf) (data leaf);;
      ok ← write_node leaf;
      if negb ok then reclaim_all all_blocks;; m_err "leaf write" else mret tt
  end.

Definition write_file_stream_ex (ino total_len : Z) (page_checksums : bool) (p : P) : Op D unit :=
  w ← get_world;
  '(mode, _, old_block, old_count) ← m_lift (ok_or (lookup_inode w ino) "no inode");
  if Z.land mode Inode.S_IFREG =? 0 then m_err "not a file" else
  begin_tx;;
  let blocks_needed := if total_len =? 0 then 0 else (total_len + 4095) / 4096 in
  '(first_block, block_count) ←
    (if blocks_needed =? 0 then mret (0, 0) else ok_or_err (alloc_contiguous blocks_needed) "no space");
  let blocks := extent_blocks first_block blocks_needed in
  '(crc, crcs) ← write_pages blocks blocks total_len Crc32c.new [] p;
  update_inode ino (from_inode_crc mode total_len first_block block_count (finish crc)) first_block block_count
    blocks_needed blocks;;
  r ← m_try (purge_checksum_items ino);
  match r with
  | Err e => reclaim_all blocks;; m_err e
  | _ =>
      r ← m_try (if page_checksums then insert_checksums ino 0 crcs else mret tt);
      match r with
      | Err _ => reclaim_all blocks;; m_err "checksum insert"
      | _ =>
          ok ← commit_tx;
          if negb ok then reclaim_all blocks;; m_err "commit" else
          if (0 <? old_count) && (0 <? old_block) then reclaim_all (extent_blocks old_block old_count) else mret tt
      end
  end.

Definition write_file_stream (ino total_len : Z) (p : P) : Op D unit := write_file_stream_ex ino total_len true p.
End Pull.

(** The closure of [write_file]: the bytes from [offset] on. *)
Definition pull_slice (data : bytes) (offset : Z) (len : Z) : res bytes * Z :=
  let n := Z.min len (zlen data - offset) in (Ok (slice offset n data), offset + n).

Definition write_file (ino : Z) (data : bytes) : Op D unit := write_file_stream (pull_slice data) ino (zlen data) 0.

End Files.

End Files.
