(* ===== verification/NfsDisk.v ===== *)
(** NeuralFS blocks on a lawful disk: the eight-sector transfers of [NfsNode.v] read
    and write whole 4096-byte blocks, whichever address arithmetic they use. *)

From S2P Require Import Prelude Checksum Flash NfsNode NfsRep NfsFormat NfsVolume.
Import Crc32c Btree.

Section Disk.
Context {D : Type} `{File.DiskLaws D valid sec}.
Implicit Types d : D.

(** [n] consecutive sectors from [l]. *)
Definition run_lbas (l : Z) (n : nat) : list (option Z) := Some <$> seqZ l (Z.of_nat n).
Definition run_bytes d (l : Z) (n : nat) : bytes := concat (sec d <$> seqZ l (Z.of_nat n)).

Definition run_valid (l : Z) (n : nat) : Prop := ∀ x, l ≤ x < l + Z.of_nat n → valid x.

Lemma run_lbas_S l n : run_lbas l (S n) = Some l :: run_lbas (l + 1) n.
Proof.
  unfold run_lbas. rewrite seqZ_cons by lia. cbn [fmap list_fmap]. do 2 f_equal.
  replace (Z.pred (Z.of_nat (S n))) with (Z.of_nat n) by lia. by rewrite <-Z.add_1_r.
Qed.

Lemma run_bytes_S d l n : run_bytes d l (S n) = sec d l ++ run_bytes d (l + 1) n.
Proof.
  unfold run_bytes. rewrite seqZ_cons by lia. cbn [fmap list_fmap concat]. f_equal.
  replace (Z.pred (Z.of_nat (S n))) with (Z.of_nat n) by lia. by rewrite <-Z.add_1_r.
Qed.

Lemma zlen_run_bytes d l n : run_valid l n → zlen (run_bytes d l n) = 512 * Z.of_nat n.
Proof.
  revert l. induction n as [|n IH]; intros l Hv; [done|]. rewrite run_bytes_S, zlen_app, IH by (intros x Hx; apply Hv; lia).
  rewrite (File.sec_len d l); [lia|]. apply Hv. lia.
Qed.

Lemma read_run d l n : run_valid l n → read_sectors (run_lbas l n) d = Some (run_bytes d l n).
Proof.
  revert l. induction n as [|n IH]; intros l Hv; [done|]. rewrite run_lbas_S, run_bytes_S. cbn [read_sectors mbind option_bind].
  rewrite File.bd_read_sec by (apply Hv; lia). cbn [mbind option_bind]. rewrite IH by (intros x Hx; apply Hv; lia). done.
Qed.

Lemma write_run d l n data :
  run_valid l n → zlen data = 512 * Z.of_nat n →
  ∃ d', write_sectors (run_lbas l n) data d = (true, d') ∧
    ∀ x, sec d' x = if decide (l ≤ x < l + Z.of_nat n) then slice (512 * (x - l)) 512 data else sec d x.
Proof.
  revert d l data. induction n as [|n IH]; intros d l data Hv Hz.
  - exists d. split; [done|]. intros x. rewrite decide_False by lia. done.
  - rewrite run_lbas_S. cbn [write_sectors].
    destruct (File.bd_write_sec d l (slice 0 512 data)) as (d1 & Hw & H1); [apply Hv; lia|apply zlen_slice; lia|].
    rewrite Hw. assert (Hd : zlen (drop 512 data) = 512 * Z.of_nat n) by (unfold zlen in *; rewrite length_drop; lia).
    destruct (IH d1 (l + 1) (drop 512 data)) as (d2 & Hw2 & H2); [intros x Hx; apply Hv; lia|done|].
    exists d2. split; [done|]. intros x. rewrite H2, H1. repeat case_decide; try lia; try done.
    + unfold slice. rewrite drop_drop. do 2 f_equal. lia.
    + subst x. by rewrite Z.sub_diag.
Qed.

(** What the disk holds after writing a run, as bytes of any run. *)
Lemma run_bytes_same d d' l n :
  (∀ x, l ≤ x < l + Z.of_nat n → sec d' x = sec d x) → run_bytes d' l n = run_bytes d l n.
Proof.
  revert l. induction n as [|n IH]; intros l Hx; [done|]. rewrite !run_bytes_S, Hx by lia. f_equal. apply IH. intros x Hx'. apply Hx. lia.
Qed.

Lemma run_bytes_written d' l n data :
  zlen data = 512 * Z.of_nat n →
  (∀ x, l ≤ x < l + Z.of_nat n → sec d' x = slice (512 * (x - l)) 512 data) → run_bytes d' l n = data.
Proof.
  revert l data. induction n as [|n IH]; intros l data Hz Hx.
  - symmetry. by apply zlen_le_0; lia.
  - rewrite run_bytes_S, Hx by lia. rewrite Z.sub_diag. rewrite (IH (l + 1) (drop 512 data)).
    + unfold slice. cbn. apply (take_drop 512).
    + unfold zlen in *. rewrite length_drop. lia.
    + intros x Hx'. rewrite Hx by lia. unfold slice. rewrite drop_drop. do 2 f_equal. lia.
Qed.

(** ** Blocks of a volume *)

(** A volume of [total] blocks at sector [start], all of it valid. *)
Record region (start total : Z) : Prop := mkRegion {
  rg_start : 0 ≤ start;
  rg_end : start + 8 * total < U64_MAX;
  rg_valid : ∀ x, start ≤ x < start + 8 * total → valid x;
}.

Definition blk d (start b : Z) : bytes := run_bytes d (start + 8 * b) 8.

Section Region.
Context (start total : Z) (Hrg : region start total).

Lemma blk_valid b : 0 ≤ b < total → run_valid (start + 8 * b) 8.
Proof. intros Hb x Hx. apply (rg_valid _ _ Hrg). lia. Qed.

Lemma lbas_wrapping_run b : 0 ≤ b < total → lbas_wrapping start b = run_lbas (start + 8 * b) 8.
Proof.
  intros Hb. destruct Hrg as [H1 H2 _]. unfold U64_MAX in *. unfold lbas_wrapping, lbas_from, run_lbas.
  assert (E : u64_mul b 8 = 8 * b) by (unfold u64_mul; rewrite Z.mod_small; lia).
  rewrite E, (u64_add_small start) by lia.
  assert (E8 : ∀ l, seqZ l (Z.of_nat 8) = (λ i, l + i) <$> seqZ 0 8) by (intros l; by rewrite fmap_add_seqZ, Z.add_0_r).
  rewrite (E8 (start + 8 * b)), <-list_fmap_compose. apply list_fmap_ext. intros j i Hi. apply lookup_seqZ in Hi as [-> Hi].
  cbn. rewrite u64_add_small by lia. done.
Qed.

Lemma lbas_checked_run b : 0 ≤ b < total → lbas_checked start b = run_lbas (start + 8 * b) 8.
Proof.
  intros Hb. destruct Hrg as [H1 H2 _]. unfold U64_MAX in *. unfold lbas_checked, run_lbas.
  assert (E8 : ∀ l, seqZ l (Z.of_nat 8) = (λ i, l + i) <$> seqZ 0 8) by (intros l; by rewrite fmap_add_seqZ, Z.add_0_r).
  rewrite (E8 (start + 8 * b)), <-list_fmap_compose. apply list_fmap_ext. intros j i Hi. apply lookup_seqZ in Hi as [-> Hi].
  unfold checked_mul, checked_add, U64_MAX. rewrite (proj2 (Z.leb_le (b * 8) _)) by lia. cbn [mbind option_bind].
  rewrite (proj2 (Z.leb_le (b * 8 + _) _)) by lia. cbn [mbind option_bind].
  rewrite (proj2 (Z.leb_le _ _)) by lia. cbn. f_equal. lia.
Qed.

Lemma lbas_capped_run b : 0 ≤ b < total → Super.lbas_capped start b = run_lbas (start + 8 * b) 8.
Proof.
  intros Hb. unfold Super.lbas_capped. rewrite lbas_checked_run by done. unfold run_lbas. rewrite <-list_fmap_compose.
  apply list_fmap_ext. intros j x Hx. apply lookup_seqZ in Hx as [-> Hx]. cbn. destruct Hrg as [H1 H2 _].
  rewrite (proj2 (Z.eqb_neq _ _)) by lia. done.
Qed.

Lemma zlen_blk d b : 0 ≤ b < total → zlen (blk d start b) = 4096.
Proof. intros Hb. unfold blk. by rewrite zlen_run_bytes by by apply blk_valid. Qed.

(** The device after one block has been replaced. *)
Definition wrote (b : Z) (data : bytes) d d' : Prop :=
  blk d' start b = data ∧ ∀ x, ¬ start + 8 * b ≤ x < start + 8 * b + 8 → sec d' x = sec d x.

Lemma wrote_other b data d d' b' : wrote b data d d' → b' ≠ b → blk d' start b' = blk d start b'.
Proof. intros [_ Hx] Hb. apply run_bytes_same. intros x Hx'. apply Hx. lia. Qed.

Lemma write_blk d b data :
  0 ≤ b < total → zlen data = 4096 →
  ∃ d', write_sectors (run_lbas (start + 8 * b) 8) data d = (true, d') ∧ wrote b data d d'.
Proof.
  intros Hb Hz. destruct (write_run d (start + 8 * b) 8 data) as (d' & Hw & Hs); [by apply blk_valid|done|].
  exists d'. split; [done|]. split.
  - apply run_bytes_written; [done|]. intros x Hx. by rewrite Hs, decide_True.
  - intros x Hx. rewrite Hs, decide_False by lia. done.
Qed.

Lemma read_wrapping d b : 0 ≤ b < total → Volume.read_block_static start b d = Some (blk d start b).
Proof. intros Hb. unfold Volume.read_block_static. rewrite lbas_wrapping_run by done. by apply read_run, blk_valid. Qed.

Lemma write_static d b data :
  0 ≤ b < total → zlen data = 4096 → ∃ d', Volume.write_block_static start b data d = (true, d') ∧ wrote b data d d'.
Proof. intros Hb Hz. unfold Volume.write_block_static. rewrite lbas_wrapping_run by done. by apply write_blk. Qed.

(** ** Nodes *)

Lemma node_read d b : 0 ≤ b < total →
  Btree.read d start b = if verify_block (blk d start b) then Some (mkNode b (blk d start b)) else None.
Proof.
  intros Hb. unfold Btree.read. rewrite lbas_checked_run by done. by rewrite read_run by by apply blk_valid.
Qed.

Lemma stamp_len n : zlen (data n) = 4096 → zlen (data (stamp n)) = 4096.
Proof.
  intros Hz. unfold stamp, write_checksum, patch, set_data; cbn [data].
  assert (Hm : zlen (splice 8 (to_le_bytes 8 (block_addr n)) (data n)) = 4096) by (rewrite zlen_splice; autorewrite with zlen; lia).
  rewrite zlen_splice; autorewrite with zlen; lia.
Qed.

Lemma stamp_verifies n : zlen (data n) = 4096 → verify_block (data (stamp n)) = true.
Proof.
  intros Hz. unfold stamp, write_checksum, compute_checksum. set (m := patch 8 _ n).
  assert (Hm : zlen (data m) = 4096).
  { unfold m, patch, set_data; cbn [data]. rewrite zlen_splice; autorewrite with zlen; lia. }
  unfold verify_block, crc32c_block, patch, set_data; cbn [data]. set (c := crc32c (slice 4 4092 (data m))).
  assert (Hl : zlen (to_le_bytes 4 c) = 4) by by autorewrite with zlen.
  rewrite (slice_splice_after 0 _ (data m) 4 4092) by lia. rewrite <-Hl at 1. rewrite slice_splice_same by lia.
  rewrite from_to_le_bytes; [apply Z.eqb_refl|]. apply crc32c_u32.
Qed.

(** What [write] stores is the node up to its checksum and address fields. *)
Lemma stamp_frame its n : node_rep its n → node_rep its (stamp n).
Proof.
  intros Hr. unfold stamp, write_checksum. apply rep_patch_head; [|lia|autorewrite with zlen; lia].
  apply rep_patch_mid; [done|lia|autorewrite with zlen; lia].
Qed.

Lemma level_stamp its n : node_rep its n → level (stamp n) = level n.
Proof.
  intros Hr. unfold stamp, write_checksum. set (m := patch 8 _ n).
  assert (Hm : node_rep its m) by (apply rep_patch_mid; [done|lia|autorewrite with zlen; lia]).
  transitivity (level m); [|unfold m; by eapply level_patch; [exact Hr|]].
  unfold level at 1. unfold patch, set_data; cbn [data]. pose proof (rep_len _ _ Hm).
  unfold level. by f_equal.
Qed.

Lemma leftmost_stamp its n : node_rep its n → leftmost_child (stamp n) = leftmost_child n.
Proof.
  intros Hr. unfold stamp, write_checksum.
  rewrite (leftmost_patch its) by (try apply rep_patch_mid; autorewrite with zlen; done || lia).
  by rewrite (leftmost_patch its) by (autorewrite with zlen; done || lia).
Qed.

Lemma node_write d n : 0 ≤ block_addr n < total → zlen (data n) = 4096 →
  ∃ d', Btree.write start n d = (true, stamp n, d') ∧ wrote (block_addr n) (data (stamp n)) d d'.
Proof.
  intros Hb Hz. unfold Btree.write. rewrite lbas_wrapping_run by done.
  destruct (write_blk d (block_addr n) (data (stamp n))) as (d' & Hw & Hd); [done|by apply stamp_len|].
  exists d'. by rewrite Hw.
Qed.
End Region.
End Disk.
