(* ===== verification/NfsSuper.v ===== *)
(** Round trips of the NeuralFS formats: leaf values, inode records, and the
    superblock, which survives damage to its primary copy. *)

From S2P Require Import Prelude Checksum Flash NfsNode NfsRep NfsFormat NfsVolume NfsDisk.
Import Crc32c Btree.

Lemma put_fields_snoc {A} fs o (d : list A) b : splice o d (put_fields fs b) = put_fields (fs ++ [(o, d)]) b.
Proof. unfold put_fields. by rewrite fold_left_app. Qed.

Lemma zlen_zero_value : zlen zero_value = 31.
Proof. done. Qed.
#[global] Hint Rewrite zlen_zero_value : fields.

(** * Leaf values *)

Lemma as_child_ptr_from c : 0 ≤ c < 2 ^ 64 → as_child_ptr (from_child_ptr c) = c.
Proof. intros Hc. unfold as_child_ptr, from_child_ptr. field_get. by apply from_to_le_bytes. Qed.

Lemma zlen_from_child_ptr c : zlen (from_child_ptr c) = 31.
Proof. unfold from_child_ptr. rewrite (zlen_put_fields 0); [done|lia|fields_solve]. Qed.

Lemma zlen_from_inode m s d b : zlen (from_inode m s d b) = 31.
Proof. unfold from_inode. rewrite (zlen_put_fields 0); [done|lia|fields_solve]. Qed.

Lemma zlen_from_inode_crc m s d b c : zlen (from_inode_crc m s d b c) = 31.
Proof.
  unfold from_inode_crc, from_inode. rewrite put_fields_snoc, (zlen_put_fields 0); [done|lia|]. cbn [app]. fields_solve.
Qed.

Lemma zlen_from_extent s c : zlen (from_extent s c) = 31.
Proof. unfold from_extent. rewrite (zlen_put_fields 0); [done|lia|fields_solve]. Qed.

Lemma zlen_from_checksum c : zlen (from_checksum c) = 31.
Proof. unfold from_checksum. rewrite (zlen_put_fields 0); [done|lia|fields_solve]. Qed.

Lemma as_extent_from s c : 0 ≤ s < 2 ^ 64 → 0 ≤ c < 2 ^ 64 → as_extent (from_extent s c) = (s, c).
Proof. intros. unfold as_extent, from_extent. do 2 field_get. by rewrite !from_to_le_bytes. Qed.

Lemma as_checksum_from c : 0 ≤ c < 2 ^ 32 → as_checksum (from_checksum c) = c.
Proof. intros. unfold as_checksum, from_checksum. field_get. by apply from_to_le_bytes. Qed.

Lemma inode_value_roundtrip m s d b c :
  0 ≤ m < 2 ^ 16 → 0 ≤ s < 2 ^ 64 → 0 ≤ d < 2 ^ 64 → 0 ≤ b < 2 ^ 32 → 0 ≤ c < 2 ^ 32 →
  as_inode (from_inode_crc m s d b c) = (m, s, d, b) ∧ inode_crc (from_inode_crc m s d b c) = c.
Proof.
  intros. unfold as_inode, inode_crc, from_inode_crc, from_inode. rewrite put_fields_snoc. cbn [app].
  do 5 field_get. by rewrite !from_to_le_bytes.
Qed.

Lemma as_inode_from m s d b :
  0 ≤ m < 2 ^ 16 → 0 ≤ s < 2 ^ 64 → 0 ≤ d < 2 ^ 64 → 0 ≤ b < 2 ^ 32 → as_inode (from_inode m s d b) = (m, s, d, b).
Proof. intros. unfold as_inode, from_inode. do 4 field_get. by rewrite !from_to_le_bytes. Qed.

Lemma dir_fields ino name :
  zlen (as_bytes name) ≤ 22 →
  from_dir ino name = put_fields [(0, to_le_bytes 8 ino); (8, to_le_bytes 1 (zlen (as_bytes name))); (9, as_bytes name)] zero_value.
Proof.
  intros Hn. unfold from_dir. rewrite Z.min_l by done. by rewrite slice_full.
Qed.

Lemma zlen_from_dir ino name : zlen (from_dir ino name) = 31.
Proof.
  unfold from_dir. pose proof (zlen_nonneg (as_bytes name)). rewrite (zlen_put_fields 0); [done|lia|].
  cbn [fields_in]. rewrite !zlen_to_le_bytes, zlen_slice, zlen_zero_value by lia. lia.
Qed.

Lemma as_dir_from ino name :
  0 ≤ ino < 2 ^ 64 → str_ok name → zlen (as_bytes name) ≤ 22 → as_dir (from_dir ino name) = (ino, name).
Proof.
  intros Hi Hs Hn. pose proof (zlen_nonneg (as_bytes name)). rewrite dir_fields by done. set (fs := [_; _; _]).
  assert (Hf : fields_in 0 (zlen zero_value) fs).
  { unfold fs. cbn [fields_in]. rewrite !zlen_to_le_bytes, zlen_zero_value. lia. }
  unfold as_dir. rewrite (put_fields_get 0 _ _ 8 (to_le_bytes 1 (zlen (as_bytes name)))); [|lia|done|set_solver|by rewrite zlen_to_le_bytes].
  rewrite from_to_le_bytes, Z.min_l by lia.
  rewrite (put_fields_get 0 _ _ 9 (as_bytes name)); [|lia|done|set_solver|done].
  rewrite (put_fields_get 0 _ _ 0 (to_le_bytes 8 ino)); [|lia|done|set_solver|by rewrite zlen_to_le_bytes].
  by rewrite from_to_le_bytes, from_utf8_as_bytes.
Qed.

(** * Inode records *)

Definition inode_ok (i : Inode.Inode) : Prop :=
  0 ≤ Inode.mode i < 2 ^ 16 ∧ 0 ≤ Inode.owner i < 2 ^ 16 ∧ 0 ≤ Inode.size i < 2 ^ 64 ∧ 0 ≤ Inode.ctime i < 2 ^ 64 ∧
  0 ≤ Inode.mtime i < 2 ^ 64 ∧ 0 ≤ Inode.block_count i < 2 ^ 64 ∧ 0 ≤ Inode.link_count i < 2 ^ 32 ∧ 0 ≤ Inode.flags i < 2 ^ 32.

Lemma inode_record_roundtrip i : inode_ok i → Inode.from_bytes (Inode.to_bytes i) = Some i.
Proof.
  intros (H1 & H2 & H3 & H4 & H5 & H6 & H7 & H8). unfold Inode.to_bytes. set (fs := [_; _; _; _; _; _; _; _]).
  set (b := put_fields fs _). set (c := crc32c _).
  assert (Hb : zlen b = 128).
  { unfold b. rewrite (zlen_put_fields 0); [done|lia|unfold fs; fields_solve]. }
  assert (Hc : zlen (to_le_bytes 4 c) = 4) by by rewrite zlen_to_le_bytes.
  unfold Inode.from_bytes. rewrite zlen_splice, Hb by lia. change (128 <? 48) with false. cbv iota.
  assert (H44 : slice 44 4 (splice 44 (to_le_bytes 4 c) b) = to_le_bytes 4 c) by (rewrite <-Hc at 1; apply slice_splice_same; lia).
  rewrite H44, from_to_le_bytes by apply crc32c_u32. rewrite (slice_splice_before 44) by lia.
  change (crc32c (slice 0 44 b)) with c. rewrite Z.eqb_refl. cbn [negb].
  rewrite !(slice_splice_before 44) by lia. unfold b, fs. do 8 field_get. rewrite !from_to_le_bytes by done. by destruct i.
Qed.

(** What is written reads back: the leaf values (an inode with its data checksum, an
    extent, a page checksum, a child pointer, a directory entry with any name of at
    most 22 bytes) and the inode records with their CRC. *)
Theorem leaf_values_roundtrip m s d b c start count child ino name i :
  0 ≤ m < 2 ^ 16 → 0 ≤ s < 2 ^ 64 → 0 ≤ d < 2 ^ 64 → 0 ≤ b < 2 ^ 32 → 0 ≤ c < 2 ^ 32 →
  0 ≤ start < 2 ^ 64 → 0 ≤ count < 2 ^ 64 → 0 ≤ child < 2 ^ 64 → 0 ≤ ino < 2 ^ 64 →
  str_ok name → zlen (as_bytes name) ≤ 22 → inode_ok i →
  let v := from_inode_crc m s d b c in
  as_inode v = (m, s, d, b) ∧ inode_crc v = c ∧ as_extent (from_extent start count) = (start, count) ∧
  as_checksum (from_checksum c) = c ∧ as_child_ptr (from_child_ptr child) = child ∧ as_dir (from_dir ino name) = (ino, name) ∧
  Inode.from_bytes (Inode.to_bytes i) = Some i.
Proof.
  intros Hm Hs Hd Hb Hc **. destruct (inode_value_roundtrip m s d b c Hm Hs Hd Hb Hc) as [Hv Hcrc].
  split_and!; [done..|by apply as_extent_from|by apply as_checksum_from|by apply as_child_ptr_from|by apply as_dir_from|by apply inode_record_roundtrip].
Qed.

Lemma leaf_values_roundtrip_witness :
  as_dir (from_dir 7 "boot.cfg") = (7, "boot.cfg") ∧ as_inode (from_inode_crc 0x81A4 5 40 1 77) = (0x81A4, 5, 40, 1) ∧
  Inode.from_bytes (Inode.to_bytes Inode.new_dir) = Some Inode.new_dir.
Proof.
  destruct (leaf_values_roundtrip 0x81A4 5 40 1 77 40 1 12 7 "boot.cfg" Inode.new_dir) as (Hi & _ & _ & _ & _ & Hd & Hr);
    [lia..|by vm_compute|by vm_compute|by vm_compute|]. exact (conj Hd (conj Hi Hr)).
Defined.

(** * Superblock *)

Section Superblock.
Import Super.

Definition sb_ok (s : Superblock) : Prop :=
  magic s = SUPERBLOCK_MAGIC ∧ label s = [0; 0; 0; 0] ∧ 0 ≤ version s < 2 ^ 32 ∧
  Forall (λ x, 0 ≤ x < 2 ^ 64)
    [total_blocks s; free_blocks s; allocated_inodes s; last_tx_id s; root_inode s; inode_tree_root s; free_extent_root s;
     checksum_tree_root s; journal_start s; journal_blocks s; (uuid s).1; (uuid s).2; next_cow_block s].

Lemma zlen_sb_magic : zlen SUPERBLOCK_MAGIC = 8.
Proof. done. Qed.
#[local] Hint Rewrite zlen_sb_magic : fields.

(** The block without its CRC. *)
Definition sb_base (s : Superblock) : bytes := put_fields (sb_fields s) (replicate 4096 Byte.x00).
Definition sb_crc (s : Superblock) : Z := crc32c (slice 4 4092 (sb_base s)).

Lemma encode_eq s : encode_block s = splice 12 (to_le_bytes 4 (sb_crc s)) (sb_base s).
Proof. unfold encode_block. reflexivity. Qed.

Lemma zlen_sb_base s : zlen (sb_base s) = 4096.
Proof. unfold sb_base. rewrite (zlen_put_fields 0); [done|lia|]. unfold sb_fields. fields_solve. Qed.

Lemma zlen_encode s : zlen (encode_block s) = 4096.
Proof. rewrite encode_eq, zlen_splice, zlen_sb_base; rewrite ?zlen_to_le_bytes, ?zlen_sb_base; lia. Qed.

Lemma splice_back {A} o n (d b : list A) : 0 ≤ o → zlen d = n → o + n ≤ zlen b → splice o (slice o n b) (splice o d b) = b.
Proof.
  intros Ho Hd Hb. pose proof (zlen_nonneg d). assert (Hs : zlen (slice o n b) = n) by (apply zlen_slice; lia).
  apply list_eq. intros j. rewrite lookup_splice by (rewrite zlen_splice; lia). rewrite lookup_splice by lia.
  rewrite lookup_slice. unfold zlen in *. repeat case_decide; try lia; try done. f_equal. lia.
Qed.

Lemma sb_base_zero s : slice 12 4 (sb_base s) = to_le_bytes 4 0.
Proof. unfold sb_base, sb_fields. by field_get. Qed.

Lemma encode_cleared s : splice 12 (to_le_bytes 4 0) (encode_block s) = sb_base s.
Proof.
  rewrite encode_eq, <-sb_base_zero with (s := s). apply splice_back; [lia|by rewrite zlen_to_le_bytes|rewrite zlen_sb_base; lia].
Qed.

Lemma encode_crc s : slice 12 4 (encode_block s) = to_le_bytes 4 (sb_crc s).
Proof.
  rewrite encode_eq. assert (Hc : zlen (to_le_bytes 4 (sb_crc s)) = 4) by by rewrite zlen_to_le_bytes.
  rewrite <-Hc at 1. apply slice_splice_same; rewrite ?zlen_sb_base; lia.
Qed.

Lemma encode_magic s : slice 0 8 (encode_block s) = SUPERBLOCK_MAGIC.
Proof.
  rewrite encode_eq, slice_splice_before by (rewrite ?zlen_sb_base; lia). unfold sb_base, sb_fields.
  rewrite (put_fields_get 0 _ _ 0 SUPERBLOCK_MAGIC); [done|lia|fields_solve|apply list_elem_of_here|done].
Qed.

Lemma check_encoded s : check_block (encode_block s) = Some (sb_base s).
Proof.
  unfold check_block. rewrite encode_magic, bool_decide_eq_true_2 by done. cbn [negb].
  rewrite encode_crc, encode_cleared, from_to_le_bytes by apply crc32c_u32. unfold sb_crc. by rewrite Z.eqb_refl.
Qed.

Lemma decode_sb_base s : sb_ok s → decode_block (sb_base s) = s.
Proof.
  intros (Hm & Hl & Hv & Hf). rewrite !Forall_cons in Hf. destruct_and! Hf.
  unfold decode_block, sb_base, sb_fields. do 14 field_get. rewrite !from_to_le_bytes by done.
  destruct s as [? ? ? ? ? ? ? ? ? ? ? ? [? ?] ? ?]. cbn in *. by subst.
Qed.

(** ** Damage *)

#[local] Opaque sb_base encode_block.

Lemma slice_insert_in (i : nat) (x : Byte.byte) o n (b : bytes) :
  o ≤ Z.of_nat i < o + n → 0 ≤ o → (i < length b)%nat →
  slice o n (<[i := x]> b) !! (i - Z.to_nat o)%nat = Some x.
Proof.
  intros Hi Ho Hl. rewrite lookup_slice, decide_True by lia.
  replace (Z.to_nat o + (i - Z.to_nat o))%nat with i by lia. by rewrite list_lookup_insert_eq.
Qed.

Lemma slice_insert_out (i : nat) (x : Byte.byte) o n (b : bytes) :
  0 ≤ o → ¬ o ≤ Z.of_nat i < o + n → slice o n (<[i := x]> b) = slice o n b.
Proof.
  intros Ho Hi. apply list_eq. intros j. rewrite !lookup_slice. case_decide; [|done].
  rewrite list_lookup_insert_ne; [done|lia].
Qed.

Lemma crc_slice_detects (b : bytes) (i : nat) a x o n :
  0 ≤ o → 0 ≤ n → o + n ≤ zlen b → b !! i = Some a → a ≠ x → o ≤ Z.of_nat i < o + n →
  crc32c (slice o n (<[i := x]> b)) ≠ crc32c (slice o n b).
Proof.
  intros Ho Hn Hb Ha Hne Hi Hc. set (j := (i - Z.to_nat o)%nat).
  assert (Hs : slice o n (<[i := x]> b) = <[j := x]> (slice o n b)).
  { apply lookup_lt_Some in Ha as Hl. apply list_eq. intros k. rewrite lookup_slice. destruct (decide (k = j)) as [->|].
    - unfold j. rewrite decide_True by lia. replace (Z.to_nat o + (i - Z.to_nat o))%nat with i by lia.
      rewrite list_lookup_insert_eq by done. rewrite list_lookup_insert_eq; [done|]. rewrite length_slice by done. lia.
    - rewrite (list_lookup_insert_ne (slice o n b)) by done. rewrite lookup_slice. case_decide; [|done].
      rewrite list_lookup_insert_ne; [done|]. unfold j in *. lia. }
  assert (Hj : slice o n b !! j = Some a).
  { rewrite lookup_slice. unfold j. rewrite decide_True by lia. by replace (Z.to_nat o + (i - Z.to_nat o))%nat with i by lia. }
  rewrite Hs in Hc. rewrite <-(take_drop_middle (slice o n b) j a Hj) in Hc at 2.
  rewrite insert_take_drop in Hc by (by apply lookup_lt_Some in Hj). by apply crc32c_one_byte in Hc.
Qed.

Lemma damaged_rejected s (i : nat) a x :
  encode_block s !! i = Some a → a ≠ x → check_block (<[i := x]> (encode_block s)) = None.
Proof.
  intros Ha Hne. apply lookup_lt_Some in Ha as Hl. set (e := encode_block s) in *. pose proof (zlen_encode s) as Hz. fold e in Hz.
  assert (Hiz : Z.of_nat i < 4096) by (unfold zlen in Hz; lia).
  unfold check_block. destruct (decide (Z.of_nat i < 8)) as [H8|H8].
  { rewrite bool_decide_eq_false_2; [done|]. rewrite <-(encode_magic s). fold e. intros Hs.
    apply (f_equal (.!! (i - Z.to_nat 0)%nat)) in Hs. rewrite slice_insert_in, lookup_slice, decide_True in Hs by lia.
    replace (Z.to_nat 0 + (i - Z.to_nat 0))%nat with i in Hs by lia. congruence. }
  rewrite (slice_insert_out i x 0 8) by lia. rewrite bool_decide_eq_true_2 by apply encode_magic. cbn [negb].
  destruct (decide (12 ≤ Z.of_nat i < 16)) as [H12|H12].
  - assert (Hb : splice 12 (to_le_bytes 4 0) (<[i:=x]> e) = sb_base s).
    { rewrite <-encode_cleared. fold e. apply list_eq. intros j.
      rewrite !lookup_splice by (unfold zlen in *; rewrite ?length_insert; lia).
      assert (Hlen : length (to_le_bytes 4 0) = 4%nat) by done. rewrite Hlen. repeat case_decide; try done.
      - rewrite list_lookup_insert_ne; [done|lia].
      - rewrite list_lookup_insert_ne; [done|lia]. }
    rewrite Hb. fold (sb_crc s). rewrite (proj2 (Z.eqb_neq _ _)); [done|]. intros Hc.
    assert (Hs : slice 12 4 (<[i:=x]> e) = slice 12 4 e).
    { apply le_combine_inj_length.
      - rewrite Hc. unfold e. rewrite encode_crc. by rewrite from_to_le_bytes by apply crc32c_u32.
      - rewrite !length_slice; try lia. unfold zlen in *. rewrite length_insert. lia. }
    apply (f_equal (.!! (i - Z.to_nat 12)%nat)) in Hs. rewrite slice_insert_in, lookup_slice, decide_True in Hs by lia.
    replace (Z.to_nat 12 + (i - Z.to_nat 12))%nat with i in Hs by lia. congruence.
  - rewrite slice_insert_out by lia. unfold e at 1. rewrite encode_crc, from_to_le_bytes by apply crc32c_u32.
    assert (Hb : splice 12 (to_le_bytes 4 0) (<[i:=x]> e) = <[i:=x]> (sb_base s)).
    { rewrite <-encode_cleared. fold e. apply list_eq. intros j. assert (Hlen : length (to_le_bytes 4 0) = 4%nat) by done.
      rewrite lookup_splice by (unfold zlen in *; rewrite ?length_insert; lia). destruct (decide (j = i)) as [->|].
      - rewrite !list_lookup_insert_eq; [repeat case_decide; try done; lia| |done].
        assert (zlen (splice 12 (to_le_bytes 4 0) e) = 4096) by (rewrite zlen_splice; rewrite ?zlen_to_le_bytes; lia). unfold zlen in *. lia.
      - rewrite !list_lookup_insert_ne by done. rewrite lookup_splice by lia. done. }
    rewrite Hb. rewrite (proj2 (Z.eqb_neq _ _)); [done|]. intros Hc. symmetry in Hc. revert Hc. unfold sb_crc.
    assert (Hab : sb_base s !! i = Some a).
    { rewrite <-encode_cleared. fold e. rewrite lookup_splice by lia.
      assert (Hlen : length (to_le_bytes 4 0) = 4%nat) by done. repeat case_decide; try done; lia. }
    apply (crc_slice_detects _ i a x); rewrite ?zlen_sb_base; done || lia.
Qed.
End Superblock.

Section SuperDevice.
Context {D : Type} `{File.DiskLaws D valid sec}.
Context (start total : Z) (Hrg : region (valid := valid) start total).
Local Abbreviation blk := (blk (sec := sec)).
Local Abbreviation wrote := (wrote (sec := sec) start).

Lemma super_read_block (d : D) b : 0 ≤ b < total → Super.read_block d start b = Super.check_block (blk d start b).
Proof.
  intros Hb. unfold Super.read_block. rewrite (lbas_checked_run start total Hrg) by done.
  by rewrite (read_run d) by by eapply blk_valid.
Qed.

Lemma super_write (d : D) s :
  3 ≤ total → ∃ d1, Super.write start s d = (true, d1) ∧ blk d1 start 1 = Super.encode_block s ∧
    blk d1 start 2 = Super.encode_block s ∧ (∀ x, ¬ start + 8 ≤ x < start + 24 → sec d1 x = sec d x).
Proof.
  intros Ht. unfold Super.write, Super.write_block. rewrite !(lbas_capped_run start total Hrg) by lia.
  destruct (write_blk start total Hrg d 1 (Super.encode_block s)) as (d1 & Hw1 & H1); [lia|apply zlen_encode|].
  rewrite Hw1. destruct (write_blk start total Hrg d1 2 (Super.encode_block s)) as (d2 & Hw2 & H2); [lia|apply zlen_encode|].
  exists d2. split; [done|]. split; [|split; [apply H2|]].
  - rewrite (wrote_other start _ _ _ _ 1 H2) by lia. apply H1.
  - intros x Hx. rewrite (proj2 H2), (proj2 H1) by lia. done.
Qed.

Lemma super_read_ok (d : D) s b :
  sb_ok s → 3 ≤ total → blk d start 2 = Super.encode_block s → Super.check_block (blk d start 1) = b →
  b = None ∨ b = Some (sb_base s) → Super.read d start = Some s.
Proof.
  intros Hs Ht H2 H1 Hb. unfold Super.read. rewrite !super_read_block by lia. rewrite H1, H2, check_encoded.
  destruct Hb as [->| ->]; cbn [mbind option_bind]; by rewrite decode_sb_base.
Qed.
End SuperDevice.

(** C16: The superblock round trip survives damage. On a working disk, writing a
    superblock and reading it back gives the same superblock, also after any one byte
    of the primary copy has been changed (the CRC or the magic reports it and the
    backup is used), and whatever happens to the backup while the primary is intact. *)
Theorem superblock_survives {D} `{File.DiskLaws D valid sec} start total (d : D) s :
  region (valid := valid) start total → 3 ≤ total → sb_ok s →
  ∃ d1, Super.write start s d = (true, d1) ∧ Super.read d1 start = Some s ∧
    (∀ d2 i x, wrote (sec := sec) start 1 (<[i := x]> (Super.encode_block s)) d1 d2 → Super.read d2 start = Some s) ∧
    (∀ d2 b, wrote (sec := sec) start 2 b d1 d2 → Super.read d2 start = Some s).
Proof.
  intros Hrg Ht Hs. destruct (super_write start total Hrg d s Ht) as (d1 & Hw & H1 & H2 & _). exists d1.
  split; [done|]. split_and!.
  - eapply super_read_ok; [done..|]. right. by rewrite H1, check_encoded.
  - intros d2 i x Hd. eapply (super_read_ok start total Hrg d2); [done|done| |done|].
    { by rewrite (wrote_other start _ _ _ _ 2 Hd) by lia. }
    rewrite (proj1 Hd). destruct (Super.encode_block s !! i) as [a|] eqn:Ha.
    + destruct (decide (a = x)) as [->|Hne].
      * right. by rewrite list_insert_id, check_encoded.
      * left. by eapply damaged_rejected.
    + right. rewrite list_insert_ge, check_encoded; [done|]. by apply lookup_ge_None.
  - intros d2 b Hd. unfold Super.read. rewrite !(super_read_block start total Hrg) by lia.
    rewrite (wrote_other start _ _ _ _ 1 Hd), H1, check_encoded by lia. cbn [mbind option_bind]. by rewrite decode_sb_base.
Qed.

Definition demo_sb : Super.Superblock := Volume.format_sb 128 8 11 12.

Lemma superblock_survives_witness :
  ∃ d1 : gmap Z bytes, Super.write 0 demo_sb ∅ = (true, d1) ∧ Super.read d1 0 = Some demo_sb ∧
    ∃ d2, wrote (sec := mem_sec) 0 1 (<[70%nat := Byte.x07]> (Super.encode_block demo_sb)) d1 d2 ∧ Super.read d2 0 = Some demo_sb.
Proof.
  assert (Hrg : region (valid := λ _ : Z, True) 0 128) by (split; [lia|done|done]).
  assert (Hs : sb_ok demo_sb).
  { unfold sb_ok. rewrite !Forall_cons, Forall_nil. cbn. split_and!; done || lia. }
  destruct (superblock_survives 0 128 ∅ demo_sb Hrg ltac:(lia) Hs) as (d1 & Hw & Hr & Hd & _).
  exists d1. split; [exact Hw|]. split; [exact Hr|].
  destruct (write_blk 0 128 Hrg d1 1 (<[70%nat := Byte.x07]> (Super.encode_block demo_sb))) as (d2 & _ & H2); [lia|by vm_compute|].
  exists d2. split; [exact H2|]. exact (Hd d2 70%nat Byte.x07 H2).
Defined.
