(* ===== verification/NfsJournal.v ===== *)
(** The NeuralFS journal: what [commit] leaves on the disk and what [recover] makes
    of it; and the free list's round trip. *)

From S2P Require Import Prelude Checksum Flash NfsNode NfsRep NfsFormat NfsVolume NfsDisk NfsSuper.
Import Crc32c Btree Super Journal.

(** * The header *)

Lemma zlen_put_addrs i addrs h :
  0 ≤ i → CRC_OFFSET + (i + zlen addrs) * 8 ≤ zlen h → zlen (put_addrs i addrs h) = zlen h.
Proof.
  unfold CRC_OFFSET. revert i h. induction addrs as [|a addrs IH]; intros i h Hi Hz; [done|]. cbn [put_addrs].
  rewrite zlen_cons in Hz. pose proof (zlen_nonneg addrs).
  assert (Hs : zlen (splice (CRC_OFFSET + i * 8) (to_le_bytes 8 a) h) = zlen h).
  { unfold CRC_OFFSET. apply zlen_splice; rewrite ?zlen_to_le_bytes; lia. }
  rewrite IH; [done|lia|rewrite Hs; lia].
Qed.

Lemma put_addrs_before i addrs h p n :
  0 ≤ i → CRC_OFFSET + (i + zlen addrs) * 8 ≤ zlen h → 0 ≤ p → 0 ≤ n → p + n ≤ CRC_OFFSET + i * 8 →
  slice p n (put_addrs i addrs h) = slice p n h.
Proof.
  unfold CRC_OFFSET. revert i h. induction addrs as [|a addrs IH]; intros i h Hi Hz Hp Hn Hpn; [done|]. cbn [put_addrs].
  rewrite zlen_cons in Hz. pose proof (zlen_nonneg addrs).
  assert (Hs : zlen (splice (CRC_OFFSET + i * 8) (to_le_bytes 8 a) h) = zlen h).
  { unfold CRC_OFFSET. apply zlen_splice; rewrite ?zlen_to_le_bytes; lia. }
  rewrite IH by (rewrite ?Hs; lia). unfold CRC_OFFSET. apply slice_splice_before; lia.
Qed.

Lemma zlen_journal_magic : zlen JOURNAL_MAGIC = 8.
Proof. done. Qed.
#[local] Hint Rewrite zlen_journal_magic : fields.

(** A journal that fits its header sector. *)
Definition fits (j : Journal) : Prop :=
  1 ≤ zlen (dirty_blocks j) ≤ 61 ∧ 0 ≤ tx_id j < 2 ^ 64 ∧ Forall (λ b, zlen b.2 = 4096) (dirty_blocks j).

Definition header_crc (j : Journal) : Z := crc32c (slice 0 (CRC_OFFSET + zlen (dirty_blocks j) * 8) (header0 j)).

Section Header.
Context (j : Journal) (Hj : fits j).
Local Abbreviation count := (zlen (dirty_blocks j)).
Local Abbreviation base := (put_fields [(0, JOURNAL_MAGIC); (8, to_le_bytes 8 (tx_id j)); (16, to_le_bytes 4 count)]
  (replicate 512 Byte.x00)).

Lemma zlen_header_base : zlen base = 512.
Proof. rewrite (zlen_put_fields 0); [done|lia|fields_solve]. Qed.

Lemma header0_before p n : 0 ≤ p → 0 ≤ n → p + n ≤ 24 → slice p n (header0 j) = slice p n base.
Proof.
  destruct Hj as [Hc _]. intros Hp Hn Hpn. apply put_addrs_before; rewrite ?zlen_header_base; unfold CRC_OFFSET; try lia.
  unfold zlen in *. rewrite length_fmap. lia.
Qed.

Lemma zlen_header0 : zlen (header0 j) = 512.
Proof.
  destruct Hj as [Hc _]. unfold header0. rewrite zlen_put_addrs; rewrite ?zlen_header_base; [done|lia|].
  unfold CRC_OFFSET, zlen in *. rewrite length_fmap. lia.
Qed.

Lemma header0_gap : slice 20 4 (header0 j) = replicate 4 Byte.x00.
Proof.
  rewrite header0_before by lia. unfold put_fields. cbn [fold_left fst snd].
  rewrite slice_splice_after; [|lia|rewrite zlen_to_le_bytes; lia|].
  - rewrite slice_splice_after; [|lia|rewrite zlen_to_le_bytes; lia|rewrite zlen_to_le_bytes; done].
    rewrite slice_splice_after; [done|lia|by rewrite zlen_journal_magic|done].
  - rewrite zlen_to_le_bytes. rewrite zlen_splice; [done|lia|]. rewrite zlen_to_le_bytes. done.
Qed.

Lemma zlen_jheader : zlen (header j) = 512.
Proof.
  unfold header. rewrite zlen_splice; rewrite ?zlen_header0, ?zlen_to_le_bytes; lia.
Qed.

Lemma header_before p n : 0 ≤ p → 0 ≤ n → p + n ≤ 20 → slice p n (header j) = slice p n base.
Proof.
  intros Hp Hn Hpn. unfold header. rewrite slice_splice_before by (rewrite ?zlen_header0; lia). apply header0_before; lia.
Qed.

Lemma header_magic : slice 0 8 (header j) = JOURNAL_MAGIC.
Proof.
  rewrite header_before by lia. rewrite (put_fields_get 0 _ _ 0 JOURNAL_MAGIC); [done|lia|fields_solve|apply list_elem_of_here|done].
Qed.

Lemma header_tx : from_le_bytes (slice 8 8 (header j)) = tx_id j.
Proof. rewrite header_before by lia. field_get. apply from_to_le_bytes, Hj. Qed.

Lemma header_count : from_le_bytes (slice 16 4 (header j)) = count.
Proof. destruct Hj as [Hc _]. rewrite header_before by lia. field_get. apply from_to_le_bytes. lia. Qed.

Lemma header_stored : slice 20 4 (header j) = to_le_bytes 4 (header_crc j).
Proof.
  unfold header, header_crc. set (c := crc32c _). assert (Hc : zlen (to_le_bytes 4 c) = 4) by by rewrite zlen_to_le_bytes.
  rewrite <-Hc at 1. apply slice_splice_same; rewrite ?zlen_header0; lia.
Qed.

(** The CRC was taken before its own field was filled, but is checked after. *)
Lemma header_crc_mismatch :
  header_crc j ≠ 0 → from_le_bytes (slice 20 4 (header j)) ≠ crc32c (slice 0 (CRC_OFFSET + count * 8) (header j)).
Proof.
  intros Hne Hc. rewrite header_stored, from_to_le_bytes in Hc by apply crc32c_u32. destruct Hj as [Hn _].
  assert (Hcut : ∀ h : bytes, zlen h = 512 → slice 0 (CRC_OFFSET + count * 8) h = slice 0 20 h ++ slice 20 4 h ++ slice 24 (count * 8) h).
  { intros h Hh. unfold CRC_OFFSET. replace (24 + count * 8) with (20 + (4 + count * 8)) by lia.
    rewrite slice_add by lia. rewrite (slice_add (0 + 20)) by lia. done. }
  unfold header_crc in Hc. rewrite !Hcut in Hc by (apply zlen_jheader || apply zlen_header0).
  assert (H1 : slice 0 20 (header j) = slice 0 20 (header0 j)) by (rewrite header_before, header0_before by lia; done).
  assert (H2 : slice 24 (count * 8) (header j) = slice 24 (count * 8) (header0 j)).
  { unfold header. apply slice_splice_after; rewrite ?zlen_to_le_bytes, ?zlen_header0; lia. }
  rewrite H1, H2 in Hc. apply crc32c_burst in Hc.
  - rewrite header_stored, header0_gap in Hc. apply (f_equal from_le_bytes) in Hc.
    rewrite from_to_le_bytes in Hc by apply crc32c_u32. apply Hne. rewrite <-Hc. by vm_compute.
  - rewrite header_stored, header0_gap. assert (zlen (to_le_bytes 4 (header_crc j)) = 4) by by rewrite zlen_to_le_bytes.
    unfold zlen in *. cbn. lia.
  - rewrite header0_gap. done.
Qed.
End Header.

(** * Commit *)

Section Commit.
Context {D : Type} `{File.DiskLaws D valid sec}.
Context (start total : Z) (Hrg : region (valid := valid) start total).

Lemma lbas_from_run lba : 0 ≤ lba → lba + 8 < 2 ^ 64 → lbas_from lba = run_lbas lba 8.
Proof.
  intros Hl Hu. unfold lbas_from, run_lbas.
  assert (E8 : seqZ lba (Z.of_nat 8) = (λ i, lba + i) <$> seqZ 0 8) by by rewrite fmap_add_seqZ, Z.add_0_r.
  rewrite E8, <-list_fmap_compose. apply list_fmap_ext. intros i x Hx. apply lookup_seqZ in Hx as [-> Hx].
  cbn. rewrite u64_add_small by lia. done.
Qed.

(** Only the run of sectors it names is written. *)
Lemma write_blocks_spec (d : D) lba bs :
  start ≤ lba → lba + 8 * zlen bs ≤ start + 8 * total → Forall (λ b, zlen b.2 = 4096) bs →
  ∃ d', write_blocks lba bs d = (true, d') ∧ ∀ x, ¬ lba ≤ x < lba + 8 * zlen bs → sec d' x = sec d x.
Proof.
  destruct Hrg as [Hs He Hv]. unfold U64_MAX in *. intros Hl Hu Hbs. revert lba d Hl Hu.
  induction Hbs as [|[a b] bs Hb _ IH]; intros lba d Hl Hu; cbn [write_blocks].
  - exists d. by split.
  - rewrite zlen_cons in Hu. pose proof (zlen_nonneg bs). rewrite lbas_from_run by lia.
    destruct (write_run d lba 8 b) as (d1 & Hw & Hd1); [intros x Hx; apply Hv; lia|done|].
    rewrite Hw, u64_add_small by lia. destruct (IH (lba + 8) d1) as (d2 & Hw2 & Hd2); [lia|lia|].
    exists d2. split; [done|]. intros x Hx. rewrite zlen_cons in Hx. rewrite Hd2 by lia. rewrite Hd1, decide_False by lia. done.
Qed.

(** The journal area lies inside the volume, after the superblocks. *)
Definition journal_inside (s : Superblock) : Prop :=
  3 ≤ journal_start s ∧ 0 ≤ journal_blocks s ∧ journal_start s + journal_blocks s ≤ total.

Lemma commit_spec (d : D) s j :
  journal_inside s → fits j → zlen (dirty_blocks j) < journal_blocks s →
  let jl := start + 8 * journal_start s in
  ∃ d', commit start s j d = (true, d') ∧ sec d' jl = header j ∧
    ∀ x, ¬ jl ≤ x < jl + 8 * journal_blocks s → sec d' x = sec d x.
Proof.
  intros (H3 & Hb & Hi) Hj Hc jl. destruct Hrg as [Hs He Hv]. unfold U64_MAX in He. destruct (Hj) as ((Hn1 & Hn2) & _ & Hlen).
  unfold commit. rewrite (proj2 (Z.eqb_neq _ _)), (proj2 (Z.leb_gt _ _)), (proj2 (Z.ltb_ge _ _)) by (unfold CRC_OFFSET; lia).
  assert (Ejl : u64_add start (u64_mul (journal_start s) 8) = jl).
  { unfold u64_mul. rewrite Z.mod_small by lia. rewrite u64_add_small by lia. unfold jl. lia. }
  rewrite Ejl, u64_add_small by lia. destruct (write_blocks_spec d (jl + 1) (dirty_blocks j)) as (d1 & Hw & Hd1); [lia|lia|done|].
  rewrite Hw. destruct (File.bd_write_sec d1 jl (header j)) as (d2 & Hw2 & Hd2); [apply Hv; lia|by apply zlen_jheader|].
  exists d2. split; [done|]. split.
  - by rewrite Hd2, decide_True.
  - intros x Hx. rewrite Hd2, decide_False by lia. apply Hd1. lia.
Qed.

Lemma recover_own_commit (d : D) s j :
  journal_inside s → fits j → zlen (dirty_blocks j) < journal_blocks s →
  sec d (start + 8 * journal_start s) = header j →
  (last_tx_id s < tx_id j → header_crc j ≠ 0 → recover start s d = (false, d)) ∧ (tx_id j ≤ last_tx_id s → recover start s d = (true, d)).
Proof.
  destruct Hrg as [Hs He Hv]. unfold U64_MAX in *. intros (H3 & Hb & Hi) Hj Hc Hsec. destruct (Hj) as ((Hn1 & Hn2) & _ & _).
  unfold recover. assert (Ejl : u64_add start (u64_mul (journal_start s) 8) = start + 8 * journal_start s).
  { unfold u64_mul. rewrite Z.mod_small by lia. rewrite u64_add_small by lia. lia. }
  rewrite Ejl, File.bd_read_sec by (apply Hv; lia). rewrite Hsec, header_magic, bool_decide_eq_true_2 by done. cbn [negb].
  rewrite header_tx by done. split; [intros Htx Hcrc|intros Htx; by rewrite (proj2 (Z.leb_le _ _))]. rewrite (proj2 (Z.leb_gt _ _)), header_count by done.
  rewrite (proj2 (Z.eqb_neq _ _)), (proj2 (Z.leb_gt _ _)), (proj2 (Z.ltb_ge _ _)) by (unfold CRC_OFFSET; lia). cbn [orb].
  rewrite (proj2 (Z.eqb_neq _ _)); [done|]. by apply header_crc_mismatch.
Qed.
End Commit.

(** C40: The journal is never replayed. Take any volume, commit any transaction of 1 to 61
    blocks that fits its journal, and lose power before the superblock is written. If the
    transaction is newer than the superblock's last one, the next [mount] refuses the
    volume, because [recover] checks the header's CRC over bytes that include the CRC
    itself, which were zero when it was computed (only a header whose CRC happens to be zero
    escapes). If it is not newer, [mount] accepts the volume with the old superblock. In both
    cases no block of the journal is written back: the disk is left as it was. *)
Theorem journal_never_replays {D} `{File.DiskLaws D valid sec} start total (d : D) s j :
  region (valid := valid) start total → sb_ok s → Super.read d start = Some s → journal_inside total s →
  fits j → zlen (dirty_blocks j) < journal_blocks s →
  ∃ d', commit start s j d = (true, d') ∧
    (last_tx_id s < tx_id j → header_crc j ≠ 0 → Volume.mount start d' = (None, d')) ∧
    (tx_id j ≤ last_tx_id s → ∃ v, Volume.mount start d' = (Some v, d') ∧ Volume.sb v = s).
Proof.
  intros Hrg Hs Hread Hin Hj Hc. destruct (commit_spec start total Hrg d s j) as (d' & Hw & Hh & Hx); [done..|].
  exists d'. split; [done|]. destruct (Hin) as (H3 & Hb & Hi).
  assert (Hblk : ∀ b, 0 ≤ b < 3 → blk (sec := sec) d' start b = blk (sec := sec) d start b).
  { intros b Hb'. apply run_bytes_same. intros x Hx'. apply Hx. lia. }
  assert (Hread' : Super.read d' start = Some s).
  { rewrite <-Hread. unfold Super.read. rewrite !(super_read_block start total Hrg) by lia. by rewrite !Hblk by lia. }
  unfold Volume.mount. rewrite Hread'. destruct Hs as [Hm _]. rewrite Hm, bool_decide_eq_true_2 by done. cbn [negb].
  destruct (recover_own_commit start total Hrg d' s j) as [Hnew Hold]; [done..|]. split.
  - intros Htx Hcrc. by rewrite Hnew.
  - intros Htx. rewrite Hold by done. by eexists.
Qed.

Definition demo_disk : gmap Z bytes := (Volume.format 0 1024 ∅).2.
Definition demo_journal : Journal := mkJournal 1 [(13, replicate 4096 Byte.x41)].

Lemma journal_never_replays_witness :
  ∃ d', commit 0 demo_sb demo_journal demo_disk = (true, d') ∧ Volume.mount 0 d' = (None, d').
Proof.
  destruct (journal_never_replays (valid := λ _, True) (sec := mem_sec) 0 128 demo_disk demo_sb demo_journal) as (d' & Hc & Hm & _); [by split|..].
  - unfold sb_ok. rewrite !Forall_cons, Forall_nil. cbn. split_and!; done || lia.
  - by vm_compute.
  - by vm_compute.
  - split_and!; [by vm_compute..|by apply Forall_singleton].
  - by vm_compute.
  - exists d'. split; [exact Hc|]. apply Hm; by vm_compute.
Defined.

(** * The free list *)

Import Volume.

Definition stack_ok (total : Z) (l : list Z) : Prop := Forall (λ b, 0 < b ∧ b < total) l ∧ zlen l ≤ FREE_LIST_MAX.

Lemma zlen_free_magic : zlen FREE_LIST_MAGIC = 8.
Proof. done. Qed.
#[local] Hint Rewrite zlen_free_magic : fields.

Section FreePage.
Context (l : list Z) (Hl : zlen l ≤ FREE_LIST_MAX).
Local Abbreviation base := (put_fields [(0, FREE_LIST_MAGIC); (8, to_le_bytes 4 (zlen l))] (replicate 4096 Byte.x00)).

Lemma zlen_free_base : zlen base = 4096.
Proof. rewrite (zlen_put_fields 0); [done|lia|fields_solve]. Qed.

Lemma free_page_eq : free_page l = splice 16 (concat (to_le_bytes 8 <$> l)) base.
Proof.
  unfold free_page. rewrite Z.min_l by done. replace (length l - Z.to_nat (zlen l))%nat with 0%nat by (unfold zlen; lia). done.
Qed.

Lemma zlen_free_page : zlen (free_page l) = 4096.
Proof. rewrite free_page_eq. unfold FREE_LIST_MAX in Hl. rewrite zlen_splice; rewrite ?zlen_free_base, ?zlen_concat8; lia. Qed.

Lemma free_page_head p n : 0 ≤ p → 0 ≤ n → p + n ≤ 16 → slice p n (free_page l) = slice p n base.
Proof. intros. rewrite free_page_eq. apply slice_splice_before; rewrite ?zlen_free_base; lia. Qed.

Lemma free_page_entry (i : nat) x : l !! i = Some x → slice (16 + 8 * Z.of_nat i) 8 (free_page l) = to_le_bytes 8 x.
Proof.
  intros Hx. pose proof (lookup_lt_Some _ _ _ Hx). unfold FREE_LIST_MAX in Hl.
  rewrite <-(slice_slice 16 (8 * zlen l)) by (unfold zlen; lia). rewrite <-(zlen_concat8 l), free_page_eq.
  rewrite slice_splice_same by (rewrite ?zlen_free_base, ?zlen_concat8; lia). by apply slice_concat8.
Qed.

Lemma parse_own_free_page total : total ≤ 2 ^ 64 → Forall (λ b, 0 < b ∧ b < total) l → parse_free_page total (free_page l) = l.
Proof.
  intros Ht Hok. unfold parse_free_page. rewrite !free_page_head by lia.
  rewrite (put_fields_get 0 _ _ 0 FREE_LIST_MAGIC); [|lia|fields_solve|apply list_elem_of_here|done].
  rewrite bool_decide_eq_true_2 by done. cbn [negb]. field_get. pose proof (zlen_nonneg l). unfold FREE_LIST_MAX in *.
  rewrite from_to_le_bytes, Z.min_l by lia. set (l' := _ <$> seqZ 0 (zlen l)). assert (l' = l) as ->.
  { apply list_eq. intros i. unfold l'. rewrite list_lookup_fmap. destruct (l !! i) as [x|] eqn:Hx.
    - pose proof (lookup_lt_Some _ _ _ Hx). rewrite lookup_seqZ_lt by (unfold zlen; lia). cbn [fmap option_fmap option_map].
      f_equal. replace (16 + (0 + Z.of_nat i) * 8) with (16 + 8 * Z.of_nat i) by lia.
      rewrite (free_page_entry i x Hx). apply from_to_le_bytes. destruct (Forall_lookup_1 _ _ _ _ Hok Hx). lia.
    - apply lookup_ge_None in Hx. rewrite lookup_seqZ_ge; [done|]. unfold zlen. lia. }
  clear -Hok. induction Hok as [|b l Hb _ IH]; [done|]. rewrite filter_cons_True by done. by f_equal.
Qed.
End FreePage.

(** * Committing and mounting again *)

Section Remount.
Context {D : Type} `{File.DiskLaws D valid sec}.

(** What a mounted volume looks like on its disk. The layout is that of [format]:
    superblocks, journal, free list, then the blocks it hands out. *)
Record layout (v : NeuralVolume) : Prop := mkLayout {
  lay_region : region (valid := valid) (start_lba v) (total_blocks (sb v));
  lay_sb : sb_ok (sb v);
  lay_journal : journal_inside (total_blocks (sb v)) (sb v);
  lay_free : journal_start (sb v) + journal_blocks (sb v) ≤ free_extent_root (sb v) < total_blocks (sb v);
  lay_tx : 0 ≤ tx_id v < 2 ^ 64;
  lay_stack : stack_ok (total_blocks (sb v)) (free_stack v);
}.

(** The running transaction can be committed. *)
Definition committable (v : NeuralVolume) : Prop :=
  fits (journal v) ∧ zlen (dirty_blocks (journal v)) < journal_blocks (sb v) ∧ Journal.tx_id (journal v) = tx_id v.

(** The blocks of the superblocks, the journal and the free list. *)
Definition metadata (s : Superblock) (b : Z) : Prop :=
  1 ≤ b ≤ 2 ∨ journal_start s ≤ b < journal_start s + journal_blocks s ∨ b = free_extent_root s.

Lemma persist_spec (w : World D) :
  layout (vol w) →
  let start := start_lba (vol w) in let fr := free_extent_root (sb (vol w)) in
  ∃ d', persist_free_list w = (Ok true, mkWorld (vol w) d') ∧
    wrote (sec := sec) start fr (free_page (free_stack (vol w))) (dev w) d'.
Proof.
  intros [Hrg Hsb (H3 & Hjb & Hji) Hfree Htx [Hst Hmax]] start fr.
  destruct (write_static start _ Hrg (dev w) fr (free_page (free_stack (vol w)))) as (d1 & Hw & Hd); [lia|by apply zlen_free_page|].
  exists d1. unfold persist_free_list. rewrite (proj2 (Z.eqb_neq _ _)) by lia. fold fr start. by rewrite Hw.
Qed.

Lemma commit_tx_spec (w : World D) :
  layout (vol w) → committable (vol w) →
  let s := with_last_tx_id (tx_id (vol w)) (sb (vol w)) in
  let start := start_lba (vol w) in
  ∃ d', commit_tx w = (Ok true, mkWorld (with_sb s (vol w)) d') ∧
    Super.read d' start = Some s ∧ sec d' (start + 8 * journal_start s) = header (journal (vol w)) ∧
    blk (sec := sec) d' start (free_extent_root s) = free_page (free_stack (vol w)) ∧
    ∀ b, ¬ metadata s b → blk (sec := sec) d' start b = blk (sec := sec) (dev w) start b.
Proof.
  intros Hlay (Hfit & Hroom & Hjtx) s start. destruct (persist_spec w Hlay) as (d1 & Hp & Hd1). cbv zeta in Hd1. fold start in Hd1.
  destruct Hlay as [Hrg Hsb Hin Hfree Htx _]. destruct (Hin) as (H3 & Hjb & Hji). fold start in Hrg.
  destruct (commit_spec start _ Hrg d1 (sb (vol w)) (journal (vol w)) Hin Hfit Hroom) as (d2 & Hc & Hh & Hd2).
  destruct (super_write start _ Hrg d2 s) as (d3 & Hw & Hb1 & Hb2 & Hd3); [lia|].
  exists d3. assert (Hs : sb_ok s).
  { destruct Hsb as (Hm & Hl & Hv & Hf). unfold sb_ok in *. rewrite !Forall_cons in *. cbn. tauto. }
  split_and!.
  - unfold commit_tx. rewrite (M_bind_Ok _ _ _ _ _ Hp). cbn [negb]. erewrite M_bind_Ok.
    2:{ unfold journal_commit. cbn [vol dev]. fold start. by rewrite Hc. }
    cbn [negb]. erewrite M_bind_Ok by reflexivity. unfold write_sb, set_vol. cbn [vol dev start_lba sb with_sb tx_id]. fold start s. by rewrite Hw.
  - eapply (super_read_ok start _ Hrg d3 s); [done|lia|done|done|]. right. by rewrite Hb1, check_encoded.
  - rewrite Hd3 by (cbn; lia). exact Hh.
  - transitivity (blk (sec := sec) d1 start (free_extent_root s)); [|apply Hd1]. apply run_bytes_same. intros x Hx. cbn in Hx.
    rewrite Hd3, Hd2 by lia. done.
  - intros b Hb. unfold metadata in Hb. cbn in Hb. rewrite <-(wrote_other start _ _ _ _ b Hd1) by tauto.
    apply run_bytes_same. intros x Hx. rewrite Hd3, Hd2 by lia. done.
Qed.

Lemma recover_committed (d : D) s start total j :
  region (valid := valid) start total → journal_inside total s → 0 < journal_blocks s → fits j →
  Journal.tx_id j ≤ last_tx_id s → sec d (start + 8 * journal_start s) = header j → recover start s d = (true, d).
Proof.
  intros [Hs He Hv] (H3 & Hb & Hi) Hjb Hj Htx Hsec. unfold U64_MAX in He.
  unfold recover. assert (Ejl : u64_add start (u64_mul (journal_start s) 8) = start + 8 * journal_start s).
  { unfold u64_mul. rewrite Z.mod_small by lia. rewrite u64_add_small by lia. lia. }
  rewrite Ejl, File.bd_read_sec by (apply Hv; lia). rewrite Hsec, header_magic, bool_decide_eq_true_2 by done. cbn [negb].
  by rewrite header_tx, (proj2 (Z.leb_le _ _)).
Qed.
Lemma commit_remount (w : World D) :
  layout (vol w) → committable (vol w) →
  let s := with_last_tx_id (tx_id (vol w)) (sb (vol w)) in
  ∃ d', commit_tx w = (Ok true, mkWorld (with_sb s (vol w)) d') ∧
    mount (start_lba (vol w)) d' = (Some (mkVol s (start_lba (vol w)) 0 Journal.new false (free_stack (vol w))), d') ∧
    ∀ b, ¬ metadata s b → blk (sec := sec) d' (start_lba (vol w)) b = blk (sec := sec) (dev w) (start_lba (vol w)) b.
Proof.
  intros Hlay Hcom s. destruct (commit_tx_spec w Hlay Hcom) as (d' & Hc & Hr & Hh & Hfp & Hrest).
  destruct Hlay as [Hrg Hsb Hin Hfree Htx [Hst Hmax]]. destruct (Hin) as (H3 & Hjb & Hji). destruct Hcom as (Hfit & Hroom & Hjtx).
  destruct (Hfit) as ((Hn & _) & _). destruct Hsb as (Hm & _ & _ & Hf). rewrite Forall_cons in Hf. destruct Hf as [Ht _].
  exists d'. split_and!; [exact Hc| |exact Hrest]. unfold mount. rewrite Hr. cbn [magic with_last_tx_id]. rewrite Hm, bool_decide_eq_true_2 by done. cbn [negb].
  rewrite (recover_committed d' _ _ (total_blocks (sb (vol w))) (journal (vol w))); [|done|done|cbn; lia|done|cbn; lia|exact Hh].
  do 4 f_equal. unfold load_free_list. rewrite (proj2 (Z.eqb_neq _ _)) by (cbn; lia).
  rewrite (read_wrapping (start_lba (vol w)) _ Hrg) by (cbn; lia). rewrite Hfp. cbn [total_blocks with_last_tx_id].
  apply parse_own_free_page; [done|lia|done].
Qed.

(** A transaction that does not fit the journal is refused; only the free list has been
    written by then. *)
Lemma commit_refused (w : World D) :
  layout (vol w) → let n := zlen (dirty_blocks (journal (vol w))) in
  1 ≤ n → journal_blocks (sb (vol w)) ≤ n ∨ 61 < n →
  ∃ d', commit_tx w = (Ok false, mkWorld (vol w) d') ∧
    ∀ b, b ≠ free_extent_root (sb (vol w)) → blk (sec := sec) d' (start_lba (vol w)) b = blk (sec := sec) (dev w) (start_lba (vol w)) b.
Proof.
  intros Hlay n Hn Hbig. destruct (persist_spec w Hlay) as (d1 & Hp & Hd1). exists d1.
  split; [|intros b Hb; by apply (wrote_other _ _ _ _ _ _ Hd1)]. unfold commit_tx. rewrite (M_bind_Ok _ _ _ _ _ Hp). cbn [negb].
  rewrite (M_bind_Ok journal_commit _ _ false (mkWorld (vol w) d1)); [reflexivity|]. unfold journal_commit. cbn [vol dev]. unfold commit. fold n.
  rewrite (proj2 (Z.eqb_neq _ _)) by lia. destruct (Z.leb_spec (journal_blocks (sb (vol w))) n); [done|].
  by rewrite (proj2 (Z.ltb_lt _ _)) by (unfold CRC_OFFSET; lia).
Qed.
End Remount.

(** A committed transaction survives a power cycle. Committing a transaction that
    fits the journal succeeds, and mounting the disk afterwards gives a volume with
    exactly the superblock (tree root, allocation frontier, counters) and the free list
    the transaction ended with; every block outside the metadata is as it was. *)
Theorem committed_volume_remounts {D} `{File.DiskLaws D valid sec} (w : World D) :
  layout (valid := valid) (vol w) → committable (vol w) →
  ∃ w' v', commit_tx w = (Ok true, w') ∧ mount (start_lba (vol w)) (dev w') = (Some v', dev w') ∧
    sb v' = sb (vol w') ∧ sb (vol w') = with_last_tx_id (tx_id (vol w)) (sb (vol w)) ∧
    start_lba v' = start_lba (vol w) ∧ free_stack v' = free_stack (vol w) ∧
    ∀ b, ¬ metadata (sb v') b →
      blk (sec := sec) (dev w') (start_lba v') b = blk (sec := sec) (dev w) (start_lba (vol w)) b.
Proof.
  intros Hlay Hcom. destruct (commit_remount w Hlay Hcom) as (d' & Hc & Hm & Hrest).
  eexists _, _. split_and!; [exact Hc|exact Hm|done..|exact Hrest].
Qed.

Definition demo_world : World (gmap Z bytes) := mkWorld (mkVol demo_sb 0 1 demo_journal false [40; 41]) demo_disk.

Lemma committed_volume_remounts_witness :
  ∃ w' v', commit_tx demo_world = (Ok true, w') ∧ mount 0 (dev w') = (Some v', dev w') ∧ free_stack v' = [40; 41].
Proof.
  assert (Hl : layout (valid := λ _ : Z, True) (vol demo_world)).
  { split; [by split| |by vm_compute|done|done|by split; [repeat constructor|]].
    unfold sb_ok. rewrite !Forall_cons, Forall_nil. cbn. split_and!; done || lia. }
  assert (Hc : committable (vol demo_world)).
  { split_and!; [split_and!; [by vm_compute..|by apply Forall_singleton]|by vm_compute|done]. }
  destruct (committed_volume_remounts (sec := mem_sec) demo_world Hl Hc) as (w' & v' & H1 & H2 & _ & _ & _ & H3 & _).
  exists w', v'. exact (conj H1 (conj H2 H3)).
Defined.
