(* ===== verification/NfsAlloc.v ===== *)
(** Block allocation of NeuralFS: [next_block], [alloc_contiguous] and
    [reclaim_block] never hand out a block that is in use. *)

From S2P Require Import Prelude Checksum Flash NfsNode NfsRep NfsFormat NfsVolume NfsDisk NfsSuper NfsJournal.
Import Super Volume.

(** * The allocator's invariant *)

(** The blocks in use, [own], and the free stack are disjoint and lie between the
    free list and the allocation frontier. *)
Record alloc_ok (v : NeuralVolume) (own : gset Z) : Prop := mkAlloc {
  al_frontier : 0 ≤ free_extent_root (sb v) < next_cow_block (sb v);
  al_total : next_cow_block (sb v) ≤ total_blocks (sb v) < 2 ^ 61;
  al_free_count : 0 ≤ free_blocks (sb v) < 2 ^ 64;
  al_nodup : NoDup (free_stack v);
  al_max : zlen (free_stack v) ≤ FREE_LIST_MAX;
  al_stack : ∀ b, b ∈ free_stack v → free_extent_root (sb v) < b < next_cow_block (sb v) ∧ b ∉ own;
  al_own : ∀ b, b ∈ own → free_extent_root (sb v) < b < next_cow_block (sb v);
}.

(** How many blocks can still be handed out. *)
Definition space (v : NeuralVolume) : Z :=
  zlen (free_stack v) + Z.min (free_blocks (sb v)) (total_blocks (sb v) - next_cow_block (sb v)).

(** What allocation leaves alone: everything but the frontier, the free count and the
    free stack. *)
Definition same_meta (v v' : NeuralVolume) : Prop :=
  start_lba v' = start_lba v ∧ tx_id v' = tx_id v ∧ journal v' = journal v ∧ dirty v' = dirty v ∧
  ∃ fb nc, sb v' = with_free_blocks fb (with_next_cow_block nc (sb v)).

#[global] Instance same_meta_refl : Reflexive same_meta.
Proof.
  intros v. split_and!; [done..|]. exists (free_blocks (sb v)), (next_cow_block (sb v)). by destruct (sb v).
Qed.

#[global] Instance same_meta_trans : Transitive same_meta.
Proof.
  intros v1 v2 v3 (H1 & H2 & H3 & H4 & fb & nc & H5) (H6 & H7 & H8 & H9 & fb' & nc' & H10).
  split_and!; [congruence..|]. exists fb', nc'. rewrite H10, H5. done.
Qed.

Lemma last_snoc_take {A} (l : list A) x : last l = Some x → l = take (length l - 1) l ++ [x].
Proof.
  intros Hl. apply last_Some in Hl as [l' ->]. rewrite length_app. cbn. rewrite Nat.add_sub. by rewrite take_app_length.
Qed.

Lemma next_block_spec v own :
  alloc_ok v own → 1 ≤ space v →
  ∃ b v', next_block1 v = (Some b, v') ∧ b ∉ own ∧ alloc_ok v' ({[b]} ∪ own) ∧ same_meta v v' ∧ space v - 1 ≤ space v'.
Proof.
  intros [Hfr Htot Hfb Hnd Hmax Hst Hown] Hsp. unfold next_block1. destruct (last (free_stack v)) as [b|] eqn:El.
  - pose proof (last_snoc_take _ _ El) as Es. set (l := take _ _) in *.
    rewrite Es in Hnd. apply NoDup_app in Hnd as (Hnd & Hdis & _).
    exists b, (with_free_stack l v). destruct (Hst b) as [Hb1 Hb2]; [rewrite Es; set_solver|].
    assert (Hlen : zlen (free_stack v) = zlen l + 1) by (rewrite Es, zlen_app; done).
    split_and!; [done|done| | |unfold space; cbn; lia].
    + split; cbn; try done; [lia| |].
      * intros x Hx. destruct (Hst x) as [H1 H2]; [rewrite Es; set_solver|]. split; [done|].
        intros [->%elem_of_singleton|?]%elem_of_union; [|done]. apply (Hdis b Hx). set_solver.
      * intros x [->%elem_of_singleton|?]%elem_of_union; [lia|auto].
    + split_and!; [done..|]. cbn. exists (free_blocks (sb v)), (next_cow_block (sb v)). by destruct (sb v).
  - apply last_None in El. unfold space in Hsp. rewrite El in Hsp. change (zlen []) with 0 in Hsp.
    rewrite (proj2 (Z.eqb_neq _ _)), (proj2 (Z.leb_gt _ _)) by lia. cbn [orb].
    assert (Hb : next_cow_block (sb v) ∉ own) by (intros Hb%Hown; lia).
    eexists _, _. split; [reflexivity|]. split; [done|]. rewrite u64_add_small by lia. unfold u64_sat_sub.
    split_and!.
    + split; cbn; rewrite ?El; try done; try lia; [constructor|by intros x Hx%elem_of_nil|].
      intros x [->%elem_of_singleton|Hx%Hown]%elem_of_union; lia.
    + split_and!; [done..|]. cbn. by eexists _, _.
    + unfold space. cbn. rewrite El. change (zlen []) with 0. lia.
Qed.

Lemma reclaim_spec v own b :
  alloc_ok v own → b ∈ own →
  alloc_ok (reclaim_block1 b v) (own ∖ {[b]}) ∧ same_meta v (reclaim_block1 b v) ∧ space v ≤ space (reclaim_block1 b v).
Proof.
  intros Hal Hb. pose proof Hal as [Hfr Htot Hfb Hnd Hmax Hst Hown]. pose proof (Hown b Hb) as Hbr. unfold reclaim_block1.
  rewrite (proj2 (Z.eqb_neq _ _)), (proj2 (Z.leb_gt _ _)) by lia. cbn [orb].
  destruct (Z.leb_spec FREE_LIST_MAX (zlen (free_stack v))).
  - split_and!; [|done|done]. split; try done; [|intros x Hx; apply Hown; set_solver].
    intros x Hx. destruct (Hst x Hx). split; [done|set_solver].
  - assert (Hnb : b ∉ free_stack v) by (intros Hs%Hst; tauto). unfold u64_sat_add. split_and!.
    + split; cbn; try done.
      * unfold U64_MAX. lia.
      * apply NoDup_app. split_and!; [done|set_solver|apply NoDup_singleton].
      * rewrite zlen_app. change (zlen [b]) with 1. lia.
      * intros x [Hx| ->%list_elem_of_singleton]%elem_of_app; [|split; [done|set_solver]].
        destruct (Hst x Hx). split; [done|set_solver].
      * intros x Hx. apply Hown. set_solver.
    + split_and!; [done..|]. cbn. exists (Z.min (free_blocks (sb v) + 1) U64_MAX), (next_cow_block (sb v)). by destruct (sb v).
    + unfold space, U64_MAX. cbn. rewrite zlen_app. change (zlen [b]) with 1. lia.
Qed.

(** * Runs of blocks *)

Lemma contiguous_seqZ l : Forall (λ b, 0 ≤ b < 2 ^ 64 - 1) l → contiguous l = true → l = seqZ (hd 0 l) (zlen l).
Proof.
  induction l as [|a l IH]; intros Hf Hc; [done|]. apply Forall_cons in Hf as [Ha Hf].
  rewrite zlen_cons, seqZ_cons by (pose proof (zlen_nonneg l); lia). cbn [hd]. f_equal.
  replace (Z.pred (1 + zlen l)) with (zlen l) by lia. destruct l as [|b l]; [done|].
  cbn [contiguous] in Hc. apply andb_prop in Hc as [Hb%Z.eqb_eq Hc]. rewrite u64_add_small in Hb by lia.
  specialize (IH Hf Hc). rewrite IH at 1. cbn [hd]. by rewrite Hb, Z.add_1_r.
Qed.

Lemma hd_of_seqZ l n : 0 < n → l = seqZ (hd 0 l) n → hd 0 l ∈ l.
Proof. intros Hn Hl. rewrite Hl at 2. apply elem_of_seqZ. lia. Qed.

Definition run (first n : Z) : gset Z := list_to_set (seqZ first n).

Lemma elem_of_run x first n : x ∈ run first n ↔ first ≤ x < first + n.
Proof. unfold run. rewrite elem_of_list_to_set, elem_of_seqZ. done. Qed.

Lemma bump_spec v own n r v' :
  alloc_ok v own → 0 < n < 2 ^ 32 → bump n v = (r, v') →
  match r with
  | None => v' = v
  | Some (first, count) => count = n ∧ run first n ## own ∧ (∀ b, b ∈ run first n → b ∉ free_stack v) ∧
      alloc_ok v' (run first n ∪ own) ∧ same_meta v v' ∧ first + n ≤ total_blocks (sb v)
  end.
Proof.
  intros [Hfr Htot Hfb Hnd Hmax Hst Hown] Hn E. unfold bump in E.
  destruct (Z.ltb_spec (free_blocks (sb v)) n); cbn [orb] in E; [by simplify_eq|].
  destruct (Z.ltb_spec (total_blocks (sb v)) (u64_add (next_cow_block (sb v)) n)) as [|Hle]; [by simplify_eq|].
  injection E as <- <-. rewrite u64_add_small in * by lia. rewrite (Z.mod_small n) by lia. unfold u64_sat_sub.
  assert (Hrun : ∀ b, b ∈ run (next_cow_block (sb v)) n → next_cow_block (sb v) ≤ b < next_cow_block (sb v) + n)
    by (intros b; apply elem_of_run).
  split_and!; try done.
  - intros b Hb%Hrun Ho%Hown. lia.
  - intros b Hb%Hrun Hs%Hst. lia.
  - split; cbn; try done; try lia.
    + intros b Hb. destruct (Hst b Hb) as [H1 H2]. split; [lia|]. intros [Hr%Hrun|?]%elem_of_union; [lia|done].
    + intros b [Hr%Hrun|Hr%Hown]%elem_of_union; lia.
  - split_and!; [done..|]. cbn. by eexists _, _.
Qed.

(** A change of the free stack that only permutes it. *)
Lemma alloc_ok_perm v own l :
  alloc_ok v own → l ≡ₚ free_stack v → alloc_ok (with_free_stack l v) own ∧ same_meta v (with_free_stack l v).
Proof.
  intros [Hfr Htot Hfb Hnd Hmax Hst Hown] Hl. split.
  - split; cbn; try done; [by rewrite Hl| |intros b; rewrite Hl; apply Hst]. unfold zlen in *. by rewrite Hl.
  - split_and!; [done..|]. exists (free_blocks (sb v)), (next_cow_block (sb v)). cbn. by destruct (sb v).
Qed.

Lemma alloc_contiguous_spec v own n r v' :
  alloc_ok v own → 0 < n < 2 ^ 32 → alloc_contiguous1 n v = (r, v') →
  match r with
  | None => alloc_ok v' own ∧ same_meta v v'
  | Some (first, count) => count = n ∧ run first n ## own ∧ alloc_ok v' (run first n ∪ own) ∧ same_meta v v' ∧ 0 < first
  end.
Proof.
  intros Hal Hn E. pose proof Hal as [Hfr Htot Hfb Hnd Hmax Hst Hown]. unfold alloc_contiguous1 in E.
  rewrite (proj2 (Z.eqb_neq _ _)) in E by lia. destruct (Z.leb_spec n (zlen (free_stack v))) as [Hle|Hlt].
  2:{ pose proof (bump_spec v own n r v' Hal Hn E) as H. destruct r as [[first count]|]; [|subst; done].
      destruct H as (-> & Hd & _ & Ha & Hm & Hf). split_and!; try done. destruct Ha as [_ _ _ _ _ _ Ho].
      pose proof (proj2 (elem_of_run first first n) ltac:(lia)). destruct Hm as (_ & _ & _ & _ & fb & nc & Hs).
      assert (first ∈ run first n ∪ own) as [Hb _]%Ho by set_solver. rewrite Hs in Hb. cbn in Hb. lia. }
  set (k := (length (free_stack v) - Z.to_nat n)%nat) in *. set (rest := take k (free_stack v)) in *.
  set (top := drop k (free_stack v)) in *. set (picked := merge_sort Z.le top) in *.
  assert (Hp : picked ≡ₚ top) by apply merge_sort_Permutation.
  assert (Hsplit : free_stack v = rest ++ top) by (symmetry; apply take_drop).
  assert (Hlen : zlen picked = n).
  { unfold zlen in *. rewrite Hp. unfold top, k. rewrite length_drop. lia. }
  destruct (contiguous picked) eqn:Ec.
  - injection E as <- <-. rewrite (Z.mod_small n) by lia. assert (Hin : ∀ b, b ∈ picked → b ∈ free_stack v).
    { intros b. rewrite Hp, Hsplit. set_solver. }
    assert (Hseq : picked = seqZ (hd 0 picked) n).
    { rewrite <-Hlen. apply contiguous_seqZ; [|done]. apply Forall_forall. intros b Hb%Hin%Hst. lia. }
    assert (Hrun : ∀ b, b ∈ run (hd 0 picked) n ↔ b ∈ top).
    { intros b. unfold run. rewrite elem_of_list_to_set, <-Hseq, Hp. done. }
    rewrite Hsplit in Hnd. apply NoDup_app in Hnd as (Hnr & Hdis & _).
    assert (Hsm : same_meta v (with_sb (with_free_blocks (u64_sat_sub (free_blocks (sb v)) n) (sb v)) (with_free_stack rest v))).
    { split_and!; [done..|]. exists (u64_sat_sub (free_blocks (sb v)) n), (next_cow_block (sb v)). cbn. by destruct (sb v). }
    split_and!; [done| | |done|].
    + intros b Hb%Hrun Ho. destruct (Hst b); [rewrite Hsplit; set_solver|done].
    + split; cbn; try done; [unfold u64_sat_sub; lia| | |].
      * unfold zlen in *. unfold rest. rewrite length_take. lia.
      * intros b Hb. destruct (Hst b) as [H1 H2]; [rewrite Hsplit; set_solver|]. split; [done|].
        intros [Ht%Hrun|?]%elem_of_union; [|done]. by apply (Hdis b).
      * intros b [Ht%Hrun|?%Hown]%elem_of_union; [|done]. apply Hst. rewrite Hsplit. set_solver.
    + assert (hd 0 picked ∈ free_stack v) as [Hb _]%Hst; [|lia]. apply Hin. eapply hd_of_seqZ, Hseq. lia.
  - destruct (alloc_ok_perm v own (rest ++ picked) Hal) as [Hal' Hm']; [by rewrite Hp, Hsplit|].
    pose proof (bump_spec _ own n r v' Hal' Hn E) as H. destruct r as [[first count]|]; [|by rewrite H].
    destruct H as (-> & Hd & _ & Ha & Hm & Hf). assert (same_meta v v') by (etransitivity; [exact Hm'|exact Hm]). split_and!; try done.
    destruct Ha as [_ _ _ _ _ _ Ho]. pose proof (proj2 (elem_of_run first first n) ltac:(lia)).
    destruct Hm as (_ & _ & _ & _ & fb & nc & Hs). assert (first ∈ run first n ∪ own) as [Hb _]%Ho by set_solver.
    rewrite Hs in Hb. cbn in Hb. lia.
Qed.

(** * Any use of the allocator *)

Inductive aop := ANext | AContig (n : Z) | AReclaim (b : Z).

(** One operation: the new volume, the blocks in use, and the blocks granted.
    [reclaim_block] is called whether or not the block is in use. *)
Definition aexec (o : aop) (v : NeuralVolume) (own : gset Z) : NeuralVolume * gset Z * gset Z :=
  match o with
  | ANext => match next_block1 v with (Some b, v') => (v', {[b]} ∪ own, {[b]}) | (None, v') => (v', own, ∅) end
  | AContig n => match alloc_contiguous1 n v with
                 | (Some (first, _), v') => (v', run first n ∪ own, run first n)
                 | (None, v') => (v', own, ∅) end
  | AReclaim b => (reclaim_block1 b v, own ∖ {[b]}, ∅)
  end.

(** The contract of the caller: a run asks for at least one block and a count that a [u32]
    holds, and only a block in use is given back. *)
Definition aop_ok (o : aop) (own : gset Z) : bool :=
  match o with ANext => true | AContig n => (0 <? n) && (n <? 2 ^ 32) | AReclaim b => bool_decide (b ∈ own) end.

Fixpoint calls_ok (l : list aop) (v : NeuralVolume) (own : gset Z) : bool :=
  match l with
  | [] => true
  | o :: l' => aop_ok o own && let '(v1, own1, _) := aexec o v own in calls_ok l' v1 own1
  end.

(** The grants of a sequence, each with the blocks in use just before it. *)
Fixpoint arun (l : list aop) (v : NeuralVolume) (own : gset Z) : NeuralVolume * gset Z * list (gset Z * gset Z) :=
  match l with
  | [] => (v, own, [])
  | o :: l' =>
      let '(v1, own1, g) := aexec o v own in
      let '(v2, own2, gs) := arun l' v1 own1 in (v2, own2, (g, own) :: gs)
  end.

Lemma next_block_none v own : alloc_ok v own → space v < 1 → next_block1 v = (None, v).
Proof.
  intros [Hfr Htot Hfb _ _ _ _] Hsp. unfold next_block1, space in *. pose proof (zlen_nonneg (free_stack v)).
  assert (free_stack v = []) as -> by (apply zlen_le_0; lia). change (zlen []) with 0 in Hsp. cbn [last].
  destruct (Z.eqb_spec (free_blocks (sb v)) 0); [done|]. by rewrite (proj2 (Z.leb_le _ _)) by lia.
Qed.

Lemma aexec_ok o v own :
  aop_ok o own = true → alloc_ok v own → let '(v', own', g) := aexec o v own in alloc_ok v' own' ∧ g ## own ∧ same_meta v v'.
Proof.
  intros Ho Hal. destruct o as [|n|b]; cbn [aexec aop_ok] in *.
  - destruct (decide (1 ≤ space v)) as [Hs|Hs].
    + destruct (next_block_spec v own Hal Hs) as (b & v' & -> & Hb & Hal' & Hm & _). split_and!; [done|set_solver|done].
    + rewrite (next_block_none v own) by (done || lia). split_and!; [done|set_solver|done].
  - destruct (alloc_contiguous1 n v) as [r v'] eqn:E. pose proof (alloc_contiguous_spec v own n r v' Hal ltac:(lia) E) as H.
    destruct r as [[first count]|].
    + destruct H as (_ & Hd & Hal' & Hm & _). done.
    + destruct H. split_and!; [done|set_solver|done].
  - apply bool_decide_eq_true in Ho. destruct (reclaim_spec v own b Hal Ho) as (H1 & H2 & _). split_and!; [done|set_solver|done].
Qed.

(** C11: No block is ever in two places. Whatever sequence of single-block allocations,
    contiguous allocations and reclaims a volume goes through, as long as a run is of
    between 1 and 2^32 - 1 blocks and only blocks in use are reclaimed ([calls_ok]), every
    grant is disjoint from the blocks then in use, and the blocks in use always stay
    between the free list and the allocation frontier, disjoint from the free stack, which
    holds no block twice. [reclaim_block] does not test the last condition itself:
    [double_reclaim_grants_twice]. *)
Theorem alloc_never_overlaps l v own :
  calls_ok l v own = true → alloc_ok v own →
  let '(v', own', grants) := arun l v own in
  alloc_ok v' own' ∧ Forall (λ g, g.1 ## g.2) grants.
Proof.
  revert v own. induction l as [|o l IH]; intros v own Hl Hal; cbn [arun]; [done|]. cbn [calls_ok] in Hl. apply andb_prop in Hl as [Ho Hl].
  pose proof (aexec_ok o v own Ho Hal) as H1. destruct (aexec o v own) as [[v1 own1] g]. destruct H1 as (H1 & Hg & _).
  specialize (IH v1 own1 Hl H1). destruct (arun l v1 own1) as [[v2 own2] gs]. destruct IH as [H2 Hgs].
  split; [done|]. by constructor.
Qed.

(** A freshly formatted volume: one block in use, the root leaf. *)
Definition demo_vol : NeuralVolume := mkVol demo_sb 0 0 Journal.new false [].

Lemma demo_alloc_ok : alloc_ok demo_vol {[12]}.
Proof. split; try done; [constructor|by intros b Hb%elem_of_nil|by intros b ->%elem_of_singleton]. Qed.

Lemma alloc_never_overlaps_witness :
  let '(v', own', grants) := arun [ANext; AContig 3; AReclaim 15; AReclaim 14; ANext; AContig 2] demo_vol {[12]} in
  grants.*1 = [{[13]}; run 14 3; ∅; ∅; {[14]}; run 17 2] ∧ alloc_ok v' own' ∧ Forall (λ g, g.1 ## g.2) grants.
Proof.
  set (l := [ANext; AContig 3; AReclaim 15; AReclaim 14; ANext; AContig 2]).
  pose proof (alloc_never_overlaps l demo_vol {[12]}) as H.
  destruct (arun l demo_vol {[12]}) as [[v' own'] grants] eqn:E. split.
  - assert (E' : (arun l demo_vol {[12]}).2.*1 = [{[13]}; run 14 3; ∅; ∅; {[14]}; run 17 2]) by by vm_compute.
    rewrite E in E'. exact E'.
  - apply H; [by vm_compute|exact demo_alloc_ok].
Defined.

(** A block given back twice is on the free stack twice, and is granted to two owners. *)
Lemma double_reclaim_grants_twice :
  (arun [ANext; AReclaim 13; AReclaim 13; ANext; ANext] demo_vol {[12]}).2 =
  [({[13]}, {[12]}); (∅, {[13; 12]}); (∅, {[12]}); ({[13]}, {[12]}); ({[13]}, {[13; 12]})].
Proof. by vm_compute. Qed.
