(* ===== verification/NfsTree.v ===== *)
(** The NeuralFS tree as a whole: which blocks hold which nodes, which keys each
    subtree may hold, and what a lookup or a scan from the root finds. *)

From S2P Require Import Prelude Checksum Flash NfsNode NfsRep NfsFormat NfsVolume NfsDisk NfsSuper.
From Stdlib Require Import Sorting.Sorted.
Import Btree.

(** * Trees of blocks *)

(** A node is named by its block; an internal node has one child more than keys. *)
Inductive tree :=
| TLeaf (a : Z) (its : list (Key * bytes))
| TNode (a : Z) (ks : list Key) (cs : list tree).

Definition root_addr (t : tree) : Z := match t with TLeaf a _ | TNode a _ _ => a end.

Fixpoint items (t : tree) : list (Key * bytes) :=
  match t with TLeaf _ its => its | TNode _ _ cs => concat (items <$> cs) end.

Fixpoint addrs (t : tree) : list Z :=
  match t with TLeaf a _ => [a] | TNode a _ cs => a :: concat (addrs <$> cs) end.

Lemma root_in_addrs t : root_addr t ∈ addrs t.
Proof. destruct t; cbn; by left. Qed.

(** Bounds: at least [lo], below [hi]; [None] is no bound. *)
Definition above (lo : option Key) (k : Key) : Prop := match lo with Some l => ¬ key_lt k l | None => True end.
Definition below (hi : option Key) (k : Key) : Prop := match hi with Some h => key_lt k h | None => True end.
Definition within (lo hi : option Key) (k : Key) : Prop := above lo k ∧ below hi k.

(** The bounds of the [i]-th child of a node with keys [ks]. *)
Definition lo_of (lo : option Key) (ks : list Key) (i : nat) : option Key :=
  match i with O => lo | S j => match ks !! j with Some k => Some k | None => lo end end.
Definition hi_of (hi : option Key) (ks : list Key) (i : nat) : option Key :=
  match ks !! i with Some k => Some k | None => hi end.

(** [h] is the height: 0 for a leaf. *)
Fixpoint wf (h : nat) (lo hi : option Key) (t : tree) : Prop :=
  match h, t with
  | O, TLeaf _ its => sorted its ∧ Forall (λ it, within lo hi it.1) its
  | S h', TNode _ ks cs =>
      length cs = S (length ks) ∧ StronglySorted key_lt ks ∧ Forall (within lo hi) ks ∧
      ∀ i c, cs !! i = Some c → wf h' (lo_of lo ks i) (hi_of hi ks i) c
  | _, _ => False
  end.

Lemma elem_of_concat {A} (x : A) ls : x ∈ concat ls ↔ ∃ l, x ∈ l ∧ l ∈ ls.
Proof.
  induction ls as [|l ls IH]; cbn.
  - split; [by intros ?%elem_of_nil|by intros (l & _ & ?%elem_of_nil)].
  - rewrite elem_of_app, IH. set_solver.
Qed.

(** * Order and bounds *)

Lemma key_total a b : key_lt a b ∨ a = b ∨ key_lt b a.
Proof. destruct (key_cmp_spec a b); auto. Qed.

Lemma not_lt_trans a b c : ¬ key_lt b a → ¬ key_lt c b → ¬ key_lt c a.
Proof. rewrite !key_lt_iff. lia. Qed.

Lemma lt_not_lt_trans a b c : key_lt a b → ¬ key_lt c b → key_lt a c.
Proof.
  intros H1 H2. destruct (key_total b c) as [H| [->|H]]; [by transitivity b|done|done].
Qed.

Lemma not_lt_lt_trans a b c : ¬ key_lt b a → key_lt b c → key_lt a c.
Proof.
  intros H1 H2. destruct (key_total a b) as [H| [->|H]]; [by transitivity b|done|done].
Qed.

Lemma above_weaken lo l k : above lo l → ¬ key_lt k l → above lo k.
Proof. destruct lo as [x|]; [|done]. cbn. intros H1 H2. by eapply not_lt_trans. Qed.

Lemma below_weaken hi k x : key_lt k x → below hi x → below hi k.
Proof. destruct hi as [y|]; [|done]. cbn. intros H1 H2. by transitivity x. Qed.

Lemma child_bounds lo hi ks i k :
  StronglySorted key_lt ks → Forall (within lo hi) ks → (i ≤ length ks)%nat →
  within (lo_of lo ks i) (hi_of hi ks i) k → within lo hi k.
Proof.
  intros Hs Hf Hi [Hlo Hhi]. split.
  - destruct i as [|j]; cbn in Hlo; [done|]. destruct (ks !! j) as [x|] eqn:Ej; [|done].
    eapply above_weaken; [|exact Hlo]. apply (Forall_lookup_1 _ _ _ _ Hf Ej).
  - unfold hi_of in Hhi. destruct (ks !! i) as [x|] eqn:Ei; [|done].
    eapply below_weaken; [exact Hhi|]. apply (Forall_lookup_1 _ _ _ _ Hf Ei).
Qed.

Lemma wf_within h lo hi t : wf h lo hi t → Forall (λ it, within lo hi it.1) (items t).
Proof.
  revert lo hi t. induction h as [|h IH]; intros lo hi [a its|a ks cs]; cbn; try done; [by intros [_ H]|].
  intros (Hl & Hs & Hf & Hc). apply Forall_concat, Forall_fmap, Forall_lookup. intros i c Hi.
  eapply Forall_impl; [apply (IH _ _ c (Hc i c Hi))|]. intros it Hit. apply lookup_lt_Some in Hi.
  apply (child_bounds lo hi ks i); [done|done|lia|done].
Qed.

Lemma sorted_keys_lt ks (i j : nat) x y : StronglySorted key_lt ks → ks !! i = Some x → ks !! j = Some y → (i < j)%nat → key_lt x y.
Proof.
  intros Hs Hi Hj Hlt. rewrite <-(take_drop_middle ks i x Hi) in Hs. apply StronglySorted_app in Hs as (_ & _ & Hs).
  apply StronglySorted_inv in Hs as [_ Hf]. rewrite Forall_forall in Hf. apply Hf.
  apply list_elem_of_lookup. exists (j - S i)%nat. rewrite lookup_drop, <-Hj. f_equal. lia.
Qed.

(** Keys of different children are ordered like the children. *)
Lemma children_ordered lo hi ks (i j : nat) k k' :
  StronglySorted key_lt ks → (i < j ≤ length ks)%nat →
  within (lo_of lo ks i) (hi_of hi ks i) k → within (lo_of lo ks j) (hi_of hi ks j) k' → key_lt k k'.
Proof.
  intros Hs Hij [_ Hk] [Hk' _]. destruct j as [|j]; [lia|].
  destruct (lookup_lt_is_Some_2 ks i) as [x Hx]; [lia|]. destruct (lookup_lt_is_Some_2 ks j) as [y Hy]; [lia|].
  unfold hi_of in Hk. rewrite Hx in Hk. cbn in Hk, Hk'. rewrite Hy in Hk'. cbn in Hk'.
  destruct (decide (i = j)) as [->|].
  - assert (x = y) as -> by congruence. by eapply lt_not_lt_trans.
  - eapply lt_not_lt_trans; [|exact Hk']. transitivity x; [done|]. apply (sorted_keys_lt ks i j); [done..|lia].
Qed.

Lemma sorted_concat (ls : list (list (Key * bytes))) :
  Forall sorted ls → (∀ i j l l' a b, (i < j)%nat → ls !! i = Some l → ls !! j = Some l' → a ∈ l → b ∈ l' → key_lt a.1 b.1) →
  sorted (concat ls).
Proof.
  induction 1 as [|l ls Hl _ IH]; intros Ho; [constructor|]. cbn. apply sorted_app. split_and!; [done| |].
  - apply IH. intros i j l1 l2 a b Hij H1 H2. apply (Ho (S i) (S j)); [lia|done..].
  - intros a b Ha Hb. apply elem_of_concat in Hb as (l' & Hb & Hl'). apply list_elem_of_lookup in Hl' as [j Hj].
    apply (Ho 0%nat (S j) l l'); [lia|done..].
Qed.

Lemma wf_sorted h lo hi t : wf h lo hi t → sorted (items t).
Proof.
  revert lo hi t. induction h as [|h IH]; intros lo hi [a its|a ks cs]; cbn; try done; [by intros [H _]|].
  intros (Hl & Hs & Hf & Hc). apply sorted_concat.
  - apply Forall_fmap, Forall_lookup. intros i c Hi. eapply IH, Hc, Hi.
  - intros i j l l' x y Hij H1 H2 Hx Hy. rewrite list_lookup_fmap in H1, H2.
    destruct (cs !! i) as [c|] eqn:Ei; [|done]. destruct (cs !! j) as [c'|] eqn:Ej; [|done]. simplify_eq/=.
    apply lookup_lt_Some in Ej as Hj. eapply (children_ordered lo hi ks i j); [done|lia| |].
    + pose proof (wf_within _ _ _ _ (Hc i c Ei)) as Hw. rewrite Forall_forall in Hw. by apply (Hw x).
    + pose proof (wf_within _ _ _ _ (Hc j c' Ej)) as Hw. rewrite Forall_forall in Hw. by apply (Hw y).
Qed.

(** * Choosing a child *)

Fixpoint route (k : Key) (ks : list Key) : nat :=
  match ks with
  | [] => 0
  | x :: ks' => match key_cmp k x with Lt => 0 | _ => S (route k ks') end
  end.

Lemma route_le k ks : (route k ks ≤ length ks)%nat.
Proof. induction ks as [|x ks IH]; cbn; [lia|]. destruct (key_cmp k x); lia. Qed.

Lemma route_before k ks i x : ks !! i = Some x → (i < route k ks)%nat → ¬ key_lt k x.
Proof.
  revert i. induction ks as [|y ks IH]; intros [|i] Hi Hlt; simplify_eq/=.
  - unfold key_lt. destruct (key_cmp k x); [done|lia|done].
  - destruct (key_cmp k y); try lia; (apply (IH i); [done|lia]).
Qed.

Lemma route_at k ks x : ks !! route k ks = Some x → key_lt k x.
Proof.
  induction ks as [|y ks IH]; [done|]. cbn. unfold key_lt in *. destruct (key_cmp k y) eqn:E; [auto| |auto].
  intros [= <-]. done.
Qed.

Lemma route_within lo hi k ks : within lo hi k → within (lo_of lo ks (route k ks)) (hi_of hi ks (route k ks)) k.
Proof.
  intros [Hlo Hhi]. split.
  - destruct (route k ks) as [|j] eqn:E; cbn; [done|]. destruct (ks !! j) as [x|] eqn:Ej; [|done].
    apply (route_before k ks j); [done|lia].
  - unfold hi_of. destruct (ks !! route k ks) as [x|] eqn:Ej; [|done]. by apply (route_at k ks).
Qed.

(** A key of the [i]-th child routes there. *)
Lemma route_unique lo hi k ks i :
  StronglySorted key_lt ks → (i ≤ length ks)%nat → within (lo_of lo ks i) (hi_of hi ks i) k → route k ks = i.
Proof.
  intros Hs Hi [Hlo Hhi]. pose proof (route_le k ks). destruct (lt_eq_lt_dec (route k ks) i) as [[Hlt|?]|Hgt]; [|done|].
  - exfalso. destruct (lookup_lt_is_Some_2 ks (route k ks)) as [x Hx]; [lia|]. pose proof (route_at k ks x Hx) as Hkx.
    destruct i as [|j]; [lia|]. cbn in Hlo. destruct (lookup_lt_is_Some_2 ks j) as [y Hy]; [lia|]. rewrite Hy in Hlo. cbn in Hlo.
    destruct (decide (route k ks = j)) as [E|]; [congruence|]. apply Hlo. transitivity x; [done|].
    apply (sorted_keys_lt ks (route k ks) j); [done..|lia].
  - exfalso. destruct (lookup_lt_is_Some_2 ks i) as [x Hx]; [lia|]. unfold hi_of in Hhi. rewrite Hx in Hhi. cbn in Hhi.
    by apply (route_before k ks i x Hx Hgt).
Qed.

(** The separators of an internal node whose children are the blocks [cs]. *)
Definition seps (ks : list Key) (cs : list Z) : list (Key * bytes) := zip ks (from_child_ptr <$> tail cs).

Definition is_addr (a : Z) : Prop := 0 < a < 2 ^ 64.

Definition node_kids (ks : list Key) (cs : list Z) (n : BTreeNode) : Prop :=
  srep (seps ks cs) n ∧ leftmost_child n = hd 0 cs ∧ length cs = S (length ks) ∧ Forall is_addr cs.

Section Kids.
Context (ks : list Key) (cs : list Z) (n : BTreeNode) (Hn : node_kids ks cs n).

Lemma length_seps : length (seps ks cs) = length ks.
Proof. destruct Hn as (_ & _ & Hl & _). unfold seps. rewrite length_zip, length_fmap. destruct cs; cbn in *; lia. Qed.

Lemma seps_keys : (seps ks cs).*1 = ks.
Proof. destruct Hn as (_ & _ & Hl & _). apply fst_zip. rewrite length_fmap. destruct cs; cbn in *; lia. Qed.

Lemma seps_lookup i : seps ks cs !! i = (k ← ks !! i; c ← cs !! S i; Some (k, from_child_ptr c)).
Proof.
  unfold seps. rewrite lookup_zip_with, list_lookup_fmap. destruct (ks !! i); [|done]. cbn. destruct cs as [|c0 cs']; [done|].
  cbn. by destruct (cs' !! i).
Qed.

Lemma kid_ptr i c : cs !! S i = Some c → ∃ k, seps ks cs !! i = Some (k, from_child_ptr c) ∧ as_child_ptr (from_child_ptr c) = c.
Proof.
  intros Hc. destruct Hn as (_ & _ & Hl & Hf). pose proof (lookup_lt_Some _ _ _ Hc).
  destruct (lookup_lt_is_Some_2 ks i) as [k Hk]; [lia|]. exists k. rewrite seps_lookup, Hk, Hc. split; [done|].
  apply as_child_ptr_from. destruct (Forall_lookup_1 _ _ _ _ Hf Hc). lia.
Qed.

(** What [child_loop] and the final case of [child_for_key] compute for index [i]. *)
Lemma kid_of_index i c :
  cs !! i = Some c →
  (if Z.of_nat i =? 0 then leftmost_child n
   else match get_key_value n (Z.of_nat i - 1) with Some (_, pv) => as_child_ptr pv | None => 0 end) = c.
Proof.
  intros Hc. destruct Hn as ([Hr _] & Hlm & Hl & Hf). destruct i as [|i].
  - cbn. rewrite Hlm. destruct cs; by simplify_eq/=.
  - rewrite (proj2 (Z.eqb_neq _ _)) by lia. replace (Z.of_nat (S i) - 1) with (Z.of_nat i) by lia.
    rewrite (rep_get_key_value (seps ks cs)) by done. by destruct (kid_ptr i c Hc) as (k & -> & ->).
Qed.

Lemma child_loop_spec k l (i : nat) :
  drop i ks = l →
  child_loop n k (seqZ (Z.of_nat i) (zlen l)) = if decide (route k l = length l) then None else cs !! (i + route k l)%nat.
Proof.
  destruct (Hn) as ([Hr _] & _ & Hl & _). revert i. induction l as [|x l IH]; intros i Hd.
  - change (zlen []) with 0. rewrite seqZ_nil by lia. done.
  - assert (Hx : ks !! i = Some x) by (by rewrite <-(Nat.add_0_r i), <-lookup_drop, Hd).
    pose proof (lookup_lt_Some _ _ _ Hx) as Hi. destruct (lookup_lt_is_Some_2 cs (S i)) as [c Hc]; [lia|].
    destruct (lookup_lt_is_Some_2 cs i) as [c0 Hc0]; [lia|].
    rewrite zlen_cons, seqZ_cons by (pose proof (zlen_nonneg l); lia). cbn [child_loop].
    rewrite (rep_get_key_value (seps ks cs)) by done. rewrite seps_lookup, Hx, Hc. cbn [mbind option_bind].
    replace (Z.pred (1 + zlen l)) with (zlen l) by lia. replace (Z.succ (Z.of_nat i)) with (Z.of_nat (S i)) by lia.
    assert (Hd' : drop (S i) ks = l) by (rewrite (drop_S ks x i Hx) in Hd; by simplify_eq).
    cbn [route length]. destruct (key_cmp k x) eqn:E.
    2:{ rewrite decide_False by lia. rewrite Nat.add_0_r, Hc0. f_equal. by apply kid_of_index. }
    all: rewrite (IH (S i) Hd'); repeat case_decide; try lia; try done; f_equal; lia.
Qed.

Lemma child_for_key_spec k : level n ≠ 0 → cs !! route k ks = Some (child_for_key n k).
Proof.
  intros Hlev. unfold child_for_key. rewrite (proj2 (Z.eqb_neq _ _)) by done.
  destruct (Hn) as ([Hr _] & Hlm & Hl & _). rewrite (rep_count _ _ Hr).
  assert (Hz : zlen (seps ks cs) = zlen ks) by (unfold zlen; by rewrite length_seps).
  rewrite Hz. pose proof (child_loop_spec k ks 0 eq_refl) as Hcl. change (Z.of_nat 0) with 0 in Hcl. rewrite Hcl. clear Hcl. cbn [Nat.add]. pose proof (route_le k ks).
  destruct (lookup_lt_is_Some_2 cs (route k ks)) as [c Hc]; [lia|]. case_decide as E.
  - rewrite E in *. pose proof (kid_of_index (length ks) c Hc) as Hk. unfold zlen.
    destruct (Z.eqb_spec (Z.of_nat (length ks)) 0); by rewrite Hk.
  - by rewrite Hc.
Qed.
End Kids.

(** * Trees on a device *)

Section Stored.
Context {D : Type} `{BlockDevice D} (start : Z).
Implicit Types d : D.

Fixpoint stored d (h : nat) (t : tree) : Prop :=
  match h, t with
  | O, TLeaf a its => ∃ n, Btree.read d start a = Some n ∧ srep its n ∧ level n = 0
  | S h', TNode a ks cs =>
      (∃ n, Btree.read d start a = Some n ∧ node_kids ks (root_addr <$> cs) n ∧ level n = Z.of_nat (S h')) ∧
      Forall (stored d h') cs
  | _, _ => False
  end.

Lemma addrs_kid a ks cs i c x : cs !! i = Some c → x ∈ addrs c → x ∈ addrs (TNode a ks cs).
Proof.
  intros Hc Hx. cbn. right. apply elem_of_concat. exists (addrs c). split; [done|].
  apply list_elem_of_fmap_2. by eapply list_elem_of_lookup_2.
Qed.

(** Only the blocks of the tree matter. *)
Lemma stored_frame d d' h t :
  (∀ a, a ∈ addrs t → Btree.read d' start a = Btree.read d start a) → stored d h t → stored d' h t.
Proof.
  revert t. induction h as [|h IH]; intros [a its|a ks cs] Hr; cbn; try done.
  - intros (n & Hn & H'). exists n. rewrite Hr; [done|by left].
  - intros [(n & Hn & H') Hc]. split; [exists n; rewrite Hr; [done|by left]|].
    apply Forall_lookup. intros i c Hi. apply IH; [|by apply (Forall_lookup_1 _ _ _ _ Hc Hi)].
    intros x Hx. apply Hr. by eapply addrs_kid.
Qed.

Lemma kid_lookup d h a ks cs k :
  stored d (S h) (TNode a ks cs) →
  ∃ n c, Btree.read d start a = Some n ∧ level n ≠ 0 ∧ cs !! route k ks = Some c ∧ stored d h c ∧
    child_for_key n k = root_addr c ∧ root_addr c ≠ 0.
Proof.
  intros [(n & Hn & Hk & Hl) Hc]. assert (Hl0 : level n ≠ 0) by lia. pose proof (child_for_key_spec ks _ n Hk k Hl0) as Hch.
  rewrite list_lookup_fmap in Hch. destruct (cs !! route k ks) as [c|] eqn:E; [|done]. exists n, c.
  cbn in Hch. injection Hch as Hch. split_and!; try done.
  - by apply (Forall_lookup_1 _ _ _ _ Hc E).
  - destruct Hk as (_ & _ & _ & Hf). rewrite Forall_fmap in Hf. destruct (Forall_lookup_1 _ _ _ _ Hf E). cbn in *. lia.
Qed.

(** The map of a node agrees on [k] with the child [k] routes to. *)
Lemma items_map_route h lo hi a ks cs k c :
  wf (S h) lo hi (TNode a ks cs) → within lo hi k → cs !! route k ks = Some c →
  items_map (items (TNode a ks cs)) !! k = items_map (items c) !! k.
Proof.
  intros Hwf Hk Hc. pose proof (wf_sorted _ _ _ _ Hwf) as Hs. pose proof Hwf as (Hl & Hks & Hf & Hcs).
  apply option_eq. intros v. rewrite (items_map_lookup _ _ _ Hs), (items_map_lookup _ _ _ (wf_sorted _ _ _ _ (Hcs _ _ Hc))).
  cbn [items]. rewrite elem_of_concat. split.
  - intros (l & Hv & Hin). apply list_elem_of_fmap in Hin as (c' & -> & Hin). apply list_elem_of_lookup in Hin as [i Hi].
    pose proof (wf_within _ _ _ _ (Hcs i c' Hi)) as Hw. rewrite Forall_forall in Hw. specialize (Hw (k, v) Hv). cbn in Hw.
    apply lookup_lt_Some in Hi as Hlt. apply (route_unique lo hi k ks i Hks) in Hw; [|lia]. subst i. congruence.
  - intros Hv. exists (items c). split; [done|]. apply list_elem_of_fmap_2. by eapply list_elem_of_lookup_2.
Qed.

Lemma lookup_loop_stored fuel d h lo hi t k :
  (h < fuel)%nat → wf h lo hi t → stored d h t → within lo hi k →
  lookup_loop fuel d start (root_addr t) k = items_map (items t) !! k.
Proof.
  revert h lo hi t. induction fuel as [|fuel IH]; intros h lo hi t Hh Hwf Hst Hk; [lia|]. cbn [lookup_loop].
  destruct h as [|h], t as [a its|a ks cs]; try done.
  - destruct Hst as (n & Hn & Hr & Hl). cbn [root_addr]. rewrite Hn. cbn [mbind option_bind]. rewrite Hl. cbn [Z.eqb].
    exact (srep_lookup its n k Hr).
  - destruct (kid_lookup d h a ks cs k Hst) as (n & c & Hn & Hl & Hc & Hsc & Hch & Hne). cbn [root_addr].
    rewrite Hn. cbn [mbind option_bind]. rewrite (proj2 (Z.eqb_neq _ _)), Hch, (proj2 (Z.eqb_neq _ _)) by done.
    rewrite (items_map_route h lo hi a ks cs k c) by done. pose proof Hwf as (_ & _ & _ & Hcs).
    apply (IH h (lo_of lo ks (route k ks)) (hi_of hi ks (route k ks)) c); [lia|by apply Hcs|done|by apply route_within].
Qed.

Lemma lookup_stored d h t k :
  (h < 8)%nat → wf h None None t → stored d h t → btree_lookup d start (root_addr t) k = items_map (items t) !! k.
Proof. intros. by eapply lookup_loop_stored. Qed.

(** The scan meets every item, in order. *)
Lemma kid_ptrs ks cs n : node_kids ks cs n → leftmost_child n :: (as_child_ptr ∘ snd <$> node_items n) = cs.
Proof.
  intros Hn. pose proof Hn as ([Hr _] & Hlm & Hl & Hf). rewrite (rep_node_items (seps ks cs)) by done.
  destruct cs as [|c0 cs]; [done|]. cbn [hd] in Hlm. rewrite Hlm. f_equal. apply list_eq. intros i.
  rewrite list_lookup_fmap. destruct (cs !! i) as [c|] eqn:E.
  - destruct (kid_ptr ks (c0 :: cs) n Hn i c) as (k & -> & Hp); [done|]. cbn [fmap option_fmap option_map compose snd]. by rewrite Hp.
  - rewrite (seps_lookup ks (c0 :: cs) n Hn). destruct (ks !! i); [|done]. cbn [mbind option_bind]. change ((c0 :: cs) !! S i) with (cs !! i). by rewrite E.
Qed.

Lemma walk_stored fuel d h t :
  (h < fuel)%nat → stored d h t → walk fuel d start (root_addr t) = (true, items t).
Proof.
  revert h t. induction fuel as [|fuel IH]; intros h t Hh Hst; [lia|]. cbn [walk].
  destruct h as [|h], t as [a its|a ks cs]; try done.
  - destruct Hst as (n & Hn & [Hr _] & Hl). cbn [root_addr]. rewrite Hn, Hl. cbn [Z.eqb]. by rewrite (rep_node_items its).
  - destruct Hst as [(n & Hn & Hk & Hl) Hc]. cbn [root_addr]. rewrite Hn, (proj2 (Z.eqb_neq _ _)) by lia.
    rewrite (kid_ptrs ks (root_addr <$> cs) n Hk). destruct Hk as (_ & _ & _ & Hf). clear Hn Hl. cbn [items].
    induction cs as [|c cs IHc]; [done|]. apply Forall_cons in Hc as [Hc Hcs]. rewrite fmap_cons in Hf. apply Forall_cons in Hf as [H0 Hf].
    rewrite !fmap_cons. cbn [walk_all concat]. rewrite (proj2 (Z.eqb_neq _ _)) by (unfold is_addr in H0; lia).
    rewrite (IH h c) by (done || lia). by rewrite IHc.
Qed.

Lemma scan_stored d h t : (h < 9)%nat → stored d h t → btree_scan_leaves d start (root_addr t) = (true, items t).
Proof. apply walk_stored. Qed.
End Stored.
