(* ===== verification/NfsCow.v ===== *)
(** Copy-on-write of the NeuralFS tree: replacing a child pointer, and rewriting the
    path from a leaf to the root on fresh blocks. *)

From S2P Require Import Prelude Checksum Flash NfsNode NfsRep NfsFormat NfsVolume NfsDisk NfsSuper NfsJournal NfsAlloc NfsTree.
From Stdlib Require Import Sorting.Sorted.
Import Btree Super Volume.

(** * Child pointers *)

Definition repl (old new_ c : Z) : Z := if c =? old then new_ else c.

Definition repl_item (old new_ : Z) (it : Key * bytes) : Key * bytes :=
  (it.1, if as_child_ptr it.2 =? old then from_child_ptr new_ else it.2).

Lemma replace_loop_spec old new_ l i its n found :
  node_rep its n → drop i its = l →
  ∃ found' n', replace_loop old new_ (seqZ (Z.of_nat i) (zlen l)) found n = Ok (found', n') ∧
    node_rep (take i its ++ (repl_item old new_ <$> l)) n' ∧ same_frame n n'.
Proof.
  revert i its n found. induction l as [|[k v] l IH]; intros i its n found Hr Hd.
  - exists found, n. change (zlen []) with 0. rewrite seqZ_nil by lia. split_and!; [done| |done]. cbn. rewrite app_nil_r.
    by rewrite <-(take_drop i its), Hd, app_nil_r in Hr.
  - assert (Hl : its !! i = Some (k, v)) by (by rewrite <-(Nat.add_0_r i), <-lookup_drop, Hd).
    assert (Hd' : drop (S i) its = l) by (rewrite (drop_S its _ i Hl) in Hd; by simplify_eq).
    rewrite zlen_cons, seqZ_cons by (pose proof (zlen_nonneg l); lia). cbn [replace_loop].
    rewrite (rep_get_key_value its), Hl by done. replace (Z.pred (1 + zlen l)) with (zlen l) by lia.
    replace (Z.succ (Z.of_nat i)) with (Z.of_nat (S i)) by lia. cbn [fmap list_fmap]. unfold repl_item at 1; cbn [fst snd].
    destruct (as_child_ptr v =? old).
    + destruct (rep_update_at its n i k v (from_child_ptr new_)) as (n1 & H1 & Hr1 & Hf1); [done..|apply zlen_from_child_ptr|].
      rewrite H1. cbn [mbind res_bind]. apply lookup_lt_Some in Hl as Hi.
      destruct (IH (S i) _ n1 true Hr1) as (f' & n' & H' & Hr' & Hf'); [by rewrite drop_insert_lt by lia|].
      exists f', n'. split_and!; [done| |by transitivity n1].
      rewrite (take_S_r _ i (k, from_child_ptr new_)), take_insert_ge, <-app_assoc in Hr' by (by rewrite ?list_lookup_insert_eq). done.
    + destruct (IH (S i) its n found Hr Hd') as (f' & n' & H' & Hr' & Hf'). exists f', n'. split_and!; [done| |done].
      by rewrite (take_S_r _ i (k, v)), <-app_assoc in Hr'.
Qed.

Lemma replace_child_spec ks cs n old new_ :
  node_kids ks cs n → is_addr new_ →
  ∃ found n', replace_child_ptr old new_ n = Ok (found, n') ∧ node_kids ks (repl old new_ <$> cs) n' ∧
    level n' = level n ∧ block_addr n' = block_addr n.
Proof.
  intros ([Hr Hs] & Hlm & Hl & Hf) Hnew. destruct cs as [|c0 cs]; [done|]. cbn [hd] in Hlm. unfold replace_child_ptr.
  set (n1 := if leftmost_child n =? old then set_leftmost_child new_ n else n).
  assert (Hp : (if leftmost_child n =? old then (true, set_leftmost_child new_ n) else (false, n)) = (leftmost_child n =? old, n1))
    by (unfold n1; by destruct (leftmost_child n =? old)).
  rewrite Hp. clear Hp. assert (Hr1 : node_rep (seps ks (c0 :: cs)) n1) by (unfold n1; case_match; [by apply rep_set_leftmost|done]).
  rewrite (rep_count _ _ Hr1).
  destruct (replace_loop_spec old new_ (seps ks (c0 :: cs)) 0 _ n1 (leftmost_child n =? old) Hr1 eq_refl) as (f' & n' & H' & Hr' & Hf').
  cbn [take app] in Hr'. exists f', n'. split; [exact H'|].
  assert (Hseps : repl_item old new_ <$> seps ks (c0 :: cs) = seps ks (repl old new_ <$> c0 :: cs)).
  { unfold seps. cbn [tail fmap list_fmap]. apply Forall_cons in Hf as [_ Hf]. clear -Hf Hnew. revert ks.
    induction Hf as [|c cs Hc _ IH]; intros [|k ks]; try done. rewrite !fmap_cons. cbn [zip_with]. rewrite fmap_cons. f_equal; [|apply IH].
    unfold repl_item, repl; cbn [fst snd]. rewrite as_child_ptr_from by (unfold is_addr in Hc; lia). by destruct (c =? old). }
  rewrite Hseps in Hr'. unfold node_kids. split_and!.
  - split; [done|]. unfold sorted in *. rewrite <-Hseps, <-list_fmap_compose. exact Hs.
  - rewrite (same_frame_leftmost _ _ Hf'). cbn. unfold n1, repl. rewrite Hlm. destruct (c0 =? old); [|done].
    apply (leftmost_set (seps ks (c0 :: cs))); [done|unfold is_addr in Hnew; lia].
  - by rewrite length_fmap.
  - apply Forall_fmap. eapply Forall_impl; [exact Hf|]. intros c Hc. unfold compose, repl. by destruct (c =? old).
  - rewrite (same_frame_level _ _ Hf'). unfold n1. case_match; [|done]. unfold set_leftmost_child. eapply level_patch; [done|lia].
  - destruct Hf' as [-> _]. unfold n1. by case_match.
Qed.

(** * Contexts *)

(** An internal node with a hole among its children. A path is a list of frames,
    bottom first. *)
Record frame := mkFrame { f_addr : Z; f_keys : list Key; f_l : list tree; f_r : list tree }.

Definition set_f_addr (a : Z) (f : frame) : frame := mkFrame a (f_keys f) (f_l f) (f_r f).
Definition fill (f : frame) (t : tree) : tree := TNode (f_addr f) (f_keys f) (f_l f ++ t :: f_r f).
Fixpoint plug (fs : list frame) (t : tree) : tree := match fs with [] => t | f :: fs' => plug fs' (fill f t) end.

(** The blocks of the children when the hole is [c]. *)
Definition f_kids (f : frame) (c : Z) : list Z := (root_addr <$> f_l f) ++ c :: (root_addr <$> f_r f).
Definition sibs (f : frame) : list tree := f_l f ++ f_r f.
Definition sib_addrs (fs : list frame) : list Z := concat ((λ f, concat (addrs <$> sibs f)) <$> fs).

(** The node has bounds [lo'], [hi'] and its hole, of height [h], has [lo], [hi]. *)
Definition frame_ok (h : nat) (lo' hi' : option Key) (f : frame) (lo hi : option Key) : Prop :=
  (length (f_l f) + length (f_r f))%nat = length (f_keys f) ∧ StronglySorted key_lt (f_keys f) ∧
  Forall (within lo' hi') (f_keys f) ∧ lo = lo_of lo' (f_keys f) (length (f_l f)) ∧ hi = hi_of hi' (f_keys f) (length (f_l f)) ∧
  (∀ i c, f_l f !! i = Some c → wf h (lo_of lo' (f_keys f) i) (hi_of hi' (f_keys f) i) c) ∧
  (∀ i c, f_r f !! i = Some c →
     wf h (lo_of lo' (f_keys f) (S (length (f_l f)) + i)) (hi_of hi' (f_keys f) (S (length (f_l f)) + i)) c).

(** The hole has height [h] and bounds [lo], [hi]. *)
Fixpoint wf_ctx (h : nat) (lo hi : option Key) (fs : list frame) : Prop :=
  match fs with
  | [] => lo = None ∧ hi = None
  | f :: fs' => ∃ lo' hi', frame_ok h lo' hi' f lo hi ∧ wf_ctx (S h) lo' hi' fs'
  end.

Lemma frame_fill h lo' hi' f lo hi t : frame_ok h lo' hi' f lo hi → wf h lo hi t → wf (S h) lo' hi' (fill f t).
Proof.
  intros (Hlen & Hs & Hf & -> & -> & Hl & Hr) Ht. cbn. split_and!; [rewrite length_app; cbn; lia|done|done|].
  intros i c Hi. destruct (decide (i < length (f_l f))%nat).
  - rewrite lookup_app_l in Hi by done. by apply Hl.
  - rewrite lookup_app_r in Hi by lia. destruct (i - length (f_l f))%nat as [|j] eqn:E; cbn in Hi.
    + injection Hi as ->. replace i with (length (f_l f)) by lia. done.
    + replace i with (S (length (f_l f)) + j)%nat by lia. by apply Hr.
Qed.

Lemma wf_plug fs h lo hi t : wf_ctx h lo hi fs → wf h lo hi t → wf (length fs + h) None None (plug fs t).
Proof.
  revert h lo hi t. induction fs as [|f fs IH]; intros h lo hi t Hc Ht; cbn [plug length]; [by destruct Hc as [-> ->]|].
  destruct Hc as (lo' & hi' & Hf & Hc). rewrite Nat.add_succ_comm. apply (IH (S h) lo' hi'); [done|]. by eapply frame_fill.
Qed.

Definition ctx_l (fs : list frame) : list (Key * bytes) := concat ((λ f, concat (items <$> f_l f)) <$> reverse fs).
Definition ctx_r (fs : list frame) : list (Key * bytes) := concat ((λ f, concat (items <$> f_r f)) <$> fs).

Lemma items_plug fs t : items (plug fs t) = ctx_l fs ++ items t ++ ctx_r fs.
Proof.
  revert t. induction fs as [|f fs IH]; intros t; cbn [plug]; [unfold ctx_l, ctx_r; cbn; by rewrite app_nil_r|].
  rewrite IH. unfold ctx_l, ctx_r. rewrite reverse_cons, fmap_app, concat_app. cbn. rewrite app_nil_r, fmap_app, concat_app. cbn.
  by rewrite <-!app_assoc.
Qed.

Lemma root_plug fs t : root_addr (plug fs t) = default (root_addr t) (f_addr <$> last fs).
Proof.
  revert t. induction fs as [|f fs IH]; intros t; [done|]. cbn [plug]. rewrite IH. destruct fs as [|g fs]; [done|]. rewrite last_cons_cons. by destruct (last_is_Some (g :: fs)) as [_ [x ->]].
Qed.

Lemma plug_snoc fs f t : plug (fs ++ [f]) t = fill f (plug fs t).
Proof. revert t. induction fs as [|g fs IH]; intros t; [done|]. apply IH. Qed.

(** Every key leads to a leaf. *)
Lemma focus h lo hi t k :
  wf h lo hi t → within lo hi k →
  ∃ fs a its lo' hi', t = plug fs (TLeaf a its) ∧ length fs = h ∧ within lo' hi' k ∧
    wf 0 lo' hi' (TLeaf a its) ∧
    (∀ gs, wf_ctx h lo hi gs → wf_ctx 0 lo' hi' (fs ++ gs)) ∧
    Forall (λ f, route k (f_keys f) = length (f_l f)) fs.
Proof.
  revert lo hi t. induction h as [|h IH]; intros lo hi [a its|a ks cs] Hwf Hk; try done.
  - exists [], a, its, lo, hi. split_and!; try done; apply Hwf.
  - pose proof Hwf as (Hlen & Hs & Hf & Hc). pose proof (route_le k ks).
    destruct (lookup_lt_is_Some_2 cs (route k ks)) as [c Ec]; [lia|].
    destruct (IH _ _ c (Hc _ _ Ec) (route_within lo hi k ks Hk)) as (fs & a' & its & lo' & hi' & -> & Hfs & Hk' & Hwl & Hctx & Hrt).
    set (f := mkFrame a ks (take (route k ks) cs) (drop (S (route k ks)) cs)).
    assert (Hfl : length (f_l f) = route k ks) by (cbn; rewrite length_take; lia).
    exists (fs ++ [f]), a', its, lo', hi'. split_and!; try done.
    + rewrite plug_snoc. unfold fill. cbn. by rewrite take_drop_middle.
    + rewrite length_app. cbn. lia.
    + intros gs Hgs. rewrite <-app_assoc. apply Hctx. cbn [app wf_ctx]. exists lo, hi. split; [|done].
      unfold frame_ok. rewrite Hfl. cbn [f_keys f_l f_r f]. split_and!; try done.
      * rewrite length_drop. lia.
      * intros i c' Hi. apply Hc. rewrite lookup_take_Some in Hi. apply Hi.
      * intros i c' Hi. apply Hc. rewrite lookup_drop in Hi. exact Hi.
    + apply Forall_app. split; [done|]. apply Forall_singleton. by rewrite Hfl.
Qed.

(** * Steps of a mounted volume *)

(** What a node holds, whatever its address, generation and checksum. *)
Definition looks (its : list (Key * bytes)) (lvl lm : Z) (n : BTreeNode) : Prop :=
  srep its n ∧ level n = lvl ∧ leftmost_child n = lm.

Lemma looks_addr its lvl lm n a : looks its lvl lm n → looks its lvl lm (set_block_addr a n).
Proof. intros ([Hr Hs] & Hl & Hm). split_and!; try done. split; [by apply rep_set_block_addr|done]. Qed.

Lemma looks_generation its lvl lm n g : looks its lvl lm n → looks its lvl lm (set_generation g n).
Proof.
  intros ([Hr Hs] & Hl & Hm). unfold set_generation. split_and!.
  - split; [by apply rep_set_generation|done].
  - rewrite <-Hl. eapply level_patch; [done|lia].
  - rewrite <-Hm. eapply leftmost_patch; [done|lia|autorewrite with zlen; lia].
Qed.

Lemma looks_stamp its lvl lm n : looks its lvl lm n → looks its lvl lm (stamp n).
Proof.
  intros ([Hr Hs] & Hl & Hm). split_and!; [split; [by apply stamp_frame|done]|..].
  - rewrite <-Hl. by eapply level_stamp.
  - rewrite <-Hm. by eapply leftmost_stamp.
Qed.

Lemma looks_frame its its' lvl lm n n' : looks its lvl lm n → srep its' n' → same_frame n n' → looks its' lvl lm n'.
Proof.
  intros (_ & Hl & Hm) Hs Hf. split_and!; [done|by rewrite (same_frame_level _ _ Hf)|by rewrite (same_frame_leftmost _ _ Hf)].
Qed.

Lemma kids_looks ks cs n lvl : node_kids ks cs n ∧ level n = lvl ↔
  looks (seps ks cs) lvl (hd 0 cs) n ∧ length cs = S (length ks) ∧ Forall is_addr cs.
Proof. unfold node_kids, looks. tauto. Qed.

Section Steps.
Set Default Proof Using "All".
Context {D : Type} `{File.DiskLaws D valid sec}.
Implicit Types (w : World D) (d : D) (own X : gset Z).

Local Abbreviation blk := (blk (sec := sec)).
Local Abbreviation start w := (start_lba (vol w)).
Local Abbreviation rd w a := (Btree.read (dev w) (start_lba (vol w)) a).
Local Abbreviation root w := (inode_tree_root (sb (vol w))).

(** The disk is good, and [own] are the blocks in use. *)
Definition ready w own : Prop :=
  region (valid := valid) (start w) (total_blocks (sb (vol w))) ∧ alloc_ok (vol w) own.

(** What an operation may change: at most [n] blocks more are logged and at most [n]
    allocated; the blocks [X] keep their contents; of the superblock only the root, the
    free count and the frontier move. *)
Record moved (n : Z) X w w' : Prop := mkMoved {
  mv_start : start w' = start w;
  mv_tx : tx_id (vol w') = tx_id (vol w);
  mv_dirty : dirty (vol w') = dirty (vol w);
  mv_jtx : Journal.tx_id (journal (vol w')) = Journal.tx_id (journal (vol w));
  mv_logged : ∃ l, Journal.dirty_blocks (journal (vol w')) = Journal.dirty_blocks (journal (vol w)) ++ l ∧
    zlen l ≤ n ∧ Forall (λ b, zlen b.2 = 4096) l;
  mv_sb : ∃ r fb nc, sb (vol w') = with_inode_tree_root r (with_free_blocks fb (with_next_cow_block nc (sb (vol w))));
  mv_space : space (vol w) - n ≤ space (vol w');
  mv_keeps : ∀ b, b ∈ X → blk (dev w') (start w) b = blk (dev w) (start w) b;
}.

Lemma moved_refl X w : moved 0 X w w.
Proof.
  split; try done; [exists []; by rewrite app_nil_r| |lia].
  exists (root w), (free_blocks (sb (vol w))), (next_cow_block (sb (vol w))). by destruct (sb (vol w)).
Qed.

Lemma moved_trans n m X w1 w2 w3 : moved n X w1 w2 → moved m X w2 w3 → moved (n + m) X w1 w3.
Proof.
  intros [A1 A2 A3 A4 (l & Al & Al2 & Al3) (r & fb & nc & As) Asp Ak] [B1 B2 B3 B4 (l' & Bl & Bl2 & Bl3) (r' & fb' & nc' & Bs) Bsp Bk].
  split; try congruence.
  - exists (l ++ l'). rewrite Bl, Al, app_assoc, zlen_app. split_and!; [done|lia|by apply Forall_app].
  - exists r', fb', nc'. by rewrite Bs, As.
  - lia.
  - intros b Hb. rewrite A1 in Bk. by rewrite Bk, Ak.
Qed.

Lemma moved_weaken n m X Y w w' : moved n X w w' → n ≤ m → Y ⊆ X → moved m Y w w'.
Proof.
  intros [A1 A2 A3 A4 (l & Al & Al2 & Al3) As Asp Ak] Hn HX. split; try done; [|lia|set_solver].
  exists l. split_and!; [done|lia|done].
Qed.

(** A block in use is an address of the volume. *)
Lemma own_addr w own b : ready w own → b ∈ own → 0 ≤ b < total_blocks (sb (vol w)) ∧ is_addr b.
Proof. intros [_ [Hf Ht _ _ _ _ Ho]] Hb. specialize (Ho b Hb). unfold is_addr. lia. Qed.

Lemma ready_moved n X w w' own own' : ready w own → moved n X w w' → alloc_ok (vol w') own' → ready w' own'.
Proof.
  intros [Hrg _] Hm Hal. split; [|done]. rewrite (mv_start _ _ _ _ Hm). destruct (mv_sb _ _ _ _ Hm) as (r & fb & nc & ->). exact Hrg.
Qed.

(** Reading a node whose block has not changed. *)
Lemma read_kept n X w w' own a : ready w own → moved n X w w' → a ∈ X → a ∈ own → rd w' a = rd w a.
Proof.
  intros Hr Hm Ha Ho. destruct (own_addr w own a Hr Ho) as [Hb _]. destruct Hr as [Hrg _]. rewrite (mv_start _ _ _ _ Hm).
  rewrite !(node_read _ _ Hrg) by done. by rewrite (mv_keeps _ _ _ _ Hm).
Qed.

(** ** One lemma per primitive *)

Lemma next_block_run w own :
  ready w own → 1 ≤ space (vol w) →
  ∃ b w', next_block w = (Ok (Some b), w') ∧ b ∉ own ∧ ready w' ({[b]} ∪ own) ∧ moved 1 own w w' ∧ dev w' = dev w ∧
    root w' = root w ∧ tx_gen (vol w') = tx_gen (vol w) ∧ journal (vol w') = journal (vol w).
Proof.
  intros Hr Hsp. destruct (next_block_spec (vol w) own (proj2 Hr) Hsp) as (b & v' & Hn & Hb & Hal & (S1 & S2 & S3 & S4 & fb & nc & S5) & Hs).
  exists b, (set_vol v' w). unfold next_block, on_vol. rewrite Hn.
  assert (Hm : moved 1 own w (set_vol v' w)).
  { split; cbn; try done; [by rewrite S3|exists []; by rewrite S3, app_nil_r|].
    exists (root w), fb, nc. rewrite S5. by destruct (sb (vol w)). }
  split_and!; try done; [by eapply ready_moved|by cbn; rewrite S5|unfold tx_gen; cbn; by rewrite S2].
Qed.

Lemma reclaim_run w own b :
  ready w own → b ∈ own →
  ∃ w', reclaim_block b w = (Ok tt, w') ∧ ready w' (own ∖ {[b]}) ∧ moved 0 own w w' ∧ dev w' = dev w ∧ root w' = root w ∧
    tx_gen (vol w') = tx_gen (vol w).
Proof.
  intros Hr Hb. destruct (reclaim_spec (vol w) own b (proj2 Hr) Hb) as (Hal & (S1 & S2 & S3 & S4 & fb & nc & S5) & Hs).
  exists (set_vol (reclaim_block1 b (vol w)) w).
  assert (Hm : moved 0 own w (set_vol (reclaim_block1 b (vol w)) w)).
  { split; cbn; try done; [by rewrite S3|exists []; by rewrite S3, app_nil_r| |lia].
    exists (root w), fb, nc. rewrite S5. by destruct (sb (vol w)). }
  split_and!; try done; [by eapply ready_moved|by cbn; rewrite S5|unfold tx_gen; cbn; by rewrite S2].
Qed.

Lemma set_root_run w own a :
  ready w own → ∃ w', set_root a w = (Ok tt, w') ∧ ready w' own ∧ moved 0 own w w' ∧ dev w' = dev w ∧ root w' = a.
Proof.
  intros Hr. eexists. split; [reflexivity|]. assert (Hm : moved 0 own w (set_vol (with_sb (with_inode_tree_root a (sb (vol w))) (vol w)) w)).
  { split; cbn; try done; [exists []; by rewrite app_nil_r| |unfold space; cbn; lia].
    exists a, (free_blocks (sb (vol w))), (next_cow_block (sb (vol w))). by destruct (sb (vol w)). }
  split_and!; try done. eapply ready_moved; [done..|]. by destruct Hr as [_ []].
Qed.

Lemma log_run w own a data :
  ready w own → zlen data = 4096 →
  ∃ w', log_block a data w = (Ok tt, w') ∧ ready w' own ∧ moved 1 own w w' ∧ dev w' = dev w ∧ root w' = root w ∧
    tx_gen (vol w') = tx_gen (vol w).
Proof.
  intros Hr Hz. eexists. split; [reflexivity|].
  assert (Hm : moved 1 own w (set_vol (with_journal (Journal.log_block a data (journal (vol w))) (vol w)) w)).
  { split; cbn; try done; [eexists [_]; split_and!; [done..|by apply Forall_singleton]| |unfold space; cbn; lia].
    exists (root w), (free_blocks (sb (vol w))), (next_cow_block (sb (vol w))). by destruct (sb (vol w)). }
  split_and!; try done. eapply ready_moved; [done..|]. by destruct Hr as [_ []].
Qed.

Lemma write_node_run w own its lvl lm n :
  ready w own → block_addr n ∈ own → looks its lvl lm n →
  ∃ w', write_node n w = (Ok true, w') ∧ ready w' own ∧ moved 0 (own ∖ {[block_addr n]}) w w' ∧ vol w' = vol w ∧
    ∃ n', rd w' (block_addr n) = Some n' ∧ looks its lvl lm n' ∧ block_addr n' = block_addr n.
Proof.
  intros Hr Hb Hn. destruct (own_addr w own _ Hr Hb) as [Hb' _]. pose proof (rep_len _ _ (proj1 (proj1 Hn))) as Hz.
  destruct (node_write (start w) _ (proj1 Hr) (dev w) n Hb' Hz) as (d' & Hw & Hd).
  exists (mkWorld (vol w) d'). unfold write_node. rewrite Hw. split_and!; try done.
  - split; cbn; try done; [exists []; by rewrite app_nil_r| |lia|].
    + exists (root w), (free_blocks (sb (vol w))), (next_cow_block (sb (vol w))). by destruct (sb (vol w)).
    + intros b Hbx. apply (wrote_other _ _ _ _ _ _ Hd). set_solver.
  - exists (stamp n). cbn. rewrite (node_read _ _ (proj1 Hr)) by done. destruct Hd as [-> _].
    rewrite stamp_verifies by done. split_and!; [done|by apply looks_stamp|done].
Qed.

(** ** The journal only grows *)

Definition logged w : Prop := Journal.dirty_blocks (journal (vol w)) ≠ [].

Lemma logged_moved n X w w' : logged w → moved n X w w' → logged w'.
Proof. intros Hl [_ _ _ _ (l & El & _) _ _ _]. unfold logged in *. rewrite El. by destruct (Journal.dirty_blocks (journal (vol w))). Qed.

Lemma log_logged a data w w' : log_block a data w = (Ok tt, w') → logged w'.
Proof. intros [= <-]. unfold logged. cbn. by destruct (Journal.dirty_blocks (journal (vol w))). Qed.

Lemma store_logged a data n w w' : (∀ A (K : bool → Op D A), (log_block a data;; ok ← write_node n; K ok) w = K true w') → logged w'.
Proof.
  intros HK. specialize (HK bool mret). unfold log_block, upd_vol, m_modify in HK. cbn in HK. unfold write_node in HK.
  unfold mbind, M_bind, mret, M_ret in HK. destruct (Btree.write _ _ _) as [[ok n'] d]. injection HK as _ <-.
  unfold logged. cbn. by destruct (Journal.dirty_blocks (journal (vol w))).
Qed.

End Steps.
