(* ===== verification/NfsInsert.v ===== *)
(** Inserting an item into the NeuralFS tree: copy-on-write of the path, splitting of
    full nodes, and the refinement of insertion into a map. *)

From S2P Require Import Prelude Checksum Flash NfsNode NfsRep NfsFormat NfsVolume NfsDisk NfsSuper NfsJournal NfsAlloc NfsTree NfsCow.
From Stdlib Require Import Sorting.Sorted.
Import Btree Super Volume.

(** * Paths *)

(** Frames that differ only in their block. *)
Definition same_shape (f f' : frame) : Prop := f' = set_f_addr (f_addr f') f.

Definition f_addrs (fs : list frame) : gset Z := list_to_set (f_addr <$> fs).

(** The ancestors as [collect_path] read them, bottom first; [c] fills the hole. *)
Fixpoint path_mem (h : nat) (c : Z) (fs : list frame) (ns : list BTreeNode) : Prop :=
  match fs, ns with
  | [], [] => True
  | f :: fs', n :: ns' =>
      (node_kids (f_keys f) (f_kids f c) n ∧ level n = Z.of_nat (S h)) ∧ block_addr n = f_addr f ∧ path_mem (S h) (f_addr f) fs' ns'
  | _, _ => False
  end.

Definition sib_roots_in (R : gset Z) (fs : list frame) : Prop := ∀ f s, f ∈ fs → s ∈ sibs f → root_addr s ∈ R.

Lemma repl_kids f c c' : (∀ s, s ∈ sibs f → root_addr s ≠ c) → repl c c' <$> f_kids f c = f_kids f c'.
Proof.
  intros Hs. unfold f_kids. rewrite fmap_app, fmap_cons.
  assert (Hid : ∀ l : list tree, (∀ s, s ∈ l → root_addr s ≠ c) → repl c c' <$> (root_addr <$> l) = root_addr <$> l).
  { intros l Hl. rewrite <-list_fmap_compose. apply Forall_fmap_ext_1, Forall_forall. intros s Hin. unfold compose, repl.
    rewrite (proj2 (Z.eqb_neq _ _)); [done|]. by apply Hl. }
  rewrite !Hid by (intros s ?; apply Hs; unfold sibs; set_solver). unfold repl. by rewrite Z.eqb_refl.
Qed.

Lemma last_default_shape {A B} (x : A) (f : B → A) (b : B) l : default x (f <$> last (b :: l)) = default (f b) (f <$> last l).
Proof. destruct l as [|b' l]; [done|]. rewrite last_cons_cons. by destruct (proj2 (last_is_Some (b' :: l))) as [y ->]. Qed.

Lemma shape_sib_addrs fs fs' : Forall2 same_shape fs fs' → sib_addrs fs' = sib_addrs fs.
Proof. unfold sib_addrs. intros Hsh. induction Hsh as [|f f' l l' -> _ IH]; [done|]. cbn. by rewrite IH. Qed.

Lemma shape_ctx_r fs fs' : Forall2 same_shape fs fs' → ctx_r fs' = ctx_r fs.
Proof. unfold ctx_r. intros Hsh. induction Hsh as [|f f' l l' -> _ IH]; [done|]. cbn. by rewrite IH. Qed.

Lemma shape_ctx_l fs fs' : Forall2 same_shape fs fs' → ctx_l fs' = ctx_l fs.
Proof.
  unfold ctx_l. intros Hsh. induction Hsh as [|f f' l l' -> _ IH]; [done|]. rewrite !reverse_cons, !fmap_app, !concat_app.
  by rewrite IH.
Qed.

Lemma shape_wf_ctx fs fs' h lo hi : Forall2 same_shape fs fs' → wf_ctx h lo hi fs → wf_ctx h lo hi fs'.
Proof.
  intros Hsh. revert h lo hi. induction Hsh as [|f f' l l' -> _ IH]; intros h lo hi; [done|].
  intros (lo' & hi' & Hf & Hc). exists lo', hi'. split; [exact Hf|]. by apply IH.
Qed.

Lemma shape_length fs fs' : Forall2 same_shape fs fs' → length fs' = length fs.
Proof. intros ?. symmetry. by eapply Forall2_length. Qed.

Section Insert.
Context {D : Type} `{File.DiskLaws D valid sec}.
Implicit Types (w : World D) (d : D) (own X R : gset Z).

Local Abbreviation rd w a := (Btree.read (dev w) (start_lba (vol w)) a).
Local Abbreviation root w := (inode_tree_root (sb (vol w))).
Local Abbreviation ready := (ready (valid := valid)).
Local Abbreviation moved := (moved (sec := sec)).

Fixpoint path_read w (h : nat) (c : Z) (fs : list frame) : Prop :=
  match fs with
  | [] => True
  | f :: fs' =>
      (∃ n, rd w (f_addr f) = Some n ∧ node_kids (f_keys f) (f_kids f c) n ∧ level n = Z.of_nat (S h)) ∧
      path_read w (S h) (f_addr f) fs'
  end.

(** Storing a node in a block that has just been allocated. *)
Lemma store_run w own its lvl lm n a :
  ready w own → block_addr n = a → a ∈ own → looks its lvl lm n →
  ∃ w', (∀ A (K : bool → Op D A), (log_block a (data n);; ok ← write_node n; K ok) w = K true w') ∧ ready w' own ∧
    moved 1 (own ∖ {[a]}) w w' ∧ root w' = root w ∧ tx_gen (vol w') = tx_gen (vol w) ∧
    ∃ n', rd w' a = Some n' ∧ looks its lvl lm n'.
Proof.
  intros Hr <- Hb Hn. destruct (log_run w own (block_addr n) (data n) Hr) as (w1 & H1 & Hr1 & Hm1 & Hd1 & Hrt1 & Hg1).
  { by apply (rep_len its), Hn. }
  destruct (write_node_run w1 own its lvl lm n Hr1 Hb Hn) as (w2 & H2 & Hr2 & Hm2 & Hv2 & n' & Hrd & Hlk & _).
  exists w2. split; [intros A K; m_run (exact H1); m_run (exact H2); done|]. rewrite Hv2 in Hrd |- *. split_and!; try done; [|by exists n'].
  change 1 with (1 + 0). eapply moved_trans; [|exact Hm2]. eapply moved_weaken; [exact Hm1|lia|set_solver].
Qed.

(** ** Rewriting the ancestors *)

Lemma cow_up_spec ns : ∀ fs w R old new_ h,
  path_mem h old fs ns → ready w (R ∪ f_addrs fs) → R ## f_addrs fs → NoDup (f_addr <$> fs) →
  sib_roots_in R fs → old ∉ R → new_ ∈ R → 2 * zlen fs ≤ space (vol w) →
  ∃ w' fs', cow_up ns old new_ w = (Ok true, w') ∧ Forall2 same_shape fs fs' ∧ ready w' (R ∪ f_addrs fs') ∧
    R ## f_addrs fs' ∧ NoDup (f_addr <$> fs') ∧ moved (2 * zlen fs) R w w' ∧ path_read w' h new_ fs' ∧
    root w' = default (root w) (f_addr <$> last fs') ∧ tx_gen (vol w') = tx_gen (vol w).
Proof.
  induction ns as [|n ns IH]; intros [|f fs] w R old new_ h Hp Hr Hdis Hnd Hsib Hold Hnew Hsp; try done.
  - exists w, []. split_and!; try done. apply moved_refl.
  - destruct Hp as (Hk & Ha & Hp). rewrite zlen_cons in Hsp. pose proof (zlen_nonneg fs) as Hzf. cbn [fmap list_fmap] in Hnd.
    apply NoDup_cons in Hnd as [Hnf Hnd]. cbn [cow_up].
    destruct (next_block_run w _ Hr) as (p & w1 & H1 & Hp1 & Hr1 & Hm1 & Hd1 & Hrt1 & Hg1 & _); [lia|].
    m_run (exact H1). m_run reflexivity. cbn [f_addrs] in *.
    assert (Hf : f_addr f ∈ f_addrs (f :: fs)) by (unfold f_addrs; set_solver).
    assert (Hfs : f_addrs (f :: fs) = {[f_addr f]} ∪ f_addrs fs) by done.
    assert (Hff : f_addr f ∉ f_addrs fs) by (unfold f_addrs; by rewrite elem_of_list_to_set).
    assert (Hk1 : node_kids (f_keys f) (f_kids f old) (set_block_addr p n) ∧ level (set_block_addr p n) = Z.of_nat (S h)).
    { apply kids_looks. apply kids_looks in Hk as [Hk ?]. split; [by apply looks_addr|done]. }
    destruct (own_addr w1 _ new_ Hr1) as [_ Hnew_a]; [set_solver|]. destruct (own_addr w1 _ p Hr1) as [_ Hpa]; [set_solver|].
    destruct (replace_child_spec _ _ _ old new_ (proj1 Hk1) Hnew_a) as (found & n1 & Hn1 & Hk2 & Hl2 & Ha2).
    rewrite repl_kids in Hk2 by (intros s Hs Heq; apply Hold; rewrite <-Heq; apply (Hsib f s); [by left|done]).
    m_run (unfold m_lift; rewrite Hn1; reflexivity). cbn [block_addr set_block_addr] in Ha2.
    set (n2 := set_generation (tx_gen (vol w1)) n1). assert (Ha' : block_addr n2 = p) by exact Ha2.
    destruct (proj1 (kids_looks (f_keys f) (f_kids f new_) n1 (Z.of_nat (S h)))) as [Hlk Hkk].
    { split; [done|]. rewrite Hl2. apply Hk1. }
    apply (looks_generation _ _ _ _ (tx_gen (vol w1))) in Hlk. fold n2 in Hlk.
    destruct (store_run w1 _ _ _ _ n2 p Hr1 Ha' ltac:(set_solver) Hlk) as (w2 & H2 & Hr2 & Hm2 & Hrt2 & Hg2 & n3 & Hrd3 & Hlk3).
    rewrite H2. clear H2. cbn [negb].
    destruct (reclaim_run w2 _ (block_addr n) Hr2) as (w3 & H3 & Hr3 & Hm3 & Hd3 & Hrt3 & Hg3); [rewrite Ha; set_solver|].
    m_run (exact H3). rewrite Ha in *.
    assert (Hown : ({[p]} ∪ (R ∪ f_addrs (f :: fs))) ∖ {[f_addr f]} = (R ∪ {[p]}) ∪ f_addrs fs).
    { rewrite Hfs. apply set_eq. intros x. set_unfold. destruct (decide (x = f_addr f)); naive_solver. }
    rewrite Hown in Hr3.
    assert (Hstep : ∃ w4, (if bool_decide (ns = []) then set_root p else mret tt) w3 = (Ok tt, w4) ∧
      ready w4 ((R ∪ {[p]}) ∪ f_addrs fs) ∧ moved 0 (R ∪ {[p]}) w3 w4 ∧ dev w4 = dev w3 ∧ tx_gen (vol w4) = tx_gen (vol w3) ∧
      root w4 = if bool_decide (ns = []) then p else root w3).
    { case_bool_decide.
      - destruct (set_root_run w3 _ p Hr3) as (w4 & H4 & Hr4 & Hm4 & Hd4 & Hrt4). exists w4. split_and!; try done.
        + eapply moved_weaken; [done|lia|set_solver].
        + unfold tx_gen. by rewrite (mv_tx _ _ _ _ Hm4).
      - exists w3. split_and!; try done. apply moved_refl. }
    destruct Hstep as (w4 & H4 & Hr4 & Hm4 & Hd4 & Hg4 & Hrt4). m_run (exact H4).
    destruct (IH fs w4 (R ∪ {[p]}) (f_addr f) p (S h)) as (w' & fs' & Hc & Hsh & Hr' & Hdis' & Hnd' & Hm' & Hpr & Hrt & Hg'); try done.
    + set_solver.
    + intros g s Hg Hs. apply elem_of_union_l, (Hsib g); [by right|done].
    + intros [Hx|Hx%elem_of_singleton]%elem_of_union; [set_solver|]. apply Hp1. set_solver.
    + set_solver.
    + pose proof (mv_space _ _ _ _ Hm1). pose proof (mv_space _ _ _ _ Hm2). pose proof (mv_space _ _ _ _ Hm3).
      pose proof (mv_space _ _ _ _ Hm4). lia.
    + assert (Hmm : moved (1 + 1 + 0 + 0) R w w4).
      { eapply moved_trans; [eapply moved_trans; [eapply moved_trans|]|].
        - eapply moved_weaken; [exact Hm1|lia|set_solver].
        - eapply moved_weaken; [exact Hm2|lia|set_solver].
        - eapply moved_weaken; [exact Hm3|lia|set_solver].
        - eapply moved_weaken; [exact Hm4|lia|set_solver]. }
      exists w', (set_f_addr p f :: fs'). split_and!; try done.
      * by constructor.
      * rewrite <-(assoc_L (∪)) in Hr'. exact Hr'.
      * unfold f_addrs in *. cbn. set_solver.
      * cbn. apply NoDup_cons. split; [|done]. unfold f_addrs in Hdis'. set_solver.
      * rewrite zlen_cons. replace (2 * (1 + zlen fs)) with (1 + 1 + 0 + 0 + 2 * zlen fs) by lia.
        eapply moved_trans; [exact Hmm|]. eapply moved_weaken; [exact Hm'|lia|set_solver].
      * cbn [path_read f_addr set_f_addr]. split; [|done]. exists n3. split; [|by apply kids_looks].
        rewrite <-Hrd3. etransitivity; [eapply (read_kept _ _ w4 w'); [exact Hr4|exact Hm'|set_solver..]|].
        rewrite (mv_start _ _ _ _ Hm4), Hd4, Hd3. by rewrite (mv_start _ _ _ _ Hm3).
      * rewrite last_default_shape, Hrt, Hrt4. apply Forall2_length in Hsh. cbn [f_addr set_f_addr].
        destruct fs' as [|g fs'].
        { destruct fs; [|done]. destruct ns; [|done]. by rewrite bool_decide_eq_true_2. }
        { by destruct (proj2 (last_is_Some (g :: fs'))) as [y ->]. }
      * rewrite Hg', Hg4, Hg3, Hg2. done.
Qed.

(** ** Trees with a hole *)

Local Abbreviation st w := (stored (start_lba (vol w)) (dev w)).

Fixpoint sibs_stored w (h : nat) (fs : list frame) : Prop :=
  match fs with [] => True | f :: fs' => Forall (st w h) (sibs f) ∧ sibs_stored w (S h) fs' end.

Definition ctx_addrs (fs : list frame) : list Z := (f_addr <$> fs) ++ sib_addrs fs.

(** The block a hole's contents [c] hang from: the root. *)
Definition top (c : Z) (fs : list frame) : Z := default c (f_addr <$> last fs).

(** The tree around a hole that points to the block [c]; [U] are the other blocks in
    use. Only the ancestors and their other children are described. *)
Record hole w (U : gset Z) (h : nat) (c : Z) (fs : list frame) : Prop := mkHole {
  ho_ready : ready w (U ∪ list_to_set (c :: ctx_addrs fs));
  ho_dis : U ## list_to_set (c :: ctx_addrs fs);
  ho_nodup : NoDup (c :: ctx_addrs fs);
  ho_path : path_read w h c fs;
  ho_sibs : sibs_stored w h fs;
  ho_root : root w = top c fs;
}.

(** The volume's tree is [t]; [U] are the blocks in use outside it. *)
Record holds w (U : gset Z) (h : nat) (t : tree) : Prop := mkHolds {
  hs_ready : ready w (U ∪ list_to_set (addrs t));
  hs_dis : U ## list_to_set (addrs t);
  hs_nodup : NoDup (addrs t);
  hs_stored : st w h t;
  hs_wf : wf h None None t;
  hs_root : root w = root_addr t;
}.

Lemma stored_plug w fs h t : st w (length fs + h) (plug fs t) ↔ st w h t ∧ path_read w h (root_addr t) fs ∧ sibs_stored w h fs.
Proof.
  revert h t. induction fs as [|f fs IH]; intros h t; cbn [plug length]; [cbn; tauto|].
  change (S (length fs) + h)%nat with (S (length fs + h)). rewrite plus_n_Sm, IH.
  cbn [path_read sibs_stored]. unfold fill. cbn [stored root_addr]. unfold f_kids, sibs.
  rewrite fmap_app, fmap_cons, !Forall_app, Forall_cons. tauto.
Qed.

Lemma addrs_plug fs t : addrs (plug fs t) ≡ₚ addrs t ++ ctx_addrs fs.
Proof.
  revert t. induction fs as [|f fs IH]; intros t; cbn [plug]; [by rewrite app_nil_r|]. rewrite IH. unfold ctx_addrs, sib_addrs.
  cbn. unfold sibs. rewrite !fmap_app, !concat_app, fmap_cons. cbn. solve_Permutation.
Qed.

Lemma stored_kept n X w w' own h t :
  ready w own → moved n X w w' → list_to_set (addrs t) ⊆ X → list_to_set (addrs t) ⊆ own → st w h t → st w' h t.
Proof.
  intros Hr Hm HX Ho Hst. rewrite (mv_start _ _ _ _ Hm). eapply stored_frame; [|exact Hst]. intros a Ha.
  pose proof (read_kept _ _ _ _ _ a Hr Hm) as Hk. rewrite (mv_start _ _ _ _ Hm) in Hk. apply Hk; set_solver.
Qed.

Lemma path_kept n X w w' own h c fs :
  ready w own → moved n X w w' → f_addrs fs ⊆ X → f_addrs fs ⊆ own → path_read w h c fs → path_read w' h c fs.
Proof.
  intros Hr Hm. revert h c. induction fs as [|f fs IH]; intros h c HX Ho; [done|]. intros [(m & Hn & Hk) Hp].
  unfold f_addrs in HX, Ho. cbn in HX, Ho. split; [|apply IH; [set_solver..|done]].
  exists m. split; [|done]. rewrite <-Hn. eapply read_kept; [done..| |]; set_solver.
Qed.

Lemma sibs_kept n X w w' own h fs :
  ready w own → moved n X w w' → list_to_set (sib_addrs fs) ⊆ X → list_to_set (sib_addrs fs) ⊆ own →
  sibs_stored w h fs → sibs_stored w' h fs.
Proof.
  intros Hr Hm. revert h. induction fs as [|f fs IH]; intros h HX Ho; [done|]. intros [Hf Hp].
  unfold sib_addrs in HX, Ho. cbn in HX, Ho. rewrite list_to_set_app_L in HX, Ho. split; [|apply IH; [set_solver..|done]].
  rewrite Forall_forall in *. intros t Ht. assert (Hin : ∀ a, a ∈ addrs t → a ∈ concat (addrs <$> sibs f)).
  { intros a Ha. apply elem_of_concat. exists (addrs t). split; [done|]. by apply list_elem_of_fmap_2. }
  eapply stored_kept; [done..| | |by apply Hf]; intros a Ha; rewrite elem_of_list_to_set in Ha; apply Hin in Ha; set_solver.
Qed.

Lemma hole_kept n X w w' U U' h c fs :
  hole w U h c fs → moved n X w w' → list_to_set (ctx_addrs fs) ⊆ X →
  ready w' (U' ∪ list_to_set (c :: ctx_addrs fs)) → U' ## list_to_set (c :: ctx_addrs fs) → root w' = root w → hole w' U' h c fs.
Proof.
  intros [Hr Hd Hn Hp Hs Hrt] Hm HX Hr' Hd' Hrt'. unfold ctx_addrs in HX. rewrite list_to_set_app_L in HX.
  split; try done; [| |by rewrite Hrt'].
  - eapply path_kept; [exact Hr|exact Hm|set_solver| |done]. unfold ctx_addrs. rewrite list_to_set_cons, list_to_set_app_L. unfold f_addrs. set_solver.
  - eapply sibs_kept; [exact Hr|exact Hm|set_solver| |done]. unfold ctx_addrs. rewrite list_to_set_cons, list_to_set_app_L. set_solver.
Qed.

(** The bottom ancestor as the contents of the hole above it. *)
Lemma hole_pop w U h c f fs :
  hole w U h c (f :: fs) → hole w (U ∪ {[c]} ∪ list_to_set (concat (addrs <$> sibs f))) (S h) (f_addr f) fs.
Proof.
  intros [Hr Hd Hn [_ Hp] [_ Hs] Hrt]. unfold ctx_addrs, sib_addrs in *. cbn in *. rewrite list_to_set_app_L, ?list_to_set_app_L in *.
  assert (Hperm : c :: f_addr f :: (f_addr <$> fs) ++ concat (addrs <$> sibs f) ++ concat ((λ f, concat (addrs <$> sibs f)) <$> fs)
    ≡ₚ (c :: concat (addrs <$> sibs f)) ++ f_addr f :: (f_addr <$> fs) ++ concat ((λ f, concat (addrs <$> sibs f)) <$> fs)) by solve_Permutation.
  rewrite Hperm in Hn. apply NoDup_app in Hn as (_ & Hx & Hn). clear Hperm.
  split; cbn; try done; unfold ctx_addrs, sib_addrs.
  - rewrite ?list_to_set_app_L. match goal with H : ready w ?A |- ready w ?B => replace B with A; [done|] end. set_solver.
  - rewrite ?list_to_set_app_L. intros x Hx1 Hx2. rewrite !elem_of_union, elem_of_singleton, elem_of_list_to_set in Hx1.
    destruct Hx1 as [[Hu|Hc]|Hc].
    + apply (Hd x Hu). rewrite !elem_of_union in *. tauto.
    + apply (Hx x); [rewrite Hc; by left|]. rewrite elem_of_cons, elem_of_app. set_solver.
    + apply (Hx x); [by right|]. rewrite elem_of_cons, elem_of_app. set_solver.
  - rewrite Hrt. unfold top. apply last_default_shape.
Qed.

(** Filling the hole. *)
Lemma hole_fill w U V h t fs lo hi :
  hole w V h (root_addr t) fs → V = U ∪ (list_to_set (addrs t) ∖ {[root_addr t]}) → U ## list_to_set (addrs t) → NoDup (addrs t) →
  st w h t → wf h lo hi t → wf_ctx h lo hi fs → holds w U (length fs + h) (plug fs t).
Proof.
  intros [Hr Hd Hn Hp Hs Hrt] -> HU Hnt Hst Hwf Hctx. pose proof (root_in_addrs t) as Hroot.
  rewrite list_to_set_cons in Hr, Hd. apply NoDup_cons in Hn as [Hn1 Hn2].
  split.
  - replace (list_to_set (addrs (plug fs t)) : gset Z) with (list_to_set (addrs t) ∪ list_to_set (ctx_addrs fs) : gset Z).
    2:{ rewrite <-list_to_set_app_L. apply set_eq. intros x. rewrite !elem_of_list_to_set. by rewrite addrs_plug. }
    match goal with H : ready w ?A |- ready w ?B => replace B with A; [done|] end.
    apply set_eq. intros x. set_unfold. destruct (decide (x = root_addr t)); naive_solver.
  - intros x Hx. rewrite elem_of_list_to_set, addrs_plug, elem_of_app. set_solver.
  - rewrite addrs_plug. apply NoDup_app. split_and!; [done| |done]. intros x Hx Hc.
    destruct (decide (x = root_addr t)) as [->|]; [done|]. apply (Hd x); set_solver.
  - by apply stored_plug.
  - by eapply wf_plug.
  - rewrite Hrt, root_plug. done.
Qed.

(** ** Moving the hole to another block *)

Lemma sib_roots fs : sib_roots_in (list_to_set (sib_addrs fs)) fs.
Proof.
  intros f s Hf Hs. rewrite elem_of_list_to_set. unfold sib_addrs. apply elem_of_concat. exists (concat (addrs <$> sibs f)). split.
  - apply elem_of_concat. exists (addrs s). split; [apply root_in_addrs|by apply list_elem_of_fmap_2].
  - by apply (list_elem_of_fmap_2 (λ f, concat (addrs <$> sibs f))).
Qed.

(** The block [a] the hole pointed to is released and the hole made to point to [p]:
    the ancestors are rewritten, or the root is replaced. *)
Lemma repoint w U h a p fs ns :
  hole w (U ∪ {[p]}) h a fs → p ∉ U → path_mem h a fs ns → 2 * zlen fs ≤ space (vol w) →
  ∃ w1 w' fs', reclaim_block a w = (Ok tt, w1) ∧
    match reverse ns with
    | [] => set_root p w1 = (Ok tt, w')
    | _ :: _ => cow_update_ancestors (reverse ns) a p w1 = (Ok true, w')
    end ∧
    hole w' U h p fs' ∧ Forall2 same_shape fs fs' ∧ moved (2 * zlen fs) (U ∪ {[p]}) w w' ∧ tx_gen (vol w') = tx_gen (vol w).
Proof.
  intros [Hr Hd Hn Hp Hs Hrt] Hpu Hmem Hsp. unfold ctx_addrs in *. rewrite list_to_set_cons, list_to_set_app_L in *. fold (f_addrs fs) in *.
  apply NoDup_cons in Hn as [Ha Hn]. apply NoDup_app in Hn as (Hn1 & Hn2 & Hn3). rewrite elem_of_app in Ha.
  assert (HaS : a ∉ (list_to_set (sib_addrs fs) : gset Z) ∧ a ∉ f_addrs fs) by (unfold f_addrs; rewrite !elem_of_list_to_set; tauto).
  assert (HFS : f_addrs fs ## list_to_set (sib_addrs fs)) by (unfold f_addrs; intros x; rewrite !elem_of_list_to_set; apply Hn2).
  remember (list_to_set (sib_addrs fs) : gset Z) as S eqn:HS. remember (f_addrs fs) as F eqn:HF.
  destruct (reclaim_run w _ a Hr) as (w1 & H1 & Hr1 & Hm1 & Hd1 & Hrt1 & Hg1); [clear; set_solver|].
  assert (Hown : (U ∪ {[p]} ∪ ({[a]} ∪ (F ∪ S))) ∖ {[a]} = (U ∪ {[p]} ∪ S) ∪ F).
  { clear -HaS Hd. apply set_eq. intros x. set_unfold. destruct (decide (x = a)); naive_solver. }
  rewrite Hown in Hr1. pose proof (mv_space _ _ _ _ Hm1) as Hsp1.
  destruct (cow_up_spec ns fs w1 (U ∪ {[p]} ∪ S) a p h) as (w' & fs' & Hc & Hsh & Hr' & Hdis' & Hnd' & Hm' & Hpr & Hrt' & Hg'); rewrite <-?HF; try done.
  { clear -Hd HFS Hpu. set_solver. }
  { intros f s Hf Hs'. apply elem_of_union_r. rewrite HS. by apply (sib_roots fs f). }
  { clear -Hd HaS. set_solver. }
  { clear. set_solver. }
  { lia. }
  assert (Hmm : moved (0 + 2 * zlen fs) (U ∪ {[p]} ∪ S) w w').
  { eapply moved_trans; [eapply moved_weaken; [exact Hm1|lia|clear; set_solver]|exact Hm']. }
  assert (Hsibs : sibs_stored w' h fs) by (eapply sibs_kept; [exact Hr|exact Hmm|rewrite <-HS; clear; set_solver..|done]).
  assert (Hsibs' : sibs_stored w' h fs').
  { clear -Hsh Hsibs. revert h Hsibs. induction Hsh as [|f f' l l' -> _ IH]; intros h; [done|]. intros [H1 H2]. split; [exact H1|by apply IH]. }
  pose proof (shape_sib_addrs _ _ Hsh) as Hsa.
  assert (Hhole : ∀ w2, ready w2 ((U ∪ {[p]} ∪ S) ∪ f_addrs fs') → dev w2 = dev w' → start_lba (vol w2) = start_lba (vol w') →
    root w2 = top p fs' → hole w2 U h p fs').
  { intros w2 Hr2 Hd2 Hst2 Hrt2. split; unfold ctx_addrs; rewrite ?list_to_set_cons, ?list_to_set_app_L, ?Hsa; rewrite <-?HS; fold (f_addrs fs').
    - replace (U ∪ ({[p]} ∪ (f_addrs fs' ∪ S))) with (U ∪ {[p]} ∪ S ∪ f_addrs fs') by (clear; set_solver). done.
    - revert Hdis'. clear -Hpu Hd. generalize (f_addrs fs'). intros F'. set_solver.
    - apply NoDup_cons. rewrite elem_of_app. split.
      + intros [Hx|Hx]; [apply (Hdis' p); [clear; set_solver|by apply elem_of_list_to_set]|].
        apply (elem_of_list_to_set (C := gset Z)) in Hx. rewrite <-HS in Hx. clear -Hx Hd. set_solver.
      + apply NoDup_app. split_and!; [done| |done]. intros x Hx Hy. apply (Hdis' x); [|by apply elem_of_list_to_set].
        apply (elem_of_list_to_set (C := gset Z)) in Hy. rewrite <-HS in Hy. clear -Hy. set_solver.
    - clear -Hpr Hd2 Hst2. revert Hpr. generalize p. revert h. induction fs' as [|f fs' IH]; intros h c; [done|].
      intros [Hx Hy]. split; [by rewrite Hd2, Hst2|by apply IH].
    - clear -Hsibs' Hd2 Hst2. revert h Hsibs'. induction fs' as [|f fs' IH]; intros h; [done|].
      intros [Hx Hy]. split; [by rewrite Hd2, Hst2|by apply IH].
    - done. }
  destruct ns as [|n ns].
  - destruct fs; [|done]. apply Forall2_length in Hsh as Hl. destruct fs'; [|done]. cbn in Hc. injection Hc as <-.
    destruct (set_root_run w1 _ p Hr') as (w2 & H2 & Hr2 & Hm2 & Hd2 & Hrt2). exists w1, w2, []. split_and!; try done.
    + apply Hhole; try done. by rewrite (mv_start _ _ _ _ Hm2).
    + change (2 * zlen []) with (0 + 0). eapply moved_trans; [eapply moved_weaken; [exact Hm1|lia|clear; set_solver]|eapply moved_weaken; [exact Hm2|lia|clear; set_solver]].
    + unfold tx_gen. by rewrite (mv_tx _ _ _ _ Hm2), (mv_tx _ _ _ _ Hm1).
  - exists w1, w', fs'. split_and!; try done.
    + destruct (reverse (n :: ns)) as [|m l] eqn:E; [by apply (f_equal length) in E; rewrite length_reverse in E|].
      rewrite <-E. unfold cow_update_ancestors. by rewrite reverse_involutive.
    + apply Hhole; try done. rewrite Hrt'. unfold top. destruct fs as [|f fs]; [done|]. apply Forall2_length in Hsh. destruct fs' as [|f' fs']; [done|].
      by destruct (proj2 (last_is_Some (f' :: fs'))) as [y ->].
    + eapply moved_weaken; [exact Hmm|lia|clear; set_solver].
    + by rewrite Hg', Hg1.
Qed.

(** ** Walking down to the hole *)

Lemma path_read_snoc w h c fs f :
  path_read w h c (fs ++ [f]) ↔ path_read w h c fs ∧
    ∃ n, rd w (f_addr f) = Some n ∧ node_kids (f_keys f) (f_kids f (top c fs)) n ∧ level n = Z.of_nat (S (length fs + h)).
Proof.
  revert h c. induction fs as [|g fs IH]; intros h c; cbn [app path_read length]; [change (top c []) with c; cbn [Nat.add]; tauto|].
  rewrite IH, <-plus_n_Sm. unfold top. rewrite last_default_shape. cbn [Nat.add]. tauto.
Qed.

Lemma path_mem_snoc h c fs f ns n :
  path_mem h c fs ns → node_kids (f_keys f) (f_kids f (top c fs)) n → level n = Z.of_nat (S (length fs + h)) → block_addr n = f_addr f →
  path_mem h c (fs ++ [f]) (ns ++ [n]).
Proof.
  revert h c ns. induction fs as [|g fs IH]; intros h c [|m ns]; try done.
  intros (H1 & H2 & H3) Hk Hl Ha. cbn [app path_mem]. split_and!; [apply H1..|done|].
  apply IH; [done| |by rewrite Hl; cbn [length]; rewrite plus_n_Sm|done].
  unfold top in Hk. by rewrite last_default_shape in Hk.
Qed.

Lemma read_addr d s a n : Btree.read d s a = Some n → block_addr n = a.
Proof.
  unfold Btree.read. destruct (read_sectors _ _); [|done]. cbn. case_match; [|done]. by intros [= <-].
Qed.

Lemma kids_hole f c n k :
  node_kids (f_keys f) (f_kids f c) n → level n ≠ 0 → route k (f_keys f) = length (f_l f) → child_for_key n k = c ∧ c ≠ 0.
Proof.
  intros Hk Hl Hr. pose proof (child_for_key_spec _ _ n Hk k Hl) as Hc. rewrite Hr in Hc. unfold f_kids in Hc, Hk.
  rewrite lookup_app_r in Hc by (by rewrite length_fmap). rewrite length_fmap, Nat.sub_diag in Hc. cbn in Hc.
  split; [congruence|]. destruct Hk as (_ & _ & _ & Hf). rewrite Forall_app, Forall_cons in Hf. unfold is_addr in Hf. lia.
Qed.

Lemma collect_path_run fs : ∀ fuel w a its k acc n,
  path_read w 0 a fs → rd w a = Some n → srep its n → level n = 0 →
  Forall (λ f, route k (f_keys f) = length (f_l f)) fs → (length fs < fuel)%nat →
  ∃ ns, collect_path_loop fuel (top a fs) k acc w = (Ok (Some (acc ++ reverse ns ++ [n])), w) ∧ path_mem 0 a fs ns.
Proof.
  induction fs as [|f fs IH] using rev_ind; intros [|fuel] w a its k acc n Hp Hn Hs Hl Hrt Hf; try (cbn in Hf; lia).
  - exists []. split; [|done]. cbn [collect_path_loop top last fmap option_fmap option_map default]. m_run reflexivity.
    change (top a []) with a. rewrite Hn, Hl. done.
  - apply path_read_snoc in Hp as [Hp (m & Hm & Hk & Hlm)]. rewrite Forall_app, Forall_singleton in Hrt. destruct Hrt as [Hrt Hrf].
    rewrite length_app in Hf. cbn in Hf. assert (Htop : top a (fs ++ [f]) = f_addr f) by (unfold top; by rewrite last_snoc).
    rewrite Htop. cbn [collect_path_loop]. m_run reflexivity. rewrite Hm.
    destruct (kids_hole f (top a fs) m k Hk ltac:(lia) Hrf) as [Hch Hne].
    rewrite (proj2 (Z.eqb_neq (level m) 0)) by lia. rewrite Hch, (proj2 (Z.eqb_neq (top a fs) 0)) by done.
    destruct (IH fuel w a its k (acc ++ [m]) n) as (ns & Hc & Hpm); [done..|lia|].
    exists (ns ++ [m]). rewrite Hc, reverse_snoc. split; [by rewrite <-!app_assoc|].
    apply path_mem_snoc; [done..|by eapply read_addr].
Qed.

Lemma has_child_kids ks cs n c : node_kids ks cs n → has_child n c = bool_decide (c ∈ cs).
Proof.
  intros Hk. unfold has_child. rewrite <-(kid_ptrs ks cs n Hk). apply eq_bool_prop_intro. rewrite bool_decide_spec, orb_True, elem_of_cons.
  rewrite Is_true_true, Z.eqb_eq, Is_true_true, existsb_exists, list_elem_of_fmap. split.
  - intros [->|([k v] & Hin & Heq%Z.eqb_eq)]; [by left|right]. exists (k, v). split; [done|]. by apply list_elem_of_In.
  - intros [->|([k v] & -> & Hin)]; [by left|right]. exists (k, v). split; [by apply list_elem_of_In|]. by apply Z.eqb_eq.
Qed.

(** The parent of the hole's block is found, whatever the path above it. *)
Lemma find_parent_run gs : ∀ fuel w h c f k acc,
  path_read w h c (f :: gs) → NoDup (c :: ctx_addrs (f :: gs)) →
  Forall (λ f, route k (f_keys f) = length (f_l f)) gs → (length gs < fuel)%nat →
  ∃ ns n, find_parent_loop fuel (top (f_addr f) gs) c k acc w = (Ok (Some (acc ++ reverse ns ++ [n])), w) ∧
    path_mem h c (f :: gs) (n :: ns).
Proof.
  induction gs as [|g gs IH] using rev_ind; intros [|fuel] w h c f k acc Hp Hnd Hrt Hf; try (cbn in Hf; lia).
  - destruct Hp as [(n & Hn & Hk & Hl) _]. exists [], n. split; [|split_and!; try done; by eapply read_addr].
    change (top (f_addr f) []) with (f_addr f). cbn [find_parent_loop]. m_run reflexivity. rewrite Hn.
    rewrite (proj2 (Z.eqb_neq (level n) 0)) by lia. rewrite (has_child_kids _ _ _ c Hk), bool_decide_eq_true_2; [done|].
    unfold f_kids. set_solver.
  - rewrite app_comm_cons in Hp. apply path_read_snoc in Hp as [Hp (m & Hm & Hk & Hlm)].
    rewrite Forall_app, Forall_singleton in Hrt. destruct Hrt as [Hrt Hrf]. rewrite length_app in Hf. cbn in Hf.
    assert (Htop : top (f_addr f) (gs ++ [g]) = f_addr g) by (unfold top; by rewrite last_snoc).
    assert (Htop' : top c (f :: gs) = top (f_addr f) gs) by (unfold top; by rewrite last_default_shape). rewrite Htop' in Hk.
    rewrite Htop. cbn [find_parent_loop]. m_run reflexivity. rewrite Hm.
    destruct (kids_hole g (top (f_addr f) gs) m k Hk ltac:(lia) Hrf) as [Hch Hne].
    rewrite (proj2 (Z.eqb_neq (level m) 0)) by lia. rewrite (has_child_kids _ _ _ c Hk), bool_decide_eq_false_2.
    2:{ apply NoDup_cons in Hnd as [Hc _]. intros Hin. apply Hc. unfold f_kids in Hin. unfold ctx_addrs.
        assert (Hsib : ∀ s, s ∈ sibs g → root_addr s ∈ sib_addrs (f :: gs ++ [g])).
        { intros s Hs. pose proof (sib_roots (f :: gs ++ [g]) g s) as Hr. rewrite elem_of_list_to_set in Hr. apply Hr; [|done].
          right. apply elem_of_app. right. by left. }
        rewrite elem_of_app, elem_of_cons, !list_elem_of_fmap in Hin. rewrite elem_of_app.
        destruct Hin as [(s & -> & Hs)|[->|(s & -> & Hs)]].
        - right. apply Hsib. unfold sibs. set_solver.
        - left. unfold top. destruct (last gs) as [y|] eqn:Ey.
          + cbn [default fmap option_fmap option_map]. apply (list_elem_of_fmap_2 f_addr). right. apply elem_of_app. left. apply last_Some in Ey as [l ->]. set_solver.
          + cbn [default fmap option_fmap option_map list_fmap]. by left.
        - right. apply Hsib. unfold sibs. set_solver. }
    rewrite Hch, (proj2 (Z.eqb_neq (top (f_addr f) gs) 0)) by done.
    assert (Hnd' : NoDup (c :: ctx_addrs (f :: gs))).
    { assert (Hperm : c :: ctx_addrs (f :: gs ++ [g]) ≡ₚ (c :: ctx_addrs (f :: gs)) ++ (f_addr g :: concat (addrs <$> sibs g))).
      { unfold ctx_addrs, sib_addrs. rewrite !fmap_cons, !fmap_app. cbn. rewrite concat_app. cbn. rewrite app_nil_r. solve_Permutation. }
      rewrite Hperm in Hnd. by apply NoDup_app in Hnd as [? _]. }
    destruct (IH fuel w h c f k (acc ++ [m]) Hp Hnd' Hrt) as (ns & n & Hc & Hpm); [lia|].
    exists (ns ++ [m]), n. rewrite Hc, reverse_snoc. split; [by rewrite <-!app_assoc|].
    apply (path_mem_snoc h c (f :: gs) g (n :: ns) m); [done|by rewrite Htop'|done|by eapply read_addr].
Qed.

Lemma wf_ctx_route h lo hi fs k :
  wf_ctx h lo hi fs → within lo hi k → Forall (λ f, route k (f_keys f) = length (f_l f)) fs.
Proof.
  revert h lo hi. induction fs as [|f fs IH]; intros h lo hi Hc Hk; [constructor|].
  destruct Hc as (lo' & hi' & (Hlen & Hs & Hf & -> & -> & _) & Hc). constructor.
  - eapply route_unique; [done| |exact Hk]. lia.
  - eapply IH; [exact Hc|]. eapply child_bounds; [exact Hs|exact Hf| |exact Hk]. lia.
Qed.

(** A key opens a hole at its leaf. *)
Lemma holds_focus w U h t k :
  holds w U h t →
  ∃ fs a its n lo hi, t = plug fs (TLeaf a its) ∧ length fs = h ∧ hole w U 0 a fs ∧ rd w a = Some n ∧ srep its n ∧ level n = 0 ∧
    within lo hi k ∧ wf 0 lo hi (TLeaf a its) ∧ wf_ctx 0 lo hi fs.
Proof.
  intros [Hr Hd Hn Hst Hwf Hrt]. destruct (focus h None None t k Hwf) as (fs & a & its & lo & hi & -> & Hlen & Hk & Hwl & Hctx & _); [done|].
  specialize (Hctx [] (conj eq_refl eq_refl)). rewrite app_nil_r in Hctx. rewrite <-Hlen in Hst.
  rewrite <-(Nat.add_0_r (length fs)) in Hst. apply stored_plug in Hst as ((n & Hrd & Hs & Hl) & Hp & Hsib).
  assert (Hset : (list_to_set (addrs (plug fs (TLeaf a its))) : gset Z) = list_to_set (a :: ctx_addrs fs)).
  { apply set_eq. intros x. rewrite !elem_of_list_to_set. by rewrite addrs_plug. }
  exists fs, a, its, n, lo, hi. split_and!; try done. split; try done.
  - by rewrite <-Hset.
  - by rewrite <-Hset.
  - by rewrite addrs_plug in Hn.
  - rewrite Hrt, root_plug. done.
Qed.

(** [cow_leaf_for_key] moves the leaf's hole to a fresh block and hands the leaf out. *)
Lemma cow_leaf_run w U fs a its n k lo hi :
  hole w U 0 a fs → rd w a = Some n → srep its n → level n = 0 → within lo hi k → wf_ctx 0 lo hi fs →
  (length fs < 8)%nat → 1 + 2 * zlen fs ≤ space (vol w) →
  ∃ p w' fs' n', cow_leaf_for_key k w = (Ok (Some n'), w') ∧ looks its 0 (leftmost_child n) n' ∧ block_addr n' = p ∧
    hole w' U 0 p fs' ∧ Forall2 same_shape fs fs' ∧ moved (1 + 2 * zlen fs) U w w' ∧ tx_gen (vol w') = tx_gen (vol w).
Proof.
  intros Hho Hrd Hs Hl Hk Hctx Hlen Hsp. pose proof (zlen_nonneg fs) as Hz. unfold cow_leaf_for_key, collect_path.
  destruct (collect_path_run fs 8 w a its k [] n (ho_path _ _ _ _ _ Hho) Hrd Hs Hl (wf_ctx_route _ _ _ _ _ Hctx Hk) Hlen) as (ns & Hc & Hpm).
  m_run (m_run reflexivity; rewrite (ho_root _ _ _ _ _ Hho); exact Hc). cbn [app]. rewrite last_snoc.
  assert (Htake : take (length (reverse ns ++ [n]) - 1) (reverse ns ++ [n]) = reverse ns).
  { rewrite length_app. cbn. rewrite Nat.add_sub. apply take_app_length. }
  rewrite Htake. clear Htake.
  destruct (next_block_run w _ (ho_ready _ _ _ _ _ Hho)) as (p & w1 & H1 & Hp & Hr1 & Hm1 & Hd1 & Hrt1 & Hg1 & _); [lia|].
  m_run (exact H1). m_run reflexivity. pose proof (read_addr _ _ _ _ Hrd) as Ha.
  assert (Hho1 : hole w1 (U ∪ {[p]}) 0 a fs).
  { eapply hole_kept; [exact Hho|exact Hm1| | | |done].
    - rewrite list_to_set_cons. clear. generalize (list_to_set (ctx_addrs fs) : gset Z). set_solver.
    - match goal with H : _ |- ready w1 ?B => match type of Hr1 with ready _ ?A => replace B with A; [exact Hr1|] end end.
      clear. generalize (list_to_set (a :: ctx_addrs fs) : gset Z). set_solver.
    - pose proof (ho_dis _ _ _ _ _ Hho) as Hd. revert Hd Hp. clear. generalize (list_to_set (a :: ctx_addrs fs) : gset Z). set_solver. }
  destruct (repoint w1 U 0 a p fs ns Hho1) as (w2 & w' & fs' & H2 & H3 & Hho' & Hsh & Hm' & Hg').
  { revert Hp. clear. set_solver. }
  { done. }
  { pose proof (mv_space _ _ _ _ Hm1). lia. }
  exists p, w', fs', (set_generation (tx_gen (vol w1)) (set_block_addr p n)). split_and!; try done.
  - rewrite Ha. m_run (exact H2). destruct (reverse ns) as [|m l].
    + m_run (exact H3). done.
    + m_run (exact H3). done.
  - by apply looks_generation, looks_addr.
  - eapply moved_trans; eapply moved_weaken; [exact Hm1|lia|clear; set_solver|exact Hm'|lia|clear; set_solver].
  - by rewrite Hg'.
Qed.

(** ** Insertion that fits its leaf *)

Lemma leaf_store_run w U fs n p its lm lo hi :
  hole w U 0 p fs → looks its 0 lm n → block_addr n = p → wf 0 lo hi (TLeaf p its) → wf_ctx 0 lo hi fs →
  ∃ w', (∀ A (K : bool → Op D A), (log_block p (data n);; ok ← write_node n; K ok) w = K true w') ∧
    holds w' U (length fs) (plug fs (TLeaf p its)) ∧ moved 1 U w w' ∧ logged w'.
Proof.
  intros Hho Hn Ha Hwf Hctx. pose proof (ho_ready _ _ _ _ _ Hho) as Hr. pose proof (ho_dis _ _ _ _ _ Hho) as Hd.
  destruct (store_run w _ its 0 lm n p Hr Ha) as (w' & H1 & Hr' & Hm & Hrt & Hg & n' & Hrd & Hn'); [clear; set_solver|done|].
  assert (HpU : p ∉ U) by (intros HpU; apply (Hd p HpU); by rewrite list_to_set_cons; apply elem_of_union_l, elem_of_singleton).
  exists w'. split_and!; [done| | |by eapply store_logged].
  - replace (length fs) with (length fs + 0)%nat by lia. eapply (hole_fill w' U U 0 (TLeaf p its)); cbn [root_addr addrs]; try done.
    + eapply hole_kept; [exact Hho|exact Hm| |done|done|done].
      pose proof (ho_nodup _ _ _ _ _ Hho) as Hnd. apply NoDup_cons in Hnd as [Hnp _].
      apply (not_elem_of_list_to_set (C := gset Z)) in Hnp. rewrite list_to_set_cons. revert Hnp. clear.
      generalize (list_to_set (ctx_addrs fs) : gset Z). set_solver.
    + clear. apply set_eq. set_solver.
    + revert HpU. clear. set_solver.
    + apply NoDup_singleton.
    + exists n'. split_and!; [done|apply Hn'..].
  - eapply moved_weaken; [exact Hm|lia|]. revert HpU. clear. set_solver.
Qed.

Lemma items_map_add A B k v : sorted (A ++ (k, v) :: B) → items_map (A ++ (k, v) :: B) = <[k := v]> (items_map (A ++ B)).
Proof.
  intros Hs. unfold items_map. rewrite <-list_to_map_cons. apply list_to_map_proper; [by apply sorted_NoDup|].
  symmetry. apply Permutation_middle.
Qed.

End Insert.
