(* ===== verification/NfsSplit.v ===== *)
(** Splitting full nodes of the NeuralFS tree: the separator climbs until it fits, or
    a new root is made; and insertion as a whole. *)

From S2P Require Import Prelude Checksum Flash NfsNode NfsRep NfsFormat NfsVolume NfsDisk NfsSuper NfsJournal NfsAlloc NfsTree NfsCow NfsInsert.
From Stdlib Require Import Sorting.Sorted.
Import Btree Super Volume.

(** * Inserting in the middle of a list *)

Definition ins {A} (i : nat) (x : A) (l : list A) : list A := take i l ++ x :: drop i l.

Lemma length_ins {A} i (x : A) l : length (ins i x l) = S (length l).
Proof. unfold ins. rewrite length_app. cbn. rewrite length_take, length_drop. lia. Qed.

Lemma lookup_ins {A} i (x : A) l j :
  (i ≤ length l)%nat → ins i x l !! j = if decide (j < i)%nat then l !! j else if decide (j = i) then Some x else l !! (j - 1)%nat.
Proof.
  intros Hi. unfold ins. repeat case_decide.
  - rewrite lookup_app_l by (rewrite length_take; lia). by rewrite lookup_take_lt.
  - subst. rewrite lookup_app_r by (rewrite length_take; lia). rewrite length_take.
    by replace (i - i `min` length l)%nat with 0%nat by lia.
  - rewrite lookup_app_r by (rewrite length_take; lia). rewrite length_take.
    rewrite lookup_cons_ne_0, lookup_drop by lia. f_equal. lia.
Qed.

Lemma ins_app {A} i (x y : A) l r : length l = i → ins (S i) x (l ++ y :: r) = l ++ y :: x :: r.
Proof.
  intros <-. unfold ins. rewrite !cons_middle, !app_assoc. rewrite take_app_length', drop_app_length' by (rewrite length_app; cbn; lia).
  by rewrite <-app_assoc.
Qed.

Lemma ins_take {A} i (x : A) m l : (i ≤ m)%nat → ins i x (take m l) ++ drop m l = ins i x l.
Proof.
  intros Hi. unfold ins. rewrite <-app_assoc, take_take, Nat.min_l by done. f_equal. cbn. f_equal.
  by apply drop_take_drop.
Qed.

Lemma ins_drop {A} i (x : A) m l : (m ≤ i)%nat → (m ≤ length l)%nat → take m l ++ ins (i - m) x (drop m l) = ins i x l.
Proof.
  intros Hi Hl. unfold ins. rewrite drop_drop, app_assoc. replace (m + (i - m))%nat with i by lia. f_equal.
  rewrite take_take_drop. f_equal. lia.
Qed.

Lemma ins_fmap {A B} (f : A → B) i x l : f <$> ins i x l = ins i (f x) (f <$> l).
Proof. unfold ins. by rewrite fmap_app, fmap_cons, fmap_take, fmap_drop. Qed.

(** * Bounds *)

(** Strictly above the bound. *)
Definition sabove (lo : option Key) (k : Key) : Prop := match lo with Some l => key_lt l k | None => True end.

Lemma sabove_above lo k : sabove lo k → above lo k.
Proof. destruct lo; [|done]. cbn. intros H1 H2. by apply (irreflexivity key_lt k), (transitivity H2 H1). Qed.

Lemma above_sabove lo x k : above lo x → key_lt x k → sabove lo k.
Proof. destruct lo; [|done]. cbn. intros H1 H2. by eapply not_lt_lt_trans. Qed.

Lemma wf_weaken h lo hi lo2 hi2 t :
  wf h lo hi t → (∀ k, above lo k → above lo2 k) → (∀ k, below hi k → below hi2 k) → wf h lo2 hi2 t.
Proof.
  revert lo hi lo2 hi2 t. induction h as [|h IH]; intros lo hi lo2 hi2 [a its|a ks cs]; cbn; try done.
  - intros [Hs Hf] H1 H2. split; [done|]. eapply Forall_impl; [exact Hf|]. intros it [Ha Hb]. split; auto.
  - intros (Hl & Hs & Hf & Hc) H1 H2. split_and!; try done.
    + eapply Forall_impl; [exact Hf|]. intros k [Ha Hb]. split; auto.
    + intros i c Hi. eapply IH; [by apply Hc| |].
      * intros k. destruct i as [|j]; cbn; [apply H1|]. destruct (ks !! j); [done|apply H1].
      * intros k. unfold hi_of. destruct (ks !! i); [done|apply H2].
Qed.

Section Keys.
Context (lo hi : option Key) (ks : list Key) (i : nat) (sep : Key).
Context (Hs : StronglySorted key_lt ks) (Hi : (i ≤ length ks)%nat).
Context (Hlo : sabove (lo_of lo ks i) sep) (Hhi : below (hi_of hi ks i) sep).

Lemma keys_before j x : ks !! j = Some x → (j < i)%nat → key_lt x sep.
Proof using Hs Hi Hlo Hhi.
  intros Hx Hj. destruct i as [|i']; [lia|]. cbn in Hlo. destruct (lookup_lt_is_Some_2 ks i') as [y Hy]; [lia|]. rewrite Hy in Hlo.
  destruct (decide (j = i')) as [->|]; [by simplify_eq|]. transitivity y; [|done]. apply (sorted_keys_lt ks j i'); [done..|lia].
Qed.

Lemma keys_after j x : ks !! j = Some x → (i ≤ j)%nat → key_lt sep x.
Proof using Hs Hi Hlo Hhi.
  intros Hx Hj. apply lookup_lt_Some in Hx as Hlt. destruct (lookup_lt_is_Some_2 ks i) as [y Hy]; [lia|]. unfold hi_of in Hhi. rewrite Hy in Hhi.
  destruct (decide (j = i)) as [->|]; [by simplify_eq|]. transitivity y; [done|]. apply (sorted_keys_lt ks i j); [done..|lia].
Qed.

Lemma ins_keys_sorted : StronglySorted key_lt (ins i sep ks).
Proof using Hs Hi Hlo Hhi.
  unfold ins. apply StronglySorted_app. split_and!.
  - intros x y (j & Hx)%list_elem_of_lookup Hy. rewrite lookup_take_Some in Hx. destruct Hx as [Hx Hj].
    pose proof (keys_before j x Hx Hj) as Hxs. apply elem_of_cons in Hy as [->|(j' & Hy)%list_elem_of_lookup]; [done|].
    rewrite lookup_drop in Hy. transitivity sep; [done|]. apply (keys_after _ _ Hy). lia.
  - by apply StronglySorted_take.
  - constructor; [by apply StronglySorted_drop|]. apply Forall_forall. intros y (j & Hy)%list_elem_of_lookup.
    rewrite lookup_drop in Hy. apply (keys_after _ _ Hy). lia.
Qed.

Lemma lo_of_ins_le j : (j ≤ i)%nat → lo_of lo (ins i sep ks) j = lo_of lo ks j.
Proof. intros Hj. destruct j as [|j]; [done|]. cbn. by rewrite lookup_ins, decide_True by lia. Qed.

Lemma hi_of_ins_lt j : (j < i)%nat → hi_of hi (ins i sep ks) j = hi_of hi ks j.
Proof. intros Hj. unfold hi_of. by rewrite lookup_ins, decide_True by lia. Qed.

Lemma lo_of_ins_gt j : (S i < j)%nat → lo_of lo (ins i sep ks) j = lo_of lo ks (j - 1).
Proof.
  intros Hj. destruct j as [|[|j]]; [lia..|]. cbn. rewrite lookup_ins, decide_False, decide_False by lia. cbn.
  by rewrite Nat.sub_0_r.
Qed.

Lemma hi_of_ins_gt j : (i < j)%nat → hi_of hi (ins i sep ks) j = hi_of hi ks (j - 1).
Proof. intros Hj. unfold hi_of. by rewrite lookup_ins, decide_False, decide_False by lia. Qed.
End Keys.

(** A separator and a right neighbour are added beside the [i]-th child. *)
Lemma wf_add h lo hi a ks cs i sep L R :
  wf (S h) lo hi (TNode a ks cs) → cs !! i = Some L → sabove (lo_of lo ks i) sep → below (hi_of hi ks i) sep →
  wf h (lo_of lo ks i) (Some sep) L → wf h (Some sep) (hi_of hi ks i) R →
  wf (S h) lo hi (TNode a (ins i sep ks) (ins (S i) R cs)).
Proof.
  intros (Hlen & Hs & Hf & Hc) Hi Hlo Hhi HL HR. apply lookup_lt_Some in Hi as Hil. cbn. rewrite !length_ins. split_and!; [lia| | |].
  - eapply ins_keys_sorted; [done| |exact Hlo|exact Hhi]. lia.
  - unfold ins. rewrite <-(take_drop i ks) in Hf. rewrite Forall_app in *. rewrite Forall_cons. split_and!; [apply Hf| |apply Hf].
    apply (child_bounds lo hi ks i); [done|by rewrite <-(take_drop i ks), Forall_app|lia|]. split; [by apply sabove_above|done].
  - intros j c Hj. rewrite lookup_ins in Hj by lia. repeat case_decide.
    + destruct (decide (j = i)) as [->|].
      * rewrite lo_of_ins_le by lia. unfold hi_of at 1. rewrite lookup_ins, decide_False, decide_True by lia. congruence.
      * rewrite lo_of_ins_le, hi_of_ins_lt by lia. by apply Hc.
    + subst. injection Hj as <-. unfold lo_of at 1. rewrite lookup_ins, decide_False, decide_True by lia.
      rewrite hi_of_ins_gt by lia. by replace (S i - 1)%nat with i by lia.
    + rewrite lo_of_ins_gt, hi_of_ins_gt by lia. by apply Hc.
Qed.

(** The children of the two halves of a node keep their bounds. *)
Section Cut.
Context (lo hi : option Key) (ks : list Key) (mid : nat) (m : Key) (Hm : ks !! mid = Some m).

Lemma lo_of_take j : (j ≤ mid)%nat → lo_of lo (take mid ks) j = lo_of lo ks j.
Proof. intros Hj. destruct j as [|j]; [done|]. unfold lo_of. by rewrite lookup_take_lt by lia. Qed.

Lemma hi_of_take j : (j ≤ mid)%nat → hi_of (Some m) (take mid ks) j = hi_of hi ks j.
Proof.
  intros Hj. pose proof (lookup_lt_Some _ _ _ Hm). unfold hi_of. destruct (decide (j < mid)%nat).
  - rewrite lookup_take_lt by lia. by destruct (lookup_lt_is_Some_2 ks j) as [x ->]; [lia|].
  - replace j with mid by lia. rewrite lookup_take_ge by lia. by rewrite Hm.
Qed.

Lemma lo_of_drop j : (S mid + j ≤ length ks)%nat → lo_of (Some m) (drop (S mid) ks) j = lo_of lo ks (S mid + j).
Proof.
  intros Hj. destruct j as [|j]; cbn; [by rewrite Nat.add_0_r, Hm|]. rewrite lookup_drop. replace (mid + S j)%nat with (S mid + j)%nat by lia.
  by destruct (lookup_lt_is_Some_2 ks (S mid + j)) as [x ->]; [lia|].
Qed.

Lemma hi_of_drop j : hi_of hi (drop (S mid) ks) j = hi_of hi ks (S mid + j).
Proof. unfold hi_of. by rewrite lookup_drop. Qed.
End Cut.

(** Cutting a node at its [mid]-th key. *)
Lemma wf_cut h lo hi a b ks cs mid m :
  wf (S h) lo hi (TNode a ks cs) → ks !! mid = Some m →
  wf (S h) lo (Some m) (TNode a (take mid ks) (take (S mid) cs)) ∧ wf (S h) (Some m) hi (TNode b (drop (S mid) ks) (drop (S mid) cs)).
Proof.
  intros (Hlen & Hs & Hf & Hc) Hm. apply lookup_lt_Some in Hm as Hml. split; cbn.
  - rewrite !length_take. split_and!; [lia|by apply StronglySorted_take| |].
    + apply Forall_forall. intros x (j & Hx)%list_elem_of_lookup. rewrite lookup_take_Some in Hx. destruct Hx as [Hx Hj].
      split; [apply (Forall_lookup_1 _ _ _ _ Hf Hx)|]. cbn. apply (sorted_keys_lt ks j mid); done.
    + intros j c Hj. rewrite lookup_take_Some in Hj. destruct Hj as [Hj Hjl]. specialize (Hc j c Hj).
      by rewrite lo_of_take, (hi_of_take hi ks mid m Hm) by lia.
  - rewrite !length_drop. split_and!; [lia|by apply StronglySorted_drop| |].
    + apply Forall_forall. intros x (j & Hx)%list_elem_of_lookup. rewrite lookup_drop in Hx.
      split; [|apply (Forall_lookup_1 _ _ _ _ Hf Hx)]. cbn. intros Hlt. apply (irreflexivity key_lt x). transitivity m; [done|].
      apply (sorted_keys_lt ks mid (S mid + j)); [done..|lia].
    + intros j c Hj. rewrite lookup_drop in Hj. specialize (Hc _ c Hj). apply lookup_lt_Some in Hj.
      by rewrite (lo_of_drop lo ks mid m Hm), hi_of_drop by lia.
Qed.

(** * Internal nodes in memory *)

Lemma zip_ins {A B} i (x : A) (y : B) l k : length l = length k → zip (ins i x l) (ins i y k) = ins i (x, y) (zip l k).
Proof.
  intros Hl. unfold ins. rewrite zip_with_app by (rewrite !length_take; lia). cbn. by rewrite zip_with_take, zip_with_drop.
Qed.

Lemma zlen_seps ks cs n : node_kids ks cs n → zlen (seps ks cs) = zlen ks.
Proof. intros Hk. unfold zlen. by rewrite (length_seps ks cs n Hk). Qed.

Lemma kids_insert ks cs n lvl i sep r :
  node_kids ks cs n ∧ level n = lvl → (i ≤ length ks)%nat →
  (∀ j x, ks !! j = Some x → (j < i)%nat → key_lt x sep) → (∀ j x, ks !! j = Some x → (i ≤ j)%nat → key_lt sep x) →
  zlen ks < MAX_LEAF_ITEMS → key_ok sep → is_addr r →
  ∃ n', insert sep (from_child_ptr r) n = (true, n') ∧ (node_kids (ins i sep ks) (ins (S i) r cs) n' ∧ level n' = lvl) ∧
    block_addr n' = block_addr n.
Proof.
  intros [Hk Hl] Hi Hb Ha Hm Hok Hr. pose proof Hk as (Hs & Hlm & Hlen & Hf). pose proof (seps_keys ks cs n Hk) as Hkeys.
  assert (Hlk : ∀ j it, seps ks cs !! j = Some it → ks !! j = Some it.1).
  { intros j it Hj. rewrite <-Hkeys, list_lookup_fmap, Hj. done. }
  destruct (srep_insert (seps ks cs) n sep (from_child_ptr r)) as (p & n' & Hn & Hs' & Hf' & Hp & H1 & H2); [done| | |by rewrite (zlen_seps ks cs n)|].
  { split; [done|]. apply zlen_from_child_ptr. }
  { apply not_elem_of_list_to_map. rewrite Hkeys. intros (j & Hj)%list_elem_of_lookup. apply (irreflexivity key_lt sep).
    destruct (decide (j < i)%nat); [by eapply Hb|eapply Ha; [done|lia]]. }
  rewrite Forall_lookup in H1, H2. rewrite (length_seps ks cs n Hk) in Hp.
  assert (p = i) as ->.
  { destruct (lt_eq_lt_dec p i) as [[Hlt|?]|Hgt]; [|done|]; exfalso; apply (irreflexivity key_lt sep).
    - destruct (lookup_lt_is_Some_2 (seps ks cs) p) as [it Hit]; [rewrite (length_seps ks cs n Hk); lia|].
      transitivity it.1; [apply (H2 0%nat); by rewrite lookup_drop, Nat.add_0_r|]. by eapply Hb; [apply Hlk|].
    - destruct (lookup_lt_is_Some_2 (seps ks cs) i) as [it Hit]; [rewrite (length_seps ks cs n Hk); lia|].
      transitivity it.1; [by eapply Ha; [apply Hlk|]|]. apply (H1 i). by rewrite lookup_take_lt. }
  exists n'. destruct cs as [|c0 cs]; [done|]. unfold node_kids.
  assert (Hseps : seps (ins i sep ks) (ins (S i) r (c0 :: cs)) = take i (seps ks (c0 :: cs)) ++ (sep, from_child_ptr r) :: drop i (seps ks (c0 :: cs))).
  { unfold seps. change (ins (S i) r (c0 :: cs)) with (c0 :: ins i r cs). cbn [tail]. rewrite ins_fmap. apply zip_ins. rewrite length_fmap. cbn in Hlen. lia. }
  rewrite Hseps. split_and!; try done.
  - by rewrite (same_frame_leftmost _ _ Hf').
  - rewrite !length_ins. lia.
  - unfold ins. rewrite <-(take_drop (S i) (c0 :: cs)) in Hf. rewrite Forall_app in *. rewrite Forall_cons. tauto.
  - by rewrite (same_frame_level _ _ Hf').
  - apply Hf'.
Qed.

Lemma kids_split ks cs n lvl q :
  node_kids ks cs n ∧ level n = lvl → 0 ≤ lvl < 256 → 2 ≤ zlen ks → is_addr q →
  let mid := (length ks / 2)%nat in
  ∃ m l' r', split_internal_into n (new q) = Ok (Some (m, l', r')) ∧ ks !! mid = Some m ∧
    (node_kids (take mid ks) (take (S mid) cs) l' ∧ level l' = lvl) ∧
    (node_kids (drop (S mid) ks) (drop (S mid) cs) r' ∧ level r' = lvl) ∧ block_addr l' = block_addr n ∧ block_addr r' = q.
Proof.
  intros [Hk Hl] Hlvl H2 Hq mid. pose proof Hk as (Hs & Hlm & Hlen & Hf). pose proof (length_seps ks cs n Hk) as Hls.
  destruct (srep_split_internal (seps ks cs) n (new q) Hs) as (m & v & l' & r' & Hsp & Hm & Hl' & Hr' & Hfl & Hfr).
  { by rewrite (zlen_seps ks cs n). }
  { split; [apply rep_new|constructor]. }
  rewrite Hls in *. fold mid in Hm, Hl', Hr'. rewrite (seps_lookup ks cs n Hk) in Hm.
  destruct (ks !! mid) as [m'|] eqn:Em; [|done]. destruct (cs !! S mid) as [c|] eqn:Ec; [|done]. cbn [mbind option_bind] in Hm. injection Hm as -> <-.
  pose proof (Forall_lookup_1 _ _ _ _ Hf Ec) as Hca. rewrite as_child_ptr_from in Hfr by (unfold is_addr in Hca; lia).
  apply lookup_lt_Some in Em as Hml. exists m, l', r'. destruct cs as [|c0 cs]; [done|]. cbn [hd] in Hlm. change ((c0 :: cs) !! S mid) with (cs !! mid) in Ec.
  split_and!; try done.
  - unfold node_kids. split_and!.
    + unfold seps in *. cbn [take tail]. by rewrite fmap_take, <-zip_with_take.
    + rewrite (same_frame_leftmost _ _ Hfl), Hlm. done.
    + rewrite !length_take. cbn in *. lia.
    + by apply Forall_take.
  - by rewrite (same_frame_level _ _ Hfl).
  - unfold node_kids. assert (Hd : drop (S mid) (c0 :: cs) = c :: drop (S mid) cs) by (cbn [drop]; by apply drop_S).
    rewrite Hd. split_and!.
    + unfold seps in *. cbn [tail] in *. by rewrite fmap_drop, <-zip_with_drop.
    + rewrite (same_frame_leftmost _ _ Hfr). cbn [hd]. apply (leftmost_set []); [apply rep_set_level, rep_new|unfold is_addr in Hca; lia].
    + rewrite <-Hd, !length_drop. cbn [length] in *. lia.
    + rewrite <-Hd. by apply Forall_drop.
  - rewrite (same_frame_level _ _ Hfr). unfold set_leftmost_child. rewrite (level_patch []); [|apply rep_set_level, rep_new|lia].
    rewrite (level_set_level []); [done|apply rep_new|lia].
  - apply Hfl.
  - apply Hfr.
Qed.

(** A full node is cut in the middle and the new child goes into one of the halves. *)
Lemma split_insert ks CS n lvl i sep L R q a h lo hi :
  node_kids ks (root_addr <$> CS) n ∧ level n = lvl → 0 ≤ lvl < 256 → zlen ks = MAX_LEAF_ITEMS → is_addr q →
  wf (S h) lo hi (TNode a ks CS) → CS !! i = Some L → sabove (lo_of lo ks i) sep → below (hi_of hi ks i) sep →
  wf h (lo_of lo ks i) (Some sep) L → wf h (Some sep) (hi_of hi ks i) R → key_ok sep → is_addr (root_addr R) →
  ∃ m l1 r1 l2 r2 ks1 cs1 ks2 cs2,
    split_internal_into n (new q) = Ok (Some (m, l1, r1)) ∧
    match key_cmp sep m with
    | Lt => insert sep (from_child_ptr (root_addr R)) l1 = (true, l2) ∧ r2 = r1
    | _ => insert sep (from_child_ptr (root_addr R)) r1 = (true, r2) ∧ l2 = l1
    end ∧
    cs1 ++ cs2 = ins (S i) R CS ∧
    (node_kids ks1 (root_addr <$> cs1) l2 ∧ level l2 = lvl) ∧ (node_kids ks2 (root_addr <$> cs2) r2 ∧ level r2 = lvl) ∧
    block_addr l2 = block_addr n ∧ block_addr r2 = q ∧
    (∀ p, wf (S h) lo (Some m) (TNode p ks1 cs1)) ∧ (∀ p, wf (S h) (Some m) hi (TNode p ks2 cs2)) ∧
    sabove lo m ∧ below hi m ∧ key_ok m.
Proof.
  intros Hk Hlvl Hfull Hq Hwf Hi Hlo Hhi HL HR Hsep HRa. unfold MAX_LEAF_ITEMS, zlen in Hfull.
  destruct (kids_split ks _ n lvl q Hk Hlvl ltac:(unfold zlen; lia) Hq) as (m & l1 & r1 & Hsp & Hm & Hk1 & Hk2 & Ha1 & Ha2).
  assert (Hmid : (length ks / 2)%nat = 42%nat) by (replace (length ks) with 84%nat by lia; done). rewrite Hmid in *.
  pose proof Hwf as (Hlen & Hs & Hf & Hc). apply lookup_lt_Some in Hi as Hil.
  pose proof (keys_before lo hi ks i sep Hs ltac:(lia) Hlo Hhi) as Hbef. pose proof (keys_after lo hi ks i sep Hs ltac:(lia) Hlo Hhi) as Haft.
  destruct (wf_cut h lo hi a a ks CS 42 m Hwf Hm) as [Hw1 Hw2].
  assert (Hmlo : sabove lo m).
  { destruct (lookup_lt_is_Some_2 ks 0) as [x Hx]; [lia|]. eapply above_sabove; [apply (Forall_lookup_1 _ _ _ _ Hf Hx)|].
    apply (sorted_keys_lt ks 0 42); [done..|lia]. }
  assert (Hmhi : below hi m) by apply (Forall_lookup_1 _ _ _ _ Hf Hm).
  assert (Hmok : key_ok m).
  { destruct Hk as [Hkn _]. pose proof Hkn as ([[_ _ Hok] _] & _). pose proof (seps_keys _ _ _ Hkn) as Hkeys.
    rewrite <-Hkeys, list_lookup_fmap in Hm. destruct (seps ks _ !! 42%nat) as [it|] eqn:E; [|done]. cbn in Hm. injection Hm as <-.
    apply (Forall_lookup_1 _ _ _ _ Hok E). }
  rewrite <-fmap_take in Hk1. rewrite <-fmap_drop in Hk2. destruct (decide (42 < i)%nat) as [Hgt|Hle].
  - assert (Hcmp : key_cmp sep m ≠ Lt).
    { intros Hlt. apply (irreflexivity key_lt sep). transitivity m; [exact Hlt|]. apply (Hbef 42%nat); [done|lia]. }
    destruct (kids_insert (drop 43 ks) _ r1 lvl (i - 43) sep (root_addr R) Hk2) as (r2 & Hin & Hkr & Har); try done.
    { rewrite length_drop. lia. }
    { intros j x Hj Hji. rewrite lookup_drop in Hj. apply (Hbef _ _ Hj). lia. }
    { intros j x Hj Hji. rewrite lookup_drop in Hj. apply (Haft _ _ Hj). lia. }
    { unfold zlen, MAX_LEAF_ITEMS. rewrite length_drop. lia. }
    exists m, l1, r1, l1, r2, (take 42 ks), (take 43 CS), (ins (i - 43) sep (drop 43 ks)), (ins (S (i - 43)) R (drop 43 CS)).
    split_and!; try done.
    + by destruct (key_cmp sep m).
    + replace (S (i - 43)) with (S i - 43)%nat by lia. apply ins_drop; lia.
    + apply Hk1.
    + apply Hk1.
    + rewrite ins_fmap. apply Hkr.
    + apply Hkr.
    + congruence.
    + assert (Ei : i = (43 + (i - 43))%nat) by lia.
      intros p. eapply (wf_add h (Some m) hi p (drop 43 ks) (drop 43 CS) (i - 43) sep L R); [exact Hw2|..];
        rewrite ?(lo_of_drop lo ks 42 m Hm), ?hi_of_drop, ?lookup_drop, <-?Ei by lia; done.
  - assert (Hcmp : key_cmp sep m = Lt) by (apply (Haft 42%nat); [done|lia]).
    destruct (kids_insert (take 42 ks) _ l1 lvl i sep (root_addr R) Hk1) as (l2 & Hin & Hkl & Hal); try done.
    { rewrite length_take. lia. }
    { intros j x Hj Hji. rewrite lookup_take_Some in Hj. apply (Hbef j x); [apply Hj|lia]. }
    { intros j x Hj Hji. rewrite lookup_take_Some in Hj. apply (Haft j x); [apply Hj|lia]. }
    { unfold zlen, MAX_LEAF_ITEMS. rewrite length_take. lia. }
    exists m, l1, r1, l2, r1, (ins i sep (take 42 ks)), (ins (S i) R (take 43 CS)), (drop 43 ks), (drop 43 CS).
    split_and!; try done.
    + by rewrite Hcmp.
    + apply ins_take. lia.
    + rewrite ins_fmap. apply Hkl.
    + apply Hkl.
    + apply Hk2.
    + apply Hk2.
    + congruence.
    + intros p. eapply (wf_add h lo (Some m) p (take 42 ks) (take 43 CS) i sep L R); [exact Hw1|..];
        rewrite ?(lo_of_take lo ks 42 i), ?(hi_of_take hi ks 42 m Hm), ?lookup_take_lt by lia; done.
Qed.

(** * Separators on the way up *)

Section Split.
Context {D : Type} `{File.DiskLaws D valid sec}.
Implicit Types (w : World D) (U : gset Z).

Local Abbreviation rd w a := (Btree.read (dev w) (start_lba (vol w)) a).
Local Abbreviation root w := (inode_tree_root (sb (vol w))).
Local Abbreviation ready := (ready (valid := valid)).
Local Abbreviation moved := (moved (sec := sec)).
Local Abbreviation st w := (stored (start_lba (vol w)) (dev w)).
Local Abbreviation hole := (hole (valid := valid)).
Local Abbreviation holds := (holds (valid := valid)).
Local Abbreviation aset t := (list_to_set (addrs t) : gset Z).

Lemma ready_eq w own own' : ready w own → own = own' → ready w own'.
Proof. by intros ? <-. Qed.

Lemma ok_some_run {A} (m : Op D (option A)) e w a w' : m w = (Ok (Some a), w') → ok_or_err m e w = (Ok a, w').
Proof. intros Hm. unfold ok_or_err. by m_run (exact Hm). Qed.

Lemma root_not_tail t x : x ∈ aset t ∖ {[root_addr t]} → x ∈ aset t ∧ x ≠ root_addr t.
Proof. set_solver. Qed.

Lemma new_root_run w U h L R sep :
  ready w (U ∪ (aset L ∪ aset R)) → U ## aset L ∪ aset R → aset L ## aset R → NoDup (addrs L) → NoDup (addrs R) →
  st w h L → st w h R → wf h None (Some sep) L → wf h (Some sep) None R → key_ok sep → (h < 200)%nat → 2 ≤ space (vol w) →
  ∃ w' r, new_root (Z.of_nat (S h)) (root_addr L) sep (root_addr R) w = (Ok tt, w') ∧
    holds w' U (S h) (TNode r [sep] [L; R]) ∧ moved 2 U w w'.
Proof.
  intros Hr HU HLR HnL HnR HsL HsR HwL HwR Hok Hh Hsp. set (lvl := Z.of_nat (S h)).
  assert (HrL : root_addr L ∈ aset L) by (apply elem_of_list_to_set, root_in_addrs).
  assert (HrR : root_addr R ∈ aset R) by (apply elem_of_list_to_set, root_in_addrs).
  destruct (next_block_run w _ Hr) as (r & w1 & H1 & Hrn & Hr1 & Hm1 & Hd1 & Hrt1 & Hg1 & _); [lia|].
  destruct (own_addr w _ (root_addr L) Hr) as [_ HaL]; [set_solver|]. destruct (own_addr w _ (root_addr R) Hr) as [_ HaR]; [set_solver|].
  unfold new_root. m_run (by apply ok_some_run). m_run reflexivity.
  set (n0 := set_leftmost_child (root_addr L) (set_level lvl (new r))).
  assert (Hn0 : node_kids [] [root_addr L] n0 ∧ level n0 = lvl).
  { unfold n0, node_kids. split_and!.
    - split; [by apply rep_set_leftmost, rep_set_level, rep_new|constructor].
    - cbn [hd]. apply (leftmost_set []); [apply rep_set_level, rep_new|unfold is_addr in HaL; lia].
    - done.
    - by apply Forall_singleton.
    - unfold set_leftmost_child. rewrite (level_patch []); [|apply rep_set_level, rep_new|lia].
      apply (level_set_level []); [apply rep_new|lia]. }
  destruct (kids_insert [] [root_addr L] n0 lvl 0 sep (root_addr R) Hn0) as (n1 & Hi & Hk & Ha); [done|by intros ? ?; rewrite lookup_nil..|done|done|done|].
  rewrite Hi. change (block_addr n0) with r in Ha. apply kids_looks in Hk as [Hk Hkk].
  apply (looks_generation _ _ _ _ (tx_gen (vol w1))) in Hk. set (n2 := set_generation _ n1) in *.
  destruct (store_run w1 _ _ _ _ n2 r Hr1 Ha ltac:(set_solver) Hk) as (w2 & H2 & Hr2 & Hm2 & Hrt2 & Hg2 & n3 & Hrd3 & Hlk3).
  rewrite H2. cbn [negb]. destruct (set_root_run w2 _ r Hr2) as (w3 & H3 & Hr3 & Hm3 & Hd3 & Hrt3).
  assert (Hmm : moved (1 + 1 + 0) (U ∪ (aset L ∪ aset R)) w w3).
  { eapply moved_trans; [eapply moved_trans|]; eapply moved_weaken; [exact Hm1|lia|done|exact Hm2|lia| |exact Hm3|lia|clear; set_solver].
    revert Hrn. clear. set_solver. }
  exists w3, r. split_and!; [done| |].
  - assert (Hset : aset (TNode r [sep] [L; R]) = {[r]} ∪ (aset L ∪ aset R)).
    { cbn. rewrite app_nil_r, list_to_set_app_L. done. }
    split; rewrite ?Hset.
    + eapply ready_eq; [exact Hr3|]. clear. set_solver.
    + revert Hrn HU. clear. generalize (aset L) (aset R). set_solver.
    + cbn. rewrite app_nil_r. apply NoDup_cons. split.
      * revert Hrn. clear. rewrite elem_of_app. set_solver.
      * apply NoDup_app. split_and!; [done| |done]. revert HLR. clear. set_solver.
    + cbn. split.
      * exists n3. split; [|by apply kids_looks]. rewrite <-Hrd3. by rewrite Hd3, (mv_start _ _ _ _ Hm3).
      * repeat constructor; (eapply stored_kept; [exact Hr|exact Hmm|clear; set_solver|clear; set_solver|done]).
    + cbn. split_and!; [done|repeat constructor|by repeat constructor|]. intros [|[|i]] c Hc; cbn in Hc; simplify_eq; done.
    + done.
  - eapply moved_weaken; [exact Hmm|lia|clear; set_solver].
Qed.

(** The blocks of a list of subtrees. *)
Local Abbreviation lset cs := (list_to_set (concat (addrs <$> cs)) : gset Z).

Lemma lset_app cs1 cs2 : lset (cs1 ++ cs2) = lset cs1 ∪ lset cs2.
Proof. by rewrite fmap_app, concat_app, list_to_set_app_L. Qed.

Lemma trees_kept n X w w' own h cs :
  ready w own → moved n X w w' → lset cs ⊆ X → lset cs ⊆ own → Forall (st w h) cs → Forall (st w' h) cs.
Proof.
  intros Hr Hm HX Ho Hf. rewrite Forall_forall in *. intros c Hc.
  assert (Hin : aset c ⊆ lset cs).
  { intros x. rewrite !elem_of_list_to_set, elem_of_concat. intros Hx. exists (addrs c). split; [done|]. by apply list_elem_of_fmap_2. }
  eapply stored_kept; [exact Hr|exact Hm| | |by apply Hf]; by etransitivity.
Qed.

(** Two neighbouring subtrees and the key between them. *)
Record pair w U (h : nat) (L R : tree) (sep : Key) (lo hi : option Key) : Prop := mkPair {
  pr_dis : U ## aset L ∪ aset R;
  pr_nodup : NoDup (addrs L ++ addrs R);
  pr_L : st w h L;
  pr_R : st w h R;
  pr_wfL : wf h lo (Some sep) L;
  pr_wfR : wf h (Some sep) hi R;
  pr_lo : sabove lo sep;
  pr_hi : below hi sep;
  pr_key : key_ok sep;
}.

Lemma pair_kept n X w w' own U h L R sep lo hi :
  pair w U h L R sep lo hi → ready w own → moved n X w w' → aset L ∪ aset R ⊆ X → aset L ∪ aset R ⊆ own → pair w' U h L R sep lo hi.
Proof.
  intros [Hd Hn HL HR H1 H2 H3 H4 H5] Hr Hm HX Ho. split; try done; (eapply stored_kept; [exact Hr|exact Hm| | |done]); set_solver.
Qed.

(** [L] has been split: [R] is its new right neighbour, but only [L] is in the tree. *)
Record pending w U (h : nat) (L R : tree) (sep : Key) (fs : list frame) (lo hi : option Key) : Prop := mkPending {
  pe_hole : hole w (U ∪ ((aset L ∪ aset R) ∖ {[root_addr L]})) h (root_addr L) fs;
  pe_pair : pair w U h L R sep lo hi;
  pe_ctx : wf_ctx h lo hi fs;
}.

(** The parent's children once [R] is among them. *)
Definition new_kids (f : frame) (L R : tree) : list tree := f_l f ++ L :: R :: f_r f.

Lemma pending_pop w U h L R sep f gs lo hi :
  pending w U h L R sep (f :: gs) lo hi →
  hole w (U ∪ lset (new_kids f L R)) (S h) (f_addr f) gs ∧ U ## lset (new_kids f L R) ∧
  NoDup (concat (addrs <$> new_kids f L R)) ∧ Forall (st w h) (new_kids f L R).
Proof.
  intros [Hho [HU Hnd HsL HsR _ _ _ _ _] _].
  assert (Hp : concat (addrs <$> new_kids f L R) ≡ₚ (addrs L ++ addrs R) ++ concat (addrs <$> sibs f)).
  { unfold new_kids, sibs. rewrite !fmap_app, !fmap_cons, !concat_app. cbn. solve_Permutation. }
  assert (Hset : lset (new_kids f L R) = (aset L ∪ aset R) ∪ lset (sibs f)).
  { rewrite <-!list_to_set_app_L. apply set_eq. intros x. by rewrite !elem_of_list_to_set, Hp. }
  assert (HrL : root_addr L ∈ aset L) by (apply elem_of_list_to_set, root_in_addrs).
  pose proof (ho_dis _ _ _ _ _ Hho) as Hd. pose proof (ho_nodup _ _ _ _ _ Hho) as Hn. pose proof (ho_sibs _ _ _ _ _ Hho) as [Hst _].
  unfold ctx_addrs, sib_addrs in Hd, Hn. rewrite fmap_cons in Hd, Hn. rewrite (fmap_cons (λ f, concat (addrs <$> sibs f))), concat_cons in Hd, Hn.
  rewrite list_to_set_cons, !list_to_set_app_L in Hd. apply NoDup_cons in Hn as [Hn1 Hn]. rewrite !elem_of_app in Hn1.
  apply NoDup_app in Hn as (_ & _ & Hn). apply NoDup_app in Hn as (Hn & _ & _).
  assert (HrB : root_addr L ∉ lset (sibs f)) by (rewrite elem_of_list_to_set; tauto).
  assert (HB : U ∪ (aset L ∪ aset R) ## lset (sibs f)).
  { revert Hd HrB. clear. generalize (lset (sibs f)) (aset L ∪ aset R) (list_to_set (concat ((λ f0, concat (addrs <$> sibs f0)) <$> gs)) : gset Z).
    generalize (list_to_set (f_addr <$> f :: gs) : gset Z). intros F B A G Hd HrB x Hx Hb. destruct (decide (x = root_addr L)) as [->|Hne]; [done|].
    apply (Hd x); set_solver. }
  rewrite Hset. split_and!.
  - replace (U ∪ (aset L ∪ aset R ∪ lset (sibs f))) with (U ∪ ((aset L ∪ aset R) ∖ {[root_addr L]}) ∪ {[root_addr L]} ∪ lset (sibs f)); [by apply hole_pop|].
    revert HrL. clear. generalize (aset L) (aset R) (lset (sibs f)). intros A A' B HrL. apply set_eq. intros x. destruct (decide (x = root_addr L)); set_solver.
  - revert HU HB. clear. generalize (aset L ∪ aset R) (lset (sibs f)). set_solver.
  - rewrite Hp. apply NoDup_app. split_and!; [done| |done]. intros x Hx Hy. apply (HB x); [|by apply elem_of_list_to_set].
    apply elem_of_union_r. rewrite <-list_to_set_app_L. by apply elem_of_list_to_set.
  - unfold sibs in Hst. unfold new_kids. rewrite Forall_app in Hst. rewrite Forall_app, !Forall_cons. tauto.
Qed.

(** ** Operations beside a hole *)

Lemma hole_alloc w U h c fs :
  hole w U h c fs → 1 ≤ space (vol w) →
  ∃ p w', next_block w = (Ok (Some p), w') ∧ hole w' (U ∪ {[p]}) h c fs ∧ p ∉ U ∧ is_addr p ∧ moved 1 U w w'.
Proof.
  intros Hho Hsp. destruct (next_block_run w _ (ho_ready _ _ _ _ _ Hho)) as (p & w1 & H1 & Hp & Hr1 & Hm1 & Hd1 & Hrt1 & _); [lia|].
  pose proof (ho_dis _ _ _ _ _ Hho) as Hd. exists p, w1. split_and!; [done| | | |].
  - eapply hole_kept; [exact Hho|exact Hm1| | | |done].
    + rewrite list_to_set_cons. clear. generalize (list_to_set (ctx_addrs fs) : gset Z). set_solver.
    + eapply ready_eq; [exact Hr1|]. clear. generalize (list_to_set (c :: ctx_addrs fs) : gset Z). set_solver.
    + revert Hd Hp. clear. generalize (list_to_set (c :: ctx_addrs fs) : gset Z). set_solver.
  - revert Hp. clear. set_solver.
  - apply (own_addr w1 _ p Hr1). clear. set_solver.
  - eapply moved_weaken; [exact Hm1|lia|clear; set_solver].
Qed.

(** A change of blocks of [U] only. *)
Lemma hole_beside n w w' U h c fs own Y :
  hole w U h c fs → ready w' own → own = U ∪ list_to_set (c :: ctx_addrs fs) → moved n (own ∖ Y) w w' → Y ⊆ U → root w' = root w →
  hole w' U h c fs ∧ moved n (U ∖ Y) w w'.
Proof.
  intros Hho Hr -> Hm HY Hrt. pose proof (ho_dis _ _ _ _ _ Hho) as Hd. split.
  - eapply hole_kept; [exact Hho|exact Hm| |done|done|done]. rewrite list_to_set_cons in *. revert Hd HY. clear.
    generalize (list_to_set (ctx_addrs fs) : gset Z). set_solver.
  - eapply moved_weaken; [exact Hm|lia|]. clear. set_solver.
Qed.

Lemma hole_log w U h c fs a data :
  hole w U h c fs → zlen data = 4096 → ∃ w', log_block a data w = (Ok tt, w') ∧ hole w' U h c fs ∧ moved 1 U w w'.
Proof.
  intros Hho Hz. destruct (log_run w _ a data (ho_ready _ _ _ _ _ Hho) Hz) as (w' & H1 & Hr & Hm & Hd & Hrt & _). exists w'. split; [done|].
  replace U with (U ∖ ∅) at 2 by (clear; set_solver). eapply hole_beside; [exact Hho|exact Hr|done| |clear; set_solver|done].
  eapply moved_weaken; [exact Hm|lia|clear; set_solver].
Qed.

Lemma hole_write w U h c fs its lvl lm n p :
  hole w U h c fs → block_addr n = p → p ∈ U → looks its lvl lm n →
  ∃ w', write_node n w = (Ok true, w') ∧ hole w' U h c fs ∧ moved 0 (U ∖ {[p]}) w w' ∧ ∃ n', rd w' p = Some n' ∧ looks its lvl lm n'.
Proof.
  intros Hho <- Hp Hn. destruct (write_node_run w _ its lvl lm n (ho_ready _ _ _ _ _ Hho)) as (w' & H1 & Hr & Hm & Hv & n' & Hrd & Hn' & _);
    [revert Hp; clear; set_solver|done|].
  exists w'. split; [done|]. destruct (hole_beside 0 w w' U h c fs _ {[block_addr n]} Hho Hr eq_refl Hm) as [H2 H3].
  - revert Hp. clear. set_solver.
  - by rewrite Hv.
  - split_and!; [done..|]. by exists n'.
Qed.

Lemma tx_gen_moved n X w w' : moved n X w w' → tx_gen (vol w') = tx_gen (vol w).
Proof. intros Hm. unfold tx_gen. by rewrite (mv_tx _ _ _ _ Hm). Qed.

Lemma read_moved n X w w' own a m : ready w own → moved n X w w' → a ∈ X → a ∈ own → rd w a = Some m → rd w' a = Some m.
Proof. intros Hr Hm HX Ho <-. by eapply read_kept. Qed.

(** ** The parent of a split node *)

Lemma pending_parent w U h L R sep f gs lo hi :
  pending w U h L R sep (f :: gs) lo hi → (length gs < 8)%nat →
  ∃ n ns, find_parent_path (root_addr L) sep w = (Ok (Some (reverse ns ++ [n])), w) ∧ path_mem h (root_addr L) (f :: gs) (n :: ns).
Proof.
  intros Hpe Hlen. pose proof (pe_hole _ _ _ _ _ _ _ _ _ Hpe) as Hho. pose proof (pe_ctx _ _ _ _ _ _ _ _ _ Hpe) as Hctx.
  pose proof (wf_ctx_route _ _ _ _ sep Hctx) as Hrt. destruct Hpe as [_ [] _]. specialize (Hrt (conj (sabove_above _ _ pr_lo0) pr_hi0)).
  rewrite Forall_cons in Hrt. destruct (find_parent_run gs 8 w h (root_addr L) f sep []) as (ns & n & Hf & Hp); [apply Hho|apply Hho|apply Hrt|done|].
  exists n, ns. split; [|done]. unfold find_parent_path. m_run reflexivity.
  rewrite (ho_root _ _ _ _ _ Hho). assert (Ht : top (root_addr L) (f :: gs) = top (f_addr f) gs) by (unfold top; apply last_default_shape).
  rewrite Ht. rewrite (proj2 (Z.eqb_neq _ _)); [exact Hf|]. pose proof (ho_nodup _ _ _ _ _ Hho) as Hn. apply NoDup_cons in Hn as [Hn _].
  intros Heq. apply Hn. rewrite <-Heq. unfold ctx_addrs. apply elem_of_app. left. unfold top. destruct (last gs) as [y|] eqn:Ey.
  - apply last_Some in Ey as [l ->]. cbn [default fmap option_fmap option_map]. apply (list_elem_of_fmap_2 f_addr). right. set_solver.
  - cbn. by left.
Qed.

Lemma pending_wf w U h L R sep f gs lo hi :
  pending w U h L R sep (f :: gs) lo hi →
  let i := length (f_l f) in
  ∃ lo' hi', wf (S h) lo' hi' (TNode (f_addr f) (f_keys f) (f_l f ++ L :: f_r f)) ∧ wf_ctx (S h) lo' hi' gs ∧
    lo = lo_of lo' (f_keys f) i ∧ hi = hi_of hi' (f_keys f) i ∧ (i ≤ length (f_keys f))%nat ∧ StronglySorted key_lt (f_keys f).
Proof.
  intros Hpe i. destruct (pe_ctx _ _ _ _ _ _ _ _ _ Hpe) as (lo' & hi' & Hf & Hctx). exists lo', hi'.
  pose proof Hf as (Hlen & Hs & _ & Hlo & Hhi & _). split_and!; try done; [|lia].
  apply (frame_fill h lo' hi' f lo hi L Hf). eapply wf_weaken; [apply (pe_pair _ _ _ _ _ _ _ _ _ Hpe)|done|].
  intros k Hk. eapply below_weaken; [exact Hk|]. apply (pe_pair _ _ _ _ _ _ _ _ _ Hpe).
Qed.

Lemma items_new_kids f gs p ks L R :
  items (plug gs (TNode p ks (new_kids f L R))) = ctx_l (f :: gs) ++ items L ++ items R ++ ctx_r (f :: gs).
Proof.
  rewrite items_plug. unfold new_kids, ctx_l, ctx_r. cbn [items]. rewrite reverse_cons, fmap_app, concat_app. rewrite fmap_cons, concat_cons.
  cbn. rewrite ?app_nil_r, !fmap_app, !concat_app, !fmap_cons. cbn. by rewrite <-!app_assoc.
Qed.

Lemma f_kids_root f L : f_kids f (root_addr L) = root_addr <$> (f_l f ++ L :: f_r f).
Proof. unfold f_kids. by rewrite fmap_app, fmap_cons. Qed.

(** *** How the tree grows *)

(** How full the root is; a leaf counts as full. *)
Definition fan (t : tree) : Z := match t with TLeaf _ _ => MAX_LEAF_ITEMS | TNode _ ks _ => zlen ks end.
Definition top_fan (fs : list frame) : Z := match last fs with Some f => zlen (f_keys f) | None => MAX_LEAF_ITEMS end.

(** From a root with [k] keys at height [h]: one more key, or a new root with one key above
    a full one. *)
Definition grows (k : Z) (h h' : nat) (t' : tree) : Prop :=
  (h' = h ∧ fan t' ≤ k + 1) ∨ (h' = S h ∧ fan t' = 1 ∧ MAX_LEAF_ITEMS ≤ k).

Lemma grows_le k h h' t' : grows k h h' t' → (h' ≤ S h)%nat.
Proof. intros [[-> _]|[-> _]]; lia. Qed.

Lemma fan_plug fs t : fan (plug fs t) = match last fs with Some f => zlen (f_keys f) | None => fan t end.
Proof.
  revert t. induction fs as [|f fs IH]; intros t; [done|]. cbn [plug]. rewrite IH. destruct fs as [|g fs]; [done|].
  rewrite last_cons_cons. destruct (last (g :: fs)) eqn:E; [done|]. by apply last_None in E.
Qed.

Lemma shape_top_fan fs fs' : Forall2 same_shape fs fs' → top_fan fs' = top_fan fs.
Proof.
  intros Hsh. unfold top_fan. induction Hsh as [|f f' fs fs' Hf Hsh IH]; [done|]. rewrite !last_cons. destruct Hsh as [|g g' fs fs' Hg Hsh]; [by rewrite Hf|].
  destruct (last (g :: fs)) eqn:E; [|by apply last_None in E]. destruct (last (g' :: fs')) eqn:E'; [done|by apply last_None in E'].
Qed.

Lemma plug_fan_le gs gs' t f : Forall2 same_shape gs gs' → fan t ≤ zlen (f_keys f) + 1 →
  fan (plug gs' t) ≤ match match last gs with Some g => Some g | None => Some f end with Some f => zlen (f_keys f) | None => MAX_LEAF_ITEMS end + 1.
Proof.
  intros Hsh Ht. pose proof (shape_top_fan _ _ Hsh) as Htf. unfold top_fan in Htf. rewrite fan_plug. destruct Hsh as [|g g' gs gs' Hg Hsh]; [exact Ht|].
  destruct (last (g :: gs)) eqn:E; [|by apply last_None in E]. destruct (last (g' :: gs')) eqn:E'; [lia|by apply last_None in E'].
Qed.

(** The separator fits the parent. *)
Lemma separator_fits fuel w U h L R sep f gs lo hi :
  pending w U h L R sep (f :: gs) lo hi → (length gs < 8)%nat → zlen (f_keys f) < MAX_LEAF_ITEMS → 2 + 2 * zlen gs ≤ space (vol w) →
  ∃ w' t', insert_separator (S fuel) sep (root_addr L) (root_addr R) w = (Ok tt, w') ∧ holds w' U (length (f :: gs) + h) t' ∧
    items t' = ctx_l (f :: gs) ++ items L ++ items R ++ ctx_r (f :: gs) ∧ fan t' ≤ top_fan (f :: gs) + 1 ∧ moved (2 + 2 * zlen gs) U w w'.
Proof.
  intros Hpe Hlen Hroom Hsp. pose proof (zlen_nonneg gs) as Hz. destruct (pending_parent _ _ _ _ _ _ _ _ _ _ Hpe Hlen) as (n & ns & Hfp & Hk & Ha & Hmem).
  destruct (pending_wf _ _ _ _ _ _ _ _ _ _ Hpe) as (lo' & hi' & Hwf & Hctx & Hlo & Hhi & Hil & Hsk).
  destruct (pending_pop _ _ _ _ _ _ _ _ _ _ Hpe) as (Hho & HE & HnE & Hst).
  set (i := length (f_l f)) in *. remember (lset (new_kids f L R)) as E eqn:HeqE.
  destruct (hole_alloc w _ _ _ _ Hho) as (p & w1 & H1 & Hho1 & HpU & Hpa & Hm1); [lia|].
  assert (HRa : is_addr (root_addr R)).
  { apply (own_addr w _ _ (ho_ready _ _ _ _ _ Hho)). apply elem_of_union_l, elem_of_union_r. rewrite HeqE. apply elem_of_list_to_set, elem_of_concat.
    exists (addrs R). split; [apply root_in_addrs|]. apply list_elem_of_fmap_2. unfold new_kids. clear. set_solver. }
  cbn [insert_separator]. m_run (by apply ok_some_run). rewrite last_snoc, length_app, Nat.add_sub, take_app_length.
  m_run (by apply ok_some_run). m_run reflexivity. rewrite f_kids_root in Hk.
  assert (Hk' : node_kids (f_keys f) (root_addr <$> (f_l f ++ L :: f_r f)) (set_block_addr p n) ∧ level (set_block_addr p n) = Z.of_nat (S h)).
  { apply kids_looks. apply kids_looks in Hk as [Hk ?]. split; [by apply looks_addr|done]. }
  destruct Hpe as [_ [_ _ _ _ HwL HwR Hslo Hshi Hkey] _]. rewrite Hlo in Hslo, HwL. rewrite Hhi in Hshi, HwR.
  destruct (kids_insert _ _ _ _ i sep (root_addr R) Hk') as (n1 & Hi1 & Hk1 & Ha1); try done.
  { eapply keys_before; [exact Hsk|exact Hil|exact Hslo|exact Hshi]. }
  { eapply keys_after; [exact Hsk|exact Hil|exact Hslo|exact Hshi]. }
  rewrite Hi1. rewrite <-ins_fmap, ins_app in Hk1 by done. fold (new_kids f L R) in Hk1. apply kids_looks in Hk1 as [Hk1 Hkk].
  apply (looks_generation _ _ _ _ (tx_gen (vol w1))) in Hk1. set (n2 := set_generation _ n1) in *.
  change (block_addr (set_block_addr p n)) with p in Ha1.
  destruct (store_run w1 _ _ _ _ n2 p (ho_ready _ _ _ _ _ Hho1) Ha1 ltac:(clear; set_solver) Hk1)
    as (w2 & H2 & Hr2 & Hm2 & Hrt2 & Hg2 & n3 & Hrd3 & Hn3).
  rewrite H2. cbn [negb]. destruct (hole_beside _ _ _ _ _ _ _ _ _ Hho1 Hr2 eq_refl Hm2) as [Hho2 Hm2']; [clear; set_solver|done|].
  pose proof (mv_space _ _ _ _ Hm1) as Hsp1. pose proof (mv_space _ _ _ _ Hm2) as Hsp2.
  destruct (repoint w2 _ _ _ p gs ns Hho2 HpU Hmem) as (w3 & w' & gs' & H3 & H4 & Hho' & Hsh & Hm' & Hg'); [lia|].
  assert (Hmm : moved (1 + 1 + 2 * zlen gs) (U ∪ E) w w').
  { eapply moved_trans; [eapply moved_trans; [exact Hm1|]|]; eapply moved_weaken; [exact Hm2'|lia| |exact Hm'|lia|clear; set_solver].
    revert HpU. clear. set_solver. }
  set (T := TNode p (ins i sep (f_keys f)) (new_kids f L R)).
  exists w', (plug gs' T). split_and!.
  - rewrite Ha. m_run (exact H3). destruct (reverse ns) as [|m l]; [exact H4|]. m_run (exact H4). done.
  -
    replace (length (f :: gs) + h)%nat with (length gs' + S h)%nat by (rewrite (shape_length _ _ Hsh); cbn; lia).
    eapply hole_fill; [exact Hho'| | | | | |by eapply shape_wf_ctx].
    + cbn. rewrite <-HeqE. revert HpU. clear. set_solver.
    + cbn. rewrite <-HeqE. revert HE HpU. clear. set_solver.
    + cbn. apply NoDup_cons. split; [|done]. intros Hp. apply HpU, elem_of_union_r. rewrite HeqE. by apply elem_of_list_to_set.
    + cbn. split.
      * exists n3. split; [|by apply kids_looks]. eapply read_moved; [exact Hr2|exact Hm'|clear; set_solver|clear; set_solver|exact Hrd3].
      * eapply trees_kept; [apply Hho|exact Hmm| | |done]; rewrite <-HeqE; clear; set_solver.
    + unfold T. unfold new_kids. rewrite <-(ins_app i R L (f_l f) (f_r f)) by done.
      eapply wf_add; [exact Hwf|by rewrite lookup_app_r, Nat.sub_diag by done|done..].
  - unfold T. rewrite items_new_kids. unfold ctx_l, ctx_r. rewrite !reverse_cons, !fmap_app, !concat_app, !fmap_cons, !concat_cons.
    fold (ctx_l gs') (ctx_r gs') (ctx_l gs) (ctx_r gs). by rewrite (shape_ctx_l _ _ Hsh), (shape_ctx_r _ _ Hsh).
  - unfold top_fan. rewrite last_cons. eapply plug_fan_le; [exact Hsh|]. unfold T, zlen. cbn [fan]. unfold zlen. rewrite length_ins. clear. lia.
  - eapply moved_weaken; [exact Hmm|lia|clear; set_solver].
Qed.

(** The parent is full: it is cut, and its halves stored; what is left is to replace it. *)
Lemma separator_cut fuel w U h L R sep f gs lo hi :
  pending w U h L R sep (f :: gs) lo hi → (length gs < 8)%nat → zlen (f_keys f) = MAX_LEAF_ITEMS → (h < 200)%nat → 4 ≤ space (vol w) →
  ∃ w' ns TL TR m lo' hi',
    insert_separator (S fuel) sep (root_addr L) (root_addr R) w =
      (reclaim_block (f_addr f);;
       match reverse ns with
       | [] => new_root (u8_sat_add (Z.of_nat (S h)) 1) (root_addr TL) m (root_addr TR)
       | _ :: _ =>
           ok ← cow_update_ancestors (reverse ns) (f_addr f) (root_addr TL);
           if negb ok then m_err "ancestor after split" else insert_separator fuel m (root_addr TL) (root_addr TR)
       end) w' ∧
    path_mem (S h) (f_addr f) gs ns ∧ wf_ctx (S h) lo' hi' gs ∧ pair w' U (S h) TL TR m lo' hi' ∧
    hole w' (U ∪ ((aset TL ∪ aset TR) ∖ {[root_addr TL]}) ∪ {[root_addr TL]}) (S h) (f_addr f) gs ∧ moved 4 U w w' ∧
    items TL ++ items TR = concat (items <$> new_kids f L R).
Proof.
  intros Hpe Hlen Hfull Hh Hsp. destruct (pending_parent _ _ _ _ _ _ _ _ _ _ Hpe Hlen) as (n & ns & Hfp & Hk & Ha & Hmem).
  destruct (pending_wf _ _ _ _ _ _ _ _ _ _ Hpe) as (lo' & hi' & Hwf & Hctx & Hlo & Hhi & Hil & Hsk).
  destruct (pending_pop _ _ _ _ _ _ _ _ _ _ Hpe) as (Hho & HE & HnE & Hst). rewrite f_kids_root in Hk.
  set (i := length (f_l f)) in *. remember (lset (new_kids f L R)) as E eqn:HeqE.
  destruct (hole_alloc w _ _ _ _ Hho) as (p & w1 & H1 & Hho1 & HpU & Hpa & Hm1); [lia|]. pose proof (mv_space _ _ _ _ Hm1) as Hsp1.
  destruct (hole_alloc w1 _ _ _ _ Hho1) as (q & w2 & H2 & Hho2 & HqU & Hqa & Hm2); [lia|].
  assert (HRa : is_addr (root_addr R)).
  { apply (own_addr w _ _ (ho_ready _ _ _ _ _ Hho)). apply elem_of_union_l, elem_of_union_r. rewrite HeqE. apply elem_of_list_to_set, elem_of_concat.
    exists (addrs R). split; [apply root_in_addrs|]. apply list_elem_of_fmap_2. unfold new_kids. clear. set_solver. }
  assert (Hk' : node_kids (f_keys f) (root_addr <$> (f_l f ++ L :: f_r f)) (set_block_addr p n) ∧ level (set_block_addr p n) = Z.of_nat (S h)).
  { apply kids_looks. apply kids_looks in Hk as [Hk ?]. split; [by apply looks_addr|done]. }
  destruct Hpe as [_ [_ _ _ _ HwL HwR Hslo Hshi Hkey] _]. rewrite Hlo in Hslo, HwL. rewrite Hhi in Hshi, HwR.
  destruct (split_insert _ _ _ _ i sep L R q (f_addr f) h lo' hi' Hk' ltac:(lia) Hfull Hqa Hwf) as
    (m & l1 & r1 & l2 & r2 & ks1 & cs1 & ks2 & cs2 & Hsp' & Hins & Hcs & Hk1 & Hk2 & Ha1 & Ha2 & Hw1 & Hw2 & Hmlo & Hmhi & Hmk); try done.
  { by rewrite lookup_app_r, Nat.sub_diag by done. }
  rewrite ins_app in Hcs by done. fold (new_kids f L R) in Hcs.
  apply kids_looks in Hk1 as [Hk1 Hkk1]. apply kids_looks in Hk2 as [Hk2 Hkk2].
  apply (looks_generation _ _ _ _ (tx_gen (vol w1))) in Hk1, Hk2.
  set (n1 := set_generation (tx_gen (vol w1)) l2) in *. set (n2 := set_generation (tx_gen (vol w1)) r2) in *.
  change (block_addr (set_block_addr p n)) with p in Ha1.
  destruct (hole_log w2 _ _ _ _ p (data n1) Hho2) as (w3 & H3 & Hho3 & Hm3); [by apply (rep_len _ n1 (proj1 (proj1 Hk1)))|].
  destruct (hole_log w3 _ _ _ _ q (data n2) Hho3) as (w4 & H4 & Hho4 & Hm4); [by apply (rep_len _ n2 (proj1 (proj1 Hk2)))|].
  destruct (hole_write w4 _ _ _ _ _ _ _ n1 p Hho4 Ha1 ltac:(clear; set_solver) Hk1) as (w5 & H5 & Hho5 & Hm5 & n3 & Hrd3 & Hn3).
  destruct (hole_write w5 _ _ _ _ _ _ _ n2 q Hho5 Ha2 ltac:(clear; set_solver) Hk2) as (w6 & H6 & Hho6 & Hm6 & n4 & Hrd4 & Hn4).
  assert (Hmm : moved (1 + 1 + 1 + 1 + 0 + 0) (U ∪ E) w w6).
  { eapply moved_trans; [eapply moved_trans; [eapply moved_trans; [eapply moved_trans; [eapply moved_trans|]|]|]|];
      [exact Hm1|eapply moved_weaken; [exact Hm2|lia|]|eapply moved_weaken; [exact Hm3|lia|]|eapply moved_weaken; [exact Hm4|lia|]
      |eapply moved_weaken; [exact Hm5|lia|]|eapply moved_weaken; [exact Hm6|lia|]]; revert HpU HqU; clear; set_solver. }
  assert (HE' : E = lset cs1 ∪ lset cs2) by (by rewrite HeqE, <-Hcs, lset_app).
  set (TL := TNode p ks1 cs1). set (TR := TNode q ks2 cs2).
  assert (HA : aset TL ∪ aset TR = {[p]} ∪ {[q]} ∪ E) by (rewrite HE'; cbn; clear; set_solver).
  rewrite <-Hcs in Hst, HnE. rewrite fmap_app, concat_app in HnE. apply NoDup_app in HnE as (Hn1 & Hn2 & Hn3').
  assert (HpE : p ∉ concat (addrs <$> cs1) ∧ p ∉ concat (addrs <$> cs2)).
  { rewrite <-!(not_elem_of_list_to_set (C := gset Z)). revert HpU. rewrite HE'. clear. set_solver. }
  assert (HqE : q ∉ concat (addrs <$> cs1) ∧ q ∉ concat (addrs <$> cs2) ∧ q ≠ p).
  { rewrite <-!(not_elem_of_list_to_set (C := gset Z)). revert HqU. rewrite HE'. clear. set_solver. }
  assert (Hst' : Forall (st w6 h) (cs1 ++ cs2)).
  { eapply trees_kept; [apply Hho|exact Hmm| | |done]; rewrite lset_app, <-HE'; clear; set_solver. }
  rewrite Forall_app in Hst'.
  exists w6, ns, TL, TR, m, lo', hi'. split_and!; [|done|done| | | |].
  - cbn [insert_separator]. m_run (by apply ok_some_run). rewrite last_snoc, length_app, Nat.add_sub, take_app_length.
    m_run (by apply ok_some_run). m_run reflexivity.
    assert (Hfl : insert sep (from_child_ptr (root_addr R)) (set_block_addr p n) = (false, set_block_addr p n)).
    { eapply rep_insert_full; [apply Hk'|]. by rewrite (zlen_seps _ _ _ (proj1 Hk')). }
    rewrite Hfl. m_run (by apply ok_some_run). m_run (unfold m_lift; rewrite Hsp'; reflexivity). m_run reflexivity.
    erewrite (M_bind_Ok _ _ _ (l2, r2) w2) by (destruct (key_cmp sep m); destruct Hins as [-> ->]; reflexivity). cbv beta iota.
    fold n1 n2. m_run (exact H3). m_run (exact H4). m_run (exact H5). m_run (exact H6). cbn [negb]. rewrite Ha. f_equal. 
    destruct Hk as [_ ->]. done.
  - split; try done.
    + rewrite HA. revert HE HpU HqU. clear. set_solver.
    + cbn. apply NoDup_cons. rewrite elem_of_app, elem_of_cons. split; [naive_solver|]. apply NoDup_app. split_and!; [done| |].
      * intros x Hx. rewrite elem_of_cons. intros [->|Hy]; [naive_solver|by apply (Hn2 x)].
      * apply NoDup_cons. split; [naive_solver|done].
    + cbn. split; [|apply Hst']. exists n3. split; [|by apply kids_looks].
      eapply read_moved; [apply Hho5|exact Hm6|..|exact Hrd3]; [revert HqE|]; clear; set_solver.
    + cbn. split; [|apply Hst']. exists n4. split; [done|by apply kids_looks].
    + apply Hw1.
    + apply Hw2.
  - cbn [root_addr TL]. replace (U ∪ ((aset TL ∪ aset TR) ∖ {[p]}) ∪ {[p]}) with (U ∪ E ∪ {[p]} ∪ {[q]}); [done|]. rewrite HA.
    clear. apply set_eq. intros x. destruct (decide (x = p)); set_solver.
  - eapply moved_weaken; [exact Hmm|lia|clear; set_solver].
  - rewrite <-Hcs. cbn. by rewrite fmap_app, concat_app.
Qed.

(** The new separator and right neighbour end up in the tree, however many ancestors
    have to be cut; the tree grows by at most one level. *)
Lemma insert_separator_run fuel : ∀ w U h L R sep fs lo hi,
  pending w U h L R sep fs lo hi → Forall (λ f, zlen (f_keys f) ≤ MAX_LEAF_ITEMS) fs →
  (fs = [] → h = 0%nat) → (length fs < fuel)%nat → (length fs < 8)%nat → (length fs + h < 100)%nat → 2 + 20 * zlen fs ≤ space (vol w) →
  ∃ w' h' t', insert_separator fuel sep (root_addr L) (root_addr R) w = (Ok tt, w') ∧ holds w' U h' t' ∧
    items t' = ctx_l fs ++ items L ++ items R ++ ctx_r fs ∧ grows (top_fan fs) (length fs + h) h' t' ∧ moved (2 + 20 * zlen fs) U w w'.
Proof.
  induction fuel as [|fuel IH]; intros w U h L R sep [|f gs] lo hi Hpe Hmax Hh0 Hfuel Hlen Hh Hsp; try (cbn in Hfuel; lia).
  - rewrite (Hh0 eq_refl) in *. destruct Hpe as [Hho [HU Hn HL HR HwL HwR _ _ Hk] [-> ->]].
    apply NoDup_app in Hn as (HnL & Hdis & HnR). assert (HLR : aset L ## aset R) by (intros x; rewrite !elem_of_list_to_set; apply Hdis).
    assert (HrL : root_addr L ∈ aset L) by (apply elem_of_list_to_set, root_in_addrs).
    destruct (new_root_run w U 0 L R sep) as (w' & r & H1 & Hh' & Hm); try done; try (change (zlen []) with 0 in Hsp; lia).
    { eapply ready_eq; [apply Hho|]. unfold ctx_addrs, sib_addrs. cbn. revert HrL. clear. generalize (aset L) (aset R). intros A B HrL.
      apply set_eq. intros x. destruct (decide (x = root_addr L)); set_solver. }
    exists w', 1%nat, (TNode r [sep] [L; R]). split_and!; [|done|by cbn; rewrite !app_nil_r|by right|done].
    cbn [insert_separator]. erewrite (M_bind_Ok _ _ _ [] w); [exact H1|]. apply ok_some_run. unfold find_parent_path. m_run reflexivity.
    rewrite (ho_root _ _ _ _ _ Hho). change (top (root_addr L) []) with (root_addr L). by rewrite Z.eqb_refl.
  - rewrite zlen_cons in *. pose proof (zlen_nonneg gs) as Hz. cbn [length] in *. apply Forall_cons in Hmax as [Hmf Hmax].
    destruct (decide (zlen (f_keys f) < MAX_LEAF_ITEMS)) as [Hroom|Hfull].
    { destruct (separator_fits fuel w U h L R sep f gs lo hi Hpe) as (w' & t' & H1 & Hh' & Hit & Hfan & Hm); [lia|done|lia|].
      exists w', (length (f :: gs) + h)%nat, t'. split_and!; [done..|by left|]. eapply moved_weaken; [exact Hm|lia|done]. }
    destruct (separator_cut fuel w U h L R sep f gs lo hi Hpe) as (w1 & ns & TL & TR & m & lo' & hi' & H1 & Hmem & Hctx & Hpr & Hho & Hm1 & Hit);
      [lia|lia|lia|lia|].
    pose proof (mv_space _ _ _ _ Hm1) as Hsp1. assert (HrT : root_addr TL ∈ aset TL) by (apply elem_of_list_to_set, root_in_addrs).
    assert (HV : root_addr TL ∉ U ∪ ((aset TL ∪ aset TR) ∖ {[root_addr TL]})).
    { pose proof (pr_dis _ _ _ _ _ _ _ _ Hpr) as Hd. revert Hd HrT. clear. generalize (aset TL) (aset TR). set_solver. }
    assert (Hfin : ∀ X Y, X ++ (items TL ++ items TR) ++ Y = X ++ concat (items <$> f_l f) ++ items L ++ items R ++ concat (items <$> f_r f) ++ Y).
    { intros X Y. rewrite Hit. unfold new_kids. rewrite fmap_app, !fmap_cons, concat_app. cbn. by rewrite <-!app_assoc. }
    assert (Hcl : ctx_l (f :: gs) = ctx_l gs ++ concat (items <$> f_l f)).
    { unfold ctx_l. rewrite reverse_cons, fmap_app, concat_app. cbn. by rewrite app_nil_r. }
    assert (Hcr : ctx_r (f :: gs) = concat (items <$> f_r f) ++ ctx_r gs) by done.
    assert (HA : (U ∪ ((aset TL ∪ aset TR) ∖ {[root_addr TL]}) ∪ {[root_addr TL]}) = U ∪ (aset TL ∪ aset TR)).
    { revert HrT. clear. generalize (aset TL) (aset TR). intros A B HrT. apply set_eq. intros x. destruct (decide (x = root_addr TL)); set_solver. }
    destruct gs as [|g gs].
    + destruct ns; [|done]. destruct Hctx as [-> ->]. pose proof (ho_ready _ _ _ _ _ Hho) as Hr. rewrite HA in Hr.
      destruct (reclaim_run w1 _ (f_addr f) Hr) as (w2 & H2 & Hr2 & Hm2 & Hd2 & Hrt2 & _); [clear; set_solver|].
      pose proof (mv_space _ _ _ _ Hm2) as Hsp2. pose proof (ho_dis _ _ _ _ _ Hho) as Hd. rewrite HA in Hd.
      destruct (pair_kept _ _ _ _ _ _ _ _ _ _ _ _ Hpr Hr Hm2) as [HU Hn HL HR HwL HwR _ _ Hkk]; [clear; set_solver..|].
      apply NoDup_app in Hn as (HnL & Hdis & HnR). assert (HLR : aset TL ## aset TR) by (intros x; rewrite !elem_of_list_to_set; apply Hdis).
      destruct (new_root_run w2 U (S h) TL TR m) as (w' & r & H3 & Hh' & Hm3); try done; try lia.
      { eapply ready_eq; [exact Hr2|]. unfold ctx_addrs, sib_addrs in *. cbn in *. revert Hd. clear. generalize (aset TL ∪ aset TR).
        intros A Hd. apply set_eq. intros x. destruct (decide (x = f_addr f)); set_solver. }
      exists w', (S (S h)), (TNode r [m] [TL; TR]). split_and!; [|done| |right; split_and!; [cbn; lia|reflexivity|unfold top_fan; cbn [last]; lia]|].
      * rewrite H1. m_run (exact H2). cbn [reverse rev_append rev]. change (reverse []) with (@nil BTreeNode). cbv iota.
        replace (u8_sat_add (Z.of_nat (S h)) 1) with (Z.of_nat (S (S h))); [exact H3|]. unfold u8_sat_add, U8_MAX. lia.
      * rewrite Hcl, Hcr. cbn. rewrite !app_nil_r. specialize (Hfin [] []). cbn in Hfin. rewrite !app_nil_r in Hfin. exact Hfin.
      * replace (2 + 20 * (1 + zlen [])) with (4 + (18 + 0)) by (change (zlen []) with 0; lia). eapply moved_trans; [exact Hm1|].
        replace (18 + 0) with (0 + 18) by lia. eapply moved_trans; eapply moved_weaken; [exact Hm2|lia|clear; set_solver|exact Hm3|lia|done].
    + destruct (repoint w1 _ _ _ _ _ _ Hho HV Hmem) as (w2 & w3 & gs' & H2 & H3 & Hho' & Hsh & Hm3 & Hg3); [lia|].
      pose proof (mv_space _ _ _ _ Hm3) as Hsp3. pose proof (shape_length _ _ Hsh) as Hsl. rewrite HA in Hm3.
      assert (Hz' : zlen gs' = zlen (g :: gs)) by (unfold zlen; by rewrite Hsl).
      assert (Hnum : (length gs' < fuel)%nat ∧ (length gs' < 8)%nat ∧ 2 + 20 * zlen gs' ≤ space (vol w3)).
      { rewrite Hz', Hsl. unfold zlen in *. cbn [length] in *. lia. }
      destruct (IH w3 U (S h) TL TR m gs' lo' hi') as (w' & h' & t' & H4 & Hh' & Hit' & Hhle & Hm'); [| | |lia..|].
      { split; [done| |by eapply shape_wf_ctx]. eapply pair_kept; [exact Hpr|apply Hho|exact Hm3|clear; set_solver|rewrite HA; clear; set_solver]. }
      { clear -Hsh Hmax. revert Hmax. induction Hsh as [|? ? ? ? -> _ IHs]; [done|]. rewrite !Forall_cons. intros [? ?]. split; [done|auto]. }
      { by intros ->. }
      exists w', h', t'. split_and!; [|done| | |].
      * rewrite H1. m_run (exact H2). destruct (reverse ns) as [|x l] eqn:Er.
        { destruct ns; [done|]. apply (f_equal length) in Er. by rewrite length_reverse in Er. }
        m_run (exact H3). exact H4.
      * rewrite Hit', Hcl, Hcr, (shape_ctx_l _ _ Hsh), (shape_ctx_r _ _ Hsh), <-!app_assoc. rewrite <-Hfin. by rewrite <-!app_assoc.
      * rewrite Hsl, (shape_top_fan _ _ Hsh) in Hhle. unfold top_fan in *. rewrite last_cons_cons. rewrite <-Nat.add_succ_comm in Hhle. exact Hhle.
      * replace (2 + 20 * (1 + zlen (g :: gs))) with (4 + (16 + (2 + 20 * zlen gs'))) by lia. eapply moved_trans; [exact Hm1|].
        eapply moved_trans; [eapply moved_weaken; [exact Hm3| |clear; set_solver]|exact Hm']. unfold zlen in *. cbn [length] in *. lia.
Qed.

(** ** A full leaf *)

(** Writing the block the hole points to. *)
Lemma hole_write_hole w U h p fs its lvl lm n :
  hole w U h p fs → block_addr n = p → looks its lvl lm n →
  ∃ w', write_node n w = (Ok true, w') ∧ hole w' U h p fs ∧ moved 0 U w w' ∧ ∃ n', rd w' p = Some n' ∧ looks its lvl lm n'.
Proof.
  intros Hho <- Hn. pose proof (ho_dis _ _ _ _ _ Hho) as Hd. pose proof (ho_nodup _ _ _ _ _ Hho) as Hnd. apply NoDup_cons in Hnd as [Hnp _].
  apply (not_elem_of_list_to_set (C := gset Z)) in Hnp. rewrite list_to_set_cons in Hd.
  destruct (write_node_run w _ its lvl lm n (ho_ready _ _ _ _ _ Hho)) as (w' & H1 & Hr & Hm & Hv & n' & Hrd & Hn' & _); [clear; set_solver|done|].
  exists w'. split_and!; [done| | |by exists n'].
  - eapply hole_kept; [exact Hho|exact Hm| |done|by apply Hho|by rewrite Hv]. rewrite list_to_set_cons. revert Hnp. clear.
    generalize (list_to_set (ctx_addrs fs) : gset Z). set_solver.
  - eapply moved_weaken; [exact Hm|lia|]. revert Hd. clear. set_solver.
Qed.

Lemma sorted_keys (its : list (Key * bytes)) i j x y : sorted its → its !! i = Some x → its !! j = Some y → (i < j)%nat → key_lt x.1 y.1.
Proof. intros Hs Hx Hy Hij. apply (sorted_keys_lt its.*1 i j); [done|by rewrite list_lookup_fmap, ?Hx, ?Hy..|done]. Qed.

(** The two halves of a full leaf with the new item in one of them. *)
Lemma split_leaf its n lm q k v lo hi :
  looks its 0 lm n → zlen its = MAX_LEAF_ITEMS → item_ok (k, v) → items_map its !! k = None →
  within lo hi k → Forall (λ it, within lo hi it.1) its →
  ∃ sep l1 r1 l2 r2 il ir lm2 pos,
    split_into n (new q) = Ok (Some (sep, l1, r1)) ∧
    match key_cmp k sep with
    | Lt => insert k v l1 = (true, l2) ∧ r2 = r1
    | _ => insert k v r1 = (true, r2) ∧ l2 = l1
    end ∧
    il ++ ir = take pos its ++ (k, v) :: drop pos its ∧ looks il 0 lm l2 ∧ looks ir 0 lm2 r2 ∧ block_addr l2 = block_addr n ∧ block_addr r2 = q ∧
    Forall (λ it, within lo (Some sep) it.1) il ∧ Forall (λ it, within (Some sep) hi it.1) ir ∧ sabove lo sep ∧ below hi sep ∧ key_ok sep.
Proof.
  intros Hn Hfull Hok Hk Hkw Hw. pose proof Hn as (Hs & Hl & Hlm). pose proof Hs as [Hrep Hso]. unfold zlen, MAX_LEAF_ITEMS in Hfull.
  destruct (srep_split_into its n (new q) Hs) as (sep & sv & l1 & r1 & Hsp & Hsep & Hl1 & Hr1 & Hf1 & Hf2); [unfold zlen; lia|split; [apply rep_new|constructor]|].
  assert (Hmid : (length its / 2)%nat = 42%nat) by (replace (length its) with 84%nat by lia; done). rewrite Hmid in *.
  assert (Hlt : Forall (λ it, key_lt it.1 sep) (take 42 its)).
  { apply Forall_lookup. intros j it Hj. rewrite lookup_take_Some in Hj. destruct Hj as [Hj Hj']. by apply (sorted_keys its j 42 it (sep, sv)). }
  assert (Hge : Forall (λ it, ¬ key_lt it.1 sep) (drop 42 its)).
  { apply Forall_lookup. intros j it Hj Hlt'. rewrite lookup_drop in Hj. apply (irreflexivity key_lt sep).
    destruct j as [|j]; [rewrite Nat.add_0_r in Hj; by simplify_eq|]. transitivity it.1; [|done].
    apply (sorted_keys its 42 (42 + S j) (sep, sv) it); [done..|lia]. }
  assert (Hslo : sabove lo sep).
  { destruct (lookup_lt_is_Some_2 its 0) as [x Hx]; [lia|]. eapply above_sabove; [apply (Forall_lookup_1 _ _ _ _ Hw Hx)|].
    apply (sorted_keys its 0 42 x (sep, sv)); [done..|lia]. }
  assert (Hshi : below hi sep) by apply (Forall_lookup_1 _ _ _ _ Hw Hsep).
  assert (Hsok : key_ok sep) by (destruct Hrep as [_ _ Hoks]; apply (Forall_lookup_1 _ _ _ _ Hoks Hsep)).
  rewrite <-(take_drop 42 its) in Hw. rewrite Forall_app in Hw. destruct Hw as [Hw1 Hw2].
  assert (Hin : ∀ its', its' ⊆ its → sorted its' → items_map its' !! k = None).
  { intros its' Hsub Hs'. destruct (items_map its' !! k) as [v'|] eqn:E; [|done]. apply items_map_lookup in E; [|done].
    apply Hsub, items_map_lookup in E; [congruence|done]. }
  assert (Hnl1 : looks (take 42 its) 0 lm l1) by by eapply looks_frame.
  assert (Hnr1 : looks (drop 42 its) 0 (leftmost_child (set_level 0 (new q))) r1).
  { split_and!; [done| |]; [rewrite (same_frame_level _ _ Hf2)|by rewrite (same_frame_leftmost _ _ Hf2)].
    apply (level_set_level []); [apply rep_new|lia]. }
  assert (HWl : Forall (λ it, within lo (Some sep) it.1) (take 42 its)).
  { rewrite Forall_forall in *. intros it Hit. split; [by apply Hw1|by apply Hlt]. }
  assert (HWr : Forall (λ it, within (Some sep) hi it.1) (drop 42 its)).
  { rewrite Forall_forall in *. intros it Hit. split; [by apply Hge|by apply Hw2]. }
  exists sep, l1, r1. destruct (key_cmp k sep) eqn:Ecmp.
  2:{ destruct (srep_insert (take 42 its) l1 k v Hl1 Hok) as (p & l2 & Hi & Hs2 & Hf & Hp & _).
      { apply Hin; [apply subseteq_take|by apply sorted_take]. }
      { unfold zlen, MAX_LEAF_ITEMS. rewrite length_take. lia. }
      rewrite length_take in Hp. exists l2, r1, (take p (take 42 its) ++ (k, v) :: drop p (take 42 its)), (drop 42 its), (leftmost_child (set_level 0 (new q))), p.
      split_and!; try done.
      - apply (ins_take p (k, v) 42 its). lia.
      - by eapply looks_frame.
      - destruct Hf as [-> _]. apply Hf1.
      - apply Hf2.
      - rewrite <-(take_drop p (take 42 its)) in HWl. rewrite Forall_app in *. rewrite Forall_cons. split_and!; [apply HWl| |apply HWl].
        split; [apply Hkw|exact Ecmp]. }
  all: destruct (srep_insert (drop 42 its) r1 k v Hr1 Hok) as (p & r2 & Hi & Hs2 & Hf & Hp & _);
    [apply Hin; [apply subseteq_drop|by apply sorted_drop]|unfold zlen, MAX_LEAF_ITEMS; rewrite length_drop; lia|];
    rewrite length_drop in Hp;
    exists l1, r2, (take 42 its), (take p (drop 42 its) ++ (k, v) :: drop p (drop 42 its)), (leftmost_child (set_level 0 (new q))), (42 + p)%nat;
    split_and!; try done;
    [etransitivity; [|apply (ins_drop (42 + p) (k, v) 42 its); lia]; by replace (42 + p - 42)%nat with p by lia
    |by eapply looks_frame|apply Hf1|destruct Hf as [-> _]; apply Hf2
    |rewrite <-(take_drop p (drop 42 its)) in HWr; rewrite Forall_app in *; rewrite Forall_cons; split_and!; [apply HWr| |apply HWr];
     split; [|apply Hkw]; cbn; unfold key_lt; by rewrite Ecmp].
Qed.

Lemma split_and_insert_run w U fs n its lm p k v lo hi :
  hole w U 0 p fs → looks its 0 lm n → block_addr n = p → zlen its = MAX_LEAF_ITEMS → item_ok (k, v) → items_map its !! k = None →
  within lo hi k → Forall (λ it, within lo hi it.1) its → wf_ctx 0 lo hi fs → Forall (λ f, zlen (f_keys f) ≤ MAX_LEAF_ITEMS) fs →
  (length fs < 8)%nat → 5 + 20 * zlen fs ≤ space (vol w) →
  ∃ w' h' t' pos, split_and_insert n k v w = (Ok tt, w') ∧ holds w' U h' t' ∧
    items t' = ctx_l fs ++ (take pos its ++ (k, v) :: drop pos its) ++ ctx_r fs ∧ grows (top_fan fs) (length fs) h' t' ∧ moved (5 + 20 * zlen fs) U w w' ∧
    logged w'.
Proof.
  intros Hho Hn Ha Hfull Hok Hk Hkw Hw Hctx Hmax Hlen Hsp. pose proof (zlen_nonneg fs) as Hz.
  destruct (hole_alloc w _ _ _ _ Hho) as (q & w1 & H1 & Hho1 & HqU & Hqa & Hm1); [lia|].
  destruct (split_leaf its n lm q k v lo hi Hn Hfull Hok Hk Hkw Hw) as
    (sep & l1 & r1 & l2 & r2 & il & ir & lm2 & pos & Hsp' & Hins & Hcat & Hl & Hr & Ha1 & Ha2 & Hwl & Hwr & Hslo & Hshi & Hsok).
  apply (looks_generation _ _ _ _ (tx_gen (vol w1))) in Hl, Hr. rewrite Ha in Ha1.
  set (n1 := set_generation (tx_gen (vol w1)) l2) in *. set (n2 := set_generation (tx_gen (vol w1)) r2) in *.
  destruct (hole_log w1 _ _ _ _ p (data n1) Hho1) as (w2 & H2 & Hho2 & Hm2); [by apply (rep_len _ n1 (proj1 (proj1 Hl)))|].
  destruct (hole_log w2 _ _ _ _ q (data n2) Hho2) as (w3 & H3 & Hho3 & Hm3); [by apply (rep_len _ n2 (proj1 (proj1 Hr)))|].
  destruct (hole_write_hole w3 _ _ p _ _ _ _ n1 Hho3 Ha1 Hl) as (w4 & H4 & Hho4 & Hm4 & n3 & Hrd3 & Hn3).
  destruct (hole_write w4 _ _ _ _ _ _ _ n2 q Hho4 Ha2 ltac:(clear; set_solver) Hr) as (w5 & H5 & Hho5 & Hm5 & n4 & Hrd4 & Hn4).
  assert (Hmm : moved (1 + 1 + 1 + 0 + 0) U w w5).
  { eapply moved_trans; [eapply moved_trans; [eapply moved_trans; [eapply moved_trans|]|]|];
      [exact Hm1|eapply moved_weaken; [exact Hm2|lia|]|eapply moved_weaken; [exact Hm3|lia|]|eapply moved_weaken; [exact Hm4|lia|]
      |eapply moved_weaken; [exact Hm5|lia|]]; revert HqU; clear; set_solver. }
  pose proof (ho_dis _ _ _ _ _ Hho4) as Hd4. rewrite list_to_set_cons in Hd4.
  assert (Hpq : p ≠ q ∧ p ∉ U) by (revert Hd4; clear; set_solver).
  assert (Hpe : pending w5 U 0 (TLeaf p il) (TLeaf q ir) sep fs lo hi).
  { split; [| |done].
    - cbn. replace (U ∪ ({[p]} ∪ ∅ ∪ ({[q]} ∪ ∅)) ∖ {[p]}) with (U ∪ {[q]}); [done|]. revert Hpq. clear. intros [? ?]. apply set_eq. set_solver.
    - split; try done; cbn.
      + revert HqU Hpq. clear. set_solver.
      + apply NoDup_cons. split; [|apply NoDup_singleton]. rewrite list_elem_of_singleton. apply Hpq.
      + exists n3. split; [|split; apply Hn3].
        pose proof (ho_ready _ _ _ _ _ Hho4) as Hr4. destruct (write_node_run w4 _ _ _ _ n2 Hr4 ltac:(change (block_addr n2) with (block_addr r2); rewrite Ha2; clear; set_solver) Hr) as (w5' & H5' & _ & Hm5' & _).
        assert (w5' = w5) as -> by congruence. eapply read_moved; [exact Hr4|exact Hm5'| |clear; set_solver|exact Hrd3].
        change (block_addr n2) with (block_addr r2). rewrite Ha2, list_to_set_cons. revert Hpq. clear. set_solver.
      + exists n4. split; [done|split; apply Hn4].
      + split; [apply Hl|done].
      + split; [apply Hr|done]. }
  pose proof (mv_space _ _ _ _ Hmm) as Hsp5.
  destruct (insert_separator_run 10 w5 U 0 (TLeaf p il) (TLeaf q ir) sep fs lo hi Hpe Hmax) as (w' & h' & t' & H6 & Hh & Hit & Hhle & Hm6); [done|lia|done|lia|lia|].
  rewrite Nat.add_0_r in Hhle. exists w', h', t', pos. split_and!; [|done| |done| |].
  - unfold split_and_insert. m_run (by apply ok_some_run). m_run reflexivity. m_run (unfold m_lift; rewrite Hsp'; reflexivity). m_run reflexivity.
    erewrite (M_bind_Ok _ _ _ (l2, r2) w1) by (destruct (key_cmp k sep); destruct Hins as [-> ->]; reflexivity). cbv beta iota.
    fold n1 n2. change (block_addr n1) with (block_addr l2) in *. change (block_addr n2) with (block_addr r2) in *. rewrite Ha1, Ha2.
    m_run (exact H2). m_run (exact H3). m_run (exact H4). m_run (exact H5). cbn [negb]. exact H6.
  - rewrite Hit. cbn [items]. by rewrite <-Hcat, <-!app_assoc.
  - replace (5 + 20 * zlen fs) with (1 + 1 + 1 + 0 + 0 + (2 + 20 * zlen fs)) by lia. by eapply moved_trans.
  - apply log_logged in H3. eapply logged_moved; [|exact Hm6]. eapply logged_moved; [|exact Hm5]. by eapply logged_moved; [|exact Hm4].
Qed.

Lemma hole_keys_max w U h c fs : hole w U h c fs → Forall (λ f, zlen (f_keys f) ≤ MAX_LEAF_ITEMS) fs.
Proof.
  intros Hho. pose proof (ho_path _ _ _ _ _ Hho) as Hp. clear Hho. revert h c Hp. induction fs as [|f fs IH]; intros h c; [constructor|].
  intros [(n & _ & Hk & _) Hp]. constructor; [|by eapply IH]. rewrite <-(zlen_seps _ _ n Hk). apply Hk.
Qed.

(** ** Insertion *)

Lemma leaf_insert_run w U h t k v :
  holds w U h t → (h < 8)%nat → item_ok (k, v) → items_map (items t) !! k = None → 6 + 22 * Z.of_nat h ≤ space (vol w) →
  ∃ w' h' t', leaf_insert k v w = (Ok tt, w') ∧ holds w' U h' t' ∧ items_map (items t') = <[k := v]> (items_map (items t)) ∧
    grows (fan t) h h' t' ∧ moved (6 + 22 * Z.of_nat h) U w w' ∧ logged w'.
Proof.
  intros Hh Hlt Hok Hk Hsp. destruct (holds_focus w U h t k Hh) as (fs & a & its & n & lo & hi & -> & Hlen & Hho & Hrd & Hs & Hl & Hkw & Hwl & Hctx).
  assert (Hz : zlen fs = Z.of_nat h) by (unfold zlen; lia).
  destruct (cow_leaf_run w U fs a its n k lo hi Hho Hrd Hs Hl Hkw Hctx) as (p & w1 & fs' & n1 & H1 & Hn1 & Ha1 & Hho1 & Hsh & Hm1 & Hg1); [lia|lia|].
  pose proof (mv_space _ _ _ _ Hm1) as Hsp1. pose proof (shape_length _ _ Hsh) as Hsl. assert (Hz' : zlen fs' = Z.of_nat h) by (unfold zlen; lia).
  pose proof (shape_wf_ctx _ _ _ _ _ Hsh Hctx) as Hctx'. destruct Hwl as [Hso Hw].
  assert (Hkn : items_map its !! k = None).
  { destruct (items_map its !! k) as [v'|] eqn:E; [|done]. apply items_map_lookup in E; [|done].
    assert (Hin : (k, v') ∈ items (plug fs (TLeaf a its))) by (rewrite items_plug; cbn; clear -E; set_solver).
    apply items_map_lookup in Hin; [congruence|]. by eapply wf_sorted, Hh. }
  assert (Hres : ∃ w' h' t' pos, leaf_insert k v w = (Ok tt, w') ∧ holds w' U h' t' ∧
    items t' = ctx_l fs ++ (take pos its ++ (k, v) :: drop pos its) ++ ctx_r fs ∧ grows (top_fan fs') h h' t' ∧ moved (6 + 22 * Z.of_nat h) U w w' ∧ logged w').
  { rewrite <-(shape_ctx_l _ _ Hsh), <-(shape_ctx_r _ _ Hsh).
    destruct (decide (zlen its < MAX_LEAF_ITEMS)) as [Hroom|Hfull].
    - destruct (srep_insert its n1 k v (proj1 Hn1) Hok Hkn Hroom) as (pos & n2 & Hi & Hs2 & Hf & Hpl & Hb & Hb').
      pose proof (looks_frame _ _ _ _ _ _ Hn1 Hs2 Hf) as Hn2. assert (Ha2 : block_addr n2 = p) by (destruct Hf as [-> _]; done).
      assert (Hwf' : wf 0 lo hi (TLeaf p (take pos its ++ (k, v) :: drop pos its))).
      { split; [apply Hs2|]. rewrite <-(take_drop pos its) in Hw. rewrite Forall_app in *. rewrite Forall_cons. tauto. }
      destruct (leaf_store_run w1 U fs' n2 p _ _ lo hi Hho1 Hn2 Ha2 Hwf' Hctx') as (w2 & H2 & Hh2 & Hm2 & Hlg).
      exists w2, (length fs'), (plug fs' (TLeaf p (take pos its ++ (k, v) :: drop pos its))), pos. split_and!; [|done|by rewrite items_plug|left; split; [lia|]; rewrite fan_plug; unfold top_fan; cbn [fan]; destruct (last fs'); lia| |done].
      + unfold leaf_insert. m_run (by apply ok_some_run). rewrite Hi, Ha2. by rewrite H2.
      + eapply moved_weaken; [eapply moved_trans; [exact Hm1|exact Hm2]|lia|done].
    - assert (Hf84 : zlen its = MAX_LEAF_ITEMS) by (pose proof (nr_max _ _ (proj1 Hs)); lia).
      destruct (split_and_insert_run w1 U fs' n1 its _ p k v lo hi Hho1 Hn1 Ha1 Hf84 Hok Hkn Hkw Hw Hctx' (hole_keys_max _ _ _ _ _ Hho1))
        as (w2 & h' & t' & pos & H2 & Hh2 & Hit & Hhle & Hm2 & Hlg); [lia|lia|].
      replace (length fs') with h in Hhle by lia. exists w2, h', t', pos. split_and!; [|done|done|done| |done].
      + unfold leaf_insert. m_run (by apply ok_some_run). rewrite (rep_insert_full its n1 k v (proj1 (proj1 Hn1)) Hf84).
        rewrite (rep_count its n1 (proj1 (proj1 Hn1))), Hf84. exact H2.
      + eapply moved_weaken; [eapply moved_trans; [exact Hm1|exact Hm2]|lia|done]. }
  destruct Hres as (w' & h' & t' & pos & H2 & Hh2 & Hit & Hhle & Hm2 & Hlg). rewrite (shape_top_fan _ _ Hsh) in Hhle. exists w', h', t'. split_and!; try done; [|rewrite fan_plug; exact Hhle].
  pose proof (wf_sorted _ _ _ _ (hs_wf _ _ _ _ Hh2)) as Hso'. rewrite items_plug. cbn [items]. rewrite Hit in *. rewrite <-app_assoc in *. cbn in *.
  rewrite app_assoc in *. rewrite (items_map_add _ _ k v Hso'). f_equal. f_equal. rewrite <-app_assoc. f_equal. by rewrite app_assoc, take_drop.
Qed.

End Split.
