(* ===== verification/NfsMap.v ===== *)
(** A mounted NeuralFS volume as a map from keys to values: what [format] and [mount]
    establish and how [leaf_insert] changes it. *)

From S2P Require Import Prelude Checksum Flash NfsNode NfsRep NfsFormat NfsVolume NfsFiles NfsDisk NfsSuper NfsJournal NfsAlloc NfsTree NfsCow NfsInsert NfsSplit.
From Stdlib Require Import Sorting.Sorted.
Import Btree Super Volume Files.

Section Mounted.
Context {D : Type} `{File.DiskLaws D valid sec}.
Implicit Types (w : World D) (U : gset Z).

Local Abbreviation start w := (start_lba (vol w)).
Local Abbreviation root w := (inode_tree_root (sb (vol w))).
Local Abbreviation blk := (blk (sec := sec)).
Local Abbreviation moved := (moved (sec := sec)).

(** The volume's tree, of height [h], holds the map [m]; [U] are the blocks in use
    outside the tree: the contents of files. *)
Definition mounted w U (h : nat) (m : gmap Key bytes) : Prop :=
  layout (valid := valid) (vol w) ∧ ∃ t, holds (valid := valid) w U h t ∧ items_map (items t) = m.

Lemma mounted_lookup w U h m k : mounted w U h m → (h < 8)%nat → tree_get w k = m !! k.
Proof.
  intros (_ & t & [_ _ _ Hst Hwf Hrt] & <-) Hh. unfold tree_get. rewrite Hrt. by eapply lookup_stored.
Qed.

Lemma mounted_scan w U h m :
  mounted w U h m → (h < 9)%nat →
  ∃ its, btree_scan_leaves (dev w) (start w) (root w) = (true, its) ∧ sorted its ∧ items_map its = m.
Proof.
  intros (_ & t & [_ _ _ Hst Hwf Hrt] & <-) Hh. exists (items t). rewrite Hrt. split_and!; [by eapply scan_stored|by eapply wf_sorted|done].
Qed.

Lemma layout_moved n X w w' own :
  layout (valid := valid) (vol w) → moved n X w w' → alloc_ok (vol w') own → root w' ∈ own → layout (valid := valid) (vol w').
Proof.
  intros [Hrg Hsb Hj Hf Htx Hst] Hm [Afr Atot Afb And Amax Ast Aown] Hroot. pose proof (Aown _ Hroot) as Hra.
  destruct (mv_sb _ _ _ _ Hm) as (r & fb & nc & Es). rewrite Es in *. cbn in *. split; rewrite ?Es; cbn.
  - rewrite (mv_start _ _ _ _ Hm). done.
  - destruct Hsb as (H1 & H2 & H3 & H4). unfold sb_ok. rewrite !Forall_cons in *. cbn in *. destruct_and! H4. split_and!; done || lia.
  - done.
  - lia.
  - by rewrite (mv_tx _ _ _ _ Hm).
  - split; [|done]. apply Forall_forall. intros b Hb. destruct (Ast b Hb). lia.
Qed.

(** [mounted], with at most [c] keys in the root. *)
Definition mounted_fan w U (h : nat) (c : Z) (m : gmap Key bytes) : Prop :=
  layout (valid := valid) (vol w) ∧ ∃ t, holds (valid := valid) w U h t ∧ items_map (items t) = m ∧ fan t ≤ c.

Lemma mounted_fan_mounted w U h c m : mounted_fan w U h c m → mounted w U h m.
Proof. intros (Hlay & t & Hh & Hm & _). split; [exact Hlay|]. exists t. exact (conj Hh Hm). Qed.

Lemma mounted_has_fan w U h m : mounted w U h m → ∃ c, mounted_fan w U h c m.
Proof. intros (Hlay & t & Hh & Hm). exists (fan t). split; [exact Hlay|]. exists t. exact (conj Hh (conj Hm (Z.le_refl _))). Qed.

Lemma mounted_fan_insert w U h c m k v :
  mounted_fan w U h c m → (h < 8)%nat → item_ok (k, v) → m !! k = None → 6 + 22 * Z.of_nat h ≤ space (vol w) →
  ∃ w' h' c', leaf_insert k v w = (Ok tt, w') ∧ mounted_fan w' U h' c' (<[k := v]> m) ∧
    (h' = h ∧ c' = c + 1 ∨ h' = S h ∧ c' = 1 ∧ MAX_LEAF_ITEMS ≤ c) ∧ moved (6 + 22 * Z.of_nat h) U w w' ∧ logged w'.
Proof.
  intros (Hlay & t & Hh & <- & Hc) Hlt Hok Hk Hsp. destruct (leaf_insert_run w U h t k v Hh Hlt Hok Hk Hsp) as (w' & h' & t' & H1 & Hh' & Hit & Hg & Hm & Hlg).
  assert (Hl' : layout (valid := valid) (vol w')).
  { destruct Hh' as [[_ Hal] _ _ _ _ Hrt]. eapply layout_moved; [done..|]. rewrite Hrt. apply elem_of_union_r, elem_of_list_to_set, root_in_addrs. }
  destruct Hg as [[-> Hf]|(-> & Hf & Hfull)].
  - exists w', h, (c + 1). split_and!; try done; [|by left]. split; [done|]. exists t'. split_and!; [done..|lia].
  - exists w', (S h), 1. split_and!; try done; [|right; split_and!; [done..|lia]]. split; [done|]. exists t'. split_and!; [done..|lia].
Qed.

Lemma mounted_insert w U h m k v :
  mounted w U h m → (h < 8)%nat → item_ok (k, v) → m !! k = None → 6 + 22 * Z.of_nat h ≤ space (vol w) →
  ∃ w' h', leaf_insert k v w = (Ok tt, w') ∧ mounted w' U h' (<[k := v]> m) ∧ (h' ≤ S h)%nat ∧
    moved (6 + 22 * Z.of_nat h) U w w' ∧ logged w'.
Proof.
  intros [c Hm]%mounted_has_fan Hlt Hok Hk Hsp. destruct (mounted_fan_insert w U h c m k v Hm Hlt Hok Hk Hsp) as (w' & h' & c' & H1 & Hm' & Hg & Hmv & Hlg).
  exists w', h'. split_and!; try done; [by eapply mounted_fan_mounted|lia].
Qed.

(** * Formatting *)

Lemma zero_blocks_run s total bs : region (valid := valid) s total → Forall (λ b, 0 ≤ b < total) bs → ∀ d : D,
  ∃ d', zero_blocks s bs d = (true, d') ∧ (∀ b, b ∈ bs → blk d' s b = replicate 4096 Byte.x00) ∧ (∀ b, b ∉ bs → blk d' s b = blk d s b).
Proof.
  intros Hrg. induction 1 as [|b bs Hb _ IH]; intros d; cbn [zero_blocks].
  - exists d. split_and!; [reflexivity|intros b Hb%elem_of_nil; destruct Hb|reflexivity].
  - destruct (write_static s total Hrg d b (replicate 4096 Byte.x00) Hb (zlen_replicate _ _)) as (d1 & Hw & Hd1). rewrite Hw.
    destruct (IH d1) as (d2 & Hz & Hin & Hout). exists d2. split_and!; [exact Hz| |].
    + intros b' Hb'. destruct (decide (b' ∈ bs)) as [Hi|Hi]; [exact (Hin _ Hi)|]. rewrite (Hout _ Hi). apply elem_of_cons in Hb' as [->|Hi']; [|destruct (Hi Hi')]. apply Hd1.
    + intros b' [Hne Hb']%not_elem_of_cons. rewrite (Hout _ Hb'). exact (wrote_other s _ _ _ _ _ Hd1 Hne).
Qed.

Lemma sec_of_blk s total (d : D) b : region (valid := valid) s total → 0 ≤ b < total → sec d (s + 8 * b) = slice 0 512 (blk d s b).
Proof.
  intros Hrg Hb. unfold NfsDisk.blk. rewrite run_bytes_S. assert (Hz : zlen (sec d (s + 8 * b)) = 512).
  { apply File.sec_len. apply (rg_valid _ _ Hrg). lia. }
  rewrite slice_app_exact; done.
Qed.

Definition format_journal (total : Z) : Z := Z.min (Z.max (total / 100) 8) 256.

(** The root directory's inode. *)
Definition root_item : Key * bytes := (Inode.make_key 1, from_inode (Z.lor Inode.S_IFDIR 0x1ED) 0 0 0).

Lemma root_item_ok : item_ok root_item.
Proof. by vm_compute. Qed.

Lemma format_sb_ok total jb : 64 ≤ total < 2 ^ 61 → 8 ≤ jb ≤ 256 → jb + 12 < total → sb_ok (format_sb total jb (3 + jb) (jb + 4)).
Proof. intros Ht Hjb Hl. unfold sb_ok, format_sb. rewrite !Forall_cons, Forall_nil. cbn. split_and!; done || lia. Qed.

Lemma fresh_leaf a : 0 < a < 2 ^ 64 →
  ∃ n, insert root_item.1 root_item.2 (set_generation 1 (Btree.new a)) = (true, n) ∧ looks [root_item] 0 (leftmost_child n) n ∧ block_addr n = a.
Proof.
  intros Ha. assert (Hn : looks [] 0 (leftmost_child (Btree.new a)) (Btree.new a)).
  { split_and!; [split; [apply rep_new|constructor]|apply level_new|done]. }
  apply (looks_generation _ _ _ _ 1) in Hn. set (n0 := set_generation 1 _) in *.
  destruct (srep_insert [] n0 root_item.1 root_item.2 (proj1 Hn)) as (p & n & Hi & Hs & Hf & Hp & _); [exact root_item_ok|done|done|].
  exists n. split; [done|]. cbn in Hp. replace p with 0%nat in Hs by lia. cbn [take drop app] in Hs. rewrite <-surjective_pairing in Hs.
  split; [|by destruct Hf as [-> _]]. split_and!; [done| |done]. rewrite (same_frame_level _ _ Hf). apply Hn.
Qed.

Lemma format_run s total_lba (d : D) :
  let total := total_lba / 8 in let jb := format_journal total in
  region (valid := valid) s total → 64 ≤ total →
  ∃ d' n, format s total_lba d = (true, d') ∧
    Super.read d' s = Some (format_sb total jb (3 + jb) (jb + 4)) ∧
    sec d' (s + 8 * 3) = replicate 512 Byte.x00 ∧
    blk d' s (3 + jb) = splice 0 FREE_LIST_MAGIC (replicate 4096 Byte.x00) ∧
    Btree.read d' s (jb + 4) = Some n ∧ looks [root_item] 0 (leftmost_child n) n.
Proof.
  intros total jb Hrg Ht. assert (Ht61 : total < 2 ^ 61) by (destruct Hrg as [? He _]; unfold U64_MAX in He; lia).
  assert (Hjb : 8 ≤ jb ≤ 256) by (unfold jb, format_journal; lia).
  assert (Hl : jb + 12 < total) by (unfold jb, format_journal; pose proof (Z.mul_div_le total 100 ltac:(lia)); lia).
  set (sb := format_sb total jb (3 + jb) (jb + 4)).
  destruct (super_write s total Hrg d sb) as (d1 & Hw1 & Hb1 & Hb2 & Hd1); [lia|].
  destruct (zero_blocks_run s total (seqZ 3 jb) Hrg) with (d := d1) as (d2 & Hw2 & Hz & Hd2).
  { apply Forall_forall. intros b Hb%elem_of_seqZ. lia. }
  destruct (write_static s total Hrg d2 (3 + jb) (splice 0 FREE_LIST_MAGIC (replicate 4096 Byte.x00))) as (d3 & Hw3 & Hd3); [lia|done|].
  destruct (fresh_leaf (jb + 4)) as (n & Hi & Hn & Ha); [lia|].
  destruct (node_write s total Hrg d3 n) as (d4 & Hw4 & Hd4); [rewrite Ha; lia|by apply (rep_len [root_item]), Hn|]. rewrite Ha in Hd4.
  assert (Hkeep : ∀ b, ¬ 3 ≤ b ≤ jb + 4 → blk d4 s b = blk d1 s b).
  { intros b Hb. rewrite (wrote_other _ _ _ _ _ b Hd4), (wrote_other _ _ _ _ _ b Hd3) by lia. apply Hd2. rewrite elem_of_seqZ. lia. }
  exists d4, (stamp n). split_and!.
  - unfold format. fold total. rewrite (proj2 (Z.ltb_ge _ _)) by lia. fold (format_journal total) jb.
    replace (3 + jb + 1) with (jb + 4) by lia. rewrite (proj2 (Z.leb_gt _ _)) by lia. fold sb. rewrite Hw1.
    assert (Hseq : (λ i, u64_add 3 i) <$> seqZ 0 jb = seqZ 3 jb).
    { rewrite <-(fmap_add_seqZ 3 0). apply list_fmap_ext. intros j x Hx. apply lookup_seqZ in Hx as [-> Hx]. by rewrite u64_add_small by lia. }
    rewrite Hseq, Hw2, Hw3. cbn [root_item fst snd] in Hi. rewrite Hi. by rewrite Hw4.
  - eapply (super_read_ok s total Hrg d4 sb); [by apply format_sb_ok|lia|rewrite Hkeep by lia; done|done|]. right.
    rewrite Hkeep, Hb1 by lia. apply check_encoded.
  - rewrite (sec_of_blk s total d4 3 Hrg), (wrote_other _ _ _ _ _ 3 Hd4), (wrote_other _ _ _ _ _ 3 Hd3) by lia.
    by rewrite Hz by (apply elem_of_seqZ; lia).
  - rewrite (wrote_other _ _ _ _ _ _ Hd4) by lia. apply Hd3.
  - rewrite (node_read s total Hrg) by lia. destruct Hd4 as [-> _]. rewrite stamp_verifies by (apply (rep_len [root_item]), Hn).
    rewrite <-Ha at 1. done.
  - split_and!; [apply (looks_stamp _ _ _ _ Hn)..|done].
Qed.

Lemma parse_fresh_page total : parse_free_page total (splice 0 FREE_LIST_MAGIC (replicate 4096 Byte.x00)) = [].
Proof. reflexivity. Qed.

Lemma mount_formatted s total_lba (d : D) :
  let total := total_lba / 8 in let jb := format_journal total in
  region (valid := valid) s total → 64 ≤ total →
  ∃ d', format s total_lba d = (true, d') ∧
    let v := mkVol (format_sb total jb (3 + jb) (jb + 4)) s 0 Journal.new false [] in
    mount s d' = (Some v, d') ∧ mounted (mkWorld v d') ∅ 0 {[ root_item.1 := root_item.2 ]}.
Proof.
  intros total jb Hrg Ht. assert (Ht61 : total < 2 ^ 61) by (destruct Hrg as [? He _]; unfold U64_MAX in He; lia).
  assert (Hjb : 8 ≤ jb ≤ 256) by (unfold jb, format_journal; lia).
  assert (Hl : jb + 12 < total) by (unfold jb, format_journal; pose proof (Z.mul_div_le total 100 ltac:(lia)); lia).
  destruct (format_run s total_lba d Hrg Ht) as (d' & n & Hf & Hsb & Hj & Hfree & Hrd & Hn). fold total jb in Hsb, Hfree, Hrd.
  exists d'. split; [exact Hf|]. set (v := mkVol _ s 0 Journal.new false []). pose proof (format_sb_ok total jb ltac:(lia) Hjb Hl) as Hok. split.
  - unfold mount. rewrite Hsb. cbn [magic format_sb]. rewrite bool_decide_eq_true_2 by done. cbn [negb].
    assert (Hrec : Journal.recover s (format_sb total jb (3 + jb) (jb + 4)) d' = (true, d')).
    { unfold Journal.recover. cbn [journal_start format_sb]. destruct Hrg as [Hs0 He Hv]. unfold U64_MAX in He.
      assert (Ejl : u64_add s (u64_mul 3 8) = s + 8 * 3) by (change (u64_mul 3 8) with 24; rewrite u64_add_small by lia; lia).
      rewrite Ejl, File.bd_read_sec by (apply Hv; lia). rewrite Hj. reflexivity. }
    rewrite Hrec. do 3 f_equal. unfold load_free_list. cbn [free_extent_root format_sb total_blocks].
    rewrite (proj2 (Z.eqb_neq _ _)) by lia. rewrite (read_wrapping s total Hrg) by lia. rewrite Hfree. apply parse_fresh_page.
  - split.
    + split; cbn; [done|done|unfold journal_inside; cbn; lia|lia|lia|]. split; [by apply Forall_nil_2|done].
    + exists (TLeaf (jb + 4) [root_item]). split; [|done]. split; cbn.
      * split; [done|]. split; cbn; try lia; try done.
        -- constructor.
        -- intros b Hb%elem_of_nil. destruct Hb.
        -- intros b Hb. assert (b = jb + 4) as -> by (revert Hb; clear; set_solver). lia.
      * clear. set_solver.
      * apply NoDup_singleton.
      * exists n. split_and!; [done|apply Hn..].
      * split; [by apply Hn|]. by repeat constructor.
      * done.
Qed.

End Mounted.

(** * What a volume promises *)

(** C10: Formatting a disk of at least 64 blocks succeeds, and mounting it gives an
    empty file system: a tree of one leaf whose only item is the root directory, no
    block in use outside the tree, and every metadata structure in range. *)
Theorem formatted_volume_mounts {D} `{File.DiskLaws D valid sec} s total_lba (d : D) :
  region (valid := valid) s (total_lba / 8) → 64 ≤ total_lba / 8 →
  ∃ d' v, format s total_lba d = (true, d') ∧ mount s d' = (Some v, d') ∧
    mounted (valid := valid) (mkWorld v d') ∅ 0 {[ root_item.1 := root_item.2 ]} ∧
    resolve_path (mkWorld v d') "/" = Some 1 ∧ list_dir (mkWorld v d') 1 = Ok [].
Proof.
  intros Hrg Ht. destruct (mount_formatted s total_lba d Hrg Ht) as (d' & Hf & Hm & Hmd). eexists d', _. split_and!; [exact Hf|exact Hm|exact Hmd|done|].
  unfold list_dir. destruct (mounted_scan _ _ _ _ Hmd) as (its & Hs & Hso & Hit); [lia|]. cbn [vol dev start_lba sb] in Hs. cbn [vol dev start_lba sb]. rewrite Hs. cbn [negb].
  assert (its = [root_item]) as ->; [|done]. destruct its as [|a [|b its]].
  - exfalso. assert (Hx : (∅ : gmap Key bytes) !! root_item.1 = Some root_item.2) by (rewrite <-(lookup_singleton_eq root_item.1 root_item.2), <-Hit; done).
    by rewrite lookup_empty in Hx.
  - unfold items_map in Hit. cbn in Hit. destruct a as [k v]. cbn in Hit. assert (Hk : <[k := v]> (∅ : gmap Key bytes) !! k = Some v) by apply lookup_insert_eq.
    rewrite Hit in Hk. apply lookup_singleton_Some in Hk as [<- <-]. done.
  - exfalso. pose proof (size_items_map _ Hso) as Hsz. rewrite Hit, map_size_singleton, !zlen_cons in Hsz. pose proof (zlen_nonneg its). lia.
Qed.

Definition demo_lba : Z := 1024.

Lemma demo_region : region (valid := λ _ : Z, True) 0 (demo_lba / 8).
Proof. by split. Qed.

Lemma formatted_volume_mounts_witness :
  ∃ (d' : gmap Z bytes) v, format 0 demo_lba ∅ = (true, d') ∧ mount 0 d' = (Some v, d') ∧ resolve_path (mkWorld v d') "/" = Some 1.
Proof.
  destruct (formatted_volume_mounts (sec := mem_sec) 0 demo_lba ∅ demo_region) as (d' & v & H1 & H2 & _ & H3 & _); [by vm_compute|].
  exists d', v. exact (conj H1 (conj H2 H3)).
Defined.

(** C2: Insertion into the tree is insertion into a map. On a mounted volume whose tree
    has at most seven levels, inserting a new key succeeds given enough free blocks,
    whether the leaf has room or it and any number of its ancestors have to be split.
    Every lookup then gives what the map with the new pair gives, the tree is again
    well formed and at most one level higher, and no block outside the tree, such as
    the contents of a file, has changed. *)
Theorem tree_insert_is_map_insert {D} `{File.DiskLaws D valid sec} (w : World D) U h m k v :
  mounted (valid := valid) w U h m → (h ≤ 6)%nat → item_ok (k, v) → m !! k = None → 6 + 22 * Z.of_nat h ≤ space (vol w) →
  ∃ w' h', leaf_insert k v w = (Ok tt, w') ∧ mounted (valid := valid) w' U h' (<[k := v]> m) ∧ (h' ≤ S h)%nat ∧
    (∀ k', tree_get w' k' = <[k := v]> m !! k') ∧
    ∀ b, b ∈ U → blk (sec := sec) (dev w') (start_lba (vol w)) b = blk (sec := sec) (dev w) (start_lba (vol w)) b.
Proof.
  intros Hm Hh Hok Hk Hsp. destruct (mounted_insert w U h m k v Hm) as (w' & h' & H1 & Hm' & Hle & Hmv & _); [lia|done..|].
  exists w', h'. split_and!; try done; [|apply Hmv]. intros k'. eapply mounted_lookup; [exact Hm'|lia].
Qed.

Lemma tree_insert_is_map_insert_witness :
  ∃ w w' : World (gmap Z bytes), leaf_insert (Inode.make_key 2) (from_inode 33188 0 0 0) w = (Ok tt, w') ∧
    tree_get w (Inode.make_key 2) = None ∧ tree_get w' (Inode.make_key 2) = Some (from_inode 33188 0 0 0) ∧ tree_get w' (Inode.make_key 1) = Some root_item.2.
Proof.
  destruct (mount_formatted (sec := mem_sec) 0 demo_lba ∅ demo_region) as (d' & _ & _ & Hm); [by vm_compute|].
  destruct (tree_insert_is_map_insert (sec := mem_sec) _ _ _ _ (Inode.make_key 2) (from_inode 33188 0 0 0) Hm) as (w' & h' & H1 & _ & _ & H3 & _);
    [lia|by vm_compute|by vm_compute|by vm_compute|].
  eexists _, w'. split_and!; [exact H1| | |].
  - rewrite (mounted_lookup _ _ _ _ _ Hm) by lia. by vm_compute.
  - rewrite H3. by vm_compute.
  - rewrite H3. by vm_compute.
Defined.
