(* ===== verification/NfsCreate.v ===== *)
(** Creating files and directories on a NeuralFS volume: a whole transaction, from the
    lookups to the commit and the next mount; and what goes wrong around it. *)

From S2P Require Import Prelude Checksum Flash NfsNode NfsRep NfsFormat NfsVolume NfsFiles NfsDisk NfsSuper NfsJournal NfsAlloc NfsTree NfsCow NfsInsert NfsSplit NfsMap.
Import Btree Super Volume Files.

(** * Keys *)

Lemma u64_lxor_shiftr x n : 0 ≤ x < 2 ^ 64 → 0 ≤ n → 0 ≤ Z.lxor x (Z.shiftr x n) < 2 ^ 64.
Proof.
  intros Hx Hn. assert (Hs : 0 ≤ Z.shiftr x n ≤ x).
  { rewrite Z.shiftr_div_pow2 by done. split; [apply Z.div_pos; lia|]. apply Z.div_le_upper_bound; [lia|].
    assert (1 ≤ 2 ^ n) by (apply (Z.pow_le_mono_r 2 0 n); lia). nia. }
  split; [apply Z.lxor_nonneg; lia|]. destruct (decide (Z.lxor x (Z.shiftr x n) = 0)) as [->|Hne]; [lia|].
  assert (0 ≤ Z.lxor x (Z.shiftr x n)) by (apply Z.lxor_nonneg; lia). apply Z.log2_lt_pow2; [lia|].
  eapply Z.le_lt_trans; [apply Z.log2_lxor; lia|]. apply Z.max_lub_lt.
  - destruct (decide (x = 0)) as [->|]; [done|]. apply Z.log2_lt_pow2; lia.
  - destruct (decide (Z.shiftr x n = 0)) as [->|]; [done|]. apply Z.log2_lt_pow2; lia.
Qed.

Lemma xxhash64_range data : 0 ≤ Dir.xxhash64 data < 2 ^ 64.
Proof. unfold Dir.xxhash64. apply u64_lxor_shiftr; [|lia]. unfold u64_mul. apply Z.mod_pos_bound. lia. Qed.

Lemma dir_item_ok parent name ino : 0 ≤ parent < 2 ^ 64 → item_ok (Dir.make_key parent name, from_dir ino name).
Proof. intros Hp. split; [split; [done|apply xxhash64_range]|apply zlen_from_dir]. Qed.

Lemma inode_item_ok ino m s d b : 0 ≤ ino < 2 ^ 64 → item_ok (Inode.make_key ino, from_inode m s d b).
Proof. intros Hi. split; [by split|apply zlen_from_inode]. Qed.

Section Create.
Context {D : Type} `{File.DiskLaws D valid sec}.
Implicit Types (w : World D) (U : gset Z).

Local Abbreviation mounted := (mounted (valid := valid)).
Local Abbreviation blk := (blk (sec := sec)).

(** * Changes that leave the tree alone *)

Lemma mounted_upd w w' U h m :
  mounted w U h m → layout (valid := valid) (vol w') → dev w' = dev w → start_lba (vol w') = start_lba (vol w) →
  free_stack (vol w') = free_stack (vol w) →
  (∃ ai lt, sb (vol w') = with_allocated_inodes ai (with_last_tx_id lt (sb (vol w)))) → mounted w' U h m.
Proof.
  intros (_ & t & [[Hrg Hal] Hd Hn Hst Hwf Hrt] & Hm) Hlay Hdev Hs Hf (ai & lt & Hsb). split; [done|]. exists t. split; [|done].
  split; rewrite ?Hdev, ?Hs, ?Hsb; try done. split; [by rewrite Hs, Hsb|]. destruct Hal. by split; rewrite ?Hf, ?Hsb.
Qed.

Lemma mounted_begin w U h m :
  mounted w U h m → ∃ w', begin_tx w = (Ok tt, w') ∧ mounted w' U h m ∧ dev w' = dev w ∧ sb (vol w') = sb (vol w) ∧
    start_lba (vol w') = start_lba (vol w) ∧ space (vol w') = space (vol w) ∧
    Journal.dirty_blocks (journal (vol w')) = [] ∧ Journal.tx_id (journal (vol w')) = tx_id (vol w').
Proof.
  intros Hm. eexists. split; [reflexivity|]. cbn. split_and!; try done. eapply mounted_upd; cbn; try done.
  - destruct (proj1 Hm) as [? ? ? ? Htx ?]. split; cbn; try done. unfold u64_add. apply Z.mod_pos_bound. lia.
  - exists (allocated_inodes (sb (vol w))), (last_tx_id (sb (vol w))). by destruct (sb (vol w)).
Qed.

(** Blocks of files and of the tree are not metadata. *)
Lemma not_metadata w own b s :
  alloc_ok (vol w) own → layout (valid := valid) (vol w) → b ∈ own → s = with_last_tx_id (tx_id (vol w)) (sb (vol w)) → ¬ metadata s b.
Proof.
  intros [_ _ _ _ _ _ Ho] [_ _ (H3 & Hb & Hi) Hf _ _] Hb' ->. specialize (Ho b Hb'). unfold metadata. cbn. lia.
Qed.

Lemma mounted_dev w d' U h m :
  mounted w U h m → (∀ b, ¬ metadata (with_last_tx_id (tx_id (vol w)) (sb (vol w))) b → blk d' (start_lba (vol w)) b = blk (dev w) (start_lba (vol w)) b) →
  mounted (mkWorld (vol w) d') U h m.
Proof.
  intros (Hlay & t & [[Hrg Hal] Hd Hn Hst Hwf Hrt] & Hmm) Hblk. split; [done|]. exists t. split; [|done]. split; try done. cbn.
  eapply stored_frame; [|exact Hst]. intros a Ha. assert (Ho : a ∈ U ∪ list_to_set (addrs t)) by (apply elem_of_union_r; by apply elem_of_list_to_set).
  pose proof (al_own _ _ Hal a Ho) as Hr. destruct (al_frontier _ _ Hal). destruct (al_total _ _ Hal).
  rewrite !(node_read _ _ Hrg) by lia. rewrite Hblk; [done|]. eapply (not_metadata w _ a); [exact Hal|done|exact Ho|done].
Qed.

(** A commit that fits keeps the map, here and on the next mount. *)
Lemma mounted_commit w U h m :
  mounted w U h m → committable (vol w) →
  ∃ w' v', commit_tx w = (Ok true, w') ∧ mounted w' U h m ∧ journal (vol w') = journal (vol w) ∧ start_lba (vol w') = start_lba (vol w) ∧
    journal_blocks (sb (vol w')) = journal_blocks (sb (vol w)) ∧
    mount (start_lba (vol w)) (dev w') = (Some v', dev w') ∧ mounted (mkWorld v' (dev w')) U h m ∧
    ∀ b, b ∈ U → blk (dev w') (start_lba (vol w)) b = blk (dev w) (start_lba (vol w)) b.
Proof.
  intros Hm Hcom. destruct (commit_remount (sec := sec) w (proj1 Hm) Hcom) as (d' & Hc & Hmt & Hblk).
  set (s := with_last_tx_id (tx_id (vol w)) (sb (vol w))) in *.
  pose proof (mounted_dev w d' U h m Hm Hblk) as Hm1.
  assert (Hlay : layout (valid := valid) (with_sb s (vol w))).
  { destruct (proj1 Hm) as [Hrg (Hmg & Hl & Hv & Hf) Hj Hfr Htx Hst]. split; cbn; try done. unfold sb_ok in *. rewrite !Forall_cons in *. cbn. tauto. }
  assert (Hupd : ∀ w2, dev w2 = d' → sb (vol w2) = s → start_lba (vol w2) = start_lba (vol w) → free_stack (vol w2) = free_stack (vol w) →
    layout (valid := valid) (vol w2) → mounted w2 U h m).
  { intros w2 H1 H2 H3 H4 H5. eapply (mounted_upd _ w2); [exact Hm1|done..|]. exists (allocated_inodes (sb (vol w))), (tx_id (vol w)).
    rewrite H2. unfold s. cbn [vol]. by destruct (sb (vol w)). }
  eexists _, _. split_and!; [exact Hc| |done|done|done|exact Hmt| |].
  - by apply Hupd.
  - apply Hupd; try done. destruct Hlay as [H1 H2 H3 H4 H5 H6]. split; cbn in *; try done. 
  - intros b Hb. apply Hblk. destruct Hm as (Hlay' & t & [[_ Hal] _ _ _ _ _] & _). eapply (not_metadata w _ b); [exact Hal|done| |done]. by apply elem_of_union_l.
Qed.

(** * The transaction *)

Definition log_size w : Z := zlen (Journal.dirty_blocks (journal (vol w))).

(** What fits the journal: its header sector and its blocks. *)
Definition log_fits w : Prop := log_size w ≤ 61 ∧ log_size w < journal_blocks (sb (vol w)).

Lemma mounted_inode_count w w' U h m ino :
  mounted w U h m → 0 ≤ ino < 2 ^ 64 → w' = set_vol (with_sb (with_allocated_inodes ino (sb (vol w))) (vol w)) w → mounted w' U h m.
Proof.
  intros Hm Hi ->. eapply mounted_upd; [exact Hm|..]; try done; cbn.
  - destruct (proj1 Hm) as [Hrg (Hmg & Hl & Hv & Hf) Hj Hfr Htx Hst]. split; cbn; try done. unfold sb_ok in *. rewrite !Forall_cons in *. cbn. tauto.
  - exists ino, (last_tx_id (sb (vol w))). by destruct (sb (vol w)).
Qed.

Lemma create_node_run w U h m mode parent name :
  let ino := allocated_inodes (sb (vol w)) + 1 in
  let m' := <[Dir.make_key parent name := from_dir ino name]> (<[Inode.make_key ino := from_inode mode 0 0 0]> m) in
  mounted w U h m → (h ≤ 5)%nat → ino < 2 ^ 64 → 0 ≤ parent < 2 ^ 64 →
  m !! Inode.make_key ino = None → m !! Dir.make_key parent name = None → 34 + 44 * Z.of_nat h ≤ space (vol w) →
  ∃ r w' h', create_node mode parent name w = (r, w') ∧ 1 ≤ log_size w' ≤ 34 + 44 * Z.of_nat h ∧ (h' ≤ h + 2)%nat ∧
    start_lba (vol w') = start_lba (vol w) ∧ mounted w' U h' m' ∧
    (log_fits w' → r = Ok ino ∧ ∃ v', mount (start_lba (vol w)) (dev w') = (Some v', dev w') ∧ mounted (mkWorld v' (dev w')) U h' m') ∧
    (¬ log_fits w' → r = Err "commit").
Proof.
  intros ino m' Hm Hh Hino Hpar Hk1 Hk2 Hsp. assert (Hai : 0 ≤ allocated_inodes (sb (vol w)) < 2 ^ 64).
  { destruct (proj1 Hm) as [_ (_ & _ & _ & Hf) _ _ _ _]. rewrite !Forall_cons in Hf. tauto. }
  destruct (mounted_begin w U h m Hm) as (w1 & H1 & Hm1 & Hd1 & Hs1 & Hst1 & Hsp1 & Hj1 & Hx1).
  destruct (mounted_insert w1 U h m (Inode.make_key ino) (from_inode mode 0 0 0) Hm1) as (w2 & h2 & H2 & Hm2 & Hh2 & Hv2 & Hg2);
    [lia|apply inode_item_ok; lia|done|lia|].
  pose proof (mv_space _ _ _ _ Hv2) as Hsp2.
  destruct (mounted_insert w2 U h2 _ (Dir.make_key parent name) (from_dir ino name) Hm2) as (w3 & h3 & H3 & Hm3 & Hh3 & Hv3 & Hg3);
    [lia|by apply dir_item_ok|by rewrite lookup_insert_ne|lia|].
  set (w4 := set_vol (with_sb (with_allocated_inodes ino (sb (vol w3))) (vol w3)) w3).
  pose proof (mounted_inode_count w3 w4 U h3 m' ino Hm3 ltac:(lia) eq_refl) as Hm4.
  assert (Hlog : 1 ≤ log_size w4 ≤ 34 + 44 * Z.of_nat h ∧ Forall (λ b, zlen b.2 = 4096) (Journal.dirty_blocks (journal (vol w4)))).
  { unfold log_size. change (journal (vol w4)) with (journal (vol w3)). unfold logged in Hg3.
    destruct (mv_logged _ _ _ _ Hv2) as (l2 & El2 & Hl2 & Hf2). destruct (mv_logged _ _ _ _ Hv3) as (l3 & El3 & Hl3 & Hf3).
    rewrite El3, El2, Hj1 in *. cbn [app] in *. rewrite zlen_app. split; [|by apply Forall_app]. split; [|lia].
    destruct (l2 ++ l3) eqn:E; [done|]. rewrite <-zlen_app, E, zlen_cons. pose proof (zlen_nonneg l). lia. }
  destruct Hlog as [Hn Hall].
  assert (Htx : Journal.tx_id (journal (vol w4)) = tx_id (vol w4)).
  { cbn. rewrite (mv_jtx _ _ _ _ Hv3), (mv_jtx _ _ _ _ Hv2), Hx1, (mv_tx _ _ _ _ Hv3), (mv_tx _ _ _ _ Hv2). done. }
  assert (Hst4 : start_lba (vol w4) = start_lba (vol w)) by (cbn; rewrite (mv_start _ _ _ _ Hv3), (mv_start _ _ _ _ Hv2); done).
  assert (Hrun : create_node mode parent name w = (ok ← commit_tx; if negb ok then m_err "commit" else mret ino) w4).
  { unfold create_node. m_run (exact H1). m_run reflexivity. rewrite Hs1, u64_add_small by lia. fold ino. m_run (exact H2). m_run (exact H3). m_run reflexivity. done. }
  rewrite Hrun. destruct (decide (log_size w4 ≤ 61 ∧ log_size w4 < journal_blocks (sb (vol w4)))) as [[Hfit Hroom]|Hbig].
  - destruct (mounted_commit w4 U h3 m' Hm4) as (w5 & v5 & H5 & Hm5 & Hj5 & Hst5 & Hjb5 & Hmt5 & Hmm5 & _).
    { split_and!; [|exact Hroom|exact Htx]. split_and!; [exact (proj1 Hn)|exact Hfit|rewrite Htx; apply (proj1 Hm4)..|done]. }
    exists (Ok ino), w5, h3. assert (Hls : log_size w5 = log_size w4) by (unfold log_size; by rewrite Hj5).
    split_and!; [by m_run (exact H5)|lia|lia|lia|congruence|done| |].
    + intros _. split; [done|]. exists v5. rewrite <-Hst4. done.
    + intros Hnf. destruct Hnf. unfold log_fits. by rewrite Hls, Hjb5.
  - destruct (commit_refused w4 (proj1 Hm4)) as (d5 & H5 & Hd5); [exact (proj1 Hn)|unfold log_size in *; lia|].
    exists (Err "commit"), (mkWorld (vol w4) d5), h3. split_and!; [by m_run (exact H5)|exact (proj1 Hn)|exact (proj2 Hn)|lia|done| |by intros ?|done].
    apply mounted_dev; [done|]. intros b Hb. apply Hd5. intros ->. apply Hb. by right; right.
Qed.

Lemma dir_child ino name : 0 ≤ ino < 2 ^ 64 → (as_dir (from_dir ino name)).1 = ino.
Proof.
  intros Hi. unfold as_dir, from_dir. cbn [fst]. pose proof (zlen_nonneg (as_bytes name)).
  rewrite (put_fields_get 0 _ _ 0 (to_le_bytes 8 ino)); [by apply from_to_le_bytes|lia| |apply list_elem_of_here|by rewrite zlen_to_le_bytes].
  cbn [fields_in]. rewrite !zlen_to_le_bytes, zlen_slice, zlen_zero_value by lia. lia.
Qed.

Lemma found_entry w U h m parent name ino :
  mounted w U h m → (h < 8)%nat → m !! Dir.make_key parent name = Some (from_dir ino name) → 0 ≤ ino < 2 ^ 64 → lookup_dir_entry w parent name = Some ino.
Proof. intros Hm Hh Hk Hi. unfold lookup_dir_entry. rewrite (mounted_lookup _ _ _ _ _ Hm Hh), Hk. cbn [mbind option_bind]. by rewrite dir_child. Qed.

Lemma found_inode w U h m ino v :
  mounted w U h m → (h < 8)%nat → m !! Inode.make_key ino = Some v → lookup_inode w ino = Some (as_inode v).
Proof.
  intros Hm Hh Hk. unfold lookup_inode, lookup_inode_full. rewrite (mounted_lookup _ _ _ _ _ Hm Hh), Hk. cbn [mbind option_bind].
  by destruct (as_inode v) as [[[? ?] ?] ?].
Qed.

Lemma no_entry w U h m parent name :
  mounted w U h m → (h < 8)%nat → m !! Dir.make_key parent name = None → lookup_dir_entry w parent name = None.
Proof. intros Hm Hh Hk. unfold lookup_dir_entry. by rewrite (mounted_lookup _ _ _ _ _ Hm Hh), Hk. Qed.

(** The two entry points of the code, and the modes they give. *)
Definition create (dirp : bool) : Z → string → Op D Z := if dirp then create_dir else create_file.
Definition create_mode (dirp : bool) : Z := if dirp then Z.lor Inode.S_IFDIR 0x1ED else Z.lor Inode.S_IFREG 0x1A4.

Lemma create_to_node dirp w U h m parent name pv :
  mounted w U h m → (h < 8)%nat → valid_name name = true → m !! Dir.make_key parent name = None →
  m !! Inode.make_key parent = Some pv → Z.land (as_inode pv).1.1.1 Inode.S_IFDIR ≠ 0 →
  create dirp parent name w = create_node (create_mode dirp) parent name w.
Proof.
  intros Hm Hh Hv Hk Hp Hd. destruct dirp; cbn [create create_mode].
  - unfold create_dir. m_run reflexivity. rewrite Hv. cbn [negb]. rewrite (no_entry w U h m) by done. by rewrite bool_decide_eq_false_2 by (by intros [? ?]).
  - unfold create_file. m_run reflexivity. rewrite Hv. cbn [negb]. rewrite (no_entry w U h m) by done. rewrite bool_decide_eq_false_2 by (by intros [? ?]).
    rewrite (found_inode w U h m parent pv) by done. m_run reflexivity. destruct (as_inode pv) as [[[mode s] db] bc]. cbn in Hd.
    by rewrite (proj2 (Z.eqb_neq _ _)).
Qed.
End Create.

(** C3: Creating a file or a directory is a durable transaction. The volume is mounted, its
    tree has at most six levels and it has [34 + 44 h] blocks of space; the name is valid
    and new in its parent, which is an existing directory, and no inode has the number that
    comes after the superblock's counter. Then creating it logs a bounded number of blocks
    and either fits the journal or does not. If it fits, the call returns the new inode
    number, and both now and after mounting the disk again the name leads to that inode,
    which is an empty file (or directory), and every other item is as before. If it does
    not fit, the call reports ["commit"]. *)
Theorem create_is_durable {D} `{File.DiskLaws D valid sec} (dirp : bool) (w : World D) U h m parent name pv :
  let ino := allocated_inodes (sb (vol w)) + 1 in
  mounted (valid := valid) w U h m → (h ≤ 5)%nat → valid_name name = true → 0 ≤ parent < 2 ^ 64 → ino < 2 ^ 64 →
  m !! Dir.make_key parent name = None → m !! Inode.make_key ino = None →
  m !! Inode.make_key parent = Some pv → Z.land (as_inode pv).1.1.1 Inode.S_IFDIR ≠ 0 → 34 + 44 * Z.of_nat h ≤ space (vol w) →
  ∃ r w', create dirp parent name w = (r, w') ∧ 1 ≤ log_size w' ≤ 34 + 44 * Z.of_nat h ∧
    (¬ log_fits w' → r = Err "commit") ∧
    (log_fits w' → r = Ok ino ∧ ∃ v', mount (start_lba (vol w)) (dev w') = (Some v', dev w') ∧
       ∀ w2, w2 = w' ∨ w2 = mkWorld v' (dev w') →
         lookup_dir_entry w2 parent name = Some ino ∧ lookup_inode w2 ino = Some (create_mode dirp, 0, 0, 0) ∧
         ∀ k, k ≠ Dir.make_key parent name → k ≠ Inode.make_key ino → tree_get w2 k = m !! k).
Proof.
  intros ino Hm Hh Hv Hpar Hino Hk1 Hk2 Hp Hd Hsp. rewrite (create_to_node dirp w U h m parent name pv) by (done || lia).
  destruct (create_node_run w U h m (create_mode dirp) parent name) as (r & w' & h' & Hr & Hn & Hh' & Hst & Hm' & Hok & Hbad); [done..|]. fold ino in Hm', Hok.
  assert (Hai : 0 ≤ allocated_inodes (sb (vol w))).
  { destruct (proj1 Hm) as [_ (_ & _ & _ & Hf) _ _ _ _]. rewrite !Forall_cons in Hf. lia. }
  exists r, w'. split_and!; [done|lia|lia|done|]. intros Hfit. destruct (Hok Hfit) as (-> & v' & Hmt & Hmm). split; [done|]. exists v'. split; [done|].
  intros w2 Hw2. assert (Hm2 : mounted (valid := valid) w2 U h' _) by (destruct Hw2 as [->| ->]; [exact Hm'|exact Hmm]). split_and!.
  - eapply found_entry; [exact Hm2|lia|apply lookup_insert_eq|lia].
  - erewrite found_inode; [|exact Hm2|lia|rewrite lookup_insert_ne by done; apply lookup_insert_eq]. f_equal. apply as_inode_from; [by destruct dirp|lia..].
  - intros k Hne1 Hne2. rewrite (mounted_lookup _ _ _ _ _ Hm2) by lia. by rewrite !lookup_insert_ne by done.
Qed.

Definition fresh_world : World (gmap Z bytes) := mkWorld (mkVol demo_sb 0 0 Journal.new false []) demo_disk.

Lemma fresh_mounted : mounted (valid := λ _, True) fresh_world ∅ 0 {[ root_item.1 := root_item.2 ]}.
Proof.
  destruct (mount_formatted (sec := mem_sec) 0 demo_lba ∅ demo_region) as (d' & Hf & _ & Hm); [by vm_compute|].
  unfold fresh_world, demo_disk. change 1024 with demo_lba. rewrite Hf. exact Hm.
Qed.

Lemma create_is_durable_witness :
  ∃ w' v', create false 1 "boot.cfg" fresh_world = (Ok 2, w') ∧ mount 0 (dev w') = (Some v', dev w') ∧
    lookup_dir_entry (mkWorld v' (dev w')) 1 "boot.cfg" = Some 2.
Proof.
  destruct (create_is_durable (sec := mem_sec) false fresh_world _ _ _ 1 "boot.cfg" root_item.2 fresh_mounted) as (r & w' & H1 & _ & _ & H2);
    [lia|by vm_compute..|].
  assert (Hfit : log_fits w').
  { assert (E : w' = (create false 1 "boot.cfg" fresh_world).2) by by rewrite H1. rewrite E. split; by vm_compute. }
  destruct (H2 Hfit) as (-> & v' & H3 & H4). exists w', v'. destruct (H4 _ (or_intror eq_refl)) as [H5 _]. exact (conj H1 (conj H3 H5)).
Defined.
