(* ===== verification/NfsLimits.v ===== *)
(** How large a NeuralFS transaction, and so a file, can be: the journal only grows
    during a transaction, every inserted item logs at least one block, and a commit
    takes at most 61 blocks and fewer than the journal area holds. *)

From S2P Require Import Prelude Checksum Flash NfsNode NfsFormat NfsVolume NfsFiles NfsCreate.
Import Btree Super Volume Files.

(** * Operations that only add to the journal *)

Section Grows.
Context {D : Type} `{BlockDevice D}.
Implicit Types (w : World D).

Definition dirty_of w : list (Z * bytes) := Journal.dirty_blocks (journal (vol w)).
Definition jblocks w : Z := journal_blocks (sb (vol w)).

(** When [m] succeeds it has logged at least [n] blocks. *)
Definition grows {A} (n : Z) (m : Op D A) : Prop := ∀ w a w',
  m w = (Ok a, w') → (∃ l, dirty_of w' = dirty_of w ++ l ∧ n ≤ zlen l) ∧ jblocks w' = jblocks w.

Lemma grows_bind {A B} n k (m : Op D A) (f : A → Op D B) : grows n m → (∀ a, grows k (f a)) → grows (n + k) (m ≫= f).
Proof.
  intros Hm Hf w b w'. unfold mbind, M_bind. destruct (m w) as [[a|e| |] w1] eqn:E; try done. intros E'.
  destruct (Hm _ _ _ E) as [(l & Hl & Hn) Hj]. destruct (Hf a _ _ _ E') as [(l' & Hl' & Hk) Hj'].
  split; [|congruence]. exists (l ++ l'). rewrite Hl', Hl, app_assoc, zlen_app. split; [done|lia].
Qed.

Lemma grows_weaken {A} n k (m : Op D A) : grows n m → k ≤ n → grows k m.
Proof. intros Hm Hk w a w' E. destruct (Hm _ _ _ E) as [(l & ? & ?) ?]. split; [|done]. exists l. split; [done|lia]. Qed.

(** Sequencing, when one half is known to log [n]. *)
Lemma grows_seq {A B} (m : Op D A) (f : A → Op D B) : grows 0 m → (∀ a, grows 0 (f a)) → grows 0 (m ≫= f).
Proof. apply (grows_bind 0 0). Qed.
Lemma grows_first {A B} n (m : Op D A) (f : A → Op D B) : grows n m → (∀ a, grows 0 (f a)) → grows n (m ≫= f).
Proof. intros. rewrite <-(Z.add_0_r n). by apply grows_bind. Qed.
Lemma grows_then {A B} n (m : Op D A) (f : A → Op D B) : grows 0 m → (∀ a, grows n (f a)) → grows n (m ≫= f).
Proof. intros. rewrite <-(Z.add_0_l n). by apply grows_bind. Qed.

(** An operation that leaves the journal alone. *)
Lemma grows_same {A} (m : Op D A) : (∀ w r w', m w = (r, w') → dirty_of w' = dirty_of w ∧ jblocks w' = jblocks w) → grows 0 m.
Proof. intros Hm w a w' E. destruct (Hm _ _ _ E) as [H1 H2]. split; [|done]. exists []. by rewrite app_nil_r. Qed.

Lemma grows_ret {A} (a : A) : grows 0 (mret a).
Proof. apply grows_same. by intros w r w' [= _ <-]. Qed.
Lemma grows_lift {A} (r : res A) : grows 0 (m_lift r).
Proof. apply grows_same. by intros w r' w' [= _ <-]. Qed.
Lemma grows_err {A} n e : grows n (m_err e : Op D A).
Proof. intros w a w'. done. Qed.
Lemma grows_get_vol : grows 0 (get_vol : Op D _).
Proof. apply grows_same. by intros w r w' [= _ <-]. Qed.
Lemma grows_get_world : grows 0 (get_world : Op D _).
Proof. apply grows_same. by intros w r w' [= _ <-]. Qed.
Lemma grows_read_node a : grows 0 (read_node a : Op D _).
Proof. apply grows_same. by intros w r w' [= _ <-]. Qed.
Lemma grows_scan : grows 0 (scan_items : Op D _).
Proof. apply grows_same. by intros w r w' [= _ <-]. Qed.
Lemma grows_write_node n : grows 0 (write_node n : Op D _).
Proof. apply grows_same. unfold write_node. intros w r w'. destruct (Btree.write _ _ _) as [[? ?] ?]. by intros [= _ <-]. Qed.
Lemma grows_write_raw b data : grows 0 (write_block_raw b data : Op D _).
Proof. apply grows_same. unfold write_block_raw. intros w r w'. destruct (write_block_static _ _ _ _). by intros [= _ <-]. Qed.
Lemma grows_log a data : grows 1 (log_block a data : Op D _).
Proof. intros w u w' [= _ <-]. split; [|done]. by exists [(a, data)]. Qed.
Lemma grows_set_root a : grows 0 (set_root a : Op D _).
Proof. apply grows_same. by intros w r w' [= _ <-]. Qed.

Lemma grows_next_block : grows 0 (next_block : Op D _).
Proof.
  apply grows_same. unfold next_block, on_vol. intros w r w'. destruct (next_block1 (vol w)) as [o v] eqn:E. intros [= _ <-].
  unfold next_block1 in E. unfold dirty_of, jblocks. cbn. repeat case_match; simplify_eq; done.
Qed.
Lemma grows_reclaim b : grows 0 (reclaim_block b : Op D _).
Proof.
  apply grows_same. unfold reclaim_block, upd_vol, m_modify, reclaim_block1. intros w r w' [= _ <-]. cbn. by repeat case_match.
Qed.
Lemma grows_alloc n : grows 0 (alloc_contiguous n : Op D _).
Proof.
  apply grows_same. unfold alloc_contiguous, on_vol. intros w r w'. destruct (alloc_contiguous1 n (vol w)) as [o v] eqn:E. intros [= _ <-].
  unfold alloc_contiguous1, bump in E. unfold dirty_of, jblocks. cbn. repeat case_match; simplify_eq; done.
Qed.
End Grows.

Create HintDb grows.
#[export] Hint Resolve grows_ret grows_lift grows_err grows_get_vol grows_get_world grows_read_node grows_scan grows_write_node grows_write_raw
  grows_set_root grows_next_block grows_reclaim grows_alloc : grows.

(** Structural search: sequencing, case analysis, the lemmas above. *)
Ltac grows_step :=
  match goal with
  | |- grows 0 (log_block _ _) => apply (grows_weaken 1); [apply grows_log|lia]
  | |- grows 0 (_ ≫= _) => apply grows_seq; [|intros]
  | |- grows _ (match ?x with _ => _ end) => destruct x
  | |- grows _ (let '_ := ?x in _) => destruct x
  | |- grows _ _ => solve [eauto with grows]
  end.
Ltac grows := repeat grows_step.

Section Ops.
Context {D : Type} `{BlockDevice D}.
Implicit Types (w : World D).

Lemma grows_ok_or {A} n (m : Op D (option A)) e : grows n m → grows n (ok_or_err m e).
Proof. intros Hm. unfold ok_or_err. apply grows_first; [done|]. intros. grows. Qed.
Hint Resolve grows_ok_or : grows.

Lemma grows_collect fuel a k path : grows 0 (collect_path_loop fuel a k path : Op D _).
Proof. revert a path. induction fuel as [|fuel IH]; intros a path; cbn [collect_path_loop]; grows. Qed.
Lemma grows_find_parent fuel a c k path : grows 0 (find_parent_loop fuel a c k path : Op D _).
Proof. revert a path. induction fuel as [|fuel IH]; intros a path; cbn [find_parent_loop]; grows. Qed.
Hint Resolve grows_collect grows_find_parent : grows.

Lemma grows_parent_path c k : grows 0 (find_parent_path c k : Op D _).
Proof. unfold find_parent_path. grows. Qed.

Lemma grows_cow_up ns old new_ : grows 0 (cow_up ns old new_ : Op D _).
Proof. revert old new_. induction ns as [|n ns IH]; intros old new_; cbn [cow_up]; grows. Qed.
Hint Resolve grows_parent_path grows_cow_up : grows.

Lemma grows_ancestors ns old new_ : grows 0 (cow_update_ancestors ns old new_ : Op D _).
Proof. apply grows_cow_up. Qed.
Hint Resolve grows_ancestors : grows.

Lemma grows_cow_leaf k : grows 0 (cow_leaf_for_key k : Op D _).
Proof. unfold cow_leaf_for_key, collect_path. grows. Qed.

Lemma grows_new_root l a k b : grows 0 (new_root l a k b : Op D _).
Proof. unfold new_root. grows. Qed.
Hint Resolve grows_cow_leaf grows_new_root : grows.

Lemma grows_separator fuel k a b : grows 0 (insert_separator fuel k a b : Op D _).
Proof. revert k a b. induction fuel as [|fuel IH]; intros k a b; cbn [insert_separator]; grows. Qed.
Hint Resolve grows_separator : grows.

Lemma grows_split n k v : grows 1 (split_and_insert n k v : Op D _).
Proof.
  unfold split_and_insert. do 3 (apply grows_then; [grows|intros]). apply grows_then; [grows|intros [[sep l1] r1]].
  apply grows_then; [grows|intros [l2 r2]]. apply grows_first; [apply grows_log|intros]. grows.
Qed.

Lemma grows_leaf_insert k v : grows 1 (leaf_insert k v : Op D _).
Proof.
  unfold leaf_insert. apply grows_then; [grows|intros leaf]. destruct (insert k v leaf) as [[] leaf'].
  - apply grows_first; [apply grows_log|intros]. grows.
  - case_match; [apply grows_split|grows].
Qed.

Hint Resolve grows_leaf_insert : grows.

Lemma grows_insert0 k v : grows 0 (leaf_insert k v : Op D _).
Proof. apply (grows_weaken 1); [apply grows_leaf_insert|lia]. Qed.
Hint Resolve grows_insert0 : grows.

Lemma grows_reclaim_all bs : grows 0 (reclaim_all bs : Op D _).
Proof. induction bs as [|b bs IH]; cbn [reclaim_all]; grows. Qed.
Hint Resolve grows_reclaim_all : grows.

Lemma grows_purge_loop fuel ino : grows 0 (purge_loop fuel ino : Op D _).
Proof. induction fuel as [|fuel IH]; cbn [purge_loop]; grows. Qed.
Lemma grows_purge ino : grows 0 (purge_checksum_items ino : Op D _).
Proof. unfold purge_checksum_items. apply grows_seq; [grows|]. intros [? ?]. apply grows_purge_loop. Qed.

(** One block at least for every checksum. *)
Lemma grows_checksums ino bi crcs : grows (zlen crcs) (insert_checksums ino bi crcs : Op D _).
Proof.
  revert bi. induction crcs as [|c crcs IH]; intros bi; cbn [insert_checksums]; [grows|].
  rewrite zlen_cons. apply grows_bind; [apply grows_leaf_insert|done].
Qed.

Lemma grows_update_inode ino v fb bc bn bs : grows 1 (update_inode ino v fb bc bn bs : Op D _).
Proof.
  unfold update_inode. apply grows_then; [grows|intros leaf]. apply grows_then; [grows|intros [? leaf1]]. apply grows_then; [grows|intros [? leaf2]].
  destruct (insert _ _ leaf2) as [[] leaf3]; (apply grows_first; [apply grows_log|intros]); grows.
Qed.

(** [write_pages] keeps one checksum per block. *)
Lemma write_pages_run {P} (pull : P → Z → res bytes * P) bs all left_ crc crcs p :
  grows 0 (write_pages pull bs all left_ crc crcs p : Op D _) ∧
  ∀ w r w', write_pages pull bs all left_ crc crcs p w = (Ok r, w') → zlen r.2 = zlen crcs + zlen bs.
Proof.
  revert left_ crc crcs p. induction bs as [|b bs IH]; intros left_ crc crcs p; cbn [write_pages].
  - split; [grows|]. intros w r w' [= <- _]. change (zlen []) with 0. cbn. lia.
  - destruct (pull_page pull _ _ [] p) as [g p'] eqn:Eg. split.
    + apply grows_seq; [grows|intros got]. apply grows_seq; [grows|intros ok]. destruct ok; cbn [negb]; [apply IH|grows].
    + intros w r w'. unfold mbind, M_bind at 1. unfold m_lift. destruct g as [got|e| |]; try done. unfold M_bind at 1.
      destruct (write_block_raw _ _ w) as [[[]|?| |] w1]; cbn [negb]; try done.
      * intros E. destruct (IH (left_ - Z.min left_ 4096) (Crc32c.update crc got) (crcs ++ [Crc32c.crc32c (got ++ replicate (Z.to_nat (4096 - Z.min left_ 4096)) Byte.x00)]) p')
          as [_ Hlen]. specialize (Hlen _ _ _ E). rewrite zlen_app, zlen_cons in Hlen. change (zlen []) with 0 in Hlen. rewrite zlen_cons. lia.
      * unfold mbind, M_bind. by destruct (reclaim_all all w1) as [[]  ?].
Qed.

(** * Commits and files *)

Lemma bind_ok {A B} (m : Op D A) (f : A → Op D B) w b w' :
  (m ≫= f) w = (Ok b, w') → ∃ a w1, m w = (Ok a, w1) ∧ f a w1 = (Ok b, w').
Proof. unfold mbind, M_bind. destruct (m w) as [[a|e| |] w1]; try done. intros E. by exists a, w1. Qed.

Lemma commit_limit w w' :
  commit_tx w = (Ok true, w') → dirty_of w ≠ [] → zlen (dirty_of w) ≤ 61 ∧ zlen (dirty_of w) < jblocks w.
Proof.
  intros E Hne. unfold commit_tx in E. apply bind_ok in E as (ok & w1 & E1 & E).
  assert (Hv : vol w1 = vol w).
  { unfold persist_free_list in E1. destruct (_ =? 0); [by injection E1 as _ <-|]. destruct (write_block_static _ _ _ _). by injection E1 as _ <-. }
  destruct ok; cbn [negb] in E; [|done]. apply bind_ok in E as (ok & w2 & E2 & E). destruct ok; cbn [negb] in E; [|done].
  unfold journal_commit, Journal.commit in E2. rewrite Hv in E2. fold (dirty_of w) in E2. fold (jblocks w) in E2.
  assert (Hz : zlen (dirty_of w) ≠ 0) by (intros Hz; apply Hne, zlen_le_0; lia). rewrite (proj2 (Z.eqb_neq _ _)) in E2 by done.
  destruct (Z.leb_spec (jblocks w) (zlen (dirty_of w))); [done|].
  destruct (Z.ltb_spec 512 (Journal.CRC_OFFSET + zlen (dirty_of w) * 8)); [done|]. unfold Journal.CRC_OFFSET in *. lia.
Qed.

Definition pages_of (len : Z) : Z := if len =? 0 then 0 else (len + 4095) / 4096.

Lemma try_ok {A} (m : Op D A) w r w' : m_try m w = (Ok r, w') → match r with Ok a => m w = (Ok a, w') | Err e => m w = (Err e, w') | _ => False end.
Proof. unfold m_try. destruct (m w) as [[a|e| |] w1]; try done; by intros [= <- <-]. Qed.

Lemma stream_limit {P} (pull : P → Z → res bytes * P) ino len p w w' :
  0 ≤ len → write_file_stream pull ino len p w = (Ok tt, w') → pages_of len + 1 ≤ 61 ∧ pages_of len + 1 < jblocks w.
Proof.
  intros Hlen. unfold write_file_stream, write_file_stream_ex. intros E. apply bind_ok in E as (w0 & w1 & E1 & E). injection E1 as <- <-.
  apply bind_ok in E as ([[[mode ?] ob] oc] & w1 & E1 & E). injection E1 as _ <-. destruct (_ =? 0); [done|].
  apply bind_ok in E as ([] & w2 & E2 & E). assert (H2 : dirty_of w2 = [] ∧ jblocks w2 = jblocks w) by (injection E2 as <-; done). destruct H2 as [Hd2 Hj2].
  fold (pages_of len) in E. apply bind_ok in E as ([fb bc] & w3 & E3 & E). apply bind_ok in E as ([crc crcs] & w4 & E4 & E).
  destruct (write_pages_run pull (extent_blocks fb (pages_of len)) (extent_blocks fb (pages_of len)) len Crc32c.new [] p) as [Hg4 Hl4].
  specialize (Hl4 _ _ _ E4). cbn in Hl4. assert (Hp : 0 ≤ pages_of len) by (unfold pages_of; destruct (len =? 0); [done|apply Z.div_pos; lia]).
  assert (Hc : zlen crcs = pages_of len).
  { rewrite Hl4. change (zlen []) with 0. unfold extent_blocks, zlen. rewrite length_fmap, length_seqZ. lia. }
  apply bind_ok in E as ([] & w5 & E5 & E). apply bind_ok in E as (r & w6 & E6 & E). apply try_ok in E6.
  assert (Hg3 : grows 0 (if pages_of len =? 0 then mret (0, 0) else ok_or_err (alloc_contiguous (pages_of len)) "no space" : Op D _)) by grows.
  destruct (Hg3 _ _ _ E3) as [(l3 & Hd3 & _) Hj3]. destruct (Hg4 _ _ _ E4) as [(l4 & Hd4 & _) Hj4].
  destruct (grows_update_inode _ _ _ _ _ _ _ _ _ E5) as [(l5 & Hd5 & Hn5) Hj5].
  destruct r as [[]|e| |]; [|by apply bind_ok in E as (? & ? & _ & ?)|done|done].
  destruct (grows_purge _ _ _ _ E6) as [(l6 & Hd6 & _) Hj6].
  apply bind_ok in E as (r & w7 & E7 & E). apply try_ok in E7. destruct r as [[]|e| |]; [|by apply bind_ok in E as (? & ? & _ & ?)|done|done].
  destruct (grows_checksums _ _ _ _ _ _ E7) as [(l7 & Hd7 & Hn7) Hj7].
  apply bind_ok in E as (ok & w8 & E8 & E). destruct ok; cbn [negb] in E; [|by apply bind_ok in E as (? & ? & _ & ?)].
  assert (Hz : pages_of len + 1 ≤ zlen (dirty_of w7)).
  { rewrite Hd7, Hd6, Hd5, Hd4, Hd3, Hd2. rewrite !zlen_app. pose proof (zlen_nonneg l3). pose proof (zlen_nonneg l4). pose proof (zlen_nonneg l6).
    change (zlen []) with 0. lia. }
  destruct (commit_limit w7 w8 E8) as [H1 H2]; [intros Hn; rewrite Hn in Hz; change (zlen []) with 0 in Hz; lia|].
  assert (jblocks w7 = jblocks w) as <- by congruence. lia.
Qed.

End Ops.

(** C39: No file can hold more than 60 pages (240 KiB), or as many pages as the journal
    has blocks less two. Every page adds a checksum item to the tree and every inserted
    item logs at least one block, but a commit takes at most 61 blocks; so [write_file]
    of anything larger always fails, whatever the volume and the disk. *)
Theorem file_size_bounded_by_journal {D} `{BlockDevice D} (w w' : World D) ino data :
  write_file ino data w = (Ok tt, w') →
  zlen data ≤ pages_of (zlen data) * 4096 ∧ pages_of (zlen data) ≤ 60 ∧ pages_of (zlen data) ≤ journal_blocks (sb (vol w)) - 2.
Proof.
  intros E. unfold write_file in E. pose proof (stream_limit _ _ _ _ _ _ (zlen_nonneg data) E) as Hl. unfold jblocks in Hl.
  split; [|lia]. clear. unfold pages_of. destruct (Z.eqb_spec (zlen data) 0); [lia|].
  pose proof (Z.div_mod (zlen data + 4095) 4096 ltac:(lia)). pose proof (Z.mod_pos_bound (zlen data + 4095) 4096 ltac:(lia)). lia.
Qed.

(** A run of [write_file] that succeeds. *)
Definition one_file : World (gmap Z bytes) := (create false 1 "a.txt" fresh_world).2.

Lemma file_size_bounded_by_journal_witness :
  ∃ w', write_file 2 (as_bytes "hello") one_file = (Ok tt, w') ∧ pages_of (zlen (as_bytes "hello")) ≤ 60.
Proof.
  assert (Hx : (write_file 2 (as_bytes "hello") one_file).1 = Ok tt) by by vm_compute.
  destruct (write_file 2 (as_bytes "hello") one_file) as [r w'] eqn:E. cbn [fst] in Hx. rewrite Hx in E. exists w'. rewrite Hx.
  exact (conj eq_refl (proj1 (proj2 (file_size_bounded_by_journal one_file w' 2 (as_bytes "hello") E)))).
Defined.
