(* ===== verification/NfsFaults.v ===== *)
(** Sequences in which NeuralFS loses data, run on a freshly formatted volume. *)

From S2P Require Import Prelude Checksum Flash NfsNode NfsRep NfsFormat NfsVolume NfsFiles NfsDisk NfsSuper NfsJournal NfsMap NfsCreate NfsLimits.
Import Btree Super Volume Files.

(** What is on the disk when power fails during an operation: the volume in memory is
    lost and the disk is mounted again. *)
Definition crash (w : World (gmap Z bytes)) : option (World (gmap Z bytes)) :=
  match mount (start_lba (vol w)) (dev w) with (Some v, d) => Some (mkWorld v d) | (None, _) => None end.

(** The first half of [create_node]: everything before its commit. *)
Definition create_uncommitted (ino mode parent : Z) (name : string) : Op (gmap Z bytes) unit :=
  begin_tx;;
  leaf_insert (Inode.make_key ino) (from_inode mode 0 0 0);;
  leaf_insert (Dir.make_key parent name) (from_dir ino name).

Definition after {A} (m : Op (gmap Z bytes) A) (w : World (gmap Z bytes)) : World (gmap Z bytes) := (m w).2.
Definition outcome {A} (m : Op (gmap Z bytes) A) (w : World (gmap Z bytes)) : res A := (m w).1.

(** A transaction that was never committed survives a crash, and the volume cannot
    create anything from then on. Copy-on-write releases the old leaf at once, so the
    second insertion of the transaction reuses the block the superblock still points
    to; after the crash the half-made file is there, the inode counter is not, and
    every creation tries the same inode number again and fails. *)
Theorem uncommitted_create_survives_crash :
  ∃ w1, crash (after (create_uncommitted 2 (create_mode false) 1 "half.txt") fresh_world) = Some w1 ∧
    resolve_path w1 "/half.txt" = Some 2 ∧ outcome (create false 1 "other.txt") w1 = Err "insert failed".
Proof.
  set (w0 := after (create_uncommitted 2 (create_mode false) 1 "half.txt") fresh_world).
  assert (H : (w1 ← crash w0; guard (resolve_path w1 "/half.txt" = Some 2);; guard (outcome (create false 1 "other.txt") w1 = Err "insert failed");; Some tt) = Some tt) by by vm_compute.
  destruct (crash w0) as [w1|]; [|discriminate H]. exists w1. cbn [mbind option_bind] in H. repeat case_guard; done.
Qed.

(** An insertion that fails takes the tree with it. Inserting a key that is already
    there returns ["insert failed"] only after the leaf's block has been released and
    the root moved to a block that is never written: the root directory, which was
    there before, can no longer be found. *)
Theorem failed_insert_loses_leaf :
  tree_get fresh_world (Inode.make_key 1) = Some root_item.2 ∧
  outcome (leaf_insert (Inode.make_key 1) root_item.2) fresh_world = Err "insert failed" ∧
  tree_get (after (leaf_insert (Inode.make_key 1) root_item.2) fresh_world) (Inode.make_key 1) = None.
Proof. split_and!; by vm_compute. Qed.

(** Seven pages on a volume of 128 blocks, whose journal has eight. *)
Lemma write_file_seven_pages :
  outcome (ino ← create false 1 "a.bin"; write_file ino (replicate (7 * 4096) Byte.x41)) fresh_world = Err "commit".
Proof. by vm_compute. Qed.

(** The split [leaf_insert] makes when the leaf is full, made before it is. *)
Definition split_early (k : Key) (v : bytes) : Op (gmap Z bytes) unit :=
  leaf ← ok_or_err (cow_leaf_for_key k) "cow"; split_and_insert leaf k v.

(** Two files with contents, inodes 2 and 3. *)
Definition two_files : Op (gmap Z bytes) unit :=
  a ← create false 1 "a"; b ← create false 1 "b"; write_file a (as_bytes "hello");; write_file b (as_bytes "hello").

(** The nine items of that tree in two leaves: the inode item of file 2 is the last one
    on the left, its extent item the first one on the right. *)
Definition split_between : World (gmap Z bytes) :=
  after (two_files;; begin_tx;; split_early (Inode.make_key 4) (from_inode (create_mode false) 0 0 0);; commit_tx) fresh_world.

(** Reading, overwriting, reading again. *)
Definition overwrite (ino : Z) (data : bytes) (w : World (gmap Z bytes)) : res bytes * res unit * res bytes :=
  let '(r, w') := write_file ino data w in (read_file w ino, r, read_file w' ino).

(** Overwriting a file can lose it. When a split has put the inode item of a file
    and its extent item in different leaves, [update_inode] looks for the old extent in
    the leaf of the inode only, does not find it, and adds the new one to that leaf,
    where no lookup goes. The write returns [Ok], and from then on the file reads as
    ["data crc mismatch"]: the old blocks, checked against the new checksum. *)
Theorem overwrite_loses_contents :
  overwrite 2 (as_bytes "world!") split_between = (Ok (as_bytes "hello"), Ok tt, Err "data crc mismatch").
Proof. by vm_compute. Qed.
