(* ===== verification/Art.v ===== *)
(** The adaptive radix tree of the semantic graph database ([k_ai/src/sgdb/art.rs]):
    nodes with 4, 16, 48 or 256 children and compressed prefixes, keyed by strings. *)

From S2P Require Import Prelude.

Module Art.

(** * Data *)

(** Arrays are lists of the array's length; a child slot is an option, as in the code.
    [Inner48] maps a byte to the child's index plus one, 0 meaning no child. *)
Inductive Node :=
  | Leaf (key : bytes) (value : Z) (dead : bool)
  | Inner4 (prefix : bytes) (keys : bytes) (children : list (option Node)) (n : nat)
  | Inner16 (prefix : bytes) (keys : bytes) (children : list (option Node)) (n : nat)
  | Inner48 (prefix : bytes) (keys : list nat) (children : list (option Node)) (n : nat)
  | Inner256 (prefix : bytes) (children : list (option Node)) (n : nat).

Record ArtIndex := mkArt { root : option Node; len : Z }.

Definition new : ArtIndex := mkArt None 0.
Definition clear (t : ArtIndex) : ArtIndex := mkArt None 0.

(** * Slices and arrays *)

Definition starts_with (p l : bytes) : bool := bool_decide (take (length p) l = p).

(** [&l[d..]]: panics when [d] is past the end. *)
Definition slice_from (d : nat) (l : bytes) : res bytes := if (length l <? d)%nat then Panic else Ok (drop d l).

(** [a[i]] of a fixed-size array. *)
Definition idx {A} (i : nat) (a : list A) : res A := match a !! i with Some x => Ok x | None => Panic end.

Fixpoint common_prefix (a b : bytes) : nat :=
  match a, b with
  | x :: a', y :: b' => if decide (x = y) then S (common_prefix a' b') else 0
  | _, _ => 0
  end.

(** [for i in 0..n { if keys[i] == b { return Some(i) } }] *)
Fixpoint find_byte (keys : bytes) (n : nat) (b : Byte.byte) (i : nat) {struct n} : res (option nat) :=
  match n with
  | O => Ok None
  | S n' =>
      match keys with
      | [] => Panic
      | k :: ks => if decide (k = b) then Ok (Some i) else find_byte ks n' b (S i)
      end
  end.

(** ** The vector comparison of [Inner16] *)

(** [_mm_movemask_epi8]: bit [i] of the result is lane [i]. *)
Fixpoint movemask (lanes : list bool) : Z :=
  match lanes with [] => 0 | b :: ls => Z.b2z b + 2 * movemask ls end.

(** [u32::trailing_zeros]. *)
Fixpoint trailing_zeros (w : nat) (z : Z) : nat :=
  match w with
  | O => 0
  | S w' => if Z.odd z then 0 else S (trailing_zeros w' (Z.shiftr z 1))
  end.

Definition find_child_byte16_sse (keys : bytes) (n : nat) (b : Byte.byte) : option nat :=
  let cmp := (λ k, bool_decide (k = b)) <$> keys in
  let mask := (Z.shiftl 1 (Z.of_nat n) mod 2 ^ 32 - 1) mod 2 ^ 32 in
  let bitfield := Z.land (movemask cmp) mask in
  if bitfield =? 0 then None else Some (trailing_zeros 32 bitfield).

(** [avx2] is what the platform probe answers. *)
Definition find_child_byte16 (avx2 : bool) (keys : bytes) (n : nat) (b : Byte.byte) : res (option nat) :=
  if (n =? 0)%nat then Ok None
  else if avx2 then Ok (find_child_byte16_sse keys n b)
  else find_byte keys n b 0.

(** * Lookup *)

(** The walk of [get]: [None] is the source's early [return None]. *)
Definition get_child (avx2 : bool) (node : Node) (b : Byte.byte) : res (option Node) :=
  match node with
  | Leaf _ _ _ => Ok None
  | Inner4 _ keys children n =>
      o ← find_byte keys n b 0;
      match o with Some i => idx i children | None => Ok None end
  | Inner16 _ keys children n =>
      o ← find_child_byte16 avx2 keys n b;
      match o with Some i => idx i children | None => Ok None end
  | Inner48 _ keys children _ =>
      i ← idx (Byte.to_nat b) keys;
      if (i =? 0)%nat then Ok None else idx (i - 1) children
  | Inner256 _ children _ => idx (Byte.to_nat b) children
  end.

Definition node_prefix (node : Node) : bytes :=
  match node with Leaf _ _ _ => [] | Inner4 p _ _ _ | Inner16 p _ _ _ | Inner48 p _ _ _ | Inner256 p _ _ => p end.

Fixpoint get_loop (fuel : nat) (avx2 : bool) (node : Node) (kb : bytes) (depth : nat) : res (option Z) :=
  match fuel with
  | O => OutOfFuel
  | S fuel' =>
      match node with
      | Leaf lk value dead => Ok (if negb dead && bool_decide (lk = kb) then Some value else None)
      | _ =>
          rest ← slice_from depth kb;
          if negb (starts_with (node_prefix node) rest) then Ok None else
          let depth := (depth + length (node_prefix node))%nat in
          match kb !! depth with
          | None => Ok None
          | Some b =>
              o ← get_child avx2 node b;
              match o with
              | None => Ok None
              | Some child => get_loop fuel' avx2 child kb (depth + 1)
              end
          end
      end
  end.

Definition get (avx2 : bool) (key : string) (t : ArtIndex) : res (option Z) :=
  match root t with
  | None => Ok None
  | Some node => get_loop (S (length (as_bytes key))) avx2 node (as_bytes key) 0
  end.

(** * Deletion *)

(** [for i in 0..n { if keys[i] == b { if let Some(c) = children[i] { return .. } } }] *)
Fixpoint find_slot (keys : bytes) (children : list (option Node)) (n : nat) (b : Byte.byte) (i : nat) {struct n} : res (option (nat * Node)) :=
  match n with
  | O => Ok None
  | S n' =>
      match keys, children with
      | k :: ks, c :: cs =>
          match (if decide (k = b) then c else None) with
          | Some child => Ok (Some (i, child))
          | None => find_slot ks cs n' b (S i)
          end
      | _, _ => Panic
      end
  end.

(** The child [delete_rec] descends to, with its slot. *)
Definition delete_child (node : Node) (b : Byte.byte) : res (option (nat * Node)) :=
  match node with
  | Leaf _ _ _ => Ok None
  | Inner4 _ keys children n | Inner16 _ keys children n => find_slot keys children n b 0
  | Inner48 _ keys children _ =>
      i ← idx (Byte.to_nat b) keys;
      if (i =? 0)%nat then Ok None else
      c ← idx (i - 1) children;
      Ok (match c with Some child => Some ((i - 1)%nat, child) | None => None end)
  | Inner256 _ children _ =>
      c ← idx (Byte.to_nat b) children;
      Ok (match c with Some child => Some (Byte.to_nat b, child) | None => None end)
  end.

Definition set_child (node : Node) (i : nat) (c : Node) : Node :=
  match node with
  | Leaf _ _ _ => node
  | Inner4 p keys children n => Inner4 p keys (<[i := Some c]> children) n
  | Inner16 p keys children n => Inner16 p keys (<[i := Some c]> children) n
  | Inner48 p keys children n => Inner48 p keys (<[i := Some c]> children) n
  | Inner256 p children n => Inner256 p (<[i := Some c]> children) n
  end.

Fixpoint delete_rec (fuel : nat) (node : Node) (key : bytes) (depth : nat) (l : Z) : res (bool * Node * Z) :=
  match fuel with
  | O => OutOfFuel
  | S fuel' =>
      match node with
      | Leaf lk value dead =>
          if negb dead && bool_decide (lk = key)
          then Ok (true, Leaf lk value true, u64_sat_sub l 1)
          else Ok (false, node, l)
      | _ =>
          if negb (starts_with (node_prefix node) (drop (Nat.min depth (length key)) key)) then Ok (false, node, l) else
          let d2 := (depth + length (node_prefix node))%nat in
          match key !! d2 with
          | None => Ok (false, node, l)
          | Some b =>
              o ← delete_child node b;
              match o with
              | None => Ok (false, node, l)
              | Some (i, child) =>
                  '(r, c, l') ← delete_rec fuel' child key (d2 + 1) l;
                  Ok (r, set_child node i c, l')
              end
          end
      end
  end.

Definition delete (key : string) (t : ArtIndex) : res (bool * ArtIndex) :=
  match root t with
  | None => Ok (false, t)
  | Some node =>
      '(r, node', l') ← delete_rec (S (length (as_bytes key))) node (as_bytes key) 0 (len t);
      Ok (r, mkArt (Some node') l')
  end.

(** * Insertion *)

Definition new_leaf (key : bytes) (value : Z) : Node := Leaf key value false.

(** [children[i].take().unwrap()] *)
Definition take_child (children : list (option Node)) (i : nat) : res Node :=
  match children !! i with Some (Some c) => Ok c | _ => Panic end.

Definition pair4 (prefix : bytes) (b1 : Byte.byte) (c1 : Node) (b2 : Byte.byte) (c2 : Node) : Node :=
  Inner4 prefix [b1; b2; Byte.x00; Byte.x00] [Some c1; Some c2; None; None] 2.

Definition insert_leaf (lk : bytes) (old_v : Z) (dead : bool) (key : bytes) (depth : nat) (value l : Z) : res (Node * Z) :=
  if bool_decide (lk = key) then Ok (new_leaf key value, l) else
  if dead then Ok (new_leaf key value, u64_add l 1) else
  let cp := common_prefix (drop (Nat.min depth (length lk)) lk) (drop (Nat.min depth (length key)) key) in
  if (length lk <? depth + cp)%nat then Panic else
  let prefix := take cp (drop depth lk) in
  let d2 := (depth + cp)%nat in
  let b1 := default Byte.x00 (lk !! d2) in
  let b2 := default Byte.x00 (key !! d2) in
  Ok (pair4 prefix b1 (new_leaf lk old_v) b2 (new_leaf key value), u64_add l 1).

(** The prefix of an inner node does not match: a new parent with the old node and a
    new leaf. [mk] rebuilds the old node with another prefix. *)
Definition split_prefix (mk : bytes → Node) (np key : bytes) (depth : nat) (value l : Z) : res (Node * Z) :=
  kr ← slice_from depth key;
  let cp := common_prefix np kr in
  match np !! cp, kr !! cp with
  | Some nb, Some kb =>
      Ok (pair4 (take cp np) nb (mk (drop (cp + 1) np)) kb (new_leaf key value), u64_add l 1)
  | _, _ => Ok (mk np, l)
  end.

Definition add4 (prefix keys : bytes) (children : list (option Node)) (n : nat) (b : Byte.byte) (leaf : Node) : Node :=
  if (n <? 4)%nat then Inner4 prefix (<[n := b]> keys) (<[n := Some leaf]> children) (n + 1)
  else Inner16 prefix (take 4 keys ++ b :: replicate 11 Byte.x00) (take 4 children ++ Some leaf :: replicate 11 None) 5.

(** [for i in 0..16 { k48[keys[i]] = i + 1 }] *)
Fixpoint fill48 (keys : bytes) (i : nat) (k48 : list nat) : list nat :=
  match keys with [] => k48 | k :: ks => fill48 ks (S i) (<[Byte.to_nat k := S i]> k48) end.

Definition add16 (prefix keys : bytes) (children : list (option Node)) (n : nat) (b : Byte.byte) (leaf : Node) : Node :=
  if (n <? 16)%nat then Inner16 prefix (<[n := b]> keys) (<[n := Some leaf]> children) (n + 1)
  else Inner48 prefix (<[Byte.to_nat b := 17%nat]> (fill48 (take 16 keys) 0 (replicate 256 0%nat)))
         (take 16 children ++ Some leaf :: replicate 31 None) 17.

(** [for byte in 0..256 { if keys[byte] != 0 { c256[byte] = children[keys[byte] - 1].take() } }] *)
Fixpoint fill256 (keys : list nat) (children : list (option Node)) : res (list (option Node)) :=
  match keys with
  | [] => Ok []
  | i :: ks =>
      if (i =? 0)%nat then cs ← fill256 ks children; Ok (None :: cs) else
      c ← idx (i - 1) children;
      cs ← fill256 ks (<[(i - 1)%nat := None]> children);
      Ok (c :: cs)
  end.

Definition add48 (prefix : bytes) (keys : list nat) (children : list (option Node)) (n : nat) (b : Byte.byte) (leaf : Node) : res Node :=
  if (n <? 48)%nat
  then Ok (Inner48 prefix (<[Byte.to_nat b := (n + 1)%nat]> keys) (<[n := Some leaf]> children) (n + 1))
  else c256 ← fill256 keys children; Ok (Inner256 prefix (<[Byte.to_nat b := Some leaf]> c256) 49).

Definition matches (prefix key : bytes) (depth : nat) : bool :=
  (depth + length prefix <=? length key)%nat && starts_with prefix (drop depth key).

(** The branches of [insert_rec], with the recursive call on a child as [rec]. *)
Section Branches.
Context (rec : Node → nat → res (Node * Z)) (key : bytes) (depth : nat) (value l : Z).

Definition insert4 (prefix keys : bytes) (children : list (option Node)) (n : nat) : res (Node * Z) :=
  if negb (matches prefix key depth) then split_prefix (λ p, Inner4 p keys children n) prefix key depth value l else
  let d2 := (depth + length prefix)%nat in
  match key !! d2 with
  | None => Ok (Inner4 prefix keys children n, l)
  | Some b =>
      o ← find_byte keys n b 0;
      match o with
      | Some i =>
          child ← take_child children i;
          '(c, l') ← rec child (d2 + 1)%nat;
          Ok (Inner4 prefix keys (<[i := Some c]> children) n, l')
      | None => Ok (add4 prefix keys children n b (new_leaf key value), u64_add l 1)
      end
  end.

Definition insert16 (prefix keys : bytes) (children : list (option Node)) (n : nat) : res (Node * Z) :=
  if negb (matches prefix key depth) then split_prefix (λ p, Inner16 p keys children n) prefix key depth value l else
  let d2 := (depth + length prefix)%nat in
  match key !! d2 with
  | None => Ok (Inner16 prefix keys children n, l)
  | Some b =>
      o ← find_byte keys n b 0;
      match o with
      | Some i =>
          child ← take_child children i;
          '(c, l') ← rec child (d2 + 1)%nat;
          Ok (Inner16 prefix keys (<[i := Some c]> children) n, l')
      | None => Ok (add16 prefix keys children n b (new_leaf key value), u64_add l 1)
      end
  end.

Definition insert48 (prefix : bytes) (keys : list nat) (children : list (option Node)) (n : nat) : res (Node * Z) :=
  if negb (matches prefix key depth) then split_prefix (λ p, Inner48 p keys children n) prefix key depth value l else
  let d2 := (depth + length prefix)%nat in
  match key !! d2 with
  | None => Ok (Inner48 prefix keys children n, l)
  | Some b =>
      i ← idx (Byte.to_nat b) keys;
      if negb (i =? 0)%nat then
        child ← take_child children (i - 1);
        '(c, l') ← rec child (d2 + 1)%nat;
        Ok (Inner48 prefix keys (<[(i - 1)%nat := Some c]> children) n, l')
      else
        node' ← add48 prefix keys children n b (new_leaf key value);
        Ok (node', u64_add l 1)
  end.

Definition insert256 (prefix : bytes) (children : list (option Node)) (n : nat) : res (Node * Z) :=
  if negb (matches prefix key depth) then split_prefix (λ p, Inner256 p children n) prefix key depth value l else
  let d2 := (depth + length prefix)%nat in
  match key !! d2 with
  | None => Ok (Inner256 prefix children n, l)
  | Some b =>
      o ← idx (Byte.to_nat b) children;
      match o with
      | Some child =>
          '(c, l') ← rec child (d2 + 1)%nat;
          Ok (Inner256 prefix (<[Byte.to_nat b := Some c]> children) n, l')
      | None =>
          Ok (Inner256 prefix (<[Byte.to_nat b := Some (new_leaf key value)]> children) (Nat.min (n + 1) 65535), u64_add l 1)
      end
  end.
End Branches.

Fixpoint insert_rec (fuel : nat) (node : Node) (key : bytes) (depth : nat) (value l : Z) : res (Node * Z) :=
  match fuel with
  | O => OutOfFuel
  | S fuel' =>
      let rec := λ child d, insert_rec fuel' child key d value l in
      match node with
      | Leaf lk old_v dead => insert_leaf lk old_v dead key depth value l
      | Inner4 prefix keys children n => insert4 rec key depth value l prefix keys children n
      | Inner16 prefix keys children n => insert16 rec key depth value l prefix keys children n
      | Inner48 prefix keys children n => insert48 rec key depth value l prefix keys children n
      | Inner256 prefix children n => insert256 rec key depth value l prefix children n
      end
  end.

Definition insert (key : string) (value : Z) (t : ArtIndex) : res ArtIndex :=
  match root t with
  | None => Ok (mkArt (Some (new_leaf (as_bytes key) value)) 1)
  | Some node =>
      '(node', l') ← insert_rec (S (length (as_bytes key))) node (as_bytes key) 0 value (len t);
      Ok (mkArt (Some node') l')
  end.

(** * Scan *)

Definition emit (prefix key : bytes) (value : Z) (dead : bool) : list (string * Z) :=
  if negb dead && starts_with prefix key
  then match from_utf8 key with Some s => [(s, value)] | None => [] end
  else [].

Fixpoint collect_prefix (node : Node) (prefix : bytes) : list (string * Z) :=
  let walk := fix walk (n : nat) (cs : list (option Node)) {struct cs} : list (string * Z) :=
    match cs, n with
    | Some c :: cs', S n' => collect_prefix c prefix ++ walk n' cs'
    | None :: cs', S n' => walk n' cs'
    | _, _ => []
    end in
  match node with
  | Leaf key value dead => emit prefix key value dead
  | Inner4 _ _ children n | Inner16 _ _ children n | Inner48 _ _ children n => walk n children
  | Inner256 _ children _ => walk (length children) children
  end.

Definition scan_prefix (prefix : string) (t : ArtIndex) : list (string * Z) :=
  match root t with None => [] | Some node => collect_prefix node (as_bytes prefix) end.

End Art.
