(* ===== verification/ArtShape.v ===== *)
(** The four kinds of inner node of the radix tree seen as one: a prefix and a list of
    children, each under its byte. Every step of [get], [delete_rec] and [insert_rec] on
    an inner node is a step on that list. *)

From S2P Require Import Prelude Art.
Import Art.

(** * Bytes as indices *)

Definition all_bytes : list Byte.byte := omap Byte.of_nat (seq 0 256).

Lemma length_all_bytes : length all_bytes = 256%nat.
Proof. by vm_compute. Qed.

Lemma lookup_all_bytes b : all_bytes !! Byte.to_nat b = Some b.
Proof. destruct b; by vm_compute. Qed.

Lemma to_nat_inj a b : Byte.to_nat a = Byte.to_nat b → a = b.
Proof. intros E. pose proof (lookup_all_bytes a) as Ha. rewrite E, lookup_all_bytes in Ha. congruence. Qed.

Lemma all_bytes_index i b : all_bytes !! i = Some b → i = Byte.to_nat b.
Proof.
  intros Hi. assert (Hl : (i < 256)%nat) by (rewrite <-length_all_bytes; by eapply lookup_lt_Some).
  assert (Hall : forallb (λ i, match all_bytes !! i with Some b => (i =? Byte.to_nat b)%nat | None => true end) (seq 0 256) = true) by by vm_compute.
  rewrite forallb_forall in Hall. specialize (Hall i). rewrite Hi in Hall.
  apply Nat.eqb_eq, Hall, List.in_seq. lia.
Qed.

Lemma NoDup_all_bytes : NoDup all_bytes.
Proof. apply NoDup_alt. intros i j b Hi Hj. apply all_bytes_index in Hi, Hj. congruence. Qed.

Lemma table_const {A} (x : A) : replicate 256 x = (λ _, x) <$> all_bytes.
Proof. by vm_compute. Qed.

#[global] Opaque all_bytes.

(** A table with one entry per byte, updated at one byte. *)
Lemma table_insert {A} (f g : Byte.byte → A) b x :
  g b = x → (∀ b', b' ≠ b → g b' = f b') → <[Byte.to_nat b := x]> (f <$> all_bytes) = g <$> all_bytes.
Proof.
  intros Hb Hg. apply list_eq. intros i. rewrite list_lookup_insert, !list_lookup_fmap, length_fmap, length_all_bytes.
  destruct (all_bytes !! i) as [b'|] eqn:E; cbn.
  - pose proof (all_bytes_index _ _ E) as ->. case_decide as Hd.
    + destruct Hd as [He _]. apply to_nat_inj in He as ->. by rewrite Hb.
    + rewrite Hg; [done|]. intros ->. apply Hd. split; [done|]. rewrite <-length_all_bytes. by eapply lookup_lt_Some.
  - case_decide as Hd; [|done]. destruct Hd as [<- _]. by rewrite lookup_all_bytes in E.
Qed.

Lemma byte_table_lookup {A} (f : Byte.byte → A) b : idx (Byte.to_nat b) (f <$> all_bytes) = Ok (f b).
Proof. unfold idx. by rewrite list_lookup_fmap, lookup_all_bytes. Qed.

(** * Finding a byte *)

Fixpoint index (b : Byte.byte) (ks : bytes) : option nat :=
  match ks with [] => None | k :: ks' => if decide (k = b) then Some 0%nat else S <$> index b ks' end.

Lemma index_None b ks : index b ks = None ↔ b ∉ ks.
Proof.
  induction ks as [|k ks IH]; cbn; [split; [intros _; apply not_elem_of_nil|done]|].
  rewrite not_elem_of_cons. case_decide as Hk; [naive_solver|]. rewrite fmap_None, IH. naive_solver.
Qed.

Lemma index_Some b ks i : index b ks = Some i → ks !! i = Some b.
Proof.
  revert i. induction ks as [|k ks IH]; intros i; [done|]. cbn [index]. case_decide as Hk; [by intros [= <-]; subst|].
  intros (j & Hj & ->)%fmap_Some. by apply IH.
Qed.

Lemma index_app b ks k' : b ∉ ks → index b (ks ++ [k']) = if decide (k' = b) then Some (length ks) else None.
Proof.
  induction ks as [|k ks IH]; intros Hb; cbn; [done|]. apply not_elem_of_cons in Hb as [Hk Hb].
  rewrite decide_False by done. rewrite IH by done. by case_decide.
Qed.

Lemma index_app_l b ks ks' i : index b ks = Some i → index b (ks ++ ks') = Some i.
Proof.
  revert i. induction ks as [|k ks IH]; intros i; [done|]. cbn. case_decide; [done|].
  intros (j & Hj & ->)%fmap_Some. by rewrite (IH j).
Qed.

Lemma find_byte_spec ks kj b i : find_byte (ks ++ kj) (length ks) b i = Ok ((λ j, (i + j)%nat) <$> index b ks).
Proof.
  revert i. induction ks as [|k ks IH]; intros i; [done|]. cbn [app length find_byte index]. case_decide; [cbn; do 2 f_equal; lia|].
  rewrite IH. destruct (index b ks) as [j|]; cbn; [do 2 f_equal; lia|done].
Qed.

(** ** The vector search *)

Lemma movemask_nonneg l : 0 ≤ movemask l.
Proof. induction l as [|[] l IH]; cbn [movemask Z.b2z]; lia. Qed.

Lemma land_ones_shift c z n : 0 ≤ z → Z.land (Z.b2z c + 2 * z) (Z.ones (Z.of_nat (S n))) = Z.b2z c + 2 * Z.land z (Z.ones (Z.of_nat n)).
Proof.
  intros Hz. rewrite !Z.land_ones by lia. rewrite Nat2Z.inj_succ, Z.pow_succ_r by lia.
  pose proof (Z.pow_pos_nonneg 2 (Z.of_nat n) ltac:(lia) ltac:(lia)).
  rewrite (Z.rem_mul_r (Z.b2z c + 2 * z) 2) by lia.
  replace ((Z.b2z c + 2 * z) mod 2) with (Z.b2z c) by (rewrite Z.mul_comm, Z.mod_add by lia; by destruct c).
  replace ((Z.b2z c + 2 * z) / 2) with z by (rewrite Z.mul_comm, Z.div_add by lia; by destruct c). done.
Qed.

Lemma ones_shift n : (n ≤ 16)%nat → (Z.shiftl 1 (Z.of_nat n) mod 2 ^ 32 - 1) mod 2 ^ 32 = Z.ones (Z.of_nat n).
Proof. intros Hn. do 17 (destruct n as [|n]; [by vm_compute|]). lia. Qed.

(** The first set bit of the masked comparison is the first matching key. *)
Lemma first_match ks kj b w :
  (length ks ≤ w)%nat →
  let z := Z.land (movemask ((λ k, bool_decide (k = b)) <$> ks ++ kj)) (Z.ones (Z.of_nat (length ks))) in
  (if z =? 0 then None else Some (trailing_zeros w z)) = index b ks.
Proof.
  revert w. induction ks as [|k ks IH]; intros w Hw; cbn [length] in Hw.
  { cbn [app length]. change (Z.ones (Z.of_nat 0)) with 0. by rewrite Z.land_0_r. }
  destruct w as [|w]; [lia|]. specialize (IH w ltac:(lia)). cbv zeta in IH |- *.
  cbn [app length]. rewrite fmap_cons. cbn [movemask]. rewrite land_ones_shift by apply movemask_nonneg.
  set (z := Z.land _ _) in *. assert (Hz : 0 ≤ z) by (apply Z.land_nonneg; left; apply movemask_nonneg). clearbody z.
  cbn [index]. destruct (decide (k = b)) as [->|Hk]; cbn [trailing_zeros].
  - rewrite bool_decide_true by done. cbn [Z.b2z]. rewrite (proj2 (Z.eqb_neq _ _)) by lia.
    by rewrite Z.odd_add_mul_2.
  - rewrite bool_decide_false by done. cbn [Z.b2z]. rewrite <-IH. rewrite Z.odd_add_mul_2. cbn [Z.odd].
    rewrite Z.shiftr_div_pow2 by lia. change (2 ^ 1) with 2. rewrite Z.mul_comm, Z.div_add, Z.add_0_l by lia.
    destruct (Z.eqb_spec z 0) as [E|E]; [by rewrite E|]. by rewrite (proj2 (Z.eqb_neq _ _)) by lia.
Qed.

Lemma find16_spec avx2 ks kj b :
  (length ks ≤ 16)%nat → find_child_byte16 avx2 (ks ++ kj) (length ks) b = Ok (index b ks).
Proof.
  intros Hl. unfold find_child_byte16. destruct (Nat.eqb_spec (length ks) 0) as [E|]; [by destruct ks|].
  destruct avx2.
  - unfold find_child_byte16_sse. rewrite ones_shift by done. f_equal. apply (first_match ks kj b 32). lia.
  - rewrite find_byte_spec. by destruct (index b ks).
Qed.

(** * Children by byte *)

Implicit Types (l : list (Byte.byte * Node)).

Fixpoint assoc (b : Byte.byte) l : option Node :=
  match l with [] => None | (k, c) :: l' => if decide (k = b) then Some c else assoc b l' end.

Definition update (b : Byte.byte) (c : Node) l : list (Byte.byte * Node) := (λ x, if decide (x.1 = b) then (b, c) else x) <$> l.

Lemma assoc_index b l : assoc b l = i ← index b l.*1; l.*2 !! i.
Proof. induction l as [|[k c] l IH]; cbn; [done|]. case_decide; [done|]. rewrite IH. by destruct (index b l.*1). Qed.

Lemma assoc_None b l : assoc b l = None ↔ b ∉ l.*1.
Proof.
  rewrite <-index_None, assoc_index. destruct (index b l.*1) as [i|] eqn:E; cbn; [|done]. split; [|done].
  apply index_Some, lookup_lt_Some in E. rewrite length_fmap in E. intros Hn%lookup_ge_None. rewrite length_fmap in Hn. lia.
Qed.

Lemma assoc_elem b c l : assoc b l = Some c → (b, c) ∈ l.
Proof. induction l as [|[k d] l IH]; cbn; [done|]. case_decide; [intros [= <-]; subst; left|]. right. by apply IH. Qed.

Lemma elem_assoc b c l : NoDup l.*1 → (b, c) ∈ l → assoc b l = Some c.
Proof.
  induction l as [|[k d] l IH]; cbn; [by intros _ ?%elem_of_nil|]. intros [Hk Hn]%NoDup_cons [[= -> ->]|Hin]%elem_of_cons.
  - by rewrite decide_True.
  - rewrite decide_False; [by apply IH|]. intros ->. apply Hk, list_elem_of_fmap. by exists (b, c).
Qed.

Lemma assoc_snoc b k c l : k ∉ l.*1 → assoc b (l ++ [(k, c)]) = if decide (b = k) then Some c else assoc b l.
Proof.
  induction l as [|[k' c'] l IH]; cbn; intros Hk.
  - case_decide; case_decide; congruence.
  - apply not_elem_of_cons in Hk as [Hk Hl]. rewrite IH by done. do 2 case_decide; congruence.
Qed.

Lemma update_keys b c l : (update b c l).*1 = l.*1.
Proof. unfold update. rewrite <-list_fmap_compose. apply list_fmap_ext. intros i [k d] _. cbn. by case_decide. Qed.

Lemma update_length b c l : length (update b c l) = length l.
Proof. apply length_fmap. Qed.

Lemma assoc_update b' b c l : b ∈ l.*1 → assoc b' (update b c l) = if decide (b' = b) then Some c else assoc b' l.
Proof.
  unfold update. induction l as [|[k d] l IH]; [by intros ?%elem_of_nil|]. cbn. intros Hin%elem_of_cons.
  destruct (decide (k = b)) as [->|Hk]; cbn.
  - destruct (decide (b = b')) as [->|]; [by rewrite decide_True|]. rewrite decide_False by done.
    destruct (decide (b ∈ l.*1)) as [Hl|Hl]; [by rewrite IH, decide_False by done|].
    replace (_ <$> l) with l; [done|]. symmetry. rewrite <-(list_fmap_id l) at 2. apply list_fmap_ext.
    intros i [x y] Hx. cbn. rewrite decide_False; [done|]. intros ->. apply Hl, list_elem_of_fmap. exists (b, y). split; [done|]. by eapply list_elem_of_lookup_2.
  - rewrite IH by (by destruct Hin). do 2 case_decide; congruence.
Qed.

Lemma update_snd b c l i : NoDup l.*1 → index b l.*1 = Some i → (update b c l).*2 = <[i := c]> l.*2.
Proof.
  unfold update. revert i. induction l as [|[k d] l IH]; intros i; cbn; [done|]. intros [Hk Hn]%NoDup_cons. destruct (decide (k = b)) as [->|Hkb]; cbn.
  - intros [= <-]. cbn. f_equal. rewrite <-list_fmap_compose. apply list_fmap_ext. intros i [x y] Hx. cbn.
    rewrite decide_False; [done|]. intros ->. apply Hk, list_elem_of_fmap. exists (b, y). split; [done|]. by eapply list_elem_of_lookup_2.
  - intros (j & Hj & ->)%fmap_Some. cbn. f_equal. by apply IH.
Qed.

Lemma elem_update b c l x : x ∈ update b c l → x = (b, c) ∨ (x ∈ l ∧ x.1 ≠ b).
Proof. unfold update. intros ([k d] & -> & Hin)%list_elem_of_fmap. cbn. case_decide; [by left|by right]. Qed.

(** * The shape of an inner node *)

Definition slot l (b : Byte.byte) : nat := match index b l.*1 with Some i => S i | None => 0 end.

Inductive shape : Node → bytes → list (Byte.byte * Node) → Prop :=
  | shape4 p l kj cj : (length l + length kj = 4)%nat → (length l + length cj = 4)%nat →
      shape (Inner4 p (l.*1 ++ kj) ((Some <$> l.*2) ++ cj) (length l)) p l
  | shape16 p l kj cj : (length l + length kj = 16)%nat → (length l + length cj = 16)%nat →
      shape (Inner16 p (l.*1 ++ kj) ((Some <$> l.*2) ++ cj) (length l)) p l
  | shape48 p l cj : (length l + length cj = 48)%nat →
      shape (Inner48 p (slot l <$> all_bytes) ((Some <$> l.*2) ++ cj) (length l)) p l
  | shape256 p l n : shape (Inner256 p ((λ b, assoc b l) <$> all_bytes) n) p l.

Lemma shape16_eq p ks cs n l kj cj :
  ks = l.*1 ++ kj → cs = (Some <$> l.*2) ++ cj → n = length l →
  (length l + length kj = 16)%nat → (length l + length cj = 16)%nat → shape (Inner16 p ks cs n) p l.
Proof. intros -> -> ->. apply shape16. Qed.

Lemma shape48_eq p ks cs n l cj :
  ks = slot l <$> all_bytes → cs = (Some <$> l.*2) ++ cj → n = length l → (length l + length cj = 48)%nat → shape (Inner48 p ks cs n) p l.
Proof. intros -> -> ->. apply shape48. Qed.

(** The same node under another prefix. *)
Definition with_prefix (p : bytes) (node : Node) : Node :=
  match node with
  | Leaf _ _ _ => node
  | Inner4 _ keys children n => Inner4 p keys children n
  | Inner16 _ keys children n => Inner16 p keys children n
  | Inner48 _ keys children n => Inner48 p keys children n
  | Inner256 _ children n => Inner256 p children n
  end.

Lemma shape_with_prefix node p q l : shape node p l → shape (with_prefix q node) q l.
Proof. by destruct 1; constructor. Qed.

Lemma shape_prefix node p l : shape node p l → node_prefix node = p.
Proof. by destruct 1. Qed.

Lemma slots_lookup l i cj : idx i ((Some <$> l.*2) ++ cj) = match l.*2 !! i with Some c => Ok (Some c) | None => idx (i - length l) cj end.
Proof.
  unfold idx. destruct (l.*2 !! i) as [c|] eqn:E.
  - by rewrite lookup_app_l, list_lookup_fmap, E by (rewrite length_fmap; by eapply lookup_lt_Some).
  - apply lookup_ge_None in E. rewrite length_fmap in E. rewrite lookup_app_r by (rewrite !length_fmap; lia). by rewrite !length_fmap.
Qed.

Lemma slots_get l cj b :
  match index b l.*1 with Some i => idx i ((Some <$> l.*2) ++ cj) | None => Ok None end = Ok (assoc b l).
Proof.
  rewrite assoc_index. destruct (index b l.*1) as [i|] eqn:E; [|done]. cbn [mbind option_bind]. rewrite slots_lookup.
  destruct (l.*2 !! i) as [c|] eqn:Ei; [done|]. apply index_Some, lookup_lt_Some in E. apply lookup_ge_None in Ei. rewrite length_fmap in E. rewrite length_fmap in Ei. lia.
Qed.

Lemma find_byte_keys l kj b : find_byte (l.*1 ++ kj) (length l) b 0 = Ok (index b l.*1).
Proof. rewrite <-(length_fmap fst l), find_byte_spec. by destruct (index b l.*1). Qed.

Lemma get_child_spec avx2 node p l b : shape node p l → get_child avx2 node b = Ok (assoc b l).
Proof.
  destruct 1; cbn [get_child].
  - rewrite find_byte_keys. apply slots_get.
  - replace (length l) with (length l.*1) by apply length_fmap. rewrite find16_spec by (rewrite length_fmap; lia). apply slots_get.
  - rewrite byte_table_lookup. cbn [mbind res_bind]. unfold slot. rewrite <-(slots_get l cj b). destruct (index b l.*1) as [i|]; [|done]. cbn. by rewrite Nat.sub_0_r.
  - apply (byte_table_lookup (λ b, assoc b l)).
Qed.

(** * Replacing and adding a child *)

Lemma slots_set l cj i b c :
  NoDup l.*1 → index b l.*1 = Some i → <[i := Some c]> ((Some <$> l.*2) ++ cj) = (Some <$> (update b c l).*2) ++ cj.
Proof.
  intros Hn Hi. rewrite (update_snd b c l i Hn Hi), list_fmap_insert, insert_app_l; [done|].
  rewrite !length_fmap, <-(length_fmap fst). by eapply lookup_lt_Some, index_Some.
Qed.

Lemma slot_update b c l : slot (update b c l) = slot l.
Proof. unfold slot. by rewrite update_keys. Qed.

Lemma find_slot_spec l kj cj b i :
  find_slot (l.*1 ++ kj) ((Some <$> l.*2) ++ cj) (length l) b i = Ok (j ← index b l.*1; c ← l.*2 !! j; Some ((i + j)%nat, c)).
Proof.
  revert i. induction l as [|[k c] l IH]; intros i; [done|]. cbn [fmap list_fmap app length find_slot index fst snd]. case_decide as Hk.
  - cbn. by rewrite Nat.add_0_r.
  - rewrite IH. destruct (index b l.*1) as [j|]; cbn; [|done]. by rewrite Nat.add_succ_r.
Qed.

(** The child under [b] sits in a slot [i]; putting another one there updates the list. *)
Definition slotted (node : Node) (p : bytes) l (b : Byte.byte) (i : nat) : Prop := ∀ c', shape (set_child node i c') p (update b c' l).

Lemma slotted_4 p l kj cj b i :
  (length l + length kj = 4)%nat → (length l + length cj = 4)%nat → NoDup l.*1 → index b l.*1 = Some i →
  slotted (Inner4 p (l.*1 ++ kj) ((Some <$> l.*2) ++ cj) (length l)) p l b i.
Proof.
  intros Hk Hc Hn Hi c'. cbn [set_child]. rewrite (slots_set l cj i b c' Hn Hi), <-(update_keys b c' l), <-(update_length b c' l).
  constructor; by rewrite update_length.
Qed.

Lemma slotted_16 p l kj cj b i :
  (length l + length kj = 16)%nat → (length l + length cj = 16)%nat → NoDup l.*1 → index b l.*1 = Some i →
  slotted (Inner16 p (l.*1 ++ kj) ((Some <$> l.*2) ++ cj) (length l)) p l b i.
Proof.
  intros Hk Hc Hn Hi c'. cbn [set_child]. rewrite (slots_set l cj i b c' Hn Hi), <-(update_keys b c' l), <-(update_length b c' l).
  constructor; by rewrite update_length.
Qed.

Lemma slotted_48 p l cj b i :
  (length l + length cj = 48)%nat → NoDup l.*1 → index b l.*1 = Some i →
  slotted (Inner48 p (slot l <$> all_bytes) ((Some <$> l.*2) ++ cj) (length l)) p l b i.
Proof.
  intros Hc Hn Hi c'. cbn [set_child]. rewrite (slots_set l cj i b c' Hn Hi), <-(slot_update b c' l), <-(update_length b c' l).
  constructor. by rewrite update_length.
Qed.

Lemma slotted_256 p l n b : b ∈ l.*1 → slotted (Inner256 p ((λ b, assoc b l) <$> all_bytes) n) p l b (Byte.to_nat b).
Proof.
  intros Hb c'. cbn [set_child]. rewrite (table_insert _ (λ b', assoc b' (update b c' l)) b (Some c')).
  - constructor.
  - by rewrite assoc_update, decide_True.
  - intros b' Hb'. by rewrite assoc_update, decide_False.
Qed.

Lemma assoc_index_Some b c l : assoc b l = Some c → ∃ i, index b l.*1 = Some i ∧ l.*2 !! i = Some c.
Proof. rewrite assoc_index. intros (i & Hi & Hc)%bind_Some. eauto. Qed.

Lemma assoc_in b c l : assoc b l = Some c → b ∈ l.*1.
Proof. intros H%assoc_elem. apply list_elem_of_fmap. by exists (b, c). Qed.

Lemma delete_child_spec node p l b :
  shape node p l → NoDup l.*1 →
  match assoc b l with
  | Some c => ∃ i, delete_child node b = Ok (Some (i, c)) ∧ slotted node p l b i
  | None => delete_child node b = Ok None
  end.
Proof.
  intros Hs Hn. destruct (assoc b l) as [c|] eqn:E.
  - destruct (assoc_index_Some _ _ _ E) as (i & Hi & Hc). destruct Hs; cbn [delete_child].
    + exists i. rewrite find_slot_spec, Hi. cbn. rewrite Hc. split; [done|by apply slotted_4].
    + exists i. rewrite find_slot_spec, Hi. cbn. rewrite Hc. split; [done|by apply slotted_16].
    + exists i. rewrite byte_table_lookup. cbn [mbind res_bind]. assert (slot l b = S i) as -> by (unfold slot; by rewrite Hi).
      cbn [Nat.eqb]. replace (S i - 1)%nat with i by lia. rewrite slots_lookup, Hc. split; [done|by apply slotted_48].
    + exists (Byte.to_nat b). rewrite (byte_table_lookup (λ b, assoc b l)). cbn [mbind res_bind]. rewrite E.
      split; [done|]. apply slotted_256. by eapply assoc_in.
  - assert (Hi : index b l.*1 = None) by by apply index_None, assoc_None. destruct Hs; cbn [delete_child].
    1,2: by rewrite find_slot_spec, Hi.
    + rewrite byte_table_lookup. cbn [mbind res_bind]. unfold slot. by rewrite Hi.
    + rewrite (byte_table_lookup (λ b, assoc b l)). cbn [mbind res_bind]. by rewrite E.
Qed.

Lemma fill_next {A} (xs : list A) y ys x : <[length xs := x]> (xs ++ y :: ys) = (xs ++ [x]) ++ ys.
Proof. rewrite <-app_assoc. replace (length xs) with (length xs + 0)%nat by lia. by rewrite insert_app_r. Qed.

Lemma snoc_keys l b (c : Node) : (l ++ [(b, c)]).*1 = l.*1 ++ [b].
Proof. by rewrite fmap_app. Qed.

Lemma snoc_kids l b (c : Node) : Some <$> (l ++ [(b, c)]).*2 = (Some <$> l.*2) ++ [Some c].
Proof. by rewrite !fmap_app. Qed.

Lemma slot_snoc l b c : b ∉ l.*1 → slot (l ++ [(b, c)]) b = S (length l) ∧ ∀ b', b' ≠ b → slot (l ++ [(b, c)]) b' = slot l b'.
Proof.
  intros Hb. unfold slot. rewrite snoc_keys. split.
  - by rewrite index_app, decide_True, length_fmap.
  - intros b' Hb'. destruct (index b' l.*1) as [i|] eqn:E; [by rewrite (index_app_l _ _ _ i)|].
    apply index_None in E. rewrite index_app, decide_False by done. done.
Qed.

Lemma take_full {A} (xs ys : list A) n : length xs = n → take n (xs ++ ys) = xs.
Proof. intros <-. apply take_app_length. Qed.

Lemma add4_shape p l kj cj b c :
  (length l + length kj = 4)%nat → (length l + length cj = 4)%nat →
  shape (add4 p (l.*1 ++ kj) ((Some <$> l.*2) ++ cj) (length l) b c) p (l ++ [(b, c)]).
Proof.
  intros Hk Hc. unfold add4. destruct (Nat.ltb_spec (length l) 4) as [Hl|Hl].
  - destruct kj as [|k kj]; [cbn in Hk; lia|]. destruct cj as [|c0 cj]; [cbn in Hc; lia|]. cbn in Hk, Hc.
    rewrite <-(length_fmap fst l) at 1. rewrite fill_next, <-(snoc_keys l b c).
    replace (length l) with (length (Some <$> l.*2)) at 1 by by rewrite !length_fmap. rewrite fill_next, <-(snoc_kids l b c).
    replace (length l + 1)%nat with (length (l ++ [(b, c)])) by by rewrite length_app.
    constructor; rewrite length_app; cbn; lia.
  - rewrite !take_full by (rewrite ?length_fmap; lia).
    apply (shape16_eq _ _ _ _ _ (replicate 11 Byte.x00) (replicate 11 None)); rewrite ?length_app; cbn; try lia.
    + by rewrite snoc_keys, <-app_assoc.
    + by rewrite snoc_kids, <-app_assoc.
Qed.

Lemma fill48_cons k ks i k48 : fill48 (k :: ks) i k48 = fill48 ks (S i) (<[Byte.to_nat k := S i]> k48).
Proof. done. Qed.

Lemma fill48_spec ks i f :
  NoDup ks → fill48 ks i (f <$> all_bytes) = (λ b, match index b ks with Some j => S (i + j) | None => f b end) <$> all_bytes.
Proof.
  revert i f. induction ks as [|k ks IH]; intros i f Hn; [done|]. apply NoDup_cons in Hn as [Hk Hn]. rewrite fill48_cons.
  rewrite (table_insert f (λ b, if decide (k = b) then S i else f b) k); [|by rewrite decide_True|intros b' Hb'; by rewrite decide_False].
  rewrite IH by done. apply list_fmap_ext. intros _ b _. cbn [index]. case_decide as Hkb.
  - subst b. rewrite (proj2 (index_None k ks) Hk). cbn. lia.
  - destruct (index b ks) as [j|]; cbn; lia.
Qed.

Lemma add16_shape p l kj cj b c :
  NoDup l.*1 → b ∉ l.*1 → (length l + length kj = 16)%nat → (length l + length cj = 16)%nat →
  shape (add16 p (l.*1 ++ kj) ((Some <$> l.*2) ++ cj) (length l) b c) p (l ++ [(b, c)]).
Proof.
  intros Hn Hb Hk Hc. unfold add16. destruct (Nat.ltb_spec (length l) 16) as [Hl|Hl].
  - destruct kj as [|k kj]; [cbn in Hk; lia|]. destruct cj as [|c0 cj]; [cbn in Hc; lia|]. cbn in Hk, Hc.
    rewrite <-(length_fmap fst l) at 1. rewrite fill_next, <-(snoc_keys l b c).
    replace (length l) with (length (Some <$> l.*2)) at 1 by by rewrite !length_fmap. rewrite fill_next, <-(snoc_kids l b c).
    replace (length l + 1)%nat with (length (l ++ [(b, c)])) by by rewrite length_app.
    constructor; rewrite length_app; cbn; lia.
  - rewrite !take_full by (rewrite ?length_fmap; lia).
    rewrite table_const.
    rewrite fill48_spec by done. destruct (slot_snoc l b c Hb) as [Hs1 Hs2].
    rewrite (table_insert _ (slot (l ++ [(b, c)])) b); [|rewrite Hs1; lia|intros b' Hb'; by rewrite Hs2].
    apply (shape48_eq _ _ _ _ _ (replicate 31 None)); rewrite ?length_app; cbn; try lia; [done|].
    by rewrite snoc_kids, <-app_assoc.
Qed.

Lemma fill256_spec l bs ch :
  NoDup bs → (∀ b i c, b ∈ bs → index b l.*1 = Some i → l.*2 !! i = Some c → ch !! i = Some (Some c)) →
  fill256 (slot l <$> bs) ch = Ok ((λ b, assoc b l) <$> bs).
Proof.
  revert ch. induction bs as [|b bs IH]; intros ch Hn Hch; [done|]. apply NoDup_cons in Hn as [Hb Hn]. cbn [fmap list_fmap fill256].
  unfold slot at 1. rewrite assoc_index. destruct (index b l.*1) as [i|] eqn:Ei; cbn [Nat.eqb mbind option_bind].
  - assert (slot l b = S i) as -> by (unfold slot; by rewrite Ei). replace (S i - 1)%nat with i by lia.
    destruct (l.*2 !! i) as [c|] eqn:Ec.
    2: { apply index_Some, lookup_lt_Some in Ei. apply lookup_ge_None in Ec. rewrite length_fmap in Ei. rewrite length_fmap in Ec. lia. }
    unfold idx. rewrite (Hch b i c) by (done || left). cbn [mbind res_bind]. rewrite IH; [done|done|].
    intros b' i' c' Hb' Hi' Hc'. rewrite list_lookup_insert_ne; [apply (Hch b'); [by right|done|done]|].
    intros ->. apply index_Some in Ei, Hi'. rewrite Ei in Hi'. injection Hi' as ->. done.
  - rewrite IH; [done|done|]. intros b' i' c' Hb'. apply Hch. by right.
Qed.

Lemma add48_shape p l cj b c :
  NoDup l.*1 → b ∉ l.*1 → (length l + length cj = 48)%nat →
  ∃ node', add48 p (slot l <$> all_bytes) ((Some <$> l.*2) ++ cj) (length l) b c = Ok node' ∧ shape node' p (l ++ [(b, c)]).
Proof.
  intros Hn Hb Hc. unfold add48. destruct (slot_snoc l b c Hb) as [Hs1 Hs2]. destruct (Nat.ltb_spec (length l) 48) as [Hl|Hl].
  - eexists. split; [done|]. destruct cj as [|c0 cj]; [cbn in Hc; lia|]. cbn in Hc.
    rewrite (table_insert _ (slot (l ++ [(b, c)])) b); [|rewrite Hs1; lia|intros b' Hb'; by rewrite Hs2].
    replace (length l) with (length (Some <$> l.*2)) at 1 by by rewrite !length_fmap. rewrite fill_next, <-(snoc_kids l b c).
    replace (length l + 1)%nat with (length (l ++ [(b, c)])) by by rewrite length_app. constructor. rewrite length_app; cbn; lia.
  - rewrite fill256_spec; [|apply NoDup_all_bytes|].
    + cbn [mbind res_bind]. eexists. split; [done|].
      rewrite (table_insert _ (λ b', assoc b' (l ++ [(b, c)])) b); [constructor|by rewrite assoc_snoc, decide_True|].
      intros b' Hb'. by rewrite assoc_snoc, decide_False.
    + intros b' i c' _ Hi Hc'. rewrite lookup_app_l by (rewrite !length_fmap, <-(length_fmap snd); by eapply lookup_lt_Some).
      by rewrite list_lookup_fmap, Hc'.
Qed.

Lemma add256_shape p l n m b c : b ∉ l.*1 →
  shape (Inner256 p (<[Byte.to_nat b := Some c]> ((λ b, assoc b l) <$> all_bytes)) m) p (l ++ [(b, c)]) ∧
  shape (Inner256 p ((λ b, assoc b l) <$> all_bytes) n) p l.
Proof.
  intros Hb. split; [|constructor]. rewrite (table_insert _ (λ b', assoc b' (l ++ [(b, c)])) b); [constructor|by rewrite assoc_snoc, decide_True|].
  intros b' Hb'. by rewrite assoc_snoc, decide_False.
Qed.

(** * One step of an insertion *)

Lemma take_child_spec l cj i b c :
  index b l.*1 = Some i → assoc b l = Some c → take_child ((Some <$> l.*2) ++ cj) i = Ok c.
Proof.
  intros Hi Hc. rewrite assoc_index, Hi in Hc. cbn in Hc. unfold take_child.
  by rewrite lookup_app_l, list_lookup_fmap, Hc by (rewrite !length_fmap, <-(length_fmap snd); by eapply lookup_lt_Some).
Qed.

(** The key goes on below an existing child. *)
Lemma insert_below node p l key depth b c fuel value n c' n' :
  shape node p l → NoDup l.*1 → matches p key depth = true → key !! (depth + length p)%nat = Some b → assoc b l = Some c →
  insert_rec fuel c key (depth + length p + 1) value n = Ok (c', n') →
  ∃ node', insert_rec (S fuel) node key depth value n = Ok (node', n') ∧ shape node' p (update b c' l).
Proof.
  intros Hs Hn Hm Hb Hc Hrec. destruct (assoc_index_Some _ _ _ Hc) as (i & Hi & _).
  destruct Hs; cbn [insert_rec]; unfold insert4, insert16, insert48, insert256; rewrite Hm; cbn [negb]; rewrite Hb.
  - rewrite find_byte_keys, Hi. cbn [mbind res_bind].
    rewrite (take_child_spec l cj i b c Hi Hc). cbn [mbind res_bind]. rewrite Hrec. cbn [mbind res_bind].
    eexists. split; [done|]. by apply slotted_4.
  - rewrite find_byte_keys, Hi. cbn [mbind res_bind].
    rewrite (take_child_spec l cj i b c Hi Hc). cbn [mbind res_bind]. rewrite Hrec. cbn [mbind res_bind].
    eexists. split; [done|]. by apply slotted_16.
  - rewrite byte_table_lookup. cbn [mbind res_bind]. assert (slot l b = S i) as -> by (unfold slot; by rewrite Hi).
    cbn [Nat.eqb negb]. replace (S i - 1)%nat with i by lia.
    rewrite (take_child_spec l cj i b c Hi Hc). cbn [mbind res_bind]. rewrite Hrec. cbn [mbind res_bind].
    eexists. split; [done|]. by apply slotted_48.
  - rewrite (byte_table_lookup (λ b, assoc b l)). cbn [mbind res_bind]. rewrite Hc, Hrec. cbn [mbind res_bind].
    eexists. split; [done|]. apply (slotted_256 p l n0 b), (assoc_in b c l Hc).
Qed.

(** The key starts a new branch: the node gets a new leaf, growing if it is full. *)
Lemma insert_branch node p l key depth b fuel value n :
  shape node p l → NoDup l.*1 → matches p key depth = true → key !! (depth + length p)%nat = Some b → assoc b l = None →
  ∃ node', insert_rec (S fuel) node key depth value n = Ok (node', u64_add n 1) ∧ shape node' p (l ++ [(b, new_leaf key value)]).
Proof.
  intros Hs Hn Hm Hb Hc. assert (Hin : b ∉ l.*1) by by apply assoc_None. assert (Hi : index b l.*1 = None) by by apply index_None.
  destruct Hs; cbn [insert_rec]; unfold insert4, insert16, insert48, insert256; rewrite Hm; cbn [negb]; rewrite Hb.
  - rewrite find_byte_keys, Hi. cbn [mbind res_bind].
    eexists. split; [done|]. by apply add4_shape.
  - rewrite find_byte_keys, Hi. cbn [mbind res_bind].
    eexists. split; [done|]. by apply add16_shape.
  - rewrite byte_table_lookup. cbn [mbind res_bind]. assert (slot l b = 0%nat) as -> by (unfold slot; by rewrite Hi).
    cbn [Nat.eqb negb]. destruct (add48_shape p l cj b (new_leaf key value) Hn Hin) as (node' & -> & Hs'); [done|]. cbn [mbind res_bind]. eauto.
  - rewrite (byte_table_lookup (λ b, assoc b l)). cbn [mbind res_bind]. rewrite Hc. eexists. split; [done|].
    by apply (add256_shape p l 0).
Qed.

(** The key ends inside the node: nothing happens. *)
Lemma insert_ends node p l key depth fuel value n :
  shape node p l → matches p key depth = true → key !! (depth + length p)%nat = None →
  insert_rec (S fuel) node key depth value n = Ok (node, n).
Proof. intros Hs Hm Hb. destruct Hs; cbn [insert_rec]; unfold insert4, insert16, insert48, insert256; rewrite Hm; cbn [negb]; by rewrite Hb. Qed.

(** The key leaves the node's prefix. *)
Lemma insert_splits node p l key depth fuel value n :
  shape node p l → matches p key depth = false →
  insert_rec (S fuel) node key depth value n = split_prefix (λ q, with_prefix q node) p key depth value n.
Proof. intros Hs Hm. destruct Hs; cbn [insert_rec]; unfold insert4, insert16, insert48, insert256; rewrite Hm; done. Qed.

Lemma shape_pair4 p b1 c1 b2 c2 : shape (pair4 p b1 c1 b2 c2) p [(b1, c1); (b2, c2)].
Proof. apply (shape4 p [(b1, c1); (b2, c2)] [Byte.x00; Byte.x00] [None; None]); done. Qed.

(** * The leaves below a node *)

Definition walk_kids (prefix : bytes) :=
  fix walk (n : nat) (cs : list (option Node)) {struct cs} : list (string * Z) :=
    match cs, n with
    | Some c :: cs', S n' => collect_prefix c prefix ++ walk n' cs'
    | None :: cs', S n' => walk n' cs'
    | _, _ => []
    end.

Lemma collect_inner node prefix :
  collect_prefix node prefix = match node with
    | Leaf key value dead => emit prefix key value dead
    | Inner4 _ _ children n | Inner16 _ _ children n | Inner48 _ _ children n => walk_kids prefix n children
    | Inner256 _ children _ => walk_kids prefix (length children) children
    end.
Proof. by destruct node. Qed.

Lemma walk_slots prefix l cj :
  walk_kids prefix (length l) ((Some <$> l.*2) ++ cj) = concat ((λ c, collect_prefix c prefix) <$> l.*2).
Proof. induction l as [|[b c] l IH]; cbn; [by destruct cj as [|[]]|]. by rewrite IH. Qed.

Lemma walk_all prefix cs : walk_kids prefix (length cs) cs = concat ((λ c, collect_prefix c prefix) <$> omap id cs).
Proof. induction cs as [|[c|] cs IH]; cbn; [done|by rewrite IH|done]. Qed.

(** All children of a table, in any order of the list. *)
Lemma omap_table l bs : NoDup l.*1 → NoDup bs → l.*1 ⊆ bs → omap id ((λ b, assoc b l) <$> bs) ≡ₚ l.*2.
Proof.
  revert bs. induction l as [|[b c] l IH]; intros bs Hn Hbs Hsub.
  - clear. induction bs as [|b bs IH]; [done|]. done.
  - rewrite fmap_cons in Hn. apply NoDup_cons in Hn as [Hb Hn]. cbn [fst] in Hb. rewrite fmap_cons in Hsub. rewrite fmap_cons. cbn [fst snd] in Hsub |- *. destruct (list_elem_of_split bs b) as (b1 & b2 & ->); [apply Hsub; left|].
    apply NoDup_app in Hbs as (Hb1 & Hdis & [Hb2 Hn2]%NoDup_cons).
    assert (Hext : ∀ bs', b ∉ bs' → (λ b', assoc b' ((b, c) :: l)) <$> bs' = ((λ b', assoc b' l) <$> bs' : list (option Node))).
    { intros bs' Hb'. apply list_fmap_ext. intros i x Hx. cbn. rewrite decide_False; [done|]. intros ->. apply Hb'. by eapply list_elem_of_lookup_2. }
    rewrite fmap_app, fmap_cons, omap_app, !Hext; [|done|intros Hin; apply (Hdis b Hin); left]. cbn. rewrite decide_True by done. cbn.
    rewrite <-Permutation_middle, <-omap_app, <-fmap_app. f_equiv. apply IH; [done| |].
    + apply NoDup_app. split_and!; [done|intros x Hx Hx'; apply (Hdis x Hx); by right|done].
    + intros x Hx. specialize (Hsub x). assert (x ≠ b) by by intros ->. set_solver.
Qed.

Lemma concat_perm {A} (l1 l2 : list (list A)) : l1 ≡ₚ l2 → concat l1 ≡ₚ concat l2.
Proof. induction 1; cbn; [done|by f_equiv|by rewrite !(assoc_L (++)), (comm (++) x)|by etrans]. Qed.

Lemma collect_shape node p l prefix :
  shape node p l → NoDup l.*1 → collect_prefix node prefix ≡ₚ concat ((λ c, collect_prefix c prefix) <$> l.*2).
Proof.
  intros Hs Hn. rewrite collect_inner. destruct Hs; [by rewrite walk_slots..|].
  rewrite walk_all. apply concat_perm, fmap_Permutation, omap_table; [done|apply NoDup_all_bytes|].
  intros b _. eapply list_elem_of_lookup_2, lookup_all_bytes.
Qed.

(** The vector search of a 16-way node is the plain search: on the same array of keys
    both return the index of the first of the [n] keys in use that equals the byte,
    whatever the unused slots contain. *)
Theorem vector_search_agrees avx2 keys n b :
  length keys = 16%nat → (n ≤ 16)%nat → find_child_byte16 avx2 keys n b = Ok (index b (take n keys)).
Proof.
  intros Hk Hn. rewrite <-(take_drop n keys) at 1. rewrite <-(find16_spec avx2 (take n keys) (drop n keys) b);
    rewrite length_take_le by lia; done.
Qed.

Lemma vector_search_agrees_witness :
  find_child_byte16 true (as_bytes "abcdefghijklmnop") 9 Byte.x65 = Ok (Some 4%nat) ∧
  find_child_byte16 false (as_bytes "abcdefghijklmnop") 9 Byte.x65 = Ok (Some 4%nat).
Proof.
  split; rewrite (vector_search_agrees _ (as_bytes "abcdefghijklmnop") 9 Byte.x65); [reflexivity|reflexivity|lia|reflexivity|reflexivity|lia].
Defined.
