(* ===== verification/ArtThm.v ===== *)
(** The radix tree as a map from strings to values. With keys of which none is a proper
    prefix of another it is one; with arbitrary keys it may forget, but what [get]
    returns is never stale. *)

From S2P Require Import Prelude Art ArtShape.
Import Art.

(** * Prefixes of byte strings *)

Lemma starts_with_spec p l : starts_with p l = true ↔ p `prefix_of` l.
Proof.
  unfold starts_with. rewrite bool_decide_eq_true. split.
  - intros <-. apply prefix_take.
  - intros [r ->]. apply take_app_length.
Qed.

Lemma matches_spec pre p r : matches pre (p ++ r) (length p) = true ↔ pre `prefix_of` r.
Proof.
  unfold matches. rewrite andb_true_iff, Nat.leb_le, drop_app_length, starts_with_spec, length_app. split; [by intros [_ ?]|].
  intros Hp. split; [|done]. apply prefix_length in Hp. lia.
Qed.

Lemma common_prefix_spec a b : ∃ c a' b', a = c ++ a' ∧ b = c ++ b' ∧ common_prefix a b = length c ∧
  match a', b' with x :: _, y :: _ => x ≠ y | _, _ => True end.
Proof.
  revert b. induction a as [|x a IH]; intros b; [by exists [], [], b|]. destruct b as [|y b]; [by exists [], (x :: a), []|].
  cbn [common_prefix]. case_decide as Hxy; [|by exists [], (x :: a), (y :: b)].
  destruct (IH b) as (c & a' & b' & -> & -> & Hc & Hd). exists (x :: c), a', b'. subst y. by rewrite Hc.
Qed.

Lemma lookup_end {A} (p r : list A) : (p ++ r) !! length p = head r.
Proof. rewrite lookup_app_r by lia. rewrite Nat.sub_diag. by destruct r. Qed.

Lemma path_head (p pre r k : bytes) b : k = p ++ pre ++ r → p ++ pre ++ [b] `prefix_of` k → head r = Some b.
Proof.
  intros -> H. rewrite !(assoc_L (++)) in H. apply prefix_app_inv in H. destruct r as [|x r]; [by apply prefix_nil_inv in H|].
  apply prefix_cons_inv_1 in H. by subst x.
Qed.

(** * Which keys a tree holds *)

(** Every leaf lies on the path of its key, below the node at path [p]; the keys are in
    [K]. When [orphans] are allowed, a leaf may also sit under byte 0 right after the
    end of its key, where the code files a key that is a proper prefix of another. *)
Section Wf.
Context (K : bytes → Prop) (orphans : bool).

Inductive wf : bytes → Node → Prop :=
  | wf_leaf p k v d : K k → p `prefix_of` k ∨ (orphans = true ∧ p = k ++ [Byte.x00]) → wf p (Leaf k v d)
  | wf_inner p node pre l : shape node pre l → NoDup l.*1 → l ≠ [] →
      (∀ b c, assoc b l = Some c → wf (p ++ pre ++ [b]) c) → wf p node.

(** No NUL byte in a key, or no key a proper prefix of another. *)
Definition good_keys : Prop :=
  ∀ k1 k2, K k1 → K k2 → if orphans then Byte.x00 ∉ k1 else k1 `prefix_of` k2 → k1 = k2.

End Wf.

(** [holds p node k v]: the live leaf [k, v] can be reached from [node] along [k]. *)
Inductive holds : bytes → Node → bytes → Z → Prop :=
  | holds_leaf p k v : p `prefix_of` k → holds p (Leaf k v false) k v
  | holds_inner p node b c k v : get_child false node b = Ok (Some c) →
      holds (p ++ node_prefix node ++ [b]) c k v → holds p node k v.

Lemma holds_prefix p node k v : holds p node k v → p `prefix_of` k.
Proof. induction 1 as [|p node b c k v _ _ IH]; [done|]. etrans; [|done]. by apply prefix_app_r. Qed.

Lemma holds_shape p node pre l k v :
  shape node pre l → holds p node k v ↔ ∃ b c, assoc b l = Some c ∧ holds (p ++ pre ++ [b]) c k v.
Proof.
  intros Hs. pose proof (shape_prefix _ _ _ Hs) as Hp. split.
  - intros Hh. inversion Hh as [|p' nd b c k' v' Hg Hc]; subst; [inversion Hs|]. rewrite (get_child_spec false _ _ _ b Hs) in Hg.
    injection Hg as Hg. eauto.
  - intros (b & c & Ha & Hc). econstructor; [by rewrite (get_child_spec false _ _ _ b Hs), Ha|]. by rewrite Hp.
Qed.

Lemma holds_leaf_iff p lk old d k v : holds p (Leaf lk old d) k v ↔ d = false ∧ k = lk ∧ v = old ∧ p `prefix_of` lk.
Proof. split; [intros H; by inversion H; subst|]. intros (-> & -> & -> & Hp). by constructor. Qed.

(** ** Lookup *)

Lemma get_loop_inner node pre l fuel avx2 k depth :
  shape node pre l → get_loop (S fuel) avx2 node k depth =
    rest ← slice_from depth k;
    if negb (starts_with pre rest) then Ok None else
    match k !! (depth + length pre)%nat with
    | None => Ok None
    | Some b => match assoc b l with None => Ok None | Some child => get_loop fuel avx2 child k (depth + length pre + 1) end
    end.
Proof.
  intros Hs. assert (Hg : ∀ b, get_child avx2 node b = Ok (assoc b l)) by (intros b; by eapply get_child_spec).
  assert (Hp : node_prefix node = pre) by by eapply shape_prefix.
  destruct Hs; cbn [get_loop]; rewrite ?Hp; (destruct (slice_from _ _); [|done..]); cbn [mbind res_bind];
    (destruct (negb _); [done|]); cbn [node_prefix]; (destruct (k !! _); [|done]); by rewrite Hg.
Qed.

Lemma slice_from_app (p r : bytes) : slice_from (length p) (p ++ r) = Ok r.
Proof. unfold slice_from. rewrite length_app. destruct (Nat.ltb_spec (length p + length r) (length p)); [lia|]. by rewrite drop_app_length. Qed.

Lemma lookup_past (p pre r : bytes) : (p ++ pre ++ r) !! (length p + length pre)%nat = head r.
Proof. by rewrite (assoc_L (++)), <-length_app, lookup_end. Qed.

Lemma get_loop_spec K o p node k avx2 fuel :
  wf K o p node → p `prefix_of` k → (length k - length p < fuel)%nat →
  ∃ r, get_loop fuel avx2 node k (length p) = Ok r ∧ ∀ v, r = Some v ↔ holds p node k v.
Proof.
  intros Hwf. revert fuel. induction Hwf as [p lk old d HK Hlk|p node pre l Hs Hn Hne Hc IH]; intros fuel Hpk Hf.
  - destruct fuel as [|fuel]; [lia|]. eexists. split; [done|]. intros v. rewrite holds_leaf_iff.
    destruct d; cbn; [naive_solver|]. case_bool_decide; naive_solver.
  - destruct fuel as [|fuel]; [lia|]. rewrite (get_loop_inner _ _ _ _ _ _ _ Hs). destruct Hpk as [r ->]. rewrite slice_from_app. cbn [mbind res_bind].
    destruct (starts_with pre r) eqn:Hst; cbn [negb].
    + apply starts_with_spec in Hst as [r' ->]. rewrite lookup_past. destruct r' as [|b r']; cbn [head].
      * eexists. split; [done|]. intros v. split; [done|]. rewrite (holds_shape _ _ _ _ _ _ Hs). intros (b & c & _ & Hh%holds_prefix).
        apply prefix_length in Hh. rewrite !length_app in Hh. cbn in Hh. lia.
      * destruct (assoc b l) as [c|] eqn:Ea.
        -- destruct (IH b c Ea fuel) as (r & Hr & Hiff); [exists r'; by rewrite <-!app_assoc|rewrite !length_app in Hf; rewrite !length_app; cbn [length] in *; lia|].
           exists r. rewrite !length_app in Hr. cbn [length] in Hr. rewrite <-Nat.add_assoc, Hr. split; [done|].
           intros v. rewrite Hiff, (holds_shape _ _ _ _ _ _ Hs). split; [by eauto|]. intros (b' & c' & Ha' & Hh).
           pose proof (path_head p pre (b :: r') _ b' eq_refl (holds_prefix _ _ _ _ Hh)) as [= ->]. congruence.
        -- eexists. split; [done|]. intros v. split; [done|]. rewrite (holds_shape _ _ _ _ _ _ Hs). intros (b' & c' & Ha' & Hh).
           pose proof (path_head p pre (b :: r') _ b' eq_refl (holds_prefix _ _ _ _ Hh)) as [= ->]. congruence.
    + eexists. split; [done|]. intros v. split; [done|]. rewrite (holds_shape _ _ _ _ _ _ Hs). intros (b & c & _ & Hh%holds_prefix).
      apply prefix_app_inv in Hh. assert (pre `prefix_of` r) as Hp by (etrans; [by apply prefix_app_r|done]).
      apply starts_with_spec in Hp. congruence.
Qed.

(** ** Insertion *)

Lemma pair_holds p pre b1 c1 b2 c2 k v :
  b1 ≠ b2 → holds p (pair4 pre b1 c1 b2 c2) k v ↔ holds (p ++ pre ++ [b1]) c1 k v ∨ holds (p ++ pre ++ [b2]) c2 k v.
Proof.
  intros Hb. rewrite (holds_shape _ _ _ _ _ _ (shape_pair4 pre b1 c1 b2 c2)). cbn [assoc]. split.
  - intros (b & c & Ha & Hh). repeat case_decide; simplify_eq; eauto.
  - intros [Hh|Hh]; [exists b1, c1; by rewrite decide_True|]. exists b2, c2. by rewrite decide_False, decide_True.
Qed.

Section Insert.
Context (K : bytes → Prop) (o : bool) (HK : good_keys K o).

Lemma pair_wf p pre b1 c1 b2 c2 :
  b1 ≠ b2 → wf K o (p ++ pre ++ [b1]) c1 → wf K o (p ++ pre ++ [b2]) c2 → wf K o p (pair4 pre b1 c1 b2 c2).
Proof.
  intros Hb H1 H2. eapply wf_inner; [apply shape_pair4|cbn; rewrite NoDup_cons, list_elem_of_singleton; split; [done|apply NoDup_singleton]|done|].
  intros b c. cbn. repeat case_decide; intros; simplify_eq; done.
Qed.

(** The same children one level further down: the prefix of the old node is cut. *)
Lemma cut_prefix p node sh nb q l k v :
  shape node (sh ++ nb :: q) l → NoDup l.*1 → l ≠ [] → (∀ b c, assoc b l = Some c → wf K o (p ++ (sh ++ nb :: q) ++ [b]) c) →
  wf K o (p ++ sh ++ [nb]) (with_prefix q node) ∧ (holds (p ++ sh ++ [nb]) (with_prefix q node) k v ↔ holds p node k v).
Proof.
  intros Hs Hn Hne Hc. pose proof (shape_with_prefix _ _ q _ Hs) as Hq.
  assert (Hpath : ∀ b, (p ++ sh ++ [nb]) ++ q ++ [b] = p ++ (sh ++ nb :: q) ++ [b]) by (intros b; by rewrite <-!app_assoc).
  split.
  - eapply wf_inner; [done..|]. intros b c Ha. rewrite Hpath. by apply Hc.
  - rewrite (holds_shape _ _ _ _ _ _ Hq), (holds_shape _ _ _ _ _ _ Hs). by setoid_rewrite Hpath.
Qed.

Lemma wf_some_key p node : o = false → wf K o p node → ∃ k, K k ∧ p `prefix_of` k.
Proof.
  intros Ho. induction 1 as [p k v d Hk Hp|p node pre l Hs Hn Hne Hc IH]; [exists k; destruct Hp as [?|[? _]]; [done|congruence]|].
  destruct l as [|[b c] l]; [done|]. destruct (IH b c) as (k & Hk & Hp); [cbn; by rewrite decide_True|]. exists k. split; [done|].
  etrans; [|done]. by apply prefix_app_r.
Qed.

(** What an insertion at path [p] has to achieve. *)
Definition inserted (p : bytes) (node : Node) (k : bytes) (v : Z) (node' : Node) : Prop :=
  wf K o p node' ∧
  (∀ k' v', holds p node' k' v' → (k' = k ∧ v' = v) ∨ (k' ≠ k ∧ holds p node k' v')) ∧
  (o = false → ∀ k' v', (k' = k ∧ v' = v) ∨ (k' ≠ k ∧ holds p node k' v') → holds p node' k' v').

Lemma leaf_wf p k v : K k → p `prefix_of` k → wf K o p (new_leaf k v).
Proof. intros. constructor; [done|by left]. Qed.

(** Where two different keys part, or one of them ends. *)
Lemma parting p c a' b' (k lk : bytes) :
  K k → K lk → lk ≠ k → lk = p ++ c ++ a' → k = p ++ c ++ b' → match a', b' with x :: _, y :: _ => x ≠ y | _, _ => True end →
  default Byte.x00 (head a') ≠ default Byte.x00 (head b') ∧
  (o = false → p ++ c ++ [default Byte.x00 (head a')] `prefix_of` lk ∧ p ++ c ++ [default Byte.x00 (head b')] `prefix_of` k) ∧
  (p ++ c ++ [default Byte.x00 (head a')] `prefix_of` lk ∨ (o = true ∧ p ++ c ++ [default Byte.x00 (head a')] = lk ++ [Byte.x00])) ∧
  (p ++ c ++ [default Byte.x00 (head b')] `prefix_of` k ∨ (o = true ∧ p ++ c ++ [default Byte.x00 (head b')] = k ++ [Byte.x00])).
Proof.
  intros Hk Hlk Hne Ea Eb Hd. pose proof (HK lk k Hlk Hk) as H1. pose proof (HK k lk Hk Hlk) as H2.
  assert (Hpre : ∀ x (r : bytes), p ++ c ++ [x] `prefix_of` p ++ c ++ x :: r).
  { intros x r. do 2 apply prefix_app. exists r. done. }
  assert (Hx : ∀ x (r s : bytes), o = true → s = p ++ c ++ x :: r → Byte.x00 ∉ s → x ≠ Byte.x00).
  { intros x r s _ -> Hs ->. apply Hs. rewrite !elem_of_app. right; right. left. }
  destruct a' as [|x a'], b' as [|y b']; cbn [head default from_option] in *.
  - congruence.
  - destruct o; [|exfalso; apply Hne, H1; rewrite Ea, Eb; do 2 apply prefix_app; apply prefix_nil].
    split_and!; [intros ?; by eapply (Hx y b')|done|right; by rewrite Ea, app_nil_r, <-app_assoc|left; rewrite Eb; apply Hpre].
  - destruct o; [|exfalso; apply Hne; symmetry; apply H2; rewrite Ea, Eb; do 2 apply prefix_app; apply prefix_nil].
    split_and!; [by eapply (Hx x a')|done|left; rewrite Ea; apply Hpre|right; by rewrite Eb, app_nil_r, <-app_assoc].
  - rewrite Ea, Eb. split_and!; [done|split; apply Hpre|left; apply Hpre|left; apply Hpre].
Qed.

Lemma insert_leaf_spec p lk old d k v n :
  wf K o p (Leaf lk old d) → K k → p `prefix_of` k →
  ∃ node' n', insert_leaf lk old d k (length p) v n = Ok (node', n') ∧ inserted p (Leaf lk old d) k v node'.
Proof.
  intros Hwf Hk Hpk. inversion Hwf as [? ? ? ? Hlk Hp|? ? ? ? Hs]; subst; [|inversion Hs]. unfold insert_leaf.
  case_bool_decide as Heq.
  { eexists _, _. split; [done|]. split; [by apply leaf_wf|]. unfold new_leaf. setoid_rewrite holds_leaf_iff. subst lk. naive_solver. }
  destruct d.
  { eexists _, _. split; [done|]. split; [by apply leaf_wf|]. unfold new_leaf. setoid_rewrite holds_leaf_iff. naive_solver. }
  assert (Hpl : p `prefix_of` lk).
  { destruct Hp as [?|[Ho ->]]; [done|]. exfalso. pose proof (HK k k Hk Hk) as Hz. rewrite Ho in Hz. apply Hz. destruct Hpk as [r ->].
    rewrite !elem_of_app. left; right. left. }
  destruct Hpl as [a Ea], Hpk as [b Eb]. rewrite !Nat.min_l by (subst; rewrite length_app; lia).
  assert (drop (length p) lk = a) as -> by (subst; apply drop_app_length). assert (drop (length p) k = b) as -> by (subst; apply drop_app_length).
  destruct (common_prefix_spec a b) as (c & a' & b' & -> & -> & -> & Hd).
  destruct (parting p c a' b' k lk Hk Hlk Heq Ea Eb Hd) as (Hb & Hof & Hl1 & Hl2).
  destruct (Nat.ltb_spec (length lk) (length p + length c)) as [Hlt|_]; [subst lk; rewrite !length_app in Hlt; lia|].
  rewrite (take_app_length c). assert (lk !! (length p + length c)%nat = head a') as -> by (subst; apply lookup_past).
  assert (k !! (length p + length c)%nat = head b') as -> by (subst; apply lookup_past).
  eexists _, _. split; [done|]. split; [|split].
  - apply pair_wf; [done|by constructor..].
  - intros k' v'. rewrite pair_holds by done. unfold new_leaf. rewrite !holds_leaf_iff. intros [(_ & -> & -> & _)|(_ & -> & -> & _)]; [right|by left].
    split_and!; [done..|]. rewrite Ea. by apply prefix_app_r.
  - intros Ho k' v'. destruct (Hof Ho). rewrite pair_holds by done. unfold new_leaf. rewrite !holds_leaf_iff. naive_solver.
Qed.

(** The key ends inside an inner node: with prefix-free keys this cannot happen, and
    otherwise nothing changes and the key is not there. *)
Lemma inserted_ends p node pre l k v r :
  shape node pre l → wf K o p node → (∀ b c, assoc b l = Some c → wf K o (p ++ pre ++ [b]) c) → l ≠ [] →
  K k → k = p ++ r → r `prefix_of` pre → inserted p node k v node.
Proof.
  intros Hs Hwf Hc Hne Hk Ek Hr.
  assert (Hno : ∀ b k', p ++ pre ++ [b] `prefix_of` k' → k' ≠ k).
  { intros b k' Hp ->. apply prefix_length in Hp. rewrite Ek in Hp. rewrite !length_app in Hp. cbn in Hp. apply prefix_length in Hr. lia. }
  split; [done|split].
  - intros k' v' Hh. right. split; [|done]. apply (holds_shape _ _ _ _ _ _ Hs) in Hh as (b & c & _ & Hh%holds_prefix). by eapply Hno.
  - intros Ho. exfalso. destruct l as [|[b c] l]; [done|]. destruct (wf_some_key _ c Ho (Hc b c ltac:(cbn; by rewrite decide_True))) as (k' & Hk' & Hp).
    apply (Hno b k' Hp). symmetry. pose proof (HK k k' Hk Hk') as Hpf. rewrite Ho in Hpf. apply Hpf. rewrite Ek. etrans; [|exact Hp].
    apply prefix_app. etrans; [exact Hr|]. by exists [b].
Qed.

Lemma inserted_below p node pre l b c k v c' node' r :
  shape node pre l → NoDup l.*1 → l ≠ [] → (∀ b c, assoc b l = Some c → wf K o (p ++ pre ++ [b]) c) → assoc b l = Some c →
  k = p ++ pre ++ b :: r → inserted (p ++ pre ++ [b]) c k v c' → shape node' pre (update b c' l) → inserted p node k v node'.
Proof.
  intros Hs Hn Hne Hc Ha Ek (Hw & H1 & H2) Hs'. assert (Hb : b ∈ l.*1) by by eapply assoc_in.
  assert (Hother : ∀ b' k' c0 v', b' ≠ b → holds (p ++ pre ++ [b']) c0 k' v' → k' ≠ k).
  { intros b' k' c0 v' Hb' Hh%holds_prefix ->. pose proof (path_head p pre (b :: r) _ b' Ek Hh) as [= ?]. congruence. }
  split; [|split].
  - eapply wf_inner; [exact Hs'|by rewrite update_keys|destruct l; by unfold update|]. intros b' c0. rewrite assoc_update by done.
    case_decide; [intros [= <-]; by subst|apply Hc].
  - intros k' v'. rewrite (holds_shape _ _ _ _ _ _ Hs'), (holds_shape _ _ _ _ _ _ Hs). intros (b' & c0 & Ha' & Hh). rewrite assoc_update in Ha' by done.
    case_decide; [|right; split; [by eapply Hother|eauto]]. injection Ha' as <-. subst b'. destruct (H1 _ _ Hh) as [?|[? ?]]; [by left|right; eauto].
  - intros Ho k' v' Hor. rewrite (holds_shape _ _ _ _ _ _ Hs'). rewrite (holds_shape _ _ _ _ _ _ Hs) in Hor. setoid_rewrite assoc_update; [|done].
    destruct Hor as [[-> ->]|(Hk' & b' & c0 & Ha' & Hh)].
    + exists b, c'. rewrite decide_True by done. split; [done|]. apply H2; auto.
    + destruct (decide (b' = b)) as [->|Hb']; [|exists b', c0; by rewrite decide_False]. rewrite Ha in Ha'. injection Ha' as <-.
      exists b, c'. rewrite decide_True by done. split; [done|]. apply H2; auto.
Qed.

Lemma inserted_branch p node pre l b k v node' r :
  shape node pre l → NoDup l.*1 → l ≠ [] → (∀ b c, assoc b l = Some c → wf K o (p ++ pre ++ [b]) c) → assoc b l = None →
  K k → k = p ++ pre ++ b :: r → shape node' pre (l ++ [(b, new_leaf k v)]) → inserted p node k v node'.
Proof.
  intros Hs Hn Hne Hc Ha Hk Ek Hs'. assert (Hb : b ∉ l.*1) by by apply assoc_None.
  assert (Hpath : p ++ pre ++ [b] `prefix_of` k) by (rewrite Ek; do 2 apply prefix_app; by exists r).
  split; [|split].
  - eapply wf_inner; [exact Hs'| |by destruct l|].
    + rewrite snoc_keys. apply NoDup_app. split_and!; [done|intros x Hx ->%list_elem_of_singleton; done|apply NoDup_singleton].
    + intros b' c0. rewrite assoc_snoc by done. case_decide; [intros [= <-]; subst; by apply leaf_wf|apply Hc].
  - intros k' v'. rewrite (holds_shape _ _ _ _ _ _ Hs'), (holds_shape _ _ _ _ _ _ Hs). intros (b' & c0 & Ha' & Hh). rewrite assoc_snoc in Ha' by done.
    case_decide as Hd; [injection Ha' as <-; left; by apply holds_leaf_iff in Hh as (_ & -> & -> & _)|]. right. split; [|by eauto].
    intros ->. pose proof (path_head p pre (b :: r) _ b' Ek (holds_prefix _ _ _ _ Hh)) as [= ?]. congruence.
  - intros _ k' v' Hor. rewrite (holds_shape _ _ _ _ _ _ Hs'). rewrite (holds_shape _ _ _ _ _ _ Hs) in Hor. setoid_rewrite assoc_snoc; [|done].
    destruct Hor as [[-> ->]|(Hk' & b' & c0 & Ha' & Hh)].
    + exists b, (new_leaf k v). rewrite decide_True by done. split; [done|]. by constructor.
    + exists b', c0. rewrite decide_False; [done|]. intros ->. congruence.
Qed.

Lemma inserted_split p node sh nb q l k kb r v :
  shape node (sh ++ nb :: q) l → NoDup l.*1 → l ≠ [] → (∀ b c, assoc b l = Some c → wf K o (p ++ (sh ++ nb :: q) ++ [b]) c) →
  K k → k = p ++ sh ++ kb :: r → nb ≠ kb → inserted p node k v (pair4 sh nb (with_prefix q node) kb (new_leaf k v)).
Proof.
  intros Hs Hn Hne Hc Hk Ek Hb. assert (Hpath : p ++ sh ++ [kb] `prefix_of` k) by (rewrite Ek; do 2 apply prefix_app; by exists r).
  assert (Hcut := λ k' v', cut_prefix p node sh nb q l k' v' Hs Hn Hne Hc).
  split; [|split].
  - apply pair_wf; [done|by apply (Hcut k v)|by apply leaf_wf].
  - intros k' v'. rewrite pair_holds by done. intros [Hh|(_ & -> & -> & _)%holds_leaf_iff]; [right|by left]. split; [|by apply Hcut].
    intros ->. pose proof (path_head p sh (kb :: r) _ nb Ek (holds_prefix _ _ _ _ Hh)) as [= ?]. congruence.
  - intros _ k' v' [[-> ->]|[_ Hh]]; rewrite pair_holds by done; [right; by constructor|left; by apply Hcut].
Qed.

Lemma insert_rec_spec p node k v n fuel :
  wf K o p node → K k → p `prefix_of` k → (length k - length p < fuel)%nat →
  ∃ node' n', insert_rec fuel node k (length p) v n = Ok (node', n') ∧ inserted p node k v node'.
Proof.
  intros Hwf Hk. revert fuel. induction Hwf as [p lk old d HKl Hlk|p node pre l Hs Hn Hne Hc IH]; intros [|fuel] Hpk Hf; [lia| |lia|].
  { apply insert_leaf_spec; [by constructor|done..]. }
  assert (Hwf : wf K o p node) by (by eapply wf_inner). destruct Hpk as [r Ek].
  destruct (matches pre k (length p)) eqn:Hm.
  - pose proof Hm as Hm'. rewrite Ek in Hm'. apply matches_spec in Hm' as [r' ->]. destruct r' as [|b r'].
    + rewrite (insert_ends _ _ _ _ _ _ _ _ Hs Hm) by (rewrite Ek; apply lookup_past). eexists _, _. split; [done|].
      eapply inserted_ends; [done..|]. by rewrite app_nil_r.
    + assert (Hb : k !! (length p + length pre)%nat = Some b) by (rewrite Ek; apply lookup_past). destruct (assoc b l) as [c|] eqn:Ea.
      * destruct (IH b c Ea fuel) as (c' & n' & Hr & Hin).
        { exists r'. by rewrite Ek, <-!app_assoc. }
        { rewrite Ek in Hf |- *. rewrite !length_app in Hf. rewrite !length_app. cbn [length] in *. lia. }
        rewrite !length_app in Hr. cbn [length] in Hr. rewrite Nat.add_assoc in Hr.
        destruct (insert_below _ _ _ _ _ _ _ _ _ _ _ _ Hs Hn Hm Hb Ea Hr) as (node' & -> & Hs'). eexists _, _. split; [done|].
        eapply inserted_below; done.
      * destruct (insert_branch node pre l k (length p) b fuel v n Hs Hn Hm Hb Ea) as (node' & -> & Hs'). eexists _, _. split; [done|].
        eapply inserted_branch; done.
  - rewrite (insert_splits _ _ _ _ _ _ _ _ Hs Hm). unfold split_prefix.
    assert (slice_from (length p) k = Ok r) as -> by (rewrite Ek; apply slice_from_app). cbn [mbind res_bind].
    destruct (common_prefix_spec pre r) as (sh & q & r' & -> & -> & -> & Hd). rewrite !lookup_end. destruct q as [|nb q], r' as [|kb r']; cbn [head].
    + exfalso. apply not_true_iff_false in Hm. apply Hm. rewrite Ek. by apply matches_spec.
    + exfalso. apply not_true_iff_false in Hm. apply Hm. rewrite Ek. apply matches_spec. rewrite app_nil_r. by apply prefix_app_r.
    + eexists _, _. split; [done|]. replace (with_prefix (sh ++ nb :: q) node) with node by by destruct Hs.
      eapply inserted_ends; [done..|]. rewrite app_nil_r. by apply prefix_app_r.
    + eexists _, _. split; [done|]. rewrite (take_app_length sh). replace (drop (length sh + 1) (sh ++ nb :: q)) with q
        by (rewrite <-drop_drop, drop_app_length; done). eapply inserted_split; done.
Qed.

End Insert.

(** ** Deletion *)

Lemma delete_rec_inner node pre l fuel k depth n :
  shape node pre l → (depth ≤ length k)%nat → delete_rec (S fuel) node k depth n =
    if negb (starts_with pre (drop depth k)) then Ok (false, node, n) else
    match k !! (depth + length pre)%nat with
    | None => Ok (false, node, n)
    | Some b =>
        o ← delete_child node b;
        match o with
        | None => Ok (false, node, n)
        | Some (i, child) =>
            '(r, c, n') ← delete_rec fuel child k (depth + length pre + 1) n;
            Ok (r, set_child node i c, n')
        end
    end.
Proof. intros Hs Hd. destruct Hs; cbn [delete_rec node_prefix]; by rewrite Nat.min_l. Qed.

Definition deleted K o (p : bytes) (node : Node) (k : bytes) (r : bool) (node' : Node) : Prop :=
  wf K o p node' ∧ (∀ k' v', holds p node' k' v' ↔ k' ≠ k ∧ holds p node k' v') ∧ (r = true ↔ ∃ v, holds p node k v).

Lemma deleted_absent K o p node k : wf K o p node → (∀ v, ¬ holds p node k v) → deleted K o p node k false node.
Proof. intros Hw Hno. split; [done|]. split; [intros k' v'; split; [intros Hh; split; [intros ->; by eapply Hno|done]|by intros [_ ?]]|]. naive_solver. Qed.

Lemma delete_rec_spec K o p node k n fuel :
  wf K o p node → p `prefix_of` k → (length k - length p < fuel)%nat →
  ∃ r node' n', delete_rec fuel node k (length p) n = Ok (r, node', n') ∧ deleted K o p node k r node'.
Proof.
  intros Hwf. revert fuel. induction Hwf as [p lk old d HK Hlk|p node pre l Hs Hn Hne Hc IH]; intros [|fuel] Hpk Hf; [lia| |lia|].
  - cbn [delete_rec]. assert (Hw : ∀ d, wf K o p (Leaf lk old d)) by (intros; by constructor).
    destruct d; cbn [negb andb]; [|case_bool_decide as Heq]; eexists _, _, _; (split; [done|]).
    + apply deleted_absent; [done|]. by intros v (? & _)%holds_leaf_iff.
    + split; [done|]. setoid_rewrite holds_leaf_iff. subst lk. naive_solver.
    + apply deleted_absent; [done|]. intros v (_ & ? & _)%holds_leaf_iff. done.
  - assert (Hwf : wf K o p node) by (by eapply wf_inner). destruct Hpk as [r Ek].
    rewrite (delete_rec_inner _ _ _ _ _ _ _ Hs) by (rewrite Ek, length_app; lia).
    assert (drop (length p) k = r) as -> by (rewrite Ek; apply drop_app_length).
    assert (Hin : ∀ v, holds p node k v → ∃ b c, assoc b l = Some c ∧ p ++ pre ++ [b] `prefix_of` k ∧ holds (p ++ pre ++ [b]) c k v).
    { intros v (b & c & Ha & Hh)%(holds_shape _ _ _ _ _ _ Hs). pose proof (holds_prefix _ _ _ _ Hh). eauto 6. }
    destruct (starts_with pre r) eqn:Hst; cbn [negb].
    + apply starts_with_spec in Hst as [r' ->]. assert (k !! (length p + length pre)%nat = head r') as -> by (rewrite Ek; apply lookup_past).
      destruct r' as [|b r']; cbn [head].
      { eexists _, _, _. split; [done|]. apply deleted_absent; [done|]. intros v (b & c & _ & Hp & _)%Hin. by pose proof (path_head p pre [] _ b Ek Hp). }
      pose proof (delete_child_spec _ _ _ b Hs Hn) as Hdc. destruct (assoc b l) as [c|] eqn:Ea.
      * destruct Hdc as (i & -> & Hsl). cbn [mbind res_bind]. destruct (IH b c Ea fuel) as (x & c' & n' & Hr & Hw & Hh & Hx).
        { exists r'. by rewrite Ek, <-!app_assoc. }
        { rewrite Ek in Hf |- *. rewrite !length_app in Hf. rewrite !length_app. cbn [length] in *. lia. }
        rewrite !length_app in Hr. cbn [length] in Hr. rewrite Nat.add_assoc in Hr. rewrite Hr. cbn [mbind res_bind].
        eexists _, _, _. split; [done|]. specialize (Hsl c'). assert (Hb : b ∈ l.*1) by by eapply assoc_in. split; [|split].
        -- eapply wf_inner; [exact Hsl|by rewrite update_keys|destruct l; by unfold update|]. intros b' c0. rewrite assoc_update by done.
           case_decide; [intros [= <-]; by subst|apply Hc].
        -- intros k' v'. rewrite (holds_shape _ _ _ _ _ _ Hsl), (holds_shape _ _ _ _ _ _ Hs). setoid_rewrite assoc_update; [|done]. split.
           ++ intros (b' & c0 & Ha' & Hh'). case_decide as Hd; [|split; [|by eauto]].
              { injection Ha' as <-. subst b'. apply Hh in Hh' as [? ?]. eauto. }
              intros ->. pose proof (path_head p pre (b :: r') _ b' Ek (holds_prefix _ _ _ _ Hh')) as [= ?]. congruence.
           ++ intros (Hk' & b' & c0 & Ha' & Hh'). destruct (decide (b' = b)) as [->|Hd]; [|exists b', c0; by rewrite decide_False].
              exists b, c'. rewrite decide_True by done. split; [done|]. apply Hh. rewrite Ha' in Ea. injection Ea as ->. done.
        -- rewrite Hx. setoid_rewrite (holds_shape _ _ _ _ _ _ Hs). split; [intros (v & ?); eauto|]. intros (v & b' & c0 & Ha' & Hh').
           pose proof (path_head p pre (b :: r') _ b' Ek (holds_prefix _ _ _ _ Hh')) as [= ->]. rewrite Ha' in Ea. injection Ea as ->. eauto.
      * rewrite Hdc. cbn [mbind res_bind]. eexists _, _, _. split; [done|]. apply deleted_absent; [done|]. intros v (b' & c & Ha' & Hp & _)%Hin.
        pose proof (path_head p pre (b :: r') _ b' Ek Hp) as [= ->]. congruence.
    + eexists _, _, _. split; [done|]. apply deleted_absent; [done|]. intros v (b & c & _ & Hp & _)%Hin. rewrite Ek in Hp.
      apply prefix_app_inv in Hp. assert (pre `prefix_of` r) as Hq by (etrans; [by apply prefix_app_r|done]).
      apply starts_with_spec in Hq. congruence.
Qed.

(** ** Scan *)

Lemma elem_concat_kids (f : Node → list (string * Z)) l x :
  NoDup l.*1 → x ∈ concat (f <$> l.*2) ↔ ∃ b c, assoc b l = Some c ∧ x ∈ f c.
Proof.
  intros Hn. rewrite list_elem_of_In, in_concat. split.
  - intros (xs & Hxs & Hx). apply list_elem_of_In in Hxs, Hx. apply list_elem_of_fmap in Hxs as (c & -> & Hc). apply list_elem_of_fmap in Hc as ([b c'] & -> & Hin).
    exists b, c'. split; [by apply elem_assoc|done].
  - intros (b & c & Ha & Hx). exists (f c). rewrite <-!list_elem_of_In. split; [|done]. apply list_elem_of_fmap. exists c. split; [done|].
    apply list_elem_of_fmap. exists (b, c). split; [done|]. by apply assoc_elem.
Qed.

Lemma NoDup_concat_kids (f : Node → list (string * Z)) (Q : Byte.byte → string → Prop) l :
  NoDup l.*1 → (∀ b c, (b, c) ∈ l → NoDup (f c).*1 ∧ ∀ s, s ∈ (f c).*1 → Q b s) → (∀ b b' s, Q b s → Q b' s → b = b') →
  NoDup (concat (f <$> l.*2)).*1.
Proof.
  intros Hn Hf HQ. induction l as [|[b c] l IH]; [constructor|]. cbn. rewrite fmap_app. apply NoDup_cons in Hn as [Hb Hn].
  destruct (Hf b c ltac:(left)) as [Hc HQc]. apply NoDup_app. split_and!; [done| |apply IH; [done|intros; apply Hf; by right]].
  intros s Hs Hs'. apply list_elem_of_fmap in Hs' as ([s' v] & -> & Hin). apply elem_concat_kids in Hin as (b' & c' & Ha & Hin); [|done]. apply assoc_elem in Ha.
  assert (b = b') as <-.
  { eapply HQ; [by apply HQc|]. apply (Hf b' c'); [by right|]. apply list_elem_of_fmap. by exists (s', v). }
  apply Hb, list_elem_of_fmap. by exists (b, c').
Qed.

Lemma collect_spec K p node prefix :
  (∀ k, K k → utf8_valid k = true) → wf K false p node →
  NoDup (collect_prefix node prefix).*1 ∧
  ∀ s v, (s, v) ∈ collect_prefix node prefix ↔ holds p node (as_bytes s) v ∧ prefix `prefix_of` as_bytes s.
Proof.
  intros HU. induction 1 as [p k v d Hk Hp|p node pre l Hs Hn Hne Hc IH].
  - destruct Hp as [Hp|[? _]]; [|done]. cbn [collect_prefix]. unfold emit. setoid_rewrite holds_leaf_iff.
    destruct d; cbn [negb andb]; [split; [constructor|]; intros s v'; rewrite elem_of_nil; naive_solver|].
    unfold from_utf8. rewrite (HU k Hk). destruct (starts_with prefix k) eqn:Hst.
    + split; [apply NoDup_singleton|]. intros s v'. rewrite list_elem_of_singleton. apply starts_with_spec in Hst. split.
      * intros [= -> ->]. by rewrite String.list_byte_of_string_of_list_byte.
      * intros [(_ & <- & -> & _) _]. by rewrite String.string_of_list_byte_of_string.
    + split; [constructor|]. intros s v'. rewrite elem_of_nil. split; [done|]. intros [(_ & <- & _) Hpr].
      apply starts_with_spec in Hpr. congruence.
  - pose proof (collect_shape _ _ _ prefix Hs Hn) as Hperm.
    assert (Hin : ∀ x, x ∈ collect_prefix node prefix ↔ ∃ b c, assoc b l = Some c ∧ x ∈ collect_prefix c prefix).
    { intros x. rewrite Hperm. by apply elem_concat_kids. }
    split.
    + rewrite Hperm. apply (NoDup_concat_kids _ (λ b s, p ++ pre ++ [b] `prefix_of` as_bytes s)); [done| |].
      * intros b c Hbc%elem_assoc; [|done]. destruct (IH b c Hbc) as [Hnd Hiff]. split; [done|].
        intros s ([s' v] & -> & Hs')%list_elem_of_fmap. apply Hiff in Hs' as [Hh _]. by apply holds_prefix in Hh.
      * intros b b' s [r1 E1] H2. rewrite <-!app_assoc in E1. pose proof (path_head p pre ([b] ++ r1) _ b' E1 H2) as [= ?]. done.
    + intros s v. rewrite Hin, (holds_shape _ _ _ _ _ _ Hs). split.
      * intros (b & c & Ha & Hx). destruct (IH b c Ha) as [_ Hiff]. apply Hiff in Hx as [Hh Hpr]. eauto 6.
      * intros ((b & c & Ha & Hh) & Hpr). destruct (IH b c Ha) as [_ Hiff]. exists b, c. split; [done|]. by apply Hiff.
Qed.

(** A reachable entry is listed, whatever else is. *)
Lemma collect_complete K o p node prefix s v :
  (∀ k, K k → utf8_valid k = true) → wf K o p node → holds p node (as_bytes s) v → prefix `prefix_of` as_bytes s → (s, v) ∈ collect_prefix node prefix.
Proof.
  intros HU Hw. induction Hw as [p k v' d Hk Hp|p node pre l Hs Hn Hne Hc IH]; intros Hh Hpr.
  - apply holds_leaf_iff in Hh as (-> & <- & <- & _). cbn [collect_prefix]. unfold emit, from_utf8. rewrite (HU _ Hk). apply starts_with_spec in Hpr as ->.
    cbn [negb andb]. rewrite String.string_of_list_byte_of_string. left.
  - rewrite (collect_shape _ _ _ prefix Hs Hn). apply elem_concat_kids; [done|]. apply (holds_shape _ _ _ _ _ _ Hs) in Hh as (b & c & Ha & Hh).
    exists b, c. split; [done|]. by apply (IH b c Ha).
Qed.

(** * What is stored anywhere in a tree *)

Definition kids (node : Node) : list (option Node) :=
  match node with Leaf _ _ _ => [] | Inner4 _ _ cs _ | Inner16 _ _ cs _ | Inner48 _ _ cs _ | Inner256 _ cs _ => cs end.

(** [stores node k v]: some live leaf below [node], reachable or not, has [k, v]. *)
Inductive stores : Node → bytes → Z → Prop :=
  | stores_leaf k v : stores (Leaf k v false) k v
  | stores_kid node c k v : Some c ∈ kids node → stores c k v → stores node k v.

Lemma stores_inv node k v : stores node k v → node = Leaf k v false ∨ ∃ c, Some c ∈ kids node ∧ stores c k v.
Proof. destruct 1; eauto. Qed.

Lemma stores_new key value k v : stores (new_leaf key value) k v → k = key ∧ v = value.
Proof. intros [[= -> ->]|(c & Hc%elem_of_nil & _)]%stores_inv; done. Qed.

Definition inner (node : Node) : bool := match node with Leaf _ _ _ => false | _ => true end.

(** Everything below [node'] was below [node] or is the new entry. *)
Definition adds (key : bytes) (value : Z) (node node' : Node) : Prop :=
  ∀ k v, stores node' k v → (k = key ∧ v = value) ∨ stores node k v.

Lemma adds_kids key value node node' : inner node' = true →
  (∀ c, Some c ∈ kids node' → Some c ∈ kids node ∨ adds key value node c) → adds key value node node'.
Proof.
  intros Hne H k v [->|(c & Hc & Hs)]%stores_inv; [done|]. destruct (H c Hc) as [Hin|Ha]; [right; by eapply stores_kid|by apply Ha].
Qed.

Lemma adds_leaf key value node : adds key value node (new_leaf key value).
Proof. intros k v Hs%stores_new. by left. Qed.

Lemma adds_same key value node node' : kids node' = kids node → inner node' = true → adds key value node node'.
Proof. intros E Hne. apply adds_kids; [done|]. intros c. rewrite E. by left. Qed.

Lemma adds_child key value node child c : Some child ∈ kids node → adds key value child c → adds key value node c.
Proof. intros Hin Ha k v [Hs|Hs]%Ha; [by left|right; by eapply stores_kid]. Qed.

Lemma adds_pair4 key value node pre b1 c1 b2 c2 : adds key value node c1 → adds key value node c2 → adds key value node (pair4 pre b1 c1 b2 c2).
Proof. intros H1 H2. apply adds_kids; [done|]. intros c Hc. right. cbn in Hc. set_unfold in Hc. naive_solver. Qed.

Lemma elem_insert_Some (cs : list (option Node)) i c x : Some x ∈ <[i := Some c]> cs → x = c ∨ Some x ∈ cs.
Proof. intros [j Hj]%list_elem_of_lookup. apply list_lookup_insert_Some in Hj as [(_ & [= <-] & _)|[_ Hj]]; [by left|right; by eapply list_elem_of_lookup_2]. Qed.

Lemma elem_insert_None (cs : list (option Node)) i x : Some x ∈ <[i := None]> cs → Some x ∈ cs.
Proof. intros [j Hj]%list_elem_of_lookup. apply list_lookup_insert_Some in Hj as [(_ & [=] & _)|[_ Hj]]. by eapply list_elem_of_lookup_2. Qed.

Lemma adds_insert key value node node' i c : kids node' = <[i := Some c]> (kids node) → inner node' = true → adds key value node c → adds key value node node'.
Proof.
  intros E Hne Ha. apply adds_kids; [done|]. intros x. rewrite E. intros [->|Hx]%elem_insert_Some; [by right|by left].
Qed.

Lemma fill256_kids ks : ∀ cs cs', fill256 ks cs = Ok cs' → ∀ x, Some x ∈ cs' → Some x ∈ cs.
Proof.
  induction ks as [|i ks IH]; intros cs cs' E x Hx; cbn [fill256] in E; [injection E as <-; by apply elem_of_nil in Hx|].
  destruct (i =? 0)%nat.
  - destruct (fill256 ks cs) as [cs1| | |] eqn:E1; try done. injection E as <-. apply elem_of_cons in Hx as [[=]|Hx]. by apply (IH cs cs1).
  - unfold idx in E. destruct (cs !! (i - 1)%nat) as [c|] eqn:Ec; [|done]. cbn [mbind res_bind] in E.
    destruct (fill256 ks _) as [cs1| | |] eqn:E1; try done. injection E as <-. apply elem_of_cons in Hx as [<-|Hx]; [by eapply list_elem_of_lookup_2|].
    eapply elem_insert_None, IH; [exact E1|exact Hx].
Qed.

Lemma take_child_in cs i c : take_child cs i = Ok c → Some c ∈ cs.
Proof. unfold take_child. destruct (cs !! i) as [[x|]|] eqn:E; try done. intros [= <-]. by eapply list_elem_of_lookup_2. Qed.

Lemma split_prefix_adds node mk np key depth value n node' n' :
  (∀ p, kids (mk p) = kids node) → (∀ p, inner (mk p) = true) → split_prefix mk np key depth value n = Ok (node', n') → adds key value node node'.
Proof.
  intros Hmk Hne E. assert (Hm : ∀ p, adds key value node (mk p)) by (intros p; by apply adds_same).
  unfold split_prefix in E. destruct (slice_from depth key) as [kr| | |]; try done. cbn [mbind res_bind] in E.
  repeat case_match; injection E as <- _; try apply Hm. apply adds_pair4; [apply Hm|apply adds_leaf].
Qed.

Lemma insert_leaf_adds lk old d key depth value n node' n' : insert_leaf lk old d key depth value n = Ok (node', n') → adds key value (Leaf lk old d) node'.
Proof.
  unfold insert_leaf. destruct (bool_decide _); [intros [= <- _]; apply adds_leaf|]. destruct d; [intros [= <- _]; apply adds_leaf|].
  destruct (_ <? _)%nat; [done|]. intros [= <- _]. apply adds_pair4; [|apply adds_leaf]. intros k v Hs. by right.
Qed.

Lemma elem_grow (cs : list (option Node)) n leaf m x : Some x ∈ take n cs ++ Some leaf :: replicate m None → x = leaf ∨ Some x ∈ cs.
Proof.
  intros [Hx|[[= <-]|Hx]%elem_of_cons]%elem_of_app; [right|by left|by apply elem_of_replicate in Hx as [[=] _]]. by apply (subseteq_take n cs).
Qed.

Lemma adds_grow key value node node' n m : inner node' = true →
  kids node' = take n (kids node) ++ Some (new_leaf key value) :: replicate m None → adds key value node node'.
Proof. intros Hi E. apply adds_kids; [done|]. intros x. rewrite E. intros [->|Hx]%elem_grow; [right; apply adds_leaf|by left]. Qed.

Lemma insert_rec_adds fuel : ∀ node key depth value n node' n',
  insert_rec fuel node key depth value n = Ok (node', n') → adds key value node node'.
Proof.
  induction fuel as [|fuel IH]; intros node key depth value n node' n' E; [done|].
  assert (Hdown : ∀ cs i d (mk : list (option Node) → Node), kids node = cs → (∀ cs', kids (mk cs') = cs') → (∀ cs', inner (mk cs') = true) →
    (child ← take_child cs i; '(c, l) ← insert_rec fuel child key d value n; Ok (mk (<[i := Some c]> cs), l)) = Ok (node', n') → adds key value node node').
  { intros cs i d mk <- Hk Hi Em. destruct (take_child (kids node) i) as [child| | |] eqn:Et; try done. cbn [mbind res_bind] in Em.
    destruct (insert_rec fuel child key d value n) as [[c l]| | |] eqn:Er; try done. injection Em as <- _.
    apply (adds_insert _ _ _ _ i c); [apply Hk|apply Hi|]. eapply adds_child; [by eapply take_child_in|by eapply IH]. }
  destruct node as [lk old d|pre ks cs m|pre ks cs m|pre ks cs m|pre cs m]; cbn [insert_rec] in E; [by eapply insert_leaf_adds|..].
  - unfold insert4 in E. destruct (negb _); [by eapply split_prefix_adds; [..|exact E]|]. destruct (key !! _) as [b|]; [|injection E as <- _; by apply adds_same].
    destruct (find_byte ks m b 0) as [[i|]| | |]; try done; cbn [mbind res_bind] in E; [by eapply (Hdown cs i _ (λ cs, Inner4 pre ks cs m))|].
    injection E as <- _. unfold add4. destruct (_ <? _)%nat; [eapply adds_insert; [reflexivity|done|apply adds_leaf]|by eapply (adds_grow _ _ _ _ 4 11)].
  - unfold insert16 in E. destruct (negb _); [by eapply split_prefix_adds; [..|exact E]|]. destruct (key !! _) as [b|]; [|injection E as <- _; by apply adds_same].
    destruct (find_byte ks m b 0) as [[i|]| | |]; try done; cbn [mbind res_bind] in E; [by eapply (Hdown cs i _ (λ cs, Inner16 pre ks cs m))|].
    injection E as <- _. unfold add16. destruct (_ <? _)%nat; [eapply adds_insert; [reflexivity|done|apply adds_leaf]|by eapply (adds_grow _ _ _ _ 16 31)].
  - unfold insert48 in E. destruct (negb _); [by eapply split_prefix_adds; [..|exact E]|]. destruct (key !! _) as [b|]; [|injection E as <- _; by apply adds_same].
    destruct (idx (Byte.to_nat b) ks) as [i| | |]; try done; cbn [mbind res_bind] in E. destruct (negb _); [by eapply (Hdown cs (i - 1)%nat _ (λ cs, Inner48 pre ks cs m))|].
    unfold add48 in E. destruct (_ <? _)%nat; cbn [mbind res_bind] in E; [injection E as <- _; eapply adds_insert; [reflexivity|done|apply adds_leaf]|].
    destruct (fill256 ks cs) as [c256| | |] eqn:Ef; try done. injection E as <- _. apply adds_kids; [done|]. cbn [kids].
    intros x [->|Hx]%elem_insert_Some; [right; apply adds_leaf|left; by eapply fill256_kids].
  - unfold insert256 in E. destruct (negb _); [by eapply split_prefix_adds; [..|exact E]|]. destruct (key !! _) as [b|]; [|injection E as <- _; by apply adds_same].
    unfold idx in E. destruct (cs !! Byte.to_nat b) as [[child|]|] eqn:Ec; try done; cbn [mbind res_bind] in E.
    + apply (Hdown cs (Byte.to_nat b) (depth + length pre + 1)%nat (λ cs, Inner256 pre cs m)); try done. unfold take_child. rewrite Ec. exact E.
    + injection E as <- _. eapply adds_insert; [reflexivity|done|apply adds_leaf].
Qed.

Lemma delete_child_in node b i c : delete_child node b = Ok (Some (i, c)) → Some c ∈ kids node.
Proof.
  assert (Hf : ∀ ks cs n j, find_slot ks cs n b j = Ok (Some (i, c)) → Some c ∈ cs).
  { intros ks cs n. revert ks cs. induction n as [|n IH]; intros [|k ks] [|o cs] j; try done. cbn [find_slot].
    destruct (if decide (k = b) then o else None) as [x|] eqn:E; [|intros Hx; right; by eapply IH].
    intros [= <- <-]. destruct (decide (k = b)); [subst o; left|done]. }
  destruct node as [| | |pre ks cs m|pre cs m]; cbn [delete_child kids]; [done|apply Hf..| |].
  - destruct (idx _ ks) as [j| | |]; try done. cbn [mbind res_bind]. destruct (j =? 0)%nat; [done|]. unfold idx. destruct (cs !! (j - 1)%nat) as [[x|]|] eqn:E; try done.
    cbn. intros [= _ <-]. by eapply list_elem_of_lookup_2.
  - unfold idx. destruct (cs !! Byte.to_nat b) as [[x|]|] eqn:E; try done. cbn. intros [= _ <-]. by eapply list_elem_of_lookup_2.
Qed.

Lemma set_child_kids node i c x : Some x ∈ kids (set_child node i c) → x = c ∨ Some x ∈ kids node.
Proof. destruct node; cbn [set_child kids]; [by right|apply elem_insert_Some..]. Qed.

Lemma delete_rec_stores fuel : ∀ node key depth n r node' n',
  delete_rec fuel node key depth n = Ok (r, node', n') → ∀ k v, stores node' k v → stores node k v.
Proof.
  induction fuel as [|fuel IH]; intros node key depth n r node' n' E k v; [done|].
  destruct (inner node) eqn:Ei.
  - assert (Hd : delete_rec (S fuel) node key depth n =
      (if negb (starts_with (node_prefix node) (drop (Nat.min depth (length key)) key)) then Ok (false, node, n) else
       match key !! (depth + length (node_prefix node))%nat with
       | None => Ok (false, node, n)
       | Some b => o ← delete_child node b;
           match o with
           | None => Ok (false, node, n)
           | Some (i, child) => '(r, c, l') ← delete_rec fuel child key (depth + length (node_prefix node) + 1) n; Ok (r, set_child node i c, l')
           end
       end)) by by destruct node.
    rewrite Hd in E. clear Hd. destruct (negb _); [by injection E as _ <- _|]. destruct (key !! _) as [b|]; [|by injection E as _ <- _].
    destruct (delete_child node b) as [[[i child]|]| | |] eqn:Ec; try done; cbn [mbind res_bind] in E; [|by injection E as _ <- _].
    destruct (delete_rec fuel child key _ n) as [[[r1 c] l1]| | |] eqn:Er; try done. injection E as _ <- _.
    intros [Hl|(x & Hx & Hs)]%stores_inv; [by destruct node|]. apply set_child_kids in Hx as [->|Hx]; [|by eapply stores_kid].
    eapply stores_kid; [by eapply delete_child_in|]. by eapply IH.
  - destruct node as [lk old d| | | |]; try done. cbn [delete_rec] in E. destruct (negb d && _); injection E as _ <- _; [|done].
    intros [[=]|(x & Hx%elem_of_nil & _)]%stores_inv. done.
Qed.

(** Induction over the children, which are in a list. *)
Lemma node_kids_ind (P : Node → Prop) :
  (∀ k v d, P (Leaf k v d)) → (∀ node, inner node = true → (∀ c, Some c ∈ kids node → P c) → P node) → ∀ node, P node.
Proof.
  intros HL HI. fix IH 1. intros [k v d|pre ks cs n|pre ks cs n|pre ks cs n|pre cs n]; [apply HL|..];
    (apply HI; [reflexivity|]; cbn [kids]; induction cs as [|o cs IHcs]; [clear IH; intros c Hc; by apply elem_of_nil in Hc|];
     assert (Ho : match o with Some x => P x | None => True end) by (destruct o as [x|]; [apply IH|exact I]);
     clear IH; intros c [<-|Hc]%elem_of_cons; [exact Ho|by apply IHcs]).
Qed.

Lemma walk_kids_in prefix x : ∀ cs n, x ∈ walk_kids prefix n cs → ∃ c, Some c ∈ cs ∧ x ∈ collect_prefix c prefix.
Proof.
  induction cs as [|[c|] cs IH]; intros [|n] Hin; cbn [walk_kids] in Hin; try by apply elem_of_nil in Hin.
  - apply elem_of_app in Hin as [Hin|Hin]; [exists c; split; [left|done]|]. destruct (IH n Hin) as (y & Hy & Hx). exists y. split; [by right|done].
  - destruct (IH n Hin) as (y & Hy & Hx). exists y. split; [by right|done].
Qed.

Lemma collect_stores prefix s v node : (s, v) ∈ collect_prefix node prefix → stores node (as_bytes s) v ∧ prefix `prefix_of` as_bytes s.
Proof.
  revert node. refine (node_kids_ind _ _ _).
  - intros k v' d. cbn [collect_prefix]. unfold emit. destruct d; cbn [negb andb]; [by intros ?%elem_of_nil|].
    destruct (starts_with prefix k) eqn:E; [|by intros ?%elem_of_nil]. apply starts_with_spec in E.
    destruct (from_utf8 k) as [s'|] eqn:Eu; [|by intros ?%elem_of_nil]. intros [= -> ->]%list_elem_of_singleton.
    rewrite (from_utf8_inv _ _ Eu). split; [constructor|done].
  - intros node Hi IH Hin. assert (Hk : ∃ c, Some c ∈ kids node ∧ (s, v) ∈ collect_prefix c prefix).
    { rewrite collect_inner in Hin. destruct node; [done|by eapply walk_kids_in..]. }
    destruct Hk as (c & Hc & Hx). destruct (IH c Hc Hx) as [Hs Hp]. split; [by eapply stores_kid|done].
Qed.

(** * The index as a map *)

Inductive op := OInsert (k : string) (v : Z) | ODelete (k : string) | OGet (k : string) | OScan (p : string).
Inductive reply := RDone | RDeleted (b : bool) | RValue (v : option Z) | RList (l : list (string * Z)).

Definition exec (avx2 : bool) (o : op) (t : ArtIndex) : res (reply * ArtIndex) :=
  match o with
  | OInsert k v => t' ← insert k v t; Ok (RDone, t')
  | ODelete k => '(b, t') ← delete k t; Ok (RDeleted b, t')
  | OGet k => r ← get avx2 k t; Ok (RValue r, t)
  | OScan p => Ok (RList (scan_prefix p t), t)
  end.

Fixpoint run (avx2 : bool) (l : list op) (t : ArtIndex) : res (list reply * ArtIndex) :=
  match l with
  | [] => Ok ([], t)
  | o :: l' => '(r, t') ← exec avx2 o t; '(rs, t2) ← run avx2 l' t'; Ok (r :: rs, t2)
  end.

Definition inserted_keys (l : list op) : list string := omap (λ o, match o with OInsert k _ => Some k | _ => None end) l.

(** What has been written. *)
Definition mstep (o : op) (m : gmap string Z) : gmap string Z :=
  match o with OInsert k v => <[k := v]> m | ODelete k => base.delete k m | _ => m end.

(** The exact reply. *)
Definition exact (o : op) (m : gmap string Z) (r : reply) : Prop :=
  match o with
  | OInsert _ _ => r = RDone
  | ODelete k => r = RDeleted (bool_decide (is_Some (m !! k)))
  | OGet k => r = RValue (m !! k)
  | OScan p => ∃ l, r = RList l ∧ NoDup l.*1 ∧ ∀ s v, (s, v) ∈ l ↔ m !! s = Some v ∧ as_bytes p `prefix_of` as_bytes s
  end.

Fixpoint replies_ok (P : op → gmap string Z → reply → Prop) (l : list op) (m : gmap string Z) (rs : list reply) : Prop :=
  match l, rs with
  | [], [] => True
  | o :: l', r :: rs' => P o m r ∧ replies_ok P l' (mstep o m) rs'
  | _, _ => False
  end.

(** The tree stands for (part of) the map. *)
Definition index_rep K (o : bool) (t : ArtIndex) (m : gmap string Z) : Prop :=
  match root t with
  | None => m = ∅
  | Some node => wf K o [] node ∧ (∀ s v, holds [] node (as_bytes s) v → m !! s = Some v) ∧
      (o = false → ∀ s v, m !! s = Some v → holds [] node (as_bytes s) v)
  end.

Section Run.
Context (K : bytes → Prop) (o : bool) (HK : good_keys K o).

Lemma insert_spec k v t m :
  K (as_bytes k) → index_rep K o t m → ∃ t', insert k v t = Ok t' ∧ index_rep K o t' (<[k := v]> m).
Proof.
  intros Hk Ht. unfold insert, index_rep in *. destruct (root t) as [node|].
  - destruct Ht as (Hw & H1 & H2). destruct (insert_rec_spec K o HK [] node (as_bytes k) v (len t) (S (length (as_bytes k))) Hw Hk) as (node' & n' & Hr & Hw' & H1' & H2');
      [apply prefix_nil|cbn; lia|]. cbn [length] in Hr. rewrite Hr. cbn [mbind res_bind]. eexists. split; [done|]. cbn [root]. split_and!; [done| |].
    + intros s x Hh. apply H1' in Hh as [[->%as_bytes_inj ->]|[Hne Hh]]; [apply lookup_insert_eq|].
      rewrite lookup_insert_ne; [by apply H1|]. by intros ->.
    + intros Ho s x Hs. apply (H2' Ho). destruct (decide (s = k)) as [->|Hne]; [rewrite lookup_insert_eq in Hs; injection Hs as ->; by left|].
      rewrite lookup_insert_ne in Hs by done. right. split; [by intros ?%as_bytes_inj|by apply H2].
  - subst m. eexists. split; [done|]. cbn [root]. split_and!; [by apply leaf_wf; [|apply prefix_nil]| |].
    + intros s x (_ & ->%as_bytes_inj & -> & _)%holds_leaf_iff. apply lookup_insert_eq.
    + intros _ s x [[<- <-]|[_ ?]]%lookup_insert_Some; [apply holds_leaf, prefix_nil|done].
Qed.

Lemma art_get_spec avx2 k t m :
  index_rep K o t m → ∃ r, get avx2 k t = Ok r ∧ (r = m !! k ∨ r = None) ∧ (o = false → r = m !! k).
Proof.
  intros Ht. unfold get, index_rep in *. destruct (root t) as [node|]; [|subst m; exists None; by auto].
  destruct Ht as (Hw & H1 & H2). destruct (get_loop_spec K o [] node (as_bytes k) avx2 (S (length (as_bytes k))) Hw) as (r & Hr & Hiff);
    [apply prefix_nil|cbn; lia|]. exists r. split; [done|]. split.
  - destruct r as [v|]; [left|by right]. symmetry. by apply H1, Hiff.
  - intros Ho. destruct (m !! k) as [v|] eqn:E; [by apply Hiff, H2|]. destruct r as [v|]; [|done].
    assert (m !! k = Some v) by by apply H1, Hiff. congruence.
Qed.

Lemma delete_spec k t m :
  index_rep K o t m → ∃ r t', delete k t = Ok (r, t') ∧ index_rep K o t' (base.delete k m) ∧
    (r = true → is_Some (m !! k)) ∧ (o = false → r = bool_decide (is_Some (m !! k))).
Proof.
  intros Ht. unfold delete, index_rep in *. destruct (root t) as [node|] eqn:Er.
  - destruct Ht as (Hw & H1 & H2). destruct (delete_rec_spec K o [] node (as_bytes k) (len t) (S (length (as_bytes k))) Hw) as (r & node' & n' & Hr & Hw' & Hh & Hx);
      [apply prefix_nil|cbn; lia|]. cbn [length] in Hr. rewrite Hr. cbn [mbind res_bind]. eexists _, _. split; [done|]. cbn [root].
    assert (Hrt : r = true → is_Some (m !! k)). { intros Ht. apply Hx in Ht as [v Hv]. exists v. by apply H1. }
    split_and!; [done| | |done|].
    + intros s x Hsx. apply Hh in Hsx as [Hne Hsx]. rewrite lookup_delete_ne; [by apply H1|]. by intros ->.
    + intros Ho s x Hsx%lookup_delete_Some. destruct Hsx as [Hne Hsx]. apply Hh. split; [by intros ?%as_bytes_inj|by apply H2].
    + intros Ho. case_bool_decide as Hs; [apply Hx; destruct Hs as [v Hv]; exists v; by apply H2|]. destruct r; [|done]. by destruct Hs; apply Hrt.
  - subst m. eexists _, _. split; [done|]. rewrite Er. split_and!; [apply delete_empty|done|]. intros _.
    rewrite bool_decide_false; [done|]. rewrite lookup_empty. by intros [? ?].
Qed.

Lemma scan_spec p t m :
  o = false → (∀ k, K k → utf8_valid k = true) → index_rep K o t m →
  NoDup (scan_prefix p t).*1 ∧ ∀ s v, (s, v) ∈ scan_prefix p t ↔ m !! s = Some v ∧ as_bytes p `prefix_of` as_bytes s.
Proof.
  intros Ho HU Ht. unfold scan_prefix, index_rep in *. destruct (root t) as [node|].
  - destruct Ht as (Hw & H1 & H2). rewrite Ho in Hw. destruct (collect_spec K [] node (as_bytes p) HU Hw) as [Hn Hiff]. split; [done|].
    intros s v. rewrite Hiff. naive_solver.
  - subst m. split; [constructor|]. intros s v. rewrite elem_of_nil. split; [done|]. by intros [? _].
Qed.

Lemma art_run_spec P avx2 l t m :
  (∀ o' m' t', (∀ k v, o' = OInsert k v → K (as_bytes k)) → index_rep K o t' m' →
    ∃ r t2, exec avx2 o' t' = Ok (r, t2) ∧ P o' m' r ∧ index_rep K o t2 (mstep o' m')) →
  (∀ k, k ∈ inserted_keys l → K (as_bytes k)) → index_rep K o t m →
  ∃ rs t', run avx2 l t = Ok (rs, t') ∧ replies_ok P l m rs.
Proof.
  intros HP. revert t m. induction l as [|o' l IH]; intros t m Hl Ht; [by exists [], t|]. cbn [run].
  destruct (HP o' m t) as (r & t2 & -> & Hr & Ht2); [intros k v ->; apply Hl; cbn; left|done|]. cbn [mbind res_bind].
  destruct (IH t2 (mstep o' m)) as (rs & t3 & -> & Hrs); [|done|].
  { intros k Hk. apply Hl. destruct o'; cbn; [by right|done..]. }
  cbn [mbind res_bind]. eexists _, _. split; [done|]. by split.
Qed.

End Run.

Definition prefix_free (ks : list string) : Prop :=
  Forall (λ k1, Forall (λ k2, as_bytes k1 `prefix_of` as_bytes k2 → k1 = k2) ks) ks.

(** C8: With keys of which none is a proper prefix of another, the index is a map. Over
    any sequence of insertions, deletions, lookups and prefix scans on an empty index,
    through every growth of a node from 4 to 256 children, no operation panics, every
    lookup and deletion answers as the map does, and a scan lists exactly the entries
    whose key has the prefix, each once. The vector and the scalar search agree. *)
Theorem art_is_a_map avx2 l :
  prefix_free (inserted_keys l) → Forall str_ok (inserted_keys l) →
  ∃ rs t, run avx2 l new = Ok (rs, t) ∧ replies_ok exact l ∅ rs.
Proof.
  intros Hpf Hok. set (K := λ k, ∃ s, s ∈ inserted_keys l ∧ k = as_bytes s).
  assert (HK : good_keys K false).
  { intros k1 k2 (s1 & H1 & ->) (s2 & H2 & ->) Hp. f_equal. unfold prefix_free in Hpf. rewrite Forall_forall in Hpf.
    specialize (Hpf s1 H1). rewrite Forall_forall in Hpf. by apply Hpf. }
  assert (HU : ∀ k, K k → utf8_valid k = true) by (intros k (s & Hs & ->); rewrite Forall_forall in Hok; by apply Hok).
  apply (art_run_spec K false exact avx2 l new ∅); [|intros k Hk; by exists k|done].
  intros o' m t Hk Ht. destruct o' as [k v|k|k|p]; cbn [exec exact mstep].
  - destruct (insert_spec K false HK k v t m) as (t' & -> & Ht'); [by eapply Hk|done|]. cbn. eauto.
  - destruct (delete_spec K false k t m Ht) as (r & t' & -> & Ht' & _ & Hr). cbn. eexists _, _. split_and!; [done|f_equal; by apply Hr|done].
  - destruct (art_get_spec K false avx2 k t m Ht) as (r & -> & _ & Hr). cbn. eexists _, _. split_and!; [done|f_equal; by apply Hr|done].
  - destruct (scan_spec K false HK p t m eq_refl HU Ht) as [Hn Hiff]. eexists _, _. split_and!; [done|by eexists|done].
Qed.

Definition demo_ops : list op :=
  [OInsert "md/L1/a" 1; OInsert "md/L1/b" 2; OInsert "hw/cpu" 3; OGet "md/L1/a"; ODelete "md/L1/b"; OScan "md/"; OGet "md/L1/b"].

Lemma art_is_a_map_witness :
  ∃ rs t, run true demo_ops new = Ok (rs, t) ∧ replies_ok exact demo_ops ∅ rs.
Proof. apply art_is_a_map; apply (bool_decide_unpack _); by vm_compute. Defined.

(** The pairs inserted so far. *)
Definition hstep (o : op) (hist : list (string * Z)) : list (string * Z) := match o with OInsert k v => (k, v) :: hist | _ => hist end.

(** A reply that may at worst say that a key is not there: [m] is what has been written and
    not deleted, [hist] what was ever inserted, [ans] what a lookup answers at that time. A
    scan lists only pairs that were inserted under that key with that value, with the prefix
    asked for, and every one that a lookup finds. *)
Definition honest (o : op) (hist : list (string * Z)) (m : gmap string Z) (ans : string → res (option Z)) (r : reply) : Prop :=
  match o with
  | OInsert _ _ => r = RDone
  | ODelete k => ∃ b, r = RDeleted b ∧ (b = true → is_Some (m !! k))
  | OGet k => r = RValue (m !! k) ∨ r = RValue None
  | OScan p => ∃ xs, r = RList xs ∧ (∀ s v, (s, v) ∈ xs → (s, v) ∈ hist ∧ as_bytes p `prefix_of` as_bytes s) ∧
                 ∀ s v, ans s = Ok (Some v) → as_bytes p `prefix_of` as_bytes s → (s, v) ∈ xs
  end.

Fixpoint replies_honest (avx2 : bool) (l : list op) (hist : list (string * Z)) (m : gmap string Z) (t : ArtIndex) (rs : list reply) : Prop :=
  match l, rs with
  | [], [] => True
  | o :: l', r :: rs' => honest o hist m (λ k, get avx2 k t) r ∧
      ∃ t', exec avx2 o t = Ok (r, t') ∧ replies_honest avx2 l' (hstep o hist) (mstep o m) t' rs'
  | _, _ => False
  end.

(** Every live leaf of the tree was inserted at some time. *)
Definition from_history (hist : list (string * Z)) (t : ArtIndex) : Prop :=
  ∀ node s v, root t = Some node → stores node (as_bytes s) v → (s, v) ∈ hist.

Lemma insert_history k v hist t t' : from_history hist t → insert k v t = Ok t' → from_history ((k, v) :: hist) t'.
Proof.
  intros Hh E node' s x Hr Hs. unfold insert in E. destruct (root t) as [node|] eqn:Et.
  - destruct (insert_rec _ node _ 0 v (len t)) as [[n1 l1]| | |] eqn:Er; try done. injection E as <-. injection Hr as ->.
    destruct (insert_rec_adds _ _ _ _ _ _ _ _ Er _ _ Hs) as [[->%as_bytes_inj ->]|Hold]; [left|right; by eapply Hh].
  - injection E as <-. injection Hr as <-. apply stores_new in Hs as [->%as_bytes_inj ->]. left.
Qed.

Lemma delete_history k hist t b t' : from_history hist t → delete k t = Ok (b, t') → from_history hist t'.
Proof.
  intros Hh E node' s x Hr Hs. unfold delete in E. destruct (root t) as [node|] eqn:Et; [|injection E as _ <-; congruence].
  destruct (delete_rec _ node _ 0 (len t)) as [[[r n1] l1]| | |] eqn:Er; try done. injection E as _ <-. injection Hr as ->.
  eapply Hh; [done|]. by eapply delete_rec_stores.
Qed.

Lemma scan_honest K hist p t m avx2 :
  (∀ k, K k → utf8_valid k = true) → index_rep K true t m → from_history hist t →
  honest (OScan p) hist m (λ k, get avx2 k t) (RList (scan_prefix p t)).
Proof.
  intros HU Ht Hh. exists (scan_prefix p t). split; [done|]. unfold scan_prefix, index_rep in *. destruct (root t) as [node|] eqn:Er.
  - destruct Ht as (Hw & _). split.
    + intros s v [Hs Hp]%collect_stores. split; [by eapply Hh|done].
    + intros s v Hg Hp. eapply collect_complete; [exact HU|exact Hw| |done]. unfold get in Hg. rewrite Er in Hg.
      destruct (get_loop_spec K true [] node (as_bytes s) avx2 (S (length (as_bytes s))) Hw) as (r & Hr & Hiff); [apply prefix_nil|cbn; lia|].
      cbn [length] in Hr. apply Hiff. congruence.
  - split; [by intros s v ?%elem_of_nil|]. intros s v Hg. unfold get in Hg. by rewrite Er in Hg.
Qed.

Lemma run_honest K avx2 l : ∀ t m hist, good_keys K true → (∀ k, K k → utf8_valid k = true) → (∀ k, k ∈ inserted_keys l → K (as_bytes k)) →
  index_rep K true t m → from_history hist t → ∃ rs t', run avx2 l t = Ok (rs, t') ∧ replies_honest avx2 l hist m t rs.
Proof.
  induction l as [|o l IH]; intros t m hist HK HU Hl Ht Hh; [by exists [], t|]. cbn [run].
  assert (Hl' : ∀ k, k ∈ inserted_keys l → K (as_bytes k)) by (intros k Hk; apply Hl; destruct o; cbn; [by right|done..]).
  assert (Hstep : ∃ r t2, exec avx2 o t = Ok (r, t2) ∧ honest o hist m (λ k, get avx2 k t) r ∧ index_rep K true t2 (mstep o m) ∧ from_history (hstep o hist) t2).
  { destruct o as [k v|k|k|p]; cbn [exec mstep hstep].
    - destruct (insert_spec K true HK k v t m) as (t' & E & Ht'); [apply Hl; cbn; left|done|]. rewrite E. cbn. eexists _, _. split_and!; [done..|by eapply insert_history].
    - destruct (delete_spec K true k t m Ht) as (r & t' & E & Ht' & Hr & _). rewrite E. cbn. eexists _, _. split_and!; [done|by eexists|done|by eapply delete_history].
    - destruct (art_get_spec K true avx2 k t m Ht) as (r & -> & Hr & _). cbn. eexists _, _. split_and!; [done| |done|done]. destruct Hr as [-> | ->]; auto.
    - eexists _, _. split_and!; [done|by eapply scan_honest|done|done]. }
  destruct Hstep as (r & t2 & E & Hr & Ht2 & Hh2). rewrite E. cbn [mbind res_bind].
  destruct (IH t2 _ _ HK HU Hl' Ht2 Hh2) as (rs & t3 & -> & Hrs). cbn [mbind res_bind]. eexists _, _. split; [done|]. cbn [replies_honest]. eauto.
Qed.

(** C31: Whatever the keys are, prefixes of each other or not, as long as they are UTF-8
    strings without a NUL byte, the index never panics and never makes an entry up: a
    lookup returns the value last written under that very key and not deleted since, or
    nothing; a deletion that reports success deleted an entry that was there; and a scan
    lists only pairs that were inserted before, with the prefix asked for, and all those
    that a lookup finds. A scan may still list a pair that has been overwritten or whose
    deletion failed ([art_loses_prefix_keys]). *)
Theorem art_never_lies avx2 l :
  Forall (λ k, str_ok k ∧ Byte.x00 ∉ as_bytes k) (inserted_keys l) →
  ∃ rs t, run avx2 l new = Ok (rs, t) ∧ replies_honest avx2 l [] ∅ new rs.
Proof.
  intros Hks. rewrite Forall_forall in Hks. apply (run_honest (λ k, utf8_valid k = true ∧ Byte.x00 ∉ k)); [by intros k1 k2 [_ H1] _|by intros k [? _]|apply Hks|done|done].
Qed.

Lemma art_never_lies_witness :
  ∃ rs t, run false [OInsert "k/1" 1; OInsert "k/10" 2; OGet "k/1"; OScan "k/"; ODelete "k/10"] new = Ok (rs, t) ∧
    replies_honest false [OInsert "k/1" 1; OInsert "k/10" 2; OGet "k/1"; OScan "k/"; ODelete "k/10"] [] ∅ new rs.
Proof. apply art_never_lies; apply (bool_decide_unpack _); by vm_compute. Defined.

(** A key that is a proper prefix of another is lost. After inserting ["k/1"] and then
    ["k/10"], looking up ["k/1"] finds nothing and deleting it fails, although a scan
    still lists it; inserting it again changes nothing, so the scan goes on reporting
    the old value. *)
Theorem art_loses_prefix_keys :
  run false [OInsert "k/1" 1; OInsert "k/10" 2; OGet "k/1"; OScan "k/"; ODelete "k/1"; OInsert "k/1" 7; OGet "k/1"; OScan "k/"] new =
  Ok ([RDone; RDone; RValue None; RList [("k/1", 1); ("k/10", 2)]; RDeleted false; RDone; RValue None; RList [("k/1", 1); ("k/10", 2)]],
      mkArt (Some (pair4 (as_bytes "k/1") Byte.x00 (new_leaf (as_bytes "k/1") 1) Byte.x30 (new_leaf (as_bytes "k/10") 2))) 2).
Proof. by vm_compute. Qed.

(** The entry count is not restored when a deleted key is inserted again. *)
Lemma art_len_drifts :
  match run false [OInsert "a" 1; OInsert "b" 2; ODelete "a"; OInsert "a" 3; OGet "a"; OGet "b"] new with
  | Ok (rs, t) => drop 4 rs = [RValue (Some 3); RValue (Some 2)] ∧ len t = 1
  | _ => False
  end.
Proof. by vm_compute. Qed.

(** A key that continues a stored key with a NUL byte makes the index panic. *)
Lemma art_nul_panics : run false [OInsert "a" 1; OInsert "ab" 2; OInsert (bytes_str [Byte.x61; Byte.x00]) 3] new = Panic.
Proof. by vm_compute. Qed.
