(* ===== verification/SgdbDoc.v ===== *)
(** Memory documents of the semantic graph database: the NMD1 format
    ([k_ai/src/sgdb/memory_doc.rs]) and the frames they travel in
    ([k_ai/src/sgdb/nsgdb_bridge.rs]). *)

From S2P Require Import Prelude.

Module Doc.

(** * Layers and clocks *)

Inductive MemoryLayer :=
  | L0Sensory | L1Working | L2EpisodicShort | L3EpisodicLong | L4Semantic | L5Procedural | L6Reserved | L7Identity.

#[global] Instance MemoryLayer_eq_dec : EqDecision MemoryLayer.
Proof. solve_decision. Defined.

Definition layer_u8 (l : MemoryLayer) : Z :=
  match l with
  | L0Sensory => 0 | L1Working => 1 | L2EpisodicShort => 2 | L3EpisodicLong => 3
  | L4Semantic => 4 | L5Procedural => 5 | L6Reserved => 6 | L7Identity => 7
  end.

Definition from_u8 (v : Z) : option MemoryLayer :=
  match v with
  | 0 => Some L0Sensory | 1 => Some L1Working | 2 => Some L2EpisodicShort | 3 => Some L3EpisodicLong
  | 4 => Some L4Semantic | 5 => Some L5Procedural | 6 => Some L6Reserved | 7 => Some L7Identity
  | _ => None
  end.

Definition layer_str (l : MemoryLayer) : string :=
  match l with
  | L0Sensory => "L0" | L1Working => "L1" | L2EpisodicShort => "L2" | L3EpisodicLong => "L3"
  | L4Semantic => "L4" | L5Procedural => "L5" | L6Reserved => "L6" | L7Identity => "L7"
  end.

(** Eight slots of a node identifier and its counter; [0xFF] marks a free slot. *)
Record VectorClock := mkClock { nodes : bytes; counts : list Z }.

#[global] Instance VectorClock_eq_dec : EqDecision VectorClock.
Proof. solve_decision. Defined.

Definition new_clock : VectorClock := mkClock (replicate 8 Byte.xff) (replicate 8 0).

(** The loop of [tick] over the slots. *)
Fixpoint tick_slots (node_id : Byte.byte) (ns : bytes) (cs : list Z) : bytes * list Z :=
  match ns, cs with
  | n :: ns', c :: cs' =>
      if decide (n = node_id) then (ns, u64_sat_add c 1 :: cs')
      else if decide (n = Byte.xff) then (node_id :: ns', 1 :: cs')
      else let '(ns2, cs2) := tick_slots node_id ns' cs' in (n :: ns2, c :: cs2)
  | _, _ => (ns, cs)
  end.

Definition tick (node_id : Byte.byte) (vc : VectorClock) : VectorClock :=
  let '(ns, cs) := tick_slots node_id (nodes vc) (counts vc) in mkClock ns cs.

Definition clock_encode (vc : VectorClock) : bytes := nodes vc ++ concat (to_le_bytes 8 <$> counts vc).

Definition clock_decode (data : bytes) : option (VectorClock * Z) :=
  if zlen data <? 8 + 8 * 8 then None else
  Some (mkClock (slice 0 8 data) ((λ i, from_le_bytes (slice (8 + i * 8) 8 data)) <$> seqZ 0 8), 8 + 64).

(** * Documents *)

Record MemoryDoc := mkDoc {
  layer : MemoryLayer; key : string; clock : VectorClock; payload : bytes; bitvec : option (list Z) }.

#[global] Instance MemoryDoc_eq_dec : EqDecision MemoryDoc.
Proof. solve_decision. Defined.

Definition MAGIC : bytes := as_bytes "NMD1".

(** [data.get(off..off + 4)] *)
Definition read_u32_le (data : bytes) (off : Z) : res Z :=
  if zlen data <? off + 4 then Err "trunc u32" else Ok (from_le_bytes (slice off 4 data)).

Definition read_u64_le (data : bytes) (off : Z) : res Z :=
  if zlen data <? off + 8 then Err "trunc u64" else Ok (from_le_bytes (slice off 8 data)).

Definition new (l : MemoryLayer) (k : string) (p : bytes) : MemoryDoc := mkDoc l k new_clock p None.

Definition storage_key (d : MemoryDoc) : string := "md/" +:+ layer_str (layer d) +:+ "/" +:+ key d.

Definition patch_payload (p : bytes) (node_id : Byte.byte) (d : MemoryDoc) : MemoryDoc :=
  mkDoc (layer d) (key d) (tick node_id (clock d)) p (bitvec d).

Definition encode (d : MemoryDoc) : bytes :=
  let kb := as_bytes (key d) in
  MAGIC ++ to_le_bytes 1 (layer_u8 (layer d)) ++ to_le_bytes 4 (zlen kb) ++ kb ++ clock_encode (clock d) ++
  to_le_bytes 4 (zlen (payload d)) ++ payload d ++
  match bitvec d with
  | Some bv => to_le_bytes 1 1 ++ to_le_bytes 4 (zlen bv) ++ concat (to_le_bytes 8 <$> bv)
  | None => to_le_bytes 1 0
  end.

Fixpoint read_words (n : nat) (data : bytes) (off : Z) : res (list Z) :=
  match n with
  | O => Ok []
  | S n' => w ← read_u64_le data off; ws ← read_words n' data (off + 8); Ok (w :: ws)
  end.

(** [data[i]] where the code has checked the bound. *)
Definition byte_at (data : bytes) (i : Z) : Z := from_le_bytes (slice i 1 data).

Definition decode (data : bytes) : res MemoryDoc :=
  if (zlen data <? 5) || negb (bool_decide (slice 0 4 data = MAGIC)) then Err "bad magic" else
  l ← ok_or (from_u8 (byte_at data 4)) "bad layer";
  if zlen data <? 9 then Err "trunc keylen" else
  klen ← read_u32_le data 5;
  if zlen data <? 9 + klen then Err "trunc key" else
  k ← ok_or (from_utf8 (slice 9 klen data)) "utf8";
  let off := 9 + klen in
  '(c, n) ← ok_or (clock_decode (drop (Z.to_nat off) data)) "trunc clock";
  let off := off + n in
  if zlen data <? off + 4 then Err "trunc plen" else
  plen ← read_u32_le data off;
  let off := off + 4 in
  if zlen data <? off + plen then Err "trunc payload" else
  let p := slice off plen data in
  let off := off + plen in
  if zlen data <=? off then Err "trunc bitflag" else
  let has_bv := byte_at data off in
  let off := off + 1 in
  bv ← (if has_bv =? 1 then
          if zlen data <? off + 4 then Err "trunc bvlen" else
          n ← read_u32_le data off;
          let off := off + 4 in
          if zlen data <? off + n * 8 then Err "trunc bv" else
          ws ← read_words (Z.to_nat n) data off; Ok (Some ws)
        else Ok None);
  Ok (mkDoc l k c p bv).

(** * The borrowed view *)

Record MemoryDocView := mkView { v_data : bytes; v_layer : MemoryLayer; v_key : string; v_payload : bytes; v_clock_off : Z }.

Definition parse (data : bytes) : res MemoryDocView :=
  if (zlen data <? 5) || negb (bool_decide (slice 0 4 data = MAGIC)) then Err "bad magic" else
  l ← ok_or (from_u8 (byte_at data 4)) "bad layer";
  if zlen data <? 9 then Err "trunc keylen" else
  klen ← read_u32_le data 5;
  if zlen data <? 9 + klen then Err "trunc key" else
  k ← ok_or (from_utf8 (slice 9 klen data)) "utf8";
  let clock_off := 9 + klen in
  if zlen data <? clock_off + 72 then Err "trunc clock" else
  let off := clock_off + 72 in
  if zlen data <? off + 4 then Err "trunc plen" else
  plen ← read_u32_le data off;
  let off := off + 4 in
  if zlen data <? off + plen then Err "trunc payload" else
  Ok (mkView data l k (slice off plen data) clock_off).

Definition clock_bytes (v : MemoryDocView) : bytes := slice (v_clock_off v) 72 (v_data v).
Definition to_owned_doc (v : MemoryDocView) : res MemoryDoc := decode (v_data v).

(** * Frames: a length before each document *)

Definition NMD1_FRAME_LEN : Z := 4.

Fixpoint frames_from (fuel : nat) (blob : bytes) (off : Z) : list bytes :=
  match fuel with
  | O => []
  | S fuel' =>
      if zlen blob <? off + NMD1_FRAME_LEN then [] else
      let n := from_le_bytes (slice off 4 blob) in
      if (n =? 0) || (zlen blob <? off + NMD1_FRAME_LEN + n) then [] else
      slice (off + NMD1_FRAME_LEN) n blob :: frames_from fuel' blob (off + NMD1_FRAME_LEN + n)
  end.

(** Every frame takes at least five bytes. *)
Definition iterate_nmd1_frames (blob : bytes) : list bytes := frames_from (length blob) blob 0.

Definition frame (d : MemoryDoc) : bytes := to_le_bytes 4 (zlen (encode d)) ++ encode d.

(** [export_nmd1_frames_nsgdb] over the documents the engine's scan finds; the guard
    compares the size of the output so far with [max]. *)
Fixpoint export_loop (max : Z) (docs : list MemoryDoc) (out : bytes) : bytes :=
  match docs with
  | [] => out
  | d :: docs' => if max <=? zlen out then out else export_loop max docs' (out ++ frame d)
  end.

Definition export_nmd1_frames (max : Z) (docs : list MemoryDoc) : bytes :=
  if max =? 0 then [] else export_loop max docs [].

End Doc.
