(* ===== verification/SgdbDocThm.v ===== *)
(** The NMD1 format reads back: documents, borrowed views and frames. *)

From S2P Require Import Prelude SgdbDoc.
Import Doc.

Definition u64_ok (z : Z) : Prop := 0 ≤ z < 2 ^ 64.

Record clock_ok (c : VectorClock) : Prop := mkClockOk {
  co_nodes : zlen (nodes c) = 8; co_counts : zlen (counts c) = 8; co_u64 : Forall u64_ok (counts c) }.

(** Lengths fit their 32-bit fields and numbers their width, as every value of the
    source's types does on a machine whose allocations are below 4 GiB. *)
Record doc_ok (d : MemoryDoc) : Prop := mkDocOk {
  do_key : str_ok (key d); do_klen : zlen (as_bytes (key d)) < 2 ^ 32; do_plen : zlen (payload d) < 2 ^ 32;
  do_clock : clock_ok (clock d);
  do_bits : match bitvec d with Some bv => zlen bv < 2 ^ 32 ∧ Forall u64_ok bv | None => True end }.

Lemma piece {A} (data pre x post : list A) o n : data = pre ++ x ++ post → zlen pre = o → zlen x = n → slice o n data = x.
Proof. intros ->. apply slice_mid. Qed.

Lemma from_u8_layer l : from_u8 (layer_u8 l) = Some l.
Proof. by destruct l. Qed.

Lemma layer_u8_bound l : 0 ≤ layer_u8 l < 2 ^ 8.
Proof. by destruct l. Qed.

(** ** Clocks *)

Lemma zlen_clock c : clock_ok c → zlen (clock_encode c) = 72.
Proof. intros [Hn Hc _]. unfold clock_encode. rewrite zlen_app, zlen_concat8, Hn, Hc. done. Qed.

Lemma words_at (cs : list Z) post :
  Forall u64_ok cs → (λ i, from_le_bytes (slice (i * 8) 8 (concat (to_le_bytes 8 <$> cs) ++ post))) <$> seqZ 0 (zlen cs) = cs.
Proof.
  intros Hcs. apply list_eq. intros i. rewrite list_lookup_fmap. destruct (decide (i < length cs)%nat) as [Hi|Hi].
  - rewrite lookup_seqZ_lt by (unfold zlen; lia). cbn [fmap option_fmap option_map]. destruct (lookup_lt_is_Some_2 _ _ Hi) as [x Hx]. rewrite Hx. f_equal.
    assert (0 ≤ 8 * zlen cs - 8 * Z.of_nat i - 8) by (unfold zlen; lia).
    rewrite slice_app_l by (rewrite ?zlen_concat8; lia). rewrite Z.add_0_l, Z.mul_comm, (slice_concat8 cs i x Hx).
    apply from_to_le_bytes. rewrite Forall_forall in Hcs. apply Hcs. by eapply list_elem_of_lookup_2.
  - rewrite lookup_seqZ_ge by (unfold zlen; lia). symmetry. apply lookup_ge_None. lia.
Qed.

Lemma clock_roundtrip c post : clock_ok c → clock_decode (clock_encode c ++ post) = Some (c, 72).
Proof.
  intros Hok. pose proof (zlen_clock c Hok) as Hz. destruct Hok as [Hn Hc Hu]. unfold clock_decode. pose proof (zlen_nonneg post).
  rewrite zlen_app, Hz. rewrite (proj2 (Z.ltb_ge _ _)) by lia. do 2 f_equal. destruct c as [ns cs]. unfold clock_encode. cbn [nodes counts] in *. f_equal.
  - rewrite <-app_assoc. by apply slice_app_exact.
  - replace (seqZ 0 8) with (seqZ 0 (zlen cs)) by by rewrite Hc. etrans; [|apply (words_at cs post Hu)]. apply list_fmap_ext. intros i x Hx. f_equal.
    apply list_elem_of_lookup_2, elem_of_seqZ in Hx. rewrite <-app_assoc, slice_app_r by lia. replace (8 + x * 8 - zlen ns) with (x * 8) by lia. done.
Qed.

Lemma read_words_spec pre bv post :
  Forall u64_ok bv → read_words (length bv) (pre ++ concat (to_le_bytes 8 <$> bv) ++ post) (zlen pre) = Ok bv.
Proof.
  revert pre. induction bv as [|w bv IH]; intros pre Hok; [done|]. apply Forall_cons in Hok as [Hw Hok]. cbn [length read_words].
  rewrite fmap_cons. cbn [concat]. set (data := pre ++ _ ++ post).
  assert (Hd : data = pre ++ to_le_bytes 8 w ++ (concat (to_le_bytes 8 <$> bv) ++ post)) by (unfold data; by rewrite <-app_assoc).
  unfold read_u64_le. pose proof (zlen_nonneg (concat (to_le_bytes 8 <$> bv) ++ post)).
  rewrite (proj2 (Z.ltb_ge _ _)) by (rewrite Hd, !zlen_app, zlen_to_le_bytes; rewrite <-zlen_app; lia).
  rewrite (piece data _ _ _ _ 8 Hd) by (done || by rewrite zlen_to_le_bytes). rewrite from_to_le_bytes by done. cbn [mbind res_bind].
  replace data with ((pre ++ to_le_bytes 8 w) ++ concat (to_le_bytes 8 <$> bv) ++ post) by (rewrite Hd; by rewrite <-!app_assoc).
  replace (zlen pre + 8) with (zlen (pre ++ to_le_bytes 8 w)) by by rewrite zlen_app, zlen_to_le_bytes. by rewrite IH.
Qed.

(** ** Documents *)

Section Roundtrip.
Context (d : MemoryDoc) (Hd : doc_ok d) (rest : bytes).

Local Abbreviation kb := (as_bytes (key d)).
Local Abbreviation L := (to_le_bytes 1 (layer_u8 (layer d))).
Local Abbreviation KL := (to_le_bytes 4 (zlen kb)).
Local Abbreviation C := (clock_encode (clock d)).
Local Abbreviation PL := (to_le_bytes 4 (zlen (payload d))).

Definition bits_of (o : option (list Z)) : bytes :=
  match o with
  | Some bv => to_le_bytes 1 1 ++ to_le_bytes 4 (zlen bv) ++ concat (to_le_bytes 8 <$> bv)
  | None => to_le_bytes 1 0
  end.

Local Abbreviation T := (bits_of (bitvec d)).
Local Abbreviation data := (encode d ++ rest).

Lemma data_eq : data = MAGIC ++ L ++ KL ++ kb ++ C ++ PL ++ payload d ++ T ++ rest.
Proof. unfold encode. rewrite <-!app_assoc. done. Qed.

Lemma zlen_data : zlen data = 13 + zlen kb + 72 + zlen (payload d) + zlen T + zlen rest.
Proof.
  rewrite data_eq, !zlen_app, !zlen_to_le_bytes, (zlen_clock _ (do_clock d Hd)). change (zlen MAGIC) with 4. lia.
Qed.

Lemma zlen_bits : 1 ≤ zlen T.
Proof. unfold bits_of. destruct (bitvec d); rewrite ?zlen_app, zlen_to_le_bytes; [|lia]. pose proof (zlen_nonneg (concat (to_le_bytes 8 <$> l))). rewrite zlen_to_le_bytes. lia. Qed.

Lemma data_magic : slice 0 4 data = MAGIC.
Proof. by apply (piece data [] MAGIC (L ++ KL ++ kb ++ C ++ PL ++ payload d ++ T ++ rest)); [apply data_eq|..]. Qed.

Lemma data_layer : byte_at data 4 = layer_u8 (layer d).
Proof.
  unfold byte_at. rewrite (piece data MAGIC L (KL ++ kb ++ C ++ PL ++ payload d ++ T ++ rest)); [|apply data_eq|done|by rewrite zlen_to_le_bytes].
  apply from_to_le_bytes. apply layer_u8_bound.
Qed.

Lemma data_klen : from_le_bytes (slice 5 4 data) = zlen kb.
Proof.
  rewrite (piece data (MAGIC ++ L) KL (kb ++ C ++ PL ++ payload d ++ T ++ rest)); [|rewrite data_eq; by rewrite <-!app_assoc|by rewrite zlen_app, zlen_to_le_bytes|by rewrite zlen_to_le_bytes].
  apply from_to_le_bytes. pose proof (zlen_nonneg kb). pose proof (do_klen d Hd). lia.
Qed.

Lemma data_key : slice 9 (zlen kb) data = kb.
Proof.
  apply (piece data (MAGIC ++ L ++ KL) kb (C ++ PL ++ payload d ++ T ++ rest)); [rewrite data_eq; by rewrite <-!app_assoc|by rewrite !zlen_app, !zlen_to_le_bytes|done].
Qed.

Lemma data_clock : drop (Z.to_nat (9 + zlen kb)) data = C ++ PL ++ payload d ++ T ++ rest.
Proof.
  rewrite data_eq. replace (MAGIC ++ L ++ KL ++ kb ++ C ++ PL ++ payload d ++ T ++ rest) with ((MAGIC ++ L ++ KL ++ kb) ++ C ++ PL ++ payload d ++ T ++ rest)
    by by rewrite <-!app_assoc. apply drop_app_length'.
  assert (Hz : zlen (MAGIC ++ L ++ KL ++ kb) = 9 + zlen kb) by (rewrite !zlen_app, !zlen_to_le_bytes; change (zlen MAGIC) with 4; lia).
  unfold zlen in Hz |- *. lia.
Qed.

Lemma head_len : zlen (MAGIC ++ L ++ KL ++ kb ++ C) = 9 + zlen kb + 72.
Proof. rewrite !zlen_app, !zlen_to_le_bytes, (zlen_clock _ (do_clock d Hd)). change (zlen MAGIC) with 4. lia. Qed.

Lemma data_plen : from_le_bytes (slice (9 + zlen kb + 72) 4 data) = zlen (payload d).
Proof.
  rewrite (piece data (MAGIC ++ L ++ KL ++ kb ++ C) PL (payload d ++ T ++ rest)); [|rewrite data_eq; by rewrite <-!app_assoc|apply head_len|by rewrite zlen_to_le_bytes].
  apply from_to_le_bytes. pose proof (zlen_nonneg (payload d)). pose proof (do_plen d Hd). lia.
Qed.

Lemma data_payload : slice (9 + zlen kb + 72 + 4) (zlen (payload d)) data = payload d.
Proof.
  apply (piece data ((MAGIC ++ L ++ KL ++ kb ++ C) ++ PL) (payload d) (T ++ rest)); [rewrite data_eq; by rewrite <-!app_assoc| |done].
  by rewrite zlen_app, head_len, zlen_to_le_bytes.
Qed.

Lemma data_tail : ∃ pre, data = pre ++ T ++ rest ∧ zlen pre = 9 + zlen kb + 72 + 4 + zlen (payload d).
Proof.
  exists ((MAGIC ++ L ++ KL ++ kb ++ C) ++ PL ++ payload d). split; [rewrite data_eq; by rewrite <-!app_assoc|].
  rewrite zlen_app, head_len, zlen_app, zlen_to_le_bytes. lia.
Qed.

Lemma parse_encode : parse data = Ok (mkView data (layer d) (key d) (payload d) (9 + zlen kb)).
Proof.
  unfold parse. rewrite data_magic, data_layer, bool_decide_true by done. pose proof zlen_data as Hz. pose proof zlen_bits. pose proof (zlen_nonneg kb).
  pose proof (zlen_nonneg (payload d)). pose proof (zlen_nonneg rest).
  rewrite (proj2 (Z.ltb_ge (zlen data) 5)), from_u8_layer by lia. cbn [negb orb ok_or mbind res_bind]. rewrite (proj2 (Z.ltb_ge (zlen data) 9)) by lia.
  unfold read_u32_le. rewrite (proj2 (Z.ltb_ge (zlen data) (5 + 4))) by lia. cbn [mbind res_bind]. rewrite data_klen.
  rewrite (proj2 (Z.ltb_ge (zlen data) (9 + zlen kb))), data_key, from_utf8_as_bytes by (lia || apply (do_key d Hd)). cbn [ok_or mbind res_bind]. cbv zeta.
  rewrite (proj2 (Z.ltb_ge (zlen data) (9 + zlen kb + 72))), (proj2 (Z.ltb_ge (zlen data) (9 + zlen kb + 72 + 4))) by lia. cbn [mbind res_bind].
  rewrite data_plen. rewrite (proj2 (Z.ltb_ge (zlen data) (9 + zlen kb + 72 + 4 + zlen (payload d)))) by lia. by rewrite data_payload.
Qed.

Lemma decode_encode : decode data = Ok d.
Proof.
  unfold decode. rewrite data_magic, data_layer, bool_decide_true by done. pose proof zlen_data as Hz. pose proof zlen_bits. pose proof (zlen_nonneg kb).
  pose proof (zlen_nonneg (payload d)). pose proof (zlen_nonneg rest).
  rewrite (proj2 (Z.ltb_ge (zlen data) 5)), from_u8_layer by lia. cbn [negb orb ok_or mbind res_bind]. rewrite (proj2 (Z.ltb_ge (zlen data) 9)) by lia.
  unfold read_u32_le. rewrite (proj2 (Z.ltb_ge (zlen data) (5 + 4))) by lia. cbn [mbind res_bind]. rewrite data_klen.
  rewrite (proj2 (Z.ltb_ge (zlen data) (9 + zlen kb))), data_key, from_utf8_as_bytes by (lia || apply (do_key d Hd)). cbn [ok_or mbind res_bind]. cbv zeta.
  rewrite data_clock, clock_roundtrip by apply (do_clock d Hd). cbn [ok_or mbind res_bind].
  rewrite (proj2 (Z.ltb_ge (zlen data) (9 + zlen kb + 72 + 4))) by lia. cbn [mbind res_bind].
  rewrite data_plen, data_payload. rewrite (proj2 (Z.ltb_ge (zlen data) (9 + zlen kb + 72 + 4 + zlen (payload d)))) by lia.
  rewrite (proj2 (Z.leb_gt (zlen data) (9 + zlen kb + 72 + 4 + zlen (payload d)))) by lia.
  destruct data_tail as (pre & Hpre & Hp). rewrite <-Hp. pose proof (do_bits d Hd) as Hb. revert Hz. rewrite Hpre. unfold byte_at.
  destruct d as [l k c p [bv|]]; cbn [bitvec layer key clock payload bits_of] in *; intros Hz.
  - destruct Hb as [Hn Hu]. pose proof (zlen_nonneg bv).
    rewrite (piece _ pre (to_le_bytes 1 1) ((to_le_bytes 4 (zlen bv) ++ concat (to_le_bytes 8 <$> bv)) ++ rest)); [|by rewrite <-!app_assoc|done|by rewrite zlen_to_le_bytes].
    rewrite from_to_le_bytes by lia. cbn [Z.eqb Pos.eqb]. rewrite !zlen_app, !zlen_to_le_bytes, zlen_concat8 in Hz |- *.
    rewrite (proj2 (Z.ltb_ge _ (zlen pre + 1 + 4))) by lia. cbn [mbind res_bind].
    rewrite (piece _ (pre ++ to_le_bytes 1 1) (to_le_bytes 4 (zlen bv)) (concat (to_le_bytes 8 <$> bv) ++ rest)); [|by rewrite <-!app_assoc|by rewrite zlen_app, zlen_to_le_bytes|by rewrite zlen_to_le_bytes].
    rewrite from_to_le_bytes by lia. rewrite (proj2 (Z.ltb_ge _ _)) by lia.
    replace (pre ++ (to_le_bytes 1 1 ++ to_le_bytes 4 (zlen bv) ++ concat (to_le_bytes 8 <$> bv)) ++ rest)
      with ((pre ++ to_le_bytes 1 1 ++ to_le_bytes 4 (zlen bv)) ++ concat (to_le_bytes 8 <$> bv) ++ rest) by by rewrite <-!app_assoc.
    replace (zlen pre + 1 + 4) with (zlen (pre ++ to_le_bytes 1 1 ++ to_le_bytes 4 (zlen bv))) by (rewrite !zlen_app, !zlen_to_le_bytes; lia).
    replace (Z.to_nat (zlen bv)) with (length bv) by (unfold zlen; lia). by rewrite read_words_spec.
  - rewrite (piece _ pre (to_le_bytes 1 0) rest); [|done|done|by rewrite zlen_to_le_bytes]. by rewrite from_to_le_bytes by lia.
Qed.

End Roundtrip.

(** C30: A document reads back as it was written, whatever bytes follow it: the owned
    decoder gives the document, and the borrowed view gives its layer, key, payload and
    clock without copying and the same document on request. *)
Theorem document_roundtrip d rest :
  doc_ok d → decode (encode d ++ rest) = Ok d ∧
  ∃ v, parse (encode d ++ rest) = Ok v ∧ v_layer v = layer d ∧ v_key v = key d ∧ v_payload v = payload d ∧
    clock_decode (clock_bytes v) = Some (clock d, 72) ∧ to_owned_doc v = Ok d.
Proof.
  intros Hd. split; [by apply decode_encode|]. eexists. split; [by apply parse_encode|]. cbn [v_layer v_key v_payload]. split_and!; [done..| |].
  - unfold clock_bytes. cbn [v_clock_off v_data]. unfold slice. rewrite data_clock, take_app_le, take_ge.
    + rewrite <-(app_nil_r (clock_encode _)). apply clock_roundtrip, Hd.
    + pose proof (zlen_clock _ (do_clock d Hd)) as Hz. unfold zlen in Hz. lia.
    + pose proof (zlen_clock _ (do_clock d Hd)) as Hz. unfold zlen in Hz. lia.
  - by apply decode_encode.
Qed.

Definition demo_doc : MemoryDoc := mkDoc L4Semantic "sky" (tick Byte.x09 new_clock) (as_bytes "blue") (Some [5; 2 ^ 63]).

Lemma demo_doc_ok : doc_ok demo_doc.
Proof. repeat split; try done; repeat constructor; done. Qed.

Lemma document_roundtrip_witness : decode (encode demo_doc ++ [Byte.x00]) = Ok demo_doc.
Proof. exact (proj1 (document_roundtrip demo_doc [Byte.x00] demo_doc_ok)). Defined.

(** ** Damaged input *)

Lemma clock_decode_some data : 72 ≤ zlen data → ∃ c, clock_decode data = Some (c, 72).
Proof. intros H. unfold clock_decode. rewrite (proj2 (Z.ltb_ge _ _)) by lia. eauto. Qed.

Lemma read_words_ok n data off : 0 ≤ off → off + Z.of_nat n * 8 ≤ zlen data → ∃ ws, read_words n data off = Ok ws.
Proof.
  revert off. induction n as [|n IH]; intros off Ho Hz; [by exists []|]. cbn [read_words]. unfold read_u64_le.
  rewrite (proj2 (Z.ltb_ge _ _)) by lia. cbn [mbind res_bind]. destruct (IH (off + 8)) as [ws ->]; [lia|lia|]. cbn. eauto.
Qed.

(** What the two parsers may answer on the same bytes. *)
Definition parsers_agree (data : bytes) (r : res MemoryDoc) (q : res MemoryDocView) : Prop :=
  match r, q with
  | Ok d, Ok v => v_layer v = layer d ∧ v_key v = key d ∧ v_payload v = payload d ∧ v_data v = data
  | Err e, Ok _ => e = "trunc bitflag" ∨ e = "trunc bvlen" ∨ e = "trunc bv"
  | Err e, Err e' => e = e'
  | _, _ => False
  end.

(** The owned decoder and the borrowed view agree on arbitrary bytes. Neither ever
    panics; what the decoder accepts, the view accepts with the same layer, key and
    payload; an input the view rejects is rejected by the decoder with the same error;
    and the view accepts more than the decoder only where the bit vector behind the
    payload, which it does not look at, is cut off. *)
Theorem view_agrees_with_decode data : parsers_agree data (decode data) (parse data).
Proof.
  unfold decode, parse, parsers_agree. destruct (_ || _); [done|]. destruct (from_u8 _) as [l|]; cbn [ok_or mbind res_bind]; [|done].
  destruct (Z.ltb_spec (zlen data) 9); [done|]. unfold read_u32_le. rewrite !(proj2 (Z.ltb_ge _ (5 + 4))) by lia. cbn [mbind res_bind].
  set (klen := from_le_bytes _). assert (Hk : 0 ≤ klen) by apply le_combine_bound.
  destruct (Z.ltb_spec (zlen data) (9 + klen)); [done|]. destruct (from_utf8 _) as [k|]; cbn [ok_or mbind res_bind]; [|done]. cbv zeta.
  destruct (Z.ltb_spec (zlen data) (9 + klen + 72)) as [Hc|Hc].
  { unfold clock_decode. assert (Hz : zlen (drop (Z.to_nat (9 + klen)) data) = zlen data - (9 + klen)) by (unfold zlen; rewrite length_drop; unfold zlen in *; lia).
    rewrite Hz, (proj2 (Z.ltb_lt _ _)) by lia. done. }
  destruct (clock_decode_some (drop (Z.to_nat (9 + klen)) data)) as [c ->]; [unfold zlen in *; rewrite length_drop; lia|]. cbn [ok_or mbind res_bind].
  destruct (Z.ltb_spec (zlen data) (9 + klen + 72 + 4)); [done|]. rewrite ?(proj2 (Z.ltb_ge _ (9 + klen + 72 + 4))) by lia. cbn [mbind res_bind].
  set (plen := from_le_bytes (slice (9 + klen + 72) 4 data)). assert (Hp : 0 ≤ plen) by apply le_combine_bound.
  destruct (Z.ltb_spec (zlen data) (9 + klen + 72 + 4 + plen)); [done|].
  destruct (Z.leb_spec (zlen data) (9 + klen + 72 + 4 + plen)); [by left|]. destruct (_ =? 1); [|by cbn].
  destruct (Z.ltb_spec (zlen data) (9 + klen + 72 + 4 + plen + 1 + 4)); [by right; left|]. cbn [mbind res_bind].
  set (n := from_le_bytes (slice (9 + klen + 72 + 4 + plen + 1) 4 data)). assert (Hn : 0 ≤ n) by apply le_combine_bound.
  destruct (Z.ltb_spec (zlen data) (9 + klen + 72 + 4 + plen + 1 + 4 + n * 8)); [by right; right|].
  destruct (read_words_ok (Z.to_nat n) data (9 + klen + 72 + 4 + plen + 1 + 4)) as [ws ->]; [lia|lia|]. by cbn.
Qed.

(** ** Frames *)

Lemma zlen_encode_doc d : doc_ok d → 86 ≤ zlen (encode d).
Proof.
  intros Hd. pose proof (zlen_data d Hd []) as Hz. rewrite app_nil_r in Hz. pose proof (zlen_bits d). pose proof (zlen_nonneg (as_bytes (key d))).
  pose proof (zlen_nonneg (payload d)). rewrite zlen_nil in Hz. lia.
Qed.

Lemma frames_from_spec ds fuel pre post :
  Forall (λ d, doc_ok d ∧ zlen (encode d) < 2 ^ 32) ds → (length ds ≤ fuel)%nat →
  frames_from fuel (pre ++ concat (frame <$> ds) ++ post) (zlen pre) =
    (encode <$> ds) ++ frames_from (fuel - length ds) (pre ++ concat (frame <$> ds) ++ post) (zlen pre + zlen (concat (frame <$> ds))).
Proof.
  revert fuel pre. induction ds as [|d ds IH]; intros fuel pre Hok Hf.
  { cbn [fmap list_fmap concat length app]. rewrite Nat.sub_0_r, zlen_nil, Z.add_0_r. done. }
  apply Forall_cons in Hok as [[Hd Hl] Hok]. destruct fuel as [|fuel]; [cbn in Hf; lia|]. rewrite !fmap_cons. cbn [concat length frames_from app].
  set (blob := pre ++ _ ++ post).
  assert (Hb : blob = pre ++ to_le_bytes 4 (zlen (encode d)) ++ (encode d ++ concat (frame <$> ds) ++ post)) by (unfold blob, frame at 1; by rewrite <-!app_assoc).
  assert (Hb' : blob = (pre ++ to_le_bytes 4 (zlen (encode d))) ++ encode d ++ (concat (frame <$> ds) ++ post)) by (rewrite Hb; by rewrite <-!app_assoc).
  assert (Hb2 : blob = (pre ++ frame d) ++ concat (frame <$> ds) ++ post) by (rewrite Hb; unfold frame at 2; by rewrite <-!app_assoc).
  pose proof (zlen_encode_doc d Hd) as Hz. assert (Hzb : zlen blob = zlen pre + 4 + zlen (encode d) + zlen (concat (frame <$> ds) ++ post)).
  { rewrite Hb', !zlen_app, zlen_to_le_bytes. lia. }
  pose proof (zlen_nonneg (concat (frame <$> ds) ++ post)). unfold NMD1_FRAME_LEN. rewrite (proj2 (Z.ltb_ge _ _)) by lia.
  rewrite (piece blob _ _ _ _ 4 Hb eq_refl) by by rewrite zlen_to_le_bytes. rewrite from_to_le_bytes by lia.
  rewrite (proj2 (Z.eqb_neq _ 0)) by lia. rewrite (proj2 (Z.ltb_ge _ _)) by lia. cbn [orb].
  rewrite (piece blob _ _ _ _ _ Hb') by (done || by rewrite zlen_app, zlen_to_le_bytes). f_equal.
  assert (Hf2 : zlen (pre ++ frame d) = zlen pre + 4 + zlen (encode d)) by (unfold frame; rewrite !zlen_app, zlen_to_le_bytes; lia).
  rewrite <-Hf2, Hb2, (IH fuel (pre ++ frame d) Hok) by (cbn in Hf; lia). rewrite !zlen_app. do 2 f_equal. lia.
Qed.

Lemma frames_stop fuel blob off : zlen blob < off + 4 → frames_from fuel blob off = [].
Proof. intros H. destruct fuel; [done|]. cbn [frames_from]. unfold NMD1_FRAME_LEN. by rewrite (proj2 (Z.ltb_lt _ _)). Qed.

Lemma length_frames ds : Forall (λ d, doc_ok d ∧ zlen (encode d) < 2 ^ 32) ds → Z.of_nat (length ds) ≤ zlen (concat (frame <$> ds)).
Proof.
  induction 1 as [|d ds [Hd _] _ IH]; [done|]. rewrite fmap_cons. cbn [length concat]. rewrite zlen_app. unfold frame at 1. rewrite zlen_app.
  pose proof (zlen_encode_doc d Hd). rewrite zlen_to_le_bytes. lia.
Qed.

(** Frames read back. The blob built from any documents is split into exactly their
    encodings, each of which decodes to its document, and up to three bytes of a
    truncated frame at the end are ignored. *)
Theorem frames_roundtrip ds junk :
  Forall (λ d, doc_ok d ∧ zlen (encode d) < 2 ^ 32) ds → zlen junk < 4 →
  decode <$> iterate_nmd1_frames (concat (frame <$> ds) ++ junk) = Ok <$> ds.
Proof.
  intros Hok Hj. unfold iterate_nmd1_frames. pose proof (length_frames ds Hok) as Hl.
  pose proof (frames_from_spec ds (length (concat (frame <$> ds) ++ junk)) [] junk Hok) as Hf. cbn [app] in Hf. rewrite zlen_nil in Hf.
  rewrite Hf by (rewrite length_app; unfold zlen in Hl; lia). rewrite frames_stop by (rewrite zlen_app; lia). rewrite app_nil_r, <-list_fmap_compose.
  apply list_fmap_ext. intros i d Hi. cbn. rewrite <-(app_nil_r (encode d)). apply decode_encode.
  rewrite Forall_forall in Hok. apply Hok. by eapply list_elem_of_lookup_2.
Qed.

Lemma frames_roundtrip_witness :
  decode <$> iterate_nmd1_frames (concat (frame <$> [demo_doc; demo_doc]) ++ as_bytes "xyz") = [Ok demo_doc; Ok demo_doc].
Proof.
  apply (frames_roundtrip [demo_doc; demo_doc] (as_bytes "xyz")); [|by vm_compute].
  repeat constructor; try done; apply demo_doc_ok.
Defined.

(** The export stops after the first document. Its limit of 32 is compared with the
    bytes written so far, not with the number of documents, and every frame is longer
    than that. *)
Theorem export_stops_after_one d ds max :
  doc_ok d → 0 < max ≤ 90 → export_nmd1_frames max (d :: ds) = frame d.
Proof.
  intros Hd Hm. unfold export_nmd1_frames. rewrite (proj2 (Z.eqb_neq _ _)) by lia. cbn [export_loop]. rewrite zlen_nil, (proj2 (Z.leb_gt _ _)) by lia. cbn [app].
  destruct ds as [|d' ds]; [done|]. cbn [export_loop]. rewrite (proj2 (Z.leb_le _ _)); [done|]. unfold frame. rewrite zlen_app, zlen_to_le_bytes. pose proof (zlen_encode_doc d Hd). lia.
Qed.

Lemma export_stops_after_one_witness : export_nmd1_frames 32 [demo_doc; demo_doc] = frame demo_doc.
Proof. exact (export_stops_after_one demo_doc [demo_doc] 32 demo_doc_ok ltac:(lia)). Defined.
