(* ===== verification/BqIndex.v ===== *)
(** Binary quantised vectors: the Hamming kernels ([k_ai/src/sgdb/hamming_dispatch.rs])
    and the flat index that ranks by them ([k_ai/src/sgdb/bq.rs]). *)

From S2P Require Import Prelude.
From Stdlib Require Import Sorting.Sorted.

Module Bq.

(** * Hamming distance *)

(** [u64::count_ones] *)
Definition count_ones (x : Z) : Z := zlen (filter (λ i, Z.testbit x i = true) (seqZ 0 64)).

(** [d += x], a wrapping [u32]. *)
Definition u32_add (d x : Z) : Z := (d + x) mod 2 ^ 32.

(** [for i in 0..n { d += (a[i] ^ b[i]).count_ones() }] over the common part, then
    [for j in n..longer.len() { d += longer[j].count_ones() }]. *)
Fixpoint add_words (d : Z) (l : list Z) : Z := match l with [] => d | x :: l' => add_words (u32_add d (count_ones x)) l' end.

Fixpoint add_xor (d : Z) (a b : list Z) : Z :=
  match a, b with x :: a', y :: b' => add_xor (u32_add d (count_ones (Z.lxor x y))) a' b' | _, _ => d end.

Definition common (a b : list Z) : nat := Nat.min (length a) (length b).
Definition longer (a b : list Z) : list Z := if (length b <? length a)%nat then a else b.

Definition hamming_scalar (a b : list Z) : Z :=
  add_words (add_xor 0 a b) (drop (common a b) (longer a b)).

(** One vector step: the lanes of the xor, then a count per lane. *)
Definition lanes (w i : nat) (a b : list Z) : list Z := zip_with Z.lxor (take w (drop i a)) (take w (drop i b)).

(** The [while i + w <= n] loop, from word [i] with [k] steps of fuel; [add] counts the
    lanes of one step. *)
Fixpoint vec_loop (add : Z → list Z → Z) (k w : nat) (n i : nat) (a b : list Z) (d : Z) : nat * Z :=
  match k with
  | O => (i, d)
  | S k' => if (i + w <=? n)%nat then vec_loop add k' w n (i + w) a b (add d (lanes w i a b)) else (i, d)
  end.

(** A vector kernel with [w] lanes of 64 bits. *)
Definition hamming_vec (add : Z → list Z → Z) (w : nat) (a b : list Z) : Z :=
  let n := common a b in
  let '(i, d) := vec_loop add n w n 0 a b 0 in
  let d := add_xor d (take (n - i) (drop i a)) (take (n - i) (drop i b)) in
  add_words d (drop n (longer a b)).

(** The lanes are extracted, or stored, one by one and counted. *)
Definition hamming_avx2_xor : list Z → list Z → Z := hamming_vec add_words 4.
Definition hamming_avx512_xor : list Z → list Z → Z := hamming_vec add_words 8.

(** [_mm512_popcnt_epi64] counts the lanes in the register; the counts are stored and
    added, truncated to 32 bits. *)
Definition add_counts (d : Z) (l : list Z) : Z := fold_left (λ d t, u32_add d (t mod 2 ^ 32)) (count_ones <$> l) d.
Definition hamming_avx512_vpopcnt : list Z → list Z → Z := hamming_vec add_counts 8.

Inductive Path := PATH_SCALAR | PATH_AVX2_XOR | PATH_AVX512.

(** The build's target ([target_os = "none"]) and what the platform probe and [cpuid] answer. *)
Record Cpu := mkCpu { bare_metal : bool; avx2_ready : bool; avx512_ready : bool; allow_avx2 : bool; allow_avx512 : bool; has_vpop : bool }.

Definition select_best_hamming_kernel (c : Cpu) : Path :=
  if bare_metal c then PATH_SCALAR else
  if avx512_ready c then PATH_AVX512 else if avx2_ready c then PATH_AVX2_XOR else PATH_SCALAR.

Definition active_kernel (c : Cpu) (p : Path) : list Z → list Z → Z :=
  if bare_metal c then hamming_scalar else
  match p with
  | PATH_AVX512 =>
      if allow_avx512 c then (if has_vpop c then hamming_avx512_vpopcnt else hamming_avx512_xor)
      else if allow_avx2 c then hamming_avx2_xor else hamming_scalar
  | PATH_AVX2_XOR => if allow_avx2 c then hamming_avx2_xor else hamming_scalar
  | PATH_SCALAR => hamming_scalar
  end.

(** * Quantisation *)

(** [pos] are the comparisons [x > 0.0] of the components. *)
Fixpoint set_bits (i : nat) (pos : list bool) (out : list Z) : list Z :=
  match pos with
  | [] => out
  | p :: pos' =>
      set_bits (S i) pos' (if p then alter (λ w, Z.lor w (Z.shiftl 1 (Z.of_nat (i mod 64)%nat))) (i / 64)%nat out else out)
  end.

Definition quantize (pos : list bool) : list Z := set_bits 0 pos (replicate ((length pos + 63) / 64)%nat 0).

Definition quantize_1024 (pos : list bool) : list Z :=
  let q := quantize pos in take (Nat.min (length q) 16) q ++ replicate (16 - Nat.min (length q) 16)%nat 0.

(** * The flat index *)

Record BqFlatIndex := mkBq { ids : list Z; flat : list Z; words_per_vec : nat }.

Definition new : BqFlatIndex := mkBq [] [] 0.
Definition clear (t : BqFlatIndex) : BqFlatIndex := mkBq [] [] 0.

Definition insert (id : Z) (bits : list Z) (t : BqFlatIndex) : bool * BqFlatIndex :=
  let w := if (words_per_vec t =? 0)%nat then Nat.max (length bits) 1 else words_per_vec t in
  if negb (length bits =? w)%nat then (false, mkBq (ids t) (flat t) w)
  else (true, mkBq (ids t ++ [id]) (flat t ++ bits) w).

Definition insert_f32 (id : Z) (pos : list bool) (t : BqFlatIndex) : bool * BqFlatIndex := insert id (quantize pos) t.

Definition insert_1024 (id : Z) (bits : list Z) (t : BqFlatIndex) : bool * BqFlatIndex :=
  let w := if (words_per_vec t =? 0)%nat then 16%nat else words_per_vec t in
  if negb (w =? 16)%nat then (false, mkBq (ids t) (flat t) w)
  else (true, mkBq (ids t ++ [id]) (flat t ++ bits) w).

(** [&self.flat[start..start + w]] *)
Definition vec_at (t : BqFlatIndex) (i : nat) : res (list Z) :=
  let w := words_per_vec t in
  if (length (flat t) <? i * w + w)%nat then Panic else Ok (take w (drop (i * w) (flat t))).

Fixpoint score (kernel : list Z → list Z → Z) (query : list Z) (t : BqFlatIndex) (i : nat) (l : list Z) : res (list (Z * Z)) :=
  match l with
  | [] => Ok []
  | id :: l' => v ← vec_at t i; rest ← score kernel query t (S i) l'; Ok ((id, kernel query v) :: rest)
  end.

(** [sort_by_key], a stable sort on the distance. *)
Fixpoint sort_insert (x : Z * Z) (l : list (Z * Z)) : list (Z * Z) :=
  match l with [] => [x] | y :: l' => if x.2 <=? y.2 then x :: l else y :: sort_insert x l' end.

Fixpoint sort_by_dist (l : list (Z * Z)) : list (Z * Z) := match l with [] => [] | x :: l' => sort_insert x (sort_by_dist l') end.

Definition top_k (kernel : list Z → list Z → Z) (query : list Z) (k : nat) (t : BqFlatIndex) : res (list (Z * Z)) :=
  let w := words_per_vec t in
  if (w =? 0)%nat || bool_decide (ids t = []) then Ok [] else
  if negb (length query =? w)%nat then Ok [] else
  scored ← score kernel query t 0 (ids t);
  Ok (take k (sort_by_dist scored)).

Definition top_k_f32 (kernel : list Z → list Z → Z) (pos : list bool) (k : nat) (t : BqFlatIndex) : res (list (Z * Z)) :=
  top_k kernel (quantize pos) k t.

(** * Theorems *)

(** ** The kernels *)

(** The number of bit positions in which two vectors differ, missing words being zero. *)
Definition word (l : list Z) (i : nat) : Z := default 0 (l !! i).

Definition bit_distance (a b : list Z) : Z :=
  zlen (filter (λ p, Z.testbit (word a p.1) p.2 ≠ Z.testbit (word b p.1) p.2)
         (i ← seq 0 (Nat.max (length a) (length b)); j ← seqZ 0 64; [(i, j)])).

Fixpoint ones (l : list Z) : Z := match l with [] => 0 | x :: l' => count_ones x + ones l' end.

Lemma count_ones_bound x : 0 ≤ count_ones x ≤ 64.
Proof.
  unfold count_ones, zlen. pose proof (length_filter (λ i, Z.testbit x i = true) (seqZ 0 64)) as H. rewrite length_seqZ in H. lia.
Qed.

Lemma ones_app l1 l2 : ones (l1 ++ l2) = ones l1 + ones l2.
Proof. induction l1 as [|x l IH]; cbn; [done|]. rewrite IH. lia. Qed.

Lemma add_words_app d l1 l2 : add_words d (l1 ++ l2) = add_words (add_words d l1) l2.
Proof. revert d. induction l1 as [|x l IH]; intros d; [done|]. cbn. apply IH. Qed.

Lemma add_words_ones d l : 0 ≤ d < 2 ^ 32 → add_words d l = (d + ones l) mod 2 ^ 32.
Proof.
  revert d. induction l as [|x l IH]; intros d Hd; cbn; [rewrite Z.add_0_r; by rewrite Z.mod_small|].
  rewrite IH by (unfold u32_add; apply Z.mod_pos_bound; lia). unfold u32_add. rewrite Zplus_mod_idemp_l. f_equal. lia.
Qed.

Lemma add_xor_words d a b : add_xor d a b = add_words d (zip_with Z.lxor a b).
Proof. revert d b. induction a as [|x a IH]; intros d [|y b]; cbn; [done..|]. apply IH. Qed.

Lemma add_counts_words d l : add_counts d l = add_words d l.
Proof.
  unfold add_counts. revert d. induction l as [|x l IH]; intros d; [done|]. cbn. rewrite IH. f_equal.
  rewrite (Z.mod_small (count_ones x)); [done|]. pose proof (count_ones_bound x). lia.
Qed.

Lemma zip_split (a b : list Z) i n : (i ≤ n)%nat →
  zip_with Z.lxor (take n a) (take n b) = zip_with Z.lxor (take i a) (take i b) ++ zip_with Z.lxor (take (n - i) (drop i a)) (take (n - i) (drop i b)).
Proof.
  revert a b n. induction i as [|i IH]; intros a b n Hn; [cbn; by rewrite Nat.sub_0_r|]. destruct n as [|n]; [lia|].
  destruct a as [|x a], b as [|y b]; cbn; rewrite ?take_nil, ?zip_with_nil_r; cbn; [done..|]. f_equal. apply IH. lia.
Qed.

Lemma vec_loop_spec add k w n i a b d0 :
  (∀ d l, add d l = add_words d l) → (i ≤ n)%nat →
  let '(j, d) := vec_loop add k w n i a b (add_words d0 (zip_with Z.lxor (take i a) (take i b))) in
  (j ≤ n)%nat ∧ d = add_words d0 (zip_with Z.lxor (take j a) (take j b)).
Proof.
  intros Hadd. revert i. induction k as [|k IH]; intros i Hi; cbn [vec_loop]; [done|].
  destruct (Nat.leb_spec (i + w) n) as [Hw|]; [|done]. rewrite Hadd, <-add_words_app. unfold lanes.
  replace (zip_with Z.lxor (take i a) (take i b) ++ zip_with Z.lxor (take w (drop i a)) (take w (drop i b)))
    with (zip_with Z.lxor (take (i + w) a) (take (i + w) b)); [by apply IH|].
  rewrite (zip_split a b i (i + w)) by lia. by replace (i + w - i)%nat with w by lia.
Qed.

Lemma zip_common (a b : list Z) : zip_with Z.lxor (take (common a b) a) (take (common a b) b) = zip_with Z.lxor a b.
Proof.
  unfold common. revert b. induction a as [|x a IH]; intros [|y b]; cbn; [done..|]. f_equal. apply IH.
Qed.

Lemma hamming_vec_scalar add w a b : (∀ d l, add d l = add_words d l) → hamming_vec add w a b = hamming_scalar a b.
Proof.
  intros Hadd. unfold hamming_vec, hamming_scalar. pose proof (vec_loop_spec add (common a b) w (common a b) 0 a b 0 Hadd ltac:(lia)) as Hl.
  cbn [take zip_with add_words] in Hl. destruct (vec_loop _ _ _ _ _ _ _ _) as [i d]. destruct Hl as [Hi ->]. f_equal.
  by rewrite !add_xor_words, <-add_words_app, <-(zip_split a b i _ Hi), zip_common.
Qed.

Lemma testbit_ones x y : zlen (filter (λ j, Z.testbit x j ≠ Z.testbit y j) (seqZ 0 64)) = count_ones (Z.lxor x y).
Proof.
  unfold count_ones. f_equal. apply list_filter_iff. intros j. rewrite Z.lxor_spec. destruct (Z.testbit x j), (Z.testbit y j); cbn; naive_solver.
Qed.

Lemma filter_pairs (P : nat → Z → Prop) `{!∀ i j, Decision (P i j)} i (js : list Z) :
  zlen (filter (λ p : nat * Z, P p.1 p.2) (j ← js; [(i, j)])) = zlen (filter (P i) js).
Proof.
  induction js as [|j js IH]; [done|]. change (j0 ← j :: js; [(i, j0)]) with ((i, j) :: (j0 ← js; [(i, j0)])). rewrite !filter_cons. cbn [fst snd].
  destruct (decide (P i j)); [|done]. rewrite !zlen_cons. by rewrite IH.
Qed.

Lemma bit_distance_ones a b :
  bit_distance a b = ones ((λ i, Z.lxor (word a i) (word b i)) <$> seq 0 (Nat.max (length a) (length b))).
Proof.
  unfold bit_distance. induction (seq 0 _) as [|i l IH]; [done|]. rewrite bind_cons, filter_app, zlen_app, fmap_cons. cbn [ones].
  f_equal; [|exact IH]. etrans; [exact (filter_pairs (λ i j, Z.testbit (word a i) j ≠ Z.testbit (word b i) j) i (seqZ 0 64))|apply testbit_ones].
Qed.

Lemma words_seq (a b : list Z) :
  (λ i, Z.lxor (word a i) (word b i)) <$> seq 0 (Nat.max (length a) (length b)) = zip_with Z.lxor a b ++ drop (common a b) (longer a b).
Proof.
  unfold common, longer. revert b. induction a as [|x a IH]; intros b.
  - cbn [length zip_with app Nat.max Nat.min]. rewrite (proj2 (Nat.ltb_ge _ _)) by lia. rewrite drop_0.
    apply list_eq. intros i. rewrite list_lookup_fmap. unfold word. destruct (b !! i) as [y|] eqn:E.
    + rewrite lookup_seq_lt by (by eapply lookup_lt_Some). cbn. by rewrite E, lookup_nil.
    + apply lookup_ge_None in E. by rewrite lookup_seq_ge by lia.
  - destruct b as [|y b].
    + cbn [length zip_with app Nat.max Nat.min]. rewrite (proj2 (Nat.ltb_lt _ _)) by lia. rewrite drop_0.
      apply list_eq. intros i. rewrite list_lookup_fmap. unfold word. destruct ((x :: a) !! i) as [z|] eqn:E.
      * rewrite lookup_seq_lt by (apply lookup_lt_Some in E; cbn in E; lia). cbn [fmap option_fmap option_map]. rewrite Nat.add_0_l, E, lookup_nil. cbn. by rewrite Z.lxor_0_r.
      * apply lookup_ge_None in E. cbn in E. by rewrite lookup_seq_ge by lia.
    + cbn [length Nat.max Nat.min seq fmap list_fmap zip_with app]. unfold word at 1 2. cbn [lookup list_lookup default from_option]. f_equal.
      rewrite <-fmap_S_seq, <-list_fmap_compose. etrans; [|etrans; [apply (IH b)|]]; [done|]. f_equal. rewrite Nat.ltb_compare, (Nat.ltb_compare (S _)). cbn [Nat.compare].
      by destruct (length b ?= length a)%nat.
Qed.

Lemma kernels_agree_lemma c p a b : active_kernel c p a b = bit_distance a b mod 2 ^ 32.
Proof.
  assert (Hs : hamming_scalar a b = bit_distance a b mod 2 ^ 32).
  { unfold hamming_scalar. rewrite add_xor_words, <-add_words_app, bit_distance_ones, words_seq. by apply add_words_ones. }
  rewrite <-Hs. unfold active_kernel. destruct (bare_metal c); [done|]. destruct p.
  - done.
  - destruct (allow_avx2 c); [by apply hamming_vec_scalar|done].
  - destruct (allow_avx512 c); [destruct (has_vpop c); apply hamming_vec_scalar; [apply add_counts_words|done]|].
    destruct (allow_avx2 c); [by apply hamming_vec_scalar|done].
Qed.

(** All Hamming kernels compute the same distance. Whatever kernel the processor's
    features select (scalar, AVX2, AVX-512 with or without vector population count),
    for vectors of any lengths the result is the number of bit positions in which they
    differ, as a 32-bit count, the missing words of the shorter one being zero. *)
Theorem kernels_agree c p a b : active_kernel c p a b = bit_distance a b mod 2 ^ 32 ∧ active_kernel c p a b = hamming_scalar a b.
Proof. split; [apply kernels_agree_lemma|]. rewrite (kernels_agree_lemma c p), <-(kernels_agree_lemma c PATH_SCALAR). unfold active_kernel. by destruct (bare_metal c). Qed.

(** ** Ranking *)

(** The index holds the entries [es] of [w] words each. *)
Definition holds (t : BqFlatIndex) (w : nat) (es : list (Z * list Z)) : Prop :=
  ids t = es.*1 ∧ flat t = concat es.*2 ∧ Forall (λ e, length e.2 = w) es ∧ (es ≠ [] → words_per_vec t = w).

Lemma length_concat_w (w : nat) (l : list (list Z)) : Forall (λ v, length v = w) l → length (concat l) = (length l * w)%nat.
Proof. induction 1 as [|v l Hv _ IH]; [done|]. cbn. rewrite length_app, IH, Hv. lia. Qed.

Lemma insert_holds t w es id bits :
  (1 ≤ w)%nat → (words_per_vec t = 0%nat ∨ words_per_vec t = w) → length bits = w → holds t w es →
  ∃ t', insert id bits t = (true, t') ∧ holds t' w (es ++ [(id, bits)]) ∧ words_per_vec t' = w.
Proof.
  intros Hw Ht Hb (Hi & Hf & Ha & Hwp). unfold insert.
  assert ((if (words_per_vec t =? 0)%nat then Nat.max (length bits) 1 else words_per_vec t) = w) as ->.
  { destruct (Nat.eqb_spec (words_per_vec t) 0); lia. }
  rewrite (proj2 (Nat.eqb_eq _ _)) by done. cbn [negb]. eexists. split; [done|]. split; [|done]. unfold holds. cbn [ids flat words_per_vec].
  rewrite Hi, Hf, !fmap_app. split_and!; [done|by rewrite concat_app; cbn; rewrite app_nil_r| |done].
  apply Forall_app. split; [done|]. by repeat constructor.
Qed.

Lemma vec_at_spec t w pre id v post : (1 ≤ w)%nat → holds t w (pre ++ (id, v) :: post) → vec_at t (length pre) = Ok v.
Proof.
  intros Hw (_ & Hf & Ha & Hwp). unfold vec_at. rewrite Hwp by by destruct pre.
  assert (Hl : length (concat pre.*2) = (length pre * w)%nat).
  { rewrite (length_concat_w w), length_fmap; [done|]. apply Forall_app in Ha as [Ha _]. by apply Forall_fmap. }
  assert (Hv : length v = w) by (apply Forall_app in Ha as [_ Ha]; by apply Forall_cons in Ha as [Ha _]).
  rewrite Hf, fmap_app, concat_app. cbn [fmap list_fmap concat snd]. rewrite !length_app, Hl, Hv.
  rewrite (proj2 (Nat.ltb_ge _ _)) by lia. rewrite <-Hl, drop_app_length. by rewrite take_app_le, take_ge by lia.
Qed.

Lemma score_spec kernel q t w pre es :
  (1 ≤ w)%nat → holds t w (pre ++ es) → score kernel q t (length pre) es.*1 = Ok ((λ e, (e.1, kernel q e.2)) <$> es).
Proof.
  intros Hw. revert pre. induction es as [|[id v] es IH]; intros pre Hh; [done|]. cbn [fmap list_fmap score fst snd].
  rewrite (vec_at_spec t w pre id v es Hw Hh). cbn [mbind res_bind]. specialize (IH (pre ++ [(id, v)])). rewrite <-app_assoc in IH.
  rewrite length_app, Nat.add_1_r in IH. by rewrite IH.
Qed.

Lemma sort_insert_perm x l : sort_insert x l ≡ₚ x :: l.
Proof. induction l as [|y l IH]; cbn; [done|]. destruct (_ <=? _); [done|]. rewrite IH. by constructor. Qed.

Lemma sort_by_dist_perm l : sort_by_dist l ≡ₚ l.
Proof. induction l as [|x l IH]; cbn; [done|]. by rewrite sort_insert_perm, IH. Qed.

Definition by_dist (x y : Z * Z) : Prop := x.2 ≤ y.2.

Lemma sort_insert_sorted x l : StronglySorted by_dist l → StronglySorted by_dist (sort_insert x l).
Proof.
  induction 1 as [|y l Hs IH Hy]; cbn; [repeat constructor|]. destruct (Z.leb_spec x.2 y.2).
  - constructor; [by constructor|]. constructor; [done|]. eapply Forall_impl; [exact Hy|]. unfold by_dist. intros z ?. cbn in *. lia.
  - constructor; [done|]. rewrite sort_insert_perm. constructor; [unfold by_dist; lia|done].
Qed.

Lemma sort_by_dist_sorted l : StronglySorted by_dist (sort_by_dist l).
Proof. induction l as [|x l IH]; cbn; [constructor|]. by apply sort_insert_sorted. Qed.

Lemma sorted_split l1 l2 : StronglySorted by_dist (l1 ++ l2) → StronglySorted by_dist l1 ∧ ∀ x y, x ∈ l1 → y ∈ l2 → by_dist x y.
Proof.
  induction l1 as [|z l1 IH]; cbn; intros Hs; [split; [constructor|by intros x y ?%elem_of_nil]|].
  apply StronglySorted_inv in Hs as [Hs Hz]. destruct (IH Hs) as [H1 H2]. apply Forall_app in Hz as [Hz1 Hz2]. split; [by constructor|].
  intros x y [->|Hx]%elem_of_cons Hy; [|by apply H2]. rewrite Forall_forall in Hz2. by apply Hz2.
Qed.

Definition build (es : list (Z * list Z)) (t : BqFlatIndex) : BqFlatIndex := fold_left (λ t e, (insert e.1 e.2 t).2) es t.

Lemma build_holds w es done t :
  (1 ≤ w)%nat → (words_per_vec t = 0%nat ∨ words_per_vec t = w) → Forall (λ e, length e.2 = w) es → holds t w done →
  holds (build es t) w (done ++ es).
Proof.
  intros Hw. revert done t. induction es as [|[id v] es IH]; intros dn t Ht Hes Hh; [by rewrite app_nil_r|].
  apply Forall_cons in Hes as [Hv Hes]. cbn [build fold_left fst snd]. destruct (insert_holds t w dn id v Hw Ht Hv Hh) as (t' & -> & Hh' & Hw'). cbn [snd].
  rewrite (cons_middle (id, v)), (assoc_L (++)). apply (IH (dn ++ [(id, v)]) t'); [by right|done|done].
Qed.

(** C38: A search returns the nearest vectors. On an index built from any vectors of [w]
    words, [top_k] of a query of [w] words returns as many entries as asked for and
    available, in order of distance, each with its Hamming distance to the query, and
    no entry left out is nearer than one returned. *)
Theorem top_k_nearest c p w es query k :
  (1 ≤ w)%nat → Forall (λ e, length e.2 = w) es → length query = w →
  let scored := (λ e, (e.1, bit_distance query e.2 mod 2 ^ 32)) <$> es in
  ∃ r rest, top_k (active_kernel c p) query k (build es new) = Ok r ∧ length r = Nat.min k (length es) ∧
    r ++ rest ≡ₚ scored ∧ StronglySorted by_dist r ∧ ∀ x y, x ∈ r → y ∈ rest → x.2 ≤ y.2.
Proof.
  intros Hw Hes Hq. cbv zeta. pose proof (build_holds w es [] new Hw (or_introl eq_refl) Hes) as Hh. cbn [app] in Hh.
  assert (Hh0 : holds (build es new) w es) by (apply Hh; split_and!; by try constructor). clear Hh. unfold top_k. pose proof Hh0 as (Hi & Hf & Ha & Hwp).
  destruct (decide (es = [])) as [->|Hne]; [rewrite Hi, bool_decide_true, orb_true_r by done; exists [], []; split_and!; [done|by rewrite Nat.min_0_r|done|constructor|by intros x y ?%elem_of_nil]|].
  rewrite Hwp by done. rewrite (proj2 (Nat.eqb_neq w 0)), (proj2 (Nat.eqb_eq (length query) w)) by (done || lia).
  rewrite bool_decide_false by (rewrite Hi; by destruct es). cbn [orb negb].
  pose proof (score_spec (active_kernel c p) query (build es new) w [] es Hw Hh0) as Hsc. cbn [length] in Hsc. rewrite Hi, Hsc. cbn [mbind res_bind].
  replace ((λ e, (e.1, active_kernel c p query e.2)) <$> es) with ((λ e, (e.1, bit_distance query e.2 mod 2 ^ 32)) <$> es)
    by (apply list_fmap_ext; intros i e _; by rewrite kernels_agree_lemma).
  set (scored := _ <$> es). pose proof (sort_by_dist_sorted scored) as Hs. rewrite <-(take_drop k (sort_by_dist scored)) in Hs.
  apply sorted_split in Hs as [Hs1 Hs2]. exists (take k (sort_by_dist scored)), (drop k (sort_by_dist scored)). split_and!; [done| |by rewrite take_drop, sort_by_dist_perm|done|done].
  rewrite length_take, (Permutation_length (sort_by_dist_perm scored)). unfold scored. by rewrite length_fmap.
Qed.

Lemma top_k_nearest_witness :
  ∃ r rest, top_k hamming_avx2_xor [5] 1 (build [(1, [7]); (2, [5]); (3, [0])] new) = Ok r ∧ length r = 1%nat ∧
    r ++ rest ≡ₚ (λ e, (e.1, bit_distance [5] e.2 mod 2 ^ 32)) <$> [(1, [7]); (2, [5]); (3, [0])].
Proof.
  destruct (top_k_nearest (mkCpu false true false true false false) PATH_AVX2_XOR 1 [(1, [7]); (2, [5]); (3, [0])] [5] 1) as (r & rest & Hr & Hl & Hp & _);
    [lia|by repeat constructor|reflexivity|]. exact (ex_intro _ r (ex_intro _ rest (conj Hr (conj Hl Hp)))).
Defined.

End Bq.
