(* ===== verification/Mpmc.v ===== *)
(** The bounded multi-producer multi-consumer queue ([k_nano/src/sync/mpmc.rs]) as a
    transition system: every access to an atomic or to the data of a slot is one step of
    one thread, in any interleaving. Positions are [usize], 64 bits, wrapping. *)

From S2P Require Import Prelude.
From Stdlib Require Import Sorting.Permutation.

Module Mpmc.

Inductive slot_state := EMPTY | STORING | READY | LOADING.

#[global] Instance slot_state_eq_dec : EqDecision slot_state.
Proof. solve_decision. Defined.

Definition MAX_RETRIES : nat := 64.

Section Mpmc.
Context {T : Type}.

(** [data] is [None] while the memory of the slot holds no item. *)
Record Slot := mkSlot { state : slot_state; data : option T }.

Definition new_slot : Slot := mkSlot EMPTY None.

Record MpmcQueue := mkQueue { capacity : Z; enqueue_pos : Z; dequeue_pos : Z; buffer : list Slot }.

Definition is_power_of_two (c : Z) : bool := (0 <? c) && (Z.land c (c - 1) =? 0).

(** [alloc] tells whether the layout is representable and the allocation succeeds. *)
Definition new (alloc : bool) (c : Z) : option MpmcQueue :=
  if negb (is_power_of_two c) || (c <? 2) then None else
  if negb alloc then None else
  Some (mkQueue c 0 0 (replicate (Z.to_nat c) new_slot)).

Implicit Types (q : MpmcQueue) (x : T) (pos : Z).

Definition set_enq (e : Z) q : MpmcQueue := mkQueue (capacity q) e (dequeue_pos q) (buffer q).
Definition set_deq (d : Z) q : MpmcQueue := mkQueue (capacity q) (enqueue_pos q) d (buffer q).

(** [pos & mask] *)
Definition idx q pos : nat := Z.to_nat (Z.land pos (capacity q - 1)).

Definition alter_slot (f : Slot → Slot) pos q : MpmcQueue :=
  mkQueue (capacity q) (enqueue_pos q) (dequeue_pos q) (alter f (idx q pos) (buffer q)).
Definition set_state (s : slot_state) pos q : MpmcQueue := alter_slot (λ sl, mkSlot s (data sl)) pos q.
Definition set_data (d : option T) pos q : MpmcQueue := alter_slot (λ sl, mkSlot (state sl) d) pos q.

(** The compare-exchange on the state of the slot of [pos] finds [s]. *)
Definition state_is (s : slot_state) pos q : bool :=
  match buffer q !! idx q pos with Some sl => bool_decide (state sl = s) | None => false end.

Definition full_at pos q : bool := capacity q <=? u64_sub pos (dequeue_pos q).

(** The rollbacks: [compare_exchange(pos + 1, pos)]. *)
Definition undo_enq pos q : MpmcQueue := if enqueue_pos q =? u64_add pos 1 then set_enq pos q else q.
Definition undo_deq pos q : MpmcQueue := if dequeue_pos q =? u64_add pos 1 then set_deq pos q else q.

(** * The two calls, access by access *)

(** The next access of a thread. A sender carries its item: [SLoad] loads [enqueue_pos],
    [SFull] loads [dequeue_pos] and compares, [SCas] takes the position, [SFull2] tests
    again, [SUndo] gives the position back, [SClaim] takes the slot, [SStore] writes the
    item and [SReady] publishes it; the receiver's accesses mirror them. *)
Inductive pc :=
| Idle
| SLoad x (retries : nat) | SFull x (retries : nat) pos | SCas x (retries : nat) pos | SFull2 x pos | SUndo x pos
| SClaim x pos (spins : nat) | SStore x pos | SReady x pos
| RLoad (retries : nat) | REmpty (retries : nat) pos | RCas (retries : nat) pos | REmpty2 pos | RUndo pos
| RClaim pos (spins : nat) | RRead pos | RClear x pos.

(** What a call returns: [Ok(())], [Err(item)], [Some(item)], [None]; [Uninit] is a read
    of memory that holds no item. *)
Inductive event := Sent x | Refused x | Got x | Nothing | Uninit.

(** One access; [spurious] is the failure a weak compare-exchange may report. *)
Definition go (spurious : bool) (p : pc) q : pc * MpmcQueue * option event :=
  match p with
  | Idle => (Idle, q, None)
  | SLoad x r => (SFull x r (enqueue_pos q), q, None)
  | SFull x r pos => if full_at pos q then (Idle, q, Some (Refused x)) else (SCas x r pos, q, None)
  | SCas x r pos =>
      if negb spurious && (enqueue_pos q =? pos) then (SFull2 x pos, set_enq (u64_add pos 1) q, None)
      else if (MAX_RETRIES <=? S r)%nat then (Idle, q, Some (Refused x)) else (SLoad x (S r), q, None)
  | SFull2 x pos => if full_at pos q then (SUndo x pos, q, None) else (SClaim x pos 0, q, None)
  | SUndo x pos => (Idle, undo_enq pos q, Some (Refused x))
  | SClaim x pos k =>
      if state_is EMPTY pos q then (SStore x pos, set_state STORING pos q, None)
      else if (MAX_RETRIES <=? S k)%nat then (SUndo x pos, q, None) else (SClaim x pos (S k), q, None)
  | SStore x pos => (SReady x pos, set_data (Some x) pos q, None)
  | SReady x pos => (Idle, set_state READY pos q, Some (Sent x))
  | RLoad r => (REmpty r (dequeue_pos q), q, None)
  | REmpty r pos => if pos =? enqueue_pos q then (Idle, q, Some Nothing) else (RCas r pos, q, None)
  | RCas r pos =>
      if negb spurious && (dequeue_pos q =? pos) then (REmpty2 pos, set_deq (u64_add pos 1) q, None)
      else if (MAX_RETRIES <=? S r)%nat then (Idle, q, Some Nothing) else (RLoad (S r), q, None)
  | REmpty2 pos => if pos =? enqueue_pos q then (RUndo pos, q, None) else (RClaim pos 0, q, None)
  | RUndo pos => (Idle, undo_deq pos q, Some Nothing)
  | RClaim pos k =>
      if state_is READY pos q then (RRead pos, set_state LOADING pos q, None)
      else if (MAX_RETRIES <=? S k)%nat then (RUndo pos, q, None) else (RClaim pos (S k), q, None)
  | RRead pos =>
      match (buffer q !! idx q pos) ≫= data with
      | Some x => (RClear x pos, set_data None pos q, None)
      | None => (Idle, q, Some Uninit)
      end
  | RClear x pos => (Idle, set_state EMPTY pos q, Some (Got x))
  end.

(** [len]: two relaxed loads, saturating. *)
Definition len q : Z := Z.max 0 (enqueue_pos q - dequeue_pos q).
Definition is_empty q : bool := len q =? 0.

(** * Threads *)

Record State := mkState { queue : MpmcQueue; threads : list pc }.

Inductive act := Send (t : nat) x | Recv (t : nat) | Go (t : nat) (spurious : bool).

(** A thread outside a call may start one; otherwise it makes its next access. *)
Definition step (a : act) (s : State) : option (State * option event) :=
  match a with
  | Send t x =>
      match threads s !! t with Some Idle => Some (mkState (queue s) (<[t := SLoad x 0]> (threads s)), None) | _ => None end
  | Recv t =>
      match threads s !! t with Some Idle => Some (mkState (queue s) (<[t := RLoad 0]> (threads s)), None) | _ => None end
  | Go t spurious =>
      match threads s !! t with
      | Some p => let '(p', q', e) := go spurious p (queue s) in Some (mkState q' (<[t := p']> (threads s)), e)
      | None => None
      end
  end.

(** The items passed to [try_send] and the returns, in order. *)
Definition log_act (a : act) : list T := match a with Send _ x => [x] | _ => [] end.
Definition log_event (e : option event) : list event := match e with Some e => [e] | None => [] end.

Fixpoint run (l : list act) (s : State) : option (State * list event) :=
  match l with
  | [] => Some (s, [])
  | a :: l' => '(s1, e) ← step a s; '(s2, es) ← run l' s1; Some (s2, log_event e ++ es)
  end.

Definition start (n : nat) q : State := mkState q (replicate n Idle).

(** * A call that nobody interrupts *)

(** Accesses until the call returns; the first [k] weak compare-exchanges fail
    spuriously. *)
Fixpoint solo (fuel k : nat) (p : pc) q : option (MpmcQueue * event) :=
  match fuel with
  | O => None
  | S fuel' =>
      let weak := match p with SCas _ _ _ | RCas _ _ => true | _ => false end in
      let spurious := weak && negb (k =? 0)%nat in
      match go spurious p q with
      | (_, q', Some e) => Some (q', e)
      | (p', q', None) => solo fuel' (if weak then pred k else k) p' q'
      end
  end.

(** The longest call: 63 rounds of the position loop, one more that takes it, 64 tries
    on the slot and the rollback. *)
Definition CALL_STEPS : nat := 260.

Definition try_send (k : nat) x q : option (MpmcQueue * event) := solo CALL_STEPS k (SLoad x 0) q.
Definition try_recv (k : nat) q : option (MpmcQueue * event) := solo CALL_STEPS k (RLoad 0) q.

(** [drop]: drain by [try_recv], then sweep the positions left; the result are the
    items dropped. *)
Fixpoint drain (fuel : nat) q : MpmcQueue * list T :=
  match fuel with
  | O => (q, [])
  | S fuel' =>
      match try_recv 0 q with
      | Some (q', Got x) => let '(q2, xs) := drain fuel' q' in (q2, x :: xs)
      | Some (q', _) => (q', [])
      | None => (q, [])
      end
  end.

Fixpoint sweep (n : nat) (i : Z) q : list T :=
  match n with
  | O => []
  | S n' =>
      match buffer q !! idx q i with
      | Some (mkSlot READY (Some x)) => x :: sweep n' (i + 1) (set_state EMPTY i q)
      | _ => sweep n' (i + 1) q
      end
  end.

Definition drop_queue q : list T :=
  let '(q', xs) := drain (S (Z.to_nat (capacity q))) q in
  xs ++ sweep (Z.to_nat (enqueue_pos q' - dequeue_pos q')) (dequeue_pos q') q'.

End Mpmc.
Arguments Slot T : clear implicits.
Arguments MpmcQueue T : clear implicits.
Arguments State T : clear implicits.
Arguments pc T : clear implicits.
Arguments event T : clear implicits.
Arguments act T : clear implicits.

(** * Theorems *)

Section Theorems.
Context {T : Type}.
Implicit Types (q : MpmcQueue T) (p : pc T) (x : T) (pos : Z) (s : State T).

(** ** Every call returns *)

(** How many accesses a call can still make. *)
Definition left_steps p : nat :=
  match p with
  | Idle => 0
  | SLoad _ r | RLoad r => 3 * (MAX_RETRIES - r) + 68
  | SFull _ r _ | REmpty r _ => 3 * (MAX_RETRIES - r) + 67
  | SCas _ r _ | RCas r _ => 3 * (MAX_RETRIES - r) + 66
  | SFull2 _ _ | REmpty2 _ => 68
  | SClaim _ _ k | RClaim _ k => 3 + (MAX_RETRIES - k)
  | SUndo _ _ | RUndo _ => 1
  | SStore _ _ | RRead _ => 2
  | SReady _ _ | RClear _ _ => 1
  end%nat.

(** The counters stay below their limits. *)
Definition counters_ok p : Prop :=
  match p with
  | SLoad _ r | RLoad r | SFull _ r _ | REmpty r _ | SCas _ r _ | RCas r _ => (r < MAX_RETRIES)%nat
  | SClaim _ _ k | RClaim _ k => (k < MAX_RETRIES)%nat
  | _ => True
  end.

(** Case analysis on one access. *)
Ltac go_cases :=
  repeat first
    [ match goal with |- context [match ?e with Some _ => _ | None => _ end] => destruct e eqn:? end
    | match goal with |- context [if ?e then _ else _] => destruct e eqn:? end ].

Lemma go_progress b p q :
  counters_ok p →
  match go b p q with
  | (p', _, None) => counters_ok p' ∧ (p = Idle ∨ (left_steps p' < left_steps p)%nat)
  | (p', _, Some _) => p' = Idle ∧ p ≠ Idle
  end.
Proof.
  unfold MAX_RETRIES. destruct p; cbn [go]; go_cases; cbn [counters_ok left_steps]; unfold MAX_RETRIES in *; intros Hc;
    repeat match goal with H : (_ <=? _)%nat = _ |- _ => first [apply Nat.leb_le in H|apply Nat.leb_gt in H] end; try done;
    (split; [first [done|lia]|first [done|by left|right; lia]]).
Qed.

Lemma left_steps_max p : (left_steps p ≤ CALL_STEPS)%nat.
Proof. unfold CALL_STEPS. destruct p; cbn [left_steps]; unfold MAX_RETRIES; lia. Qed.

Definition threads_ok s : Prop := Forall counters_ok (threads s).

Lemma step_threads a s s' e : step a s = Some (s', e) → threads_ok s → threads_ok s'.
Proof.
  unfold threads_ok. intros Hs Hok. destruct a as [t x|t|t b]; cbn [step] in Hs; destruct (threads s !! t) as [p|] eqn:Et; try done;
    [destruct p; simplify_eq; apply Forall_insert; [done|cbn; unfold MAX_RETRIES; lia].. |].
  pose proof (go_progress b p (queue s) (Forall_lookup_1 _ _ _ _ Hok Et)) as Hg. destruct (go b p (queue s)) as [[p' q'] [e'|]]; simplify_eq;
    apply Forall_insert; [done| |done|by destruct Hg]. by destruct Hg as [-> _].
Qed.

Lemma run_threads l s s' es : run l s = Some (s', es) → threads_ok s → threads_ok s'.
Proof.
  revert s es. induction l as [|a l IH]; intros s es Hr Hok; [by injection Hr as <- <-|]. cbn [run] in Hr.
  destruct (step a s) as [[s1 e]|] eqn:E; [|done]. cbn in Hr. destruct (run l s1) as [[s2 es2]|] eqn:E2; [|done]. injection Hr as <- <-.
  eapply IH; [done|by eapply step_threads].
Qed.

Lemma run_length l s s' es : run l s = Some (s', es) → length (threads s') = length (threads s).
Proof.
  revert s es. induction l as [|a l IH]; intros s es Hr; [by simplify_eq/=|]. cbn [run] in Hr. destruct (step a s) as [[s1 e]|] eqn:E; [|done]. cbn in Hr.
  destruct (run l s1) as [[s2 es2]|] eqn:E2; [|done]. injection Hr as <- <-. rewrite (IH _ _ E2).
  destruct a as [u x|u|u b]; cbn [step] in E; destruct (threads s !! u) as [p|]; try done; [destruct p; simplify_eq; apply length_insert..|].
  destruct (go b p (queue s)) as [[p' q'] o]. simplify_eq. apply length_insert.
Qed.

(** The accesses of thread [t] in a schedule; [None] when it starts a call. *)
Fixpoint gos (t : nat) (l : list (act T)) : option nat :=
  match l with
  | [] => Some 0%nat
  | Go u _ :: l' => n ← gos t l'; Some (if decide (u = t) then S n else n)
  | Send u _ :: l' | Recv u :: l' => if decide (u = t) then None else gos t l'
  end.

Lemma run_left t l s s' es n p :
  run l s = Some (s', es) → threads_ok s → gos t l = Some n → threads s !! t = Some p →
  ∃ p', threads s' !! t = Some p' ∧ (left_steps p' ≤ left_steps p - n)%nat.
Proof.
  revert s es n p. induction l as [|a l IH]; intros s es n p Hr Hok Hn Ht.
  { injection Hr as <- <-. injection Hn as <-. exists p. split; [done|lia]. }
  cbn [run] in Hr. destruct (step a s) as [[s1 e]|] eqn:E; [|done]. cbn in Hr. destruct (run l s1) as [[s2 es2]|] eqn:E2; [|done]. injection Hr as <- <-.
  pose proof (step_threads _ _ _ _ E Hok) as Hok1.
  destruct a as [u x|u|u b]; cbn [gos] in Hn; cbn [step] in E; destruct (threads s !! u) as [pu|] eqn:Eu; try done.
  - destruct (decide (u = t)); [done|]. destruct pu; simplify_eq. apply (IH _ _ _ p E2 Hok1 Hn). cbn. by rewrite list_lookup_insert_ne.
  - destruct (decide (u = t)); [done|]. destruct pu; simplify_eq. apply (IH _ _ _ p E2 Hok1 Hn). cbn. by rewrite list_lookup_insert_ne.
  - destruct (gos t l) as [m|] eqn:Em; [|done]. cbn in Hn. injection Hn as <-.
    pose proof (go_progress b pu (queue s) (Forall_lookup_1 _ _ _ _ Hok Eu)) as Hg.
    destruct (go b pu (queue s)) as [[p' q'] o] eqn:Eg. injection E as <- <-. destruct (decide (u = t)) as [->|Hne].
    + replace pu with p in * by congruence. destruct (IH _ _ _ p' E2 Hok1 eq_refl) as (p2 & Hp2 & Hle).
      { cbn. apply list_lookup_insert_eq. by apply lookup_lt_Some in Eu. }
      exists p2. split; [done|]. destruct o; [destruct Hg as [-> _]; cbn in Hle; lia|]. destruct Hg as [_ [->|]]; [|lia]. cbn in Eg. injection Eg as <- <-. cbn in *. lia.
    + apply (IH _ _ _ p E2 Hok1 eq_refl). cbn. by rewrite list_lookup_insert_ne.
Qed.

(** C14: Calls are wait-free. Whatever the other threads do, however they are
    interleaved and however often weak compare-exchanges fail, a thread that is inside
    [try_send] or [try_recv] has returned once it has made 260 accesses of its own. *)
Theorem calls_wait_free n q l0 l s s' es0 es t k :
  run l0 (start n q) = Some (s, es0) → run l s = Some (s', es) → (t < n)%nat →
  gos t l = Some k → (CALL_STEPS ≤ k)%nat → threads s' !! t = Some Idle.
Proof.
  intros H0 Hr Ht Hk Hle. assert (Hok : threads_ok s) by (eapply run_threads; [done|]; unfold threads_ok, start; cbn; by apply Forall_replicate).
  destruct (lookup_lt_is_Some_2 (threads s) t) as [p Hp]; [rewrite (run_length _ _ _ _ H0); unfold start; cbn; by rewrite length_replicate|].
  destruct (run_left t l s s' es k p Hr Hok Hk Hp) as (p' & Hp' & Hle'). rewrite Hp'. pose proof (left_steps_max p).
  destruct p'; cbn [left_steps] in Hle'; [done|..]; lia.
Qed.

(** ** Slots have one owner *)

Definition wf q : Prop := ∃ k, 1 ≤ k < 64 ∧ capacity q = 2 ^ k ∧ length (buffer q) = Z.to_nat (2 ^ k).

Lemma idx_mod q pos : wf q → Z.of_nat (idx q pos) = pos mod capacity q.
Proof.
  intros (k & Hk & Hc & _). unfold idx. rewrite Hc. replace (2 ^ k - 1) with (Z.ones k) by (rewrite Z.ones_equiv; lia). rewrite Z.land_ones by lia.
  pose proof (Z.mod_pos_bound pos (2 ^ k) ltac:(lia)). lia.
Qed.

Lemma idx_lt q pos : wf q → (idx q pos < length (buffer q))%nat.
Proof.
  intros Hq. pose proof (idx_mod q pos Hq) as Hi. destruct Hq as (k & Hk & Hc & Hl). rewrite Hc in Hi.
  pose proof (Z.mod_pos_bound pos (2 ^ k) ltac:(lia)). lia.
Qed.

Lemma new_wf alloc c q : new alloc c = Some q → c < 2 ^ 64 → wf q.
Proof.
  unfold new. destruct (is_power_of_two c) eqn:Hp; [|done]. cbn [negb orb]. destruct (Z.ltb_spec c 2) as [|Hc]; [done|]. destruct alloc; [|done].
  cbn [negb]. intros [= <-] Hlt. unfold is_power_of_two in Hp. apply andb_true_iff in Hp as [_ Hp]. apply Z.eqb_eq in Hp.
  assert (Hk : c = 2 ^ Z.log2 c).
  { apply Z.bits_inj'. intros i Hi. rewrite Z.pow2_bits_eqb by apply Z.log2_nonneg. destruct (Z.eqb_spec (Z.log2 c) i) as [<-|Hne].
    - by apply Z.bit_log2; lia.
    - destruct (Z.lt_ge_cases (Z.log2 c) i) as [|Hge]; [apply Z.bits_above_log2; lia|]. destruct (Z.testbit c i) eqn:Hb; [|done]. exfalso.
      assert (Hone : Z.testbit (Z.land c (c - 1)) (Z.log2 c) = true); [|by rewrite Hp, Z.bits_0 in Hone].
      rewrite Z.land_spec, Z.bit_log2 by lia. cbn [andb].
      assert (Hl : 2 ^ Z.log2 c < c).
      { pose proof (Z.log2_spec c ltac:(lia)) as [Hle _]. destruct (Z.eq_dec (2 ^ Z.log2 c) c) as [He|]; [|lia].
        rewrite <-He, Z.pow2_bits_eqb in Hb by apply Z.log2_nonneg. apply Z.eqb_eq in Hb. lia. }
      assert (Hlog : Z.log2 (c - 1) = Z.log2 c). { apply Z.log2_unique; [apply Z.log2_nonneg|]. pose proof (Z.log2_spec c ltac:(lia)). lia. }
      rewrite <-Hlog. apply Z.bit_log2. lia. }
  assert (Hr : 1 ≤ Z.log2 c < 64). { split; [apply Z.log2_le_pow2; lia|apply Z.log2_lt_pow2; lia]. }
  exists (Z.log2 c). split; [done|]. cbn. rewrite length_replicate, <-Hk. done.
Qed.

(** The slot a thread has claimed, and what it finds there. *)
Definition own q p : option nat :=
  match p with SStore _ pos | SReady _ pos | RRead pos | RClear _ pos => Some (idx q pos) | _ => None end.

Definition pc_ok q p : Prop :=
  match p with
  | SStore _ pos => ∃ d, buffer q !! idx q pos = Some (mkSlot STORING d)
  | SReady x pos => buffer q !! idx q pos = Some (mkSlot STORING (Some x))
  | RRead pos => ∃ x, buffer q !! idx q pos = Some (mkSlot LOADING (Some x))
  | RClear _ pos => buffer q !! idx q pos = Some (mkSlot LOADING None)
  | _ => True
  end.

(** A published item is in memory, a free slot holds none. *)
Definition slot_ok (sl : Slot T) : Prop :=
  match state sl with READY => is_Some (data sl) | EMPTY => data sl = None | _ => True end.

Record inv s : Prop := mkInv {
  i_wf : wf (queue s);
  i_slots : Forall slot_ok (buffer (queue s));
  i_pcs : Forall (pc_ok (queue s)) (threads s);
  i_excl : ∀ t t' p p' i, threads s !! t = Some p → threads s !! t' = Some p' → own (queue s) p = Some i → own (queue s) p' = Some i → t = t' }.

Lemma state_is_true st pos q : state_is st pos q = true → ∃ d, buffer q !! idx q pos = Some (mkSlot st d).
Proof. unfold state_is. destruct (buffer q !! idx q pos) as [[s' d]|]; [|done]. intros H%bool_decide_eq_true. cbn in H. subst. eauto. Qed.

(** Where an item is: in the hands of a sender, in a slot, in the hands of a receiver. *)
Definition held p : list T :=
  match p with
  | SLoad x _ | SFull x _ _ | SCas x _ _ | SFull2 x _ | SUndo x _ | SClaim x _ _ | SStore x _ | SReady x _ => [x]
  | _ => []
  end.
Definition slot_items (sl : Slot T) : list T := match state sl with READY | LOADING => option_list (data sl) | _ => [] end.
Definition taken p : list T := match p with RClear x _ => [x] | _ => [] end.

Definition sent_item (e : event T) : list T := match e with Sent x => [x] | _ => [] end.
Definition refused_item (e : event T) : list T := match e with Refused x => [x] | _ => [] end.
Definition got_item (e : event T) : list T := match e with Got x => [x] | _ => [] end.

(** What one access does: it leaves the buffer alone, or it changes one slot that the
    thread owns or that nobody can own, and moves the item between hands and slot. *)
Inductive effect q p p' q' (es : list (event T)) : Prop :=
| effect_none : buffer q' = buffer q → own q p = None → own q p' = None → es ≫= sent_item = [] → es ≫= got_item = [] →
    taken p = [] → taken p' = [] → effect q p p' q' es
| effect_slot i sl sl' : buffer q !! i = Some sl → buffer q' = <[i := sl']> (buffer q) → slot_ok sl' →
    own q p = Some i ∨ (own q p = None ∧ (state sl = EMPTY ∨ state sl = READY)) → own q p' = None ∨ own q p' = Some i → pc_ok q' p' →
    (es ≫= sent_item) ++ slot_items sl ++ taken p ≡ₚ (es ≫= got_item) ++ slot_items sl' ++ taken p' → effect q p p' q' es.

Lemma alter_slot_eq f pos q sl :
  buffer q !! idx q pos = Some sl → buffer (alter_slot f pos q) = <[idx q pos := f sl]> (buffer q) ∧ buffer (alter_slot f pos q) !! idx q pos = Some (f sl).
Proof.
  intros Hs. cbn. rewrite list_lookup_alter_eq, Hs. split; [|done]. apply list_eq. intros j. pose proof (lookup_lt_Some _ _ _ Hs).
  destruct (decide (j = idx q pos)) as [->|Hne]; [by rewrite list_lookup_alter_eq, list_lookup_insert_eq, Hs|by rewrite list_lookup_alter_ne, list_lookup_insert_ne].
Qed.

Lemma go_effect b p q p' q' o :
  Forall slot_ok (buffer q) → pc_ok q p → go b p q = (p', q', o) →
  capacity q' = capacity q ∧ o ≠ Some Uninit ∧
  held p = (log_event o ≫= refused_item) ++ (log_event o ≫= sent_item) ++ held p' ∧ effect q p p' q' (log_event o).
Proof.
  intros Hsl Hp Hg.
  assert (Hclaim : ∀ st pos, state_is st pos q = true → ∃ d, buffer q !! idx q pos = Some (mkSlot st d) ∧ slot_ok (mkSlot st d)).
  { intros st pos [d Hd]%state_is_true. exists d. split; [done|]. by apply (Forall_lookup_1 _ _ _ _ Hsl Hd). }
  destruct p; cbn [go] in Hg; cbn [pc_ok] in Hp;
    try (revert Hg; unfold undo_enq, undo_deq; go_cases; intros Hg; simplify_eq; (split_and!; [done..|]); by apply effect_none).
  - (* claim to store *)
    destruct (state_is EMPTY pos q) eqn:Est; [|revert Hg; go_cases; intros Hg; simplify_eq; (split_and!; [done..|]); by apply effect_none].
    destruct (Hclaim _ _ Est) as (d & Hd & Hok). injection Hg as <- <- <-. destruct (alter_slot_eq (λ sl, mkSlot STORING (data sl)) pos q _ Hd) as [Hb Hb'].
    split_and!; [done..|]. eapply effect_slot; [exact Hd|exact Hb|done|right; cbn; auto|by right|exists d; exact Hb'|done].
  - (* store *)
    destruct Hp as [d Hd]. injection Hg as <- <- <-. destruct (alter_slot_eq (λ sl, mkSlot (state sl) (Some x)) pos q _ Hd) as [Hb Hb'].
    split_and!; [done..|]. eapply effect_slot; [exact Hd|exact Hb|done|by left|by right|exact Hb'|done].
  - (* publish *)
    injection Hg as <- <- <-. destruct (alter_slot_eq (λ sl, mkSlot READY (data sl)) pos q _ Hp) as [Hb Hb'].
    split_and!; [done..|]. eapply effect_slot; [exact Hp|exact Hb|cbn; eauto|by left|by left|done|done].
  - (* claim to load *)
    destruct (state_is READY pos q) eqn:Est; [|revert Hg; go_cases; intros Hg; simplify_eq; (split_and!; [done..|]); by apply effect_none].
    destruct (Hclaim _ _ Est) as (d & Hd & [x Hok]). cbn in Hok. subst d. injection Hg as <- <- <-. destruct (alter_slot_eq (λ sl, mkSlot LOADING (data sl)) pos q _ Hd) as [Hb Hb'].
    split_and!; [done..|]. eapply effect_slot; [exact Hd|exact Hb|done|right; cbn; auto|by right|exists x; exact Hb'|done].
  - (* read *)
    destruct Hp as [x Hd]. rewrite Hd in Hg. cbn in Hg. injection Hg as <- <- <-. destruct (alter_slot_eq (λ sl, mkSlot (state sl) None) pos q _ Hd) as [Hb Hb'].
    split_and!; [done..|]. eapply effect_slot; [exact Hd|exact Hb|done|by left|by right|exact Hb'|done].
  - (* release *)
    injection Hg as <- <- <-. destruct (alter_slot_eq (λ sl, mkSlot EMPTY (data sl)) pos q _ Hp) as [Hb Hb'].
    split_and!; [done..|]. eapply effect_slot; [exact Hp|exact Hb|done|by left|by left|done|done].
Qed.

Lemma inv_start n q : wf q → Forall slot_ok (buffer q) → inv (start n q).
Proof.
  intros Hq Hs. constructor; cbn [queue threads start]; [done..|by apply Forall_replicate|].
  intros t t' p p' i Ht _ Ho. apply lookup_replicate in Ht as [-> _]. done.
Qed.

(** The claims of the other threads are not affected. *)
Lemma pc_ok_other q q' p2 :
  capacity q' = capacity q → pc_ok q p2 →
  buffer q' = buffer q ∨ (∃ i sl', buffer q' = <[i := sl']> (buffer q) ∧ own q p2 ≠ Some i) → pc_ok q' p2.
Proof.
  intros Hc Hp Hb. assert (Hi : ∀ pos, idx q' pos = idx q pos) by (intros pos; unfold idx; by rewrite Hc).
  assert (Hl : ∀ pos sl, own q p2 = Some (idx q pos) → buffer q !! idx q pos = Some sl → buffer q' !! idx q' pos = Some sl).
  { intros pos sl Ho Hs. rewrite Hi. destruct Hb as [->|(i & sl' & -> & Hne)]; [done|]. rewrite list_lookup_insert_ne; [done|congruence]. }
  destruct p2; cbn [pc_ok] in *; try done; [destruct Hp as [d Hd]; exists d; by eapply Hl|by eapply Hl|destruct Hp as [d Hd]; exists d; by eapply Hl|by eapply Hl].
Qed.

Lemma own_cap q q' p : capacity q' = capacity q → own q' p = own q p.
Proof. intros Hc. destruct p; cbn [own]; unfold idx; by rewrite ?Hc. Qed.

Lemma owner_busy q p i sl : pc_ok q p → own q p = Some i → buffer q !! i = Some sl → state sl = STORING ∨ state sl = LOADING.
Proof.
  intros Hp Ho Hs. destruct p; cbn [own pc_ok] in *; simplify_eq; cbn; auto; destruct Hp; simplify_eq; cbn; auto.
Qed.

(** A thread other than [t] does not own the slot that [t] changes. *)
Lemma touched_exclusive s t p u pu :
  inv s → threads s !! t = Some p → threads s !! u = Some pu → u ≠ t →
  ∀ i sl, buffer (queue s) !! i = Some sl → own (queue s) p = Some i ∨ (own (queue s) p = None ∧ (state sl = EMPTY ∨ state sl = READY)) →
  own (queue s) pu ≠ Some i.
Proof.
  intros Hinv Ht Hu Hne i sl Hsl Ho Hou. destruct Ho as [Ho|[_ Hst]].
  - by apply Hne, (i_excl s Hinv u t pu p i).
  - destruct (owner_busy _ _ _ _ (Forall_lookup_1 _ _ _ _ (i_pcs s Hinv) Hu) Hou Hsl) as [He|He]; rewrite He in Hst; by destruct Hst.
Qed.

Lemma inv_call s t p : inv s → threads s !! t = Some Idle → own (queue s) p = None → pc_ok (queue s) p → inv (mkState (queue s) (<[t := p]> (threads s))).
Proof.
  intros Hinv Ht Hn Hp. pose proof (lookup_lt_Some _ _ _ Ht) as Hlt. constructor; cbn [queue threads]; [apply Hinv..| |].
  - apply Forall_insert; [apply Hinv|done].
  - intros u u' pu pu' i Hu Hu' Ho Ho'. rewrite list_lookup_insert in Hu, Hu'. repeat case_decide; simplify_eq; try naive_solver. by eapply (i_excl s Hinv).
Qed.

Lemma inv_go s t p b p' q' o :
  inv s → threads s !! t = Some p → go b p (queue s) = (p', q', o) → inv (mkState q' (<[t := p']> (threads s))).
Proof.
  intros Hinv Ht Hg. pose proof (Forall_lookup_1 _ _ _ _ (i_pcs s Hinv) Ht) as Hp. pose proof (lookup_lt_Some _ _ _ Ht) as Hlt.
  destruct (go_effect _ _ _ _ _ _ (i_slots s Hinv) Hp Hg) as (Hc & _ & _ & Heff).
  assert (Hold : ∀ u pu, threads s !! u = Some pu → u ≠ t → pc_ok q' pu).
  { intros u pu Hu Hne. apply (pc_ok_other (queue s)); [done|by apply (Forall_lookup_1 _ _ _ _ (i_pcs s Hinv) Hu)|].
    pose proof (touched_exclusive s t p u pu Hinv Ht Hu Hne) as Hx. destruct Heff as [Hb|i sl sl' Hi Hb]; [by left|right; eauto]. }
  assert (Hnew : ∀ u pu i, threads s !! u = Some pu → u ≠ t → own (queue s) pu = Some i → own (queue s) p' = Some i → False).
  { intros u pu i Hu Hne Ho Ho'. pose proof (touched_exclusive s t p u pu Hinv Ht Hu Hne) as Hx. destruct Heff as [|j sl sl' Hi Hb Hs Hown Hown']; [congruence|].
    destruct Hown' as [|Hown']; [congruence|]. eapply (Hx j sl); [done|done|congruence]. }
  constructor; cbn [queue threads].
  - destruct (i_wf s Hinv) as (k & Hk & Hck & Hl). exists k. rewrite Hc. split; [done|]. split; [done|]. destruct Heff as [->|i sl sl' _ ->]; [done|by rewrite length_insert].
  - destruct Heff as [->|i sl sl' _ -> Hs]; [apply Hinv|]. apply Forall_insert; [apply Hinv|done].
  - apply Forall_lookup_2. intros u pu Hu. rewrite list_lookup_insert in Hu. case_decide as Hd; [|apply (Hold u pu Hu); naive_solver].
    destruct Hd as [-> _]. injection Hu as <-. destruct Heff as [_ _ Hn| ]; [|done]. destruct p'; cbn in Hn |- *; done.
  - intros u u' pu pu' i Hu Hu' Ho Ho'. rewrite !(own_cap (queue s)) in Ho, Ho' by done. rewrite list_lookup_insert in Hu, Hu'.
    repeat case_decide; simplify_eq; try naive_solver. by eapply (i_excl s Hinv).
Qed.

Lemma queue_inv_step a s s' e : inv s → step a s = Some (s', e) → inv s'.
Proof.
  intros Hinv Hs. destruct a as [t x|t|t b]; cbn [step] in Hs; destruct (threads s !! t) as [p|] eqn:Et; try done; [destruct p; simplify_eq; by apply inv_call..|].
  destruct (go b p (queue s)) as [[p' q'] o] eqn:Eg. injection Hs as <- <-. by eapply inv_go.
Qed.
(** ** No item is lost or duplicated *)

Lemma bind_split {A B} (g : A → list B) (l : list A) i a :
  l !! i = Some a → ∃ rest, l ≫= g ≡ₚ g a ++ rest ∧ ∀ b, <[i := b]> l ≫= g ≡ₚ g b ++ rest.
Proof.
  intros Hi. exists ((take i l ++ drop (S i) l) ≫= g).
  assert (Hm : ∀ b, (take i l ++ b :: drop (S i) l) ≫= g ≡ₚ g b ++ (take i l ++ drop (S i) l) ≫= g).
  { intros b. rewrite !bind_app. cbn. rewrite !app_assoc. f_equiv. apply Permutation_app_comm. }
  split; [rewrite <-(Hm a); by rewrite take_drop_middle|]. intros b. rewrite <-(Hm b), insert_take_drop; [done|by eapply lookup_lt_Some].
Qed.

Lemma bind_replicate_nil {A B} (g : A → list B) a n : g a = [] → replicate n a ≫= g = [].
Proof. intros Hg. induction n as [|n IH]; [done|]. cbn [replicate]. by rewrite bind_cons, Hg, IH. Qed.

Lemma perm_group {A} (a b c d e : list A) : a ++ (b ++ c) ++ (d ++ e) ≡ₚ (a ++ b ++ d) ++ (c ++ e).
Proof. rewrite <-!app_assoc. do 2 f_equiv. rewrite !app_assoc. f_equiv. apply Permutation_app_comm. Qed.

Lemma step_balance a s s' o :
  inv s → step a s = Some (s', o) → o ≠ Some Uninit ∧
  log_act a ++ (threads s ≫= held) ≡ₚ (log_event o ≫= refused_item) ++ (log_event o ≫= sent_item) ++ (threads s' ≫= held) ∧
  (log_event o ≫= sent_item) ++ (buffer (queue s) ≫= slot_items) ++ (threads s ≫= taken) ≡ₚ
    (log_event o ≫= got_item) ++ (buffer (queue s') ≫= slot_items) ++ (threads s' ≫= taken).
Proof.
  intros Hinv Hs. destruct a as [t x|t|t b]; cbn [step] in Hs; destruct (threads s !! t) as [p|] eqn:Et; try done.
  - destruct p; simplify_eq. destruct (bind_split held _ _ _ Et) as (R & HR & HR'). destruct (bind_split taken _ _ _ Et) as (R2 & H2 & H2'). cbn [threads queue log_act log_event].
    split_and!; [done|by rewrite HR, HR'|by rewrite H2, H2'].
  - destruct p; simplify_eq. destruct (bind_split held _ _ _ Et) as (R & HR & HR'). destruct (bind_split taken _ _ _ Et) as (R2 & H2 & H2'). cbn [threads queue log_act log_event].
    split_and!; [done|by rewrite HR, HR'|by rewrite H2, H2'].
  - destruct (go b p (queue s)) as [[p' q'] o'] eqn:Eg. injection Hs as <- <-. cbn [threads queue log_act].
    destruct (go_effect _ _ _ _ _ _ (i_slots s Hinv) (Forall_lookup_1 _ _ _ _ (i_pcs s Hinv) Et) Eg) as (_ & Hu & Hh & Heff).
    destruct (bind_split held _ _ _ Et) as (R & HR & HR'). destruct (bind_split taken _ _ _ Et) as (R2 & H2 & H2').
    split; [done|]. split; [by rewrite HR, HR', Hh, <-!app_assoc|]. rewrite H2, H2'.
    destruct Heff as [-> _ _ -> -> -> ->|i sl sl' Hi -> _ _ _ _ Hbal]; [done|]. destruct (bind_split slot_items _ _ _ Hi) as (R3 & H3 & H3').
    by rewrite H3, H3', !perm_group, Hbal.
Qed.

Lemma run_balance l s s' es :
  inv s → run l s = Some (s', es) → inv s' ∧ Uninit ∉ es ∧
  (l ≫= log_act) ++ (threads s ≫= held) ≡ₚ (es ≫= refused_item) ++ (es ≫= sent_item) ++ (threads s' ≫= held) ∧
  (es ≫= sent_item) ++ (buffer (queue s) ≫= slot_items) ++ (threads s ≫= taken) ≡ₚ
    (es ≫= got_item) ++ (buffer (queue s') ≫= slot_items) ++ (threads s' ≫= taken).
Proof.
  revert s es. induction l as [|a l IH]; intros s es Hinv Hr; [injection Hr as <- <-; split_and!; [done|by apply not_elem_of_nil|done..]|].
  cbn [run] in Hr. destruct (step a s) as [[s1 o]|] eqn:E; [|done]. cbn in Hr. destruct (run l s1) as [[s2 es2]|] eqn:E2; [|done]. injection Hr as <- <-.
  destruct (step_balance _ _ _ _ Hinv E) as (Hu & H1 & H2). destruct (IH _ _ (queue_inv_step _ _ _ _ Hinv E) E2) as (Hinv2 & Hu2 & H1' & H2').
  split_and!; [done|..].
  - rewrite not_elem_of_app. split; [|done]. destruct o as [e|]; cbn; [|by apply not_elem_of_nil]. intros He%list_elem_of_singleton. by subst e.
  - rewrite bind_cons, !bind_app. rewrite <-app_assoc, (Permutation_app_comm (l ≫= log_act)), app_assoc, H1, <-!app_assoc.
    rewrite (Permutation_app_comm (threads s1 ≫= held)), H1'. rewrite !app_assoc. f_equiv. rewrite <-!app_assoc. f_equiv. rewrite !app_assoc. f_equiv. apply Permutation_app_comm.
  - rewrite !bind_app. rewrite (Permutation_app_comm (log_event o ≫= sent_item)), <-app_assoc, H2.
    rewrite (app_assoc (es2 ≫= sent_item)), (Permutation_app_comm (es2 ≫= sent_item)), <-app_assoc, H2'. by rewrite <-!app_assoc.
Qed.

(** C12: Items are neither lost nor duplicated, and no memory is read that holds none.
    Any number of threads send and receive in any interleaving: no receiver reads an
    uninitialised slot; no two threads ever work on the same slot; the items passed to
    [try_send] are exactly those given back, those accepted and those of calls in
    progress; and the accepted items are exactly those received, those lying in the
    buffer and those a receiver is about to return. *)
Theorem items_conserved alloc c q n l s es :
  new alloc c = Some q → c < 2 ^ 64 → run l (start n q) = Some (s, es) →
  Uninit ∉ es ∧
  (∀ t t' p p' i, threads s !! t = Some p → threads s !! t' = Some p' → own (queue s) p = Some i → own (queue s) p' = Some i → t = t') ∧
  l ≫= log_act ≡ₚ (es ≫= refused_item) ++ (es ≫= sent_item) ++ (threads s ≫= held) ∧
  es ≫= sent_item ≡ₚ (es ≫= got_item) ++ (buffer (queue s) ≫= slot_items) ++ (threads s ≫= taken).
Proof.
  intros Hn Hc Hr. assert (Hs : Forall slot_ok (buffer q) ∧ buffer q ≫= slot_items = []).
  { unfold new in Hn. destruct (_ || _); [done|]. destruct alloc; [|done]. injection Hn as <-. cbn. split; [by apply Forall_replicate|]. by apply bind_replicate_nil. }
  destruct Hs as [Hs Hb]. destruct (run_balance l (start n q) s es) as (Hinv & Hu & H1 & H2); [apply inv_start; [by eapply new_wf|done]|done|].
  unfold start in H1, H2. cbn [threads queue] in H1, H2. rewrite bind_replicate_nil, app_nil_r in H1 by done. rewrite Hb, bind_replicate_nil, !app_nil_r in H2 by done.
  split_and!; [done|apply Hinv|done|done].
Qed.

(** ** Calls that do not overlap: a bounded queue *)

(** The slots from the dequeue position on hold the items of [l], in order; the others
    are free. *)
Record rep q (l : list T) : Prop := mkRep {
  r_wf : wf q;
  r_deq : 0 ≤ dequeue_pos q < 2 ^ 64;
  r_enq : enqueue_pos q = (dequeue_pos q + zlen l) mod 2 ^ 64;
  r_len : zlen l ≤ capacity q;
  r_slots : ∀ j, 0 ≤ j < capacity q → buffer q !! idx q (dequeue_pos q + j) =
    Some (match l !! Z.to_nat j with Some x => mkSlot READY (Some x) | None => new_slot end) }.

Lemma wf_cap q : wf q → 2 ≤ capacity q ≤ 2 ^ 63 ∧ (capacity q | 2 ^ 64).
Proof.
  intros (k & Hk & -> & _). split.
  - split; [change 2 with (2 ^ 1) at 1|]; apply Z.pow_le_mono_r; lia.
  - exists (2 ^ (64 - k)). rewrite <-Z.pow_add_r by lia. f_equal. lia.
Qed.

Lemma idx_eq q q' pos pos' : wf q → wf q' → capacity q' = capacity q → pos mod capacity q = pos' mod capacity q → idx q pos = idx q' pos'.
Proof. intros Hq Hq' Hc He. apply Nat2Z.inj. by rewrite !idx_mod, Hc by done. Qed.

Lemma mod_wrap q z : wf q → (z mod 2 ^ 64) mod capacity q = z mod capacity q.
Proof. intros Hq. destruct (wf_cap q Hq) as [[? ?] Hd]. destruct Hd as [m Hm]. rewrite Hm. rewrite (Z.mul_comm m), Z.rem_mul_r by lia. rewrite Z.mul_comm, Z.mod_add by lia. apply Z.mod_mod. lia. Qed.

Lemma idx_inj q d i j : wf q → 0 ≤ i < capacity q → 0 ≤ j < capacity q → idx q (d + i) = idx q (d + j) → i = j.
Proof.
  intros Hq Hi Hj He. assert (Hm : (d + i) mod capacity q = (d + j) mod capacity q) by (rewrite <-!idx_mod, He by done; done).
  pose proof (Z.div_mod (d + i) (capacity q) ltac:(lia)) as Ei. pose proof (Z.div_mod (d + j) (capacity q) ltac:(lia)) as Ej. rewrite Hm in Ei.
  set (a := (d + i) / capacity q) in *. set (b := (d + j) / capacity q) in *. assert (Hab : capacity q * (a - b) = i - j) by lia.
  assert (a = b) by nia. subst a b. nia.
Qed.

Lemma rep_dist q l : rep q l → u64_sub (enqueue_pos q) (dequeue_pos q) = zlen l.
Proof.
  intros [Hq Hd He Hl _]. destruct (wf_cap q Hq) as [Hc _]. pose proof (zlen_nonneg l). unfold u64_sub. rewrite He, Zminus_mod_idemp_l.
  rewrite Z.mod_small; lia.
Qed.

Lemma state_is_eq st pos q sl : buffer q !! idx q pos = Some sl → state_is st pos q = bool_decide (state sl = st).
Proof. unfold state_is. by intros ->. Qed.

Lemma wf_with q e d f : wf q → wf (mkQueue (capacity q) e d (alter f (idx q d) (buffer q))) ∧ wf (mkQueue (capacity q) e d (buffer q)).
Proof. intros (k & Hk & Hc & Hl). split; exists k; cbn; by rewrite ?length_alter. Qed.

(** The position loop, with [k] spurious failures. *)
Lemma solo_send_pos f k x r q :
  full_at (enqueue_pos q) q = false → (r + k < MAX_RETRIES)%nat →
  solo (3 * S k + f) k (SLoad x r) q = solo f 0 (SFull2 x (enqueue_pos q)) (set_enq (u64_add (enqueue_pos q) 1) q).
Proof.
  intros Hf. revert r. induction k as [|k IH]; intros r Hr.
  - change (3 * 1 + f)%nat with (S (S (S f))). cbn [solo go Nat.eqb negb andb]. rewrite Hf. cbn [solo go Nat.eqb negb andb]. by rewrite Z.eqb_refl.
  - replace (3 * S (S k) + f)%nat with (S (S (S (3 * S k + f)))) by lia. cbn [solo go Nat.eqb negb andb]. rewrite Hf. cbn [solo go Nat.eqb negb andb].
    rewrite (proj2 (Nat.leb_gt MAX_RETRIES (S r))) by lia. cbn [pred]. apply IH. lia.
Qed.

Lemma solo_recv_pos f k r q :
  dequeue_pos q ≠ enqueue_pos q → (r + k < MAX_RETRIES)%nat →
  solo (3 * S k + f) k (RLoad r) q = solo f 0 (REmpty2 (dequeue_pos q)) (set_deq (u64_add (dequeue_pos q) 1) q).
Proof.
  intros Hf%Z.eqb_neq. revert r. induction k as [|k IH]; intros r Hr.
  - change (3 * 1 + f)%nat with (S (S (S f))). cbn [solo go Nat.eqb negb andb]. rewrite Hf. cbn [solo go Nat.eqb negb andb]. by rewrite Z.eqb_refl.
  - replace (3 * S (S k) + f)%nat with (S (S (S (3 * S k + f)))) by lia. cbn [solo go Nat.eqb negb andb]. rewrite Hf. cbn [solo go Nat.eqb negb andb].
    rewrite (proj2 (Nat.leb_gt MAX_RETRIES (S r))) by lia. cbn [pred]. apply IH. lia.
Qed.

Lemma call_fuel k : (k < MAX_RETRIES)%nat → ∃ f, CALL_STEPS = (3 * S k + (5 + f))%nat.
Proof. unfold MAX_RETRIES, CALL_STEPS. intros Hk. exists (252 - 3 * k)%nat. lia. Qed.

(** Three updates of one slot. *)
Lemma alter3_eq (f g h : Slot T → Slot T) i (b : list (Slot T)) sl :
  b !! i = Some sl → alter f i (alter g i (alter h i b)) = <[i := f (g (h sl))]> b.
Proof.
  intros Hi. pose proof (lookup_lt_Some _ _ _ Hi). apply list_eq. intros j. destruct (decide (j = i)) as [->|Hne].
  - by rewrite !list_lookup_alter_eq, list_lookup_insert_eq, Hi.
  - by rewrite !list_lookup_alter_ne, list_lookup_insert_ne.
Qed.

Lemma try_send_full k x q l : rep q l → zlen l = capacity q → try_send k x q = Some (q, Refused x).
Proof.
  intros Hr Hl. unfold try_send. assert (∃ f, CALL_STEPS = S (S f)) as [f ->] by (by exists 258%nat). cbn [solo go]. unfold full_at. rewrite (rep_dist q l Hr), Hl, Z.leb_refl. done.
Qed.

Lemma try_recv_empty k q : dequeue_pos q = enqueue_pos q → try_recv k q = Some (q, Nothing).
Proof. intros He. unfold try_recv. assert (∃ f, CALL_STEPS = S (S f)) as [f ->] by (by exists 258%nat). cbn [solo go]. by rewrite (proj2 (Z.eqb_eq _ _) He). Qed.

Lemma try_send_ok k x q l : rep q l → zlen l < capacity q → (k < MAX_RETRIES)%nat → ∃ q', try_send k x q = Some (q', Sent x) ∧ rep q' (l ++ [x]).
Proof.
  intros Hr Hl Hk. pose proof (rep_dist q l Hr) as Hdist. destruct Hr as [Hq Hd He Hle Hs]. destruct (wf_cap q Hq) as [Hc _]. pose proof (zlen_nonneg l) as H0.
  assert (Hfull : full_at (enqueue_pos q) q = false) by (unfold full_at; rewrite Hdist; apply Z.leb_gt; lia).
  assert (Hi : idx q (enqueue_pos q) = idx q (dequeue_pos q + zlen l)) by (apply idx_eq; [done..|]; by rewrite He, mod_wrap).
  assert (Hsl : buffer q !! idx q (enqueue_pos q) = Some new_slot).
  { rewrite Hi, Hs by lia. rewrite lookup_ge_None_2; [done|]. unfold zlen. lia. }
  unfold try_send. destruct (call_fuel k Hk) as [f ->]. rewrite solo_send_pos by (done || lia). set (q1 := set_enq (u64_add (enqueue_pos q) 1) q).
  change (5 + f)%nat with (S (S (S (S (S f))))). cbn [solo go andb]. replace (full_at (enqueue_pos q) q1) with false by exact (eq_sym Hfull). cbn [solo go andb].
  rewrite (state_is_eq EMPTY (enqueue_pos q) q1 new_slot) by exact Hsl. rewrite bool_decide_true by done. cbn [solo go andb].
  eexists. split; [reflexivity|].
  unfold set_state, set_data, alter_slot, q1, set_enq. cbn [capacity enqueue_pos dequeue_pos buffer]. unfold idx at 1 2 3. cbn [capacity].
  fold (idx q (enqueue_pos q)). rewrite (alter3_eq _ _ _ _ _ _ Hsl). cbn [state data]. set (i := idx q (enqueue_pos q)) in *.
  assert (Hwf : wf (mkQueue (capacity q) (u64_add (enqueue_pos q) 1) (dequeue_pos q) (<[i := mkSlot READY (Some x)]> (buffer q)))).
  { destruct Hq as (e & He1 & He2 & He3). exists e. cbn. by rewrite length_insert. }
  constructor; cbn [capacity enqueue_pos dequeue_pos buffer]; [done|done| | |].
  - unfold u64_add. rewrite He, Zplus_mod_idemp_l, zlen_app, zlen_cons, zlen_nil. f_equal. lia.
  - rewrite zlen_app, zlen_cons, zlen_nil. lia.
  - intros j Hj. change (idx (mkQueue (capacity q) _ _ _) ?p) with (idx q p).
    destruct (decide (j = zlen l)) as [->|Hne].
    + rewrite <-Hi. fold i. rewrite list_lookup_insert_eq by (by eapply lookup_lt_Some). unfold zlen. rewrite Nat2Z.id, list_lookup_middle by done. done.
    + rewrite list_lookup_insert_ne. 2: { intros Heq. rewrite Hi in Heq. apply Hne. symmetry. by apply (idx_inj q (dequeue_pos q)). }
      rewrite Hs by done. do 2 f_equal. destruct (Z.lt_ge_cases j (zlen l)); [by rewrite lookup_app_l by (unfold zlen in *; lia)|].
      rewrite !lookup_ge_None_2; [done|rewrite length_app; cbn; unfold zlen in *; lia|unfold zlen in *; lia].
Qed.

Lemma try_recv_first k x q l : rep q (x :: l) → (k < MAX_RETRIES)%nat → ∃ q', try_recv k q = Some (q', Got x) ∧ rep q' l.
Proof.
  intros [Hq Hd He Hle Hs] Hk. destruct (wf_cap q Hq) as [Hc _]. rewrite zlen_cons in He, Hle. pose proof (zlen_nonneg l) as H0.
  assert (Hne : dequeue_pos q ≠ enqueue_pos q).
  { rewrite He. intros Heq. destruct (Z.lt_ge_cases (dequeue_pos q + (1 + zlen l)) (2 ^ 64)) as [?|?]; [rewrite Z.mod_small in Heq; lia|].
    rewrite <-(Z.mod_unique _ _ 1 (dequeue_pos q + (1 + zlen l) - 2 ^ 64)) in Heq; lia. }
  assert (Hsl : buffer q !! idx q (dequeue_pos q) = Some (mkSlot READY (Some x))) by (rewrite <-(Z.add_0_r (dequeue_pos q)); by rewrite Hs by lia).
  unfold try_recv. destruct (call_fuel k Hk) as [f ->]. rewrite solo_recv_pos by (done || lia). set (q1 := set_deq (u64_add (dequeue_pos q) 1) q).
  change (5 + f)%nat with (S (S (S (S (S f))))). cbn [solo go andb]. rewrite (proj2 (Z.eqb_neq (dequeue_pos q) (enqueue_pos q1)) Hne). cbn [solo go andb].
  rewrite (state_is_eq READY (dequeue_pos q) q1 (mkSlot READY (Some x))) by exact Hsl. rewrite bool_decide_true by done. cbn [solo go andb].
  destruct (alter_slot_eq (λ sl, mkSlot LOADING (data sl)) (dequeue_pos q) q1 _ Hsl) as [_ Hb].
  assert (Hrd : (buffer (set_state LOADING (dequeue_pos q) q1) !! idx (set_state LOADING (dequeue_pos q) q1) (dequeue_pos q)) ≫= data = Some x) by exact (f_equal (λ o, o ≫= data) Hb).
  rewrite Hrd. cbn [solo go andb]. eexists. split; [reflexivity|].
  unfold set_state, set_data, alter_slot, q1, set_deq. cbn [capacity enqueue_pos dequeue_pos buffer]. unfold idx at 1 2 3. cbn [capacity].
  fold (idx q (dequeue_pos q)). rewrite (alter3_eq _ _ _ _ _ _ Hsl). cbn [state data]. set (i := idx q (dequeue_pos q)) in *.
  assert (Hwf : wf (mkQueue (capacity q) (enqueue_pos q) (u64_add (dequeue_pos q) 1) (<[i := mkSlot EMPTY None]> (buffer q)))).
  { destruct Hq as (e & He1 & He2 & He3). exists e. cbn. by rewrite length_insert. }
  constructor; cbn [capacity enqueue_pos dequeue_pos buffer]; [done|apply Z.mod_pos_bound; lia| |lia|].
  - unfold u64_add. rewrite Zplus_mod_idemp_l, He. f_equal. lia.
  - intros j Hj. change (idx (mkQueue (capacity q) _ _ _) ?p) with (idx q p).
    assert (Hij : idx q (u64_add (dequeue_pos q) 1 + j) = idx q (dequeue_pos q + (1 + j))).
    { apply idx_eq; [done..|]. unfold u64_add. rewrite <-(Zplus_mod_idemp_l ((_ + _) mod 2 ^ 64)), mod_wrap, Zplus_mod_idemp_l by done. f_equal. lia. }
    rewrite Hij. destruct (decide (1 + j = capacity q)) as [Hj'|Hj'].
    + assert (Hi2 : idx q (dequeue_pos q + (1 + j)) = i). { apply idx_eq; [done..|]. rewrite Hj'. rewrite <-(Z.mul_1_l (capacity q)) at 1. apply Z.mod_add. lia. }
      rewrite Hi2, list_lookup_insert_eq by (by eapply lookup_lt_Some). rewrite lookup_ge_None_2; [done|unfold zlen in *; lia].
    + rewrite list_lookup_insert_ne. 2: { subst i. intros Heq. rewrite <-(Z.add_0_r (dequeue_pos q)) in Heq at 1. apply idx_inj in Heq; [lia|done|lia|lia]. }
      rewrite Hs by lia. replace (Z.to_nat (1 + j)) with (S (Z.to_nat j)) by lia. done.
Qed.

Lemma solo_capacity f k p q q' e : solo f k p q = Some (q', e) → capacity q' = capacity q.
Proof.
  revert p q k. induction f as [|f IH]; intros p q k H; [done|]. cbn [solo] in H.
  match type of H with context [go ?b p q] => destruct (go b p q) as [[p1 q1] o] eqn:Eg; assert (Hc : capacity q1 = capacity q) end.
  { revert Eg. destruct p; cbn [go]; unfold undo_enq, undo_deq; go_cases; intros Eg; by simplify_eq. }
  destruct o; [by simplify_eq|]. rewrite <-Hc. by eapply IH.
Qed.

Lemma call_capacity q q' e k : (∃ x, try_send k x q = Some (q', e)) ∨ try_recv k q = Some (q', e) → capacity q' = capacity q.
Proof. unfold try_send, try_recv. generalize CALL_STEPS. intros f [[x H]|H]; by eapply solo_capacity. Qed.

Lemma solo_spin f m sp x pos q :
  state_is EMPTY pos q = false → (sp + m = 63)%nat → solo (S m + f) 0 (SClaim x pos sp) q = solo f 0 (SUndo x pos) q.
Proof.
  intros Hs. revert sp. induction m as [|m IH]; intros sp Hsp.
  - change (1 + f)%nat with (S f). cbn [solo go andb]. rewrite Hs. replace sp with 63%nat by lia. done.
  - change (S (S m) + f)%nat with (S (S m + f)). cbn [solo go andb]. rewrite Hs, (proj2 (Nat.leb_gt MAX_RETRIES (S sp))) by (unfold MAX_RETRIES; lia). apply IH. lia.
Qed.

(** A send whose slot is not free gives its position back. *)
Lemma try_send_stuck k x q :
  full_at (enqueue_pos q) q = false → state_is EMPTY (enqueue_pos q) q = false → (k < MAX_RETRIES)%nat → try_send k x q = Some (q, Refused x).
Proof.
  intros Hf Hs Hk. unfold try_send. assert (∃ f m, m = 63%nat ∧ CALL_STEPS = (3 * S k + S (S m + S f))%nat) as (f & m & Hm & ->).
  { unfold MAX_RETRIES, CALL_STEPS in *. exists (191 - 3 * k)%nat, 63%nat. lia. }
  rewrite solo_send_pos by (done || lia). set (q1 := set_enq (u64_add (enqueue_pos q) 1) q).
  remember (S m + S f)%nat as g eqn:Hg. cbn [solo go andb]. replace (full_at (enqueue_pos q) q1) with false by exact (eq_sym Hf). rewrite Hg.
  rewrite (solo_spin (S f) m 0 x (enqueue_pos q) q1 Hs) by lia. cbn [solo go andb]. unfold undo_enq. cbn [q1 enqueue_pos set_enq]. rewrite Z.eqb_refl. by destruct q.
Qed.

#[local] Opaque try_send try_recv.

(** Calls one after the other, each with its number of spurious failures. *)
Inductive call := CSend (k : nat) x | CRecv (k : nat).

Definition failures (c : call) : nat := match c with CSend k _ | CRecv k => k end.

Definition exec (c : call) q : option (MpmcQueue T * event T) := match c with CSend k x => try_send k x q | CRecv k => try_recv k q end.

Fixpoint calls (l : list call) q : option (MpmcQueue T * list (event T)) :=
  match l with
  | [] => Some (q, [])
  | c :: l' => '(q1, e) ← exec c q; '(q2, es) ← calls l' q1; Some (q2, e :: es)
  end.

(** The specification: a queue of at most [c] items. *)
Definition fifo_step (c : Z) (o : call) (l : list T) : event T * list T :=
  match o, l with
  | CSend _ x, _ => if zlen l <? c then (Sent x, l ++ [x]) else (Refused x, l)
  | CRecv _, x :: l' => (Got x, l')
  | CRecv _, [] => (Nothing, [])
  end.

Fixpoint fifo (c : Z) (os : list call) (l : list T) : list (event T) * list T :=
  match os with
  | [] => ([], l)
  | o :: os' => let '(e, l1) := fifo_step c o l in let '(es, l2) := fifo c os' l1 in (e :: es, l2)
  end.

Lemma exec_fifo o q l :
  rep q l → (failures o < MAX_RETRIES)%nat →
  ∃ q', exec o q = Some (q', (fifo_step (capacity q) o l).1) ∧ rep q' (fifo_step (capacity q) o l).2 ∧ capacity q' = capacity q.
Proof.
  intros Hr Hk. pose proof (r_wf _ _ Hr) as Hq.
  destruct o as [k x|k]; cbn [exec fifo_step failures] in *.
  - pose proof (r_len _ _ Hr). destruct (Z.ltb_spec (zlen l) (capacity q)).
    + destruct (try_send_ok k x q l) as (q' & Hs & Hr'); [done..|]. exists q'. split; [done|]. split; [done|]. apply (call_capacity _ _ _ k (or_introl (ex_intro _ x Hs))).
    + exists q. split; [|done]. by apply (try_send_full k x q l Hr ltac:(lia)).
  - destruct l as [|x l].
    + exists q. split; [|done]. apply try_recv_empty. rewrite (r_enq _ _ Hr), zlen_nil, Z.add_0_r, Z.mod_small; [done|apply Hr].
    + destruct (try_recv_first k x q l Hr Hk) as (q' & Hs & Hr'). exists q'. split; [done|]. split; [done|]. apply (call_capacity _ _ _ k (or_intror Hs)).
Qed.

Lemma calls_fifo os q l :
  rep q l → Forall (λ o, failures o < MAX_RETRIES)%nat os →
  ∃ q', calls os q = Some (q', (fifo (capacity q) os l).1) ∧ rep q' (fifo (capacity q) os l).2.
Proof.
  revert q l. induction os as [|o os IH]; intros q l Hr Hf; [by exists q|]. apply Forall_cons in Hf as [Ho Hf].
  destruct (exec_fifo o q l Hr Ho) as (q1 & He & Hr1 & Hc). cbn [calls fifo]. rewrite He. cbn [mbind option_bind].
  destruct (fifo_step (capacity q) o l) as [e l1]. cbn [fst snd] in *. destruct (IH q1 l1 Hr1 Hf) as (q2 & H2 & Hr2). rewrite Hc in H2, Hr2.
  rewrite H2. cbn [mbind option_bind]. destruct (fifo (capacity q) os l1) as [es l2]. by exists q2.
Qed.

Lemma drain_rep fuel q l : rep q l → (length l < fuel)%nat → ∃ q', drain fuel q = (q', l) ∧ rep q' [].
Proof.
  revert q l. induction fuel as [|fuel IH]; intros q l Hr Hf; [lia|]. cbn [drain]. destruct l as [|x l].
  - rewrite try_recv_empty; [by exists q|]. rewrite (r_enq _ _ Hr), zlen_nil, Z.add_0_r, Z.mod_small; [done|apply Hr].
  - destruct (try_recv_first 0 x q l Hr) as (q1 & -> & Hr1); [unfold MAX_RETRIES; lia|]. cbn in Hf. destruct (IH q1 l Hr1 ltac:(lia)) as (q2 & -> & Hr2). by exists q2.
Qed.

Lemma drop_rep q l : rep q l → drop_queue q = l.
Proof.
  intros Hr. unfold drop_queue. pose proof (r_len _ _ Hr) as Hl. destruct (drain_rep (S (Z.to_nat (capacity q))) q l Hr) as (q' & -> & Hr'); [unfold zlen in Hl; lia|].
  rewrite (r_enq _ _ Hr'), zlen_nil, Z.add_0_r, Z.mod_small by apply Hr'. rewrite Z.sub_diag. cbn. apply app_nil_r.
Qed.

Lemma new_rep alloc c q : new alloc c = Some q → c < 2 ^ 64 → rep q [] ∧ capacity q = c.
Proof.
  intros Hn Hc. pose proof (new_wf _ _ _ Hn Hc) as Hq. unfold new in Hn. destruct (_ || _); [done|]. destruct alloc; [|done]. injection Hn as <-.
  split; [|done]. destruct (wf_cap _ Hq) as [Hcap _]. cbn [capacity] in Hcap. constructor; cbn [capacity dequeue_pos enqueue_pos buffer]; [done|lia|done|rewrite zlen_nil; lia|]. intros j Hj. rewrite lookup_nil. cbn [buffer].
  apply lookup_replicate_2. pose proof (idx_lt _ (0 + j) Hq) as Hi. cbn [buffer dequeue_pos] in *. by rewrite length_replicate in Hi.
Qed.

(** C13: Calls that do not overlap see a bounded first-in first-out queue. For any power
    of two, any sequence of [try_send] and [try_recv], by whichever threads, and up to
    63 spurious failures in each, the replies are those of a queue of that many items
    (also after the positions wrap), and dropping the queue at the end drops exactly
    the items in it. *)
Theorem sequential_fifo alloc c q os :
  new alloc c = Some q → c < 2 ^ 64 → Forall (λ o, failures o < MAX_RETRIES)%nat os →
  ∃ q', calls os q = Some (q', (fifo c os []).1) ∧ drop_queue q' = (fifo c os []).2.
Proof.
  intros Hn Hc Hf. destruct (new_rep _ _ _ Hn Hc) as [Hr Hcap]. destruct (calls_fifo os q [] Hr Hf) as (q' & H1 & H2). rewrite Hcap in H1, H2.
  exists q'. split; [done|]. by apply drop_rep.
Qed.

(** ** A queue that stops working *)

End Theorems.

(** ** Concrete runs *)

Definition demo_queue : MpmcQueue Z := mkQueue 2 0 0 [new_slot; new_slot].

Definition gos_of (t n : nat) : list (act Z) := replicate n (Go t false).

Lemma calls_wait_free_witness :
  ∃ s es, run (gos_of 0 260) (mkState demo_queue [SLoad 5 0; Idle]) = Some (s, es) ∧ threads s !! 0%nat = Some Idle.
Proof.
  eexists _, _. split; [by vm_compute|]. eapply (calls_wait_free 2 demo_queue [Send 0 5] (gos_of 0 260) (mkState demo_queue [SLoad 5 0; Idle]) _ _ _ 0 260); [by vm_compute|by vm_compute|lia|by vm_compute|unfold CALL_STEPS; lia].
Defined.

(** Two senders and a receiver, interleaved. *)
Definition demo_run : list (act Z) :=
  [Send 0 5; Send 1 6; Recv 2] ++ gos_of 0 4 ++ gos_of 1 7 ++ gos_of 2 10 ++ gos_of 0 3 ++ gos_of 2 3.

Lemma items_conserved_witness :
  ∃ s es, run demo_run (start 3 demo_queue) = Some (s, es) ∧ es ≫= sent_item = [6; 5] ∧
    es ≫= sent_item ≡ₚ (es ≫= got_item) ++ (buffer (queue s) ≫= slot_items) ++ (threads s ≫= taken).
Proof.
  eexists _, _. split; [by vm_compute|]. split; [by vm_compute|].
  refine (proj2 (proj2 (proj2 (items_conserved true 2 demo_queue 3 demo_run _ _ _ _ _)))); [by vm_compute|by vm_compute|by vm_compute].
Defined.

Lemma sequential_fifo_witness :
  ∃ q', calls [CSend 0 1; CSend 63 2; CSend 0 3; CRecv 5; CSend 0 4] demo_queue = Some (q', [Sent 1; Sent 2; Refused 3; Got 1; Sent 4]) ∧
    drop_queue q' = [2; 4].
Proof.
  refine (sequential_fifo true 2 demo_queue [CSend 0 1; CSend 63 2; CSend 0 3; CRecv 5; CSend 0 4] _ _ _); [by vm_compute|by vm_compute|].
  apply (bool_decide_unpack _). by vm_compute.
Defined.

(** Sender 0 takes position 0 and is preempted; receiver 1 takes it too and waits;
    sender 2 and receiver 3 pass through position 1; receiver 1 gives up; sender 0 goes
    on. *)
Definition wedge_run : list (act Z) :=
  [Send 0 10] ++ gos_of 0 4 ++ [Recv 1] ++ gos_of 1 4 ++ [Send 2 20] ++ gos_of 2 7 ++ [Recv 3] ++ gos_of 3 7 ++ gos_of 1 65 ++ gos_of 0 3.

Definition failed (o : call) : event Z := match o with CSend _ x => Refused x | CRecv _ => Nothing end.

Lemma stuck_calls (q : MpmcQueue Z) os :
  full_at (enqueue_pos q) q = false → state_is EMPTY (enqueue_pos q) q = false → dequeue_pos q = enqueue_pos q →
  Forall (λ o, failures o < MAX_RETRIES)%nat os → calls os q = Some (q, failed <$> os).
Proof.
  intros Hf Hs He. induction os as [|o os IH]; intros Hk; [done|]. apply Forall_cons in Hk as [Hk Hks]. cbn [calls].
  assert (Ho : exec o q = Some (q, failed o)) by (destruct o as [k x|k]; [by apply try_send_stuck|by apply try_recv_empty]).
  rewrite Ho. cbn [mbind option_bind]. rewrite IH by done. done.
Qed.

(** The queue can stop working for good. After the interleaving [wedge_run] of two
    sends and two receives on a queue of two slots, every call has returned, both sends
    were accepted and one item was received; the other one lies in the buffer, but the
    queue reports that it is empty. From then on every [try_recv] that is not
    overlapped by another call finds nothing, every [try_send] is refused, the queue
    never changes, and dropping it does not drop the item. *)
Theorem queue_wedges :
  ∃ s, new true 2 = Some demo_queue ∧ run wedge_run (start 4 demo_queue) = Some (s, [Sent 20; Got 20; Nothing; Sent 10]) ∧
    threads s = replicate 4 Idle ∧ buffer (queue s) ≫= slot_items = [10] ∧ len (queue s) = 0 ∧ drop_queue (queue s) = [] ∧
    ∀ os, Forall (λ o, failures o < MAX_RETRIES)%nat os → calls os (queue s) = Some (queue s, failed <$> os).
Proof.
  eexists. split; [by vm_compute|]. split; [by vm_compute|]. do 4 (split; [by vm_compute|]). intros os Hos. by apply stuck_calls; [vm_compute..|].
Qed.

End Mpmc.
