(* ===== verification/NfsWrite.v ===== *)
(** Writing the contents of a new file on a NeuralFS volume and reading them back: the
    extent, the pages, the inode and the page checksums, through the commit and the next
    mount. *)

From S2P Require Import Prelude Checksum Flash NfsNode NfsRep NfsFormat NfsVolume NfsFiles NfsDisk NfsSuper NfsJournal NfsAlloc NfsTree NfsCow NfsInsert NfsSplit NfsMap NfsCreate NfsLimits.
From Stdlib Require Import Sorting.Sorted.
Import Crc32c Btree Super Volume Files.

(** * Allocation of an extent *)

(** Room for a run of [n] blocks behind the frontier. *)
Definition run_fits (n : Z) (v : NeuralVolume) : Prop := n ≤ free_blocks (sb v) ∧ next_cow_block (sb v) + n ≤ total_blocks (sb v).

Lemma alloc_contiguous_fits v own n :
  alloc_ok v own → 0 < n < 2 ^ 32 → run_fits n v → ∃ first v', alloc_contiguous1 n v = (Some (first, n), v') ∧ space v - 2 * n ≤ space v'.
Proof.
  intros [Hfr Htot Hfb _ _ _ _] Hn [H1 H2]. unfold alloc_contiguous1. rewrite (proj2 (Z.eqb_neq _ _)) by lia.
  assert (Hb : ∀ s, zlen s = zlen (free_stack v) → ∃ first v', bump n (with_free_stack s v) = (Some (first, n), v') ∧ space v - 2 * n ≤ space v').
  { intros s Hs. unfold bump. cbn. rewrite u64_add_small by lia. rewrite !(proj2 (Z.ltb_ge _ _)) by lia. cbn. rewrite (Z.mod_small n) by lia. eexists _, _. split; [reflexivity|].
    unfold space, u64_sat_sub. cbn. lia. }
  destruct (Z.leb_spec n (zlen (free_stack v))) as [Hle|Hlt].
  - destruct (contiguous _).
    + rewrite (Z.mod_small n) by lia. eexists _, _. split; [reflexivity|]. unfold space, u64_sat_sub. cbn. unfold zlen in *. rewrite length_take. lia.
    + apply Hb. unfold zlen. rewrite length_app, merge_sort_Permutation, length_take, length_drop. lia.
  - destruct (Hb (free_stack v) eq_refl) as (f & v' & Hf & Hs). exists f, v'. split; [|done]. rewrite <-Hf. by destruct v.
Qed.

(** * Items of a file *)

Lemma inode_value_ok ino v : 0 ≤ ino < 2 ^ 64 → zlen v = 31 → item_ok (Inode.make_key ino, v).
Proof. intros Hi Hv. split; [by split|exact Hv]. Qed.

Lemma extent_item_ok ino first n : 0 ≤ ino < 2 ^ 64 → item_ok (extent_key ino, from_extent first n).
Proof. intros Hi. split; [by split|apply zlen_from_extent]. Qed.

Lemma checksum_item_ok ino bi c : 0 ≤ ino < 2 ^ 64 → 0 ≤ bi < 2 ^ 64 → item_ok (checksum_key ino bi, from_checksum c).
Proof. intros Hi Hb. split; [by split|apply zlen_from_checksum]. Qed.

Section Write.
Context {D : Type} `{File.DiskLaws D valid sec}.
Implicit Types (w : World D) (U : gset Z).

Local Abbreviation mounted := (mounted (valid := valid)).
Local Abbreviation blk := (blk (sec := sec)).
Local Abbreviation moved := (moved (sec := sec)).
Local Abbreviation start w := (start_lba (vol w)).

Lemma mounted_alloc w U h m n :
  mounted w U h m → 0 < n < 2 ^ 32 → run_fits n (vol w) →
  ∃ first w', alloc_contiguous n w = (Ok (Some (first, n)), w') ∧ mounted w' (run first n ∪ U) h m ∧ run first n ## U ∧
    dev w' = dev w ∧ journal (vol w') = journal (vol w) ∧ inode_tree_root (sb (vol w')) = inode_tree_root (sb (vol w)) ∧ moved (2 * n) U w w' ∧ 0 < first ∧ first + n ≤ total_blocks (sb (vol w')) < 2 ^ 61.
Proof.
  intros (Hlay & t & [[Hrg Hal] Hd Hn Hst Hwf Hrt] & Hm) Hb Hfit.
  destruct (alloc_contiguous_fits (vol w) _ n Hal Hb Hfit) as (first & v' & Ha & Hsp).
  destruct (alloc_contiguous_spec _ _ n _ _ Hal Hb Ha) as (_ & Hdis & Hal' & Hsm & Hf).
  exists first, (set_vol v' w). assert (Hmv : moved (2 * n) U w (set_vol v' w)).
  { destruct Hsm as (S1 & S2 & S3 & S4 & fb & nc & S5). split; cbn; try done; [by rewrite S3|exists []; by rewrite S3, app_nil_r; cbn; split_and!; [|rewrite zlen_nil; lia|]|].
    exists (inode_tree_root (sb (vol w))), fb, nc. rewrite S5. by destruct (sb (vol w)). }
  assert (Hs0 : start_lba v' = start w) by apply Hsm.
  assert (Hroot : inode_tree_root (sb v') = inode_tree_root (sb (vol w))) by (destruct Hsm as (_ & _ & _ & _ & fb & nc & ->); done).
  assert (Htot : total_blocks (sb v') = total_blocks (sb (vol w))) by (destruct Hsm as (_ & _ & _ & _ & fb & nc & ->); done).
  assert (Hrin : inode_tree_root (sb (vol w)) ∈ (list_to_set (addrs t) : gset Z)) by (rewrite Hrt; apply elem_of_list_to_set, root_in_addrs).
  split_and!; [unfold alloc_contiguous, on_vol; by rewrite Ha| |clear -Hdis; set_solver|done|apply Hsm|done|done|done| |].
  - split.
    + eapply (layout_moved _ U w); [exact Hlay|exact Hmv|exact Hal'|]. cbn. rewrite Hroot. clear -Hrin. set_solver.
    + exists t. split; [|done]. split; cbn; rewrite ?Hs0, ?Hroot; try done.
      * split; [cbn; by rewrite Hs0, Htot|]. cbn. by rewrite <-(assoc_L (∪)).
      * clear -Hdis Hd. set_solver.
  - cbn. destruct Hal' as [_ Ht _ _ _ _ Ho]. assert (Hx : first + n - 1 ∈ run first n) by (apply elem_of_run; lia). pose proof (Ho _ (elem_of_union_l _ _ _ Hx)). lia.
  - cbn. apply Hal'.
Qed.

(** Blocks outside the tree may change. *)
Lemma mounted_data w d' U h m :
  mounted w U h m → (∀ b, b ∉ U → blk d' (start w) b = blk (dev w) (start w) b) → mounted (mkWorld (vol w) d') U h m.
Proof.
  intros (Hlay & t & [[Hrg Hal] Hd Hn Hst Hwf Hrt] & Hm) Hb. split; [done|]. exists t. split; [|done]. split; try done. cbn.
  eapply stored_frame; [|exact Hst]. intros a Ha. pose proof (al_own _ _ Hal a) as Hr. rewrite elem_of_union, elem_of_list_to_set in Hr. specialize (Hr (or_intror Ha)).
  pose proof (al_frontier _ _ Hal). pose proof (al_total _ _ Hal). rewrite !(node_read _ _ Hrg) by lia. rewrite Hb; [done|].
  intros HU. apply (Hd a HU). by apply elem_of_list_to_set.
Qed.

(** * Pages *)

(** The page that starts at byte [off] of the contents. *)
Definition page (data : bytes) (off : Z) : bytes :=
  let want := Z.min (zlen data - off) 4096 in slice off want data ++ replicate (Z.to_nat (4096 - want)) Byte.x00.

Lemma zlen_page data off : 0 ≤ off ≤ zlen data → zlen (page data off) = 4096.
Proof. intros Ho. unfold page. rewrite zlen_app, zlen_slice, zlen_replicate by lia. lia. Qed.

Lemma pull_page_slice data off want :
  0 ≤ off → 0 < want ≤ zlen data - off →
  pull_page (pull_slice data) (S (Z.to_nat want)) want [] off = (Ok (slice off want data), off + want).
Proof.
  intros Ho Hw. replace (Z.to_nat want) with (S (Z.to_nat (want - 1))) by lia. cbn [pull_page]. rewrite zlen_nil, (proj2 (Z.leb_gt _ _)) by lia.
  unfold pull_slice at 1. rewrite Z.sub_0_r, Z.min_l by lia. rewrite zlen_slice by lia. rewrite (proj2 (Z.eqb_neq _ _)) by lia. cbn [app].
  rewrite zlen_slice by lia. by rewrite Z.leb_refl.
Qed.

Lemma slice_extend (data : bytes) off n : 0 ≤ off → 0 ≤ n → slice 0 off data ++ slice off n data = slice 0 (off + n) data.
Proof.
  intros Ho Hn. unfold slice. cbn [Z.to_nat drop]. rewrite Z2Nat.inj_add by lia. apply take_take_drop.
Qed.

(** Blocks [bs] hold the contents from byte [off] on. *)
Definition pages_at (d : D) (s : Z) (bs : list Z) (data : bytes) (off : Z) : Prop :=
  ∀ (i : nat) b, bs !! i = Some b → blk d s b = page data (off + 4096 * Z.of_nat i).

Definition page_crcs (n : nat) (data : bytes) (off : Z) : list Z := (λ i, crc32c (page data (off + 4096 * i))) <$> seqZ 0 (Z.of_nat n).

Lemma page_crcs_S n data off : page_crcs (S n) data off = crc32c (page data off) :: page_crcs n data (off + 4096).
Proof.
  unfold page_crcs. rewrite seqZ_cons by lia. cbn [fmap list_fmap]. rewrite Z.mul_0_r, Z.add_0_r. f_equal.
  replace (Z.pred (Z.of_nat (S n))) with (Z.of_nat n) by lia. change (Z.succ 0) with (1 + 0). rewrite <-fmap_add_seqZ, <-list_fmap_compose.
  apply list_fmap_ext. intros i x _. cbn. f_equal. f_equal. lia.
Qed.

Lemma write_pages_data total bs all data : ∀ w off crc crcs,
  region (valid := valid) (start w) total → Forall (λ b, 0 ≤ b < total) bs → NoDup bs →
  0 ≤ off ≤ zlen data → off + 4096 * (zlen bs - 1) < zlen data ∨ bs = [] → zlen data ≤ off + 4096 * zlen bs →
  ∃ d', write_pages (pull_slice data) bs all (zlen data - off) crc crcs off w =
      (Ok (update crc (drop (Z.to_nat off) data), crcs ++ page_crcs (length bs) data off), mkWorld (vol w) d') ∧
    pages_at d' (start w) bs data off ∧ (∀ b, b ∉ bs → blk d' (start w) b = blk (dev w) (start w) b).
Proof.
  induction bs as [|b bs IH]; intros w off crc crcs Hrg Hbs Hnd Ho Hlt Hge.
  - exists (dev w). change (zlen (@nil Z)) with 0 in Hge. cbn [write_pages length]. replace (drop (Z.to_nat off) data) with (@nil Byte.byte).
    + unfold page_crcs. cbn. rewrite app_nil_r. split_and!; [by destruct w|by intros i b|done].
    + symmetry. apply drop_ge. unfold zlen in *. lia.
  - apply Forall_cons in Hbs as [Hb Hbs]. apply NoDup_cons in Hnd as [Hnb Hnd]. rewrite zlen_cons in Hlt, Hge. pose proof (zlen_nonneg bs) as Hz.
    destruct Hlt as [Hlt|]; [|done]. set (want := Z.min (zlen data - off) 4096).
    assert (Hw : 0 < want ≤ zlen data - off) by (unfold want; lia).
    destruct (write_static (start w) total Hrg (dev w) b (page data off) Hb (zlen_page _ _ Ho)) as (d1 & Hw1 & Hd1).
    cbn [write_pages]. fold want. rewrite pull_page_slice by lia. m_run reflexivity. fold want.
    m_run (unfold write_block_raw; change (slice off want data ++ _) with (page data off); rewrite Hw1; reflexivity). cbn [negb].
    assert (Hoff : off + want = zlen data ∧ bs = [] ∨ off + want = off + 4096).
    { unfold want. destruct (Z.min_spec (zlen data - off) 4096) as [[? ->]|[? ->]]; [|by right]. left. split; [lia|]. apply zlen_le_0. lia. }
    replace (zlen data - off - want) with (zlen data - (off + want)) by lia.
    destruct (IH (mkWorld (vol w) d1) (off + want) (update crc (slice off want data)) (crcs ++ [crc32c (page data off)])) as (d2 & Hr & Hp & Hk); try done; cbn [vol dev].
    { lia. }
    { destruct Hoff as [[_ ->]| ->]; [by right|]. destruct bs; [by right|]. left. lia. }
    { destruct Hoff as [[-> ->]| ->]; [change (zlen (@nil Z)) with 0; lia|lia]. }
    exists d2. cbn [vol dev] in *. change (slice off want data ++ replicate _ _) with (page data off). rewrite Hr. split_and!.
    + f_equal. rewrite <-update_app. do 2 f_equal.
      * f_equal. unfold slice. replace (Z.to_nat (off + want)) with (Z.to_nat off + Z.to_nat want)%nat by lia. rewrite <-drop_drop. apply take_drop.
      * cbn [length]. rewrite page_crcs_S, <-app_assoc. cbn. do 2 f_equal. destruct Hoff as [[_ ->]| ->]; done.
    + intros [|i] b' Hi; cbn in Hi.
      * injection Hi as <-. rewrite Hk by done. rewrite Z.mul_0_r, Z.add_0_r. apply Hd1.
      * rewrite (Hp _ _ Hi). f_equal. destruct Hoff as [[_ ->]| ->]; [done|lia].
    + intros b' [Hne Hnot]%not_elem_of_cons. rewrite (Hk _ Hnot). by apply (wrote_other _ _ _ _ _ _ Hd1).
Qed.

Lemma read_pages_data total w data : ∀ bs off,
  region (valid := valid) (start w) total → Forall (λ b, 0 ≤ b < total) bs → pages_at (dev w) (start w) bs data off →
  0 ≤ off < zlen data → zlen data ≤ off + 4096 * zlen bs →
  read_pages w (zlen data) bs (slice 0 off data) = Ok data.
Proof.
  induction bs as [|b bs IH]; intros off Hrg Hbs Hp Ho Hge; [change (zlen (@nil Z)) with 0 in Hge; lia|].
  apply Forall_cons in Hbs as [Hb Hbs]. rewrite zlen_cons in Hge. cbn [read_pages].
  rewrite (read_wrapping _ _ Hrg) by done. rewrite (Hp 0%nat b) by done. change (Z.of_nat 0) with 0. rewrite Z.mul_0_r, Z.add_0_r.
  rewrite !zlen_slice by lia. set (want := Z.min (zlen data - off) 4096).
  assert (Hpg : slice 0 want (page data off) = slice off want data).
  { unfold page. fold want. apply slice_app_exact. apply zlen_slice; unfold want; lia. }
  rewrite Hpg, slice_extend by (unfold want; lia). rewrite zlen_slice by (unfold want; lia).
  destruct (Z.leb_spec (zlen data) (off + want)) as [Hend|Hmore].
  - replace (off + want) with (zlen data) by (unfold want in *; lia). f_equal. unfold slice. cbn. apply take_ge. unfold zlen. lia.
  - assert (Hw : want = 4096) by (unfold want in *; lia). rewrite Hw. apply IH; [done|done| |lia|lia].
    intros i b' Hi. rewrite (Hp (S i) b') by done. f_equal. lia.
Qed.

(** * The leaf of a key *)

(** Both keys are looked for in the same leaf. *)
Definition same_leaf w (k k' : Key) : Prop :=
  btree_find_leaf (dev w) (start w) (inode_tree_root (sb (vol w))) k' = btree_find_leaf (dev w) (start w) (inode_tree_root (sb (vol w))) k.

Lemma find_leaf_in d s h : ∀ fuel t k n, stored s d h t → find_leaf_loop fuel d s (root_addr t) k = Some n → block_addr n ∈ addrs t.
Proof.
  induction h as [|h IH]; intros [|fuel] [a its|a ks cs] k n Hst Hf; try done; cbn [find_leaf_loop root_addr] in Hf.
  - destruct Hst as (n0 & Hrd & _ & Hl). rewrite Hrd in Hf. cbn in Hf. rewrite Hl in Hf. injection Hf as <-. rewrite (read_addr _ _ _ _ Hrd). cbn. by left.
  - destruct (kid_lookup s d h a ks cs k Hst) as (n0 & c & Hrd & Hl & Hc & Hsc & Hch & Hnz). rewrite Hrd in Hf. cbn [mbind option_bind] in Hf.
    rewrite (proj2 (Z.eqb_neq _ _)) in Hf by done. rewrite Hch, (proj2 (Z.eqb_neq _ _)) in Hf by done. eapply addrs_kid; [exact Hc|]. by eapply IH.
Qed.

Lemma sibs_snoc w h fs f : sibs_stored w h (fs ++ [f]) ↔ sibs_stored w h fs ∧ Forall (stored (start w) (dev w) (length fs + h)) (sibs f).
Proof.
  revert h. induction fs as [|g fs IH]; intros h; cbn [app sibs_stored length Nat.add]; [tauto|]. rewrite IH, <-plus_n_Sm. tauto.
Qed.

Lemma ctx_addrs_snoc fs f : ctx_addrs (fs ++ [f]) ≡ₚ ctx_addrs fs ++ f_addr f :: concat (addrs <$> sibs f).
Proof. unfold ctx_addrs, sib_addrs. rewrite !fmap_app, !concat_app. cbn. rewrite app_nil_r. solve_Permutation. Qed.

Lemma same_leaf_route fs : ∀ fuel w a k n,
  path_read w 0 a fs → sibs_stored w 0 fs → NoDup (a :: ctx_addrs fs) → Btree.read (dev w) (start w) a = Some n → level n = 0 →
  find_leaf_loop fuel (dev w) (start w) (top a fs) k = Some n → Forall (λ f, route k (f_keys f) = length (f_l f)) fs.
Proof.
  induction fs as [|f fs IH] using rev_ind; intros fuel w a k n Hp Hsib Hnd Hrd Hl Hf; [constructor|].
  apply path_read_snoc in Hp as [Hp (r & Hr & Hk & Hlr)]. apply sibs_snoc in Hsib as [Hsib Hsf]. rewrite ctx_addrs_snoc, app_comm_cons in Hnd.
  apply NoDup_app in Hnd as (Hnd & Hdis & _). assert (Htop : top a (fs ++ [f]) = f_addr f) by (unfold top; by rewrite last_snoc).
  rewrite Htop in Hf. destruct fuel as [|fuel]; [done|]. cbn [find_leaf_loop] in Hf. rewrite Hr in Hf. cbn [mbind option_bind] in Hf.
  rewrite (proj2 (Z.eqb_neq _ _)) in Hf by lia. destruct (child_for_key r k =? 0); [done|].
  pose proof (child_for_key_spec _ _ r Hk k ltac:(lia)) as Hc. unfold f_kids in Hc.
  destruct (decide (route k (f_keys f) = length (f_l f))) as [Heq|Hne].
  - apply Forall_app. split; [|by apply Forall_singleton]. rewrite lookup_app_r in Hc by (rewrite length_fmap; lia).
    rewrite Heq, length_fmap, Nat.sub_diag in Hc. injection Hc as Hc. rewrite <-Hc in Hf. by eapply IH.
  - exfalso. assert (Hs : ∃ s, s ∈ sibs f ∧ root_addr s = child_for_key r k).
    { destruct (decide (route k (f_keys f) < length (f_l f))%nat).
      - rewrite lookup_app_l in Hc by (by rewrite length_fmap). rewrite list_lookup_fmap in Hc. destruct (f_l f !! _) as [s|] eqn:Es; [|done].
        exists s. split; [unfold sibs; apply elem_of_app; left; by eapply list_elem_of_lookup_2|by injection Hc].
      - rewrite lookup_app_r in Hc by (rewrite length_fmap; lia). rewrite length_fmap in Hc.
        destruct (route k (f_keys f) - length (f_l f))%nat as [|j] eqn:Ej; [lia|]. rewrite lookup_cons_ne_0 in Hc by done. cbn [pred] in Hc. rewrite list_lookup_fmap in Hc.
        destruct (f_r f !! j) as [s|] eqn:Es; [|done]. exists s. split; [unfold sibs; apply elem_of_app; right; by eapply list_elem_of_lookup_2|by injection Hc]. }
    destruct Hs as (s & Hs & Hsr). rewrite <-Hsr in Hf. rewrite Forall_forall in Hsf.
    pose proof (find_leaf_in _ _ _ _ _ _ _ (Hsf s Hs) Hf) as Hin. rewrite (read_addr _ _ _ _ Hrd) in Hin.
    apply (Hdis a); [by left|]. right. apply elem_of_concat. exists (addrs s). split; [done|]. by apply list_elem_of_fmap_2.
Qed.

Lemma route_in_ctx h lo hi fs k : wf_ctx h lo hi fs → Forall (λ f, route k (f_keys f) = length (f_l f)) fs → within lo hi k.
Proof.
  revert h lo hi. induction fs as [|f fs IH]; intros h lo hi Hc Hr; [by destruct Hc as [-> ->]|].
  apply Forall_cons in Hr as [Hf Hr]. destruct Hc as (lo' & hi' & (_ & _ & _ & -> & -> & _) & Hc). rewrite <-Hf. apply route_within. by eapply IH.
Qed.

(** The leaf of [k], with room between its bounds for [k'] as well. *)
Lemma holds_focus2 w U h t k k' :
  holds (valid := valid) w U h t → (h < 8)%nat → same_leaf w k k' →
  ∃ fs a its n lo hi, t = plug fs (TLeaf a its) ∧ length fs = h ∧ hole (valid := valid) w U 0 a fs ∧ Btree.read (dev w) (start w) a = Some n ∧ srep its n ∧ level n = 0 ∧
    within lo hi k ∧ within lo hi k' ∧ wf 0 lo hi (TLeaf a its) ∧ wf_ctx 0 lo hi fs.
Proof.
  intros Hh Hlt Hsame. destruct (holds_focus w U h t k Hh) as (fs & a & its & n & lo & hi & -> & Hlen & Hho & Hrd & Hs & Hl & Hkw & Hwl & Hctx).
  exists fs, a, its, n, lo, hi. refine (conj eq_refl (conj Hlen (conj Hho (conj Hrd (conj Hs (conj Hl (conj Hkw (conj _ (conj Hwl Hctx))))))))). eapply route_in_ctx; [exact Hctx|].
  assert (Hfl : btree_find_leaf (dev w) (start w) (inode_tree_root (sb (vol w))) k = Some n).
  { unfold btree_find_leaf. rewrite (ho_root _ _ _ _ _ Hho). pose proof (wf_ctx_route _ _ _ _ _ Hctx Hkw) as Hr. pose proof (ho_path _ _ _ _ _ Hho) as Hp.
    assert (Hf : (length fs < 8)%nat) by lia. clear -Hrd Hl Hr Hp Hf. revert Hf. generalize 8%nat. revert Hp Hr.
    induction fs as [|f fs IH] using rev_ind; intros Hp Hr [|fuel] Hf; try (cbn in Hf; lia); cbn [find_leaf_loop].
    - change (top a []) with a. rewrite Hrd. cbn. by rewrite Hl.
    - apply path_read_snoc in Hp as [Hp (r & Hrr & Hk & Hlr)]. apply Forall_app in Hr as [Hr Hrf]. rewrite Forall_singleton in Hrf.
      assert (Htop : top a (fs ++ [f]) = f_addr f) by (unfold top; by rewrite last_snoc). rewrite Htop, Hrr. cbn [mbind option_bind].
      rewrite (proj2 (Z.eqb_neq _ _)) by lia. destruct (kids_hole f _ r k Hk ltac:(lia) Hrf) as [-> Hnz]. rewrite (proj2 (Z.eqb_neq _ _)) by done.
      apply IH; [done..|]. rewrite length_app in Hf. cbn in Hf. lia. }
  unfold same_leaf in Hsame. rewrite Hfl in Hsame. unfold btree_find_leaf in Hsame. rewrite (ho_root _ _ _ _ _ Hho) in Hsame.
  eapply same_leaf_route; [apply Hho..|exact Hrd|exact Hl|exact Hsame].
Qed.

(** * Updating the inode and adding the extent *)

Lemma update_leaf its n k1 v1 k2 v2 :
  srep its n → is_Some (items_map its !! k1) → items_map its !! k2 = None → k1 ≠ k2 → item_ok (k1, v1) → item_ok (k2, v2) →
  ∃ n1 n2 ok n3 its', delete_key k1 n = Ok (true, n1) ∧ delete_key k2 n1 = Ok (false, n1) ∧ insert k1 v1 n1 = (true, n2) ∧
    insert k2 v2 n2 = (ok, n3) ∧ srep its' n3 ∧ same_frame n n3 ∧
    items_map its' = (if ok : bool then <[k2 := v2]> else id) (<[k1 := v1]> (items_map its)).
Proof.
  intros Hs [v Hk1] Hk2 Hne Hok1 Hok2. pose proof (srep_delete_key its n k1 Hs) as Hd. rewrite Hk1 in Hd.
  destruct Hd as (i & v' & n1 & Hd & Hi & Hs1 & Hf1). pose proof (items_map_delete its i k1 v' (proj2 Hs) Hi) as Hm1.
  pose proof (srep_delete_key _ n1 k2 Hs1) as Hd2. rewrite Hm1, lookup_delete_ne, Hk2 in Hd2 by done.
  assert (Hlen : zlen (delete i its) < MAX_LEAF_ITEMS).
  { pose proof (nr_max _ _ (proj1 Hs)). unfold zlen in *. rewrite length_delete by eauto. apply lookup_lt_Some in Hi. lia. }
  destruct (srep_insert _ n1 k1 v1 Hs1 Hok1) as (p & n2 & Hi1 & Hs2 & Hf2 & _ & Hb & _); [by rewrite Hm1, lookup_delete_eq|done|].
  pose proof (items_map_insert _ p k1 v1 Hb) as Hm2. rewrite Hm1, insert_delete_eq in Hm2. set (its2 := take p (delete i its) ++ _) in *.
  assert (Hn2 : items_map its2 !! k2 = None) by (by rewrite Hm2, lookup_insert_ne).
  destruct (decide (zlen its2 < MAX_LEAF_ITEMS)) as [Hroom|Hfull].
  - destruct (srep_insert its2 n2 k2 v2 Hs2 Hok2 Hn2 Hroom) as (p3 & n3 & Hi3 & Hs3 & Hf3 & _ & Hb3 & _).
    exists n1, n2, true, n3, (take p3 its2 ++ (k2, v2) :: drop p3 its2).
    refine (conj Hd (conj Hd2 (conj Hi1 (conj Hi3 (conj Hs3 (conj _ _)))))); [by etransitivity; [|etransitivity; [exact Hf2|]]|].
    rewrite (items_map_insert its2 p3 k2 v2 Hb3). by rewrite Hm2.
  - exists n1, n2, false, n2, its2. assert (Hf84 : zlen its2 = MAX_LEAF_ITEMS) by (pose proof (nr_max _ _ (proj1 Hs2)); lia).
    refine (conj Hd (conj Hd2 (conj Hi1 (conj _ (conj Hs2 (conj _ Hm2)))))); [by apply (rep_insert_full its2); [apply Hs2|]|by etransitivity].
Qed.

(** The rest of the tree does not hold the keys of the leaf. *)
Lemma items_map_leaf A its its' B k1 k2 v1 v2 (ok : bool) :
  sorted (A ++ its ++ B) → is_Some (items_map its !! k1) → items_map (A ++ its ++ B) !! k2 = None →
  items_map its' = (if ok then <[k2 := v2]> else id) (<[k1 := v1]> (items_map its)) →
  items_map (A ++ its' ++ B) = (if ok then <[k2 := v2]> else id) (<[k1 := v1]> (items_map (A ++ its ++ B))).
Proof.
  intros Hs [v Hk1] Hk2 Hm. unfold items_map in *. rewrite !list_to_map_app in *. apply lookup_union_None in Hk2 as [HA2 HX2].
  apply lookup_union_None in HX2 as [HX2 HB2].
  assert (HA1 : (list_to_map A : gmap Key bytes) !! k1 = None).
  { apply not_elem_of_list_to_map. apply sorted_NoDup in Hs. rewrite !fmap_app in Hs. apply NoDup_app in Hs as (_ & Hdis & _). intros Hin.
    apply (Hdis k1 Hin), elem_of_app. left. apply elem_of_list_to_map_2 in Hk1. by apply (list_elem_of_fmap_2 fst) in Hk1. }
  apply map_eq. intros k. rewrite Hm. destruct ok; cbn [id]; destruct (decide (k = k2)) as [->|Hn2];
    rewrite ?lookup_insert_eq, ?(lookup_insert_ne _ k2) by done; rewrite !lookup_union, ?lookup_insert_eq, ?(lookup_insert_ne _ k2) by done.
  - by rewrite HA2, HB2.
  - destruct (decide (k = k1)) as [->|Hn1]; rewrite ?lookup_insert_eq, ?lookup_insert_ne by done; [rewrite HA1; by destruct (list_to_map B !! k1)|by rewrite !lookup_union].
  - destruct (decide (k2 = k1)) as [->|Hn1]; [congruence|]. rewrite !lookup_insert_ne by done. by rewrite !lookup_union.
  - destruct (decide (k = k1)) as [->|Hn1]; rewrite ?lookup_insert_eq, ?lookup_insert_ne by done; [rewrite HA1; by destruct (list_to_map B !! k1)|by rewrite !lookup_union].
Qed.

Lemma plug_lookup fs h lo hi t k :
  wf_ctx h lo hi fs → wf h lo hi t → within lo hi k → items_map (items (plug fs t)) !! k = items_map (items t) !! k.
Proof.
  revert h lo hi t. induction fs as [|f fs IH]; intros h lo hi t Hc Ht Hk; cbn [plug]; [done|]. destruct Hc as (lo' & hi' & Hf & Hc).
  pose proof (frame_fill _ _ _ _ _ _ t Hf Ht) as Hwf. pose proof Hf as (Hlen & Hs & Hks & -> & -> & _).
  assert (Hk' : within lo' hi' k) by (eapply child_bounds; [exact Hs|exact Hks| |exact Hk]; lia).
  rewrite (IH (S h) lo' hi' (fill f t) Hc Hwf Hk'). eapply (items_map_route h lo' hi'); [exact Hwf|exact Hk'|].
  rewrite (route_unique lo' hi' k _ (length (f_l f)) Hs ltac:(lia) Hk). by rewrite lookup_app_r, Nat.sub_diag by lia.
Qed.

(** What [update_inode] makes of the map: the extent item is left out when the leaf is
    full. *)
Definition with_file (ok : bool) (ino : Z) (iv ev : bytes) (m : gmap Key bytes) : gmap Key bytes :=
  (if ok then <[extent_key ino := ev]> else id) (<[Inode.make_key ino := iv]> m).

Lemma update_inode_run w U h m ino iv first n bs :
  mounted w U h m → (h < 8)%nat → 0 ≤ ino < 2 ^ 64 → zlen iv = 31 → 0 < n →
  is_Some (m !! Inode.make_key ino) → m !! extent_key ino = None → same_leaf w (Inode.make_key ino) (extent_key ino) →
  2 + 2 * Z.of_nat h ≤ space (vol w) →
  ∃ ok w', update_inode ino iv first n n bs w = (Ok tt, w') ∧ mounted w' U h (with_file ok ino iv (from_extent first n) m) ∧
    moved (2 + 2 * Z.of_nat h) U w w' ∧ logged w'.
Proof.
  intros Hm Hlt Hino Hiv Hn Hk1 Hk2 Hsame Hsp.
  pose proof (inode_value_ok ino iv Hino Hiv) as Hok1. pose proof (extent_item_ok ino first n Hino) as Hok2.
  assert (Hne : Inode.make_key ino ≠ extent_key ino) by discriminate.
  destruct Hm as (Hlay & t & Hh & <-).
  destruct (holds_focus2 w U h t _ _ Hh Hlt Hsame) as (fs & a & its & nd & lo & hi & -> & Hlen & Hho & Hrd & Hs & Hl & Hw1 & Hw2 & [Hso Hw] & Hctx).
  assert (Hz : zlen fs = Z.of_nat h) by (unfold zlen; lia). pose proof (wf_sorted _ _ _ _ (hs_wf _ _ _ _ Hh)) as Hsort.
  assert (Hin : is_Some (items_map its !! Inode.make_key ino)) by (pose proof (plug_lookup fs 0 lo hi (TLeaf a its) _ Hctx (conj Hso Hw) Hw1) as Hpl; rewrite Hpl in Hk1; exact Hk1).
  assert (Hin2 : items_map its !! extent_key ino = None) by (pose proof (plug_lookup fs 0 lo hi (TLeaf a its) _ Hctx (conj Hso Hw) Hw2) as Hpl; rewrite Hpl in Hk2; exact Hk2).
  destruct (cow_leaf_run w U fs a its nd _ lo hi Hho Hrd Hs Hl Hw1 Hctx) as (p & w1 & fs' & n0 & H1 & Hn0 & Ha0 & Hho1 & Hsh & Hm1 & Hg1); [lia|lia|].
  destruct (update_leaf its n0 _ iv _ (from_extent first n) (proj1 Hn0) Hin Hin2 Hne Hok1 Hok2) as (n1 & n2 & ok & n3 & its' & Hd1 & Hd2 & Hi1 & Hi2 & Hs3 & Hf3 & Hm3).
  pose proof (looks_frame _ _ _ _ _ _ Hn0 Hs3 Hf3) as Hn3. assert (Ha3 : block_addr n3 = p) by (destruct Hf3 as [-> _]; done).
  pose proof (shape_wf_ctx _ _ _ _ _ Hsh Hctx) as Hctx'. pose proof (shape_length _ _ Hsh) as Hsl.
  assert (Hwf' : wf 0 lo hi (TLeaf p its')).
  { split; [apply Hs3|]. apply Forall_forall. intros [k v] Hkv. apply items_map_lookup in Hkv; [|apply Hs3]. rewrite Hm3 in Hkv. cbn [fst].
    assert (Hc : k = extent_key ino ∨ k = Inode.make_key ino ∨ items_map its !! k = Some v).
    { destruct ok; cbn [id] in Hkv; repeat (apply lookup_insert_Some in Hkv as [[<- _]|[_ Hkv]]; [by auto|]); auto. }
    destruct Hc as [-> |[-> |Hc]]; [done..|]. apply items_map_lookup in Hc; [|done]. rewrite Forall_forall in Hw. by apply (Hw _ Hc). }
  destruct (leaf_store_run w1 U fs' n3 p its' _ lo hi Hho1 Hn3 Ha3 Hwf' Hctx') as (w2 & H2 & Hh2 & Hm2 & Hlg).
  exists ok, w2. split_and!; [| | |exact Hlg].
  - unfold update_inode. m_run (by apply ok_some_run). m_run (unfold m_lift; rewrite Hd1; reflexivity). m_run (unfold m_lift; rewrite Hd2; reflexivity).
    rewrite Hi1, (proj2 (Z.ltb_lt _ _)) by lia. rewrite Hi2. cbn [snd]. rewrite Ha3, H2. done.
  - assert (Hmv : moved (2 + 2 * Z.of_nat h) U w w2) by (eapply moved_weaken; [eapply moved_trans; [exact Hm1|exact Hm2]|lia|done]).
    split.
    + eapply (layout_moved _ U w); [exact Hlay|exact Hmv|apply (hs_ready _ _ _ _ Hh2)|]. rewrite (hs_root _ _ _ _ Hh2). apply elem_of_union_r, elem_of_list_to_set, root_in_addrs.
    + rewrite <-Hlen, <-Hsl. eexists. split; [exact Hh2|]. rewrite items_plug, (shape_ctx_l _ _ Hsh), (shape_ctx_r _ _ Hsh). rewrite items_plug in Hsort, Hk2 |- *.
      cbn [items] in *. by apply items_map_leaf.
  - eapply moved_weaken; [eapply moved_trans; [exact Hm1|exact Hm2]|lia|done].
Qed.

(** * Page checksums *)

Lemma purge_none w U h m ino :
  mounted w U h m → (h < 9)%nat → (∀ j, m !! checksum_key ino j = None) → purge_checksum_items ino w = (Ok tt, w).
Proof.
  intros Hm Hh Hno. destruct (mounted_scan w U h m Hm Hh) as (its & Hs & Hso & Hit). unfold purge_checksum_items.
  assert (Hf : List.find (λ it, is_checksum_of ino it.1) its = None).
  { destruct (List.find _ its) as [[k v]|] eqn:E; [|reflexivity]. exfalso. apply List.find_some in E as [Hin Hc]. apply list_elem_of_In in Hin.
    apply items_map_lookup in Hin; [|exact Hso]. rewrite Hit in Hin. unfold is_checksum_of in Hc. cbn [fst] in Hc. apply andb_true_iff in Hc as [H1 H2].
    apply bool_decide_eq_true in H1, H2. assert (k = checksum_key ino (offset k)) as Hk by (destruct k; cbn in *; by subst). rewrite Hk, Hno in Hin. discriminate. }
  m_run (unfold scan_items; rewrite Hs; reflexivity). cbn [purge_loop]. m_run (unfold scan_items; rewrite Hs; reflexivity). rewrite Hf. reflexivity.
Qed.

Fixpoint add_checksums (ino bi : Z) (crcs : list Z) (m : gmap Key bytes) : gmap Key bytes :=
  match crcs with [] => m | c :: crcs' => add_checksums ino (bi + 1) crcs' (<[checksum_key ino bi := from_checksum c]> m) end.

Lemma add_checksums_other ino bi crcs m k : (∀ j, bi ≤ j → k ≠ checksum_key ino j) → add_checksums ino bi crcs m !! k = m !! k.
Proof.
  revert bi m. induction crcs as [|c crcs IH]; intros bi m Hk; [reflexivity|]. cbn [add_checksums]. rewrite IH by (intros j Hj; apply Hk; lia).
  apply lookup_insert_ne. intros Heq. by apply (Hk bi); [lia|].
Qed.

Lemma add_checksums_at ino bi crcs m (i : nat) c : crcs !! i = Some c → add_checksums ino bi crcs m !! checksum_key ino (bi + Z.of_nat i) = Some (from_checksum c).
Proof.
  revert bi m i. induction crcs as [|c' crcs IH]; intros bi m [|i] Hi; try done; cbn [add_checksums].
  - injection Hi as ->. rewrite Z.add_0_r, add_checksums_other; [apply lookup_insert_eq|]. intros j Hj [= ?]. lia.
  - rewrite <-(IH (bi + 1) (<[checksum_key ino bi := from_checksum c']> m) i Hi). do 2 f_equal. lia.
Qed.

(** At most one level above [h]; a tree that has grown has a root with at most [c] keys. *)
Definition grown w U (h : nat) (c : Z) (m : gmap Key bytes) : Prop :=
  (∃ h', (h' ≤ h)%nat ∧ mounted w U h' m) ∨ mounted_fan (valid := valid) w U (S h) c m.

Lemma grown_height w U h c m : grown w U h c m → ∃ h', (h' ≤ S h)%nat ∧ mounted w U h' m.
Proof. intros [(h' & Hh & Hm)|Hm]; [exists h'; split; [lia|exact Hm]|exists (S h)]. split; [lia|]. by eapply mounted_fan_mounted. Qed.

(** A root that is not full takes one more key before the tree grows again. *)
Lemma grown_insert w U h c m k v :
  grown w U h c m → (h ≤ 6)%nat → 0 ≤ c < MAX_LEAF_ITEMS → item_ok (k, v) → m !! k = None → 182 ≤ space (vol w) →
  ∃ w', leaf_insert k v w = (Ok tt, w') ∧ grown w' U h (c + 1) (<[k := v]> m) ∧ moved 182 U w w'.
Proof.
  intros [(h1 & Hh1 & [c1 Hm]%mounted_has_fan)|Hm] Hh Hc Hok Hk Hsp.
  - destruct (mounted_fan_insert w U h1 c1 m k v Hm) as (w' & h' & c' & H1 & Hm' & Hg & Hmv & _); [lia|done|done|lia|].
    exists w'. split; [exact H1|]. split; [|eapply moved_weaken; [exact Hmv|lia|reflexivity]].
    destruct (decide (h' ≤ h)%nat) as [Hle|Hgt]; [left; exists h'; split; [exact Hle|by eapply mounted_fan_mounted]|].
    right. destruct Hg as [[-> _]|(-> & -> & _)]; [lia|]. replace h1 with h in Hm' by lia. destruct Hm' as (Hl & t & Ht & Hi & Hf).
    split; [exact Hl|]. exists t. split; [exact Ht|]. split; [exact Hi|lia].
  - destruct (mounted_fan_insert w U (S h) c m k v Hm) as (w' & h' & c' & H1 & Hm' & Hg & Hmv & _); [lia|done|done|lia|].
    exists w'. split; [exact H1|]. split; [|eapply moved_weaken; [exact Hmv|lia|reflexivity]].
    right. destruct Hg as [[-> ->]|(_ & _ & Hfull)]; [exact Hm'|lia].
Qed.

(** As many checksums as a node has keys add at most one level; each takes at most 182
    blocks. *)
Lemma insert_checksums_grown ino crcs : ∀ w U h c m bi,
  grown w U h c m → (h ≤ 6)%nat → 0 ≤ c → c + zlen crcs ≤ MAX_LEAF_ITEMS → 0 ≤ ino < 2 ^ 64 → 0 ≤ bi → bi + zlen crcs < 2 ^ 64 →
  (∀ j, bi ≤ j → m !! checksum_key ino j = None) → 182 * zlen crcs ≤ space (vol w) →
  ∃ w', insert_checksums ino bi crcs w = (Ok tt, w') ∧ grown w' U h (c + zlen crcs) (add_checksums ino bi crcs m) ∧ moved (182 * zlen crcs) U w w'.
Proof.
  induction crcs as [|x crcs IH]; intros w U h c m bi Hm Hh Hc Hcm Hino Hbi Hb64 Hno Hsp.
  { exists w. split; [reflexivity|]. split; [change (zlen (@nil Z)) with 0; rewrite Z.add_0_r; exact Hm|]. apply moved_refl. }
  rewrite zlen_cons in *. pose proof (zlen_nonneg crcs) as Hz.
  destruct (grown_insert w U h c m (checksum_key ino bi) (from_checksum x) Hm) as (w1 & H1 & Hm1 & Hv1); [lia|lia|apply checksum_item_ok; lia|apply Hno; lia|lia|].
  pose proof (mv_space _ _ _ _ Hv1) as Hs1.
  destruct (IH w1 U h (c + 1) _ (bi + 1) Hm1) as (w2 & H2 & Hm2 & Hv2); [lia|lia|lia|lia|lia|lia| |lia|].
  { intros j Hj. rewrite lookup_insert_ne; [apply Hno; lia|]. intros [= ?]. lia. }
  exists w2. split; [|split; [rewrite Z.add_assoc; exact Hm2|]].
  - cbn [insert_checksums]. m_run (exact H1). exact H2.
  - eapply moved_weaken; [eapply moved_trans; [exact Hv1|exact Hv2]|lia|reflexivity].
Qed.

Lemma insert_checksums_run ino crcs w U h m bi :
  mounted w U h m → (h ≤ 6)%nat → zlen crcs ≤ MAX_LEAF_ITEMS → 0 ≤ ino < 2 ^ 64 → 0 ≤ bi → bi + zlen crcs < 2 ^ 64 →
  (∀ j, bi ≤ j → m !! checksum_key ino j = None) → 182 * zlen crcs ≤ space (vol w) →
  ∃ w' h', insert_checksums ino bi crcs w = (Ok tt, w') ∧ mounted w' U h' (add_checksums ino bi crcs m) ∧ (h' ≤ S h)%nat ∧ moved (182 * zlen crcs) U w w'.
Proof.
  intros Hm Hh Hc Hino Hbi Hb Hno Hsp.
  destruct (insert_checksums_grown ino crcs w U h 0 m bi) as (w' & H1 & Hg & Hv); [left; exists h; split; [lia|exact Hm]|done|lia|lia|done..|].
  destruct (grown_height _ _ _ _ _ Hg) as (h' & Hh' & Hm'). exists w', h'. exact (conj H1 (conj Hm' (conj Hh' Hv))).
Qed.

(** * The transaction *)

Lemma find_leaf_frame s d d' h : ∀ fuel t k,
  (∀ a, a ∈ addrs t → Btree.read d' s a = Btree.read d s a) → stored s d h t →
  find_leaf_loop fuel d' s (root_addr t) k = find_leaf_loop fuel d s (root_addr t) k.
Proof.
  induction h as [|h IH]; intros [|fuel] [a its|a ks cs] k Hr Hst; try done; cbn [find_leaf_loop root_addr]; rewrite Hr by (cbn; left).
  - destruct Hst as (n0 & Hrd & _ & Hl). rewrite Hrd. cbn. by rewrite Hl.
  - destruct (kid_lookup s d h a ks cs k Hst) as (n0 & c & Hrd & Hl & Hc & Hsc & Hch & Hnz). rewrite Hrd. cbn [mbind option_bind].
    rewrite (proj2 (Z.eqb_neq _ _)) by done. rewrite Hch, (proj2 (Z.eqb_neq _ _)) by done. apply IH; [|exact Hsc].
    intros x Hx. apply Hr. by eapply addrs_kid.
Qed.

Lemma same_leaf_data w d' U h m k k' :
  mounted w U h m → (∀ b, b ∉ U → blk d' (start w) b = blk (dev w) (start w) b) → same_leaf w k k' → same_leaf (mkWorld (vol w) d') k k'.
Proof.
  intros (Hlay & t & [[Hrg Hal] Hd Hn Hst Hwf Hrt] & Hm) Hb. unfold same_leaf, btree_find_leaf. cbn [vol dev]. rewrite Hrt.
  assert (Hr : ∀ a, a ∈ addrs t → Btree.read d' (start w) a = Btree.read (dev w) (start w) a).
  { intros a Ha. pose proof (al_own _ _ Hal a) as Hr. rewrite elem_of_union, elem_of_list_to_set in Hr. specialize (Hr (or_intror Ha)).
    pose proof (al_frontier _ _ Hal). pose proof (al_total _ _ Hal). rewrite !(node_read _ _ Hrg) by lia. rewrite Hb; [reflexivity|].
    intros HU. apply (Hd a HU). by apply elem_of_list_to_set. }
  intros Hs. rewrite (find_leaf_frame _ _ _ h 8 t k' Hr Hst), (find_leaf_frame _ _ _ h 8 t k Hr Hst). exact Hs.
Qed.

Lemma extent_blocks_seq first n : 0 ≤ first → first + n < 2 ^ 64 → extent_blocks first n = seqZ first n.
Proof.
  intros Hf Hn. unfold extent_blocks. replace (seqZ first n) with (Z.add first <$> seqZ 0 n) by (by rewrite fmap_add_seqZ, Z.add_0_r). apply list_fmap_ext. intros i x Hx. apply lookup_seqZ in Hx as [-> Hx].
  apply u64_add_small; lia.
Qed.

Lemma zlen_seqZ a n : 0 ≤ n → zlen (seqZ a n) = n.
Proof. intros Hn. unfold zlen. rewrite length_seqZ. lia. Qed.

Lemma as_inode_mode v mode sz db bc : as_inode v = (mode, sz, db, bc) → 0 ≤ mode < 2 ^ 16.
Proof.
  unfold as_inode. intros [= <- _ _ _]. set (b := slice _ _ v). assert (Hb : (length b ≤ 2)%nat) by (unfold b, slice; rewrite length_take; lia).
  assert (Hx : 0 ≤ from_le_bytes b < 2 ^ (8 * Z.of_nat (length b))) by apply le_combine_bound.
  assert (2 ^ (8 * Z.of_nat (length b)) ≤ 2 ^ 16) by (apply Z.pow_le_mono_r; lia). lia.
Qed.

(** ** Reading *)

(** The file [ino] of the map has the contents [data] in [n] blocks from [first] on. *)
Record file_at w (m : gmap Key bytes) (ino mode first n : Z) (data : bytes) : Prop := mkFileAt {
  fa_inode : m !! Inode.make_key ino = Some (from_inode_crc mode (zlen data) first n (crc32c data));
  fa_extent : m !! extent_key ino = Some (from_extent first n) ∨ m !! extent_key ino = None;
  fa_mode : 0 ≤ mode < 2 ^ 16 ∧ Z.land mode Inode.S_IFREG ≠ 0;
  fa_size : 0 < zlen data < 2 ^ 64;
  fa_n : 4096 * (n - 1) < zlen data ≤ 4096 * n;
  fa_n32 : 0 < n < 2 ^ 32;
  fa_first : 0 < first;
  fa_total : first + n ≤ total_blocks (sb (vol w)) < 2 ^ 61;
  fa_pages : pages_at (dev w) (start w) (seqZ first n) data 0;
}.

Lemma crc32c_range data : 0 ≤ crc32c data < 2 ^ 32.
Proof. apply crc32c_u32. Qed.

Lemma file_lookup w U h m ino mode first n data :
  mounted w U h m → (h < 8)%nat → file_at w m ino mode first n data →
  lookup_inode_full w ino = Some (mode, zlen data, first, n, crc32c data) ∧ file_extent w ino first n = (first, n).
Proof.
  intros Hm Hh [Hi He [Hmo _] Hs Hn Hn32 Hf Ht Hp]. unfold lookup_inode_full, file_extent. rewrite !(mounted_lookup _ _ _ _ _ Hm Hh), Hi. cbn [mbind option_bind].
  destruct (inode_value_roundtrip mode (zlen data) first n (crc32c data)) as [Hv Hc]; [done|lia|lia|lia|apply crc32c_range|]. rewrite Hv, Hc. split; [reflexivity|].
  destruct He as [-> | ->]; [|reflexivity]. apply as_extent_from; lia.
Qed.

Lemma file_region w U h m : mounted w U h m → region (valid := valid) (start w) (total_blocks (sb (vol w))).
Proof. intros (_ & t & [[Hrg _] _ _ _ _ _] & _). exact Hrg. Qed.

Lemma file_blocks w m ino mode first n data : file_at w m ino mode first n data → Forall (λ b, 0 ≤ b < total_blocks (sb (vol w))) (seqZ first n).
Proof. intros [_ _ _ _ _ _ Hf Ht _]. apply Forall_forall. intros b Hb%elem_of_seqZ. lia. Qed.

Lemma read_file_back w U h m ino mode first n data :
  mounted w U h m → (h < 8)%nat → file_at w m ino mode first n data → read_file w ino = Ok data.
Proof.
  intros Hm Hh Hfa. destruct (file_lookup _ _ _ _ _ _ _ _ _ Hm Hh Hfa) as [Hl He]. pose proof (file_blocks _ _ _ _ _ _ _ Hfa) as Hbs.
  pose proof (file_region _ _ _ _ Hm) as Hrg. destruct Hfa as [_ _ [_ Hreg] Hs Hn Hn32 Hf Ht Hp]. unfold read_file. rewrite Hl.
  rewrite (proj2 (Z.eqb_neq _ _) Hreg), !(proj2 (Z.eqb_neq _ _)) by lia. cbn [orb]. rewrite He, extent_blocks_seq by lia.
  pose proof (read_pages_data _ w data (seqZ first n) 0 Hrg Hbs Hp ltac:(lia) ltac:(rewrite zlen_seqZ; lia)) as Hrp. change (slice 0 0 data) with (@nil Byte.byte) in Hrp.
  rewrite Hrp. cbn [mbind res_bind].
  assert (Hall : slice 0 (zlen data) data = data) by (unfold slice; cbn; apply take_ge; unfold zlen; lia). rewrite Hall, Z.eqb_refl. cbn [negb].
  by rewrite andb_false_r.
Qed.

(** ** Writing *)

(** What [write_file] does after the contents, the inode and the checksums are stored. *)
Definition finish_write (blocks : list Z) : Op D unit :=
  ok ← commit_tx; if negb ok then reclaim_all blocks;; m_err "commit" else mret tt.

Lemma pages_kept n X w w' bs data off :
  moved n X w w' → list_to_set bs ⊆ X → pages_at (dev w) (start w) bs data off → pages_at (dev w') (start w') bs data off.
Proof.
  intros Hmv Hsub Hp i b Hi. rewrite (mv_start _ _ _ _ Hmv), (mv_keeps _ _ _ _ Hmv); [by apply Hp|]. apply Hsub, elem_of_list_to_set. by eapply list_elem_of_lookup_2.
Qed.

Definition new_file (m : gmap Key bytes) (ino : Z) : Prop := m !! extent_key ino = None ∧ ∀ j, m !! checksum_key ino j = None.

(** Everything before the commit. *)
Lemma write_body_run w U h m ino v0 mode sz db data :
  let n := (zlen data + 4095) / 4096 in
  mounted w U h m → (h ≤ 6)%nat → n ≤ MAX_LEAF_ITEMS → 0 ≤ ino < 2 ^ 64 → 0 < zlen data →
  m !! Inode.make_key ino = Some v0 → as_inode v0 = (mode, sz, db, 0) → Z.land mode Inode.S_IFREG ≠ 0 → new_file m ino →
  same_leaf w (Inode.make_key ino) (extent_key ino) → run_fits n (vol w) → 18 + 184 * n ≤ space (vol w) →
  ∃ ok first w' h', write_file ino data w = finish_write (seqZ first n) w' ∧
    let m' := add_checksums ino 0 (page_crcs (Z.to_nat n) data 0) (with_file ok ino (from_inode_crc mode (zlen data) first n (crc32c data)) (from_extent first n) m) in
    mounted w' (run first n ∪ U) h' m' ∧ run first n ## U ∧ (h' ≤ S h)%nat ∧ file_at w' m' ino mode first n data ∧
    start w' = start w ∧ logged w' ∧ Forall (λ b, zlen b.2 = 4096) (Journal.dirty_blocks (journal (vol w'))) ∧
    Journal.tx_id (journal (vol w')) = tx_id (vol w') ∧ ∀ b, b ∈ U → blk (dev w') (start w) b = blk (dev w) (start w) b.
Proof.
  intros n Hm Hhn Hn84 Hino Hlen Hi Hv0 Hreg [Hext Hno] Hsame Hfit Hsp. unfold MAX_LEAF_ITEMS in Hn84.
  assert (Hn : 4096 * (n - 1) < zlen data ≤ 4096 * n ∧ 0 < n) by (pose proof (Z.div_mod (zlen data + 4095) 4096); pose proof (Z.mod_pos_bound (zlen data + 4095) 4096); lia).
  destruct Hn as [Hn Hn0].
  destruct (mounted_begin w U h m Hm) as (w1 & H1 & Hm1 & Hd1 & Hs1 & Hst1 & Hsp1 & Hj1 & Hx1).
  destruct (mounted_alloc w1 U h m n Hm1) as (first & w2 & H2 & Hm2 & Hdis & Hd2 & Hj2 & Hr2 & Hv2 & Hf2 & Ht2); [lia|by unfold run_fits; rewrite Hs1|].
  pose proof (file_region _ _ _ _ Hm2) as Hrg2. set (bs := seqZ first n).
  assert (Hbs : Forall (λ b, 0 ≤ b < total_blocks (sb (vol w2))) bs) by (apply Forall_forall; intros b Hb%elem_of_seqZ; lia).
  destruct (write_pages_data _ bs bs data w2 0 Crc32c.new [] Hrg2 Hbs) as (d3 & H3 & Hp3 & Hk3);
    [apply NoDup_seqZ|lia|left; unfold bs; rewrite zlen_seqZ; lia|unfold bs; rewrite zlen_seqZ; lia|].
  set (w3 := mkWorld (vol w2) d3).
  assert (Hk3' : ∀ b, b ∉ run first n ∪ U → blk d3 (start w2) b = blk (dev w2) (start w2) b).
  { intros b Hb. apply Hk3. intros Hin. apply Hb, elem_of_union_l. unfold run. by apply elem_of_list_to_set. }
  pose proof (mounted_data w2 d3 _ _ _ Hm2 Hk3') as Hm3. fold w3 in Hm3.
  assert (Hsl2 : same_leaf w2 (Inode.make_key ino) (extent_key ino)).
  { unfold same_leaf in *. rewrite Hd2, Hd1, Hr2, Hs1, (mv_start _ _ _ _ Hv2), Hst1. exact Hsame. }
  pose proof (same_leaf_data w2 d3 _ _ _ _ _ Hm2 Hk3' Hsl2) as Hsl3. fold w3 in Hsl3.
  pose proof (mv_space _ _ _ _ Hv2) as Hsp2. change (vol w3) with (vol w2) in *.
  set (iv := from_inode_crc mode (zlen data) first n (crc32c data)).
  destruct (update_inode_run w3 _ h m ino iv first n bs Hm3) as (ok & w4 & H4 & Hm4 & Hv4 & Hl4); [lia|exact Hino|apply zlen_from_inode_crc|lia|by eexists|exact Hext|exact Hsl3|change (vol w3) with (vol w2); lia|].
  pose proof (mv_space _ _ _ _ Hv4) as Hsp4. change (vol w3) with (vol w2) in Hsp4. set (m4 := with_file ok ino iv (from_extent first n) m) in *.
  assert (Hno4 : ∀ j, m4 !! checksum_key ino j = None).
  { intros j. unfold m4, with_file. destruct ok; cbn [id]; rewrite !lookup_insert_ne by discriminate; apply Hno. }
  set (crcs := page_crcs (Z.to_nat n) data 0). assert (Hzc : zlen crcs = n) by (unfold crcs, page_crcs, zlen; rewrite length_fmap, length_seqZ; lia).
  destruct (insert_checksums_run ino crcs w4 _ h m4 0 Hm4) as (w5 & h5 & H5 & Hm5 & Hh5 & Hv5); [lia|unfold MAX_LEAF_ITEMS; lia|exact Hino|lia|lia|intros j _; apply Hno4|lia|].
  exists ok, first, w5, h5. assert (Hv35 : moved (2 + 2 * Z.of_nat h + 182 * n) (run first n ∪ U) w3 w5) by (eapply moved_weaken; [eapply moved_trans; [exact Hv4|exact Hv5]|lia|reflexivity]).
  split; [|intros m'; split; [exact Hm5|split; [exact Hdis|split; [unfold zlen in Hzc; lia|split; [|split; [|split; [|split; [|split]]]]]]]].
  - unfold write_file, write_file_stream, write_file_stream_ex. m_run reflexivity. rewrite (found_inode w U h m ino v0 Hm ltac:(lia) Hi), Hv0. m_run reflexivity.
    rewrite (proj2 (Z.eqb_neq _ _) Hreg). m_run (exact H1). rewrite (proj2 (Z.eqb_neq (zlen data) 0)) by lia. fold n. rewrite (proj2 (Z.eqb_neq n 0)) by lia.
    m_run (by apply ok_some_run). rewrite extent_blocks_seq by lia. fold bs. rewrite Z.sub_0_r in H3. m_run (exact H3). cbn [drop app]. change (finish (update Crc32c.new data)) with (crc32c data).
    m_run (exact H4). m_run (unfold m_try; rewrite (purge_none w4 _ h m4 ino Hm4 ltac:(lia) Hno4); reflexivity).
    assert (Hcr : page_crcs (length bs) data 0 = crcs) by (unfold crcs, bs; by rewrite length_seqZ). rewrite Hcr.
    m_run (unfold m_try; rewrite H5; reflexivity). reflexivity.
  - assert (Hsz : zlen data < 2 ^ 64) by lia. assert (Hn7 : n < 2 ^ 32) by lia. pose proof (as_inode_mode _ _ _ _ _ Hv0) as Hmode.
    assert (Hother : ∀ k, item_type k ≠ TChecksum → m' !! k = m4 !! k) by (intros k Hk; apply add_checksums_other; intros j _ ->; by apply Hk).
    constructor; [| |exact (conj Hmode Hreg)|lia|exact Hn|lia|exact Hf2| |].
    + rewrite Hother by discriminate. unfold m4, with_file. destruct ok; cbn [id]; rewrite ?(lookup_insert_ne _ (extent_key ino)) by discriminate; apply lookup_insert_eq.
    + rewrite Hother by discriminate. unfold m4, with_file. destruct ok; cbn [id]; [left; apply lookup_insert_eq|right]. rewrite lookup_insert_ne by discriminate. exact Hext.
    + destruct (mv_sb _ _ _ _ Hv35) as (r & fb & nc & ->). exact Ht2.
    + eapply pages_kept; [exact Hv35| |exact Hp3]. unfold run, bs. apply union_subseteq_l.
  - rewrite (mv_start _ _ _ _ Hv35). change (start w3) with (start w2). by rewrite (mv_start _ _ _ _ Hv2).
  - eapply logged_moved; [exact Hl4|exact Hv5].
  - destruct (mv_logged _ _ _ _ Hv35) as (l & El & _ & Hl). change (journal (vol w3)) with (journal (vol w2)) in El. rewrite Hj2, Hj1 in El. rewrite El. exact Hl.
  - rewrite (mv_jtx _ _ _ _ Hv35), (mv_tx _ _ _ _ Hv35). change (journal (vol w3)) with (journal (vol w2)). change (vol w3) with (vol w2).
    by rewrite Hj2, Hx1, (mv_tx _ _ _ _ Hv2).
  - intros b Hb. assert (Hbr : b ∉ bs) by (intros Hin; apply (Hdis b); [unfold run; by apply elem_of_list_to_set|exact Hb]).
    assert (Hst2 : start w2 = start w) by (by rewrite (mv_start _ _ _ _ Hv2)). pose proof (mv_keeps _ _ _ _ Hv35 b (elem_of_union_r _ _ _ Hb)) as Hk. change (start w3) with (start w2) in Hk. cbn [dev w3] in Hk.
    rewrite Hst2 in Hk, Hk3. rewrite Hk, (Hk3 b Hbr), Hd2, Hd1. reflexivity.
Qed.

Lemma logged_size w : logged w → 1 ≤ log_size w.
Proof.
  unfold log_size, logged. destruct (Journal.dirty_blocks _) as [|x l]; intros Hl; [destruct (Hl eq_refl)|]. rewrite zlen_cons. pose proof (zlen_nonneg l). lia.
Qed.

Lemma reclaim_all_run bs w :
  ∃ v', reclaim_all bs w = (Ok tt, set_vol v' w) ∧ journal v' = journal (vol w) ∧ journal_blocks (sb v') = journal_blocks (sb (vol w)).
Proof.
  revert w. induction bs as [|b bs IH]; intros w; cbn [reclaim_all]; [exists (vol w); by destruct w|].
  m_run reflexivity. destruct (IH (set_vol (reclaim_block1 b (vol w)) w)) as (v' & Hr & Hj & Hb). exists v'. split; [exact Hr|]. rewrite Hj, Hb. cbn [vol set_vol].
  unfold reclaim_block1. destruct (_ || _); [done|]. by destruct (_ <=? _).
Qed.

Lemma mount_start s (d d' : D) v : mount s d = (Some v, d') → start_lba v = s.
Proof.
  unfold mount. destruct (Super.read d s) as [sb|]; [|done]. destruct (negb _); [done|]. destruct (Journal.recover s sb d) as [[|] d1]; [|done]. by intros [= <- _].
Qed.

Lemma file_at_kept w w2 U h m ino mode first n data :
  file_at w m ino mode first n data → mounted w2 (run first n ∪ U) h m → start w2 = start w →
  (∀ b, b ∈ run first n ∪ U → blk (dev w2) (start w) b = blk (dev w) (start w) b) → file_at w2 m ino mode first n data.
Proof.
  intros [H1 H2 H3 H4 H5 H6 H7 _ Hp] (_ & t & [[_ Hal] _ _ _ _ _] & _) Hst Hb. split; try assumption.
  - assert (Hx : first + n - 1 ∈ run first n) by (apply elem_of_run; lia). pose proof (al_own _ _ Hal _ (elem_of_union_l _ _ _ (elem_of_union_l _ _ _ Hx))) as Ho.
    pose proof (al_total _ _ Hal). lia.
  - intros i b Hi. rewrite Hst, Hb; [by apply Hp|]. apply elem_of_union_l. unfold run. apply elem_of_list_to_set. by eapply list_elem_of_lookup_2.
Qed.

End Write.

(** * What a file promises *)

(** C4: A file reads back what was written. The volume is mounted, its tree has at most
    seven levels, [ino] is a regular file without contents (no blocks, no extent, no page
    checksums) whose inode and extent items belong to the same leaf, and [data] is not
    empty and fills [n] pages, at most 84 (the journal cannot commit a file of more than 60). With a run of [n] free blocks
    behind the frontier and [18 + 184 n] blocks of space, writing [data] either fits the
    journal or reports ["commit"]. If it fits, reading the whole file, now and after
    mounting the disk again, gives exactly [data] (its checksum verified), every item of
    every other object is as before, and so is every other block of file contents. *)
Theorem write_file_reads_back {D} `{File.DiskLaws D valid sec} (w : World D) U h m ino v0 mode sz db data :
  let n := (zlen data + 4095) / 4096 in
  mounted (valid := valid) w U h m → (h ≤ 6)%nat → n ≤ MAX_LEAF_ITEMS → 0 ≤ ino < 2 ^ 64 → 0 < zlen data →
  m !! Inode.make_key ino = Some v0 → as_inode v0 = (mode, sz, db, 0) → Z.land mode Inode.S_IFREG ≠ 0 → new_file m ino →
  same_leaf w (Inode.make_key ino) (extent_key ino) → run_fits n (vol w) → 18 + 184 * n ≤ space (vol w) →
  ∃ r w', write_file ino data w = (r, w') ∧ (¬ log_fits w' → r = Err "commit") ∧
    (log_fits w' → r = Ok tt ∧ ∃ v', mount (start_lba (vol w)) (dev w') = (Some v', dev w') ∧
       ∀ w2, w2 = w' ∨ w2 = mkWorld v' (dev w') →
         read_file w2 ino = Ok data ∧ (∀ k, object_id k ≠ ino → tree_get w2 k = m !! k) ∧
         ∀ b, b ∈ U → blk (sec := sec) (dev w2) (start_lba (vol w2)) b = blk (sec := sec) (dev w) (start_lba (vol w)) b).
Proof.
  intros n Hm Hhn Hn84 Hino Hlen Hi Hv0 Hreg Hnew Hsame Hfit Hsp.
  destruct (write_body_run w U h m ino v0 mode sz db data Hm Hhn Hn84 Hino Hlen Hi Hv0 Hreg Hnew Hsame Hfit Hsp)
    as (ok & first & w5 & h5 & Hw & Hm5 & Hdis & Hh5 & Hfa & Hst5 & Hlog & H4k & Htx & HU). fold n in Hw, Hm5, Hh5, Hfa, Hdis. set (m' := add_checksums _ _ _ _) in *.
  assert (Hother : ∀ k, object_id k ≠ ino → m' !! k = m !! k).
  { intros k Hk. unfold m'. rewrite add_checksums_other by (intros j _ ->; by apply Hk). unfold with_file.
    destruct ok; cbn [id]; rewrite !lookup_insert_ne by (intros <-; by apply Hk); reflexivity. }
  pose proof (logged_size w5 Hlog) as Hlog1.
  rewrite Hw. unfold finish_write. destruct (decide (log_size w5 ≤ 61 ∧ log_size w5 < journal_blocks (sb (vol w5)))) as [[Hfits Hroom]|Hbig].
  - destruct (mounted_commit w5 _ h5 m' Hm5) as (w6 & v6 & H6 & Hm6 & Hj6 & Hst6 & Hjb6 & Hmt6 & Hmm6 & Hb6).
    { split; [|split; [exact Hroom|exact Htx]]. split; [exact (conj Hlog1 Hfits)|]. split; [rewrite Htx; apply (proj1 Hm5)|exact H4k]. }
    assert (Hls : log_size w6 = log_size w5) by (unfold log_size; rewrite Hj6; reflexivity).
    exists (Ok tt), w6. split; [m_run (exact H6); reflexivity|]. split; [intros Hnf; destruct Hnf; unfold log_fits; rewrite Hls, Hjb6; exact (conj Hfits Hroom)|].
    intros _. split; [reflexivity|]. exists v6. rewrite Hst5 in Hmt6, Hb6. split; [exact Hmt6|].
    intros w2 Hw2. assert (Hw2' : mounted (valid := valid) w2 (run first n ∪ U) h5 m' ∧ start_lba (vol w2) = start_lba (vol w) ∧ dev w2 = dev w6).
    { destruct Hw2 as [-> | ->]; [split; [exact Hm6|]; split; [rewrite Hst6; exact Hst5|reflexivity]|]. split; [exact Hmm6|]. split; [apply (mount_start _ _ _ _ Hmt6)|reflexivity]. }
    destruct Hw2' as (Hm2 & Hs2 & Hd2). assert (Hn0 : 0 ≤ n) by (apply Z.div_pos; lia). assert (Hh8 : (h5 < 8)%nat) by lia. split; [|split].
    + eapply read_file_back; [exact Hm2|exact Hh8|]. eapply (file_at_kept w5); [exact Hfa|exact Hm2|rewrite Hs2; symmetry; exact Hst5|]. intros b Hb. rewrite Hd2, Hst5. apply Hb6. exact Hb.
    + intros k Hk. rewrite (mounted_lookup _ _ _ _ _ Hm2 Hh8). apply Hother. exact Hk.
    + intros b Hb. rewrite Hd2, Hs2, Hb6 by (apply elem_of_union_r; exact Hb). apply HU. exact Hb.
  - destruct (commit_refused w5 (proj1 Hm5) Hlog1) as (d6 & H6 & _); [unfold log_size in *; lia|].
    destruct (reclaim_all_run (seqZ first n) (mkWorld (vol w5) d6)) as (v7 & H7 & Hj7 & Hb7).
    exists (Err "commit"), (set_vol v7 (mkWorld (vol w5) d6)). split; [m_run (exact H6); cbn [negb]; m_run (exact H7); reflexivity|]. split; [reflexivity|].
    intros [H61 Hjb]. unfold log_size in *. cbn [vol set_vol] in *. rewrite Hj7 in *. rewrite Hb7 in Hjb. lia.
Qed.

(** A volume of 512 blocks holding one empty file. *)
Definition wide_world : World (gmap Z bytes) := mkWorld (mkVol (Volume.format_sb 512 8 11 12) 0 0 Journal.new false []) (Volume.format 0 4096 ∅).2.
Definition wide_file : World (gmap Z bytes) := (create false 1 "a.txt" wide_world).2.
Definition wide_map : gmap Key bytes :=
  <[Dir.make_key 1 "a.txt" := from_dir 2 "a.txt"]> (<[Inode.make_key 2 := from_inode (create_mode false) 0 0 0]> {[ root_item.1 := root_item.2 ]}).

Lemma wide_mounted : ∃ h, (h ≤ 2)%nat ∧ mounted (valid := λ _, True) wide_file ∅ h wide_map.
Proof.
  assert (Hrg : region (valid := λ _ : Z, True) 0 (4096 / 8)) by (by split).
  destruct (mount_formatted (sec := mem_sec) 0 4096 ∅ Hrg) as (d' & Hf & _ & Hm); [by vm_compute|].
  assert (Hw : mounted (valid := λ _, True) wide_world ∅ 0 {[ root_item.1 := root_item.2 ]}) by (unfold wide_world; rewrite Hf; exact Hm).
  unfold wide_file. rewrite (create_to_node (valid := λ _, True) false wide_world _ _ _ 1 "a.txt" root_item.2 Hw) by (lia || by vm_compute).
  destruct (create_node_run (sec := mem_sec) wide_world _ _ _ (create_mode false) 1 "a.txt" Hw) as (r & w' & h' & Hr & _ & Hh & _ & Hm' & _);
    [lia|by vm_compute..|]. rewrite Hr. exists h'. split; [exact Hh|exact Hm'].
Qed.

Lemma write_file_reads_back_witness :
  ∃ w', write_file 2 (as_bytes "hello") wide_file = (Ok tt, w') ∧ read_file w' 2 = Ok (as_bytes "hello") ∧
    ∃ v', mount 0 (dev w') = (Some v', dev w') ∧ read_file (mkWorld v' (dev w')) 2 = Ok (as_bytes "hello").
Proof.
  destruct wide_mounted as (h & Hh & Hm).
  destruct (write_file_reads_back (sec := mem_sec) wide_file _ _ _ 2 (from_inode (create_mode false) 0 0 0) (create_mode false) 0 0 (as_bytes "hello") Hm)
    as (r & w' & H1 & _ & H2); [lia|by vm_compute..| |by vm_compute|by split; vm_compute|by vm_compute|].
  { split; [by vm_compute|]. intros j. unfold wide_map. rewrite !lookup_insert_ne by discriminate. by apply lookup_singleton_ne. }
  assert (Hfit : log_fits w').
  { assert (E : w' = (write_file 2 (as_bytes "hello") wide_file).2) by by rewrite H1. rewrite E. split; by vm_compute. }
  destruct (H2 Hfit) as (-> & v' & H3 & H4). exists w'. refine (conj H1 (conj (proj1 (H4 _ (or_introl eq_refl))) _)).
  exists v'. exact (conj H3 (proj1 (H4 _ (or_intror eq_refl)))).
Defined.
