(* ===== verification/FrameAlloc.v ===== *)
(** The physical frame allocator of [k_nano/src/memory.rs]: one bit per 4 KiB frame, the
    frames that were handed out, the registry of reserved spans, and the pool of frames
    for page tables. *)

From S2P Require Import Prelude.

(** * Frames of the [x86_64] crate *)

(** [PhysFrame::containing_address(PhysAddr::new(a)).start_address()]. The crate is
    outside the repository; a frame is represented by its start address. *)
Class PhysFrames := containing_address : Z → res Z.

(** What its documentation says: an address has 52 bits, [PhysAddr::new] panics on any
    other, and the frame that contains an address starts at the address rounded down. *)
Class PhysFrameLaws `{PhysFrames} : Prop := {
  containing_ok a : 0 ≤ a < 2 ^ 52 → containing_address a = Ok (a - a mod 4096);
  containing_panics a : 2 ^ 52 ≤ a → containing_address a = Panic
}.

Module Pmm.

Definition BITMAP_SIZE : Z := 2 * 1024 * 1024.
Definition BITS_PER_BYTE : Z := 8.
Definition FRAME_SIZE : Z := 4096.
Definition LOWMEM_RESERVE_FRAMES : Z := 256.
Definition HEAP_FLOOR_SMALL_MB : Z := 128.
Definition HEAP_FLOOR_MB : Z := 256.
Definition MAX_RESERVED_SPANS : Z := 16.
Definition PT_POOL_FRAMES : Z := 256.
Definition PT_POOL_BITMAP_BYTES : Z := 32.
Definition BOOT_RAMLOG_PHYS : Z := 0x10000000.
Definition BOOT_RAMLOG_CAP : Z := 1024 * 1024.

Definition MAX_FRAMES : Z := BITMAP_SIZE * BITS_PER_BYTE.

(** * Byte arrays *)

(** [[u8; N]]: the bytes written one by one, over what the array was filled with. *)
Record ByteArray := mkArr { fill : Z; cells : gmap Z Z }.

Definition filled (b : Z) : ByteArray := mkArr b ∅.
Definition byte_at (a : ByteArray) (i : Z) : Z := default (fill a) (cells a !! i).
Definition arr_get (size i : Z) (a : ByteArray) : res Z :=
  if (0 <=? i) && (i <? size) then Ok (byte_at a i) else Panic.
Definition arr_put (size i b : Z) (a : ByteArray) : res ByteArray :=
  if (0 <=? i) && (i <? size) then Ok (mkArr (fill a) (<[i := b]> (cells a))) else Panic.

(** [a[i / 8] |= 1 << (i % 8)], [a[i / 8] &= !(1 << (i % 8))] and
    [a[i / 8] & (1 << (i % 8)) != 0]. *)
Definition bit_mask (i : Z) : Z := Z.shiftl 1 (i mod BITS_PER_BYTE).
Definition arr_set_bit (size i : Z) (a : ByteArray) : res ByteArray :=
  b ← arr_get size (i / BITS_PER_BYTE) a; arr_put size (i / BITS_PER_BYTE) (Z.lor b (bit_mask i)) a.
Definition arr_clear_bit (size i : Z) (a : ByteArray) : res ByteArray :=
  b ← arr_get size (i / BITS_PER_BYTE) a; arr_put size (i / BITS_PER_BYTE) (Z.land b (Z.lxor U8_MAX (bit_mask i))) a.
Definition arr_test_bit (size i : Z) (a : ByteArray) : res bool :=
  b ← arr_get size (i / BITS_PER_BYTE) a; Ok (negb (Z.land b (bit_mask i) =? 0)).

(** * State *)

(** The fields of the code's struct, then the statics [TOTAL_RAM_MB] and [HDA_DMA_BASE]
    beside it. *)
Record BitmapFrameAllocator := mkPmm {
  bitmap : ByteArray; delivered : ByteArray; next_free_bit : Z; total_frames : Z; usable_frames : Z; allocated_count : Z;
  pt_pool : ByteArray; pt_pool_base : Z; pt_pool_frames : Z;
  reserved_spans : list (Z * Z); reserved_count : Z; double_use_warned : bool;
  TOTAL_RAM_MB : Z; HDA_DMA_BASE : Z
}.

Abbreviation Op := (M BitmapFrameAllocator).

Definition empty : BitmapFrameAllocator :=
  mkPmm (filled 0xFF) (filled 0) 0 0 0 0 (filled 0) 0 0 (replicate (Z.to_nat MAX_RESERVED_SPANS) (0, 0)) 0 false 512 0.

Definition with_bitmap (x : ByteArray) (p : BitmapFrameAllocator) : BitmapFrameAllocator :=
  mkPmm x (delivered p) (next_free_bit p) (total_frames p) (usable_frames p) (allocated_count p) (pt_pool p) (pt_pool_base p) (pt_pool_frames p)
    (reserved_spans p) (reserved_count p) (double_use_warned p) (TOTAL_RAM_MB p) (HDA_DMA_BASE p).
Definition with_delivered (x : ByteArray) (p : BitmapFrameAllocator) : BitmapFrameAllocator :=
  mkPmm (bitmap p) x (next_free_bit p) (total_frames p) (usable_frames p) (allocated_count p) (pt_pool p) (pt_pool_base p) (pt_pool_frames p)
    (reserved_spans p) (reserved_count p) (double_use_warned p) (TOTAL_RAM_MB p) (HDA_DMA_BASE p).
Definition with_next_free_bit (x : Z) (p : BitmapFrameAllocator) : BitmapFrameAllocator :=
  mkPmm (bitmap p) (delivered p) x (total_frames p) (usable_frames p) (allocated_count p) (pt_pool p) (pt_pool_base p) (pt_pool_frames p)
    (reserved_spans p) (reserved_count p) (double_use_warned p) (TOTAL_RAM_MB p) (HDA_DMA_BASE p).
Definition with_allocated_count (x : Z) (p : BitmapFrameAllocator) : BitmapFrameAllocator :=
  mkPmm (bitmap p) (delivered p) (next_free_bit p) (total_frames p) (usable_frames p) x (pt_pool p) (pt_pool_base p) (pt_pool_frames p)
    (reserved_spans p) (reserved_count p) (double_use_warned p) (TOTAL_RAM_MB p) (HDA_DMA_BASE p).
Definition with_pt_pool (x : ByteArray) (base frames : Z) (p : BitmapFrameAllocator) : BitmapFrameAllocator :=
  mkPmm (bitmap p) (delivered p) (next_free_bit p) (total_frames p) (usable_frames p) (allocated_count p) x base frames
    (reserved_spans p) (reserved_count p) (double_use_warned p) (TOTAL_RAM_MB p) (HDA_DMA_BASE p).
Definition with_spans (x : list (Z * Z)) (n : Z) (p : BitmapFrameAllocator) : BitmapFrameAllocator :=
  mkPmm (bitmap p) (delivered p) (next_free_bit p) (total_frames p) (usable_frames p) (allocated_count p) (pt_pool p) (pt_pool_base p) (pt_pool_frames p)
    x n (double_use_warned p) (TOTAL_RAM_MB p) (HDA_DMA_BASE p).
Definition with_warned (x : bool) (p : BitmapFrameAllocator) : BitmapFrameAllocator :=
  mkPmm (bitmap p) (delivered p) (next_free_bit p) (total_frames p) (usable_frames p) (allocated_count p) (pt_pool p) (pt_pool_base p) (pt_pool_frames p)
    (reserved_spans p) (reserved_count p) x (TOTAL_RAM_MB p) (HDA_DMA_BASE p).
Definition with_counts (total usable : Z) (p : BitmapFrameAllocator) : BitmapFrameAllocator :=
  mkPmm (bitmap p) (delivered p) (next_free_bit p) total usable (allocated_count p) (pt_pool p) (pt_pool_base p) (pt_pool_frames p)
    (reserved_spans p) (reserved_count p) (double_use_warned p) (TOTAL_RAM_MB p) (HDA_DMA_BASE p).
Definition with_ram_mb (x : Z) (p : BitmapFrameAllocator) : BitmapFrameAllocator :=
  mkPmm (bitmap p) (delivered p) (next_free_bit p) (total_frames p) (usable_frames p) (allocated_count p) (pt_pool p) (pt_pool_base p) (pt_pool_frames p)
    (reserved_spans p) (reserved_count p) (double_use_warned p) x (HDA_DMA_BASE p).
Definition with_hda_base (x : Z) (p : BitmapFrameAllocator) : BitmapFrameAllocator :=
  mkPmm (bitmap p) (delivered p) (next_free_bit p) (total_frames p) (usable_frames p) (allocated_count p) (pt_pool p) (pt_pool_base p) (pt_pool_frames p)
    (reserved_spans p) (reserved_count p) (double_use_warned p) (TOTAL_RAM_MB p) x.

(** * Bits *)

Definition upd_bitmap (f : ByteArray → res ByteArray) : Op unit :=
  p ← m_get; a ← m_lift (f (bitmap p)); m_modify (with_bitmap a).
Definition upd_delivered (f : ByteArray → res ByteArray) : Op unit :=
  p ← m_get; a ← m_lift (f (delivered p)); m_modify (with_delivered a).

Definition clear_bit (index : Z) : Op unit := upd_bitmap (arr_clear_bit BITMAP_SIZE index).
Definition set_bit (index : Z) : Op unit := upd_bitmap (arr_set_bit BITMAP_SIZE index).
Definition test_bit (index : Z) : Op bool := p ← m_get; m_lift (arr_test_bit BITMAP_SIZE index (bitmap p)).
Definition is_delivered (index : Z) : Op bool := p ← m_get; m_lift (arr_test_bit BITMAP_SIZE index (delivered p)).

Fixpoint for_each (f : Z → Op unit) (l : list Z) : Op unit :=
  match l with [] => mret tt | i :: l => f i;; for_each f l end.

(** [for i in start..start + count]. *)
Definition mark_delivered (start count : Z) : Op unit :=
  for_each (λ i, if i <? MAX_FRAMES then upd_delivered (arr_set_bit BITMAP_SIZE i) else mret tt)
    (seqZ start (u64_add start count - start)).

(** * Reserved spans *)

Definition frame_span (base len max_frames : Z) : option (Z * Z) :=
  if (len =? 0) || (max_frames =? 0) then None else
  end_ ← checked_add base len;
  let start_idx := base / FRAME_SIZE in
  if max_frames <=? start_idx then None else
  Some (start_idx, Z.min ((end_ - 1) / FRAME_SIZE) (max_frames - 1)).

(** The loop of [span_insert]: the spans, their count and the span to insert. *)
Fixpoint span_merge (fuel : nat) (spans : list (Z * Z)) (count i start end_ : Z) : res (list (Z * Z) * Z * Z * Z) :=
  match fuel with
  | O => OutOfFuel
  | S fuel =>
      if i <? count then
        match spans !! Z.to_nat i with
        | None => Panic
        | Some (s, e) =>
            if (start <=? u64_sat_add e 1) && (s <=? u64_sat_add end_ 1) then
              match spans !! Z.to_nat (count - 1) with
              | None => Panic
              | Some last => span_merge fuel (<[Z.to_nat i := last]> spans) (count - 1) i (Z.min s start) (Z.max e end_)
              end
            else span_merge fuel spans count (i + 1) start end_
        end
      else Ok (spans, count, start, end_)
  end.

Definition span_insert (spans : list (Z * Z)) (count start end_ : Z) : res (bool * list (Z * Z) * Z) :=
  '(spans, count, start, end_) ← span_merge (S (Z.to_nat count)) spans count 0 start end_;
  if count <? zlen spans then Ok (true, <[Z.to_nat count := (start, end_)]> spans, count + 1)
  else Ok (false, spans, count).

Definition register_span (s e : Z) : Op unit :=
  p ← m_get;
  '(_, spans, count) ← m_lift (span_insert (reserved_spans p) (reserved_count p) s e);
  m_modify (with_spans spans count).

Definition reserve_range (base len : Z) : Op unit :=
  if len =? 0 then mret tt else
  match frame_span base len MAX_FRAMES with
  | Some (s, e) => for_each set_bit (seqZ s (e + 1 - s));; register_span s e
  | None => mret tt
  end.

Fixpoint hits_span (spans : list (Z * Z)) (is_ : list Z) (idx : Z) : res bool :=
  match is_ with
  | [] => Ok false
  | i :: is_ =>
      match spans !! Z.to_nat i with
      | None => Panic
      | Some (s, e) => if (s <=? idx) && (idx <=? e) then Ok true else hits_span spans is_ idx
      end
  end.

(** [true]: the warning is emitted now. *)
Definition check_double_use (idx : Z) : Op bool :=
  p ← m_get;
  hit ← m_lift (hits_span (reserved_spans p) (seqZ 0 (reserved_count p)) idx);
  if negb hit then mret false else
  if double_use_warned p then mret false else
  m_modify (with_warned true);; mret true.

(** What the boot code has registered about the kernel image: [kernel_phys_virt()] and
    the linker symbol [KERNEL_END]. *)
Record KernelImage := mkImage { kphys : Z; kvirt : Z; virt_end : Z }.

Definition reserve_kernel_image_init (k : KernelImage) : Op unit :=
  if (kphys k =? 0) || (kvirt k =? 0) then mret tt else
  let image_len := u64_sat_sub (virt_end k) (kvirt k) in
  if image_len =? 0 then mret tt else reserve_range (kphys k) image_len.

Section Ops.
Context `{PhysFrames}.

Definition frame_at (idx : Z) : Op Z := m_lift (containing_address (u64_mul idx FRAME_SIZE)).

(** * Initialisation *)

(** [for i in start_idx..=end_idx], counting the frames that were cleared. *)
Fixpoint clear_frames (is_ : list Z) (usable : Z) : Op Z :=
  match is_ with
  | [] => mret usable
  | i :: is_ => if i <? MAX_FRAMES then clear_bit i;; clear_frames is_ (usable + 1) else clear_frames is_ usable
  end.

Fixpoint clear_ranges (ranges : list (Z * Z)) (last_end usable : Z) : Op (Z * Z) :=
  match ranges with
  | [] => mret (last_end, usable)
  | (base, length) :: ranges =>
      if length =? 0 then clear_ranges ranges last_end usable else
      let end_ := u64_sat_add base length in
      start_frame ← m_lift (containing_address base);
      end_frame ← m_lift (containing_address (u64_sat_sub end_ 1));
      let start_idx := start_frame / FRAME_SIZE in
      let end_idx := end_frame / FRAME_SIZE in
      usable ← clear_frames (seqZ start_idx (end_idx + 1 - start_idx)) usable;
      clear_ranges ranges (if last_end <? end_ then end_ else last_end) usable
  end.

Definition init_from_usable_ranges (k : KernelImage) (ranges : list (Z * Z)) : Op unit :=
  m_modify (with_bitmap (filled 0xFF));;
  m_modify (with_delivered (filled 0));;
  m_modify (with_pt_pool (filled 0) 0 0);;
  m_modify (with_warned false);;
  '(last_end, usable_count) ← clear_ranges ranges 0 0;
  let total := Z.min (last_end / FRAME_SIZE) MAX_FRAMES in
  m_modify (with_counts (if total =? 0 then MAX_FRAMES else total) usable_count);;
  m_modify (with_allocated_count 0);;
  m_modify (with_next_free_bit LOWMEM_RESERVE_FRAMES);;
  reserve_kernel_image_init k;;
  reserve_range BOOT_RAMLOG_PHYS BOOT_RAMLOG_CAP;;
  let ram_mb := last_end / (1024 * 1024) in
  if 0 <? ram_mb then m_modify (with_ram_mb ram_mb) else mret tt.

(** * Allocation *)

Fixpoint first_free (is_ : list Z) : Op (option Z) :=
  match is_ with
  | [] => mret None
  | i :: is_ => busy ← test_bit i; if (busy : bool) then first_free is_ else mret (Some i)
  end.

Definition find_free_frame (start_index : Z) : Op (option Z) :=
  p ← m_get; first_free (seqZ start_index (total_frames p - start_index)).

(** What every successful allocation does with its frames. *)
Definition deliver (start count : Z) : Op unit :=
  for_each (λ j, set_bit (u64_add start j)) (seqZ 0 count);; mark_delivered start count.

Definition add_allocated (n : Z) : Op unit :=
  p ← m_get; m_modify (with_allocated_count (u64_add (allocated_count p) n)).
Definition sub_allocated : Op unit :=
  p ← m_get; if 0 <? allocated_count p then m_modify (with_allocated_count (allocated_count p - 1)) else mret tt.

Definition allocate_frame : Op (option Z) :=
  p ← m_get;
  o ← find_free_frame (next_free_bit p);
  match o with
  | None => mret None
  | Some idx =>
      set_bit idx;;
      mark_delivered idx 1;;
      m_modify (with_next_free_bit (idx + 1));;
      add_allocated 1;;
      check_double_use idx;;
      f ← frame_at idx;
      mret (Some f)
  end.

(** The first [j] of the list with frame [i + j] busy. *)
Fixpoint first_busy (i : Z) (js : list Z) : Op (option Z) :=
  match js with
  | [] => mret None
  | j :: js => busy ← test_bit (u64_add i j); if (busy : bool) then mret (Some j) else first_busy i js
  end.

Fixpoint contiguous_loop (fuel : nat) (count i : Z) : Op (option Z) :=
  match fuel with
  | O => m_lift OutOfFuel
  | S fuel =>
      p ← m_get;
      if i <=? u64_sat_sub (total_frames p) count then
        o ← first_busy i (seqZ 0 count);
        match o with
        | Some j => contiguous_loop fuel count (u64_add i (u64_add j 1))
        | None =>
            deliver i count;;
            add_allocated count;;
            m_modify (with_next_free_bit (u64_add i count));;
            f ← frame_at i;
            mret (Some f)
        end
      else mret None
  end.

Definition allocate_contiguous (count : Z) : Op (option Z) :=
  if count =? 0 then mret None else
  p ← m_get; contiguous_loop (S (S (Z.to_nat (total_frames p)))) count (next_free_bit p).

Definition take_low (idx : Z) : Op (option Z) :=
  set_bit idx;; mark_delivered idx 1;; add_allocated 1;; f ← frame_at idx; mret (Some f).

Definition allocate_below_1mb : Op (option Z) :=
  p ← m_get;
  let idx := 64 in
  busy ← (if idx <? total_frames p then test_bit idx else mret true);
  if negb busy then take_low idx else
  o ← first_free (reverse (seqZ 2 (Z.min 255 (total_frames p) - 2)));
  match o with Some i => take_low i | None => mret None end.

Fixpoint huge_loop (fuel : nat) (count start_bit : Z) : Op (option Z) :=
  match fuel with
  | O => m_lift OutOfFuel
  | S fuel =>
      p ← m_get;
      if total_frames p <? u64_add start_bit count then mret None else
      o ← first_busy start_bit (seqZ 0 count);
      match o with
      | Some _ => huge_loop fuel count (u64_add start_bit 512)
      | None =>
          deliver start_bit count;;
          m_modify (with_next_free_bit (u64_add start_bit count));;
          add_allocated count;;
          f ← frame_at start_bit;
          mret (Some f)
      end
  end.

Definition allocate_huge_2mb (count : Z) : Op (option Z) :=
  if (count =? 0) || negb (count mod 512 =? 0) then allocate_contiguous count else
  p ← m_get; huge_loop (S (S (Z.to_nat (total_frames p)))) count (mask_down 9 (u64_add (next_free_bit p) 511)).

Definition allocate_huge_1gb : Op (option Z) := allocate_huge_2mb 262144.

Definition deallocate_frame (frame : Z) : Op unit :=
  let idx := frame / FRAME_SIZE in
  p ← m_get;
  if total_frames p <=? idx then mret tt else
  d ← is_delivered idx;
  if negb d then mret tt else
  clear_bit idx;;
  upd_delivered (arr_clear_bit BITMAP_SIZE idx);;
  (if idx <? next_free_bit p then m_modify (with_next_free_bit idx) else mret tt);;
  sub_allocated.

(** * The pool of page-table frames *)

Definition upd_pool (f : ByteArray → res ByteArray) : Op unit :=
  p ← m_get; a ← m_lift (f (pt_pool p)); m_modify (with_pt_pool a (pt_pool_base p) (pt_pool_frames p)).
Definition set_pool_base (base : Z) : Op unit := m_modify (λ p, with_pt_pool (pt_pool p) base (pt_pool_frames p) p).
Definition set_pool_frames (n : Z) : Op unit := m_modify (λ p, with_pt_pool (pt_pool p) (pt_pool_base p) n p).

Fixpoint carve (is_ : list Z) (frames carved : Z) : Op Z :=
  match is_ with
  | [] => mret carved
  | i :: is_ =>
      if carved <? frames then
        busy ← test_bit i;
        if (busy : bool) then carve is_ frames carved else
        set_bit i;;
        (if carved =? 0 then set_pool_base i else mret tt);;
        (if carved / 8 <? PT_POOL_BITMAP_BYTES then upd_pool (arr_set_bit PT_POOL_BITMAP_BYTES carved) else mret tt);;
        carve is_ frames (carved + 1)
      else mret carved
  end.

Definition init_pt_pool (frames : Z) : Op Z :=
  p ← m_get;
  carved ← carve (seqZ (next_free_bit p) (total_frames p - next_free_bit p)) frames 0;
  set_pool_frames carved;;
  p ← m_get;
  (if 0 <? carved then register_span (pt_pool_base p) (pt_pool_base p + carved - 1) else mret tt);;
  mret carved.

Definition pt_pool_off (p : BitmapFrameAllocator) (frame_idx : Z) : option Z :=
  if pt_pool_frames p =? 0 then None else
  if frame_idx <? pt_pool_base p then None else
  let off := frame_idx - pt_pool_base p in
  if off <? pt_pool_frames p then Some off else None.

Fixpoint first_in_pool (offs : list Z) : Op (option Z) :=
  match offs with
  | [] => mret None
  | off :: offs =>
      p ← m_get;
      b ← m_lift (arr_test_bit PT_POOL_BITMAP_BYTES off (pt_pool p));
      if (b : bool) then mret (Some off) else first_in_pool offs
  end.

Definition alloc_pt_frame : Op (option Z) :=
  p ← m_get;
  o ← first_in_pool (seqZ 0 (pt_pool_frames p));
  match o with
  | Some off =>
      upd_pool (arr_clear_bit PT_POOL_BITMAP_BYTES off);;
      add_allocated 1;;
      f ← frame_at (pt_pool_base p + off);
      mret (Some f)
  | None => allocate_frame
  end.

Definition dealloc_pt_frame (frame : Z) : Op unit :=
  let idx := frame / FRAME_SIZE in
  p ← m_get;
  match pt_pool_off p idx with
  | Some off => upd_pool (arr_set_bit PT_POOL_BITMAP_BYTES off);; sub_allocated
  | None => deallocate_frame frame
  end.

Fixpoint count_pool (offs : list Z) (n : Z) : Op Z :=
  match offs with
  | [] => mret n
  | off :: offs =>
      p ← m_get;
      b ← m_lift (arr_test_bit PT_POOL_BITMAP_BYTES off (pt_pool p));
      count_pool offs (if (b : bool) then n + 1 else n)
  end.

Definition pt_pool_free : Op Z := p ← m_get; count_pool (seqZ 0 (pt_pool_frames p)) 0.

(** * The DMA pool of the audio controller *)

(** Sixteen frames, or fewer when one allocation fails. *)
Fixpoint take_frames (n : nat) (acc : list Z) : Op (bool * list Z) :=
  match n with
  | O => mret (true, acc)
  | S n => o ← alloc_pt_frame; match o with Some f => take_frames n (acc ++ [f]) | None => mret (false, acc) end
  end.

Fixpoint consecutive (l : list Z) : bool :=
  match l with
  | a :: ((b :: _) as l') => (b =? u64_add a 0x1000) && consecutive l'
  | _ => true
  end.

Fixpoint hda_attempts (n : nat) : Op unit :=
  match n with
  | O => mret tt
  | S n =>
      '(ok, frames) ← take_frames 16 [];
      if ok && consecutive frames then m_modify (with_hda_base (default 0 (frames !! 0%nat))) else hda_attempts n
  end.

Definition reserve_hda_dma_pool : Op unit :=
  p ← m_get; if negb (HDA_DMA_BASE p =? 0) then mret tt else hda_attempts 3.

End Ops.

(** * Accounting and budgets *)

Definition usable_memory_bytes (p : BitmapFrameAllocator) : Z := u64_mul (usable_frames p) 4096.
Definition pmm_free_frames (p : BitmapFrameAllocator) : Z := u64_sat_sub (total_frames p) (allocated_count p).

Definition heap_budget_mb (ram_mb : Z) : Z :=
  if ram_mb =? 0 then 512 else
  let pct75 := u64_sat_mul ram_mb 3 / 4 in
  let kernel_keep := if ram_mb <? 1536 then Z.max (ram_mb / 3) 384 else Z.max (ram_mb / 8) 128 in
  let floor := if ram_mb <? 1536 then HEAP_FLOOR_SMALL_MB else HEAP_FLOOR_MB in
  Z.max (Z.min pct75 (u64_sat_sub ram_mb kernel_keep)) floor.

Definition heap_piso_mb (ram_mb : Z) : Z :=
  if ram_mb =? 0 then 512 else if ram_mb <? 1536 then HEAP_FLOOR_MB else 512.

Definition frag_reassembly_budget_bytes (ram_mb : Z) : Z :=
  if ram_mb =? 0 then 1024 * 1000 else
  if ram_mb <? 1280 then 1200 else if ram_mb <? 2048 then 24 * 1024 else 1024 * 1000.

Definition can_afford_frag (p : BitmapFrameAllocator) (bytes : Z) : bool := bytes <=? frag_reassembly_budget_bytes (TOTAL_RAM_MB p).
Definition mesh_frag_pressure (p : BitmapFrameAllocator) : bool := (0 <? TOTAL_RAM_MB p) && (TOTAL_RAM_MB p <? 1536).

End Pmm.
