(* ===== verification/FrameAllocThm.v ===== *)
(** The operations of the physical frame allocator on bits: arrays of bytes as sets of
    frames, searches, and the registry of reserved spans. *)

From S2P Require Import Prelude FrameAlloc.
Import Pmm.

(** * Bits of an array *)

Definition bit (a : ByteArray) (i : Z) : bool := Z.testbit (byte_at a (i / 8)) (i mod 8).

Definition on (i : Z) (a : ByteArray) : ByteArray := mkArr (fill a) (<[i / 8 := Z.lor (byte_at a (i / 8)) (bit_mask i)]> (cells a)).
Definition off (i : Z) (a : ByteArray) : ByteArray :=
  mkArr (fill a) (<[i / 8 := Z.land (byte_at a (i / 8)) (Z.lxor U8_MAX (bit_mask i))]> (cells a)).

Lemma bit_filled b i : bit (filled b) i = Z.testbit b (i mod 8).
Proof. unfold bit, byte_at. cbn. by rewrite lookup_empty. Qed.

Lemma div_mod_eq i j : i / 8 = j / 8 → i mod 8 = j mod 8 → i = j.
Proof. intros H1 H2. rewrite (Z.div_mod i 8), (Z.div_mod j 8) by lia. lia. Qed.

Lemma mask_testbit i k : 0 ≤ k → Z.testbit (bit_mask i) k = (k =? i mod 8).
Proof. intros Hk. unfold bit_mask, BITS_PER_BYTE. rewrite Z.shiftl_1_l, Z.pow2_bits_eqb by (apply Z.mod_pos_bound; lia). apply Z.eqb_sym. Qed.

Lemma u8_max_testbit k : 0 ≤ k < 8 → Z.testbit U8_MAX k = true.
Proof. intros Hk. change U8_MAX with (Z.ones 8). by apply Z.ones_spec_low. Qed.

Lemma bit_at_insert a b i j :
  bit (mkArr (fill a) (<[i / 8 := b]> (cells a))) j = if j / 8 =? i / 8 then Z.testbit b (j mod 8) else bit a j.
Proof.
  unfold bit, byte_at. cbn. destruct (Z.eqb_spec (j / 8) (i / 8)) as [-> | Hne]; [by rewrite lookup_insert_eq|].
  by rewrite lookup_insert_ne.
Qed.

Lemma eqb_split i j : (j =? i) = (j / 8 =? i / 8) && (j mod 8 =? i mod 8).
Proof.
  destruct (Z.eqb_spec j i) as [-> | Hne]; [by rewrite !Z.eqb_refl|]. symmetry. apply andb_false_iff.
  destruct (Z.eqb_spec (j / 8) (i / 8)); [|by left]. right. apply Z.eqb_neq. intros E. by apply Hne, div_mod_eq.
Qed.

Lemma bit_on i a j : bit (on i a) j = bit a j || (j =? i).
Proof.
  unfold on. rewrite bit_at_insert, (eqb_split i j). pose proof (Z.mod_pos_bound j 8 ltac:(lia)).
  destruct (Z.eqb_spec (j / 8) (i / 8)) as [E|_]; cbn [andb]; [|by rewrite orb_false_r].
  rewrite Z.lor_spec, mask_testbit by lia. unfold bit. by rewrite E.
Qed.

Lemma bit_off i a j : bit (off i a) j = bit a j && negb (j =? i).
Proof.
  unfold off. rewrite bit_at_insert, (eqb_split i j). pose proof (Z.mod_pos_bound j 8 ltac:(lia)).
  destruct (Z.eqb_spec (j / 8) (i / 8)) as [E|_]; cbn [andb negb]; [|by rewrite andb_true_r].
  rewrite Z.land_spec, Z.lxor_spec, mask_testbit, u8_max_testbit by lia. unfold bit. by rewrite E, xorb_true_l.
Qed.

Lemma arr_get_run size i a : 0 ≤ i < size * 8 → arr_get size (i / BITS_PER_BYTE) a = Ok (byte_at a (i / 8)).
Proof.
  intros Hi. unfold arr_get, BITS_PER_BYTE. rewrite (proj2 (Z.leb_le _ _)), (proj2 (Z.ltb_lt _ _)); [done|apply Z.div_lt_upper_bound; lia|apply Z.div_pos; lia].
Qed.

Lemma arr_put_run size i b a : 0 ≤ i < size * 8 → arr_put size (i / BITS_PER_BYTE) b a = Ok (mkArr (fill a) (<[i / 8 := b]> (cells a))).
Proof.
  intros Hi. unfold arr_put, BITS_PER_BYTE. rewrite (proj2 (Z.leb_le _ _)), (proj2 (Z.ltb_lt _ _)); [done|apply Z.div_lt_upper_bound; lia|apply Z.div_pos; lia].
Qed.

Lemma arr_set_bit_run size i a : 0 ≤ i < size * 8 → arr_set_bit size i a = Ok (on i a).
Proof. intros Hi. unfold arr_set_bit. rewrite arr_get_run by done. cbn. by rewrite arr_put_run. Qed.

Lemma arr_clear_bit_run size i a : 0 ≤ i < size * 8 → arr_clear_bit size i a = Ok (off i a).
Proof. intros Hi. unfold arr_clear_bit. rewrite arr_get_run by done. cbn. by rewrite arr_put_run. Qed.

Lemma land_mask b i : negb (Z.land b (bit_mask i) =? 0) = Z.testbit b (i mod 8).
Proof.
  pose proof (Z.mod_pos_bound i 8 ltac:(lia)) as Hm. destruct (Z.testbit b (i mod 8)) eqn:E.
  - apply negb_true_iff, Z.eqb_neq. intros Hz. assert (Hb : Z.testbit (Z.land b (bit_mask i)) (i mod 8) = true) by (rewrite Z.land_spec, mask_testbit, E, Z.eqb_refl by lia; done).
    by rewrite Hz, Z.bits_0 in Hb.
  - apply negb_false_iff, Z.eqb_eq, Z.bits_inj'. intros k Hk. rewrite Z.land_spec, mask_testbit, Z.bits_0 by lia.
    destruct (Z.eqb_spec k (i mod 8)) as [->|]; [by rewrite E|apply andb_false_r].
Qed.

Lemma arr_test_bit_run size i a : 0 ≤ i < size * 8 → arr_test_bit size i a = Ok (bit a i).
Proof. intros Hi. unfold arr_test_bit. rewrite arr_get_run by done. cbn. by rewrite land_mask. Qed.

(** * The operations on bits *)

Definition busy (p : BitmapFrameAllocator) (i : Z) : bool := bit (bitmap p) i.
Definition owned (p : BitmapFrameAllocator) (i : Z) : bool := bit (delivered p) i.
Definition pooled (p : BitmapFrameAllocator) (i : Z) : bool := bit (pt_pool p) i.

Implicit Types p : BitmapFrameAllocator.

Lemma set_bit_run i p : 0 ≤ i < MAX_FRAMES → set_bit i p = (Ok tt, with_bitmap (on i (bitmap p)) p).
Proof. intros Hi. unfold set_bit, upd_bitmap. m_run reflexivity. m_run (unfold m_lift; rewrite arr_set_bit_run by done; reflexivity). reflexivity. Qed.

Lemma clear_bit_run i p : 0 ≤ i < MAX_FRAMES → clear_bit i p = (Ok tt, with_bitmap (off i (bitmap p)) p).
Proof. intros Hi. unfold clear_bit, upd_bitmap. m_run reflexivity. m_run (unfold m_lift; rewrite arr_clear_bit_run by done; reflexivity). reflexivity. Qed.

Lemma test_bit_run i p : 0 ≤ i < MAX_FRAMES → test_bit i p = (Ok (busy p i), p).
Proof. intros Hi. unfold test_bit. m_run reflexivity. unfold m_lift. by rewrite arr_test_bit_run. Qed.

Lemma is_delivered_run i p : 0 ≤ i < MAX_FRAMES → is_delivered i p = (Ok (owned p i), p).
Proof. intros Hi. unfold is_delivered. m_run reflexivity. unfold m_lift. by rewrite arr_test_bit_run. Qed.

Lemma undeliver_run i p : 0 ≤ i < MAX_FRAMES → upd_delivered (arr_clear_bit BITMAP_SIZE i) p = (Ok tt, with_delivered (off i (delivered p)) p).
Proof. intros Hi. unfold upd_delivered. m_run reflexivity. m_run (unfold m_lift; rewrite arr_clear_bit_run by done; reflexivity). reflexivity. Qed.

Lemma upd_pool_set i p : 0 ≤ i < PT_POOL_FRAMES →
  upd_pool (arr_set_bit PT_POOL_BITMAP_BYTES i) p = (Ok tt, with_pt_pool (on i (pt_pool p)) (pt_pool_base p) (pt_pool_frames p) p).
Proof. intros Hi. unfold upd_pool. m_run reflexivity. m_run (unfold m_lift; rewrite arr_set_bit_run by exact Hi; reflexivity). reflexivity. Qed.

Lemma upd_pool_clear i p : 0 ≤ i < PT_POOL_FRAMES →
  upd_pool (arr_clear_bit PT_POOL_BITMAP_BYTES i) p = (Ok tt, with_pt_pool (off i (pt_pool p)) (pt_pool_base p) (pt_pool_frames p) p).
Proof. intros Hi. unfold upd_pool. m_run reflexivity. m_run (unfold m_lift; rewrite arr_clear_bit_run by exact Hi; reflexivity). reflexivity. Qed.

Definition in_run (start count i : Z) : bool := (start <=? i) && (i <? start + count).

Lemma in_run_spec start count i : in_run start count i = true ↔ start ≤ i < start + count.
Proof. unfold in_run. rewrite andb_true_iff, Z.leb_le, Z.ltb_lt. done. Qed.

Lemma in_run_cons start count i : 0 < count → in_run start count i = (i =? start) || in_run (Z.succ start) (Z.pred count) i.
Proof. intros Hc. apply eq_true_iff_eq. rewrite orb_true_iff, !in_run_spec, Z.eqb_eq. lia. Qed.

Lemma in_run_nil start count i : count ≤ 0 → in_run start count i = false.
Proof. intros Hc. apply not_true_iff_false. rewrite in_run_spec. lia. Qed.

(** Marking a run of frames, in the bitmap or as delivered. *)
Lemma for_each_run (f : Z → Op unit) (g : ByteArray → BitmapFrameAllocator → BitmapFrameAllocator) (get : BitmapFrameAllocator → ByteArray) n : ∀ start p,
  (∀ i p, start ≤ i < start + Z.of_nat n → f i p = (Ok tt, g (on i (get p)) p)) →
  (∀ a p, get (g a p) = a) → (∀ a b p, g a (g b p) = g a p) → (∀ p, g (get p) p = p) →
  ∃ a, for_each f (seqZ start (Z.of_nat n)) p = (Ok tt, g a p) ∧ ∀ j, bit a j = bit (get p) j || in_run start (Z.of_nat n) j.
Proof.
  induction n as [|n IH]; intros start p Hf Hget Hgg Hid.
  { exists (get p). rewrite Hid. split; [done|]. intros j. by rewrite in_run_nil, orb_false_r by lia. }
  rewrite seqZ_cons by lia. cbn [for_each]. m_run (apply Hf; lia). replace (Z.pred (Z.of_nat (S n))) with (Z.of_nat n) by lia.
  destruct (IH (Z.succ start) (g (on start (get p)) p)) as (a & Ha & Hb); [intros i q Hi; apply Hf; lia|done..|].
  exists a. split; [by rewrite Ha, Hgg|]. intros j. rewrite Hb, Hget, bit_on, (in_run_cons start) by lia.
  replace (Z.pred (Z.of_nat (S n))) with (Z.of_nat n) by lia. by rewrite orb_assoc.
Qed.

Lemma set_bits_run start count p : 0 ≤ start → 0 ≤ count → start + count ≤ MAX_FRAMES →
  ∃ a, for_each set_bit (seqZ start count) p = (Ok tt, with_bitmap a p) ∧ ∀ j, bit a j = busy p j || in_run start count j.
Proof.
  intros Hs Hc Hm. rewrite <-(Z2Nat.id count Hc). apply (for_each_run set_bit with_bitmap bitmap); [|reflexivity|reflexivity|by intros []].
  intros i q Hi. apply set_bit_run. lia.
Qed.

Lemma mark_delivered_run start count p : 0 ≤ start → 0 ≤ count → start + count ≤ MAX_FRAMES →
  ∃ a, mark_delivered start count p = (Ok tt, with_delivered a p) ∧ ∀ j, bit a j = owned p j || in_run start count j.
Proof.
  intros Hs Hc Hm. assert (HM : MAX_FRAMES < 2 ^ 64) by done. unfold mark_delivered. rewrite u64_add_small by lia. replace (start + count - start) with count by lia.
  rewrite <-(Z2Nat.id count Hc). apply (for_each_run _ with_delivered delivered); [|reflexivity|reflexivity|by intros []].
  intros i q Hi. rewrite (proj2 (Z.ltb_lt _ _)) by lia. unfold upd_delivered. m_run reflexivity. m_run (unfold m_lift; rewrite arr_set_bit_run by (unfold MAX_FRAMES, BITS_PER_BYTE in *; lia); reflexivity). reflexivity.
Qed.

Lemma for_each_shift (f : Z → Op unit) n : ∀ start j p, (∀ i, j ≤ i < j + Z.of_nat n → u64_add start i = start + i) →
  for_each (λ i, f (u64_add start i)) (seqZ j (Z.of_nat n)) p = for_each f (seqZ (start + j) (Z.of_nat n)) p.
Proof.
  induction n as [|n IH]; intros start j p Hf; [done|]. rewrite (seqZ_cons j), (seqZ_cons (start + j)) by lia. cbn [for_each]. rewrite Hf by lia. unfold mbind, M_bind.
  destruct (f (start + j) p) as [[[]| | |] q]; try done. replace (Z.pred (Z.of_nat (S n))) with (Z.of_nat n) by lia.
  rewrite IH by (intros; apply Hf; lia). by replace (start + Z.succ j) with (Z.succ (start + j)) by lia.
Qed.

(** Frames [start .. start + count) change hands. *)
Lemma deliver_run start count p : 0 ≤ start → 0 ≤ count → start + count ≤ MAX_FRAMES →
  ∃ a d, deliver start count p = (Ok tt, with_delivered d (with_bitmap a p)) ∧
    (∀ j, bit a j = busy p j || in_run start count j) ∧ ∀ j, bit d j = owned p j || in_run start count j.
Proof.
  intros Hs Hc Hm. assert (HM : MAX_FRAMES < 2 ^ 64) by done. unfold deliver. destruct (set_bits_run start count p Hs Hc Hm) as (a & Ha & Hba).
  destruct (mark_delivered_run start count (with_bitmap a p) Hs Hc Hm) as (d & Hd & Hbd). exists a, d. split; [|split; [done|]].
  - m_run (rewrite <-(Z2Nat.id count Hc) at 1; rewrite for_each_shift by (intros i Hi; apply u64_add_small; lia); rewrite Z.add_0_r, (Z2Nat.id count Hc); exact Ha). exact Hd.
  - intros j. by rewrite Hbd.
Qed.

(** * Searches *)

Lemma find_seqZ (f : Z → bool) n : ∀ s,
  match find f (seqZ s (Z.of_nat n)) with
  | Some x => s ≤ x < s + Z.of_nat n ∧ f x = true ∧ ∀ k, s ≤ k < x → f k = false
  | None => ∀ k, s ≤ k < s + Z.of_nat n → f k = false
  end.
Proof.
  induction n as [|n IH]; intros s; [intros k Hk; exfalso; lia|]. rewrite seqZ_cons by lia. replace (Z.pred (Z.of_nat (S n))) with (Z.of_nat n) by lia. cbn [find].
  destruct (f s) eqn:E; [split; [lia|split; [done|intros k Hk; exfalso; lia]]|]. specialize (IH (Z.succ s)). destruct (find f _) as [x|].
  - destruct IH as (Hx & Hfx & Hk). split; [lia|split; [done|]]. intros k Hk'. destruct (decide (k = s)) as [->|]; [done|]. apply Hk. lia.
  - intros k Hk. destruct (decide (k = s)) as [->|]; [done|]. apply IH. lia.
Qed.

Lemma first_free_run l p : Forall (λ i, 0 ≤ i < MAX_FRAMES) l → first_free l p = (Ok (find (λ i, negb (busy p i)) l), p).
Proof.
  induction 1 as [|i l Hi _ IH]; [done|]. cbn [first_free find]. m_run (by apply test_bit_run). by destruct (busy p i).
Qed.

Lemma first_busy_run i l p : Forall (λ j, 0 ≤ i + j < MAX_FRAMES ∧ 0 ≤ j) l → 0 ≤ i → first_busy i l p = (Ok (find (λ j, busy p (i + j)) l), p).
Proof.
  intros Hl Hi. assert (HM : MAX_FRAMES < 2 ^ 64) by done. induction Hl as [|j l [Hj Hj0] _ IH]; [done|]. cbn [first_busy find]. rewrite u64_add_small by lia.
  m_run (by apply test_bit_run). by destruct (busy p (i + j)).
Qed.

(** [count] free frames from [i] on. *)
Definition window p (i count : Z) : Prop := ∀ k, i ≤ k < i + count → busy p k = false.

Lemma first_busy_window i count p : 0 ≤ i → 0 ≤ count → i + count ≤ MAX_FRAMES →
  ∃ o, first_busy i (seqZ 0 count) p = (Ok o, p) ∧
    match o with None => window p i count | Some j => 0 ≤ j < count ∧ busy p (i + j) = true ∧ ∀ k, 0 ≤ k < j → busy p (i + k) = false end.
Proof.
  intros Hi Hc Hm. eexists. split; [apply first_busy_run; [|done]; apply Forall_forall; intros j Hj%elem_of_seqZ; lia|].
  pose proof (find_seqZ (λ j, busy p (i + j)) (Z.to_nat count) 0) as Hf. rewrite Z2Nat.id in Hf by done. destruct (find _ _) as [j|]; [exact Hf|].
  intros k Hk. specialize (Hf (k - i) ltac:(lia)). cbv beta in Hf. by replace (i + (k - i)) with k in Hf by lia.
Qed.

(** * Spans *)

Definition covered (spans : list (Z * Z)) (count k : Z) : Prop := ∃ i s e, 0 ≤ i < count ∧ spans !! Z.to_nat i = Some (s, e) ∧ s ≤ k ≤ e.

Definition spans_ok (spans : list (Z * Z)) (count : Z) : Prop :=
  0 ≤ count ≤ zlen spans ∧ ∀ i s e, 0 ≤ i < count → spans !! Z.to_nat i = Some (s, e) → 0 ≤ s ≤ e ∧ e < MAX_FRAMES.

Lemma covered_swap spans count i s e last k :
  0 ≤ i < count → spans !! Z.to_nat i = Some (s, e) → spans !! Z.to_nat (count - 1) = Some last →
  covered (<[Z.to_nat i := last]> spans) (count - 1) k ∨ s ≤ k ≤ e ↔ covered spans count k.
Proof.
  intros Hi Hs Hl. assert (Hlt : (Z.to_nat i < length spans)%nat) by (by eapply lookup_lt_Some). split.
  - intros [(j & s' & e' & Hj & Hl' & Hk)|Hk]; [|by exists i, s, e]. destruct (decide (j = i)) as [->|Hne].
    + rewrite list_lookup_insert_eq in Hl' by done. injection Hl' as ->. exists (count - 1), s', e'. split; [lia|done].
    + rewrite list_lookup_insert_ne in Hl' by lia. exists j, s', e'. split; [lia|done].
  - intros (j & s' & e' & Hj & Hl' & Hk). destruct (decide (j = i)) as [->|Hne]; [right; rewrite Hs in Hl'; injection Hl' as -> ->; done|]. left.
    destruct (decide (j = count - 1)) as [->|Hne'].
    + exists i, s', e'. split; [lia|]. rewrite list_lookup_insert_eq by done. by rewrite <-Hl.
    + exists j, s', e'. split; [lia|]. by rewrite list_lookup_insert_ne by lia.
Qed.

Lemma spans_ok_swap spans count i last :
  spans_ok spans count → 0 ≤ i < count → spans !! Z.to_nat (count - 1) = Some last → spans_ok (<[Z.to_nat i := last]> spans) (count - 1).
Proof.
  intros [Hc Hs] Hi Hl. split; [unfold zlen in *; rewrite length_insert; lia|]. intros j s e Hj Hl'. destruct (decide (j = i)) as [->|Hne].
  - rewrite list_lookup_insert_eq in Hl' by (unfold zlen in Hc; lia). injection Hl' as ->. eapply Hs; [|exact Hl]. lia.
  - rewrite list_lookup_insert_ne in Hl' by lia. eapply Hs; [|exact Hl']. lia.
Qed.

(** Merging keeps what is covered, counting the span in hand. *)
Lemma span_merge_run fuel : ∀ spans count i start end_,
  spans_ok spans count → 0 ≤ i ≤ count → 0 ≤ start ≤ end_ → end_ < MAX_FRAMES → count - i < Z.of_nat fuel →
  ∃ spans' count' start' end_', span_merge fuel spans count i start end_ = Ok (spans', count', start', end_') ∧
    zlen spans' = zlen spans ∧ spans_ok spans' count' ∧ count' ≤ count ∧ 0 ≤ start' ≤ end_' ∧ end_' < MAX_FRAMES ∧
    (∀ k, covered spans' count' k ∨ start' ≤ k ≤ end_' ↔ covered spans count k ∨ start ≤ k ≤ end_) ∧ (count' = count → spans' = spans).
Proof.
  assert (HM : MAX_FRAMES < U64_MAX) by done.
  induction fuel as [|fuel IH]; intros spans count i start end_ Hok Hi Hse He Hf; [lia|]. cbn [span_merge]. destruct (Z.ltb_spec i count) as [Hlt|Hge]; [|by exists spans, count, start, end_].
  pose proof Hok as [Hc Hs]. destruct (lookup_lt_is_Some_2 spans (Z.to_nat i)) as [[s e] Hl]; [unfold zlen in Hc; lia|]. rewrite Hl. destruct (Hs i s e ltac:(lia) Hl) as [Hse' He'].
  unfold u64_sat_add. rewrite !Z.min_l by lia. destruct (Z.leb_spec start (e + 1)); cbn [andb]; [destruct (Z.leb_spec s (end_ + 1))|].
  - destruct (lookup_lt_is_Some_2 spans (Z.to_nat (count - 1))) as [last Hl']; [unfold zlen in Hc; lia|]. rewrite Hl'.
    destruct (IH (<[Z.to_nat i := last]> spans) (count - 1) i (Z.min s start) (Z.max e end_)) as (spans' & count' & start' & end_' & Hm & Hz & Hok' & Hle & Hb & Hb' & Hcov & _);
      [apply spans_ok_swap; [done|lia|done]|lia..|]. exists spans', count', start', end_'. unfold zlen in *. rewrite length_insert in Hz. split_and!; [done|done|done|lia|lia|lia|done| |lia].
    intros k. rewrite Hcov, <-(covered_swap spans count i s e last k ltac:(lia) Hl Hl'). set (c := covered _ _ k).
    assert (Hhull : Z.min s start ≤ k ≤ Z.max e end_ ↔ s ≤ k ≤ e ∨ start ≤ k ≤ end_) by lia. tauto.
  - destruct (IH spans count (i + 1) start end_) as (spans' & count' & start' & end_' & H'); [done|lia..|]. by exists spans', count', start', end_'.
  - destruct (IH spans count (i + 1) start end_) as (spans' & count' & start' & end_' & H'); [done|lia..|]. by exists spans', count', start', end_'.
Qed.

(** Inserting a span adds it to what is covered, unless the registry is full, and then
    changes nothing. *)
Lemma span_insert_run spans count start end_ :
  spans_ok spans count → 0 ≤ start ≤ end_ → end_ < MAX_FRAMES →
  ∃ ok spans' count', span_insert spans count start end_ = Ok (ok, spans', count') ∧ zlen spans' = zlen spans ∧ spans_ok spans' count' ∧
    (if ok then ∀ k, covered spans' count' k ↔ covered spans count k ∨ start ≤ k ≤ end_ else spans' = spans ∧ count' = count ∧ count = zlen spans).
Proof.
  intros Hok Hse He. pose proof Hok as [Hc _]. unfold span_insert.
  destruct (span_merge_run (S (Z.to_nat count)) spans count 0 start end_) as (sp & n & s & e & Hm & Hz & Hok' & Hle & Hb & Hb' & Hcov & Hsame); [done|lia..|].
  rewrite Hm. cbn [mbind res_bind]. destruct (Z.ltb_spec n (zlen sp)) as [Hlt|Hge].
  - pose proof Hok' as [Hn Hs]. assert (Hln : (Z.to_nat n < length sp)%nat) by (unfold zlen in Hlt; lia).
    eexists true, _, _. split; [done|]. unfold zlen in *. rewrite length_insert. split; [lia|]. split; [split; [unfold zlen; rewrite length_insert; lia|]|].
    + intros i s' e' Hi Hl. destruct (decide (i = n)) as [->|Hne]; [rewrite list_lookup_insert_eq in Hl by done; injection Hl as <- <-; lia|].
      rewrite list_lookup_insert_ne in Hl by lia. eapply Hs; [|exact Hl]. lia.
    + intros k. rewrite <-Hcov. split.
      * intros (i & s' & e' & Hi & Hl & Hk). destruct (decide (i = n)) as [->|Hne]; [right; rewrite list_lookup_insert_eq in Hl by done; injection Hl as <- <-; done|].
        left. rewrite list_lookup_insert_ne in Hl by lia. exists i, s', e'. split; [lia|done].
      * intros [(i & s' & e' & Hi & Hl & Hk)|Hk]; [exists i, s', e'; split; [lia|]; by rewrite list_lookup_insert_ne by lia|].
        exists n, s, e. split; [lia|]. by rewrite list_lookup_insert_eq by done.
  - exists false, sp, n. split; [done|]. split; [done|]. split; [done|]. assert (n = count) as -> by lia. split; [by apply Hsame|]. split; [done|]. lia.
Qed.

Lemma hits_span_run spans idx n : ∀ s, 0 ≤ s → s + Z.of_nat n ≤ zlen spans → ∃ b, hits_span spans (seqZ s (Z.of_nat n)) idx = Ok b.
Proof.
  induction n as [|n IH]; intros s Hs Hn; [by eexists|]. rewrite seqZ_cons by lia. cbn [hits_span]. replace (Z.pred (Z.of_nat (S n))) with (Z.of_nat n) by lia.
  destruct (lookup_lt_is_Some_2 spans (Z.to_nat s)) as [[a e] Hl]; [unfold zlen in Hn; lia|]. rewrite Hl. destruct (_ && _); [by eexists|]. apply IH; lia.
Qed.

Lemma check_double_use_run idx p : 0 ≤ reserved_count p ≤ zlen (reserved_spans p) → ∃ b w, check_double_use idx p = (Ok b, with_warned w p).
Proof.
  intros Hc. unfold check_double_use. m_run reflexivity. destruct (hits_span_run (reserved_spans p) idx (Z.to_nat (reserved_count p)) 0) as [b Hb]; [lia..|].
  rewrite Z2Nat.id in Hb by lia. m_run (unfold m_lift; rewrite Hb; reflexivity). destruct b; cbn [negb]; [|exists false, (double_use_warned p); by destruct p].
  destruct (double_use_warned p) eqn:E; [exists false, true; destruct p; cbn in *; by subst|]. by exists true, true.
Qed.
