(* ===== verification/FrameAllocSpec.v ===== *)
(** What the physical frame allocator guarantees: frames have one owner, reserved frames
    are never handed out, allocation is first fit from the hint on. *)

From S2P Require Import Prelude FrameAlloc FrameAllocThm.
Import Pmm.

Implicit Types p : BitmapFrameAllocator.

(** * Invariant *)

(** The frames of the pool are busy and not delivered; every delivered frame is busy and
    was in the range the searches cover. *)
Record pmm_ok p : Prop := {
  ok_hint : 2 ≤ next_free_bit p ≤ MAX_FRAMES;
  ok_total : 0 < total_frames p ≤ MAX_FRAMES;
  ok_owned i : owned p i = true → 2 ≤ i < total_frames p ∧ busy p i = true;
  ok_pool : 0 ≤ pt_pool_frames p ≤ PT_POOL_FRAMES ∧ 0 ≤ pt_pool_base p ∧ pt_pool_base p + pt_pool_frames p ≤ MAX_FRAMES;
  ok_pooled k : 0 ≤ k < pt_pool_frames p → busy p (pt_pool_base p + k) = true ∧ owned p (pt_pool_base p + k) = false;
  ok_spans : zlen (reserved_spans p) = MAX_RESERVED_SPANS ∧ spans_ok (reserved_spans p) (reserved_count p)
}.

(** [n] frames from [x] on are handed out, and the hint moves to [h]. *)
Definition taken p (x n h : Z) p' : Prop :=
  ∃ a d w, p' = with_warned w (with_allocated_count (u64_add (allocated_count p) n) (with_next_free_bit h (with_delivered d (with_bitmap a p)))) ∧
    (∀ j, bit a j = busy p j || in_run x n j) ∧ ∀ j, bit d j = owned p j || in_run x n j.

Lemma taken_ok p x n h p' :
  pmm_ok p → taken p x n h p' → 2 ≤ x → x + n ≤ total_frames p → window p x n → 2 ≤ h ≤ MAX_FRAMES → pmm_ok p'.
Proof.
  intros [Hh Ht Ho Hp Hpd Hs] (a & d & w & -> & Ha & Hd) Hx Hn Hw Hh'. split; cbn; try done; unfold busy, owned in *; cbn.
  - intros i. rewrite Hd, Ha, !orb_true_iff, in_run_spec. intros [[Hi Hb]%Ho|Hi]; [split; [done|by left]|split; [lia|by right]].
  - intros k Hk. destruct (Hpd k Hk) as [Hb Hu]. rewrite Ha, Hd, Hb, Hu. split; [done|]. cbn [orb]. apply not_true_iff_false. rewrite in_run_spec. intros Hr.
    unfold window, busy in Hw. by rewrite Hw in Hb.
Qed.

Section Alloc.
Context `{PhysFrameLaws}.

Definition addr (i : Z) : Z := i * FRAME_SIZE.

Lemma frame_at_run i p : 0 ≤ i < MAX_FRAMES → frame_at i p = (Ok (addr i), p).
Proof.
  intros Hi. unfold frame_at, m_lift, addr, FRAME_SIZE. assert (HM : MAX_FRAMES = 2 ^ 24) by done. assert (Hr : 0 ≤ i * 4096 < 2 ^ 52) by lia.
  unfold u64_mul. rewrite Z.mod_small by lia. rewrite containing_ok by done. by rewrite Z.mod_mul, Z.sub_0_r by lia.
Qed.

Lemma first_free_seq s n p : 0 ≤ s → s + n ≤ MAX_FRAMES →
  ∃ o, first_free (seqZ s n) p = (Ok o, p) ∧
    match o with Some x => s ≤ x < s + n ∧ busy p x = false ∧ ∀ k, s ≤ k < x → busy p k = true | None => ∀ k, s ≤ k < s + n → busy p k = true end.
Proof.
  intros Hs Hn. eexists. split; [apply first_free_run, Forall_forall; intros j Hj%elem_of_seqZ; lia|].
  pose proof (find_seqZ (λ i, negb (busy p i)) (Z.to_nat n) s) as Hf. assert (Hq : seqZ s n = seqZ s (Z.of_nat (Z.to_nat n))) by (unfold seqZ; by rewrite Nat2Z.id).
  rewrite Hq. destruct (find _ _) as [x|].
  - destruct Hf as (Hx & Hb & Hk). split; [lia|]. split; [by apply negb_true_iff|]. intros k Hk'. apply negb_false_iff. by apply Hk.
  - intros k Hk. apply negb_false_iff, Hf. lia.
Qed.

Lemma add_allocated_run n p : add_allocated n p = (Ok tt, with_allocated_count (u64_add (allocated_count p) n) p).
Proof. reflexivity. Qed.

Lemma mark_one_run x p : 0 ≤ x < MAX_FRAMES →
  ∃ d, mark_delivered x 1 (with_bitmap (on x (bitmap p)) p) = (Ok tt, with_delivered d (with_bitmap (on x (bitmap p)) p)) ∧
    (∀ j, bit (on x (bitmap p)) j = busy p j || in_run x 1 j) ∧ ∀ j, bit d j = owned p j || in_run x 1 j.
Proof.
  intros Hx. destruct (mark_delivered_run x 1 (with_bitmap (on x (bitmap p)) p)) as (d & Hd & Hb); [lia..|]. exists d. split; [done|]. split; [|done].
  intros j. rewrite bit_on, (in_run_cons x) by lia. by rewrite (in_run_nil (Z.succ x)), orb_false_r by lia.
Qed.

Lemma allocate_frame_run p : pmm_ok p →
  ∃ o p', allocate_frame p = (Ok (addr <$> o), p') ∧
    match o with
    | Some x => next_free_bit p ≤ x < total_frames p ∧ busy p x = false ∧ (∀ k, next_free_bit p ≤ k < x → busy p k = true) ∧ taken p x 1 (x + 1) p'
    | None => p' = p ∧ ∀ k, next_free_bit p ≤ k < total_frames p → busy p k = true
    end.
Proof.
  intros [Hh Ht _ _ _ [Hz [Hc _]]]. unfold allocate_frame. m_run reflexivity.
  destruct (first_free_seq (next_free_bit p) (total_frames p - next_free_bit p) p) as (o & Ho & Hs); [lia..|].
  m_run (unfold find_free_frame; m_run reflexivity; exact Ho). destruct o as [x|]; [|exists None, p; split; [done|]; split; [done|]; intros k Hk; apply Hs; lia].
  destruct Hs as (Hx & Hb & Hk). destruct (mark_one_run x p ltac:(lia)) as (d & Hd & Hba & Hbd).
  m_run (apply set_bit_run; lia). m_run (exact Hd). m_run reflexivity. m_run (apply add_allocated_run).
  set (q := with_allocated_count _ _). destruct (check_double_use_run x q Hc) as (b & w & Hw). m_run (exact Hw). m_run (apply frame_at_run; lia).
  exists (Some x), (with_warned w q). split; [done|]. split_and!; [lia..|done|done|]. by exists (on x (bitmap p)), d, w.
Qed.

Lemma contiguous_loop_run fuel count : ∀ i p, pmm_ok p → 2 ≤ i → 0 < count < 2 ^ 63 → (0 < fuel)%nat → total_frames p + 2 - i ≤ Z.of_nat fuel → i ≤ 2 * MAX_FRAMES →
  ∃ o p', contiguous_loop fuel count i p = (Ok (addr <$> o), p') ∧
    match o with
    | Some x => i ≤ x ∧ x + count ≤ total_frames p ∧ window p x count ∧ (∀ y, i ≤ y < x → ¬ window p y count) ∧ taken p x count (x + count) p'
    | None => p' = p ∧ ∀ y, i ≤ y → y + count ≤ total_frames p → ¬ window p y count
    end.
Proof.
  assert (HM : MAX_FRAMES = 2 ^ 24) by done.
  induction fuel as [|fuel IH]; intros i p Hok Hi Hc Hf0 Hf Hi2; pose proof Hok as [Hh Ht _ _ _ _].
  { lia. }
  cbn [contiguous_loop]. m_run reflexivity. unfold u64_sat_sub. destruct (Z.leb_spec i (Z.max (total_frames p - count) 0)) as [Hle|Hgt].
  2: { exists None, p. split; [done|]. split; [done|]. intros y Hy Hyc. lia. }
  destruct (first_busy_window i count p) as (o & Ho & Hs); [lia..|]. m_run (exact Ho). destruct o as [j|].
  - destruct Hs as (Hj & Hb & _). rewrite (u64_add_small j 1), u64_add_small by lia. destruct (IH (i + (j + 1)) p Hok) as (o & p' & Hr & Hsp); [lia..|].
    exists o, p'. split; [exact Hr|]. assert (Hno : ∀ y, i ≤ y → y ≤ i + j → ¬ window p y count) by (intros y H1 H2 Hw; rewrite Hw in Hb; [done|lia]).
    destruct o as [x|].
    + destruct Hsp as (H1 & H2 & H3 & H4 & H5). split_and!; [lia|done|done| |done]. intros y Hy. destruct (decide (y ≤ i + j)); [apply Hno; lia|apply H4; lia].
    + destruct Hsp as (H1 & H2). split; [done|]. intros y Hy Hyc. destruct (decide (y ≤ i + j)); [apply Hno; lia|apply H2; lia].
  - destruct (deliver_run i count p) as (a & d & Hd & Ha & Hbd); [lia..|]. m_run (exact Hd). m_run (apply add_allocated_run). m_run reflexivity. m_run (apply frame_at_run; lia).
    rewrite u64_add_small by lia. eexists (Some i), _. split; [reflexivity|]. split_and!; [lia|lia|done|intros y Hy; exfalso; lia|].
    exists a, d, (double_use_warned p). done.
Qed.

Lemma allocate_contiguous_run count p : pmm_ok p → 0 ≤ count < 2 ^ 63 →
  ∃ o p', allocate_contiguous count p = (Ok (addr <$> o), p') ∧
    match o with
    | Some x => 0 < count ∧ next_free_bit p ≤ x ∧ x + count ≤ total_frames p ∧ window p x count ∧ (∀ y, next_free_bit p ≤ y < x → ¬ window p y count) ∧ taken p x count (x + count) p'
    | None => p' = p ∧ (count = 0 ∨ ∀ y, next_free_bit p ≤ y → y + count ≤ total_frames p → ¬ window p y count)
    end.
Proof.
  intros Hok Hc. unfold allocate_contiguous. destruct (Z.eqb_spec count 0) as [->|Hne]; [by exists None, p; split; [|split; [|left]]|]. m_run reflexivity.
  pose proof Hok as [Hh Ht _ _ _ _]. destruct (contiguous_loop_run (S (S (Z.to_nat (total_frames p)))) count (next_free_bit p) p Hok) as (o & p' & Hr & Hs); [lia..|].
  exists o, p'. split; [exact Hr|]. destruct o; [|destruct Hs; split; [done|by right]]. by split; [lia|].
Qed.
Lemma huge_loop_run fuel count : ∀ i p, pmm_ok p → 2 ≤ i → i mod 512 = 0 → 0 < count < 2 ^ 63 → (0 < fuel)%nat → total_frames p + 2 - i ≤ Z.of_nat fuel → i ≤ 2 * MAX_FRAMES →
  ∃ o p', huge_loop fuel count i p = (Ok (addr <$> o), p') ∧
    match o with
    | Some x => i ≤ x ∧ x mod 512 = 0 ∧ x + count ≤ total_frames p ∧ window p x count ∧ (∀ y, i ≤ y < x → y mod 512 = 0 → ¬ window p y count) ∧ taken p x count (x + count) p'
    | None => p' = p ∧ ∀ y, i ≤ y → y mod 512 = 0 → y + count ≤ total_frames p → ¬ window p y count
    end.
Proof.
  assert (HM : MAX_FRAMES = 2 ^ 24) by done.
  induction fuel as [|fuel IH]; intros i p Hok Hi Hal Hc Hf0 Hf Hi2; pose proof Hok as [Hh Ht _ _ _ _].
  { lia. }
  cbn [huge_loop]. m_run reflexivity. rewrite (u64_add_small i count) by lia. destruct (Z.ltb_spec (total_frames p) (i + count)) as [Hgt|Hle].
  { exists None, p. split; [done|]. split; [done|]. intros y Hy _ Hyc. lia. }
  destruct (first_busy_window i count p) as (o & Ho & Hs); [lia..|]. m_run (exact Ho). destruct o as [j|].
  - destruct Hs as (Hj & Hb & _). rewrite u64_add_small by lia. destruct (IH (i + 512) p Hok) as (o & p' & Hr & Hsp); [lia|by rewrite <-Z.add_mod_idemp_r, Z.add_0_r|lia..|].
    exists o, p'. split; [exact Hr|].
    assert (Hno : ∀ y, i ≤ y < i + 512 → y mod 512 = 0 → ¬ window p y count).
    { intros y Hy Hm Hw. assert (y = i) as -> by (pose proof (Z.div_mod y 512); pose proof (Z.div_mod i 512); lia). rewrite Hw in Hb; [done|lia]. }
    destruct o as [x|].
    + destruct Hsp as (H1 & H2 & H3 & H4 & H5 & H6). split_and!; [lia|done..| |done]. intros y Hy. destruct (decide (y < i + 512)); [apply Hno; lia|apply H5; lia].
    + destruct Hsp as (H1 & H2). split; [done|]. intros y Hy Hm Hyc. destruct (decide (y < i + 512)); [apply Hno; [lia|done]|apply H2; [lia|done|lia]].
  - destruct (deliver_run i count p) as (a & d & Hd & Ha & Hbd); [lia..|]. m_run (exact Hd). m_run reflexivity. m_run (apply add_allocated_run). m_run (apply frame_at_run; lia).
    eexists (Some i), _. split; [reflexivity|]. split_and!; [lia|done|lia|done|intros y Hy; exfalso; lia|].
    exists a, d, (double_use_warned p). done.
Qed.

(** The hint, rounded up to a 2 MiB boundary. *)
Definition align_up (h : Z) : Z := 512 * ((h + 511) / 512).

Lemma allocate_huge_run count p : pmm_ok p → 0 < count < 2 ^ 63 → count mod 512 = 0 →
  ∃ o p', allocate_huge_2mb count p = (Ok (addr <$> o), p') ∧
    match o with
    | Some x => next_free_bit p ≤ x ∧ x mod 512 = 0 ∧ x + count ≤ total_frames p ∧ window p x count ∧
        (∀ y, next_free_bit p ≤ y < x → y mod 512 = 0 → ¬ window p y count) ∧ taken p x count (x + count) p'
    | None => p' = p ∧ ∀ y, next_free_bit p ≤ y → y mod 512 = 0 → y + count ≤ total_frames p → ¬ window p y count
    end.
Proof.
  intros Hok Hc Hm. assert (HM : MAX_FRAMES = 2 ^ 24) by done. unfold allocate_huge_2mb. rewrite (proj2 (Z.eqb_neq count 0)), Hm, Z.eqb_refl by lia. cbn [orb negb]. m_run reflexivity.
  pose proof Hok as [Hh Ht _ _ _ _]. rewrite u64_add_small by lia. rewrite mask_down_spec by lia. change (2 ^ 9) with 512.
  assert (Ha : next_free_bit p + 511 - (next_free_bit p + 511) mod 512 = align_up (next_free_bit p)) by (unfold align_up; pose proof (Z.div_mod (next_free_bit p + 511) 512); lia).
  assert (Hb : next_free_bit p ≤ align_up (next_free_bit p) < next_free_bit p + 512 ∧ align_up (next_free_bit p) mod 512 = 0).
  { split; [rewrite <-Ha; pose proof (Z.mod_pos_bound (next_free_bit p + 511) 512); lia|]. unfold align_up. rewrite Z.mul_comm. by apply Z.mod_mul. }
  rewrite Ha. destruct (huge_loop_run (S (S (Z.to_nat (total_frames p)))) count (align_up (next_free_bit p)) p Hok) as (o & p' & Hr & Hs); [lia..|].
  exists o, p'. split; [exact Hr|]. assert (Hlow : ∀ y, next_free_bit p ≤ y → y mod 512 = 0 → align_up (next_free_bit p) ≤ y).
  { intros y Hy Hym. pose proof (Z.div_mod y 512). pose proof (Z.div_mod (align_up (next_free_bit p)) 512). lia. }
  destruct o as [x|].
  - destruct Hs as (H1 & H2 & H3 & H4 & H5 & H6). split_and!; [lia|done..| |done]. intros y Hy Hym. apply H5; [|done]. pose proof (Hlow y ltac:(lia) Hym). lia.
  - destruct Hs as (H1 & H2). split; [done|]. intros y Hy Hym. apply H2; [by apply Hlow|done].
Qed.

Lemma take_low_run x p : 2 ≤ x < total_frames p → pmm_ok p → ∃ p', take_low x p = (Ok (Some (addr x)), p') ∧ taken p x 1 (next_free_bit p) p'.
Proof.
  intros Hx Hok. pose proof Hok as [Hh Ht _ _ _ _]. destruct (mark_one_run x p ltac:(lia)) as (d & Hd & Hba & Hbd). eexists. unfold take_low.
  m_run (apply set_bit_run; lia). m_run (exact Hd). m_run (apply add_allocated_run). m_run (apply frame_at_run; lia). split; [reflexivity|].
  exists (on x (bitmap p)), d, (double_use_warned p). done.
Qed.

Lemma allocate_below_1mb_run p : pmm_ok p →
  ∃ o p', allocate_below_1mb p = (Ok (addr <$> o), p') ∧
    match o with
    | Some x => 2 ≤ x < 255 ∧ x < total_frames p ∧ busy p x = false ∧ taken p x 1 (next_free_bit p) p'
    | None => p' = p ∧ ∀ x, 2 ≤ x < 255 → x < total_frames p → busy p x = true
    end.
Proof.
  intros Hok. pose proof Hok as [Hh Ht _ _ _ _]. assert (HM : MAX_FRAMES = 2 ^ 24) by done. unfold allocate_below_1mb. m_run reflexivity.
  assert (Hb : ∃ b, (if 64 <? total_frames p then test_bit 64 else mret true) p = (Ok b, p) ∧ (b = false → 64 < total_frames p ∧ busy p 64 = false)).
  { destruct (Z.ltb_spec 64 (total_frames p)); [exists (busy p 64); split; [apply test_bit_run; lia|done]|by exists true]. }
  destruct Hb as (b & Hb & Hbf). m_run (exact Hb). destruct b; cbn [negb].
  - m_run (apply first_free_run, Forall_forall; intros j Hj%elem_of_reverse%elem_of_seqZ; lia). destruct (find _ _) as [x|] eqn:E.
    + apply find_some in E as [Hin Hx]. apply negb_true_iff in Hx. apply list_elem_of_In, elem_of_reverse, elem_of_seqZ in Hin.
      destruct (take_low_run x p ltac:(lia) Hok) as (p' & Hr & Ht'). exists (Some x), p'. split; [exact Hr|]. split_and!; [lia..|done|done].
    + exists None, p. split; [done|]. split; [done|]. intros x Hx Hxt. apply negb_false_iff. apply (find_none _ _ E). apply list_elem_of_In, elem_of_reverse, elem_of_seqZ. lia.
  - destruct (Hbf eq_refl) as [H64 Hfree]. destruct (take_low_run 64 p ltac:(lia) Hok) as (p' & Hr & Ht'). exists (Some 64), p'. split; [exact Hr|]. split_and!; [lia..|done|done].
Qed.

(** * Who has a frame *)

(** [Kept] frames are reserved or were never usable; [PoolFree] and [PoolHeld] belong to
    the pool of page tables. *)
Inductive Status := Free | Held | Kept | PoolFree | PoolHeld.

#[global] Instance Status_eq_dec : EqDecision Status.
Proof. solve_decision. Defined.

Definition status p (i : Z) : Status :=
  match pt_pool_off p i with
  | Some k => if pooled p k then PoolFree else PoolHeld
  | None => if owned p i then Held else if busy p i then Kept else Free
  end.

Lemma pool_off_Some p i k : pt_pool_off p i = Some k → i = pt_pool_base p + k ∧ 0 ≤ k < pt_pool_frames p.
Proof.
  unfold pt_pool_off. destruct (_ =? _); [done|]. destruct (Z.ltb_spec i (pt_pool_base p)); [done|]. destruct (Z.ltb_spec (i - pt_pool_base p) (pt_pool_frames p)); [|done].
  intros [= <-]. lia.
Qed.

Lemma pool_off_None p i : pt_pool_off p i = None → i < pt_pool_base p ∨ pt_pool_base p + pt_pool_frames p ≤ i ∨ pt_pool_frames p = 0.
Proof.
  unfold pt_pool_off. destruct (Z.eqb_spec (pt_pool_frames p) 0); [lia|]. destruct (Z.ltb_spec i (pt_pool_base p)); [lia|]. destruct (Z.ltb_spec (i - pt_pool_base p) (pt_pool_frames p)); [done|]. lia.
Qed.

Lemma pool_off_in p k : 0 ≤ k < pt_pool_frames p → pt_pool_off p (pt_pool_base p + k) = Some k.
Proof.
  intros Hk. unfold pt_pool_off. rewrite (proj2 (Z.eqb_neq _ _)), (proj2 (Z.ltb_ge _ _)) by lia. replace (pt_pool_base p + k - pt_pool_base p) with k by lia.
  by rewrite (proj2 (Z.ltb_lt _ _)) by lia.
Qed.

Lemma pool_off_same p p' i : pt_pool_base p' = pt_pool_base p → pt_pool_frames p' = pt_pool_frames p → pt_pool_off p' i = pt_pool_off p i.
Proof. unfold pt_pool_off. by intros -> ->. Qed.

(** Outside the pool, the status is what the two bitmaps say. *)
Lemma status_general p i : pmm_ok p → owned p i = true ∨ busy p i = false → pt_pool_off p i = None.
Proof.
  intros Hok Hi. destruct (pt_pool_off p i) as [k|] eqn:E; [|done]. apply pool_off_Some in E as [-> Hk]. destruct (ok_pooled _ Hok k Hk) as [Hb Ho]. destruct Hi; congruence.
Qed.

Lemma status_Free p i : status p i = Free → busy p i = false.
Proof. unfold status. destruct (pt_pool_off p i) as [k|]; [by destruct (pooled p k)|]. destruct (owned p i); [done|]. by destruct (busy p i). Qed.

Lemma status_free p i : pmm_ok p → busy p i = false → status p i = Free.
Proof.
  intros Hok Hb. unfold status. rewrite (status_general p i) by (done || by right). rewrite Hb. destruct (owned p i) eqn:E; [|done]. apply (ok_owned _ Hok) in E as [_ E]. congruence.
Qed.

Lemma status_held p i : pmm_ok p → owned p i = true → status p i = Held.
Proof. intros Hok Ho. unfold status. rewrite (status_general p i) by (done || by left). by rewrite Ho. Qed.

Lemma status_Held p i : status p i = Held → owned p i = true.
Proof. unfold status. destruct (pt_pool_off p i) as [k|]; [by destruct (pooled p k)|]. destruct (owned p i); [done|]. by destruct (busy p i). Qed.

Lemma status_taken p x n h p' i : pmm_ok p → taken p x n h p' → window p x n →
  status p' i = (if in_run x n i then Held else status p i) ∧ (in_run x n i = true → status p i = Free).
Proof.
  intros Hok (a & d & w & -> & Ha & Hd) Hw. assert (Hf : in_run x n i = true → status p i = Free) by (rewrite in_run_spec; intros Hi; by apply status_free, Hw).
  split; [|done]. unfold status at 1. rewrite (pool_off_same p) by done. unfold pooled, owned, busy. cbn. rewrite Ha, Hd.
  destruct (in_run x n i) eqn:E.
  - specialize (Hf eq_refl). rewrite (status_general p i) by (done || right; by apply status_Free). by rewrite !orb_true_r.
  - rewrite !orb_false_r. unfold status, pooled. done.
Qed.

(** * Giving back and reserving *)

Lemma deallocate_frame_run f p : pmm_ok p → 0 ≤ f →
  ∃ p', deallocate_frame f p = (Ok tt, p') ∧ pmm_ok p' ∧
    ∀ i, status p' i = if bool_decide (i = f / FRAME_SIZE ∧ status p i = Held) then Free else status p i.
Proof.
  intros Hok Hf. pose proof Hok as [Hh Ht Ho Hp Hpd Hs]. unfold deallocate_frame. set (idx := f / FRAME_SIZE). assert (Hi0 : 0 ≤ idx) by (unfold idx, FRAME_SIZE; apply Z.div_pos; lia). m_run reflexivity.
  destruct (Z.leb_spec (total_frames p) idx) as [Hge|Hlt].
  { exists p. split; [done|]. split; [done|]. intros i. rewrite bool_decide_eq_false_2; [done|]. intros [-> Hi]. apply status_Held, Ho in Hi. lia. }
  m_run (apply is_delivered_run; lia). destruct (owned p idx) eqn:E; cbn [negb].
  2: { exists p. split; [done|]. split; [done|]. intros i. rewrite bool_decide_eq_false_2; [done|]. intros [-> Hi]. apply status_Held in Hi. congruence. }
  m_run (apply clear_bit_run; lia). m_run (apply undeliver_run; lia). destruct (Ho idx E) as [Hix Hib].
  set (q := with_delivered _ _). set (h := if idx <? next_free_bit p then idx else next_free_bit p). pose (c := if 0 <? allocated_count p then allocated_count p - 1 else allocated_count p).
  exists (with_allocated_count c (with_next_free_bit h q)). split; [|assert (Hoff : ∀ a j, bit (off idx a) j = bit a j && negb (j =? idx)) by (intros; apply bit_off); split].
  - assert (Hm : (if idx <? next_free_bit p then m_modify (with_next_free_bit idx) else mret tt) q = (Ok tt, with_next_free_bit h q)) by (unfold h; by destruct (idx <? next_free_bit p)).
    m_run (exact Hm). unfold sub_allocated. m_run reflexivity. cbn [allocated_count with_next_free_bit q with_delivered with_bitmap]. unfold c. by destruct (0 <? allocated_count p).
  - split; cbn; try done; unfold owned, busy; cbn.
    + unfold h. destruct (Z.ltb_spec idx (next_free_bit p)); lia.
    + intros i. rewrite !Hoff, !andb_true_iff. intros [Hi Hn]. destruct (Ho i Hi) as [? ?]. split; [done|]. by split.
    + intros k Hk. destruct (Hpd k Hk) as [Hb Hu]. rewrite !Hoff. unfold busy, owned in *. rewrite Hb, Hu. split; [|done]. cbn [andb]. apply negb_true_iff, Z.eqb_neq. intros Heq. congruence.
  - intros i. unfold status at 1. rewrite (pool_off_same p) by done. unfold pooled, owned, busy. cbn. rewrite !Hoff. case_bool_decide as Hb.
    + destruct Hb as [-> Hst]. rewrite (status_general p idx) by (done || by left). by rewrite Z.eqb_refl, !andb_false_r.
    + assert (Hne : i ≠ idx) by (intros ->; apply Hb; split; [done|by apply status_held]). rewrite (proj2 (Z.eqb_neq _ _) Hne), !andb_true_r. done.
Qed.

Definition span_of (base len i : Z) : bool := match frame_span base len MAX_FRAMES with Some (s, e) => (s <=? i) && (i <=? e) | None => false end.

Lemma reserve_range_run base len p : pmm_ok p → 0 ≤ base → 0 ≤ len →
  ∃ p', reserve_range base len p = (Ok tt, p') ∧ pmm_ok p' ∧
    ∀ i, status p' i = if span_of base len i && bool_decide (status p i = Free) then Kept else status p i.
Proof.
  intros Hok Hb Hl. unfold reserve_range, span_of. destruct (Z.eqb_spec len 0) as [->|Hne]; [by exists p|]. destruct (frame_span base len MAX_FRAMES) as [[s e]|] eqn:E; [|by exists p].
  assert (Hse : 0 ≤ s ≤ e ∧ e < MAX_FRAMES).
  { unfold frame_span in E. rewrite (proj2 (Z.eqb_neq len 0)) in E by done. change (MAX_FRAMES =? 0) with false in E. cbn [orb] in E. unfold checked_add in E.
    destruct (_ <=? U64_MAX); [|done]. cbn [mbind option_bind] in E. destruct (Z.leb_spec MAX_FRAMES (base / FRAME_SIZE)); [done|]. injection E as <- <-. unfold FRAME_SIZE.
    pose proof (Z.div_pos base 4096 ltac:(lia) ltac:(lia)). pose proof (Z.div_le_mono base (base + len - 1) 4096 ltac:(lia) ltac:(lia)). unfold FRAME_SIZE in *. lia. }
  pose proof Hok as [Hh Ht Ho Hp Hpd [Hz Hsp]].
  destruct (set_bits_run s (e + 1 - s) p) as (a & Ha & Hba); [lia..|]. m_run (exact Ha).
  destruct (span_insert_run (reserved_spans p) (reserved_count p) s e Hsp) as (ok & sp & n & Hi & Hz' & Hok' & _); [lia..|].
  exists (with_spans sp n (with_bitmap a p)). split; [|split].
  - unfold register_span. m_run reflexivity. m_run (unfold m_lift; cbn [reserved_spans reserved_count with_bitmap]; rewrite Hi; reflexivity). reflexivity.
  - split; cbn; try done; unfold owned, busy; cbn.
    + intros i Hi'. rewrite Hba. destruct (Ho i Hi') as [? Hbi]. split; [done|]. by rewrite Hbi.
    + intros k Hk. rewrite Hba. destruct (Hpd k Hk) as [-> Hu]. by split.
    + split; [congruence|done].
  - intros i. assert (Hin : in_run s (e + 1 - s) i = (s <=? i) && (i <=? e)) by (apply eq_true_iff_eq; rewrite in_run_spec, andb_true_iff, !Z.leb_le; lia).
    rewrite <-Hin. unfold status at 1. rewrite (pool_off_same p) by done. unfold pooled, owned, busy. cbn. rewrite Hba. destruct (in_run s (e + 1 - s) i) eqn:Er; cbn [andb].
    + rewrite orb_true_r. case_bool_decide as Hst.
      * rewrite (status_general p i) by (done || right; by apply status_Free). destruct (bit (delivered p) i) eqn:Eo; [|done].
        destruct (Ho i Eo) as [_ Hbi]. apply status_Free in Hst. congruence.
      * unfold status, pooled, owned, busy in *. destruct (pt_pool_off p i); [done|]. destruct (bit (delivered p) i); [done|]. by destruct (bit (bitmap p) i).
    + by rewrite orb_false_r.
Qed.

(** * The pool of page tables *)

Lemma first_in_pool_run n : ∀ s p, 0 ≤ s → s + Z.of_nat n ≤ PT_POOL_FRAMES →
  ∃ o, first_in_pool (seqZ s (Z.of_nat n)) p = (Ok o, p) ∧
    match o with Some k => s ≤ k < s + Z.of_nat n ∧ pooled p k = true | None => ∀ k, s ≤ k < s + Z.of_nat n → pooled p k = false end.
Proof.
  induction n as [|n IH]; intros s p Hs Hn; [exists None; split; [done|intros k Hk; exfalso; lia]|]. rewrite seqZ_cons by lia. replace (Z.pred (Z.of_nat (S n))) with (Z.of_nat n) by lia. cbn [first_in_pool].
  m_run reflexivity. m_run (unfold m_lift; rewrite arr_test_bit_run by (unfold PT_POOL_FRAMES, PT_POOL_BITMAP_BYTES in *; lia); reflexivity). fold (pooled p s).
  destruct (pooled p s) eqn:E; [exists (Some s); split; [done|split; [lia|done]]|]. destruct (IH (Z.succ s) p) as (o & Ho & Hsp); [lia..|]. exists o. split; [done|]. destruct o as [k|].
  - destruct Hsp. split; [lia|done].
  - intros k Hk. destruct (decide (k = s)) as [->|]; [done|]. apply Hsp. lia.
Qed.

Lemma status_pool p p' q c w : pt_pool_base p' = pt_pool_base p → pt_pool_frames p' = pt_pool_frames p → delivered p' = delivered p → bitmap p' = bitmap p →
  p' = with_allocated_count c (with_pt_pool q (pt_pool_base p) (pt_pool_frames p) p) →
  ∀ k, 0 ≤ k < pt_pool_frames p → (∀ j, bit q j = if j =? k then w else pooled p j) →
  ∀ i, status p' i = if i =? pt_pool_base p + k then (if w then PoolFree else PoolHeld) else status p i.
Proof.
  intros Hb Hf Hd Hm Hp k Hk Hq i. unfold status. rewrite (pool_off_same p) by done. unfold owned, busy, pooled. rewrite Hd, Hm. destruct (Z.eqb_spec i (pt_pool_base p + k)) as [->|Hne].
  - rewrite pool_off_in by done. subst p'. cbn. by rewrite Hq, Z.eqb_refl.
  - destruct (pt_pool_off p i) as [k'|] eqn:E; [|done]. apply pool_off_Some in E as [-> _]. subst p'. cbn. rewrite Hq, (proj2 (Z.eqb_neq k' k)) by lia. done.
Qed.

Lemma pool_bits_ok p q c : pmm_ok p → pmm_ok (with_allocated_count c (with_pt_pool q (pt_pool_base p) (pt_pool_frames p) p)).
Proof. intros [Hh Ht Ho Hp Hpd Hs]. by split. Qed.

Lemma alloc_pt_frame_run p : pmm_ok p →
  (∃ k p', 0 ≤ k < pt_pool_frames p ∧ pooled p k = true ∧ alloc_pt_frame p = (Ok (Some (addr (pt_pool_base p + k))), p') ∧ pmm_ok p' ∧ status p (pt_pool_base p + k) = PoolFree ∧ HDA_DMA_BASE p' = HDA_DMA_BASE p ∧
     ∀ i, status p' i = if i =? pt_pool_base p + k then PoolHeld else status p i) ∨
  (∀ k, 0 ≤ k < pt_pool_frames p → pooled p k = false) ∧ alloc_pt_frame p = allocate_frame p.
Proof.
  intros Hok. destruct (ok_pool _ Hok) as (Hf & Hb & Hbf). unfold alloc_pt_frame.
  destruct (first_in_pool_run (Z.to_nat (pt_pool_frames p)) 0 p) as (o & Ho & Hs); [lia..|]. rewrite Z2Nat.id in Ho, Hs by lia. rewrite Z.add_0_l in Hs.
  destruct o as [k|]; [left|right; split; [done|]; m_run reflexivity; by m_run (exact Ho)].
  destruct Hs as [Hk Hpk]. eexists k, _. split; [done|]. split; [done|]. split; [|split; [|split; [|split]]].
  - m_run reflexivity. m_run (exact Ho). m_run (apply upd_pool_clear; lia). m_run (apply add_allocated_run). m_run (apply frame_at_run; lia). reflexivity.
  - by apply pool_bits_ok.
  - unfold status. by rewrite pool_off_in, Hpk by lia.
  - reflexivity.
  - intros i. erewrite (status_pool p _ _ _ false) with (k := k); [done|reflexivity..|lia|].
    intros j. rewrite bit_off. fold (pooled p j). destruct (j =? k); [apply andb_false_r|apply andb_true_r].
Qed.

Lemma dealloc_pt_frame_run f p : pmm_ok p → 0 ≤ f →
  ∃ p', dealloc_pt_frame f p = (Ok tt, p') ∧ pmm_ok p' ∧
    ∀ i, status p' i = if bool_decide (i = f / FRAME_SIZE) then match status p i with Held => Free | PoolHeld => PoolFree | s => s end else status p i.
Proof.
  intros Hok Hf. unfold dealloc_pt_frame. set (idx := f / FRAME_SIZE). destruct (ok_pool _ Hok) as (Hpf & Hb & Hbf). destruct (pt_pool_off p idx) as [k|] eqn:E.
  - pose proof (pool_off_Some _ _ _ E) as [Hidx Hk]. set (q := with_pt_pool (on k (pt_pool p)) (pt_pool_base p) (pt_pool_frames p) p).
    pose (c := if 0 <? allocated_count p then allocated_count p - 1 else allocated_count p).
    exists (with_allocated_count c q). split; [|split; [by apply pool_bits_ok|]].
    + m_run reflexivity. rewrite E. m_run (apply upd_pool_set; lia). fold q. unfold sub_allocated. m_run reflexivity. cbn [allocated_count q with_pt_pool]. unfold c. by destruct (0 <? allocated_count p) eqn:?; [|destruct p].
    + intros i. rewrite (status_pool p _ (on k (pt_pool p)) c true) with (k := k); [|reflexivity..|lia|].
      * rewrite <-Hidx. destruct (Z.eqb_spec i idx) as [->|Hne]; [rewrite bool_decide_eq_true_2 by done|by rewrite bool_decide_eq_false_2].
        unfold status. rewrite E. by destruct (pooled p k).
      * intros j. rewrite bit_on. fold (pooled p j). destruct (j =? k); [apply orb_true_r|apply orb_false_r].
  - destruct (deallocate_frame_run f p Hok Hf) as (p' & Hr & Hok' & Hst). exists p'. split; [m_run reflexivity; by rewrite E|]. split; [done|]. intros i. rewrite Hst. fold idx.
    case_bool_decide as H1; case_bool_decide as H2; try done; [by destruct H1 as [_ ->]|tauto|].
    subst i. unfold status at 2. rewrite E. unfold status in H1 |- *. rewrite E in H1 |- *. destruct (owned p idx); [by destruct H1|]. by destruct (busy p idx).
Qed.

(** The free frames the pool would be carved from are consecutive. *)
Definition pool_contiguous p (n : Z) : Prop :=
  ∃ i0, next_free_bit p ≤ i0 ∧ (∀ i, next_free_bit p ≤ i < i0 → busy p i = true) ∧ ∀ i, i0 ≤ i < i0 + n → i < total_frames p → busy p i = false.

Lemma carve_skip n p k : ∀ s m, 0 ≤ s → s + m ≤ MAX_FRAMES → Z.of_nat k ≤ m → 0 < n → (∀ i, s ≤ i < s + Z.of_nat k → busy p i = true) →
  carve (seqZ s m) n 0 p = carve (seqZ (s + Z.of_nat k) (m - Z.of_nat k)) n 0 p.
Proof.
  induction k as [|k IH]; intros s m Hs Hm Hk Hn Hb; [by rewrite Z.add_0_r, Z.sub_0_r|].
  rewrite (seqZ_cons s) by lia. cbn [carve]. rewrite (proj2 (Z.ltb_lt 0 n)) by lia. m_run (apply test_bit_run; lia). rewrite Hb by lia. rewrite IH; [|lia..|intros; apply Hb; lia].
  f_equal. f_equal; lia.
Qed.

Lemma carve_take n m : ∀ i c p, 0 ≤ c ≤ n → n ≤ PT_POOL_FRAMES → 0 ≤ i → i + Z.of_nat m ≤ MAX_FRAMES →
  let k := Z.min (Z.of_nat m) (n - c) in
  (∀ j, i ≤ j < i + k → busy p j = false) → (0 < c → pt_pool_base p = i - c) →
  ∃ a q b, carve (seqZ i (Z.of_nat m)) n c p = (Ok (c + k), with_pt_pool q b (pt_pool_frames p) (with_bitmap a p)) ∧
    (∀ j, bit a j = busy p j || in_run i k j) ∧ (∀ j, bit q j = pooled p j || in_run c k j) ∧ (0 < c + k → b = i - c) ∧ (c + k ≤ 0 → b = pt_pool_base p).
Proof.
  induction m as [|m IH]; intros i c p Hc Hn Hi Hm k Hfree Hbase.
  { exists (bitmap p), (pt_pool p), (pt_pool_base p). assert (Hk0 : k = 0) by lia. rewrite Hk0. split; [cbn; rewrite Z.add_0_r; by destruct p|].
    split; [intros j; by rewrite in_run_nil, orb_false_r by lia|]. split; [intros j; by rewrite in_run_nil, orb_false_r by lia|]. split; [intros Hlt; apply Hbase; lia|done]. }
  rewrite seqZ_cons by lia. cbn [carve]. replace (Z.pred (Z.of_nat (S m))) with (Z.of_nat m) by lia. destruct (Z.ltb_spec c n) as [Hlt|Hge].
  2: { exists (bitmap p), (pt_pool p), (pt_pool_base p). assert (Hk0 : k = 0) by lia. rewrite Hk0. split; [rewrite Z.add_0_r; by destruct p|].
    split; [intros j; by rewrite in_run_nil, orb_false_r by lia|]. split; [intros j; by rewrite in_run_nil, orb_false_r by lia|]. split; [intros Hlt'; apply Hbase; lia|done]. }
  m_run (apply test_bit_run; lia). rewrite Hfree by lia. m_run (apply set_bit_run; lia). set (p1 := with_bitmap _ p).
  set (p2 := with_pt_pool (pt_pool p) (i - c) (pt_pool_frames p) p1).
  assert (H2 : (if c =? 0 then set_pool_base i else mret tt) p1 = (Ok tt, p2)).
  { destruct (Z.eqb_spec c 0) as [->|Hc0]; [unfold p2; by rewrite Z.sub_0_r|]. unfold p2. rewrite <-Hbase by lia. unfold p1. by destruct p. }
  m_run (exact H2). set (p3 := with_pt_pool (on c (pt_pool p)) (i - c) (pt_pool_frames p) p1).
  assert (H3 : (if c / 8 <? PT_POOL_BITMAP_BYTES then upd_pool (arr_set_bit PT_POOL_BITMAP_BYTES c) else mret tt) p2 = (Ok tt, p3)).
  { unfold PT_POOL_BITMAP_BYTES, PT_POOL_FRAMES in *. rewrite (proj2 (Z.ltb_lt _ _)) by (apply Z.div_lt_upper_bound; lia). apply upd_pool_set. unfold PT_POOL_FRAMES. lia. }
  m_run (exact H3). destruct (IH (Z.succ i) (c + 1) p3) as (a & q & b & Hr & Ha & Hq & Hb & _); [lia..| |intros _; cbn; lia|].
  { intros j Hj. unfold busy, p3, p1. cbn. rewrite bit_on. fold (busy p j). rewrite Hfree by lia. apply Z.eqb_neq. lia. }
  assert (Hkk : k = 1 + Z.min (Z.of_nat m) (n - (c + 1))) by lia. set (k1 := Z.min (Z.of_nat m) (n - (c + 1))) in *.
  exists a, q, b. split; [rewrite Hr; f_equal; f_equal; lia|]. split; [|split; [|split; [intros _; rewrite Hb by lia; lia|intros Hneg; exfalso; lia]]].
  - intros j. rewrite Ha. unfold busy at 1, p3, p1. cbn. rewrite bit_on, (in_run_cons i) by lia. replace (Z.pred k) with k1 by lia. unfold busy. by rewrite orb_assoc.
  - intros j. rewrite Hq. unfold pooled at 1, p3. cbn. rewrite bit_on, (in_run_cons c) by lia. replace (Z.pred k) with k1 by lia. replace (Z.succ c) with (c + 1) by lia. unfold pooled. by rewrite orb_assoc.
Qed.

Lemma init_pt_pool_run n p : pmm_ok p → 0 ≤ n ≤ PT_POOL_FRAMES → pt_pool_frames p = 0 → pool_contiguous p n →
  ∃ k p' i0, init_pt_pool n p = (Ok k, p') ∧ pmm_ok p' ∧ 0 ≤ k ≤ n ∧
    ∀ i, status p' i = (if in_run i0 k i then PoolFree else status p i) ∧ (in_run i0 k i = true → status p i = Free).
Proof.
  intros Hok Hn Hp0 (i0 & Hi0 & Hbusy & Hfree). pose proof Hok as [Hh Ht Ho Hp Hpd [Hz Hsp]].
  set (m := Z.max (total_frames p - next_free_bit p) 0). set (sk := Z.min (i0 - next_free_bit p) m). set (j0 := next_free_bit p + sk).
  set (k := Z.min (m - sk) n).
  assert (Hseq : seqZ (next_free_bit p) (total_frames p - next_free_bit p) = seqZ (next_free_bit p) m) by (unfold seqZ; f_equal; f_equal; lia).
  assert (Hc : ∃ a q b, carve (seqZ (next_free_bit p) m) n 0 p = (Ok k, with_pt_pool q b 0 (with_bitmap a p)) ∧
    (∀ j, bit a j = busy p j || in_run j0 k j) ∧ (∀ j, 0 ≤ j < k → bit q j = true) ∧ (0 < k → b = j0) ∧ (k ≤ 0 → b = pt_pool_base p)).
  { assert (Hmax : next_free_bit p + m ≤ MAX_FRAMES) by lia.
    destruct (carve_take n (Z.to_nat (m - sk)) j0 0 p) as (a & q & b & Hr & Ha & Hq & Hb & Hb0); [lia..| |lia|].
    - intros j Hj. apply Hfree; lia.
    - replace (Z.min (Z.of_nat (Z.to_nat (m - sk))) (n - 0)) with k in Hr, Ha, Hq, Hb, Hb0 by lia. rewrite Z2Nat.id in Hr by lia. exists a, q, b. rewrite Hp0 in Hr. split.
      + destruct (decide (n = 0)) as [->|Hn0].
        * assert (Hnil : ∀ l, carve l 0 0 p = (Ok 0, p)) by (by intros []). rewrite Hnil in Hr |- *. exact Hr.
        * rewrite (carve_skip n p (Z.to_nat sk)); [|lia..|intros i Hi; apply Hbusy; lia]. rewrite Z2Nat.id by lia. exact Hr.
      + split; [done|]. split; [|split; [intros Hk; rewrite Hb by lia; lia|intros Hk; apply Hb0; lia]]. intros j Hj. rewrite Hq, (proj2 (in_run_spec _ _ _)) by lia. apply orb_true_r. }
  destruct Hc as (a & q & b & Hc & Ha & Hq & Hb & Hb0). unfold init_pt_pool. set (p1 := with_pt_pool q b k (with_bitmap a p)).
  assert (Hfr : ∀ i, in_run j0 k i = true → busy p i = false) by (intros i; rewrite in_run_spec; intros Hi; apply Hfree; lia).
  assert (Hreg : ∃ sp c, (if 0 <? k then register_span (pt_pool_base p1) (pt_pool_base p1 + k - 1) else mret tt) p1 = (Ok tt, with_spans sp c p1) ∧ zlen sp = MAX_RESERVED_SPANS ∧ spans_ok sp c).
  { destruct (Z.ltb_spec 0 k) as [Hk|Hk]; [|exists (reserved_spans p), (reserved_count p); by destruct p]. cbn [pt_pool_base p1 with_pt_pool]. rewrite Hb by done.
    destruct (span_insert_run (reserved_spans p) (reserved_count p) j0 (j0 + k - 1) Hsp) as (ok & sp & c & Hi & Hz' & Hok' & _); [lia..|].
    exists sp, c. split; [|split; [congruence|done]]. unfold register_span. m_run reflexivity. m_run (unfold m_lift; cbn [reserved_spans reserved_count p1 with_pt_pool with_bitmap]; rewrite Hi; reflexivity). reflexivity. }
  destruct Hreg as (sp & c & Hreg & Hzs & Hsok). exists k, (with_spans sp c p1), j0. split; [|split; [|split; [lia|]]].
  - m_run reflexivity. m_run (rewrite Hseq; exact Hc). m_run reflexivity. m_run reflexivity. m_run (exact Hreg). reflexivity.
  - split; cbn; try done; unfold owned, busy; cbn.
    + intros i Hi. rewrite Ha. destruct (Ho i Hi) as [? ->]. done.
    + split; [lia|]. destruct (decide (0 < k)) as [Hk|Hk]; [rewrite Hb by done; lia|]. rewrite Hb0 by lia. lia.
    + intros i Hi. rewrite Hb by lia. rewrite Ha, (proj2 (in_run_spec j0 k (j0 + i))) by lia. split; [apply orb_true_r|]. apply not_true_iff_false. intros Hown. destruct (Ho _ Hown) as [_ Hbz].
      rewrite Hfr in Hbz; [done|]. apply in_run_spec. lia.
  - intros i. split; [|intros Hi; by apply status_free, Hfr]. unfold status, pt_pool_off, pooled, owned, busy. cbn. rewrite Hp0, Ha. cbn [Z.eqb].
    destruct (in_run j0 k i) eqn:E.
    + apply in_run_spec in E. rewrite Hb by lia. rewrite (proj2 (Z.eqb_neq _ _)), (proj2 (Z.ltb_ge _ _)), (proj2 (Z.ltb_lt _ _)) by lia. by rewrite Hq by lia.
    + rewrite orb_false_r. apply not_true_iff_false in E. rewrite in_run_spec in E. destruct (Z.eqb_spec k 0); [done|]. rewrite Hb by lia. destruct (Z.ltb_spec i j0); [done|]. by rewrite (proj2 (Z.ltb_ge _ _)) by lia.
Qed.

Lemma reserve_keeps base len p p' : reserve_range base len p = (Ok tt, p') →
  next_free_bit p' = next_free_bit p ∧ pt_pool_frames p' = pt_pool_frames p ∧ total_frames p' = total_frames p.
Proof.
  unfold reserve_range. destruct (len =? 0); [intros Hq; by injection Hq as <-|]. destruct (frame_span base len MAX_FRAMES) as [[s e]|]; [|intros Hq; by injection Hq as <-].
  assert (Hfe : ∀ l q q', for_each set_bit l q = (Ok tt, q') → next_free_bit q' = next_free_bit q ∧ pt_pool_frames q' = pt_pool_frames q ∧ total_frames q' = total_frames q).
  { induction l as [|i l IH]; intros q q'; cbn [for_each]; [intros Hq; by injection Hq as <-|]. unfold mbind, M_bind. destruct (set_bit i q) as [[[]| | |] q1] eqn:E; try done. intros Hr. destruct (IH _ _ Hr) as (-> & -> & ->).
    unfold set_bit, upd_bitmap, mbind, M_bind, m_get, m_lift, m_modify in E. destruct (arr_set_bit _ _ _); try done. by injection E as <-. }
  unfold mbind at 1, M_bind at 1. destruct (for_each set_bit _ p) as [[[]| | |] q] eqn:E; try done. apply Hfe in E as (<- & <- & <-).
  unfold register_span, mbind, M_bind, m_get, m_lift, m_modify. destruct (span_insert _ _ _ _) as [[[? ?] ?]| | |]; try done. by intros [= <-].
Qed.

(** * Initialisation *)

(** Frames the memory map calls usable. *)
Definition usable (ranges : list (Z * Z)) (i : Z) : bool :=
  existsb (λ '(base, len), negb (len =? 0) && (base / 4096 <=? i) && (i <=? (base + len - 1) / 4096)) ranges && (i <? MAX_FRAMES).

Definition range_ok (r : Z * Z) : Prop := 0 ≤ r.1 ∧ 0 ≤ r.2 ∧ r.1 + r.2 ≤ 2 ^ 52.

Lemma clear_frames_run n : ∀ s u p, 0 ≤ s →
  ∃ a u', clear_frames (seqZ s (Z.of_nat n)) u p = (Ok u', with_bitmap a p) ∧
    ∀ j, bit a j = busy p j && negb (in_run s (Z.of_nat n) j && (j <? MAX_FRAMES)).
Proof.
  induction n as [|n IH]; intros s u p Hs.
  { exists (bitmap p), u. split; [by destruct p|]. intros j. by rewrite in_run_nil, andb_true_r by lia. }
  rewrite seqZ_cons by lia. cbn [clear_frames]. replace (Z.pred (Z.of_nat (S n))) with (Z.of_nat n) by lia. destruct (Z.ltb_spec s MAX_FRAMES) as [Hlt|Hge].
  - m_run (apply clear_bit_run; lia). destruct (IH (Z.succ s) (u + 1) (with_bitmap (off s (bitmap p)) p)) as (a & u' & Hr & Ha); [lia|]. exists a, u'. split; [exact Hr|].
    intros j. rewrite Ha. unfold busy at 1. cbn. rewrite bit_off, (in_run_cons s) by lia. replace (Z.pred (Z.of_nat (S n))) with (Z.of_nat n) by lia. unfold busy.
    destruct (Z.eqb_spec j s) as [->|]; cbn [orb negb]; [|by rewrite andb_true_r]. rewrite (proj2 (Z.ltb_lt _ _)) by lia. by destruct (bit (bitmap p) s).
  - destruct (IH (Z.succ s) u p) as (a & u' & Hr & Ha); [lia|]. exists a, u'. split; [exact Hr|]. intros j. rewrite Ha, (in_run_cons s) by lia. replace (Z.pred (Z.of_nat (S n))) with (Z.of_nat n) by lia.
    destruct (Z.eqb_spec j s) as [->|]; cbn [orb]; [|done]. by rewrite (proj2 (Z.ltb_ge _ _)), !andb_false_r by lia.
Qed.

Lemma containing_div a : 0 ≤ a < 2 ^ 52 → ∃ f, containing_address a = Ok f ∧ f / FRAME_SIZE = a / 4096.
Proof.
  intros Ha. eexists. split; [by apply containing_ok|]. unfold FRAME_SIZE. replace (a - a mod 4096) with (a / 4096 * 4096) by (pose proof (Z.div_mod a 4096); lia). by apply Z.div_mul.
Qed.

Lemma clear_ranges_run ranges : ∀ last u p, Forall range_ok ranges → 0 ≤ last ≤ 2 ^ 52 →
  ∃ a last' u', clear_ranges ranges last u p = (Ok (last', u'), with_bitmap a p) ∧ 0 ≤ last' ≤ 2 ^ 52 ∧ ∀ j, bit a j = busy p j && negb (usable ranges j).
Proof.
  induction ranges as [|[base len] ranges IH]; intros last u p Hr Hl.
  { exists (bitmap p), last, u. split; [by destruct p|]. split; [done|]. intros j. cbn. by rewrite andb_true_r. }
  apply Forall_cons in Hr as [(Hb & Hn & Hbn) Hr]. cbn in Hb, Hn, Hbn. cbn [clear_ranges]. destruct (Z.eqb_spec len 0) as [->|Hne].
  { destruct (IH last u p Hr Hl) as (a & last' & u' & Hrun & Hl' & Ha). exists a, last', u'. split; [exact Hrun|]. split; [done|]. intros j. rewrite Ha. unfold usable. cbn [existsb]. done. }
  unfold u64_sat_add, u64_sat_sub, U64_MAX. rewrite Z.min_l, Z.max_l by lia.
  destruct (containing_div base ltac:(lia)) as (f1 & Hf1 & Hd1). destruct (containing_div (base + len - 1) ltac:(lia)) as (f2 & Hf2 & Hd2).
  m_run (unfold m_lift; rewrite Hf1; reflexivity). m_run (unfold m_lift; rewrite Hf2; reflexivity). rewrite Hd1, Hd2.
  pose proof (Z.div_pos base 4096 ltac:(lia) ltac:(lia)) as Hs. pose proof (Z.div_le_mono base (base + len - 1) 4096 ltac:(lia) ltac:(lia)) as Hse.
  set (s := base / 4096) in *. set (e := (base + len - 1) / 4096) in *.
  destruct (clear_frames_run (Z.to_nat (e + 1 - s)) s u p Hs) as (a1 & u1 & Hc1 & Ha1). rewrite Z2Nat.id in Hc1, Ha1 by lia. m_run (exact Hc1).
  destruct (IH (if last <? base + len then base + len else last) u1 (with_bitmap a1 p) Hr) as (a & last' & u' & Hrun & Hl' & Ha); [destruct (last <? base + len); lia|].
  exists a, last', u'. split; [exact Hrun|]. split; [done|]. intros j. rewrite Ha. unfold busy at 1. cbn [bitmap with_bitmap]. rewrite Ha1. unfold usable. cbn [existsb]. fold s e.
  rewrite (proj2 (Z.eqb_neq len 0) Hne). cbn [negb andb]. assert (Hin : in_run s (e + 1 - s) j = (s <=? j) && (j <=? e)) by (apply eq_true_iff_eq; rewrite in_run_spec, andb_true_iff, !Z.leb_le; lia).
  rewrite Hin. destruct (busy p j), ((s <=? j) && (j <=? e)), (existsb _ ranges), (j <? MAX_FRAMES); done.
Qed.

Definition kernel_span (k : KernelImage) (i : Z) : bool :=
  negb (kphys k =? 0) && negb (kvirt k =? 0) && span_of (kphys k) (u64_sat_sub (virt_end k) (kvirt k)) i.

Lemma span_of_0 base i : span_of base 0 i = false.
Proof. reflexivity. Qed.

Lemma ram_mb_ok x p : pmm_ok p → pmm_ok (with_ram_mb x p).
Proof. intros [H1 H2 H3 H4 H5 H6]. by split. Qed.

Lemma init_run k ranges p : Forall range_ok ranges → 0 ≤ kphys k → zlen (reserved_spans p) = MAX_RESERVED_SPANS → spans_ok (reserved_spans p) (reserved_count p) →
  ∃ p', init_from_usable_ranges k ranges p = (Ok tt, p') ∧ pmm_ok p' ∧ next_free_bit p' = LOWMEM_RESERVE_FRAMES ∧ pt_pool_frames p' = 0 ∧
    ∀ i, status p' i = if usable ranges i && negb (kernel_span k i) && negb (span_of BOOT_RAMLOG_PHYS BOOT_RAMLOG_CAP i) then Free else Kept.
Proof.
  intros Hr Hk Hz Hs. unfold init_from_usable_ranges. do 4 (m_run reflexivity). set (p1 := with_warned _ _).
  destruct (clear_ranges_run ranges 0 0 p1 Hr) as (a & last & u & Hc & Hl & Ha); [lia|]. m_run (exact Hc). do 3 (m_run reflexivity). set (p2 := with_next_free_bit _ _).
  assert (Hu : ∀ i, busy p2 i = negb (usable ranges i)).
  { intros i. unfold busy, p2. cbn. rewrite Ha. unfold busy, p1. cbn. rewrite bit_filled. change 255 with U8_MAX. by rewrite u8_max_testbit by (apply Z.mod_pos_bound; lia). }
  assert (Ho : ∀ i, owned p2 i = false) by (intros i; unfold owned, p2, p1; cbn; rewrite bit_filled; apply Z.testbit_0_l).
  assert (Hok2 : pmm_ok p2).
  { split; cbn; try done.
    - assert (HM : 0 < MAX_FRAMES) by done. destruct (Z.eqb_spec (Z.min (last / FRAME_SIZE) MAX_FRAMES) 0); [lia|]. unfold FRAME_SIZE in *. pose proof (Z.div_pos last 4096 ltac:(lia) ltac:(lia)). lia.
    - intros i Hi. by rewrite Ho in Hi.
    - intros i Hi. exfalso. lia. }
  assert (Hst2 : ∀ i, status p2 i = if usable ranges i then Free else Kept).
  { intros i. unfold status, pt_pool_off. cbn [pt_pool_frames p2 with_next_free_bit with_allocated_count with_counts with_bitmap p1 with_warned with_pt_pool Z.eqb]. rewrite Ho, Hu. by destruct (usable ranges i). }
  assert (H3 : ∃ p3, reserve_kernel_image_init k p2 = (Ok tt, p3) ∧ pmm_ok p3 ∧ (∀ i, status p3 i = if kernel_span k i && bool_decide (status p2 i = Free) then Kept else status p2 i) ∧
    next_free_bit p3 = next_free_bit p2 ∧ pt_pool_frames p3 = 0).
  { unfold reserve_kernel_image_init, kernel_span. destruct ((kphys k =? 0) || (kvirt k =? 0)) eqn:E.
    { exists p2. split; [done|]. split; [done|]. split; [|done]. intros i. apply orb_true_iff in E as [-> | ->]; cbn [negb andb]; by rewrite ?andb_false_r. }
    apply orb_false_iff in E as [-> ->]. cbn [negb andb]. destruct (Z.eqb_spec (u64_sat_sub (virt_end k) (kvirt k)) 0) as [->|Hne]; [exists p2; done|].
    destruct (reserve_range_run (kphys k) (u64_sat_sub (virt_end k) (kvirt k)) p2 Hok2 Hk) as (p3 & Hr3 & Hok3 & Hst3); [unfold u64_sat_sub; lia|].
    exists p3. split; [exact Hr3|]. split; [done|]. split; [done|]. by apply reserve_keeps in Hr3 as (-> & -> & _). }
  destruct H3 as (p3 & H3 & Hok3 & Hst3 & Hh3 & Hp3). m_run (exact H3).
  destruct (reserve_range_run BOOT_RAMLOG_PHYS BOOT_RAMLOG_CAP p3 Hok3) as (p4 & H4 & Hok4 & Hst4); [done..|]. pose proof (reserve_keeps _ _ _ _ H4) as (Hh4 & Hp4 & _). m_run (exact H4).
  assert (Hend : ∃ p5, (if 0 <? last / (1024 * 1024) then m_modify (with_ram_mb (last / (1024 * 1024))) else mret tt) p4 = (Ok tt, p5) ∧ (p5 = p4 ∨ p5 = with_ram_mb (last / (1024 * 1024)) p4)).
  { destruct (0 <? _); eexists; (split; [reflexivity|]); [by right|by left]. }
  destruct Hend as (p5 & H5 & Hp5). exists p5. split; [exact H5|].
  assert (Hst5 : ∀ i, status p5 i = status p4 i) by (intros i; destruct Hp5 as [-> | ->]; reflexivity). split; [destruct Hp5 as [-> | ->]; [exact Hok4|by apply ram_mb_ok]|].
  assert (Hsame : next_free_bit p5 = next_free_bit p4 ∧ pt_pool_frames p5 = pt_pool_frames p4) by (destruct Hp5 as [-> | ->]; split; reflexivity).
  split; [rewrite (proj1 Hsame), Hh4, Hh3; reflexivity|]. split; [rewrite (proj2 Hsame), Hp4; exact Hp3|].
  intros i. rewrite Hst5, Hst4, Hst3, Hst2. destruct (usable ranges i), (kernel_span k i), (span_of BOOT_RAMLOG_PHYS BOOT_RAMLOG_CAP i); done.
Qed.
End Alloc.
