(* ===== verification/FrameAllocRun.v ===== *)
(** Sequences of calls to the physical frame allocator against an abstract owner of
    frames, from the initialisation on; and three ways it goes wrong. *)

From S2P Require Import Prelude FrameAlloc FrameAllocThm FrameAllocSpec.
Import Pmm.

Implicit Types p : BitmapFrameAllocator.

(** * Calls *)

Inductive Cmd :=
  | CAlloc | CContiguous (n : Z) | CBelow1mb | CHuge2mb (n : Z) | CHuge1gb | CDealloc (f : Z)
  | CReserve (base len : Z) | CInitPool (n : Z) | CAllocPt | CDeallocPt (f : Z).

Inductive Reply := RFrame (f : option Z) | RDone | RCarved (n : Z).


(** * The abstract owner of frames *)


(** [n] free frames from [x] on become held; nothing else changes. *)
Definition hand_out (st st' : Z → Status) (x n : Z) : Prop :=
  0 < n ∧ 2 ≤ x ∧ x + n ≤ MAX_FRAMES ∧ ∀ i, st' i = (if in_run x n i then Held else st i) ∧ (in_run x n i = true → st i = Free).




Section Run.
Context `{PhysFrameLaws}.

Definition exec (c : Cmd) : Op Reply :=
  match c with
  | CAlloc => f ← allocate_frame; mret (RFrame f)
  | CContiguous n => f ← allocate_contiguous n; mret (RFrame f)
  | CBelow1mb => f ← allocate_below_1mb; mret (RFrame f)
  | CHuge2mb n => f ← allocate_huge_2mb n; mret (RFrame f)
  | CHuge1gb => f ← allocate_huge_1gb; mret (RFrame f)
  | CDealloc f => deallocate_frame f;; mret RDone
  | CReserve base len => reserve_range base len;; mret RDone
  | CInitPool n => k ← init_pt_pool n; mret (RCarved k)
  | CAllocPt => f ← alloc_pt_frame; mret (RFrame f)
  | CDeallocPt f => dealloc_pt_frame f;; mret RDone
  end.

Fixpoint exec_all (cs : list Cmd) : Op (list Reply) :=
  match cs with [] => mret [] | c :: cs => r ← exec c; rs ← exec_all cs; mret (r :: rs) end.


Lemma taken_hand_out p x n h p' : pmm_ok p → taken p x n h p' → 0 < n → 2 ≤ x → x + n ≤ total_frames p → window p x n → 2 ≤ h ≤ MAX_FRAMES →
  pmm_ok p' ∧ hand_out (status p) (status p') x n.
Proof.
  intros Hok Ht Hn Hx Hxn Hw Hh. split; [by eapply taken_ok|]. pose proof (ok_total _ Hok). split; [done|]. split; [done|]. split; [lia|]. intros i. by eapply status_taken.
Qed.

Lemma window_1 p x : busy p x = false → window p x 1.
Proof. intros Hb k Hk. by replace k with x by lia. Qed.








End Run.

(** * Frames have one owner *)


Definition in_use (s : Status) : Prop := s = Held ∨ s = PoolHeld.
Definition to_give (s : Status) : Prop := s = Free ∨ s = PoolFree.


Lemma hand_out_block st st' x n i : hand_out st st' x n → in_run x n i = true → to_give (st i) ∧ in_use (st' i).
Proof. intros (_ & _ & _ & Hi) Hr. destruct (Hi i) as [-> Hf]. rewrite Hr, Hf by done. split; by left. Qed.







(** * The audio pool *)

(** Frames only change from available to in use. *)
Definition only_given p p' : Prop := ∀ i, status p' i = status p i ∨ to_give (status p i) ∧ in_use (status p' i).

Lemma only_given_trans p p1 p2 : only_given p p1 → only_given p1 p2 → only_given p p2.
Proof.
  intros H1 H2 i. destruct (H1 i) as [E1|[F1 U1]], (H2 i) as [E2|[F2 U2]].
  - left. congruence.
  - right. by rewrite <-E1.
  - right. by rewrite E2.
  - unfold to_give, in_use in *. destruct U1, F2; congruence.
Qed.

Section Boot.
Context `{PhysFrameLaws}.

Lemma alloc_pt_given p : pmm_ok p → ∃ o p', alloc_pt_frame p = (Ok (addr <$> o), p') ∧ pmm_ok p' ∧ only_given p p' ∧ HDA_DMA_BASE p' = HDA_DMA_BASE p ∧
  match o with Some x => 0 ≤ x < MAX_FRAMES ∧ to_give (status p x) ∧ in_use (status p' x) | None => True end.
Proof.
  intros Hok. destruct (alloc_pt_frame_run p Hok) as [(k & p' & Hk & Hpk & Hr & Hok' & Hst & Hda & Hst')|[_ He]].
  - exists (Some (pt_pool_base p + k)), p'. split; [done|]. split; [done|]. destruct (ok_pool _ Hok) as (_ & Hb & Hbf). split; [|split].
    + intros i. rewrite Hst'. destruct (Z.eqb_spec i (pt_pool_base p + k)) as [->|]; [right; rewrite Hst; split; by right|by left].
    + done.
    + split; [lia|]. rewrite Hst', Z.eqb_refl, Hst. split; by right.
  - destruct (allocate_frame_run p Hok) as (o & p' & Hr & Hs). exists o, p'. split; [by rewrite He|]. destruct o as [x|]; [|destruct Hs as [-> _]; split; [done|]; split; [by left|done]].
    destruct Hs as (Hx & Hb & _ & Ht). pose proof (ok_hint _ Hok). pose proof (ok_total _ Hok).
    destruct (taken_hand_out p x 1 (x + 1) p' Hok Ht) as [Hok' Hho]; [lia..|by apply window_1|lia|]. split; [done|]. split; [|split; [by destruct Ht as (a & d & w & -> & _)|]].
    + intros i. destruct (in_run x 1 i) eqn:E; [right; by eapply hand_out_block|left]. destruct Hho as (_ & _ & _ & Hi). destruct (Hi i) as [-> _]. by rewrite E.
    + split; [lia|]. eapply hand_out_block; [exact Hho|]. apply in_run_spec. lia.
Qed.

Lemma stays_in_use p p' x : only_given p p' → in_use (status p x) → in_use (status p' x).
Proof. intros Hg Hu. destruct (Hg x) as [->|[_ Hu']]; done. Qed.

Definition newly_given p p' (x : Z) : Prop := 0 ≤ x < MAX_FRAMES ∧ to_give (status p x) ∧ in_use (status p' x).

Lemma only_given_refl p : only_given p p.
Proof. intros i. by left. Qed.

Lemma take_frames_run n : ∀ acc p, pmm_ok p →
  ∃ ok fs p', take_frames n acc p = (Ok (ok, acc ++ (addr <$> fs)), p') ∧ pmm_ok p' ∧ only_given p p' ∧ HDA_DMA_BASE p' = HDA_DMA_BASE p ∧ (ok = true → length fs = n) ∧ Forall (newly_given p p') fs.
Proof.
  induction n as [|n IH]; intros acc p Hok; cbn [take_frames].
  { exists true, [], p. rewrite app_nil_r. split; [done|]. split; [done|]. split; [apply only_given_refl|]. by split. }
  destruct (alloc_pt_given p Hok) as (o & p1 & Hr & Hok1 & Hg1 & Hd1 & Ho). m_run (exact Hr). destruct o as [x|]; cbn [fmap option_fmap option_map].
  2: { exists false, [], p1. rewrite app_nil_r. split; [done|]. split; [done|]. split; [done|]. by split. }
  destruct (IH (acc ++ [addr x]) p1 Hok1) as (ok & fs & p2 & Hrun & Hok2 & Hg2 & Hd2 & Hlen & Hall). exists ok, (x :: fs), p2. split; [rewrite Hrun, <-app_assoc; done|].
  split; [done|]. split; [by eapply only_given_trans|]. split; [congruence|]. split; [intros E; cbn; by rewrite Hlen|]. destruct Ho as (Hx & Hf & Hu). apply Forall_cons. split.
  - split; [done|]. split; [done|]. by eapply stays_in_use.
  - eapply Forall_impl; [exact Hall|]. intros y (Hy & Hfy & Huy). split; [done|]. split; [|done]. destruct (Hg1 y) as [<-|[Hy1 _]]; done.
Qed.

Lemma consecutive_run fs : ∀ x, Forall (λ y, 0 ≤ y < MAX_FRAMES) (x :: fs) → consecutive (addr <$> x :: fs) = true → ∀ i y, (x :: fs) !! i = Some y → y = x + Z.of_nat i.
Proof.
  induction fs as [|z fs IH]; intros x Hf Hc i y Hy; [destruct i; [injection Hy as <-; lia|done]|]. apply Forall_cons in Hf as [Hx Hf]. cbn [fmap list_fmap consecutive] in Hc. apply andb_true_iff in Hc as [Hz Hc].
  assert (z = x + 1) as ->. { apply Z.eqb_eq in Hz. assert (HM : MAX_FRAMES = 2 ^ 24) by done. unfold addr, FRAME_SIZE in Hz. rewrite u64_add_small in Hz by lia. lia. }
  destruct i as [|i]; [injection Hy as <-; lia|]. cbn in Hy. rewrite (IH (x + 1) Hf Hc i y Hy). lia.
Qed.

(** The audio pool is sixteen consecutive frames that nobody had. *)
Lemma hda_attempts_run n : ∀ p, pmm_ok p → HDA_DMA_BASE p = 0 →
  ∃ p', hda_attempts n p = (Ok tt, p') ∧ pmm_ok p' ∧ only_given p p' ∧
    (HDA_DMA_BASE p' = 0 ∨ ∃ x, HDA_DMA_BASE p' = addr x ∧ ∀ i, x ≤ i < x + 16 → newly_given p p' i).
Proof.
  induction n as [|n IH]; intros p Hok Hz; cbn [hda_attempts]; [exists p; split; [done|]; split; [done|]; split; [apply only_given_refl|by left]|].
  destruct (take_frames_run 16 [] p Hok) as (ok & fs & p1 & Hr & Hok1 & Hg1 & Hd1 & Hlen & Hall). m_run (exact Hr). rewrite app_nil_l. destruct (ok && consecutive (addr <$> fs)) eqn:E.
  - apply andb_true_iff in E as [-> Hc]. specialize (Hlen eq_refl). destruct fs as [|x fs]; [done|]. eexists. split; [reflexivity|].
    split; [by destruct Hok1; split|]. split; [exact Hg1|]. right. exists x. split; [done|]. intros i Hi.
    destruct (lookup_lt_is_Some_2 (x :: fs) (Z.to_nat (i - x))) as [y Hy]; [lia|]. rewrite Forall_lookup in Hall. pose proof (Hall _ _ Hy) as Hn.
    assert (Hb : Forall (λ y, 0 ≤ y < MAX_FRAMES) (x :: fs)) by (apply Forall_lookup; intros j z Hj; apply (Hall _ _ Hj)).
    rewrite (consecutive_run fs x Hb Hc _ _ Hy) in Hn. replace (x + Z.of_nat (Z.to_nat (i - x))) with i in Hn by lia. exact Hn.
  - destruct (IH p1 Hok1) as (p2 & Hr2 & Hok2 & Hg2 & Hh); [congruence|]. exists p2. split; [exact Hr2|]. split; [done|]. split; [by eapply only_given_trans|].
    destruct Hh as [Hh|(x & Hx & Hall')]; [by left|right]. exists x. split; [done|]. intros i Hi. destruct (Hall' i Hi) as (H1 & H2 & H3). split; [done|]. split; [|done]. destruct (Hg1 i) as [<-|[Hf _]]; done.
Qed.

Lemma empty_spans : spans_ok (reserved_spans Pmm.empty) (reserved_count Pmm.empty).
Proof. split; [done|]. cbn. intros i s e Hi. exfalso. lia. Qed.

(** * First fit *)

(** The search the code means: the first run of [n] free frames from the hint on. *)
Definition first_fit p (n : Z) : option Z :=
  find (λ x, forallb (λ j, negb (busy p j)) (seqZ x n)) (seqZ (next_free_bit p) (total_frames p - n + 1 - next_free_bit p)).

Lemma window_forallb p x n : forallb (λ j, negb (busy p j)) (seqZ x n) = true ↔ window p x n.
Proof.
  rewrite forallb_forall. unfold window. split; intros Hw k Hk.
  - apply negb_true_iff, Hw, list_elem_of_In, elem_of_seqZ. lia.
  - apply negb_true_iff, Hw. apply list_elem_of_In, elem_of_seqZ in Hk. lia.
Qed.

Lemma first_fit_spec p n :
  match first_fit p n with
  | Some x => next_free_bit p ≤ x ∧ x + n ≤ total_frames p ∧ window p x n ∧ ∀ y, next_free_bit p ≤ y < x → ¬ window p y n
  | None => ∀ y, next_free_bit p ≤ y → y + n ≤ total_frames p → ¬ window p y n
  end.
Proof.
  unfold first_fit. set (m := total_frames p - n + 1 - next_free_bit p). assert (Hq : ∀ s, seqZ s m = seqZ s (Z.of_nat (Z.to_nat m))) by (intros s; unfold seqZ; by rewrite Nat2Z.id).
  rewrite Hq. pose proof (find_seqZ (λ x, forallb (λ j, negb (busy p j)) (seqZ x n)) (Z.to_nat m) (next_free_bit p)) as Hf. destruct (find _ _) as [x|].
  - destruct Hf as (Hx & Hw & Hmin). split; [lia|]. split; [lia|]. split; [by apply window_forallb|]. intros y Hy Hwy. specialize (Hmin y Hy). apply window_forallb in Hwy. congruence.
  - intros y Hy Hyn Hwy. apply window_forallb in Hwy. rewrite Hf in Hwy; [done|lia].
Qed.
End Boot.

(** * What the allocator promises *)


(** C36: A contiguous allocation is first fit. The search of the code, which jumps past
    each busy frame it meets, finds the same run as trying every start from the hint on,
    and returns nothing exactly when there is no run; it always ends. *)
Theorem contiguous_is_first_fit `{PhysFrameLaws} p n :
  pmm_ok p → 0 < n < 2 ^ 63 → (allocate_contiguous n p).1 = Ok (addr <$> first_fit p n).
Proof.
  intros Hok Hn. destruct (allocate_contiguous_run n p Hok) as (o & p' & Hr & Hs); [lia|]. rewrite Hr. cbn [fst]. f_equal. f_equal. pose proof (first_fit_spec p n) as Hf.
  destruct o as [x|], (first_fit p n) as [y|].
  - destruct Hs as (_ & H1 & H2 & H3 & H4 & _), Hf as (F1 & F2 & F3 & F4). f_equal. destruct (Z.lt_trichotomy x y) as [Hlt|[->|Hlt]]; [by destruct (F4 x)|done|by destruct (H4 y)].
  - destruct Hs as (_ & H1 & H2 & H3 & _). by destruct (Hf x).
  - destruct Hs as [_ [?|Hs]]; [lia|]. destruct Hf as (F1 & F2 & F3 & _). by destruct (Hs y).
  - done.
Qed.

(** * On a small memory map *)

(** Frames as plain addresses. *)
#[local] Instance plain_frames : PhysFrames := λ a, if a <? 2 ^ 52 then Ok (a - a mod 4096) else Panic.
#[local] Instance plain_frame_laws : PhysFrameLaws.
Proof.
  split; intros a Ha; unfold containing_address, plain_frames.
  - by rewrite (proj2 (Z.ltb_lt _ _)) by lia.
  - by rewrite (proj2 (Z.ltb_ge _ _)) by lia.
Qed.

(** Frames 1 to 158 and 256 to 263 are usable; no kernel image is registered. *)
Definition demo_map : list (Z * Z) := [(0x1000, 0x9E000); (0x100000, 0x8000)].
Definition no_image : KernelImage := mkImage 0 0 0.
Definition booted : BitmapFrameAllocator := (init_from_usable_ranges no_image demo_map Pmm.empty).2.


Lemma contiguous_is_first_fit_witness : (allocate_contiguous 3 booted).1 = Ok (addr <$> first_fit booted 3) ∧ first_fit booted 3 = Some 256.
Proof.
  assert (Hmap : Forall range_ok demo_map) by (apply Forall_cons; split; [by vm_compute|]; apply Forall_cons; split; [by vm_compute|constructor]).
  destruct (init_run no_image demo_map Pmm.empty Hmap) as (p & Hi & Hok & _); [done|reflexivity|by apply empty_spans|].
  assert (Hb : booted = p) by (unfold booted; by rewrite Hi). split; [|by vm_compute]. rewrite Hb. refine (contiguous_is_first_fit p 3 Hok _); lia.
Defined.

(** * Where it goes wrong *)

(** The pool of page tables can hand out a frame it does not have. [init_pt_pool]
    takes the next free frames wherever they are, but remembers only the first one and
    how many; when a reserved frame lies between them, [alloc_pt_frame] hands out that
    reserved frame, while a frame that was taken for the pool is never used. *)
Theorem pool_hands_out_reserved_frame :
  (exec_all [CReserve 0x101000 0x1000; CInitPool 3; CAllocPt; CAllocPt] booted).1 = Ok [RDone; RCarved 3; RFrame (Some 0x100000); RFrame (Some 0x101000)].
Proof. by vm_compute. Qed.

(** Freeing a frame below 1 MiB moves the hint there, and from then on single frames come
    from low memory, which [LOWMEM_RESERVE_FRAMES] is there to prevent. *)
Theorem lowmem_reaches_general :
  (exec_all [CAlloc; CBelow1mb; CDealloc 0x40000; CAlloc; CAlloc] booted).1 =
    Ok [RFrame (Some 0x100000); RFrame (Some 0x40000); RDone; RFrame (Some 0x40000); RFrame (Some 0x41000)].
Proof. by vm_compute. Qed.

(** A contiguous allocation moves the hint past the free frames it skipped, and single
    allocations then fail although frame 256 is free. *)
Theorem skipped_frames_are_lost :
  (exec_all [CReserve 0x101000 0x1000; CContiguous 6; CAlloc] booted).1 = Ok [RDone; RFrame (Some 0x102000); RFrame None] ∧
  busy (exec_all [CReserve 0x101000 0x1000; CContiguous 6; CAlloc] booted).2 256 = false.
Proof. split; by vm_compute. Qed.
