(* ===== verification/Vfs.v ===== *)
(** The virtual file system of [k_nano/src/vfs]: paths, the mount table with its tree of
    nodes, and the table of open files. *)

From S2P Require Import Prelude NfsFiles.
Import Files.

(** * Paths ([path.rs]) *)

Module Path.

Definition root_path : string := "/".

(** [path.split('/').filter(|s| !s.is_empty())]. *)
Definition split_path (path : string) : list string := filter (λ s, s ≠ "") (path_parts path).

Fixpoint push_parts (parts : list string) (path : string) : string :=
  match parts with [] => path | p :: parts => push_parts parts (path +:+ "/" +:+ p) end.

(** The loop pushes a separator before every part but the first. *)
Definition join_path (parts : list string) : string :=
  match parts with [] => root_path | p :: parts => push_parts parts (root_path +:+ p) end.

(** [result.pop()]. *)
Definition pop (l : list string) : list string := take (length l - 1) l.

Fixpoint canonical_loop (parts result : list string) : list string :=
  match parts with
  | [] => result
  | part :: parts =>
      if bool_decide (part = ".") then canonical_loop parts result
      else if bool_decide (part = "..") then canonical_loop parts (pop result)
      else canonical_loop parts (result ++ [part])
  end.

Definition canonicalize (path : string) : string := join_path (canonical_loop (split_path path) []).

(** [path.rsplit('/').next().unwrap_or("")]. *)
Definition filename (path : string) : string := default "" (last (path_parts (trim_end path))).

(** The part before the last separator: [path.rfind('/')] and the slice up to it. *)
Fixpoint rfind_slash (s : string) : option nat :=
  match s with
  | EmptyString => None
  | String c s' => match rfind_slash s' with Some n => Some (S n) | None => if Ascii.eqb c slash then Some 0%nat else None end
  end.

Definition parent (path : string) : string :=
  let path := trim_end path in
  let last_slash := default 0%nat (rfind_slash path) in
  if (last_slash =? 0)%nat then root_path else String.substring 0 last_slash path.

Definition nul : Ascii.ascii := Ascii.ascii_of_byte Byte.x00.

Fixpoint contains_char (c : Ascii.ascii) (s : string) : bool :=
  match s with EmptyString => false | String d s' => Ascii.eqb c d || contains_char c s' end.

Definition is_valid (path : string) : bool :=
  if bool_decide (path = "") then false else
  if contains_char nul path then false else
  String.prefix root_path path.

Fixpoint match_loop (path : string) (mounts : list string) (best : option string) : option string :=
  match mounts with
  | [] => best
  | m :: mounts =>
      let m := trim_end m in
      if bool_decide (path = m) then Some m else
      if String.prefix m path then
        match_loop path mounts
          (match best with
           | Some current => if (String.length current <? String.length m)%nat then Some m else Some current
           | None => Some m
           end)
      else match_loop path mounts best
  end.

Definition match_mount (path : string) (mounts : list string) : option string := match_loop (trim_end path) mounts None.

End Path.

(** * Mounts and nodes ([mod.rs]) *)

Module Vfs.
Import Path.

Inductive FileMode := File | Directory | Symlink | AgentMount | Virtual.

#[global] Instance FileMode_eq_dec : EqDecision FileMode.
Proof. solve_decision. Defined.

(** [children] is a [BTreeMap]: its pairs, by increasing name. *)
Inductive VfsNode := mkVfsNode (name : string) (mode : FileMode) (inode size : Z) (children : list (string * VfsNode)) (agent : option string).

Definition node_mode (n : VfsNode) : FileMode := let '(mkVfsNode _ m _ _ _ _) := n in m.
Definition node_agent (n : VfsNode) : option string := let '(mkVfsNode _ _ _ _ _ a) := n in a.
Definition node_children (n : VfsNode) : list (string * VfsNode) := let '(mkVfsNode _ _ _ _ c _) := n in c.
Definition with_children (c : list (string * VfsNode)) (n : VfsNode) : VfsNode :=
  let '(mkVfsNode name mode inode size _ agent) := n in mkVfsNode name mode inode size c agent.

Definition new_dir (name : string) : VfsNode := mkVfsNode name Directory 0 0 [] None.
Definition new_file (name : string) (size : Z) : VfsNode := mkVfsNode name File 0 size [] None.
Definition new_mount (name agent : string) : VfsNode := mkVfsNode name AgentMount 0 0 [] (Some agent).

(** [BTreeMap::get] and [insert] of a key that is not there, in key order. *)
Fixpoint child (name : string) (l : list (string * VfsNode)) : option VfsNode :=
  match l with [] => None | (k, n) :: l => if bool_decide (k = name) then Some n else child name l end.

Fixpoint add_child (name : string) (n : VfsNode) (l : list (string * VfsNode)) : list (string * VfsNode) :=
  match l with
  | [] => [(name, n)]
  | (k, n') :: l => if String.ltb name k then (name, n) :: (k, n') :: l else (k, n') :: add_child name n l
  end.

(** The node behind [get_mut(name)] replaced. *)
Fixpoint alter_child (f : VfsNode → VfsNode) (name : string) (l : list (string * VfsNode)) : list (string * VfsNode) :=
  match l with
  | [] => []
  | (k, n) :: l => if bool_decide (k = name) then (k, f n) :: l else (k, n) :: alter_child f name l
  end.

Definition leaf_node (name : string) (mode : FileMode) (agent : string) : VfsNode :=
  match mode with AgentMount => new_mount name agent | Directory => new_dir name | File => new_file name 0 | _ => new_dir name end.

Fixpoint do_insert (parts : list string) (mode : FileMode) (agent : string) (parent : VfsNode) : VfsNode :=
  match parts with
  | [] => parent
  | name :: rest =>
      let fresh := if bool_decide (rest = []) then leaf_node name mode agent else new_dir name in
      let children :=
        if bool_decide (is_Some (child name (node_children parent))) then node_children parent
        else add_child name fresh (node_children parent) in
      with_children (if bool_decide (rest = []) then children else alter_child (do_insert rest mode agent) name children) parent
  end.

Record VfsMount := mkMount { mount_point : string; agent_name : string; flags : Z }.
Record VfsRegistry := mkRegistry { mounts : list VfsMount; root : VfsNode; next_inode : Z }.

Definition new : VfsRegistry := mkRegistry [] (new_dir "/") 1.

(** [sort_by(|a, b| b.len.cmp(&a.len))], which is stable. *)
Fixpoint sort_insert (m : VfsMount) (l : list VfsMount) : list VfsMount :=
  match l with
  | [] => [m]
  | y :: l => if (String.length (mount_point y) <? String.length (mount_point m))%nat then m :: y :: l else y :: sort_insert m l
  end.
Definition sort_mounts (l : list VfsMount) : list VfsMount := fold_left (λ acc m, sort_insert m acc) l [].

Definition mount (mp agent : string) (v : VfsRegistry) : VfsRegistry :=
  let mp := trim_end mp in
  mkRegistry (sort_mounts (mounts v ++ [mkMount mp agent 0])) (do_insert (split_path mp) AgentMount agent (root v)) (next_inode v).

Definition standard_mounts : list (string * string) :=
  [("/mnt/ram", "ramfs"); ("/mnt/hdd", "ata"); ("/mnt/sdhc", "usbmsc"); ("/mnt/neural", "neuralfs"); ("/chat", "hermes");
   ("/dev", "devfs"); ("/proc", "procfs"); ("/system", "sysfs"); ("/inference", "inference"); ("/logs", "logfs")].
Definition mount_all (l : list (string * string)) (v : VfsRegistry) : VfsRegistry := fold_left (λ v '(mp, a), mount mp a v) l v.
Definition init_standard_mounts (v : option VfsRegistry) : option VfsRegistry := mount_all standard_mounts <$> v.
Definition mount_vector_fs (v : VfsRegistry) : VfsRegistry := mount "/vector" "vecfs" v.

(** [&path[m.len()..]], after [starts_with]. *)
Definition strip (m path : string) : string := String.substring (String.length m) (String.length path - String.length m) path.

Fixpoint resolve_loop (path : string) (l : list VfsMount) : VfsMount * string * option string :=
  match l with
  | [] => (mkMount "/" "root" 0, path, None)
  | m :: l =>
      if bool_decide (path = mount_point m) then (m, "", Some (agent_name m)) else
      if String.prefix (mount_point m) path then (m, trim_start (strip (mount_point m) path), Some (agent_name m))
      else resolve_loop path l
  end.

Definition resolve (v : VfsRegistry) (path : string) : VfsMount * string * option string := resolve_loop (trim_end path) (mounts v).

Fixpoint walk (parts : list string) (n : VfsNode) : option VfsNode :=
  match parts with [] => Some n | p :: parts => match child p (node_children n) with Some c => walk parts c | None => None end end.

Definition lookup (v : VfsRegistry) (path : string) : option VfsNode := walk (split_path path) (root v).
Definition list_dir (v : VfsRegistry) (path : string) : list string :=
  match walk (split_path path) (root v) with Some n => (node_children n).*1 | None => [] end.

Definition allocate_inode (v : VfsRegistry) : Z * VfsRegistry := (next_inode v, mkRegistry (mounts v) (root v) (u64_add (next_inode v) 1)).

End Vfs.

(** * Open files ([fd.rs]) *)

Module Fd.
Import Path Vfs.

Definition MAX_FD : Z := 16.

Record FdEntry := mkFd { path : string; offset : Z; data : bytes }.

(** The two statics: the descriptors and the registry. *)
Record State := mkState { slots : list (option FdEntry); registry : option VfsRegistry }.

Definition no_fds : list (option FdEntry) := replicate (Z.to_nat MAX_FD) None.

Definition set_slots (s : list (option FdEntry)) (st : State) : State := mkState s (registry st).

(** [str::trim]: the white space of Unicode, as UTF-8 sequences. *)
Definition white_space : list bytes :=
  ((λ b, [byte.of_Z b]) <$> [0x09; 0x0A; 0x0B; 0x0C; 0x0D; 0x20]) ++
  ((λ b : list Z, byte.of_Z <$> b) <$> [[0xC2; 0x85]; [0xC2; 0xA0]; [0xE1; 0x9A; 0x80]]) ++
  ((λ b, [Byte.xe2; Byte.x80; byte.of_Z b]) <$> [0x80; 0x81; 0x82; 0x83; 0x84; 0x85; 0x86; 0x87; 0x88; 0x89; 0x8A; 0xA8; 0xA9; 0xAF]) ++
  ((λ b : list Z, byte.of_Z <$> b) <$> [[0xE2; 0x81; 0x9F]; [0xE3; 0x80; 0x80]]).

(** The length of the white space at the front of [s], read forwards or backwards. *)
Definition leading (ws : list bytes) (s : bytes) : option nat :=
  match filter (λ w, take (length w) s = w) ws with [] => None | w :: _ => Some (length w) end.

Fixpoint trim_front (fuel : nat) (ws : list bytes) (s : bytes) : bytes :=
  match fuel with
  | O => s
  | S fuel => match leading ws s with Some n => trim_front fuel ws (drop n s) | None => s end
  end.

Definition trim (s : string) : string :=
  let front := trim_front (length (as_bytes s)) white_space (as_bytes s) in
  bytes_str (reverse (trim_front (length front) (reverse <$> white_space) (reverse front))).

Definition load_path_bytes (v : option VfsRegistry) (path : string) : res bytes :=
  if String.prefix "/mnt/ram" path || bool_decide (path = "/mnt/ram") then Ok [] else
  match v with
  | Some v =>
      if bool_decide (is_Some (lookup v path)) then Ok (as_bytes ("[vfs] " +:+ path +:+ String (Ascii.ascii_of_byte Byte.x0a) "")) else
      match list_dir v path with
      | [] => Err "enoent"
      | entries => Ok (concat ((λ e, as_bytes e ++ [Byte.x0a]) <$> entries))
      end
  | None => Err "enoent"
  end.

(** The first free slot. *)
Fixpoint free_slot (l : list (option FdEntry)) : option nat :=
  match l with [] => None | None :: _ => Some 0%nat | Some _ :: l => S <$> free_slot l end.

Definition open (p : string) : M State Z :=
  let p := trim p in
  if bool_decide (p = "") then m_err "empty_path" else
  st ← m_get;
  match registry st with
  | None => m_err "vfs_uninit"
  | Some _ =>
      data ← m_lift (load_path_bytes (registry st) p);
      match free_slot (slots st) with
      | None => m_err "emfile"
      | Some i => m_modify (set_slots (<[i := Some (mkFd p 0 data)]> (slots st)));; mret (Z.of_nat i)
      end
  end.

Definition entry (st : State) (fd : Z) : option FdEntry := if fd <? 0 then None else slots st !! Z.to_nat fd ≫= id.

(** The bytes copied to a buffer of [len]. *)
Definition read (fd len : Z) : M State bytes :=
  st ← m_get;
  match entry st fd with
  | None => m_err "ebadf"
  | Some ent =>
      if zlen (data ent) <=? offset ent then mret [] else
      let n := Z.min (zlen (data ent) - offset ent) len in
      m_modify (set_slots (<[Z.to_nat fd := Some (mkFd (path ent) (u64_add (offset ent) n) (data ent))]> (slots st)));;
      mret (slice (offset ent) n (data ent))
  end.

Definition close (fd : Z) : M State unit :=
  st ← m_get;
  match entry st fd with
  | None => m_err "ebadf"
  | Some _ => m_modify (set_slots (<[Z.to_nat fd := None]> (slots st)))
  end.

End Fd.
