(* ===== verification/VfsThm.v ===== *)
(** What the virtual file system guarantees: normal forms of paths, the most specific
    mount, the tree of nodes, and open files as streams. *)

From S2P Require Import Prelude NfsFiles Vfs.
From Stdlib Require Import Sorting.Sorted.
Import Files Path Vfs.

(** * Paths *)

Definition part_ok (s : string) : Prop := s ≠ "" ∧ contains_char slash s = false.

(** ["/a/b/c"] for [["a"; "b"; "c"]]. *)
Fixpoint tail_path (parts : list string) : string := match parts with [] => "" | p :: parts => String slash (p +:+ tail_path parts) end.

Lemma sapp_assoc (a b c : string) : (a +:+ b) +:+ c = a +:+ (b +:+ c).
Proof. induction a as [|x a IH]; [done|]. exact (f_equal (String x) IH). Qed.

Lemma sapp_nil_r (a : string) : a +:+ "" = a.
Proof. induction a as [|x a IH]; [done|]. exact (f_equal (String x) IH). Qed.

Lemma push_parts_tail parts : ∀ acc, push_parts parts acc = acc +:+ tail_path parts.
Proof. induction parts as [|p parts IH]; intros acc; cbn [push_parts tail_path]; [by rewrite sapp_nil_r|]. rewrite IH, !sapp_assoc. done. Qed.

Lemma join_path_tail parts : join_path parts = match parts with [] => "/" | _ => tail_path parts end.
Proof. destruct parts as [|p parts]; [done|]. cbn [join_path]. rewrite push_parts_tail, sapp_assoc. done. Qed.

Lemma split_no_slash a s : contains_char slash a = false → split_slash (a +:+ s) = let '(p, ps) := split_slash s in (a +:+ p, ps).
Proof.
  induction a as [|c a IH]; intros Ha.
  - change ("" +:+ s) with s. by destruct (split_slash s) as [p ps].
  - change (Ascii.eqb slash c || contains_char slash a = false) in Ha. apply orb_false_iff in Ha as [Hc Ha]. change (String c a +:+ s) with (String c (a +:+ s)). cbn [split_slash]. rewrite (IH Ha).
    destruct (split_slash s) as [p ps]. by rewrite Ascii.eqb_sym, Hc.
Qed.

Lemma split_tail parts : Forall part_ok parts → split_slash (tail_path parts) = ("", parts).
Proof.
  induction 1 as [|p parts [_ Hp] _ IH]; [done|]. cbn [tail_path split_slash]. rewrite split_no_slash, IH by done. rewrite Ascii.eqb_refl. by rewrite sapp_nil_r.
Qed.

Lemma filter_parts parts : Forall part_ok parts → filter (λ s, s ≠ "") parts = parts.
Proof. induction 1 as [|p parts [Hp _] _ IH]; [done|]. rewrite filter_cons_True by done. by rewrite IH. Qed.

(** Printing the parts of a path and splitting it again. *)
Lemma split_join parts : Forall part_ok parts → split_path (join_path parts) = parts.
Proof.
  intros Hp. rewrite join_path_tail. destruct parts as [|p parts]; [done|]. unfold split_path, path_parts. rewrite split_tail by done.
  rewrite filter_cons_False by (intros Hn; by apply Hn). by apply filter_parts.
Qed.

Lemma split_slash_parts s : let '(p, ps) := split_slash s in Forall (λ x, contains_char slash x = false) (p :: ps).
Proof.
  induction s as [|c s IH]; [by repeat constructor|]. cbn [split_slash]. destruct (split_slash s) as [p ps]. apply Forall_cons in IH as [Hp Hps].
  destruct (Ascii.eqb c slash) eqn:E; [by repeat constructor|]. constructor; [|done]. cbn -[slash]. by rewrite Ascii.eqb_sym, E.
Qed.

Lemma split_path_ok path : Forall part_ok (split_path path).
Proof.
  unfold split_path, path_parts. pose proof (split_slash_parts path) as Hs. destruct (split_slash path) as [p ps]. apply Forall_forall. intros x [Hne Hx]%list_elem_of_filter.
  split; [done|]. by eapply Forall_forall in Hs.
Qed.

Definition normal (s : string) : Prop := part_ok s ∧ s ≠ "." ∧ s ≠ "..".

Lemma canonical_loop_normal parts : ∀ result, Forall part_ok parts → Forall normal result → Forall normal (canonical_loop parts result).
Proof.
  induction parts as [|p parts IH]; intros result Hp Hr; [done|]. apply Forall_cons in Hp as [Hp Hps]. cbn [canonical_loop].
  case_bool_decide; [by apply IH|]. case_bool_decide; [apply IH; [done|]; by apply Forall_take|]. apply IH; [done|]. apply Forall_app. split; [done|]. by repeat constructor; [apply Hp|apply Hp|..].
Qed.

Lemma canonical_loop_id parts : ∀ result, Forall normal parts → canonical_loop parts result = result ++ parts.
Proof.
  induction parts as [|p parts IH]; intros result Hp; [by rewrite app_nil_r|]. apply Forall_cons in Hp as [(_ & H1 & H2) Hps]. cbn [canonical_loop].
  rewrite !bool_decide_eq_false_2 by done. by rewrite IH, <-app_assoc.
Qed.

Lemma canonical_parts path : Forall normal (canonical_loop (split_path path) []).
Proof. apply canonical_loop_normal; [apply split_path_ok|constructor]. Qed.

Lemma split_canonical path : split_path (canonicalize path) = canonical_loop (split_path path) [].
Proof. unfold canonicalize. apply split_join. eapply Forall_impl; [apply canonical_parts|]. by intros x [Hx _]. Qed.

(** Following a path from a directory, itself a list of names: [".."] of the root is the
    root. *)
Definition enter (dir : list string) (part : string) : list string :=
  if bool_decide (part = ".") then dir else if bool_decide (part = "..") then pop dir else dir ++ [part].

Lemma canonical_loop_enter parts : ∀ result, canonical_loop parts result = fold_left enter parts result.
Proof. induction parts as [|p parts IH]; intros result; [done|]. cbn [canonical_loop fold_left]. unfold enter at 2. by repeat case_bool_decide. Qed.

(** * Mounts *)

Definition longer (a b : VfsMount) : Prop := (String.length (mount_point b) ≤ String.length (mount_point a))%nat.

Lemma longer_trans : Transitive longer.
Proof. intros a b c. unfold longer. lia. Qed.

Lemma mount_insert_perm m l : sort_insert m l ≡ₚ m :: l.
Proof. induction l as [|y l IH]; [done|]. cbn [sort_insert]. destruct (_ <? _)%nat; [done|]. rewrite IH. apply Permutation_swap. Qed.

Lemma mount_insert_sorted m l : StronglySorted longer l → StronglySorted longer (sort_insert m l).
Proof.
  induction 1 as [|y l Hs IH Hy]; [by repeat constructor|]. cbn [sort_insert]. destruct (Nat.ltb_spec (String.length (mount_point y)) (String.length (mount_point m))) as [Hlt|Hge].
  - constructor; [by constructor|]. constructor; [unfold longer; lia|]. eapply Forall_impl; [exact Hy|]. intros z. unfold longer. lia.
  - constructor; [done|]. apply Forall_forall. intros z. rewrite mount_insert_perm, elem_of_cons. intros [->|Hz]; [unfold longer; lia|]. by eapply Forall_forall in Hy.
Qed.

Lemma sort_mounts_ok l : ∀ acc, StronglySorted longer acc → StronglySorted longer (fold_left (λ acc m, sort_insert m acc) l acc) ∧ fold_left (λ acc m, sort_insert m acc) l acc ≡ₚ acc ++ l.
Proof.
  induction l as [|m l IH]; intros acc Ha; [by rewrite app_nil_r|]. cbn [fold_left]. destruct (IH (sort_insert m acc)) as [H1 H2]; [by apply mount_insert_sorted|]. split; [done|].
  rewrite H2, mount_insert_perm. cbn. apply Permutation_middle.
Qed.

Definition mount_of (x : string * string) : VfsMount := mkMount (trim_end x.1) x.2 0.

Lemma mount_all_ok l : ∀ v, StronglySorted longer (mounts v) → StronglySorted longer (mounts (mount_all l v)) ∧ mounts (mount_all l v) ≡ₚ mounts v ++ (mount_of <$> l).
Proof.
  induction l as [|[mp a] l IH]; intros v Hv; [by rewrite app_nil_r|]. unfold mount_all. cbn [fold_left]. destruct (sort_mounts_ok (mounts v ++ [mkMount (trim_end mp) a 0]) []) as [Hs Hp]; [constructor|].
  destruct (IH (mount mp a v) Hs) as [H1 H2]. split; [exact H1|]. etrans; [exact H2|]. cbn [mounts mount]. etrans; [apply Permutation_app_tail, Hp|]. cbn [app]. by rewrite <-app_assoc.
Qed.

Lemma prefix_refl s : String.prefix s s = true.
Proof. induction s as [|c s IH]; [done|]. cbn. destruct (Ascii.ascii_dec c c); done. Qed.

Lemma substring_0 s : ∀ n, String.substring n 0 s = "".
Proof. induction s as [|c s IH]; intros [|n]; cbn; done. Qed.

Lemma strip_refl s : strip s s = "".
Proof. unfold strip. by rewrite Nat.sub_diag, substring_0. Qed.

Lemma resolve_first path l : match resolve_loop path l with
  | (m, rest, Some a) => m ∈ l ∧ a = agent_name m ∧ String.prefix (mount_point m) path = true ∧ rest = trim_start (strip (mount_point m) path) ∧
      ∃ l1 l2, l = l1 ++ m :: l2 ∧ Forall (λ m', String.prefix (mount_point m') path = false) l1
  | (m, rest, None) => m = mkMount "/" "root" 0 ∧ rest = path ∧ Forall (λ m', String.prefix (mount_point m') path = false) l
  end.
Proof.
  induction l as [|y l IH]; [done|]. cbn [resolve_loop]. case_bool_decide as Heq.
  - split; [by left|]. split; [done|]. split; [rewrite <-Heq; by apply prefix_refl|]. split; [by rewrite <-Heq, strip_refl|]. by exists [], l.
  - destruct (String.prefix (mount_point y) path) eqn:E; [split; [by left|]; split; [done|]; split; [done|]; split; [done|]; by exists [], l|].
    destruct (resolve_loop path l) as [[m rest] [a|]].
    + destruct IH as (Hm & Ha & Hp & Hr & l1 & l2 & -> & Hl). split; [by right|]. split; [done|]. split; [done|]. split; [done|]. exists (y :: l1), l2. split; [done|]. by constructor.
    + destruct IH as (? & ? & ?). split; [done|]. split; [done|]. by constructor.
Qed.

(** * The tree *)

Lemma child_add_eq name n l : child name l = None → child name (add_child name n l) = Some n.
Proof.
  induction l as [|[k m] l IH]; intros Hc; cbn [add_child child] in *; [by rewrite bool_decide_eq_true_2|]. case_bool_decide; [done|].
  destruct (String.ltb name k); cbn [child]; [by rewrite bool_decide_eq_true_2|]. rewrite bool_decide_eq_false_2 by done. by apply IH.
Qed.

Lemma child_add_ne name n l k : k ≠ name → child k (add_child name n l) = child k l.
Proof.
  intros Hne. induction l as [|[k' m] l IH]; cbn [add_child child]; [by rewrite bool_decide_eq_false_2|].
  destruct (String.ltb name k'); cbn [child]; [by rewrite (bool_decide_eq_false_2 (name = k))|]. by rewrite IH.
Qed.

Lemma child_alter f name l k : child k (alter_child f name l) = if bool_decide (k = name) then f <$> child k l else child k l.
Proof.
  induction l as [|[k' m] l IH]; cbn [alter_child child]; [by case_bool_decide|]. destruct (decide (k' = name)) as [->|Hne].
  - rewrite (bool_decide_eq_true_2 (name = name)) by done. cbn [child]. destruct (decide (name = k)) as [->|Hne]; [by rewrite !bool_decide_eq_true_2|]. by rewrite !bool_decide_eq_false_2 by congruence.
  - rewrite (bool_decide_eq_false_2 (k' = name)) by done. cbn [child]. destruct (decide (k' = k)) as [->|Hne']; [by rewrite bool_decide_eq_true_2, bool_decide_eq_false_2|]. by rewrite (bool_decide_eq_false_2 (k' = k)).
Qed.

Definition ensure name (fresh : VfsNode) (l : list (string * VfsNode)) : list (string * VfsNode) :=
  if bool_decide (is_Some (child name l)) then l else add_child name fresh l.

Lemma child_ensure name fresh l k : child k (ensure name fresh l) = if bool_decide (k = name) then Some (default fresh (child name l)) else child k l.
Proof.
  unfold ensure. destruct (child name l) as [n|] eqn:E.
  - rewrite bool_decide_eq_true_2 by (by eexists). case_bool_decide as Hk; [by subst|done].
  - rewrite bool_decide_eq_false_2 by (by intros [? ?]). case_bool_decide as Hk; [subst; by apply child_add_eq|by apply child_add_ne].
Qed.

Lemma do_insert_cons name rest mode agent parent :
  do_insert (name :: rest) mode agent parent =
    with_children (if bool_decide (rest = []) then ensure name (leaf_node name mode agent) (node_children parent)
                   else alter_child (do_insert rest mode agent) name (ensure name (new_dir name) (node_children parent))) parent.
Proof. cbn [do_insert]. unfold ensure. by destruct (bool_decide (rest = [])). Qed.

Lemma children_with c n : node_children (with_children c n) = c.
Proof. by destruct n. Qed.

Definition alike (n n' : VfsNode) : Prop := node_mode n' = node_mode n ∧ node_agent n' = node_agent n.

(** What was in the tree is still there. *)
Lemma do_insert_keeps parts mode agent : ∀ ps t n, walk ps t = Some n → ∃ n', walk ps (do_insert parts mode agent t) = Some n' ∧ alike n n'.
Proof.
  induction parts as [|name rest IH]; intros ps t n Hw; [by exists n|]. rewrite do_insert_cons. destruct ps as [|p ps].
  { eexists. split; [done|]. injection Hw as <-. by destruct t. }
  cbn [walk] in Hw |- *. rewrite children_with. destruct (child p (node_children t)) as [c|] eqn:E; [|done]. case_bool_decide as Hr.
  - rewrite child_ensure. case_bool_decide as Hp; [subst; rewrite E; by exists n|]. rewrite E. by exists n.
  - rewrite child_alter, child_ensure. case_bool_decide as Hp; [subst; rewrite E; cbn [default fmap option_fmap option_map]; by apply IH|]. rewrite E. by exists n.
Qed.

(** What was asked for is there. *)
Lemma do_insert_there parts mode agent : parts ≠ [] → ∀ t, ∃ n, walk parts (do_insert parts mode agent t) = Some n ∧
  (walk parts t = None → ∃ name, n = leaf_node name mode agent).
Proof.
  induction parts as [|name rest IH]; intros Hne t; [done|]. rewrite do_insert_cons. cbn [walk]. rewrite children_with. case_bool_decide as Hr.
  - subst. rewrite child_ensure, bool_decide_eq_true_2 by done. cbn [walk]. eexists. split; [done|]. destruct (child name (node_children t)); [done|]. by exists name.
  - rewrite child_alter, child_ensure, !bool_decide_eq_true_2 by done. cbn [fmap option_fmap option_map]. destruct (IH Hr (default (new_dir name) (child name (node_children t)))) as (n & Hn & Hnew).
    exists n. split; [done|]. intros Hw. apply Hnew. destruct (child name (node_children t)) as [c|]; [done|]. by destruct rest.
Qed.

Lemma mount_there mp a v : is_Some (walk (split_path (trim_end mp)) (root (mount mp a v))).
Proof.
  cbn [root mount]. destruct (split_path (trim_end mp)) as [|x ps] eqn:E; [by eexists|]. destruct (do_insert_there (x :: ps) AgentMount a ltac:(done) (root v)) as (n & Hn & _). by exists n.
Qed.

Lemma mount_all_keeps l : ∀ v ps n, walk ps (root v) = Some n → ∃ n', walk ps (root (mount_all l v)) = Some n' ∧ alike n n'.
Proof.
  induction l as [|[mp a] l IH]; intros v ps n Hw; [by exists n|]. destruct (do_insert_keeps (split_path (trim_end mp)) AgentMount a ps (root v) n Hw) as (n1 & Hn1 & [A1 A2]).
  destruct (IH (mount mp a v) ps n1 Hn1) as (n2 & Hn2 & [B1 B2]). exists n2. split; [exact Hn2|]. split; congruence.
Qed.

Lemma mount_all_there l : ∀ v x, x ∈ l → is_Some (walk (split_path (trim_end x.1)) (root (mount_all l v))).
Proof.
  induction l as [|[mp a] l IH]; intros v x Hx; [by apply elem_of_nil in Hx|]. apply elem_of_cons in Hx as [->|Hx]; [|exact (IH (mount mp a v) x Hx)].
  destruct (mount_there mp a v) as [n Hn]. destruct (mount_all_keeps l _ _ _ Hn) as (n' & Hn' & _). by exists n'.
Qed.

Lemma sorted_after (m z : VfsMount) l1 l2 : StronglySorted longer (l1 ++ m :: l2) → z ∈ l2 → longer m z.
Proof.
  induction l1 as [|y l1 IH]; cbn [app]; intros Hs Hz; apply StronglySorted_inv in Hs as [Hs Hy]; [|by apply IH]. by eapply Forall_forall in Hy.
Qed.

(** * What the registry promises *)

(** A path has one normal form. [canonicalize] gives the directory reached by
    following the path from the root (where [..] of the root is the root), written with
    single separators and no [.] or [..]; splitting the result gives back exactly these
    names, and canonicalising twice changes nothing. *)
Theorem canonical_form path :
  let dir := fold_left enter (split_path path) [] in
  canonicalize path = join_path dir ∧ Forall normal dir ∧ split_path (canonicalize path) = dir ∧ canonicalize (canonicalize path) = canonicalize path.
Proof.
  intros dir. assert (Hd : dir = canonical_loop (split_path path) []) by (symmetry; apply canonical_loop_enter). rewrite Hd. split; [done|]. split; [apply canonical_parts|].
  split; [apply split_canonical|]. unfold canonicalize at 1. rewrite split_canonical. by rewrite canonical_loop_id by apply canonical_parts.
Qed.

(** C35: The most specific mount wins. Whatever was mounted, in whatever order, a path is
    resolved by a mount whose mount point is a prefix of it, none that is also a prefix
    is longer, and the rest of the path is what follows; a path that no mount point is a
    prefix of goes to the root. Every mount point is in the tree of nodes, and mounting
    removes nothing from it. *)
Theorem most_specific_mount l path :
  let v := mount_all l new in let p := trim_end path in
  (match resolve v path with
   | (m, rest, Some a) => ∃ mp, (mp, a) ∈ l ∧ m = mount_of (mp, a) ∧ String.prefix (mount_point m) p = true ∧ rest = trim_start (strip (mount_point m) p) ∧
       ∀ x, x ∈ l → String.prefix (trim_end x.1) p = true → (String.length (trim_end x.1) ≤ String.length (mount_point m))%nat
   | (m, rest, None) => m = mkMount "/" "root" 0 ∧ rest = p ∧ ∀ x, x ∈ l → String.prefix (trim_end x.1) p = false
   end) ∧
  (∀ x, x ∈ l → is_Some (walk (split_path (trim_end x.1)) (root v))) ∧
  ∀ mp a ps n, walk ps (root v) = Some n → ∃ n', walk ps (root (mount mp a v)) = Some n' ∧ alike n n'.
Proof.
  intros v p. destruct (mount_all_ok l new) as [Hs Hp]; [constructor|]. fold v in Hs, Hp. cbn [mounts new app] in Hp. split; [|split].
  - unfold resolve. fold p. pose proof (resolve_first p (mounts v)) as Hr. destruct (resolve_loop p (mounts v)) as [[m rest] [a|]].
    + destruct Hr as (Hm & -> & Hpre & Hrest & l1 & l2 & El & Hl1). rewrite Hp in Hm. apply list_elem_of_fmap in Hm as ([mp a] & -> & Hin). exists mp. split; [done|]. split; [done|]. split; [done|]. split; [done|].
      intros x Hx Hxp. assert (Hin' : mount_of x ∈ mounts v) by (rewrite Hp; by apply list_elem_of_fmap_2). rewrite El, elem_of_app, elem_of_cons in Hin'. destruct Hin' as [H1|[H2|H3]].
      * rewrite Forall_forall in Hl1. specialize (Hl1 _ H1). cbn in Hl1. congruence.
      * by rewrite <-H2.
      * rewrite El in Hs. exact (sorted_after _ _ _ _ Hs H3).
    + destruct Hr as (Hm & Hrest & Hall). split; [done|]. split; [done|]. intros x Hx. rewrite Forall_forall in Hall. apply (Hall (mount_of x)). rewrite Hp. by apply list_elem_of_fmap_2.
  - intros x Hx. by apply mount_all_there.
  - intros mp a ps n Hw. cbn [root mount]. by apply do_insert_keeps.
Qed.

(** Mount points are compared as strings, not name by name: once [/dev] is mounted, the
    unrelated [/devices/x] resolves to it, with [ices/x] as the rest. *)
Theorem resolve_splits_names :
  resolve (mount_all standard_mounts new) "/devices/x" = (mkMount "/dev" "devfs" 0, "ices/x", Some "devfs") ∧
  lookup (mount_all standard_mounts new) "/devices/x" = None.
Proof. split; by vm_compute. Qed.
