(* ===== verification/VfsFd.v ===== *)
(** Open files as streams: the table of descriptors against a map from descriptors to the
    bytes that are left to read. *)

From S2P Require Import Prelude NfsFiles Vfs VfsThm.
Import Files Path Vfs Fd.

(** * Calls *)

Inductive Call := Open (p : string) | Read (fd len : Z) | Close (fd : Z).
Inductive Answer := AFd (fd : Z) | ABytes (b : bytes) | ADone | AErr (e : string).

(** The answer of a call that returns; a panic has none. *)
Definition answer {A} (f : A → Answer) (r : res A * State) : option (Answer * State) :=
  match r with (Ok a, st) => Some (f a, st) | (Err e, st) => Some (AErr e, st) | _ => None end.

Definition run_call (c : Call) (st : State) : option (Answer * State) :=
  match c with
  | Open p => answer AFd (open p st)
  | Read fd len => answer ABytes (read fd len st)
  | Close fd => answer (λ _, ADone) (close fd st)
  end.

Fixpoint run_calls (cs : list Call) (st : State) : option (list Answer) :=
  match cs with [] => Some [] | c :: cs => '(a, st) ← run_call c st; (a ::.) <$> run_calls cs st end.

(** * Streams *)

Definition spec_call (v : option VfsRegistry) (c : Call) (m : gmap Z bytes) : Answer * gmap Z bytes :=
  match c with
  | Open p =>
      let p := trim p in
      if bool_decide (p = "") then (AErr "empty_path", m) else
      match v with
      | None => (AErr "vfs_uninit", m)
      | Some _ =>
          match load_path_bytes v p with
          | Ok data => match find (λ i, bool_decide (m !! i = None)) (seqZ 0 MAX_FD) with
                       | Some i => (AFd i, <[i := data]> m)
                       | None => (AErr "emfile", m)
                       end
          | Err e => (AErr e, m)
          | _ => (ADone, m)
          end
      end
  | Read fd len => match m !! fd with Some d => (ABytes (take (Z.to_nat len) d), <[fd := drop (Z.to_nat len) d]> m) | None => (AErr "ebadf", m) end
  | Close fd => match m !! fd with Some _ => (ADone, delete fd m) | None => (AErr "ebadf", m) end
  end.

Fixpoint spec_calls (v : option VfsRegistry) (cs : list Call) (m : gmap Z bytes) : list Answer :=
  match cs with [] => [] | c :: cs => let '(a, m) := spec_call v c m in a :: spec_calls v cs m end.

(** Paths and buffers of less than 2^63 bytes. *)
Definition call_ok (c : Call) : Prop := match c with Open p => zlen (as_bytes p) < 2 ^ 63 | Read _ len => 0 ≤ len | Close _ => True end.

(** * Contents *)

(** A path with children has a node, so the listing is never what is opened. *)
Lemma load_contents v path d : load_path_bytes v path = Ok d → d = [] ∨ d = as_bytes ("[vfs] " +:+ path +:+ String (Ascii.ascii_of_byte Byte.x0a) "").
Proof.
  unfold load_path_bytes. destruct (_ || _); [intros [= <-]; by left|]. destruct v as [v|]; [|done]. case_bool_decide as Hl; [intros [= <-]; by right|].
  unfold lookup in Hl. unfold list_dir. destruct (walk _ _); [by destruct Hl|done].
Qed.

Lemma zlen_as_bytes_app a b : zlen (as_bytes (a +:+ b)) = zlen (as_bytes a) + zlen (as_bytes b).
Proof.
  induction a as [|c a IH]; [done|]. change (as_bytes (String c a +:+ b)) with (Ascii.byte_of_ascii c :: as_bytes (a +:+ b)). change (as_bytes (String c a)) with (Ascii.byte_of_ascii c :: as_bytes a).
  rewrite !zlen_cons, IH. lia.
Qed.

Lemma trim_front_len fuel ws : ∀ s, (length (trim_front fuel ws s) ≤ length s)%nat.
Proof.
  induction fuel as [|fuel IH]; intros s; cbn [trim_front]; [done|]. destruct (leading ws s) as [n|]; [|done]. etrans; [apply IH|]. rewrite length_drop. lia.
Qed.

Lemma trim_len p : zlen (as_bytes (trim p)) ≤ zlen (as_bytes p).
Proof.
  unfold trim. set (front := trim_front _ white_space (as_bytes p)). rewrite String.list_byte_of_string_of_list_byte. unfold zlen. rewrite length_reverse.
  pose proof (trim_front_len (length front) (reverse <$> white_space) (reverse front)) as H1. rewrite length_reverse in H1.
  pose proof (trim_front_len (length (as_bytes p)) white_space (as_bytes p)) as H2. fold front in H2. lia.
Qed.

Lemma load_len v p d : load_path_bytes v (trim p) = Ok d → zlen (as_bytes p) < 2 ^ 63 → zlen d < 2 ^ 64.
Proof.
  intros [-> | ->]%load_contents Hp; [done|]. rewrite !zlen_as_bytes_app. pose proof (trim_len p). change (zlen (as_bytes "[vfs] ")) with 6.
  change (zlen (as_bytes (String (Ascii.ascii_of_byte Byte.x0a) ""))) with 1. lia.
Qed.

(** * Descriptors *)

Definition left_of (e : FdEntry) : bytes := drop (Z.to_nat (offset e)) (data e).

Definition fd_ok (e : FdEntry) : Prop := 0 ≤ offset e ≤ zlen (data e) ∧ zlen (data e) < 2 ^ 64.

Record streams (v : option VfsRegistry) (st : State) (m : gmap Z bytes) : Prop := {
  st_len : zlen (slots st) = MAX_FD;
  st_reg : registry st = v;
  st_ok fd e : entry st fd = Some e → fd_ok e;
  st_map fd : m !! fd = left_of <$> entry st fd
}.

Lemma entry_set st fd fd' x : 0 ≤ fd < zlen (slots st) → entry (set_slots (<[Z.to_nat fd := x]> (slots st)) st) fd' = if bool_decide (fd' = fd) then x else entry st fd'.
Proof.
  intros Hfd. unfold entry, zlen in *. cbn. destruct (Z.ltb_spec fd' 0); [by rewrite bool_decide_eq_false_2 by lia|]. case_bool_decide as Hb.
  - subst. by rewrite list_lookup_insert_eq by lia.
  - by rewrite list_lookup_insert_ne by lia.
Qed.

Lemma entry_range st fd e : entry st fd = Some e → 0 ≤ fd < zlen (slots st).
Proof.
  unfold entry, zlen. destruct (Z.ltb_spec fd 0); [done|]. destruct (slots st !! Z.to_nat fd) as [o|] eqn:E; [|done]. apply lookup_lt_Some in E. intros _. lia.
Qed.

Lemma streams_set v st m fd x : streams v st m → 0 ≤ fd < MAX_FD → (∀ e, x = Some e → fd_ok e) →
  streams v (set_slots (<[Z.to_nat fd := x]> (slots st)) st) (match x with Some e => <[fd := left_of e]> m | None => delete fd m end).
Proof.
  intros [Hl Hr Hok Hm] Hfd Hx. split; [unfold zlen in *; cbn [slots set_slots]; by rewrite length_insert|done|..].
  - intros fd' e. rewrite entry_set by lia. case_bool_decide; [apply Hx|apply Hok].
  - intros fd'. rewrite entry_set by lia. case_bool_decide as Hb; [subst; destruct x; [by rewrite lookup_insert_eq|by rewrite lookup_delete_eq]|].
    destruct x; [by rewrite lookup_insert_ne, Hm by done|by rewrite lookup_delete_ne, Hm by done].
Qed.

Lemma free_slot_find l : ∀ s f, (∀ i, (i < length l)%nat → f (s + Z.of_nat i) = bool_decide (l !! i ≫= id = None)) →
  (λ i, s + Z.of_nat i) <$> free_slot l = find f (seqZ s (zlen l)).
Proof.
  induction l as [|x l IH]; intros s f Hf; [done|]. unfold zlen. cbn [length]. rewrite seqZ_cons by lia. replace (Z.pred (Z.of_nat (S (length l)))) with (zlen l) by (unfold zlen; lia). cbn [find free_slot].
  pose proof (Hf 0%nat ltac:(cbn; lia)) as H0. rewrite Z.add_0_r in H0. rewrite H0. cbn [lookup list_lookup mbind option_bind id]. destruct x as [e|]; [|cbn; f_equal; lia].
  rewrite bool_decide_eq_false_2 by done. rewrite <-(IH (Z.succ s)); [destruct (free_slot l); cbn; [f_equal; lia|done]|]. intros i Hi. pose proof (Hf (S i) ltac:(cbn; lia)) as HS. replace (Z.succ s + Z.of_nat i) with (s + Z.of_nat (S i)) by lia. exact HS.
Qed.

Lemma free_slot_spec v st m : streams v st m → Z.of_nat <$> free_slot (slots st) = find (λ i, bool_decide (m !! i = None)) (seqZ 0 MAX_FD).
Proof.
  intros [Hl _ _ Hm]. rewrite <-Hl. etrans; [|apply (free_slot_find (slots st) 0)].
  - by destruct (free_slot (slots st)).
  - intros i Hi. rewrite Hm, Z.add_0_l. unfold entry. rewrite (proj2 (Z.ltb_ge _ _)), Nat2Z.id by lia. apply bool_decide_ext. destruct (slots st !! i ≫= id); cbn; split; done.
Qed.

Lemma run_call_streams v st m c : streams v st m → call_ok c →
  ∃ a st' m', run_call c st = Some (a, st') ∧ spec_call v c m = (a, m') ∧ streams v st' m'.
Proof.
  intros Hs Hc. pose proof Hs as [Hl Hr Hok Hm]. destruct c as [p|fd len|fd]; cbn [run_call spec_call].
  - unfold open. case_bool_decide; [by eexists _, _, _|]. unfold mbind, M_bind, m_get, m_lift. rewrite Hr. destruct v as [v|]; [|by eexists _, _, _].
    destruct (load_path_bytes (Some v) (trim p)) as [d|e| |] eqn:E.
    + pose proof (free_slot_spec _ _ _ Hs) as Hf. destruct (free_slot (slots st)) as [i|] eqn:Ei; cbn in Hf; rewrite <-Hf; [|by eexists _, _, _].
      assert (Hi : 0 ≤ Z.of_nat i < MAX_FD) by (symmetry in Hf; apply find_some in Hf as [Hf _]; apply list_elem_of_In, elem_of_seqZ in Hf; lia).
      eexists _, _, _. split; [reflexivity|]. split; [reflexivity|]. rewrite <-(Nat2Z.id i) at 1. apply (streams_set _ _ _ (Z.of_nat i) (Some (mkFd (trim p) 0 d)) Hs Hi).
      intros e [= <-]. split; [cbn; pose proof (zlen_nonneg d); lia|]. by eapply load_len.
    + by eexists _, _, _.
    + exfalso. revert E. unfold load_path_bytes. repeat case_match; done.
    + exfalso. revert E. unfold load_path_bytes. repeat case_match; done.
  - unfold read, mbind, M_bind, m_get. rewrite Hm. destruct (entry st fd) as [e|] eqn:E; [|by eexists _, _, _]. cbn [fmap option_fmap option_map].
    destruct (Hok fd e E) as [Ho Hd]. pose proof (entry_range _ _ _ E) as Hfd. cbn in Hc. destruct (Z.leb_spec (zlen (data e)) (offset e)) as [Hle|Hlt].
    + assert (Hnil : left_of e = []) by (unfold left_of; apply drop_ge; unfold zlen in *; lia). rewrite Hnil, take_nil, drop_nil. eexists _, _, _. split; [reflexivity|]. split; [reflexivity|].
      rewrite insert_id; [done|]. by rewrite Hm, E, <-Hnil.
    + set (n := Z.min (zlen (data e) - offset e) len). assert (Hn : 0 ≤ n ≤ len ∧ offset e + n ≤ zlen (data e)) by lia.
      assert (Htake : slice (offset e) n (data e) = take (Z.to_nat len) (left_of e)).
      { unfold slice, left_of. destruct (decide (n = len)) as [->|Hne]; [done|]. rewrite !take_ge; [done|rewrite length_drop; unfold zlen in *; lia..]. }
      assert (Hdrop : drop (Z.to_nat (offset e + n)) (data e) = drop (Z.to_nat len) (left_of e)).
      { unfold left_of. rewrite drop_drop. destruct (decide (n = len)) as [->|Hne]; [f_equal; lia|]. rewrite !drop_ge; [done|unfold zlen in *; lia..]. }
      eexists _, _, _. split; [reflexivity|]. rewrite Htake. split; [reflexivity|]. rewrite <-Hdrop.
      assert (Hfd' : 0 ≤ fd < MAX_FD) by lia. rewrite u64_add_small by lia.
      apply (streams_set v st m fd (Some (mkFd (path e) (offset e + n) (data e))) Hs Hfd'). intros e' [= <-]. split; cbn; lia.
  - unfold close, mbind, M_bind, m_get. rewrite Hm. destruct (entry st fd) as [e|] eqn:E; [|by eexists _, _, _]. cbn [fmap option_fmap option_map].
    pose proof (entry_range _ _ _ E) as Hfd. eexists _, _, _. split; [reflexivity|]. split; [reflexivity|]. apply (streams_set v st m fd None Hs); [lia|done].
Qed.

Lemma run_calls_streams v cs : ∀ st m, streams v st m → Forall call_ok cs → run_calls cs st = Some (spec_calls v cs m).
Proof.
  induction cs as [|c cs IH]; intros st m Hs Hc; [done|]. apply Forall_cons in Hc as [Hc Hcs]. destruct (run_call_streams v st m c Hs Hc) as (a & st' & m' & Hr & Hsp & Hs').
  cbn [run_calls spec_calls]. rewrite Hr, Hsp. cbn [mbind option_bind]. by rewrite (IH st' m' Hs' Hcs).
Qed.

Lemma no_fds_streams v : streams v (mkState no_fds v) ∅.
Proof.
  assert (He : ∀ fd, entry (mkState no_fds v) fd = None).
  { intros fd. unfold entry. destruct (fd <? 0); [done|]. cbn [slots]. destruct (no_fds !! Z.to_nat fd) as [x|] eqn:E; [|done]. unfold no_fds in E. by apply lookup_replicate in E as [-> _]. }
  split; [done|done|..]; intros fd; rewrite ?lookup_empty, He; done.
Qed.

(** C34: Open files are independent streams. Whatever the registry, every sequence of
    [open], [read] and [close] is answered, without a panic, as by a table of at most
    sixteen streams: [open] gives the lowest free descriptor (or [emfile]) at the start
    of the contents, [read] returns the next bytes and moves on, at the end it returns
    none, [close] frees the descriptor, and any other descriptor is refused. *)
Theorem open_files_are_streams v cs : Forall call_ok cs → run_calls cs (mkState no_fds v) = Some (spec_calls v cs ∅).
Proof. intros Hc. apply run_calls_streams; [apply no_fds_streams|exact Hc]. Qed.

Lemma open_files_are_streams_witness :
  ∃ v, run_calls [Open " /chat "; Open "/mnt/ram"; Read 0 8; Read 1 4; Read 0 100; Read 0 1; Close 0; Read 0 1; Open "/dev"; Open "/none"] (mkState no_fds v) =
    Some [AFd 0; AFd 1; ABytes (as_bytes "[vfs] /c"); ABytes []; ABytes (as_bytes ("hat" +:+ String (Ascii.ascii_of_byte Byte.x0a) "")); ABytes []; ADone; AErr "ebadf"; AFd 0; AErr "enoent"].
Proof.
  exists (init_standard_mounts (Some new)). rewrite open_files_are_streams; [by vm_compute|]. repeat (apply Forall_cons; split; [by vm_compute|]). constructor.
Defined.
