(* ===== verification/MeshWire.v ===== *)
(** The wire of the peer-to-peer mesh: the packet header ([k_nano/src/net/noproto.rs])
    and the Ethernet/IP/UDP frames it travels in ([k_nano/src/net/udp_broadcast.rs]). *)

From S2P Require Import Prelude.

Module Wire.

Definition to_be_bytes (n : nat) (z : Z) : bytes := rev (to_le_bytes n z).
Definition from_be_bytes (l : bytes) : Z := from_le_bytes (rev l).

(** [l[i] as usize], for an index the caller has checked. *)
Definition byte_at (l : bytes) (i : Z) : Z := match l !! Z.to_nat i with Some b => byte.unsigned b | None => 0 end.

(** [l.starts_with(p)] *)
Definition starts_with (p l : bytes) : bool := bool_decide (take (length p) l = p).

(** * The packet header *)

Inductive TaskType := Unknown | Inference | Training | Sync | ModelUpdate | Heartbeat | Error | Shutdown | LayaIntent.

Definition TaskType_u8 (t : TaskType) : Z :=
  match t with
  | Unknown => 0 | Inference => 1 | Training => 2 | Sync => 3 | ModelUpdate => 4
  | Heartbeat => 5 | Error => 6 | Shutdown => 7 | LayaIntent => 8
  end.

Record PacketFlags := mkFlags { persist : bool; require_ack : bool; compressed : bool; encrypted : bool; _reserved : Z }.

Definition PacketFlags_new : PacketFlags := mkFlags false true false false 0.

Definition as_u8 (f : PacketFlags) : Z :=
  let flags := 0 in
  let flags := if persist f then Z.lor flags 0x01 else flags in
  let flags := if require_ack f then Z.lor flags 0x02 else flags in
  let flags := if compressed f then Z.lor flags 0x04 else flags in
  let flags := if encrypted f then Z.lor flags 0x08 else flags in
  Z.lor flags (Z.shiftl (_reserved f) 4 mod 2 ^ 8).

Definition from_u8 (value : Z) : PacketFlags :=
  mkFlags (negb (Z.land value 0x01 =? 0)) (negb (Z.land value 0x02 =? 0)) (negb (Z.land value 0x04 =? 0))
    (negb (Z.land value 0x08 =? 0)) (Z.land (Z.shiftr value 4) 0x0F).

(** [#[repr(C, packed)]]. The source overlays the struct on received bytes; a byte that
    is no [TaskType] (or no [bool]) is undefined behaviour there, so the model keeps the
    byte that [task_type as u8] reads. *)
Record AiosTaskPacket := mkPacket {
  magic : Z; clock : Z; source_id : Z; dest_id : Z; task_type : Z; priority : Z;
  tensor_len : Z; param_len : Z; flags : PacketFlags; reserved : bytes }.

Definition AIOS_MAGIC : Z := 0x41494F53.
Definition PACKET_HEADER_SIZE : Z := 37.

Definition AiosTaskPacket_new (clock source_id dest_id : Z) (t : TaskType) (priority tensor_len param_len : Z) (flags : PacketFlags) : AiosTaskPacket :=
  mkPacket AIOS_MAGIC clock source_id dest_id (TaskType_u8 t) priority tensor_len param_len flags (replicate 8 Byte.x00).

Definition is_valid (p : AiosTaskPacket) : bool := magic p =? AIOS_MAGIC.
Definition total_size (p : AiosTaskPacket) : Z := PACKET_HEADER_SIZE + tensor_len p + param_len p.
Definition tensor_offset (p : AiosTaskPacket) : Z := PACKET_HEADER_SIZE.
Definition param_offset (p : AiosTaskPacket) : Z := PACKET_HEADER_SIZE + tensor_len p.

Definition make_discovery (source_id clock : Z) : AiosTaskPacket :=
  mkPacket 0x41494F53 clock source_id 0xFF (TaskType_u8 Sync) 0 0 0 (mkFlags false false false false 0) (replicate 8 Byte.x00).

Definition make_heartbeat (source_id clock : Z) : AiosTaskPacket :=
  mkPacket 0x41494F53 clock source_id 0xFF (TaskType_u8 Heartbeat) 1 0 0 (mkFlags false false false false 0) (replicate 8 Byte.x00).

Definition bool_byte (b : bool) : Byte.byte := if b then Byte.x01 else Byte.x00.

Definition serialize (p : AiosTaskPacket) : bytes :=
  to_le_bytes 4 (magic p) ++ to_le_bytes 8 (clock p) ++
  [byte.of_Z (source_id p); byte.of_Z (dest_id p); byte.of_Z (task_type p); byte.of_Z (priority p)] ++
  to_le_bytes 4 (tensor_len p) ++ to_le_bytes 4 (param_len p) ++
  [bool_byte (persist (flags p)); bool_byte (require_ack (flags p)); bool_byte (compressed (flags p));
   bool_byte (encrypted (flags p)); byte.of_Z (_reserved (flags p))] ++
  reserved p.

(** [core::ptr::read_unaligned(data.as_ptr() as *const AiosTaskPacket)] *)
Definition read_packet (data : bytes) : AiosTaskPacket :=
  mkPacket (from_le_bytes (slice 0 4 data)) (from_le_bytes (slice 4 8 data))
    (byte_at data 12) (byte_at data 13) (byte_at data 14) (byte_at data 15)
    (from_le_bytes (slice 16 4 data)) (from_le_bytes (slice 20 4 data))
    (mkFlags (negb (byte_at data 24 =? 0)) (negb (byte_at data 25 =? 0)) (negb (byte_at data 26 =? 0))
       (negb (byte_at data 27 =? 0)) (byte_at data 28))
    (slice 29 8 data).

Definition parse (data : bytes) : option AiosTaskPacket :=
  if zlen data <? PACKET_HEADER_SIZE then None else
  let packet := read_packet data in
  if negb (magic packet =? 0x41494F53) then None else Some packet.

(** [NoProtoParser] *)
Definition NoProtoParser_parse (buffer : bytes) : option AiosTaskPacket :=
  if zlen buffer <? PACKET_HEADER_SIZE then None else
  let packet := read_packet buffer in
  if is_valid packet then Some packet else None.

Definition get_tensor_data (buffer : bytes) : option bytes :=
  packet ← NoProtoParser_parse buffer;
  let offset := tensor_offset packet in
  if zlen buffer <? offset + tensor_len packet then None else Some (slice offset (tensor_len packet) buffer).

Definition get_param_data (buffer : bytes) : option bytes :=
  packet ← NoProtoParser_parse buffer;
  let offset := param_offset packet in
  if zlen buffer <? offset + param_len packet then None else Some (slice offset (param_len packet) buffer).

Definition serialize_header (buffer : bytes) (p : AiosTaskPacket) : bool * bytes :=
  if zlen buffer <? PACKET_HEADER_SIZE then (false, buffer) else (true, splice 0 (serialize p) buffer).

Definition validate_packet (buffer : bytes) : bool :=
  if zlen buffer <? PACKET_HEADER_SIZE then false else
  match NoProtoParser_parse buffer with
  | None => false
  | Some p => total_size p <=? zlen buffer
  end.

(** * The internet checksum (RFC 1071) *)

(** [u16::from_be_bytes([a, b])] *)
Definition be16 (a b : Byte.byte) : Z := byte.unsigned a * 256 + byte.unsigned b.

Fixpoint checksum_words (data : bytes) (sum : Z) : Z :=
  match data with
  | [] => sum
  | [a] => (sum + be16 a Byte.x00) mod 2 ^ 32
  | a :: b :: rest => checksum_words rest ((sum + be16 a b) mod 2 ^ 32)
  end.

(** [while sum >> 16 != 0]; a 32-bit sum needs two rounds at most. *)
Fixpoint checksum_fold (fuel : nat) (sum : Z) : Z :=
  match fuel with
  | O => sum
  | S fuel => if Z.shiftr sum 16 =? 0 then sum else checksum_fold fuel (Z.land sum 0xFFFF + Z.shiftr sum 16)
  end.

Definition ip_checksum (data : bytes) : Z := 0xFFFF - checksum_fold 3 (checksum_words data 0) mod 2 ^ 16.

(** * Network cards

    A card is what its driver does for the transport: frames received and not yet
    taken, and the frames handed to it. *)

Record Nic := mkNic { rxq : list bytes; txq : list bytes }.
Record NetConfig := mkConfig { ip : bytes; mac : bytes }.

Record Net := mkNet {
  VIRTIO_DEV : option Nic; E1000 : option Nic; RTL8139 : option Nic;
  NET_CONFIG : NetConfig; NET_TX_COUNT : Z; NET_RX_COUNT : Z }.

Definition nic_send (data : bytes) (n : Nic) : Nic := mkNic (rxq n) (txq n ++ [data]).

Definition nic_send_k (data : bytes) (s : Net) : Net :=
  match VIRTIO_DEV s, E1000 s, RTL8139 s with
  | Some n, e, r => mkNet (Some (nic_send data n)) e r (NET_CONFIG s) (NET_TX_COUNT s) (NET_RX_COUNT s)
  | None, Some n, r => mkNet None (Some (nic_send data n)) r (NET_CONFIG s) (NET_TX_COUNT s) (NET_RX_COUNT s)
  | None, None, Some n => mkNet None None (Some (nic_send data n)) (NET_CONFIG s) (NET_TX_COUNT s) (NET_RX_COUNT s)
  | None, None, None => s
  end.

Definition nic_recv (n : option Nic) : option (bytes * option Nic) :=
  match n with
  | Some (mkNic (p :: rx) tx) => Some (p, Some (mkNic rx tx))
  | _ => None
  end.

Definition nic_recv_k (s : Net) : option (bytes * Net) :=
  match nic_recv (VIRTIO_DEV s) with
  | Some (p, n) => Some (p, mkNet n (E1000 s) (RTL8139 s) (NET_CONFIG s) (NET_TX_COUNT s) (NET_RX_COUNT s))
  | None =>
    match nic_recv (E1000 s) with
    | Some (p, n) => Some (p, mkNet (VIRTIO_DEV s) n (RTL8139 s) (NET_CONFIG s) (NET_TX_COUNT s) (NET_RX_COUNT s))
    | None =>
      match nic_recv (RTL8139 s) with
      | Some (p, n) => Some (p, mkNet (VIRTIO_DEV s) (E1000 s) n (NET_CONFIG s) (NET_TX_COUNT s) (NET_RX_COUNT s))
      | None => None
      end
    end
  end.

(** * Frames *)

Definition P2P_PORT : Z := 42069.

Definition sender_ip (cfg : NetConfig) : bytes :=
  if bool_decide (ip cfg = replicate 4 Byte.x00) then [Byte.x0a; Byte.x00; Byte.x02; Byte.x0f] else ip cfg.

(** [ip], twenty bytes, with the checksum over the rest *)
Definition ip_header (total_len : Z) (sip dst : bytes) : bytes :=
  let ip := put_fields [(0, [Byte.x45]); (2, to_be_bytes 2 total_len); (8, [Byte.x40]); (9, [Byte.x11]); (12, sip); (16, dst)]
              (replicate 20 Byte.x00) in
  splice 10 (to_be_bytes 2 (ip_checksum ip)) ip.

Definition udp_datagram (payload : bytes) (port : Z) : bytes :=
  to_be_bytes 2 42069 ++ to_be_bytes 2 port ++ to_be_bytes 2 ((8 + zlen payload) mod 2 ^ 16) ++ [Byte.x00; Byte.x00] ++ payload.

Definition build_udp_unicast_frame (cfg : NetConfig) (payload dest_mac : bytes) (port : Z) : option bytes :=
  if bool_decide (mac cfg = replicate 6 Byte.x00) || bool_decide (payload = []) then None else
  let udp := udp_datagram payload port in
  let total_len := (20 + zlen udp) mod 2 ^ 16 in
  Some (dest_mac ++ mac cfg ++ [Byte.x08; Byte.x00] ++ ip_header total_len (sender_ip cfg) (replicate 4 Byte.xff) ++ udp).

Definition build_udp_broadcast_frame (cfg : NetConfig) (payload : bytes) (port : Z) : option bytes :=
  build_udp_unicast_frame cfg payload (replicate 6 Byte.xff) port.

Definition count_tx (s : Net) : Net := mkNet (VIRTIO_DEV s) (E1000 s) (RTL8139 s) (NET_CONFIG s) (u64_add (NET_TX_COUNT s) 1) (NET_RX_COUNT s).
Definition count_rx (s : Net) : Net := mkNet (VIRTIO_DEV s) (E1000 s) (RTL8139 s) (NET_CONFIG s) (NET_TX_COUNT s) (u64_add (NET_RX_COUNT s) 1).

Definition udp_broadcast_send (payload : bytes) (port : Z) (s : Net) : bool * Net :=
  match build_udp_broadcast_frame (NET_CONFIG s) payload port with
  | None => (false, s)
  | Some frame => (true, count_tx (nic_send_k frame s))
  end.

Definition send_unicast (payload dest_mac : bytes) (port : Z) (s : Net) : bool * Net :=
  match build_udp_unicast_frame (NET_CONFIG s) payload dest_mac port with
  | None => (false, s)
  | Some frame => (true, count_tx (nic_send_k frame s))
  end.

(** One round of the receive loop: the datagram of a frame for [port] and the sender's
    address, or [None] for [continue]. The checks keep every index in range. *)
Definition udp_payload (port : Z) (pkt : bytes) : option (bytes * bytes) :=
  if zlen pkt <? 14 + 20 + 8 then None else
  if negb (byte_at pkt 12 =? 0x08) || negb (byte_at pkt 13 =? 0x00) then None else
  let ihl := Z.land (byte_at pkt 14) 0x0f * 4 in
  if (ihl <? 20) || (zlen pkt <? 14 + ihl + 8) then None else
  if negb (byte_at pkt (14 + 9) =? 17) then None else
  let udp := 14 + ihl in
  let dport := from_be_bytes (slice (udp + 2) 2 pkt) in
  if negb (dport =? port) then None else
  let ulen := from_be_bytes (slice (udp + 4) 2 pkt) in
  if (ulen <? 8) || (zlen pkt <? udp + ulen) then None else
  Some (slice (udp + 8) (ulen - 8) pkt, slice 6 6 pkt).

Definition is_broadcast (pkt : bytes) : bool :=
  (byte_at pkt 0 =? 0xFF) && (byte_at pkt 1 =? 0xFF) && (byte_at pkt 2 =? 0xFF) && (byte_at pkt 3 =? 0xFF) && (byte_at pkt 4 =? 0xFF) && (byte_at pkt 5 =? 0xFF).

Definition udp_unicast_payload (port : Z) (pkt : bytes) : option (bytes * bytes) :=
  if zlen pkt <? 14 + 20 + 8 then None else
  if is_broadcast pkt then None else udp_payload port pkt.

(** [for _ in 0..16] *)
Fixpoint recv_loop (n : nat) (accept : bytes → option (bytes * bytes)) (s : Net) : option (bytes * bytes) * Net :=
  match n with
  | O => (None, s)
  | S n =>
    match nic_recv_k s with
    | None => (None, s)
    | Some (pkt, s) =>
      let s := count_rx s in
      match accept pkt with Some r => (Some r, s) | None => recv_loop n accept s end
    end
  end.

Definition udp_broadcast_recv_with_mac (port : Z) (s : Net) : option (bytes * bytes) * Net := recv_loop 16 (udp_payload port) s.
Definition recv_unicast_with_mac (port : Z) (s : Net) : option (bytes * bytes) * Net := recv_loop 16 (udp_unicast_payload port) s.

Definition udp_broadcast_recv (port : Z) (s : Net) : option bytes * Net :=
  let '(r, s) := udp_broadcast_recv_with_mac port s in (fst <$> r, s).

(** * Headers read back *)

Lemma from_to_be_bytes n z : 0 ≤ z < 2 ^ (Z.of_nat n * 8) → from_be_bytes (to_be_bytes n z) = z.
Proof. intros. unfold from_be_bytes, to_be_bytes. rewrite rev_involutive. by apply from_to_le_bytes. Qed.

Lemma zlen_to_be_bytes n z : zlen (to_be_bytes n z) = Z.of_nat n.
Proof. unfold to_be_bytes, zlen. rewrite length_rev. apply zlen_to_le_bytes. Qed.
#[local] Hint Rewrite zlen_to_be_bytes : zlen.

Lemma byte_at_mid p b q i : zlen p = i → byte_at (p ++ b :: q) i = byte.unsigned b.
Proof. intros <-. unfold byte_at, zlen. rewrite Nat2Z.id. by rewrite list_lookup_middle. Qed.

Record packet_ok (p : AiosTaskPacket) : Prop := mkPacketOk {
  po_magic : magic p = AIOS_MAGIC; po_clock : 0 ≤ clock p < 2 ^ 64;
  po_ids : 0 ≤ source_id p < 2 ^ 8 ∧ 0 ≤ dest_id p < 2 ^ 8 ∧ 0 ≤ task_type p < 2 ^ 8 ∧ 0 ≤ priority p < 2 ^ 8;
  po_lens : 0 ≤ tensor_len p < 2 ^ 32 ∧ 0 ≤ param_len p < 2 ^ 32;
  po_reserved : 0 ≤ _reserved (flags p) < 2 ^ 8 ∧ zlen (reserved p) = 8 }.

Lemma zlen_serialize p : zlen (reserved p) = 8 → zlen (serialize p) = PACKET_HEADER_SIZE.
Proof. intros H. unfold serialize, PACKET_HEADER_SIZE. autorewrite with zlen. rewrite H. done. Qed.

Lemma bool_byte_nonzero b : negb (byte.unsigned (bool_byte b) =? 0) = b.
Proof. by destruct b. Qed.

Lemma byte_at_app l q i : zlen l ≤ i → byte_at (l ++ q) i = byte_at q (i - zlen l).
Proof. unfold byte_at, zlen. intros. rewrite lookup_app_r by lia. by replace (Z.to_nat i - length l)%nat with (Z.to_nat (i - Z.of_nat (length l))) by lia. Qed.

Lemma byte_at_cons b q i : 0 < i → byte_at (b :: q) i = byte_at q (i - 1).
Proof. intros. unfold byte_at. rewrite lookup_cons_ne_0 by lia. by replace (Init.Nat.pred (Z.to_nat i)) with (Z.to_nat (i - 1)) by lia. Qed.

Lemma byte_at_0 b q : byte_at (b :: q) 0 = byte.unsigned b.
Proof. done. Qed.

Lemma slice_cons {A} (b : A) q o n : 0 < o → slice o n (b :: q) = slice (o - 1) n q.
Proof. intros. change (b :: q) with ([b] ++ q). rewrite slice_app_r by (rewrite zlen_cons, zlen_nil; lia). done. Qed.

(** Skip to the field an offset names. *)
Ltac skip_fields :=
  rewrite <-?app_assoc;
  repeat (first [rewrite byte_at_app by (autorewrite with zlen; lia) | rewrite byte_at_cons by (autorewrite with zlen; lia)
                |rewrite slice_app_r by (autorewrite with zlen; lia) | rewrite slice_cons by (autorewrite with zlen; lia)];
          autorewrite with zlen; cbn [app]).

Lemma unsigned_of_Z z : 0 ≤ z < 2 ^ 8 → byte.unsigned (byte.of_Z z) = z.
Proof. intros. rewrite byte.unsigned_of_Z. unfold byte.wrap. by apply Z.mod_small. Qed.

Lemma read_serialize p rest : packet_ok p → read_packet (serialize p ++ rest) = p.
Proof.
  intros [Hm Hc (Hs & Hd & Ht & Hp) (Hl & Hq) (Hr & Hz)].
  destruct p as [m c s d t pr tl pl [f1 f2 f3 f4 f5] rs]. unfold read_packet, serialize.
  cbn [magic clock source_id dest_id task_type priority tensor_len param_len flags reserved persist require_ack compressed encrypted _reserved] in *. subst m.
  f_equal; [..|f_equal|]; skip_fields.
  all: try (rewrite slice_app_exact by (autorewrite with zlen; lia); apply from_to_le_bytes; done || lia).
  all: try (cbn; rewrite ?byte_at_0; apply unsigned_of_Z; done).
  all: try (cbn; rewrite ?byte_at_0; apply bool_byte_nonzero).
  all: by apply slice_app_exact.
Qed.

(** What [serialize] writes, [parse] reads, whatever follows the header. *)
Lemma parse_serialize p rest : packet_ok p → parse (serialize p ++ rest) = Some p.
Proof.
  intros Hok. unfold parse. rewrite zlen_app, zlen_serialize by apply (po_reserved _ Hok). pose proof (zlen_nonneg rest).
  destruct (Z.ltb_spec (PACKET_HEADER_SIZE + zlen rest) PACKET_HEADER_SIZE) as [?|_]; [lia|]. rewrite read_serialize by done. by rewrite (po_magic _ Hok).
Qed.

Lemma flags_roundtrip f : 0 ≤ _reserved f < 16 → from_u8 (as_u8 f) = f.
Proof.
  intros Hr. destruct f as [p a c e r]. cbn [_reserved] in Hr.
  assert (Hin : r ∈ seqZ 0 16) by (apply elem_of_seqZ; lia). clear Hr. cbv [seqZ fmap list_fmap seq Z.to_nat Pos.to_nat Pos.iter_op Init.Nat.add] in Hin.
  repeat (apply elem_of_cons in Hin as [-> | Hin]; [by destruct p, a, c, e|]). by apply elem_of_nil in Hin.
Qed.

(** * Checksums *)

Lemma checksum_fold_spec sum :
  0 ≤ sum < 2 ^ 32 →
  let f := checksum_fold 3 sum in 0 ≤ f < 2 ^ 16 ∧ f mod 65535 = sum mod 65535 ∧ (0 < sum → 0 < f).
Proof.
  intros Hs. assert (Hone : ∀ s, Z.land s 0xFFFF + Z.shiftr s 16 = s - 65535 * (s / 65536)).
  { intros s. assert (Z.land s 0xFFFF = s mod 2 ^ 16) as -> by (by apply (Z.land_ones s 16)). rewrite Z.shiftr_div_pow2 by done. change (2 ^ 16) with 65536. pose proof (Z.div_mod s 65536 ltac:(lia)). lia. }
  assert (Hmod : ∀ s k, (s - 65535 * k) mod 65535 = s mod 65535) by (intros; rewrite <-(Z.mod_add s (- k) 65535) by done; f_equal; lia).
  cbn [checksum_fold]. rewrite !Hone, !Z.shiftr_div_pow2 by done. change (2 ^ 16) with 65536 in *. change (2 ^ 32) with 4294967296 in *.
  assert (Hd := Z.div_mod sum 65536 ltac:(lia)). assert (Hm := Z.mod_pos_bound sum 65536 ltac:(lia)).
  set (s1 := sum - 65535 * (sum / 65536)). assert (H1 : 0 ≤ s1 < 131071) by lia.
  set (s2 := s1 - 65535 * (s1 / 65536)). assert (Hd1 := Z.div_mod s1 65536 ltac:(lia)). assert (Hm1 := Z.mod_pos_bound s1 65536 ltac:(lia)).
  destruct (Z.eqb_spec (sum / 65536) 0); [split_and!; lia || done|]. destruct (Z.eqb_spec (s1 / 65536) 0); [split_and!; lia || apply Hmod|].
  assert (H2 : 0 < s2 < 65536) by lia. assert (s2 / 65536 = 0) as -> by (apply Z.div_small; lia).
  cbn. split_and!; [lia|lia| |lia]. unfold s2. rewrite Hmod. apply Hmod.
Qed.

Lemma be16_bound a b : 0 ≤ be16 a b < 65536.
Proof. unfold be16. pose proof (byte.unsigned_range a). pose proof (byte.unsigned_range b). lia. Qed.

(** The sum of the 16-bit words, before it is folded. *)
Fixpoint word_sum (data : bytes) : Z :=
  match data with [] => 0 | [a] => be16 a Byte.x00 | a :: b :: rest => be16 a b + word_sum rest end.

Lemma word_ind (P : bytes → Prop) : P [] → (∀ a, P [a]) → (∀ a b l, P l → P (a :: b :: l)) → ∀ l, P l.
Proof. intros H0 H1 H2. fix go 1. intros [|a [|b l]]; [done|apply H1|apply H2, go]. Qed.

Lemma word_sum_bound l : 0 ≤ word_sum l ≤ 65535 * zlen l.
Proof.
  induction l as [|a|a b l IH] using word_ind; [done| |]; cbn [word_sum]; autorewrite with zlen.
  - pose proof (be16_bound a Byte.x00). lia.
  - pose proof (be16_bound a b). lia.
Qed.

Lemma checksum_words_sum l s : 0 ≤ s → s + word_sum l < 2 ^ 32 → checksum_words l s = s + word_sum l.
Proof.
  revert s. induction l as [|a|a b l IH] using word_ind; intros s Hs Hb; cbn [checksum_words word_sum] in *; [lia| |].
  - apply Z.mod_small. pose proof (be16_bound a Byte.x00). lia.
  - pose proof (be16_bound a b). pose proof (word_sum_bound l). rewrite Z.mod_small by lia. rewrite IH by lia. lia.
Qed.

Lemma word_sum_app l q : Z.even (zlen l) = true → word_sum (l ++ q) = word_sum l + word_sum q.
Proof.
  induction l as [|a|a b l IH] using word_ind; intros Hev; [done|done|]. cbn [app word_sum]. rewrite IH; [lia|].
  rewrite !zlen_cons in Hev. replace (1 + (1 + zlen l)) with (2 * 1 + zlen l) in Hev by lia. by rewrite Z.even_add_mul_2 in Hev || (rewrite Z.add_comm, Z.even_add_mul_2 in Hev).
Qed.

#[local] Transparent from_le_bytes.
Lemma be16_to_be_bytes z : 0 ≤ z < 2 ^ 16 → ∃ a b, to_be_bytes 2 z = [a; b] ∧ be16 a b = z.
Proof.
  intros Hz. pose proof (from_to_be_bytes 2 z Hz) as E. pose proof (zlen_to_be_bytes 2 z) as Hl. unfold zlen in Hl.
  destruct (to_be_bytes 2 z) as [|a [|b [|]]]; try (cbn in Hl; lia). exists a, b. split; [done|].
  change (Z.lor (byte.unsigned b) (Z.shiftl (Z.lor (byte.unsigned a) 0) 8) = z) in E. rewrite Z.lor_0_r, Z.shiftl_mul_pow2 in E by done. unfold be16.
  assert (Hand : Z.land (byte.unsigned b) (byte.unsigned a * 2 ^ 8) = 0).
  { pose proof (byte.unsigned_range b). rewrite <-(Z.mod_small (byte.unsigned b) (2 ^ 8)) by lia. rewrite <-Z.land_ones by done. rewrite <-Z.land_assoc.
    rewrite <-Z.shiftl_mul_pow2 by done. rewrite (Z.land_comm (Z.ones 8)), Z.land_ones, Z.shiftl_mul_pow2, Z.mod_mul by done. apply Z.land_0_r. }
  rewrite <-Z.lxor_lor, <-Z.add_nocarry_lxor in E by done. lia.
Qed.
#[local] Opaque from_le_bytes.

Lemma ip_checksum_fold h : zlen h ≤ 65535 → 0 < word_sum h → ∃ f, ip_checksum h = 65535 - f ∧ 0 < f < 65536 ∧ f mod 65535 = word_sum h mod 65535.
Proof.
  intros Hl Hp. pose proof (word_sum_bound h). assert (Hw : 0 ≤ word_sum h < 2 ^ 32) by (change (2 ^ 32) with 4294967296; lia).
  destruct (checksum_fold_spec _ Hw) as (Hf & Hm & Hpos). exists (checksum_fold 3 (word_sum h)). unfold ip_checksum.
  rewrite checksum_words_sum by lia. rewrite Z.add_0_l, (Z.mod_small _ (2 ^ 16)) by done. change (2 ^ 16) with 65536 in Hf. split; [done|]. split; [lia|done].
Qed.

(** The header with its checksum in place sums to zero, which is what a receiver checks. *)
Lemma checksum_closes p q :
  let h := p ++ [Byte.x00; Byte.x00] ++ q in
  zlen h ≤ 65535 → Z.even (zlen p) = true → 0 < word_sum h → ip_checksum (p ++ to_be_bytes 2 (ip_checksum h) ++ q) = 0.
Proof.
  intros h Hl Hev Hp. destruct (ip_checksum_fold h Hl Hp) as (f & -> & Hf & Hm).
  destruct (be16_to_be_bytes (65535 - f) ltac:(change (2 ^ 16) with 65536; lia)) as (a & b & Hab & Hz). rewrite Hab.
  assert (Hs : word_sum (p ++ [a; b] ++ q) = word_sum h + (65535 - f)).
  { unfold h. rewrite !word_sum_app by done. cbn [app word_sum]. rewrite Hz. change (be16 Byte.x00 Byte.x00) with 0. lia. }
  destruct (ip_checksum_fold (p ++ [a; b] ++ q)) as (f' & -> & Hf' & Hm').
  - unfold h in Hl. revert Hl. autorewrite with zlen. lia.
  - lia.
  - rewrite Hs in Hm'. replace (word_sum h + (65535 - f)) with ((word_sum h - f) + 1 * 65535) in Hm' by lia.
    rewrite Z.mod_add, Zminus_mod, <-Hm, Z.sub_diag in Hm' by done. change (0 mod 65535) with 0 in Hm'.
    apply Z.mod_divide in Hm' as [k Hk]; [|done]. lia.
Qed.

Lemma zlen_ip_header n sip dst : zlen sip = 4 → zlen dst = 4 → zlen (ip_header n sip dst) = 20.
Proof.
  intros H1 H2. unfold ip_header.
  assert (Hz : ∀ fs, fields_in 0 20 fs → zlen (put_fields fs (replicate 20 Byte.x00)) = 20).
  { intros fs Hfs. rewrite (zlen_put_fields 0); [by rewrite zlen_replicate|lia|by rewrite zlen_replicate]. }
  rewrite zlen_splice; rewrite ?zlen_to_be_bytes, ?Hz; try lia; cbn [fields_in]; autorewrite with zlen; lia.
Qed.

Lemma byte_at_slice l i b : 0 ≤ i → slice i 1 l = [b] → byte_at l i = byte.unsigned b.
Proof.
  intros Hi E. assert (Hl : slice i 1 l !! 0%nat = Some b) by by rewrite E. rewrite lookup_slice in Hl. case_decide; [|done].
  rewrite Nat.add_0_r in Hl. unfold byte_at. by rewrite Hl.
Qed.

Lemma ip_header_bytes n sip dst : zlen sip = 4 → zlen dst = 4 → byte_at (ip_header n sip dst) 0 = 0x45 ∧ byte_at (ip_header n sip dst) 9 = 17.
Proof.
  intros H1 H2. split; (erewrite byte_at_slice; [|lia|unfold ip_header; rewrite slice_splice_before; [field_get; reflexivity|lia..|]]; [reflexivity|]).
  all: rewrite (zlen_put_fields 0); [rewrite zlen_replicate; lia|lia|fields_solve].
Qed.

(** A receiver finds the checksum of every header right. *)
Lemma ip_header_checksum n sip dst : 0 ≤ n < 2 ^ 16 → zlen sip = 4 → zlen dst = 4 → ip_checksum (ip_header n sip dst) = 0.
Proof.
  intros Hn H1 H2. unfold ip_header, zlen in *.
  destruct (be16_to_be_bytes n Hn) as (a & b & Hab & Hz). rewrite Hab.
  destruct sip as [|s0 [|s1 [|s2 [|s3 [|]]]]]; try (cbn in H1; lia). destruct dst as [|d0 [|d1 [|d2 [|d3 [|]]]]]; try (cbn in H2; lia).
  set (h := put_fields _ _).
  assert (Hh : h = [Byte.x45; Byte.x00; a; b; Byte.x00; Byte.x00; Byte.x00; Byte.x00; Byte.x40; Byte.x11] ++ [Byte.x00; Byte.x00] ++ [s0; s1; s2; s3; d0; d1; d2; d3]) by done.
  rewrite Hh. set (p := [Byte.x45; _; _; _; _; _; _; _; _; _]). set (q := [s0; _; _; _; _; _; _; _]).
  pose proof (checksum_closes p q) as Hc. cbv zeta in Hc.
  replace (splice 10 _ _) with (p ++ to_be_bytes 2 (ip_checksum (p ++ [Byte.x00; Byte.x00] ++ q)) ++ q).
  - apply Hc; [done|done|]. rewrite word_sum_app by done. pose proof (word_sum_bound ([Byte.x00; Byte.x00] ++ q)).
    assert (be16 Byte.x45 Byte.x00 ≤ word_sum p); [|change (be16 Byte.x45 Byte.x00) with 17664 in *; lia].
    unfold p. cbn [word_sum]. pose proof (be16_bound a b). pose proof (be16_bound Byte.x00 Byte.x00). pose proof (be16_bound Byte.x40 Byte.x11). lia.
  - destruct (be16_to_be_bytes (ip_checksum (p ++ [Byte.x00; Byte.x00] ++ q))) as (x & y & Hxy & _); [|by rewrite Hxy].
    unfold ip_checksum. set (m := checksum_fold _ _ mod _). assert (0 ≤ m < 2 ^ 16) by (apply Z.mod_pos_bound; done). change (2 ^ 16) with 65536 in *. lia.
Qed.

(** * Frames arrive *)

Definition config_ok (cfg : NetConfig) : Prop := zlen (ip cfg) = 4 ∧ zlen (mac cfg) = 6 ∧ mac cfg ≠ replicate 6 Byte.x00.

(** The largest payload whose length fits the 16 bits of the UDP header. *)
Definition UDP_MAX : Z := 65527.

Lemma zlen_sender_ip cfg : zlen (ip cfg) = 4 → zlen (sender_ip cfg) = 4.
Proof. intros. unfold sender_ip. by case_bool_decide. Qed.

Lemma byte_at_app_l l q i : 0 ≤ i < zlen l → byte_at (l ++ q) i = byte_at l i.
Proof. unfold byte_at, zlen. intros. by rewrite lookup_app_l by lia. Qed.

Lemma udp_payload_frame dmac smac h port payload :
  zlen dmac = 6 → zlen smac = 6 → zlen h = 20 → byte_at h 0 = 0x45 → byte_at h 9 = 17 → zlen payload ≤ UDP_MAX → 0 ≤ port < 2 ^ 16 →
  udp_payload port (dmac ++ smac ++ [Byte.x08; Byte.x00] ++ h ++ udp_datagram payload port) = Some (payload, smac).
Proof.
  unfold UDP_MAX. intros Hd Hs Hh H0 H9 Hp Hport. set (f := dmac ++ _). pose proof (zlen_nonneg payload) as Hnn.
  assert (Hf : zlen f = 42 + zlen payload) by (unfold f, udp_datagram; autorewrite with zlen; lia).
  assert (B12 : byte_at f 12 = 0x08) by (unfold f; do 2 rewrite byte_at_app by lia; rewrite Hd, Hs; done).
  assert (B13 : byte_at f 13 = 0x00) by (unfold f; do 2 rewrite byte_at_app by lia; rewrite Hd, Hs; done).
  assert (BH : ∀ i, 0 ≤ i < 20 → byte_at f (14 + i) = byte_at h i).
  { intros i Hi. unfold f. do 3 rewrite byte_at_app by (autorewrite with zlen; lia). autorewrite with zlen. rewrite byte_at_app_l by (autorewrite with zlen; lia). f_equal. lia. }
  assert (SU : ∀ o n, 0 ≤ o → slice (34 + o) n f = slice o n (udp_datagram payload port)).
  { intros o n Ho. unfold f. do 4 rewrite slice_app_r by (autorewrite with zlen; lia). autorewrite with zlen. f_equal. lia. }
  unfold udp_payload. destruct (Z.ltb_spec (zlen f) (14 + 20 + 8)); [lia|]. rewrite B12, B13. cbn [negb Z.eqb Pos.eqb orb].
  assert (byte_at f 14 = 0x45) as -> by (by rewrite <-H0, <-BH by lia). change (Z.land 69 15 * 4) with 20. cbn [orb Z.ltb Z.compare Pos.compare Pos.compare_cont].
  destruct (Z.ltb_spec (zlen f) (14 + 20 + 8)); [lia|]. cbn [orb]. rewrite (BH 9) by lia. rewrite H9. cbn [negb Z.eqb Pos.eqb].
  change (14 + 20 + 2) with (34 + 2). change (14 + 20 + 4) with (34 + 4). change (14 + 20 + 8) with (34 + 8). rewrite !SU by lia.
  assert (Hu : udp_datagram payload port = to_be_bytes 2 42069 ++ to_be_bytes 2 port ++ to_be_bytes 2 (8 + zlen payload) ++ [Byte.x00; Byte.x00] ++ payload).
  { unfold udp_datagram. by rewrite (Z.mod_small (8 + zlen payload)) by (change (2 ^ 16) with 65536; lia). }
  rewrite Hu. rewrite (slice_mid (to_be_bytes 2 42069) (to_be_bytes 2 port)) by (by rewrite zlen_to_be_bytes). rewrite from_to_be_bytes by done. rewrite Z.eqb_refl. cbn [negb].
  rewrite (app_assoc (to_be_bytes 2 42069)), (slice_mid (_ ++ _) (to_be_bytes 2 (8 + zlen payload))) by (autorewrite with zlen; done).
  rewrite from_to_be_bytes by (change (2 ^ (Z.of_nat 2 * 8)) with 65536; lia).
  destruct (Z.ltb_spec (8 + zlen payload) 8); [lia|]. destruct (Z.ltb_spec (zlen f) (14 + 20 + (8 + zlen payload))); [lia|]. cbn [orb].
  do 2 f_equal.
  - rewrite !app_assoc. rewrite slice_app_r by (autorewrite with zlen; cbn; lia). autorewrite with zlen. replace (8 - _) with 0 by (cbn; lia).
    replace (8 + zlen payload - 8) with (zlen payload) by lia. apply slice_full.
  - unfold f. by apply slice_mid.
Qed.

(** Whatever is put in a frame for a port, the receive loop takes out of it, with the
    sender's address. *)
Lemma frame_arrives cfg payload dmac port frame :
  config_ok cfg → zlen dmac = 6 → zlen payload ≤ UDP_MAX → 0 ≤ port < 2 ^ 16 →
  build_udp_unicast_frame cfg payload dmac port = Some frame → udp_payload port frame = Some (payload, mac cfg).
Proof.
  intros (Hip & Hmac & Hnz) Hd Hp Hport. unfold build_udp_unicast_frame. rewrite bool_decide_false by done. cbn [orb].
  case_bool_decide as Hnil; [done|]. intros E. apply (inj Some) in E as <-. pose proof (zlen_sender_ip _ Hip) as Hs.
  apply udp_payload_frame; try done; [by apply zlen_ip_header|apply ip_header_bytes; done..].
Qed.

(** A node without an address sends nothing, and an empty payload is not sent. *)
Lemma frame_some cfg payload dmac port : config_ok cfg → payload ≠ [] → is_Some (build_udp_unicast_frame cfg payload dmac port).
Proof. intros (_ & _ & Hnz) Hp. unfold build_udp_unicast_frame. rewrite !bool_decide_false by done. eauto. Qed.

End Wire.
