(* ===== verification/SgdbCrdt.v ===== *)
(** Replication of the semantic graph database: the last-writer-wins envelope
    ([k_ai/src/sgdb/crdt_merge.rs]) and the node that exchanges it
    ([k_ai/src/sgdb/crdt_sync.rs]). *)

From S2P Require Import Prelude SgdbDoc MeshWire.
From Stdlib Require Import Sorting.Permutation.

Module Crdt.

(** * The envelope *)

Definition HDR_LEN : Z := 5 + 8.
Definition CRDT_TAG : bytes := as_bytes "CRDT" ++ [Byte.x00].
Definition CONFLICT_SEP : bytes := Byte.x0a :: as_bytes "<CRDT-CONFLICT>" ++ [Byte.x0a].

Inductive MergeKind := KeepLocal | AdoptRemote | ConflictBoth.

Record MergeResult := mkMerge { kind : MergeKind; version : Z; payload : bytes }.

Definition parse_crdt_body (p : bytes) : option (Z * bytes) :=
  if negb (bool_decide (slice 0 5 p = CRDT_TAG)) || (zlen p <? HDR_LEN) then None else
  Some (from_le_bytes (slice 5 8 p), drop (Z.to_nat HDR_LEN) p).

Definition merge_lww (local_v : Z) (local : bytes) (remote_v : Z) (remote : bytes) : MergeResult :=
  if local_v <? remote_v then mkMerge AdoptRemote remote_v remote
  else if remote_v <? local_v then mkMerge KeepLocal local_v local
  else if bool_decide (local = remote) then mkMerge KeepLocal local_v local
  else mkMerge ConflictBoth local_v (local ++ CONFLICT_SEP ++ remote).

(** * The node *)

Definition SYNC_INTERVAL_TICKS : Z := 200.

Inductive NodeRole := Master | Memory | Compute | Worker | Undecided.

#[global] Instance NodeRole_eq_dec : EqDecision NodeRole.
Proof. solve_decision. Defined.

Record CrdtMemorySync := mkSync {
  active : bool; last_sync_tick : Z; local_version : Z; node_versions : list (Z * Z); local_blob : bytes }.

Definition new : CrdtMemorySync := mkSync false 0 0 [] [].

Definition record_change (s : CrdtMemorySync) : CrdtMemorySync :=
  mkSync (active s) (last_sync_tick s) (u64_sat_add (local_version s) 1) (node_versions s) (local_blob s).

Fixpoint upsert (node v : Z) (l : list (Z * Z)) : list (Z * Z) :=
  match l with
  | [] => [(node, v)]
  | (n, w) :: l' => if n =? node then (n, v) :: l' else (n, w) :: upsert node v l'
  end.

Definition upsert_peer_version (node v : Z) (s : CrdtMemorySync) : CrdtMemorySync :=
  mkSync (active s) (last_sync_tick s) (local_version s) (upsert node v (node_versions s)) (local_blob s).

Definition set_content (v : Z) (b : bytes) (s : CrdtMemorySync) : CrdtMemorySync :=
  mkSync (active s) (last_sync_tick s) v (node_versions s) b.

(** The documents handed to the engine's merge. *)
Definition apply_blob_to_sgdb (blob : bytes) : list Doc.MemoryDoc :=
  omap (λ f, match Doc.decode f with Ok d => Some d | _ => None end) (Doc.iterate_nmd1_frames blob).

(** An inference packet that passed the parser: its source and what follows the header. *)
Definition on_packet (role : NodeRole) (source : Z) (body : bytes) (s : CrdtMemorySync) : CrdtMemorySync * list Doc.MemoryDoc :=
  match parse_crdt_body body with
  | None => (s, [])
  | Some (v, blob) =>
      match role with
      | Master => (upsert_peer_version source v s, apply_blob_to_sgdb blob)
      | Worker =>
          let m := merge_lww (local_version s) (local_blob s) v blob in
          (match kind m with
           | KeepLocal => s
           | AdoptRemote => set_content (version m) (payload m) s
           | ConflictBoth => set_content (local_version s) (payload m) s
           end, apply_blob_to_sgdb blob)
      | _ => (s, [])
      end
  end.

Definition TOPIC_P2P_PACKET : string := "P2P_PACKET".

(** What the loop goes on with: an event of the packets' topic whose payload parses as an
    inference packet, as the source and what follows the header. *)
Definition crdt_packet (e : string * bytes) : option (Z * bytes) :=
  let '(topic, payload) := e in
  if negb (bool_decide (topic = TOPIC_P2P_PACKET)) then None else
  match Wire.parse payload with
  | None => None
  | Some pkt =>
      if negb (Wire.task_type pkt =? Wire.TaskType_u8 Wire.Inference) then None else
      Some (Wire.source_id pkt, if Wire.PACKET_HEADER_SIZE <? zlen payload then drop (Z.to_nat Wire.PACKET_HEADER_SIZE) payload else [])
  end.

(** [events] is what the subscription's queue holds, as topic and payload. *)
Fixpoint drain_crdt_events (role : NodeRole) (events : list (string * bytes)) (s : CrdtMemorySync) : CrdtMemorySync * list Doc.MemoryDoc :=
  match events with
  | [] => (s, [])
  | e :: rest =>
      let '(s1, ds) := match crdt_packet e with Some (source, body) => on_packet role source body s | None => (s, []) end in
      let '(s2, ds') := drain_crdt_events role rest s1 in (s2, ds ++ ds')
  end.

Definition crdt_body (v : Z) (blob : bytes) : bytes := CRDT_TAG ++ to_le_bytes 8 v ++ blob.

(** What the node publishes, before the packet header and the signature. [exported] is
    what the engine exports. *)
Definition sync_exchange (role : NodeRole) (events : list (string * bytes)) (exported : bytes) (s : CrdtMemorySync) : CrdtMemorySync * bytes * list Doc.MemoryDoc :=
  let '(s1, ds) := drain_crdt_events role events s in
  let s2 := if bool_decide (local_blob s1 = []) && negb (bool_decide (exported = [])) then set_content (local_version s1) exported s1 else s1 in
  (s2, crdt_body (local_version s2) (local_blob s2), ds).

(** [now] is the timer; the result carries the published body, if any. *)
Definition crdt_sync (role : NodeRole) (now : Z) (events : list (string * bytes)) (exported : bytes) (s : CrdtMemorySync) : CrdtMemorySync * option bytes * list Doc.MemoryDoc :=
  if decide (role = Undecided) then (mkSync false (last_sync_tick s) (local_version s) (node_versions s) (local_blob s), None, []) else
  let s1 := mkSync true (last_sync_tick s) (local_version s) (node_versions s) (local_blob s) in
  if negb (last_sync_tick s1 =? 0) && (u64_sub now (last_sync_tick s1) <? SYNC_INTERVAL_TICKS) then (s1, None, []) else
  let '(s2, out, ds) := sync_exchange role events exported (mkSync true now (local_version s1) (node_versions s1) (local_blob s1)) in
  (s2, Some out, ds).

(** * Theorems *)

(** ** The envelope reads back *)

Lemma parse_body v blob : 0 ≤ v < 2 ^ 64 → parse_crdt_body (crdt_body v blob) = Some (v, blob).
Proof.
  intros Hv. unfold parse_crdt_body, crdt_body. rewrite slice_app_exact by done. rewrite bool_decide_true by done. cbn [negb orb].
  rewrite !zlen_app, zlen_to_le_bytes. change (zlen CRDT_TAG) with 5. pose proof (zlen_nonneg blob). unfold HDR_LEN. rewrite (proj2 (Z.ltb_ge _ _)) by lia.
  rewrite (slice_mid CRDT_TAG (to_le_bytes 8 v) blob 5 8) by (done || by rewrite zlen_to_le_bytes). rewrite from_to_le_bytes by done. do 2 f_equal.
Qed.

(** ** Merging is a join *)

(** A replica's content and the merge of a received one. *)
Definition merge (s r : Z * bytes) : Z * bytes :=
  let m := merge_lww s.1 s.2 r.1 r.2 in
  match kind m with KeepLocal => s | AdoptRemote => (version m, payload m) | ConflictBoth => (s.1, payload m) end.

(** No two of the contents disagree at the same version. *)
Definition consistent (l : list (Z * bytes)) : Prop := ∀ x y, x ∈ l → y ∈ l → x.1 = y.1 → x = y.

Lemma merge_max s r : (s.1 = r.1 → s = r) → merge s r = if s.1 <? r.1 then r else s.
Proof.
  intros Hc. unfold merge, merge_lww. destruct (Z.ltb_spec s.1 r.1); [by destruct r|]. destruct (Z.ltb_spec r.1 s.1); [done|].
  rewrite bool_decide_true; [done|]. rewrite Hc; [done|lia].
Qed.

Lemma merge_all l s :
  consistent (s :: l) → let x := foldl merge s l in x ∈ s :: l ∧ Forall (λ y, y.1 ≤ x.1) (s :: l).
Proof.
  revert s. induction l as [|r l IH]; intros s Hc; cbn [foldl].
  { split; [left|repeat constructor; lia]. }
  assert (Hm : merge s r = if s.1 <? r.1 then r else s) by (apply merge_max; intros; apply Hc; [left|right; left|done]).
  assert (Hin : merge s r ∈ s :: r :: l) by (rewrite Hm; destruct (s.1 <? r.1); [right|]; left).
  destruct (IH (merge s r)) as [Hx Hall].
  { intros x y Hx Hy. apply Hc.
    - apply elem_of_cons in Hx as [->|Hx]; [done|by do 2 right].
    - apply elem_of_cons in Hy as [->|Hy]; [done|by do 2 right]. }
  split; [apply elem_of_cons in Hx as [->|Hx]; [done|by do 2 right]|].
  apply Forall_cons in Hall as [Hm1 Hall]. rewrite !Forall_cons. split_and!; [| |done]; revert Hm1; rewrite Hm; destruct (Z.ltb_spec s.1 r.1); lia.
Qed.

Definition content (s : CrdtMemorySync) : Z * bytes := (local_version s, local_blob s).

Lemma worker_body source body v blob s :
  parse_crdt_body body = Some (v, blob) → content (on_packet Worker source body s).1 = merge (content s) (v, blob).
Proof.
  intros E. unfold on_packet. rewrite E. unfold merge, content. cbn [fst snd].
  unfold merge_lww. destruct (_ <? _); [done|]. destruct (_ <? _); [done|]. by case_bool_decide.
Qed.

Lemma worker_packet source v blob s :
  0 ≤ v < 2 ^ 64 → content (on_packet Worker source (crdt_body v blob) s).1 = merge (content s) (v, blob).
Proof. intros Hv. by apply worker_body, parse_body. Qed.

(** The updates among the events: source, version and contents. *)
Definition update_of (e : string * bytes) : option (Z * (Z * bytes)) :=
  '(source, body) ← crdt_packet e; '(v, blob) ← parse_crdt_body body; Some (source, (v, blob)).

Definition updates (events : list (string * bytes)) : list (Z * (Z * bytes)) := omap update_of events.

(** What [sync_exchange] sends, as an event on the receiver's bus: the receive gate has
    removed the signature. *)
Definition published (source clock v : Z) (blob : bytes) : string * bytes :=
  (TOPIC_P2P_PACKET, Wire.serialize (Wire.AiosTaskPacket_new clock source 0xFF Wire.Inference 1 0 0 Wire.PacketFlags_new) ++ crdt_body v blob).

Lemma update_of_published source clock v blob :
  0 ≤ source < 2 ^ 8 → 0 ≤ clock < 2 ^ 64 → 0 ≤ v < 2 ^ 64 → update_of (published source clock v blob) = Some (source, (v, blob)).
Proof.
  intros Hs Hc Hv. unfold update_of, published, crdt_packet. rewrite bool_decide_true by done. cbn [negb]. set (pkt := Wire.AiosTaskPacket_new _ _ _ _ _ _ _ _).
  assert (Hz : zlen (crdt_body v blob) = 13 + zlen blob) by (unfold crdt_body; rewrite !zlen_app, zlen_to_le_bytes; change (zlen CRDT_TAG) with 5; lia).
  assert (Hok : Wire.packet_ok pkt) by (split; cbn; split_and?; done || lia).
  rewrite Wire.parse_serialize by done. cbn [negb Wire.task_type Wire.source_id pkt Wire.AiosTaskPacket_new]. rewrite Z.eqb_refl. cbn [negb].
  assert (Hh : zlen (Wire.serialize pkt) = Wire.PACKET_HEADER_SIZE) by by apply Wire.zlen_serialize.
  rewrite zlen_app, Hh, (proj2 (Z.ltb_lt _ _)) by (pose proof (zlen_nonneg blob); lia). cbn [mbind option_bind].
  rewrite drop_app_length' by (unfold zlen in Hh; lia). by rewrite parse_body.
Qed.

Lemma worker_event e s :
  content match crdt_packet e with Some (source, body) => on_packet Worker source body s | None => (s, []) end.1 =
  match update_of e with Some x => merge (content s) x.2 | None => content s end.
Proof.
  unfold update_of. destruct (crdt_packet e) as [[source body]|]; [|done]. cbn [mbind option_bind]. destruct (parse_crdt_body body) as [[v blob]|] eqn:E; cbn [mbind option_bind snd].
  - by apply worker_body.
  - unfold on_packet. by rewrite E.
Qed.

Lemma worker_drain events s : content (drain_crdt_events Worker events s).1 = foldl merge (content s) (updates events).*2.
Proof.
  revert s. induction events as [|e events IH]; intros s; [done|]. cbn [drain_crdt_events updates omap list_omap]. pose proof (worker_event e s) as Hp.
  destruct (match crdt_packet e with Some (source, body) => _ | None => _ end) as [s1 ds]. cbn [fst] in Hp.
  assert (Hs : foldl merge (content s) (match update_of e with Some x => x :: updates events | None => updates events end).*2 = foldl merge (content s1) (updates events).*2).
  { rewrite Hp. by destruct (update_of e). }
  unfold updates in Hs. rewrite Hs, <-IH. by destruct (drain_crdt_events Worker events s1).
Qed.

(** C37: Replicas converge. Two workers that start from the same version and the same
    content and whose queues hold the same set of updates, each in any order, with any
    repetitions, from any sources and among any other events, end with the same version and
    the same content, namely the update with the highest version (or the content they
    started from, if none is newer), provided that no two of the updates, nor an update and
    the content they started from, disagree at the same version. *)
Theorem workers_converge s1 s2 e1 e2 :
  content s1 = content s2 → (∀ x, x ∈ (updates e1).*2 ↔ x ∈ (updates e2).*2) → consistent (content s1 :: (updates e1).*2) →
  let c1 := content (drain_crdt_events Worker e1 s1).1 in
  let c2 := content (drain_crdt_events Worker e2 s2).1 in
  c1 = c2 ∧ Forall (λ x, x.1 ≤ c1.1) (content s1 :: (updates e1).*2) ∧ c1 ∈ content s1 :: (updates e1).*2.
Proof.
  intros Hs Hset Hc. cbv zeta. rewrite !worker_drain. rewrite <-Hs.
  destruct (merge_all (updates e1).*2 (content s1) Hc) as [Hin1 Hall1].
  assert (Hset' : ∀ x, x ∈ content s1 :: (updates e2).*2 → x ∈ content s1 :: (updates e1).*2).
  { intros x [->|Hx]%elem_of_cons; [left|right; by apply Hset]. }
  destruct (merge_all (updates e2).*2 (content s1)) as [Hin2 Hall2]; [intros x y Hx Hy; apply Hc; by apply Hset'|].
  split_and!; [|done|done]. apply Hc; [done|by apply Hset'|]. rewrite Forall_forall in Hall1, Hall2.
  assert (Hset2 : foldl merge (content s1) (updates e1).*2 ∈ content s1 :: (updates e2).*2).
  { apply elem_of_cons in Hin1 as [->|Hx]; [left|right; by apply Hset]. }
  pose proof (Hall1 _ (Hset' _ Hin2)). pose proof (Hall2 _ Hset2). cbn in *. lia.
Qed.

Lemma workers_converge_witness :
  content (drain_crdt_events Worker [published 1 7 3 (as_bytes "b"); ("OTHER", []); published 2 8 5 (as_bytes "c")] new).1 =
  content (drain_crdt_events Worker [published 2 9 5 (as_bytes "c"); published 1 10 3 (as_bytes "b"); published 2 8 5 (as_bytes "c")] new).1.
Proof.
  assert (E1 : updates [published 1 7 3 (as_bytes "b"); ("OTHER", []); published 2 8 5 (as_bytes "c")] = [(1, (3, as_bytes "b")); (2, (5, as_bytes "c"))]) by by vm_compute.
  assert (E2 : updates [published 2 9 5 (as_bytes "c"); published 1 10 3 (as_bytes "b"); published 2 8 5 (as_bytes "c")] = [(2, (5, as_bytes "c")); (1, (3, as_bytes "b")); (2, (5, as_bytes "c"))]) by by vm_compute.
  apply (workers_converge new new); rewrite ?E1, ?E2.
  - reflexivity.
  - intros x. cbn. set_solver.
  - intros x y. cbn. rewrite !elem_of_cons, !elem_of_nil. naive_solver.
Defined.

(** ** Conflicts *)

(** Two workers receive each other's last publication. *)
Definition swap (st : CrdtMemorySync * CrdtMemorySync) : CrdtMemorySync * CrdtMemorySync :=
  let '(a, b) := st in
  ((on_packet Worker 2 (crdt_body (local_version b) (local_blob b)) a).1,
   (on_packet Worker 1 (crdt_body (local_version a) (local_blob a)) b).1).

Lemma swap_conflict a b :
  local_version a = local_version b → 0 ≤ local_version a < 2 ^ 64 → local_blob a ≠ local_blob b → zlen (local_blob a) = zlen (local_blob b) →
  let '(a', b') := swap (a, b) in
  local_version a' = local_version a ∧ local_version b' = local_version a ∧ local_blob a' ≠ local_blob b' ∧
  zlen (local_blob a') = 2 * zlen (local_blob a) + 17 ∧ zlen (local_blob b') = 2 * zlen (local_blob a) + 17.
Proof.
  intros Hv Hr Hne Hz. unfold swap. pose proof (worker_packet 2 (local_version b) (local_blob b) a) as Ha. pose proof (worker_packet 1 (local_version a) (local_blob a) b) as Hb.
  specialize (Ha ltac:(lia)). specialize (Hb Hr). unfold merge, merge_lww, content in Ha, Hb. cbn [fst snd] in Ha, Hb.
  rewrite !(proj2 (Z.ltb_ge _ _)), bool_decide_false in Ha by (done || lia). rewrite !(proj2 (Z.ltb_ge _ _)), bool_decide_false in Hb by (done || lia).
  pose proof (f_equal fst Ha) as Hav. pose proof (f_equal snd Ha) as Hab. pose proof (f_equal fst Hb) as Hbv. pose proof (f_equal snd Hb) as Hbb.
  cbn [fst snd kind payload] in Hav, Hab, Hbv, Hbb. rewrite Hav, Hbv, Hab, Hbb. split_and!; [done|done| | |].
  - intros E. apply app_inj_1 in E as [E _]; [done|]. unfold zlen in Hz. lia.
  - rewrite !zlen_app. change (zlen CONFLICT_SEP) with 17. lia.
  - rewrite !zlen_app. change (zlen CONFLICT_SEP) with 17. lia.
Qed.

(** A conflict never heals. Two workers with different contents of the same length at
    the same version, each receiving what the other publishes, still disagree after
    any number of rounds, at the same version, and their contents more than double in
    every round: each joins both sides, in its own order, and publishes the result as
    a new conflicting content. *)
Theorem conflict_grows_forever a b (n : nat) :
  local_version a = local_version b → 0 ≤ local_version a < 2 ^ 64 → local_blob a ≠ local_blob b → zlen (local_blob a) = zlen (local_blob b) →
  let '(a', b') := Nat.iter n swap (a, b) in
  local_version a' = local_version a ∧ local_version b' = local_version a ∧ local_blob a' ≠ local_blob b' ∧
  zlen (local_blob a') = 2 ^ Z.of_nat n * (zlen (local_blob a) + 17) - 17 ∧ zlen (local_blob b') = zlen (local_blob a').
Proof.
  intros Hv Hr Hne Hz. induction n as [|n IH]; [cbn; split_and!; (done || lia)|]. rewrite Nat.iter_succ.
  destruct (Nat.iter n swap (a, b)) as [a1 b1]. destruct IH as (Ha & Hb & Hd & Hl & Hl').
  pose proof (swap_conflict a1 b1 ltac:(congruence) ltac:(lia) Hd ltac:(lia)) as Hs. destruct (swap (a1, b1)) as [a2 b2].
  destruct Hs as (Ha2 & Hb2 & Hd2 & Hl2 & Hl2'). rewrite Nat2Z.inj_succ, Z.pow_succ_r by lia. split_and!; [congruence|congruence|done|lia|lia].
Qed.

Definition demo_node (b : string) : CrdtMemorySync := mkSync true 0 4 [] (as_bytes b).

Lemma conflict_grows_forever_witness :
  local_blob (Nat.iter 3 swap (demo_node "left", demo_node "rite")).1 ≠ local_blob (Nat.iter 3 swap (demo_node "left", demo_node "rite")).2.
Proof.
  pose proof (conflict_grows_forever (demo_node "left") (demo_node "rite") 3 eq_refl ltac:(cbn; lia) ltac:(by vm_compute) eq_refl) as H.
  destruct (Nat.iter 3 swap (demo_node "left", demo_node "rite")) as [a b]. exact (proj1 (proj2 (proj2 H))).
Defined.

End Crdt.
