(* ===== verification/MeshPeers.v ===== *)
(** What a node of the mesh remembers about its peers: keys, clocks, addresses,
    capabilities and health, and the policies derived from them
    ([k_nano/src/net/mesh.rs]). *)

From S2P Require Import Prelude.
From Stdlib Require Import Sorting.Sorted Sorting.Permutation.

Module Peers.

(** * Tables of slots

    [[Option<(u8, V)>; 16]], searched from the front. *)

Section Slots.
Context {V : Type}.
Definition Slots : Type := list (option (Z * V)).

(** [for slot in table.iter() { if let Some((nid, v)) = slot { if *nid == id { return Some(v) } } }] *)
Fixpoint slot_get (id : Z) (t : Slots) : option V :=
  match t with
  | [] => None
  | Some (nid, v) :: t => if nid =? id then Some v else slot_get id t
  | None :: t => slot_get id t
  end.

(** The same search over [iter_mut], changing the slot it finds. *)
Fixpoint slot_alter (f : V → option V) (id : Z) (t : Slots) : option Slots :=
  match t with
  | [] => None
  | Some (nid, v) :: t => if nid =? id then Some (((λ v, (nid, v)) <$> f v) :: t) else cons (Some (nid, v)) <$> slot_alter f id t
  | None :: t => cons None <$> slot_alter f id t
  end.

(** [for slot in table.iter_mut() { if slot.is_none() { *slot = Some((id, v)); ... } }] *)
Fixpoint slot_fill (id : Z) (v : V) (t : Slots) : option Slots :=
  match t with
  | [] => None
  | Some e :: t => cons (Some e) <$> slot_fill id v t
  | None :: t => Some (Some (id, v) :: t)
  end.

(** Update the slot of [id]; without one, take the first free slot; without one of
    those, give up. *)
Definition slot_set (f : V → V) (id : Z) (v : V) (t : Slots) : Slots :=
  match slot_alter (λ v, Some (f v)) id t with
  | Some t => t
  | None => default t (slot_fill id v t)
  end.

(** The identifiers in use, at most one slot each. *)
Definition slot_ids (t : Slots) : list Z := fst <$> omap id t.
Definition slots_ok (t : Slots) : Prop := NoDup (slot_ids t).

Lemma slot_get_None i t : slot_get i t = None ↔ i ∉ slot_ids t.
Proof.
  unfold slot_ids. induction t as [|[[n v]|] t IH]; cbn; [split; [intros _ ?%elem_of_nil|]; done| |done].
  rewrite not_elem_of_cons. destruct (Z.eqb_spec n i) as [->|]; [naive_solver|]. rewrite IH. naive_solver.
Qed.

Lemma slot_alter_None f i t : slot_alter f i t = None ↔ slot_get i t = None.
Proof.
  induction t as [|[[n v]|] t IH]; cbn; [done| |]; [destruct (n =? i); [done|]|];
    (rewrite <-IH; destruct (slot_alter f i t); cbn; naive_solver).
Qed.

Lemma slot_get_alter (f : V → V) i j t t' :
  slot_alter (λ v, Some (f v)) i t = Some t' → slot_get j t' = if j =? i then f <$> slot_get i t else slot_get j t.
Proof.
  revert t'. induction t as [|[[n v]|] t IH]; cbn; intros t' E; [done| |].
  - destruct (Z.eqb_spec n i) as [->|Hn].
    + injection E as <-. cbn. rewrite (Z.eqb_sym i j). by destruct (Z.eqb_spec j i) as [->|].
    + destruct (slot_alter _ i t) as [u|]; [|done]. injection E as <-. cbn. rewrite (IH u) by done. destruct (Z.eqb_spec n j) as [->|]; [|done].
      by destruct (Z.eqb_spec j i).
  - destruct (slot_alter _ i t) as [u|]; [|done]. injection E as <-. cbn. by apply IH.
Qed.

Lemma slot_ids_alter (f : V → V) i t t' : slot_alter (λ v, Some (f v)) i t = Some t' → slot_ids t' = slot_ids t.
Proof.
  unfold slot_ids. revert t'. induction t as [|[[n v]|] t IH]; cbn; intros t' E; [done| |].
  - destruct (n =? i); [by injection E as <-|]. destruct (slot_alter _ i t) as [u|]; [|done]. injection E as <-. cbn. by rewrite (IH u).
  - destruct (slot_alter _ i t) as [u|]; [|done]. injection E as <-. cbn. by apply IH.
Qed.

Lemma slot_get_fill i v j t t' :
  slot_fill i v t = Some t' → slot_get i t = None → slot_get j t' = if j =? i then Some v else slot_get j t.
Proof.
  revert t'. induction t as [|[[n w]|] t IH]; cbn; intros t' E Hn; [done| |].
  - destruct (Z.eqb_spec n i) as [|Hni]; [done|]. destruct (slot_fill i v t) as [u|]; [|done]. injection E as <-. cbn. rewrite (IH u) by done.
    destruct (Z.eqb_spec n j) as [->|]; [|done]. by destruct (Z.eqb_spec j i).
  - injection E as <-. cbn. rewrite (Z.eqb_sym i j). done.
Qed.

Lemma slot_ids_fill i v t t' : slot_fill i v t = Some t' → slot_ids t' ≡ₚ i :: slot_ids t.
Proof.
  unfold slot_ids. revert t'. induction t as [|[[n w]|] t IH]; cbn; intros t' E; [done| |].
  - destruct (slot_fill i v t) as [u|]; [|done]. injection E as <-. cbn. rewrite (IH u) by done. apply Permutation_swap.
  - by injection E as <-.
Qed.

Lemma slot_fill_None i v t : slot_fill i v t = None ↔ Forall is_Some t.
Proof.
  induction t as [|[e|] t IH]; cbn; [by split| |].
  - rewrite Forall_cons, <-IH. destruct (slot_fill i v t); cbn; naive_solver.
  - rewrite Forall_cons. naive_solver eauto using is_Some_None.
Qed.

Lemma slot_get_set f i v j t :
  slot_get j (slot_set f i v t) =
    if j =? i then match slot_get i t with Some w => Some (f w) | None => if bool_decide (Forall is_Some t) then None else Some v end else slot_get j t.
Proof.
  unfold slot_set. destruct (slot_alter _ i t) as [u|] eqn:E.
  - rewrite (slot_get_alter f i j t u E). destruct (Z.eqb_spec j i) as [->|]; [|done].
    destruct (slot_get i t) eqn:G; [done|]. by apply (slot_alter_None (λ v, Some (f v))) in G; rewrite E in G.
  - apply slot_alter_None in E. rewrite E. destruct (slot_fill i v t) as [u|] eqn:F; cbn.
    + rewrite (slot_get_fill i v j t u F E). rewrite bool_decide_false; [done|]. intros H. apply (slot_fill_None i v) in H. by rewrite F in H.
    + apply slot_fill_None in F. rewrite bool_decide_true by done. by destruct (Z.eqb_spec j i) as [->|].
Qed.

Lemma slots_ok_set f i v t : slots_ok t → slots_ok (slot_set f i v t).
Proof.
  unfold slots_ok, slot_set. intros Hok. destruct (slot_alter _ i t) as [u|] eqn:E; [by rewrite (slot_ids_alter f i t u E)|].
  apply slot_alter_None, slot_get_None in E. destruct (slot_fill i v t) as [u|] eqn:F; [|done]. cbn. rewrite (slot_ids_fill _ _ _ _ F). by constructor.
Qed.

Lemma length_slot_set f i v t : length (slot_set f i v t) = length t.
Proof.
  unfold slot_set. destruct (slot_alter _ i t) as [u|] eqn:E; cbn.
  - revert u E. induction t as [|[[n w]|] t IH]; cbn; intros u E; [done| |].
    + destruct (n =? i); [by injection E as <-|]. destruct (slot_alter _ i t); [|done]. injection E as <-. cbn. by rewrite IH.
    + destruct (slot_alter _ i t); [|done]. injection E as <-. cbn. by rewrite IH.
  - destruct (slot_fill i v t) as [u|] eqn:F; [|done]. cbn. clear E. revert u F. induction t as [|[e|] t IH]; cbn; intros u F; [done| |].
    + destruct (slot_fill i v t); [|done]. injection F as <-. cbn. by rewrite IH.
    + by injection F as <-.
Qed.
End Slots.
Arguments Slots V : clear implicits.

(** * Keys and clocks (trust on first use) *)

Definition PUBLIC_KEY_LEN : Z := 32.
Definition TOFU_SETTLE_TICKS : Z := 130.

(** [PEER_KEYS]: node, public key, last accepted clock *)
Record Keys := mkKeys { PEER_KEYS : Slots (bytes * Z); FIRST_PEER_TICK : Z; FORCE_HEARTBEAT : bool }.

Definition peer_pk (node_id : Z) (k : Keys) : option bytes := fst <$> slot_get node_id (PEER_KEYS k).
Definition peer_public_key (node_id : Z) (k : Keys) : option bytes := peer_pk node_id k.
Definition peer_last_clock (node_id : Z) (k : Keys) : option Z := snd <$> slot_get node_id (PEER_KEYS k).

Definition peer_bind (node_id : Z) (pk : bytes) (k : Keys) : Keys :=
  match slot_alter (λ _, Some (pk, 0)) node_id (PEER_KEYS k) with
  | Some t => mkKeys t (FIRST_PEER_TICK k) (FORCE_HEARTBEAT k)
  | None =>
    match slot_fill node_id (pk, 0) (PEER_KEYS k) with
    | Some t => mkKeys t (FIRST_PEER_TICK k) true
    | None => k
    end
  end.

Definition peer_update_clock (node_id clk : Z) (k : Keys) : Keys :=
  mkKeys (default (PEER_KEYS k) (slot_alter (λ e, Some (e.1, clk)) node_id (PEER_KEYS k))) (FIRST_PEER_TICK k) (FORCE_HEARTBEAT k).

Definition peer_tofu_count (k : Keys) : Z := zlen (omap id (PEER_KEYS k)).

Definition tofu_settled (now : Z) (k : Keys) : bool :=
  if (FIRST_PEER_TICK k =? 0) || (peer_tofu_count k =? 0) then false else TOFU_SETTLE_TICKS <=? u64_sub now (FIRST_PEER_TICK k).

Definition note_first_peer_discovered (now : Z) (k : Keys) : Keys :=
  mkKeys (PEER_KEYS k) (if FIRST_PEER_TICK k =? 0 then now else FIRST_PEER_TICK k) true.

(** * Addresses

    [peer_set_mac] publishes a [NET_EVENT] whose text carries the node and the
    address; the model keeps the two values. *)

Record Macs := mkMacs { PEER_MAC_CACHE : Slots bytes; NET_EVENTS : list (Z * bytes) }.

Definition peer_mac (node_id : Z) (m : Macs) : option bytes := slot_get node_id (PEER_MAC_CACHE m).

Definition peer_set_mac (node_id : Z) (mac : bytes) (m : Macs) : Macs :=
  match slot_alter (λ _, Some mac) node_id (PEER_MAC_CACHE m) with
  | Some t =>
    let old_mac := default (replicate 6 Byte.x00) (slot_get node_id (PEER_MAC_CACHE m)) in
    mkMacs t (NET_EVENTS m ++ if negb (bool_decide (old_mac = replicate 6 Byte.x00)) && negb (bool_decide (old_mac = mac)) then [(node_id, mac)] else [])
  | None =>
    match slot_fill node_id mac (PEER_MAC_CACHE m) with
    | Some t => mkMacs t (NET_EVENTS m ++ [(node_id, mac)])
    | None => m
    end
  end.

(** * Capabilities *)

Definition CAP_LLM : Z := 1.
Definition CAP_COMPUTE : Z := 8.
Definition CAP_MEMORY : Z := 16.

Definition peer_caps (node_id : Z) (t : Slots Z) : option Z := slot_get node_id t.
Definition peer_set_caps (node_id caps : Z) (t : Slots Z) : Slots Z := slot_set (λ _, caps) node_id caps t.

(** * Rate limiting *)

Definition TOKEN_BUCKET_REFILL_PER_TICK : Z := 1.
Definition TOKEN_BUCKET_MAX_TOKENS : Z := 20.
Definition TOKEN_BUCKET_COST_HEARTBEAT : Z := 1.
Definition TOKEN_BUCKET_COST_DATA : Z := 3.

Definition token_bucket_try_consume (cost now : Z) (bucket : Z * Z) : bool * (Z * Z) :=
  let '(tokens, last_refill) := bucket in
  let elapsed := u64_sub now last_refill in
  let tokens :=
    if 0 <? elapsed then
      let refill := Z.min (elapsed mod 2 ^ 32 * TOKEN_BUCKET_REFILL_PER_TICK) U32_MAX in
      Z.min ((tokens + refill) mod 2 ^ 32) TOKEN_BUCKET_MAX_TOKENS
    else tokens in
  if cost <=? tokens then (true, (tokens - cost, now)) else (false, (tokens, last_refill)).

(** * Health *)

Definition CIRCUIT_BREAKER_THRESHOLD : Z := 3.
Definition UNREACHABLE_COOLDOWN_TICKS : Z := 3000.
Definition PROBE_BASE_TIMEOUT_TICKS : Z := 50.
Definition PROBE_MAX_TIMEOUT_TICKS : Z := 3200.
Definition PROBE_MAX_FAILURES : Z := 5.
Definition PEER_HEALTH_TTL_TICKS : Z := 6000.
Definition PEER_DEGRADED_TICKS : Z := PEER_HEALTH_TTL_TICKS / 2.

Record PeerHealth := mkHealth {
  last_rtt_ticks : Z; consecutive_failures : Z; tx_count : Z; ack_count : Z; unreachable_since : Z; reachable : bool;
  probe_failures : Z; probe_timeout_ticks : Z; last_activity_ticks : Z; avg_rtt_ticks : Z;
  rtt_samples : list Z; rtt_sample_idx : Z; rtt_sample_count : Z }.

Definition peer_health (node_id : Z) (t : Slots PeerHealth) : option PeerHealth := slot_get node_id t.

Definition health_success (rtt now : Z) (h : PeerHealth) : PeerHealth :=
  mkHealth rtt 0 (u64_add (tx_count h) 1) (u64_add (ack_count h) 1) 0 true 0 PROBE_BASE_TIMEOUT_TICKS now
    (if avg_rtt_ticks h =? 0 then rtt else u64_add (u64_sub (avg_rtt_ticks h) (Z.shiftr (avg_rtt_ticks h) 3)) (Z.shiftr rtt 3))
    (<[Z.to_nat (rtt_sample_idx h) := rtt]> (rtt_samples h)) ((rtt_sample_idx h + 1) mod 32)
    (if rtt_sample_count h <? 32 then u8_sat_add (rtt_sample_count h) 1 else rtt_sample_count h).

Definition health_first_success (rtt now : Z) : PeerHealth :=
  mkHealth rtt 0 1 1 0 true 0 PROBE_BASE_TIMEOUT_TICKS now rtt (<[0%nat := rtt]> (replicate 32 0)) 1 1.

Definition record_peer_success (node_id rtt now : Z) (t : Slots PeerHealth) : Slots PeerHealth :=
  slot_set (health_success rtt now) node_id (health_first_success rtt now) t.

Definition health_failure (now : Z) (h : PeerHealth) : PeerHealth :=
  mkHealth (last_rtt_ticks h) (u8_sat_add (consecutive_failures h) 1) (u64_add (tx_count h) 1) (ack_count h) (unreachable_since h) (reachable h)
    (probe_failures h) (probe_timeout_ticks h) now (avg_rtt_ticks h) (rtt_samples h) (rtt_sample_idx h) (rtt_sample_count h).

Definition health_first_failure (now : Z) : PeerHealth :=
  mkHealth 0 1 1 0 0 true 0 PROBE_BASE_TIMEOUT_TICKS now 0 (replicate 32 0) 0 0.

Definition health_unreachable (now : Z) (h : PeerHealth) : PeerHealth :=
  mkHealth (last_rtt_ticks h) (consecutive_failures h) (tx_count h) (ack_count h) now false
    (probe_failures h) (probe_timeout_ticks h) (last_activity_ticks h) (avg_rtt_ticks h) (rtt_samples h) (rtt_sample_idx h) (rtt_sample_count h).

(** The part of [mark_unreachable] that changes [PEER_HEALTH]. *)
Definition mark_health_unreachable (node_id now : Z) (t : Slots PeerHealth) : Slots PeerHealth :=
  default t (slot_alter (λ h, Some (health_unreachable now h)) node_id t).

(** The clock is read again by [mark_unreachable]: [now2]. The second result says
    whether it was called, for the part of it that changes the engine. *)
Definition record_peer_failure (node_id now now2 : Z) (t : Slots PeerHealth) : Slots PeerHealth * bool :=
  match slot_alter (λ h, Some (health_failure now h)) node_id t with
  | Some t' =>
    match slot_get node_id t' with
    | Some h => if CIRCUIT_BREAKER_THRESHOLD <=? consecutive_failures h then (mark_health_unreachable node_id now2 t', true) else (t', false)
    | None => (t', false)
    end
  | None => (default t (slot_fill node_id (health_first_failure now) t), false)
  end.

Definition peer_health_snapshot (t : Slots PeerHealth) : list (Z * PeerHealth) := omap id t.

Definition cleanup_peer_health_ttl (now : Z) (t : Slots PeerHealth) : Slots PeerHealth :=
  (λ slot, match slot with
           | Some (nid, h) => if PEER_HEALTH_TTL_TICKS <? u64_sub now (last_activity_ticks h) then None else Some (nid, h)
           | None => None
           end) <$> t.

(** ** The 99th percentile *)

Definition p99_index (count : Z) : Z := Z.max (Z.min ((count * 99 + 99) / 100) count - 1) 0.

(** [while j > 0 && samples[j - 1] > key { samples[j] = samples[j - 1]; j -= 1; } samples[j] = key;] *)
Fixpoint shift_key (key : Z) (j : nat) (samples : list Z) : list Z :=
  match j with
  | O => <[0%nat := key]> samples
  | S j' =>
    let prev := samples !!! j' in
    if key <? prev then shift_key key j' (<[j := prev]> samples) else <[j := key]> samples
  end.

Definition sort_samples (count : nat) (samples : list Z) : list Z :=
  fold_left (λ samples i, shift_key (samples !!! i) i samples) (seq 1 (count - 1)) samples.

Definition copy_window (h : PeerHealth) (count : nat) : list Z :=
  fold_left (λ samples i, <[i := rtt_samples h !!! Z.to_nat ((rtt_sample_idx h + 32 - Z.of_nat count + Z.of_nat i) mod 32)]> samples)
    (seq 0 count) (replicate 32 0).

(** A slot of the node with fewer than ten samples does not end the search. *)
Fixpoint peer_p99_rtt (node_id : Z) (t : Slots PeerHealth) : Z :=
  match t with
  | [] => 0
  | Some (nid, h) :: t =>
    if (nid =? node_id) && (10 <=? rtt_sample_count h) then
      let count := Z.to_nat (rtt_sample_count h) in
      sort_samples count (copy_window h count) !!! Z.to_nat (p99_index (rtt_sample_count h))
    else peer_p99_rtt node_id t
  | None :: t => peer_p99_rtt node_id t
  end.

(** ** Availability *)

Inductive PeerState := Available | Degraded | Unavailable.

Definition peer_state_from_health (h : PeerHealth) (now : Z) : PeerState :=
  let since := u64_sub now (last_activity_ticks h) in
  if negb (reachable h) || (CIRCUIT_BREAKER_THRESHOLD <=? consecutive_failures h) || (PEER_HEALTH_TTL_TICKS <? since) then Unavailable else
  if (0 <? consecutive_failures h) || (PEER_DEGRADED_TICKS <? since) then Degraded else Available.

Definition peer_state (node_id now : Z) (t : Slots PeerHealth) : option PeerState := (λ h, peer_state_from_health h now) <$> peer_health node_id t.

Definition peer_available (node_id now : Z) (t : Slots PeerHealth) : bool :=
  match peer_state node_id now t with Some (Available | Degraded) => true | _ => false end.

(** * Retries *)

Definition REFUSAL_BACKOFF_BASE_TICKS : Z := PROBE_BASE_TIMEOUT_TICKS.
Definition REFUSAL_BACKOFF_MAX_TICKS : Z := PROBE_MAX_TIMEOUT_TICKS.
Definition MAX_TASK_ATTEMPTS : Z := 3.

Definition backoff_delay_ticks (attempt base_ticks : Z) : Z :=
  let exp := Z.min attempt 31 in
  Z.min (u64_sat_mul base_ticks (Z.shiftl 1 exp)) REFUSAL_BACKOFF_MAX_TICKS.

Definition refusal_backoff_ticks (attempt base_ticks seed : Z) : Z :=
  let delay := backoff_delay_ticks attempt base_ticks in
  let span := delay / 4 in
  if span =? 0 then delay else
  let jitter := Z.shiftr (u64_add (u64_mul seed 6364136223846793005) 1442695040888963407) 33 mod (span + 1) in
  delay - jitter.

Definition attempt_allowed (attempts max_attempts : Z) : bool := attempts <? max_attempts.

(** * The circuit breaker *)

(** Outcomes of sends, with the readings of the clock. *)
Inductive Outcome := Acked (node_id rtt now : Z) | Failed (node_id now now2 : Z).

Definition apply_outcome (t : Slots PeerHealth) (o : Outcome) : Slots PeerHealth :=
  match o with
  | Acked i rtt now => record_peer_success i rtt now t
  | Failed i now now2 => (record_peer_failure i now now2 t).1
  end.

(** Failures of a node since its last success, after the [n] it started with. *)
Fixpoint streak (i n : Z) (os : list Outcome) : Z :=
  match os with
  | [] => n
  | Acked j _ _ :: os => streak i (if j =? i then 0 else n) os
  | Failed j _ _ :: os => streak i (if j =? i then n + 1 else n) os
  end.

Definition breaker_ok (n : Z) (h : PeerHealth) : Prop :=
  0 ≤ n ∧ consecutive_failures h = Z.min n 255 ∧ reachable h = (n <? CIRCUIT_BREAKER_THRESHOLD).

Lemma slot_get_alter' {V} (f : V → V) i j (t : Slots V) :
  slot_get j (default t (slot_alter (λ v, Some (f v)) i t)) = if j =? i then f <$> slot_get i t else slot_get j t.
Proof.
  destruct (slot_alter _ i t) as [u|] eqn:E; cbn; [by apply slot_get_alter|]. apply slot_alter_None in E. rewrite E. by destruct (Z.eqb_spec j i) as [->|].
Qed.

Lemma record_failure_get i now now2 j t h :
  slot_get i t = Some h →
  slot_get j (record_peer_failure i now now2 t).1 =
    if j =? i then Some (if CIRCUIT_BREAKER_THRESHOLD <=? consecutive_failures (health_failure now h) then health_unreachable now2 (health_failure now h) else health_failure now h)
    else slot_get j t.
Proof.
  intros Hg. unfold record_peer_failure. destruct (slot_alter _ i t) as [u|] eqn:E; [|apply slot_alter_None in E; congruence].
  pose proof (slot_get_alter (health_failure now) i i t u E) as Hi. rewrite Z.eqb_refl, Hg in Hi. cbn in Hi. rewrite Hi.
  pose proof (slot_get_alter (health_failure now) i j t u E) as Hj. rewrite Hg in Hj. cbn [fmap option_fmap option_map] in Hj.
  destruct (_ <=? _); cbn [fst]; [|done]. unfold mark_health_unreachable. rewrite slot_get_alter', Hi. by destruct (Z.eqb_spec j i) as [->|].
Qed.

Lemma record_failure_other i now now2 j t : j ≠ i → slot_get j (record_peer_failure i now now2 t).1 = slot_get j t.
Proof.
  intros Hn. destruct (slot_get i t) as [h|] eqn:G.
  - rewrite (record_failure_get i now now2 j t h G). by destruct (Z.eqb_spec j i).
  - unfold record_peer_failure. pose proof G as E. apply (slot_alter_None (λ h, Some (health_failure now h))) in E. rewrite E. cbn.
    destruct (slot_fill _ _ t) as [u|] eqn:F; [|done]. cbn. rewrite (slot_get_fill _ _ j _ _ F G). by destruct (Z.eqb_spec j i).
Qed.

Lemma outcome_breaker i n h t o :
  slot_get i t = Some h → breaker_ok n h → ∃ h', slot_get i (apply_outcome t o) = Some h' ∧ breaker_ok (streak i n [o]) h'.
Proof.
  intros Hg Hb. pose proof Hb as (Hn & Hc & Hr). destruct o as [j rtt now|j now now2]; cbn [apply_outcome streak].
  - unfold record_peer_success. rewrite slot_get_set. rewrite (Z.eqb_sym j i). destruct (Z.eqb_spec i j) as [<-|]; [|by eauto].
    rewrite Hg. eexists. split; [done|]. repeat split; done.
  - destruct (Z.eqb_spec j i) as [->|Hne]; [|rewrite record_failure_other by done; by eauto].
    rewrite (record_failure_get i now now2 i t h Hg), Z.eqb_refl. eexists. split; [done|]. unfold CIRCUIT_BREAKER_THRESHOLD in *. cbn [consecutive_failures health_failure].
    unfold u8_sat_add, U8_MAX. change (2 ^ 8 - 1) with 255. rewrite Hc.
    destruct (Z.leb_spec 3 (Z.min (Z.min n 255 + 1) 255)); split_and!; cbn [consecutive_failures reachable health_unreachable health_failure]; unfold u8_sat_add, U8_MAX, CIRCUIT_BREAKER_THRESHOLD; change (2 ^ 8 - 1) with 255; rewrite ?Hc, ?Hr; try lia.
Qed.

Lemma outcomes_breaker i os : ∀ n h t,
  slot_get i t = Some h → breaker_ok n h → ∃ h', slot_get i (fold_left apply_outcome os t) = Some h' ∧ breaker_ok (streak i n os) h'.
Proof.
  induction os as [|o os IH]; intros n h t Hg Hb; [by eauto|]. destruct (outcome_breaker i n h t o Hg Hb) as (h' & Hg' & Hb').
  destruct (IH _ _ _ Hg' Hb') as (h'' & Hg'' & Hb''). exists h''. split; [done|]. by destruct o.
Qed.

(** * The window of round-trip times *)

Lemma shift_key_spec key pre : ∀ x post,
  ∃ r, shift_key key (length pre) (pre ++ x :: post) = r ++ post ∧ r ≡ₚ key :: pre ∧ (StronglySorted Z.le pre → StronglySorted Z.le r).
Proof.
  induction pre as [|y pre IH] using rev_ind; intros x post.
  - exists [key]. split_and!; [done|done|]. intros _. by repeat constructor.
  - rewrite length_app. cbn [length]. rewrite Nat.add_1_r. cbn [shift_key]. rewrite <-app_assoc. cbn [app].
    rewrite list_lookup_total_middle by done.
    assert (Hins : ∀ v, <[S (length pre) := v]> (pre ++ y :: x :: post) = pre ++ y :: v :: post).
    { intros v. rewrite insert_app_r_alt by lia. replace (S (length pre) - length pre)%nat with 1%nat by lia. done. }
    rewrite !Hins. destruct (Z.ltb_spec key y).
    + destruct (IH y (y :: post)) as (r & -> & Hp & Hs). exists (r ++ [y]). split_and!; [by rewrite <-app_assoc|by rewrite Hp|].
      intros Hss. apply StronglySorted_app in Hss as (Hle & Hpre & _). apply StronglySorted_app. split_and!; [|by apply Hs|repeat constructor].
      intros a b Ha ->%list_elem_of_singleton. rewrite Hp in Ha. apply elem_of_cons in Ha as [-> | Ha]; [lia|]. apply (Hle a y); [done|by apply list_elem_of_singleton].
    + exists (pre ++ [y; key]). split_and!; [by rewrite <-app_assoc| |].
      * change (y :: [key]) with ([y] ++ [key]). rewrite app_assoc. apply Permutation_app_comm.
      * intros Hss. change ([y; key]) with ([y] ++ [key]). rewrite app_assoc. pose proof Hss as Hss'. apply StronglySorted_app in Hss as (Hle & _ & _).
        apply StronglySorted_app. split_and!; [|done|by repeat constructor]. intros a b Ha ->%list_elem_of_singleton. apply elem_of_app in Ha as [Ha| ->%list_elem_of_singleton]; [|lia].
        specialize (Hle a y Ha). rewrite list_elem_of_singleton in Hle. specialize (Hle eq_refl). lia.
Qed.

Lemma sort_samples_spec count : ∀ samples, (1 ≤ count ≤ length samples)%nat →
  ∃ r, sort_samples count samples = r ++ drop count samples ∧ r ≡ₚ take count samples ∧ StronglySorted Z.le r.
Proof.
  unfold sort_samples. induction count as [|count IH]; intros samples Hc; [lia|]. rewrite Nat.sub_succ, Nat.sub_0_r.
  destruct count as [|count].
  - exists (take 1 samples). cbn [seq fold_left]. split_and!; [by rewrite take_drop|done|]. destruct samples as [|x samples]; [cbn in Hc; lia|]. cbn. rewrite ?take_0. by repeat constructor.
  - destruct (IH samples ltac:(lia)) as (r & Hr & Hp & Hs). rewrite Nat.sub_succ, Nat.sub_0_r in Hr.
    assert (Hl : length r = S count) by (rewrite Hp, length_take; lia).
    destruct (lookup_lt_is_Some_2 samples (S count)) as [x Hx]; [lia|].
    rewrite seq_S, fold_left_app, Hr. cbn [fold_left].
    rewrite (drop_S _ _ _ Hx), Nat.add_1_l, <-Hl. rewrite list_lookup_total_middle by done.
    destruct (shift_key_spec x r x (drop (S (length r)) samples)) as (r' & -> & Hp' & Hs'). exists r'. split_and!; [done| |by apply Hs'].
    rewrite Hl, Hp', Hp. rewrite (take_S_r _ _ _ Hx). by rewrite Permutation_app_comm.
Qed.

Lemma fill_seq {A} (f : nat → A) z n m : (n ≤ m)%nat → fold_left (λ l i, <[i := f i]> l) (seq 0 n) (replicate m z) = (f <$> seq 0 n) ++ replicate (m - n) z.
Proof.
  induction n as [|n IH]; intros Hn; [by rewrite Nat.sub_0_r|]. rewrite seq_S, fold_left_app, fmap_app, IH by lia. cbn [fold_left fmap list_fmap Nat.add].
  rewrite insert_app_r_alt by (rewrite length_fmap, length_seq; lia). rewrite length_fmap, length_seq, Nat.sub_diag.
  replace (m - n)%nat with (S (m - S n)) by lia. by rewrite <-app_assoc.
Qed.

(** The samples of a peer are the last 32 round-trip times of its history. *)
Record rtts (hist : list Z) (h : PeerHealth) : Prop := mkRtts {
  rt_len : length (rtt_samples h) = 32%nat;
  rt_count : rtt_sample_count h = Z.min 32 (zlen hist);
  rt_idx : rtt_sample_idx h = zlen hist mod 32;
  rt_get : ∀ j x, hist !! j = Some x → (length hist ≤ j + 32)%nat → rtt_samples h !! (j mod 32)%nat = Some x }.

Lemma rtts_success hist rtt now h : rtts hist h → rtts (hist ++ [rtt]) (health_success rtt now h).
Proof.
  intros [Hl Hc Hi Hg]. pose proof (zlen_nonneg hist) as Hz. split; cbn [health_success rtt_samples rtt_sample_count rtt_sample_idx].
  - by rewrite length_insert.
  - rewrite Hc, zlen_app. change (zlen [rtt]) with 1. unfold u8_sat_add, U8_MAX. change (2 ^ 8 - 1) with 255. destruct (Z.ltb_spec (Z.min 32 (zlen hist)) 32); lia.
  - rewrite Hi, zlen_app. change (zlen [rtt]) with 1. by rewrite Zplus_mod_idemp_l.
  - intros j x Hj Hlen. rewrite length_app in Hlen. cbn [length] in Hlen. rewrite Hi. unfold zlen.
    rewrite Z2Nat.inj_mod, Nat2Z.id by lia. change (Z.to_nat 32) with 32%nat.
    destruct (decide (j < length hist)%nat) as [Hlt|Hge].
    + rewrite lookup_app_l in Hj by done. rewrite list_lookup_insert_ne; [apply Hg; [done|lia]|].
      intros E. assert (Hd : ((length hist - j) mod 32 = 0)%nat); [|rewrite Nat.mod_small in Hd; lia].
      pose proof (Nat.div_mod_eq (length hist) 32). pose proof (Nat.div_mod_eq j 32).
      replace (length hist - j)%nat with ((length hist / 32 - j / 32) * 32)%nat by lia. apply Nat.Div0.mod_mul.
    + rewrite lookup_app_r in Hj by lia. destruct (j - length hist)%nat eqn:Ej; [|done]. injection Hj as <-. assert (j = length hist) as -> by lia.
      apply list_lookup_insert_eq. rewrite Hl. apply Nat.mod_upper_bound. lia.
Qed.

Lemma rtts_first rtt now : rtts [rtt] (health_first_success rtt now).
Proof. split; [done..|]. intros [|j] x Hj; [|done]. injection Hj as <-. done. Qed.

Lemma window_copied hist h n : rtts hist h → rtt_sample_count h = Z.of_nat n → copy_window h n = drop (length hist - 32) hist ++ replicate (32 - n) 0.
Proof.
  intros [Hl Hc Hi Hg] Hn. rewrite Hn in Hc. unfold zlen in *. unfold copy_window. rewrite (fill_seq (λ i, rtt_samples h !!! Z.to_nat ((rtt_sample_idx h + 32 - Z.of_nat n + Z.of_nat i) mod 32))) by lia. f_equal.
  apply list_eq. intros i. rewrite list_lookup_fmap, lookup_drop. destruct (decide (i < n)%nat) as [Hlt|Hge].
  - rewrite lookup_seq_lt by done. cbn. destruct (lookup_lt_is_Some_2 hist (length hist - 32 + i)) as [x Hx]; [lia|]. rewrite Hx. f_equal.
    apply list_lookup_total_correct. rewrite <-(Hg _ _ Hx) by lia. f_equal. rewrite Hi.
    replace (Z.of_nat (length hist) mod 32 + 32 - Z.of_nat n + Z.of_nat i) with (Z.of_nat (length hist) mod 32 + (32 - Z.of_nat n + Z.of_nat i)) by lia.
    rewrite Zplus_mod_idemp_l. replace (Z.of_nat (length hist) + (32 - Z.of_nat n + Z.of_nat i)) with (Z.of_nat (length hist - 32 + i) + 1 * 32) by lia.
    rewrite Z.mod_add by done. rewrite Z2Nat.inj_mod, Nat2Z.id by lia. done.
  - rewrite lookup_seq_ge by lia. cbn. symmetry. apply lookup_ge_None. lia.
Qed.

Definition p99_of (h : PeerHealth) : Z :=
  let count := Z.to_nat (rtt_sample_count h) in sort_samples count (copy_window h count) !!! Z.to_nat (p99_index (rtt_sample_count h)).

Lemma p99_absent i t : i ∉ slot_ids t → peer_p99_rtt i t = 0.
Proof.
  unfold slot_ids. induction t as [|[[n h]|] t IH]; cbn; [done| |done]. rewrite not_elem_of_cons. intros [Hn Hi]. destruct (Z.eqb_spec n i); [done|]. by apply IH.
Qed.

Lemma p99_get i t h : slots_ok t → slot_get i t = Some h → 10 ≤ rtt_sample_count h → peer_p99_rtt i t = p99_of h.
Proof.
  unfold slots_ok, slot_ids. induction t as [|[[n g]|] t IH]; cbn [slot_get peer_p99_rtt omap list_omap fmap list_fmap id fst]; [done| |apply IH].
  intros Hnd Hg Hc. cbn in Hnd. apply NoDup_cons in Hnd as [Hni Hnd]. destruct (Z.eqb_spec n i) as [->|]; cbn [andb].
  - injection Hg as ->. destruct (Z.leb_spec 10 (rtt_sample_count h)); [done|lia].
  - by apply IH.
Qed.

Lemma sorted_last_max (l : list Z) x : StronglySorted Z.le (l ++ [x]) → Forall (λ y, y ≤ x) (l ++ [x]).
Proof.
  intros (Hle & _ & _)%StronglySorted_app. apply Forall_app. split; [|by repeat constructor]. apply Forall_forall. intros y Hy. apply (Hle y x Hy). by apply list_elem_of_singleton.
Qed.

(** With at most 32 samples the 99th percentile is the last of them in order. *)
Lemma p99_of_max hist h : rtts hist h → 10 ≤ rtt_sample_count h → let w := drop (length hist - 32) hist in p99_of h ∈ w ∧ Forall (λ y, y ≤ p99_of h) w.
Proof.
  intros Hr Hc w. set (n := Z.to_nat (rtt_sample_count h)). pose proof (rt_count _ _ Hr) as Hcount. unfold zlen in Hcount.
  assert (Hw : copy_window h n = w ++ replicate (32 - n) 0) by (apply window_copied; [done|lia]). assert (Hlw : length w = n) by (unfold w; rewrite length_drop; lia).
  destruct (sort_samples_spec n (copy_window h n)) as (r & Hs & Hp & Hsort); [rewrite Hw, length_app, length_replicate; lia|].
  rewrite Hw in Hp. rewrite take_app_le, take_ge in Hp by lia.
  assert (Hlr : length r = n) by (by rewrite Hp). destruct r as [|x r _] using rev_ind; [cbn in Hlr; lia|].
  assert (Hi : Z.to_nat (p99_index (rtt_sample_count h)) = length r).
  { rewrite length_app in Hlr. cbn in Hlr. unfold p99_index. assert (10 ≤ rtt_sample_count h ≤ 32) as Hb by lia.
    assert (rtt_sample_count h * 99 + 99 = rtt_sample_count h * 100 + (99 - rtt_sample_count h)) as -> by lia. rewrite Z.div_add_l, Z.div_small by lia. lia. }
  assert (Hv : p99_of h = x). { unfold p99_of. fold n. rewrite Hs, Hi, <-app_assoc. by apply list_lookup_total_middle. }
  rewrite Hv. split; [rewrite <-Hp; apply elem_of_app; right; by apply list_elem_of_singleton|]. rewrite <-Hp. by apply sorted_last_max.
Qed.

(** The round-trip times acknowledged for a node. *)
Definition history (i : Z) (os : list Outcome) : list Z := omap (λ o, match o with Acked j rtt _ => if j =? i then Some rtt else None | _ => None end) os.

Definition outcome_id (o : Outcome) : Z := match o with Acked j _ _ | Failed j _ _ => j end.

Definition tracked (i : Z) (os : list Outcome) (t : Slots PeerHealth) : Prop :=
  slots_ok t ∧ match slot_get i t with
               | Some h => rtts (history i os) h
               | None => Forall is_Some t ∨ i ∉ outcome_id <$> os
               end.

Lemma slots_ok_failure i now now2 t : slots_ok t → slots_ok (record_peer_failure i now now2 t).1.
Proof.
  unfold slots_ok, record_peer_failure. intros Hok. destruct (slot_alter _ i t) as [u|] eqn:E.
  - assert (Hu : NoDup (slot_ids u)) by (by rewrite (slot_ids_alter (health_failure now) i t u E)). destruct (slot_get i u) as [h|]; [|done]. destruct (_ <=? _); [|done].
    cbn [fst]. unfold mark_health_unreachable. destruct (slot_alter _ i u) as [w|] eqn:F; [|done]. cbn [default from_option id]. by rewrite (slot_ids_alter (health_unreachable now2) i u w F).
  - apply slot_alter_None, slot_get_None in E. cbn [fst]. destruct (slot_fill i _ t) as [u|] eqn:F; [|done]. cbn [default from_option id]. rewrite (slot_ids_fill _ _ _ _ F). by constructor.
Qed.

Lemma full_alter {V} (f : V → V) i (t t' : Slots V) : slot_alter (λ v, Some (f v)) i t = Some t' → Forall is_Some t → Forall is_Some t'.
Proof.
  revert t'. induction t as [|[[n v]|] t IH]; cbn; intros t' E Hf; [done| |by apply Forall_cons in Hf as [[? ?] _]]. apply Forall_cons in Hf as [_ Hf].
  destruct (n =? i); [injection E as <-; constructor; [eauto|done]|]. destruct (slot_alter _ i t) as [u|]; [|done]. injection E as <-. constructor; [eauto|by apply (IH u)].
Qed.

Lemma full_outcome t o : Forall is_Some t → Forall is_Some (apply_outcome t o).
Proof.
  intros Hf. destruct o as [j rtt now|j now now2]; cbn [apply_outcome].
  - unfold record_peer_success, slot_set. destruct (slot_alter _ j t) as [u|] eqn:E; [by apply (full_alter _ _ _ _ E)|]. apply (slot_fill_None j (health_first_success rtt now)) in Hf as Hn. by rewrite Hn.
  - unfold record_peer_failure. destruct (slot_alter _ j t) as [u|] eqn:E.
    + apply (full_alter _ _ _ _ E) in Hf as Hu. destruct (slot_get j u) as [h|]; [|done]. destruct (_ <=? _); [|done]. cbn [fst]. unfold mark_health_unreachable.
      destruct (slot_alter _ j u) as [w|] eqn:F; [|done]. by apply (full_alter _ _ _ _ F).
    + apply (slot_fill_None j (health_first_failure now)) in Hf as Hn. by rewrite Hn.
Qed.

Lemma rtts_same hist h h' : rtts hist h → rtt_samples h' = rtt_samples h → rtt_sample_count h' = rtt_sample_count h → rtt_sample_idx h' = rtt_sample_idx h → rtts hist h'.
Proof. intros [Hl Hc Hi Hg] E1 E2 E3. split; by rewrite ?E1, ?E2, ?E3. Qed.

Lemma history_snoc i os o : history i (os ++ [o]) = history i os ++ history i [o].
Proof. unfold history. apply omap_app. Qed.

Lemma history_none i os : i ∉ outcome_id <$> os → history i os = [].
Proof.
  unfold history. induction os as [|[j rtt now|j now now2] os IH]; cbn; [done|..]; rewrite not_elem_of_cons; intros [Hn Hi]; [destruct (Z.eqb_spec j i); [done|]|]; by apply IH.
Qed.

Lemma tracked_step i os t o : tracked i os t → tracked i (os ++ [o]) (apply_outcome t o).
Proof.
  intros [Hok Ht]. split; [destruct o; [by apply slots_ok_set|by apply slots_ok_failure]|]. rewrite history_snoc, fmap_app.
  destruct (decide (outcome_id o = i)) as [Ho|Ho].
  - destruct (slot_get i t) as [h|] eqn:G.
    + destruct o as [j rtt now|j now now2]; cbn in Ho; subst j; cbn [apply_outcome].
      * unfold record_peer_success. rewrite slot_get_set, Z.eqb_refl, G. unfold history at 2. cbn. rewrite Z.eqb_refl. by apply rtts_success.
      * rewrite (record_failure_get i now now2 i t h G), Z.eqb_refl. unfold history at 2. cbn. rewrite app_nil_r. destruct (_ <=? _); by eapply rtts_same.
    + destruct Ht as [Hf|Hn].
      * pose proof (full_outcome t o Hf) as Hf'. destruct o as [j rtt now|j now now2]; cbn in Ho; subst j; cbn [apply_outcome] in *.
        -- unfold record_peer_success in *. rewrite slot_get_set, Z.eqb_refl, G. rewrite bool_decide_true by done. by left.
        -- replace (slot_get i _) with (@None PeerHealth); [by left|]. symmetry. unfold record_peer_failure. apply (slot_alter_None (λ h, Some (health_failure now h))) in G as Ga. rewrite Ga. apply (slot_fill_None i (health_first_failure now)) in Hf. by rewrite Hf.
      * rewrite (history_none _ _ Hn). destruct o as [j rtt now|j now now2]; cbn in Ho; subst j; cbn [apply_outcome] in *.
        -- unfold record_peer_success in *. rewrite slot_get_set, Z.eqb_refl, G. case_bool_decide as Hf; [left; pose proof (full_outcome t (Acked i rtt now) Hf); done|].
           unfold history. cbn. rewrite Z.eqb_refl. apply rtts_first.
        -- unfold record_peer_failure. apply (slot_alter_None (λ h, Some (health_failure now h))) in G as Ga. rewrite Ga. cbn [fst].
           destruct (slot_fill _ _ t) as [u|] eqn:F; cbn [default from_option id].
           ++ rewrite (slot_get_fill _ _ i _ _ F G), Z.eqb_refl. split; [done..|]. intros j x Hj. by rewrite lookup_nil in Hj || (destruct j; done).
           ++ rewrite G. left. by apply slot_fill_None in F.
  - assert (Hg : slot_get i (apply_outcome t o) = slot_get i t).
    { destruct o as [j rtt now|j now now2]; cbn in Ho; cbn [apply_outcome]; [unfold record_peer_success; rewrite slot_get_set; by destruct (Z.eqb_spec i j)|by apply record_failure_other]. }
    rewrite Hg. assert (Hh : history i [o] = []) by (apply history_none; cbn; rewrite not_elem_of_cons; split; [done|apply not_elem_of_nil]). rewrite Hh, app_nil_r.
    destruct (slot_get i t) as [h|]; [done|]. destruct Ht as [Hf|Hn]; [left; by apply full_outcome|]. right. rewrite not_elem_of_app. split; [done|]. cbn. rewrite not_elem_of_cons. split; [done|apply not_elem_of_nil].
Qed.

Lemma tracked_run i os : tracked i os (fold_left apply_outcome os (replicate 16 None)).
Proof.
  induction os as [|o os IH] using rev_ind; [split; [constructor|right; apply not_elem_of_nil]|]. rewrite fold_left_app. by apply tracked_step.
Qed.

(** * What the policies promise *)

(** C28: The circuit breaker counts honestly. From the moment a peer is known, whatever is
    acknowledged or fails for it and for any other peer, its entry records the failures
    since its last success (up to 255), and it is reachable exactly while they are fewer
    than three: work is dispatched to it exactly while they are fewer than three and it
    was active in the last 6,000 ticks. One success makes it available again. *)
Theorem circuit_breaker i os t h :
  slot_get i t = Some h → breaker_ok 0 h →
  let t' := fold_left apply_outcome os t in
  let n := streak i 0 os in
  ∃ h', peer_health i t' = Some h' ∧ consecutive_failures h' = Z.min n 255 ∧ reachable h' = (n <? 3) ∧
    (∀ now, peer_available i now t' = (n <? 3) && (u64_sub now (last_activity_ticks h') <=? PEER_HEALTH_TTL_TICKS)) ∧
    (∀ rtt now, peer_state i now (record_peer_success i rtt now t') = Some Available).
Proof.
  intros Hg Hb t' n. destruct (outcomes_breaker i os 0 h t Hg Hb) as (h' & Hg' & Hn & Hc & Hr). exists h'. split_and!; [done..| |].
  - intros now. unfold peer_available, peer_state, peer_health. fold t' in Hg'. rewrite Hg'. cbn [fmap option_fmap option_map]. unfold peer_state_from_health. fold n in Hn, Hc, Hr. rewrite Hr, Hc. unfold CIRCUIT_BREAKER_THRESHOLD in *.
    destruct (Z.ltb_spec n 3), (Z.leb_spec 3 (Z.min n 255)), (Z.ltb_spec PEER_HEALTH_TTL_TICKS (u64_sub now (last_activity_ticks h'))), (Z.leb_spec (u64_sub now (last_activity_ticks h')) PEER_HEALTH_TTL_TICKS); try lia; cbn [negb orb andb]; try done.
    by destruct (_ || _).
  - intros rtt now. unfold peer_state, peer_health, record_peer_success. fold t' in Hg'. rewrite slot_get_set, Z.eqb_refl, Hg'. cbn. unfold peer_state_from_health. cbn. unfold u64_sub. rewrite Z.sub_diag. done.
Qed.

Lemma circuit_breaker_witness :
  let t := [Some (7, health_first_success 4 10)] ++ replicate 15 None in
  peer_available 7 60 (fold_left apply_outcome [Failed 7 20 20; Failed 7 30 30; Failed 7 40 40] t) = false.
Proof.
  intros t. destruct (circuit_breaker 7 [Failed 7 20 20; Failed 7 30 30; Failed 7 40 40] t (health_first_success 4 10)) as (h & _ & _ & _ & Ha & _); [reflexivity|repeat split; reflexivity || lia|].
  rewrite Ha. reflexivity.
Defined.

(** The 99th percentile of the round-trip times is the largest of the last 32. For
    any run of acknowledgements and failures on an empty table, once ten round trips of
    a peer were recorded, [peer_p99_rtt] is one of the last 32 of them and none of these
    is larger. *)
Theorem p99_is_window_max i os h :
  let t := fold_left apply_outcome os (replicate 16 None) in
  let recent := drop (length (history i os) - 32) (history i os) in
  slot_get i t = Some h → (10 ≤ length (history i os))%nat → peer_p99_rtt i t ∈ recent ∧ Forall (λ y, y ≤ peer_p99_rtt i t) recent.
Proof.
  intros t recent Hg Hl. destruct (tracked_run i os) as [Hok Ht]. fold t in Hok, Ht. rewrite Hg in Ht.
  assert (Hc : 10 ≤ rtt_sample_count h) by (rewrite (rt_count _ _ Ht); unfold zlen; lia). rewrite (p99_get i t h Hok Hg Hc). by apply p99_of_max.
Qed.

Lemma p99_is_window_max_witness :
  let os := (λ k, Acked 7 (100 - k) k) <$> seqZ 1 40 in
  peer_p99_rtt 7 (fold_left apply_outcome os (replicate 16 None)) = 91 ∧
  Forall (λ y, y ≤ peer_p99_rtt 7 (fold_left apply_outcome os (replicate 16 None))) (drop (length (history 7 os) - 32) (history 7 os)).
Proof.
  intros os. destruct (slot_get 7 (fold_left apply_outcome os (replicate 16 None))) as [h|] eqn:E; [|discriminate E]. split; [reflexivity|].
  apply (p99_is_window_max 7 os h E). apply Nat.leb_le. reflexivity.
Defined.

(** The wait between refusals doubles up to 3,200 ticks and loses at most a quarter of
    itself to the jitter. *)
Lemma backoff_bounds attempt base seed :
  0 ≤ attempt → 0 ≤ base →
  let d := Z.min (base * 2 ^ Z.min attempt 31) REFUSAL_BACKOFF_MAX_TICKS in
  backoff_delay_ticks attempt base = d ∧ d - d / 4 ≤ refusal_backoff_ticks attempt base seed ≤ d.
Proof.
  intros Ha Hb d. assert (Hd : backoff_delay_ticks attempt base = d).
  { unfold backoff_delay_ticks, u64_sat_mul, d. rewrite Z.shiftl_mul_pow2, Z.mul_1_l by lia. unfold REFUSAL_BACKOFF_MAX_TICKS, PROBE_MAX_TIMEOUT_TICKS, U64_MAX. lia. }
  split; [done|]. unfold refusal_backoff_ticks. rewrite Hd. assert (0 ≤ d) by (unfold d, REFUSAL_BACKOFF_MAX_TICKS, PROBE_MAX_TIMEOUT_TICKS; nia).
  assert (0 ≤ d / 4) by (apply Z.div_pos; lia). destruct (Z.eqb_spec (d / 4) 0) as [->|]; [lia|].
  match goal with |- context [?x mod (d / 4 + 1)] => pose proof (Z.mod_pos_bound x (d / 4 + 1)) end. lia.
Qed.

(** A refused request keeps the tokens it added but not the time it added them for, so
    that asking again within one tick adds them again: three requests for three tokens,
    one tick after the bucket was emptied, and the last is granted. *)
Lemma refused_requests_mint_tokens :
  let '(r1, b1) := token_bucket_try_consume TOKEN_BUCKET_COST_DATA 101 (0, 100) in
  let '(r2, b2) := token_bucket_try_consume TOKEN_BUCKET_COST_DATA 101 b1 in
  let '(r3, b3) := token_bucket_try_consume TOKEN_BUCKET_COST_DATA 101 b2 in
  (r1, r2, r3) = (false, false, true).
Proof. reflexivity. Qed.

End Peers.
