(* ===== verification/MeshFrag.v ===== *)
(** Fragmentation of mesh packets larger than a frame
    ([k_nano/src/net/udp_broadcast.rs], [send_fragmented] and [recv_fragmented]). *)

From S2P Require Import Prelude MeshWire MeshPeers.
Import Wire Peers.

Module Frag.

Definition FRAG_HEADER_SIZE : Z := 5 + 16.
Definition FRAG_MAX_CHUNK : Z := 1000.
Definition FRAG_DIRECT_MAX : Z := 1200.
Definition FRAG_MAX_PARTS : Z := 1024.
Definition FRAG_MAX_PAYLOAD : Z := FRAG_MAX_PARTS * FRAG_MAX_CHUNK.

(** [b"FRAG\0"] *)
Definition FRAG : bytes := [Byte.x46; Byte.x52; Byte.x41; Byte.x47; Byte.x00].

(** * Sending *)

Record Tx := mkTx { net : Net; FRAG_ID : Z; FRAG_TX_MSGS : Z; FRAG_TX_FRAGS : Z }.

Definition fragment (id total_frags idx total_len : Z) (chunk : bytes) : bytes :=
  FRAG ++ to_le_bytes 4 id ++ to_le_bytes 4 total_frags ++ to_le_bytes 4 idx ++ to_le_bytes 4 total_len ++ chunk.

(** [for idx in 0..total_frags], with [off] the end of the part already sent *)
Fixpoint send_parts (n : nat) (idx off : Z) (id total_frags : Z) (payload : bytes) (port : Z) (ok : bool) (s : Net) : bool * Net :=
  match n with
  | O => (ok, s)
  | S n =>
    let end_ := Z.min (off + FRAG_MAX_CHUNK) (zlen payload) in
    let chunk := slice off (end_ - off) payload in
    let '(sent, s) := udp_broadcast_send (fragment id total_frags idx (zlen payload) chunk) port s in
    send_parts n (idx + 1) end_ id total_frags payload port (ok && sent) s
  end.

Definition parts_of (payload : bytes) : Z := (zlen payload + FRAG_MAX_CHUNK - 1) / FRAG_MAX_CHUNK.

Definition send_fragmented (payload : bytes) (port : Z) (t : Tx) : bool * Tx :=
  if FRAG_MAX_PAYLOAD <? zlen payload then (false, t) else
  if zlen payload <=? FRAG_DIRECT_MAX then
    let '(ok, s) := udp_broadcast_send payload port (net t) in (ok, mkTx s (FRAG_ID t) (FRAG_TX_MSGS t) (FRAG_TX_FRAGS t))
  else
  let total_frags := parts_of payload in
  let '(ok, s) := send_parts (Z.to_nat total_frags) 0 0 (FRAG_ID t) total_frags payload port true (net t) in
  (ok, mkTx s ((FRAG_ID t + 1) mod 2 ^ 32) (u64_add (FRAG_TX_MSGS t) 1) (u64_add (FRAG_TX_FRAGS t) total_frags)).

(** * Receiving *)

Record FragReassembly := mkFrag {
  id : Z; total_frags : Z; received : Z; total_len : Z; seen : list Z; chunks : list bytes; last_tick : Z }.

Abbreviation Table := (list (option FragReassembly)).

Record Rx := mkRx { REASSEMBLY : Table; FRAG_RX_MSGS : Z; FRAG_RX_OPS : Z; FRAG_DROP_PRESSURE : Z; FRAG_DROP_OTHER : Z; macs : Macs }.

(** [frag_reassembly_budget_bytes] and [can_afford_frag] of [memory.rs] *)
Definition frag_reassembly_budget_bytes (ram_mb : Z) : Z :=
  if ram_mb =? 0 then 1024 * 1000 else if ram_mb <? 1280 then 1200 else if ram_mb <? 2048 then 24 * 1024 else 1024 * 1000.

Definition can_afford_frag (ram_mb len : Z) : bool := len <=? frag_reassembly_budget_bytes ram_mb.

(** Slots without progress for 2,000 ticks are dropped. *)
Definition sweep (now : Z) (t : Table) : Table :=
  (λ slot, match slot with Some rs => if 2000 <? u64_sub now (last_tick rs) then None else Some rs | None => None end) <$> t.

(** The slot of [id], else the first free one, else the oldest. *)
Fixpoint slot_pos (want : Z) (t : Table) (i : nat) (match_pos free_pos oldest_pos : option nat) (oldest_tick : Z) : option nat :=
  match t with
  | [] => match match_pos, free_pos with Some p, _ => Some p | None, Some p => Some p | None, None => oldest_pos end
  | Some rs :: t =>
    if id rs =? want then slot_pos want t (S i) (Some i) free_pos oldest_pos oldest_tick else
    if last_tick rs <? oldest_tick then slot_pos want t (S i) match_pos free_pos (Some i) (last_tick rs)
    else slot_pos want t (S i) match_pos free_pos oldest_pos oldest_tick
  | None :: t => slot_pos want t (S i) match_pos (match free_pos with Some p => Some p | None => Some i end) oldest_pos oldest_tick
  end.

(** The header of a fragment that passes the checks on it. *)
Record Header := mkHeader { h_id : Z; h_total : Z; h_idx : Z; h_len : Z; h_chunk : bytes }.

Definition read_header (pkt : bytes) : option Header :=
  if zlen pkt <? FRAG_HEADER_SIZE then None else
  let id := from_le_bytes (slice 5 4 pkt) in
  let total_frags := from_le_bytes (slice 9 4 pkt) in
  let idx := from_le_bytes (slice 13 4 pkt) in
  let total_len := from_le_bytes (slice 17 4 pkt) in
  if (total_frags =? 0) || (FRAG_MAX_PARTS <? total_frags) || (total_frags <=? idx) || (total_len =? 0) || (FRAG_MAX_PARTS * FRAG_MAX_CHUNK <? total_len) then None else
  Some (mkHeader id total_frags idx total_len (drop (Z.to_nat FRAG_HEADER_SIZE) pkt)).

(** How a round of the receive loop ends. *)
Inductive Round := Continue | Return (r : option bytes).

(** [rs.chunks.resize(n, Vec::new())] when it is shorter *)
Definition resize (n : nat) (l : list bytes) : list bytes := l ++ replicate (n - length l) [].

(** The slot a fragment goes to, begun afresh unless it already holds this message. *)
Definition open_slot (h : Header) (now : Z) (slot : option FragReassembly) : FragReassembly :=
  match slot with
  | Some rs => if id rs =? h_id h then rs else mkFrag (h_id h) (h_total h) 0 (h_len h) (replicate 16 0) [] now
  | None => mkFrag (h_id h) (h_total h) 0 (h_len h) (replicate 16 0) [] now
  end.

(** A fragment that passed the checks; [reserve] is the outcome of [try_reserve]. *)
Definition insert_fragment (now : Z) (reserve : bool) (h : Header) (s : Rx) : Round * Rx :=
  let t := REASSEMBLY s in
  match slot_pos (h_id h) t 0 None None None U64_MAX with
  | None => (Return None, s)
  | Some pos =>
    let rs := open_slot h now (t !!! pos) in
    let put slot := <[pos := slot]> t in
    let word := Z.to_nat (h_idx h / 64) in
    let bit := Z.shiftl 1 (h_idx h mod 64) in
    let idx := Z.to_nat (h_idx h) in
    if negb (Z.land (seen rs !!! word) bit =? 0) then
      (Continue, mkRx (put (Some rs)) (FRAG_RX_MSGS s) (FRAG_RX_OPS s) (FRAG_DROP_PRESSURE s) (FRAG_DROP_OTHER s) (macs s))
    else
    let seen' := <[word := Z.lor (seen rs !!! word) bit]> (seen rs) in
    let chunks' := if Z.of_nat (length (chunks rs)) <=? h_idx h then resize (S idx) (chunks rs) else chunks rs in
    if negb reserve then
      (Continue, mkRx (put None) (FRAG_RX_MSGS s) (FRAG_RX_OPS s) (FRAG_DROP_PRESSURE s) (u64_add (FRAG_DROP_OTHER s) 1) (macs s))
    else
    let rs' := mkFrag (id rs) (total_frags rs) ((received rs + 1) mod 2 ^ 32) (total_len rs) seen' (<[idx := h_chunk h]> chunks') now in
    let ops := u64_add (FRAG_RX_OPS s) 1 in
    if received rs' =? total_frags rs' then
      let out := concat (chunks rs') in
      if negb (zlen out =? total_len rs') then
        (Continue, mkRx (put None) (FRAG_RX_MSGS s) ops (FRAG_DROP_PRESSURE s) (FRAG_DROP_OTHER s) (macs s))
      else (Return (Some out), mkRx (put None) (u64_add (FRAG_RX_MSGS s) 1) ops (FRAG_DROP_PRESSURE s) (FRAG_DROP_OTHER s) (macs s))
    else (Continue, mkRx (put (Some rs')) (FRAG_RX_MSGS s) ops (FRAG_DROP_PRESSURE s) (FRAG_DROP_OTHER s) (macs s))
  end.

(** The sender's address is remembered, when the packet has a header. *)
Definition learn_mac (pkt src_mac : bytes) (s : Rx) : Rx :=
  let sender_id := if PACKET_HEADER_SIZE <=? zlen pkt then match parse pkt with Some p => source_id p | None => 0 end else 0 in
  if sender_id =? 0 then s else
  mkRx (REASSEMBLY s) (FRAG_RX_MSGS s) (FRAG_RX_OPS s) (FRAG_DROP_PRESSURE s) (FRAG_DROP_OTHER s) (peer_set_mac sender_id src_mac (macs s)).

(** One round of the loop of [recv_fragmented]. *)
Definition recv_round (ram_mb now : Z) (reserve : bool) (pkt src_mac : bytes) (s : Rx) : Round * Rx :=
  let s := learn_mac pkt src_mac s in
  if negb (starts_with FRAG pkt) then (Return (Some pkt), s) else
  match read_header pkt with
  | None => (Continue, s)
  | Some h =>
    if negb (can_afford_frag ram_mb (h_len h)) then
      (Continue, mkRx (REASSEMBLY s) (FRAG_RX_MSGS s) (FRAG_RX_OPS s) (u64_add (FRAG_DROP_PRESSURE s) 1) (FRAG_DROP_OTHER s) (macs s))
    else if bool_decide (h_chunk h = []) || (FRAG_MAX_CHUNK <? zlen (h_chunk h)) then (Continue, s)
    else insert_fragment now reserve h s
  end.

Definition sweep_rx (now : Z) (s : Rx) : Rx :=
  mkRx (sweep now (REASSEMBLY s)) (FRAG_RX_MSGS s) (FRAG_RX_OPS s) (FRAG_DROP_PRESSURE s) (FRAG_DROP_OTHER s) (macs s).

(** [loop]: [env k] is the clock and the outcome of [try_reserve] in round [k]; every
    round takes a frame from the cards. *)
Fixpoint recv_rounds (fuel : nat) (ram_mb port : Z) (env : nat → Z * bool) (k : nat) (n : Net) (s : Rx) : option (option bytes * Net * Rx) :=
  match fuel with
  | O => None
  | S fuel =>
    match udp_broadcast_recv_with_mac port n with
    | (None, n) => Some (None, n, s)
    | (Some (pkt, src_mac), n) =>
      match recv_round ram_mb (env k).1 (env k).2 pkt src_mac s with
      | (Return r, s) => Some (r, n, s)
      | (Continue, s) => recv_rounds fuel ram_mb port env (S k) n s
      end
    end
  end.

(** Frames waiting in the cards. *)
Definition waiting (n : Net) : nat :=
  let q c := match c with Some c => length (rxq c) | None => 0%nat end in (q (VIRTIO_DEV n) + q (E1000 n) + q (RTL8139 n))%nat.

Definition recv_fragmented (ram_mb port now : Z) (env : nat → Z * bool) (n : Net) (s : Rx) : option (option bytes * Net * Rx) :=
  recv_rounds (S (waiting n)) ram_mb port env 0 n (sweep_rx now s).

End Frag.
