(* ===== verification/MeshFragThm.v ===== *)
(** Fragmented messages arrive whole: reassembly of [MeshFrag] as one set of received
    parts per message. *)

From S2P Require Import Prelude MeshWire MeshPeers MeshFrag.
Import Wire Peers.

Module FragThm.
Import Frag.

(** * The table *)

Definition tids (t : Table) : list Z := Frag.id <$> omap (λ s, s) t.

Fixpoint view (w : Z) (t : Table) : option FragReassembly :=
  match t with
  | [] => None
  | Some rs :: t => if Frag.id rs =? w then Some rs else view w t
  | None :: t => view w t
  end.

Definition table_ok (t : Table) : Prop := length t = 16%nat ∧ NoDup (tids t).

Lemma tids_app t1 t2 : tids (t1 ++ t2) = tids t1 ++ tids t2.
Proof. unfold tids. by rewrite omap_app, fmap_app. Qed.

Lemma tids_cons s t : tids (s :: t) = match s with Some rs => [Frag.id rs] | None => [] end ++ tids t.
Proof. by destruct s. Qed.

Lemma view_None w t : view w t = None ↔ w ∉ tids t.
Proof.
  induction t as [|[rs|] t IH]; cbn [view]; [split; [intros _; apply not_elem_of_nil|done]| |done].
  rewrite tids_cons. cbn [app]. rewrite not_elem_of_cons, <-IH. destruct (Z.eqb_spec (Frag.id rs) w) as [->|]; naive_solver.
Qed.

Lemma view_split w t rs : view w t = Some rs → ∃ t1 t2, t = t1 ++ Some rs :: t2 ∧ Frag.id rs = w ∧ w ∉ tids t1.
Proof.
  induction t as [|[r|] t IH]; cbn [view]; [done| |].
  - destruct (Z.eqb_spec (Frag.id r) w) as [<-|Hn].
    + intros [= <-]. exists [], t. split_and!; [done..|apply not_elem_of_nil].
    + intros (t1 & t2 & -> & Hi & Hw)%IH. exists (Some r :: t1), t2. split_and!; [done..|]. rewrite tids_cons. cbn. by rewrite not_elem_of_cons.
  - intros (t1 & t2 & -> & Hi & Hw)%IH. by exists (None :: t1), t2.
Qed.

Lemma view_mid w t1 s t2 : w ∉ tids t1 → view w (t1 ++ s :: t2) = match s with Some rs => if Frag.id rs =? w then Some rs else view w t2 | None => view w t2 end.
Proof.
  induction t1 as [|[r|] t1 IH]; intros Hw; [by destruct s| |].
  - rewrite tids_cons in Hw. cbn in Hw. apply not_elem_of_cons in Hw as [Hn Hw]. cbn [app view]. destruct (Z.eqb_spec (Frag.id r) w); [congruence|by apply IH].
  - cbn [app view]. by apply IH.
Qed.

Lemma view_other w w' t1 s s' t2 :
  w' ≠ w → (∀ rs, s = Some rs → Frag.id rs = w) → (∀ rs, s' = Some rs → Frag.id rs = w) → view w' (t1 ++ s :: t2) = view w' (t1 ++ s' :: t2).
Proof.
  intros Hn Hs Hs'. induction t1 as [|[r|] t1 IH]; cbn [app]; [|cbn [view]; by rewrite IH|done].
  assert (H : ∀ s, (∀ rs, s = Some rs → Frag.id rs = w) → view w' (s :: t2) = view w' t2); [|by rewrite !H].
  intros [rs|] H; cbn [view]; [|done]. rewrite (H rs) by done. by destruct (Z.eqb_spec w w').
Qed.

(** ** Finding the slot *)

Lemma slot_pos_keep w t : ∀ i p f o ot, w ∉ tids t → slot_pos w t i (Some p) f o ot = Some p.
Proof.
  induction t as [|[r|] t IH]; intros i p f o ot Hw; cbn [slot_pos]; [done| |by apply IH].
  rewrite tids_cons in Hw. cbn in Hw. apply not_elem_of_cons in Hw as [Hn Hw]. destruct (Z.eqb_spec (Frag.id r) w); [congruence|]. destruct (_ <? _); by apply IH.
Qed.

Lemma slot_pos_match w rs t2 t1 : ∀ i m f o ot, Frag.id rs = w → w ∉ tids t1 → w ∉ tids t2 → slot_pos w (t1 ++ Some rs :: t2) i m f o ot = Some (i + length t1)%nat.
Proof.
  induction t1 as [|[r|] t1 IH]; intros i m f o ot Hi H1 H2; cbn [app slot_pos length].
  - rewrite Hi, Z.eqb_refl, Nat.add_0_r. by apply slot_pos_keep.
  - rewrite tids_cons in H1. cbn in H1. apply not_elem_of_cons in H1 as [Hn H1]. destruct (Z.eqb_spec (Frag.id r) w); [congruence|]. rewrite <-Nat.add_succ_comm. destruct (_ <? _); by apply IH.
  - rewrite <-Nat.add_succ_comm. by apply IH.
Qed.

Lemma slot_pos_keep_free w t : ∀ i p o ot, w ∉ tids t → slot_pos w t i None (Some p) o ot = Some p.
Proof.
  induction t as [|[r|] t IH]; intros i p o ot Hw; cbn [slot_pos]; [done| |by apply IH].
  rewrite tids_cons in Hw. cbn in Hw. apply not_elem_of_cons in Hw as [Hn Hw]. destruct (Z.eqb_spec (Frag.id r) w); [congruence|]. destruct (_ <? _); by apply IH.
Qed.

Lemma slot_pos_free w t2 t1 : ∀ i o ot, Forall is_Some t1 → w ∉ tids (t1 ++ None :: t2) → slot_pos w (t1 ++ None :: t2) i None None o ot = Some (i + length t1)%nat.
Proof.
  induction t1 as [|[r|] t1 IH]; intros i o ot Hs Hw; cbn [app slot_pos length].
  - rewrite Nat.add_0_r. by apply slot_pos_keep_free.
  - cbn [app] in Hw. rewrite tids_cons in Hw. cbn in Hw. apply not_elem_of_cons in Hw as [Hn Hw]. apply Forall_cons in Hs as [_ Hs].
    destruct (Z.eqb_spec (Frag.id r) w); [congruence|]. rewrite <-Nat.add_succ_comm. destruct (_ <? _); by apply IH.
  - apply Forall_cons in Hs as [[? ?] _]. done.
Qed.

Lemma tids_full t : Forall is_Some t → length (tids t) = length t.
Proof. induction 1 as [|s t [rs ->] _ IH]; [done|]. rewrite tids_cons. cbn. by f_equal. Qed.

Lemma free_split (t : Table) : Forall is_Some t ∨ ∃ t1 t2, t = t1 ++ None :: t2 ∧ Forall is_Some t1.
Proof.
  induction t as [|[rs|] t [IH|(t1 & t2 & -> & IH)]]; [by left|left; by constructor; eauto| |right; by exists [], t|right; by exists [], (t1 ++ None :: t2)].
  right. exists (Some rs :: t1), t2. split; [done|]. by constructor; eauto.
Qed.

(** The slot for a message, in a table that holds it or has room for it. *)
Lemma slot_pos_ok w t : table_ok t → (w ∈ tids t ∨ (length (tids t) < 16)%nat) →
  ∃ t1 s t2, t = t1 ++ s :: t2 ∧ slot_pos w t 0 None None None U64_MAX = Some (length t1) ∧ view w t = s ∧ (∀ rs, s = Some rs → Frag.id rs = w) ∧ w ∉ tids t1 ∧ w ∉ tids t2.
Proof.
  intros [Hl Hnd] Hroom. destruct (view w t) as [rs|] eqn:V.
  - destruct (view_split w t rs V) as (t1 & t2 & -> & Hi & H1). exists t1, (Some rs), t2.
    assert (H2 : w ∉ tids t2). { rewrite tids_app, tids_cons in Hnd. apply NoDup_app in Hnd as (_ & _ & Hnd). apply NoDup_cons in Hnd as [Hnd _]. by rewrite <-Hi. }
    split_and!; try done; [by apply slot_pos_match|]. by intros ? [= <-].
  - apply view_None in V. destruct (free_split t) as [Hf|(t1 & t2 & -> & Hf)].
    + apply tids_full in Hf. destruct Hroom as [?|?]; [done|lia].
    + exists t1, None, t2. rewrite tids_app, tids_cons, not_elem_of_app in V. destruct V as [V1 V2].
      split_and!; try done. rewrite slot_pos_free; [done|done|]. rewrite tids_app, tids_cons, not_elem_of_app. done.
Qed.

(** Putting a slot of the same message back touches no other message. *)
Lemma put_slot_ok w t1 s s' t2 (ids : gset Z) :
  let t := t1 ++ s :: t2 in let t' := t1 ++ s' :: t2 in
  table_ok t → (∀ rs, s = Some rs → Frag.id rs = w) → (∀ rs, s' = Some rs → Frag.id rs = w) → w ∉ tids t1 → w ∉ tids t2 → w ∈ ids → (∀ i, i ∈ tids t → i ∈ ids) →
  table_ok t' ∧ (∀ i, i ∈ tids t' → i ∈ ids) ∧ view w t' = s' ∧ (∀ w', w' ≠ w → view w' t' = view w' t).
Proof.
  intros t t' [Hl Hnd] Hs Hs' H1 H2 Hw Hids. split_and!.
  - split; [revert Hl; unfold t, t'; rewrite !length_app; done|]. unfold t' , t in *. rewrite tids_app, tids_cons in *.
    apply NoDup_app in Hnd as (Hn1 & Hn12 & Hn2). apply NoDup_app in Hn2 as (_ & _ & Hn2). apply NoDup_app. split_and!; [done| |].
    + intros x Hx [Hx'|Hx']%elem_of_app; [|apply (Hn12 x Hx), elem_of_app; by right]. destruct s' as [rs'|]; [|by apply elem_of_nil in Hx'].
      apply list_elem_of_singleton in Hx' as ->. by rewrite (Hs' rs' eq_refl) in Hx.
    + destruct s' as [rs'|]; [|done]. apply NoDup_cons. by rewrite (Hs' rs' eq_refl).
  - intros i. unfold t', t in *. rewrite tids_app, tids_cons, !elem_of_app. setoid_rewrite tids_app in Hids. setoid_rewrite tids_cons in Hids. setoid_rewrite elem_of_app in Hids. setoid_rewrite elem_of_app in Hids.
    intros [Hi|[Hi|Hi]]; [apply Hids; by left| |apply Hids; by right; right]. destruct s' as [rs'|]; [|by apply elem_of_nil in Hi]. apply list_elem_of_singleton in Hi as ->. by rewrite (Hs' rs' eq_refl).
  - unfold t'. rewrite view_mid by done. destruct s' as [rs'|]; [|by apply view_None]. by rewrite (Hs' rs' eq_refl), Z.eqb_refl.
  - intros w' Hn. by apply (view_other w).
Qed.

(** * One message *)

(** What a slot of message [w] holds once the parts in [got] arrived, at times from [lo]
    to [hi]. *)
Record slot_ok (w : Z) (parts : list bytes) (got : gset nat) (lo hi : Z) (rs : FragReassembly) : Prop := mkSlotOk {
  so_id : Frag.id rs = w;
  so_total : total_frags rs = zlen parts;
  so_len : total_len rs = zlen (concat parts);
  so_received : received rs = Z.of_nat (size got);
  so_words : length (seen rs) = 16%nat;
  so_seen : ∀ i, (i < 1024)%nat → Z.testbit (seen rs !!! (i / 64)%nat) (Z.of_nat (i mod 64)) = bool_decide (i ∈ got);
  so_got : ∀ i, i ∈ got → (i < length parts)%nat ∧ chunks rs !! i = parts !! i;
  so_holes : ∀ i c, i ∉ got → chunks rs !! i = Some c → c = [];
  so_chunks : (length (chunks rs) ≤ length parts)%nat;
  so_tick : lo ≤ last_tick rs ≤ hi }.

Definition holds (w : Z) (parts : list bytes) (got : gset nat) (lo hi : Z) (s : option FragReassembly) : Prop :=
  match s with Some rs => slot_ok w parts got lo hi rs | None => got = ∅ end.

Lemma slot_later w parts got lo hi hi' rs : slot_ok w parts got lo hi rs → hi ≤ hi' → slot_ok w parts got lo hi' rs.
Proof. intros [] ?. split; try done. lia. Qed.

Lemma shifted_bit b k : 0 ≤ b → 0 ≤ k → Z.testbit (Z.shiftl 1 b) k = (k =? b).
Proof. intros. rewrite Z.shiftl_mul_pow2, Z.mul_1_l by done. rewrite Z.pow2_bits_eqb by done. apply Z.eqb_sym. Qed.

Lemma land_shifted_bit x b : 0 ≤ b → negb (Z.land x (Z.shiftl 1 b) =? 0) = Z.testbit x b.
Proof.
  intros Hb. destruct (Z.testbit x b) eqn:E.
  - apply negb_true_iff, Z.eqb_neq. intros Hz. assert (Ht : Z.testbit (Z.land x (Z.shiftl 1 b)) b = true) by (rewrite Z.land_spec, shifted_bit, E, Z.eqb_refl by lia; done).
    by rewrite Hz, Z.bits_0 in Ht.
  - apply negb_false_iff, Z.eqb_eq, Z.bits_inj'. intros k Hk. rewrite Z.land_spec, shifted_bit, Z.bits_0 by lia. destruct (Z.eqb_spec k b) as [->|]; [by rewrite E|by rewrite andb_false_r].
Qed.

Lemma to_nat_word k : Z.to_nat (Z.of_nat k / 64) = (k / 64)%nat.
Proof. rewrite Z2Nat.inj_div, Nat2Z.id by lia. done. Qed.

Lemma of_nat_bit k : Z.of_nat k mod 64 = Z.of_nat (k mod 64).
Proof. by rewrite Nat2Z.inj_mod. Qed.

(** Marking a part as seen. *)
Lemma seen_mark seen (got : gset nat) k i :
  length seen = 16%nat → (k < 1024)%nat → (i < 1024)%nat → (∀ i, (i < 1024)%nat → Z.testbit (seen !!! (i / 64)%nat) (Z.of_nat (i mod 64)) = bool_decide (i ∈ got)) →
  Z.testbit (<[(k / 64)%nat := Z.lor (seen !!! (k / 64)%nat) (Z.shiftl 1 (Z.of_nat (k mod 64)))]> seen !!! (i / 64)%nat) (Z.of_nat (i mod 64)) = bool_decide (i ∈ {[k]} ∪ got).
Proof.
  intros Hl Hk Hi Hs. assert (Hw : (k / 64 < 16)%nat) by (apply Nat.Div0.div_lt_upper_bound; lia).
  pose proof (Nat.div_mod_eq k 64). pose proof (Nat.div_mod_eq i 64). rewrite (bool_decide_ext _ (i = k ∨ i ∈ got)) by set_solver.
  destruct (decide (i / 64 = k / 64)%nat) as [E|E].
  - rewrite E, list_lookup_total_insert_eq by lia. rewrite Z.lor_spec, shifted_bit by lia. rewrite <-E, (Hs i Hi).
    destruct (Z.eqb_spec (Z.of_nat (i mod 64)) (Z.of_nat (k mod 64))).
    + rewrite orb_true_r. symmetry. apply bool_decide_true. left. lia.
    + rewrite orb_false_r. apply bool_decide_ext. split; [by right|]. intros [->|?]; done.
  - rewrite list_lookup_total_insert_ne by done. rewrite (Hs i Hi). apply bool_decide_ext. split; [by right|]. intros [->|?]; done.
Qed.

Lemma lookup_resize n (l : list bytes) i : resize n l !! i = match l !! i with Some c => Some c | None => if decide (i < n)%nat then Some [] else None end.
Proof.
  unfold resize. destruct (l !! i) as [c|] eqn:E; [by rewrite lookup_app_l by (by eapply lookup_lt_Some)|]. apply lookup_ge_None in E. rewrite lookup_app_r by done.
  case_decide; [rewrite lookup_replicate_2 by lia; done|]. apply lookup_ge_None. rewrite length_replicate. lia.
Qed.

Definition grown (idx : nat) (l : list bytes) : list bytes := if Z.of_nat (length l) <=? Z.of_nat idx then resize (S idx) l else l.

Lemma length_grown idx l : length (grown idx l) = (length l `max` S idx)%nat.
Proof. unfold grown. destruct (Z.leb_spec (Z.of_nat (length l)) (Z.of_nat idx)); [unfold resize; rewrite length_app, length_replicate|]; lia. Qed.

Lemma lookup_grown idx l i c : grown idx l !! i = Some c → l !! i = Some c ∨ l !! i = None ∧ c = [].
Proof.
  unfold grown. destruct (_ <=? _); [|by left]. rewrite lookup_resize. destruct (l !! i); [intros [= ->]; by left|]. case_decide; [intros [= <-]; by right|done].
Qed.

Lemma lookup_grown_Some idx l i c : l !! i = Some c → grown idx l !! i = Some c.
Proof. unfold grown. intros E. destruct (_ <=? _); [by rewrite lookup_resize, E|done]. Qed.

Section Message.
Context (w : Z) (parts : list bytes) (lo : Z).
Context (Hparts : (1 ≤ length parts ≤ 1024)%nat).

(** The header of part [k]. *)
Definition part_header (k : nat) (p : bytes) : Header := mkHeader w (zlen parts) (Z.of_nat k) (zlen (concat parts)) p.

Definition next_slot (now : Z) (k : nat) (p : bytes) (rs : FragReassembly) : FragReassembly :=
  mkFrag (Frag.id rs) (total_frags rs) ((received rs + 1) mod 2 ^ 32) (total_len rs)
    (<[(k / 64)%nat := Z.lor (seen rs !!! (k / 64)%nat) (Z.shiftl 1 (Z.of_nat (k mod 64)))]> (seen rs)) (<[k := p]> (grown k (chunks rs))) now.

Lemma size_got got hi rs : slot_ok w parts got lo hi rs → (size got ≤ length parts)%nat.
Proof.
  intros Hs. assert (Hsub : got ⊆ set_seq 0 (length parts)) by (intros i Hi; apply elem_of_set_seq; pose proof (so_got _ _ _ _ _ _ Hs i Hi); lia).
  apply subseteq_size in Hsub. by rewrite size_set_seq in Hsub.
Qed.

Lemma slot_next now k p got hi rs :
  slot_ok w parts got lo hi rs → parts !! k = Some p → k ∉ got → lo ≤ now → slot_ok w parts ({[k]} ∪ got) lo now (next_slot now k p rs).
Proof.
  intros Hs Hp Hk Hnow. pose proof (lookup_lt_Some _ _ _ Hp) as Hlt. destruct Hs as [H1 H2 H3 H4 H5 H6 H7 H8 H9 H10] eqn:Hd. clear Hd.
  split; unfold next_slot; cbn [Frag.id total_frags total_len received seen chunks last_tick]; try done.
  - rewrite H4, size_union by set_solver. rewrite size_singleton. pose proof (size_got got hi rs Hs). rewrite Z.mod_small; lia.
  - by rewrite length_insert.
  - intros i Hi. apply seen_mark; [done|lia|done|done].
  - intros i Hi. destruct (decide (i = k)) as [->|Hne].
    + split; [done|]. rewrite list_lookup_insert_eq; [done|]. rewrite length_grown. lia.
    + destruct (H7 i) as [Hil Hic]; [set_solver|]. split; [done|]. rewrite list_lookup_insert_ne by done.
      destruct (lookup_lt_is_Some_2 parts i Hil) as [q Hq]. rewrite Hq in *. by apply lookup_grown_Some.
  - intros i c Hi Hc. rewrite list_lookup_insert_ne in Hc by set_solver. apply lookup_grown in Hc as [Hc|[_ ->]]; [|done]. apply (H8 i c); [set_solver|done].
  - rewrite length_insert, length_grown. lia.
Qed.

Lemma slot_complete got hi rs : slot_ok w parts got lo hi rs → received rs = total_frags rs → concat (chunks rs) = concat parts.
Proof.
  intros Hs Hr. rewrite (so_received _ _ _ _ _ _ Hs), (so_total _ _ _ _ _ _ Hs) in Hr. unfold zlen in Hr.
  assert (Hsub : got ⊆ set_seq 0 (length parts)) by (intros i Hi; apply elem_of_set_seq; pose proof (so_got _ _ _ _ _ _ Hs i Hi); lia).
  assert (Heq : got = set_seq 0 (length parts)) by (apply leibniz_equiv, set_subseteq_size_equiv; [done|rewrite size_set_seq; lia]).
  f_equal. apply list_eq. intros i. destruct (decide (i < length parts)%nat) as [Hi|Hi].
  - apply (so_got _ _ _ _ _ _ Hs). rewrite Heq. apply elem_of_set_seq. lia.
  - rewrite (lookup_ge_None_2 parts) by lia. apply lookup_ge_None_2. pose proof (so_chunks _ _ _ _ _ _ Hs). lia.
Qed.

Lemma slot_fresh now : lo ≤ now → slot_ok w parts ∅ lo now (mkFrag w (zlen parts) 0 (zlen (concat parts)) (replicate 16 0) [] now).
Proof.
  intros Hnow. split; try done; cbn [seen chunks last_tick length].
  - intros i Hi. rewrite lookup_total_replicate_2 by (apply Nat.Div0.div_lt_upper_bound; lia). rewrite Z.bits_0. symmetry. apply bool_decide_false. set_solver.
  - lia.
Qed.

End Message.

(** * One fragment *)

(** A table with room for the messages in [ids]. *)
Record room (ids : gset Z) (t : Table) : Prop := mkRoom { rm_ok : table_ok t; rm_ids : ∀ i, i ∈ tids t → i ∈ ids; rm_size : (size ids ≤ 16)%nat }.

Lemma room_slot ids t w : room ids t → w ∈ ids → w ∈ tids t ∨ (length (tids t) < 16)%nat.
Proof.
  intros [[Hl Hnd] Hids Hsz] Hw. destruct (decide (w ∈ tids t)) as [|Hn]; [by left|]. right.
  assert (Hsub : list_to_set (w :: tids t) ⊆ ids). { intros i. rewrite elem_of_list_to_set, elem_of_cons. intros [->|?]; [done|by apply Hids]. }
  apply subseteq_size in Hsub. rewrite size_list_to_set in Hsub by by constructor. cbn in Hsub. lia.
Qed.

Lemma insert_mid {A} (t1 : list A) s s' t2 : <[length t1 := s']> (t1 ++ s :: t2) = t1 ++ s' :: t2.
Proof. rewrite insert_app_r_alt, Nat.sub_diag by lia. done. Qed.

(** The outcome of a fragment for the slot it goes to. *)
Definition slot_result (now : Z) (reserve : bool) (h : Header) (slot : option FragReassembly) : Round * option FragReassembly :=
  let rs := open_slot h now slot in
  let word := Z.to_nat (h_idx h / 64) in
  let bit := Z.shiftl 1 (h_idx h mod 64) in
  if negb (Z.land (seen rs !!! word) bit =? 0) then (Continue, Some rs) else
  if negb reserve then (Continue, None) else
  let chunks' := if Z.of_nat (length (chunks rs)) <=? h_idx h then resize (S (Z.to_nat (h_idx h))) (chunks rs) else chunks rs in
  let rs' := mkFrag (Frag.id rs) (total_frags rs) ((received rs + 1) mod 2 ^ 32) (total_len rs) (<[word := Z.lor (seen rs !!! word) bit]> (seen rs))
               (<[Z.to_nat (h_idx h) := h_chunk h]> chunks') now in
  if received rs' =? total_frags rs' then
    (if negb (zlen (concat (chunks rs')) =? total_len rs') then Continue else Return (Some (concat (chunks rs'))), None)
  else (Continue, Some rs').

Lemma open_slot_id h now s : (∀ rs, s = Some rs → Frag.id rs = h_id h) → Frag.id (open_slot h now s) = h_id h.
Proof. intros H. unfold open_slot. destruct s as [rs|]; [|done]. by rewrite (H rs), Z.eqb_refl, H. Qed.

Lemma slot_result_id now r h s rs :
  (∀ rs, s = Some rs → Frag.id rs = h_id h) → (slot_result now r h s).2 = Some rs → Frag.id rs = h_id h.
Proof.
  intros H. pose proof (open_slot_id h now s H) as Hi. unfold slot_result. destruct (negb (_ =? 0)); [by intros [= <-]|]. destruct (negb r); [done|]. destruct (_ =? _); [done|]. by intros [= <-].
Qed.

Lemma insert_fragment_slot ids now r h s :
  room ids (REASSEMBLY s) → h_id h ∈ ids →
  ∃ s', insert_fragment now r h s = ((slot_result now r h (view (h_id h) (REASSEMBLY s))).1, s') ∧ room ids (REASSEMBLY s') ∧
    view (h_id h) (REASSEMBLY s') = (slot_result now r h (view (h_id h) (REASSEMBLY s))).2 ∧ (∀ w, w ≠ h_id h → view w (REASSEMBLY s') = view w (REASSEMBLY s)).
Proof.
  intros Hroom Hid. destruct (slot_pos_ok (h_id h) (REASSEMBLY s) (rm_ok _ _ Hroom) (room_slot _ _ _ Hroom Hid)) as (t1 & sl & t2 & Ht & Hpos & Hv & Hsl & H1 & H2).
  rewrite Hv. unfold insert_fragment. cbv zeta. rewrite Hpos, Ht. rewrite list_lookup_total_middle by done. rewrite !insert_mid.
  assert (Hput : ∀ s', (∀ rs, s' = Some rs → Frag.id rs = h_id h) → room ids (t1 ++ s' :: t2) ∧ view (h_id h) (t1 ++ s' :: t2) = s' ∧ ∀ w, w ≠ h_id h → view w (t1 ++ s' :: t2) = view w (t1 ++ sl :: t2)).
  { intros s' Hs'. destruct Hroom as [Hok Hids Hsz]. rewrite Ht in Hok, Hids. destruct (put_slot_ok (h_id h) t1 sl s' t2 ids Hok Hsl Hs' H1 H2 Hid Hids) as (Ha & Hb & Hc & Hd). done. }
  specialize (Hput (slot_result now r h sl).2 (λ rs, slot_result_id now r h sl rs Hsl)). destruct Hput as (Hr & Hw & Ho).
  unfold slot_result in *. destruct (negb (Z.land _ _ =? 0)); [eexists; split_and!; [reflexivity|done..]|]. destruct (negb r); [eexists; split_and!; [reflexivity|done..]|].
  cbn [received total_frags total_len chunks] in *. destruct (_ =? total_frags _); [|eexists; split_and!; [reflexivity|done..]].
  destruct (negb (_ =? total_len _)); (eexists; split_and!; [reflexivity|done..]).
Qed.

Section Message2.
Context (w : Z) (parts : list bytes) (lo : Z).
Context (Hparts : (1 ≤ length parts ≤ 1024)%nat).

(** A part of the message: ignored when it is there already, else added, and with the
    last one the message is complete. *)
Lemma slot_result_part now k p got hi sl :
  holds w parts got lo hi sl → parts !! k = Some p → lo ≤ now → hi ≤ now →
  let '(rd, sl') := slot_result now true (part_header w parts k p) sl in
  if decide (k ∈ got) then rd = Continue ∧ holds w parts got lo now sl'
  else if decide (size got + 1 = length parts)%nat then rd = Return (Some (concat parts)) ∧ sl' = None
  else rd = Continue ∧ holds w parts ({[k]} ∪ got) lo now sl' ∧ sl' ≠ None.
Proof.
  intros Hh Hp Hnow Hhi. pose proof (lookup_lt_Some _ _ _ Hp) as Hlt.
  set (rs := open_slot (part_header w parts k p) now sl). assert (Hrs : slot_ok w parts got lo now rs).
  { unfold rs, open_slot. destruct sl as [r|]; cbn [holds part_header h_id h_total h_len] in *; [rewrite (so_id _ _ _ _ _ _ Hh), Z.eqb_refl; by apply (slot_later _ _ _ _ hi)|]. subst got. by apply (slot_fresh w parts lo Hparts now). }
  unfold slot_result. fold rs. cbn [part_header h_idx h_chunk negb]. rewrite to_nat_word, of_nat_bit, Nat2Z.id, land_shifted_bit by lia.
  rewrite (so_seen _ _ _ _ _ _ Hrs k) by lia. case_decide as Hk; [by rewrite bool_decide_true|]. rewrite bool_decide_false by done.
  pose proof (slot_next w parts lo Hparts now k p got now rs Hrs Hp Hk Hnow) as Hn. fold (grown k (chunks rs)).
  change (mkFrag _ _ _ _ _ _ _) with (next_slot now k p rs). set (nx := next_slot now k p rs) in *.
  assert (Hrec : received nx = Z.of_nat (size got + 1)). { rewrite (so_received _ _ _ _ _ _ Hn), size_union, size_singleton by set_solver. lia. }
  rewrite Hrec, (so_total _ _ _ _ _ _ Hn). unfold zlen at 1. case_decide as Hsz.
  - assert (Hc : concat (chunks nx) = concat parts) by (apply (slot_complete w parts lo Hparts ({[k]} ∪ got) now); [done|rewrite Hrec, (so_total _ _ _ _ _ _ Hn); unfold zlen; lia]).
    destruct (Z.eqb_spec (Z.of_nat (size got + 1)) (Z.of_nat (length parts))); [|lia]. rewrite Hc, (so_len _ _ _ _ _ _ Hn), Z.eqb_refl. done.
  - destruct (Z.eqb_spec (Z.of_nat (size got + 1)) (Z.of_nat (length parts))); [lia|]. done.
Qed.
End Message2.

(** * Frames and sweeps in time *)

(** What happens to the receiver: a call of [recv_fragmented] begins ([Sweep]), or it
    takes a frame from a card ([Take]). *)
Inductive Event := Sweep (now : Z) | Take (now : Z) (reserve : bool) (frame : bytes).

Definition event_time (e : Event) : Z := match e with Sweep now | Take now _ _ => now end.

Definition event_step (ram_mb port : Z) (e : Event) (s : Rx) : option bytes * Rx :=
  match e with
  | Sweep now => (None, sweep_rx now s)
  | Take now reserve frame =>
    match udp_payload port frame with
    | None => (None, s)
    | Some (pkt, src_mac) =>
      match recv_round ram_mb now reserve pkt src_mac s with
      | (Return r, s) => (r, s)
      | (Continue, s) => (None, s)
      end
    end
  end.

Definition events_run (ram_mb port : Z) (es : list Event) (s : Rx) : Rx := fold_left (λ s e, (event_step ram_mb port e s).2) es s.

(** The message a frame carries a fragment of. *)
Definition frame_id (port : Z) (frame : bytes) : option Z :=
  '(pkt, _) ← udp_payload port frame; if starts_with FRAG pkt then h_id <$> read_header pkt else None.

Definition event_id (port : Z) (e : Event) : option Z := match e with Sweep _ => None | Take _ _ f => frame_id port f end.

(** ** Sweeps *)

Definition expired (now : Z) (rs : FragReassembly) : bool := 2000 <? u64_sub now (last_tick rs).

Lemma tids_sweep now t : tids (sweep now t) `sublist_of` tids t.
Proof.
  unfold sweep. induction t as [|[rs|] t IH]; [done| |done]. rewrite fmap_cons, !tids_cons. destruct (2000 <? _); cbn; by constructor.
Qed.

Lemma view_sweep w now t : NoDup (tids t) → view w (sweep now t) = rs ← view w t; if expired now rs then None else Some rs.
Proof.
  unfold sweep. induction t as [|[rs|] t IH]; [done| |done]. rewrite tids_cons. cbn [app]. intros [Hn Hnd]%NoDup_cons. rewrite fmap_cons. unfold expired in *. cbn [view].
  destruct (2000 <? _) eqn:E; cbn [view]; destruct (Z.eqb_spec (Frag.id rs) w) as [<-|]; cbn; rewrite ?E; try by apply IH; try done.
  2: done. rewrite IH by done. by rewrite (proj2 (view_None _ _) Hn).
Qed.

Lemma room_sweep ids now t : room ids t → room ids (sweep now t).
Proof.
  intros [[Hl Hnd] Hids Hsz]. split; [split|..]; [by unfold sweep; rewrite length_fmap| |intros i Hi; apply Hids|done].
  - by eapply sublist_NoDup, tids_sweep.
  - eapply sublist_subseteq; [apply tids_sweep|done].
Qed.

Lemma u64_sub_small a b : 0 ≤ b ≤ a → a < 2 ^ 64 → u64_sub a b = a - b.
Proof. intros. unfold u64_sub. apply Z.mod_small. lia. Qed.

(** ** Headers of fragments *)

Definition header_ok (h : Header) : Prop :=
  0 ≤ h_id h < 2 ^ 32 ∧ 1 ≤ h_total h ≤ FRAG_MAX_PARTS ∧ 0 ≤ h_idx h < h_total h ∧ 1 ≤ h_len h ≤ FRAG_MAX_PAYLOAD ∧ 1 ≤ zlen (h_chunk h) ≤ FRAG_MAX_CHUNK.

Definition header_fragment (h : Header) : bytes := fragment (h_id h) (h_total h) (h_idx h) (h_len h) (h_chunk h).

Lemma starts_with_fragment h : starts_with FRAG (header_fragment h) = true.
Proof. apply bool_decide_true. done. Qed.

Lemma read_header_fragment h : header_ok h → read_header (header_fragment h) = Some h.
Proof.
  unfold header_ok, FRAG_MAX_PAYLOAD, FRAG_MAX_PARTS, FRAG_MAX_CHUNK. intros (Hid & Ht & Hi & Hl & Hc). destruct h as [i t k l c]. cbn [h_id h_total h_idx h_len h_chunk] in *.
  unfold read_header, header_fragment, fragment. cbn [h_id h_total h_idx h_len h_chunk].
  set (A := to_le_bytes 4 i). set (B := to_le_bytes 4 t). set (C := to_le_bytes 4 k). set (D := to_le_bytes 4 l).
  assert (HA : zlen A = 4) by apply zlen_to_le_bytes. assert (HB : zlen B = 4) by apply zlen_to_le_bytes. assert (HC : zlen C = 4) by apply zlen_to_le_bytes. assert (HD : zlen D = 4) by apply zlen_to_le_bytes.
  assert (HF : zlen FRAG = 5) by done. pose proof (zlen_nonneg c).
  destruct (Z.ltb_spec (zlen (FRAG ++ A ++ B ++ C ++ D ++ c)) FRAG_HEADER_SIZE) as [Hz|_]; [rewrite !zlen_app in Hz; unfold FRAG_HEADER_SIZE in Hz; lia|].
  assert (S1 : slice 5 4 (FRAG ++ A ++ B ++ C ++ D ++ c) = A) by (by apply slice_mid).
  assert (S2 : slice 9 4 (FRAG ++ A ++ B ++ C ++ D ++ c) = B) by (rewrite (app_assoc FRAG); apply slice_mid; [rewrite zlen_app; lia|done]).
  assert (S3 : slice 13 4 (FRAG ++ A ++ B ++ C ++ D ++ c) = C) by (rewrite !(app_assoc FRAG), !(app_assoc (_ ++ _)); rewrite <-(app_assoc _ D c), <-(app_assoc _ C); apply slice_mid; [rewrite !zlen_app; lia|done]).
  assert (S4 : slice 17 4 (FRAG ++ A ++ B ++ C ++ D ++ c) = D) by (rewrite !app_assoc; rewrite <-(app_assoc _ D c); apply slice_mid; [rewrite !zlen_app; lia|done]).
  assert (S5 : drop (Z.to_nat FRAG_HEADER_SIZE) (FRAG ++ A ++ B ++ C ++ D ++ c) = c).
  { rewrite !app_assoc. apply drop_app_length'. apply Nat2Z.inj. change (zlen ((((FRAG ++ A) ++ B) ++ C) ++ D) = 21). rewrite !zlen_app. lia. }
  rewrite S1, S2, S3, S4, S5. unfold A, B, C, D. rewrite (from_to_le_bytes 4 i), (from_to_le_bytes 4 t), (from_to_le_bytes 4 k), (from_to_le_bytes 4 l) by (change (2 ^ (Z.of_nat 4 * 8)) with (2 ^ 32); lia).
  unfold FRAG_MAX_PARTS, FRAG_MAX_CHUNK. destruct (Z.eqb_spec t 0), (Z.ltb_spec 1024 t), (Z.leb_spec t k), (Z.eqb_spec l 0), (Z.ltb_spec (1024 * 1000) l); try lia. done.
Qed.

Lemma REASSEMBLY_learn pkt mac s : REASSEMBLY (learn_mac pkt mac s) = REASSEMBLY s.
Proof. unfold learn_mac. by destruct (_ =? 0). Qed.

Lemma recv_round_fragment ram now r h mac s :
  header_ok h → can_afford_frag ram (h_len h) = true → recv_round ram now r (header_fragment h) mac s = insert_fragment now r h (learn_mac (header_fragment h) mac s).
Proof.
  intros Hok Ha. unfold recv_round. rewrite starts_with_fragment, read_header_fragment by done. cbn [negb]. rewrite Ha. cbn [negb].
  destruct Hok as (_ & _ & _ & _ & Hc). rewrite bool_decide_false by (intros E; rewrite E in Hc; change (zlen (@nil Byte.byte)) with 0 in Hc; lia). destruct (Z.ltb_spec FRAG_MAX_CHUNK (zlen (h_chunk h))); [lia|]. done.
Qed.

(** A round that is not about message [w] leaves it alone. *)
Lemma event_other ids ram port e s w :
  room ids (REASSEMBLY s) → (∀ i, event_id port e = Some i → i ∈ ids ∧ i ≠ w) → (∀ now, e = Sweep now → ∀ rs, view w (REASSEMBLY s) = Some rs → expired now rs = false) →
  let s' := (event_step ram port e s).2 in room ids (REASSEMBLY s') ∧ view w (REASSEMBLY s') = view w (REASSEMBLY s).
Proof.
  intros Hroom Hid Hsw. destruct e as [now|now r f]; cbn [event_step snd].
  - split; [by apply room_sweep|]. cbn [sweep_rx REASSEMBLY]. rewrite view_sweep by apply (rm_ok _ _ Hroom). destruct (view w (REASSEMBLY s)) as [rs|] eqn:V; [|done]. cbn. by rewrite (Hsw now eq_refl rs).
  - cbn [event_id] in Hid. unfold frame_id in Hid. destruct (udp_payload port f) as [[pkt mac]|]; [|done]. cbn in Hid. unfold recv_round.
    destruct (starts_with FRAG pkt); cbn [negb]; [|cbn [snd]; by rewrite REASSEMBLY_learn]. destruct (read_header pkt) as [h|]; [|cbn [snd]; by rewrite REASSEMBLY_learn].
    destruct (Hid (h_id h) eq_refl) as [Hin Hne]. destruct (negb _); [cbn [snd REASSEMBLY]; by rewrite REASSEMBLY_learn|]. destruct (_ || _); [cbn [snd]; by rewrite REASSEMBLY_learn|].
    set (s1 := learn_mac pkt mac s). assert (Hr1 : room ids (REASSEMBLY s1)) by (unfold s1; by rewrite REASSEMBLY_learn).
    destruct (insert_fragment_slot ids now r h s1 Hr1 Hin) as (s' & -> & Hr' & _ & Ho). assert (Hv : view w (REASSEMBLY s') = view w (REASSEMBLY s)) by (rewrite Ho by done; unfold s1; by rewrite REASSEMBLY_learn).
    destruct (slot_result _ _ _ _).1; done.
Qed.

(** * One message through the traffic of others *)

Fixpoint events_out (ram_mb port : Z) (es : list Event) (s : Rx) : list (Event * option bytes) :=
  match es with
  | [] => []
  | e :: es => let '(o, s) := event_step ram_mb port e s in (e, o) :: events_out ram_mb port es s
  end.

(** Clock readings do not go back and stay within 2,000 ticks of [lo]. *)
Fixpoint in_time (lo hi : Z) (es : list Event) : Prop :=
  match es with
  | [] => True
  | e :: es => hi ≤ event_time e ≤ lo + 2000 ∧ in_time lo (event_time e) es
  end.

Definition end_time (hi : Z) (es : list Event) : Z := fold_left (λ _ e, event_time e) es hi.

Section Traffic.
Context (ram port w lo : Z) (parts frames : list bytes) (ids : gset Z).
Context (Hw : 0 ≤ w < 2 ^ 32) (Hwid : w ∈ ids) (Hlo : 0 ≤ lo) (Hhi : lo + 2000 < 2 ^ 64).
Context (Hn : (1 ≤ length parts ≤ 1024)%nat) (Hsizes : Forall (λ p, 1 ≤ zlen p ≤ FRAG_MAX_CHUNK) parts).
Context (Hafford : can_afford_frag ram (zlen (concat parts)) = true).
Context (Hframes : Forall2 (λ f kp, ∃ mac, udp_payload port f = Some (header_fragment (part_header w parts kp.1 kp.2), mac)) frames (imap pair parts)).

Lemma parts_len : 1 ≤ zlen (concat parts) ≤ FRAG_MAX_PAYLOAD.
Proof using Hn Hsizes.
  assert (H : ∀ l : list bytes, Forall (λ p, 1 ≤ zlen p ≤ FRAG_MAX_CHUNK) l → Z.of_nat (length l) ≤ zlen (concat l) ≤ FRAG_MAX_CHUNK * Z.of_nat (length l)).
  { induction 1 as [|p l Hp _ IH]; [done|]. cbn [concat length]. rewrite zlen_app. lia. }
  specialize (H parts Hsizes). unfold FRAG_MAX_PAYLOAD, FRAG_MAX_PARTS, FRAG_MAX_CHUNK in *. lia.
Qed.

Lemma part_header_ok k p : parts !! k = Some p → header_ok (part_header w parts k p).
Proof using Hn Hsizes Hw.
  intros Hk. pose proof (lookup_lt_Some _ _ _ Hk). unfold header_ok, part_header. cbn [h_id h_total h_idx h_len h_chunk]. pose proof parts_len. unfold zlen at 1, FRAG_MAX_PARTS.
  pose proof (proj1 (Forall_lookup _ _) Hsizes k p Hk) as Hs. cbn beta in Hs. split_and!; lia || (unfold zlen; lia).
Qed.

Lemma frame_part k f : frames !! k = Some f → ∃ p mac, parts !! k = Some p ∧ udp_payload port f = Some (header_fragment (part_header w parts k p), mac).
Proof using Hframes.
  intros Hk. destruct (Forall2_lookup_l _ _ _ _ _ Hframes Hk) as ([k' p] & Hi & mac & Hu). rewrite list_lookup_imap in Hi. destruct (parts !! k) as [q|] eqn:E; [|done]. injection Hi as <- <-. by exists q, mac.
Qed.

Lemma frame_own k f : frames !! k = Some f → frame_id port f = Some w.
Proof using Hframes Hn Hsizes Hw.
  intros Hk. destruct (frame_part k f Hk) as (p & mac & Hp & Hu). unfold frame_id. rewrite Hu. cbn [mbind option_bind]. by rewrite starts_with_fragment, read_header_fragment by by apply part_header_ok.
Qed.

Lemma frames_inj j k f : frames !! j = Some f → frames !! k = Some f → j = k.
Proof using Hframes Hn Hsizes Hw.
  intros Hj Hk. destruct (frame_part j f Hj) as (p & mac & Hp & Hu). destruct (frame_part k f Hk) as (q & mac' & Hq & Hu'). rewrite Hu in Hu'.
  apply (inj Some) in Hu'. assert (E : header_fragment (part_header w parts j p) = header_fragment (part_header w parts k q)) by congruence.
  apply (f_equal read_header) in E. rewrite !read_header_fragment in E by by apply part_header_ok. injection E. lia.
Qed.

(** The parts whose frames are among the events. *)
Definition index_of (f : bytes) : option nat := fst <$> list_find (f =.) frames.

Definition arrived (es : list Event) : gset nat := list_to_set (omap (λ e, match e with Take _ _ f => index_of f | Sweep _ => None end) es).

Lemma index_of_frame k f : frames !! k = Some f → index_of f = Some k.
Proof using Hframes Hn Hsizes Hw.
  intros Hk. unfold index_of. destruct (list_find (f =.) frames) as [[j g]|] eqn:E; [|exfalso; by eapply list_find_None, Forall_lookup_1 in E].
  apply list_find_Some in E as (Hj & <- & _). cbn. f_equal. by apply (frames_inj j k f).
Qed.

Lemma index_of_Some k f : index_of f = Some k → frames !! k = Some f.
Proof using. unfold index_of. destruct (list_find _ _) as [[j g]|] eqn:E; [|done]. cbn. intros [= ->]. by apply list_find_Some in E as (Hj & <- & _). Qed.

Lemma index_of_other f : (∀ k, frames !! k ≠ Some f) → index_of f = None.
Proof using. intros H. destruct (index_of f) as [k|] eqn:E; [|done]. by apply index_of_Some, H in E. Qed.

(** The receiver took this message's frames as they were sent, in time and with memory
    for them, among frames of other messages and of no message. *)
Definition event_fits (e : Event) : Prop :=
  ∀ i, event_id port e = Some i → i ∈ ids ∧ (i = w → ∃ now f k, e = Take now true f ∧ frames !! k = Some f).

(** A frame of the message. *)
Lemma event_part s now k f p got hi :
  room ids (REASSEMBLY s) → holds w parts got lo hi (view w (REASSEMBLY s)) → frames !! k = Some f → parts !! k = Some p → lo ≤ now → hi ≤ now →
  let '(o, s') := event_step ram port (Take now true f) s in
  room ids (REASSEMBLY s') ∧
  if decide (k ∈ got) then o = None ∧ holds w parts got lo now (view w (REASSEMBLY s'))
  else if decide (size got + 1 = length parts)%nat then o = Some (concat parts) ∧ view w (REASSEMBLY s') = None
  else o = None ∧ holds w parts ({[k]} ∪ got) lo now (view w (REASSEMBLY s')).
Proof using Hframes Hn Hsizes Hw Hwid Hafford.
  intros Hroom Hh Hf Hp Hnow Hhn. cbn [event_step]. destruct (frame_part k f Hf) as (p' & mac & Hp' & ->). assert (p' = p) as -> by congruence.
  set (h := part_header w parts k p). rewrite recv_round_fragment by (by apply part_header_ok || done). set (s1 := learn_mac _ _ s).
  assert (E1 : REASSEMBLY s1 = REASSEMBLY s) by apply REASSEMBLY_learn. destruct (insert_fragment_slot ids now true h s1) as (s' & -> & Hr & Hv & _); [by rewrite E1|done|].
  rewrite E1 in Hv |- *. change (h_id h) with w in *. pose proof (slot_result_part w parts lo Hn now k p got hi _ Hh Hp Hnow Hhn) as Hres. fold h in Hres.
  destruct (slot_result now true h (view w (REASSEMBLY s))) as [rd sl']. cbn [fst snd] in *.
  case_decide; [destruct Hres as [-> ?]; rewrite Hv; done|]. case_decide; [destruct Hres as [-> ->]; rewrite Hv; done|]. destruct Hres as (-> & ? & _); rewrite Hv; done.
Qed.

(** Until the last part arrives nothing of the message is delivered. *)
Lemma traffic_progress es : ∀ s got hi,
  room ids (REASSEMBLY s) → holds w parts got lo hi (view w (REASSEMBLY s)) → lo ≤ hi → in_time lo hi es → Forall event_fits es →
  (∃ k, (k < length parts)%nat ∧ k ∉ got ∪ arrived es) → got ⊆ set_seq 0 (length parts) →
  room ids (REASSEMBLY (events_run ram port es s)) ∧ holds w parts (got ∪ arrived es) lo (end_time hi es) (view w (REASSEMBLY (events_run ram port es s))) ∧
  (∀ e o, (e, o) ∈ events_out ram port es s → event_id port e = Some w → o = None).
Proof using Hframes Hn Hsizes Hw Hwid Hafford Hlo Hhi.
  induction es as [|e es IH]; intros s got hi Hroom Hh Hlohi Ht Hfits (j & Hj & Hjg) Hgot.
  { cbn. rewrite union_empty_r_L. split_and!; [done..|]. intros e o []%elem_of_nil. }
  destruct Ht as [[Ht1 Ht2] Ht]. apply Forall_cons in Hfits as [He Hfits]. set (s' := (event_step ram port e s).2).
  change (events_run ram port (e :: es) s) with (events_run ram port es s'). change (end_time hi (e :: es)) with (end_time (event_time e) es).
  assert (Hstep : ∃ got', got' ∪ arrived es = got ∪ arrived (e :: es) ∧ got' ⊆ set_seq 0 (length parts) ∧ room ids (REASSEMBLY s') ∧ holds w parts got' lo (event_time e) (view w (REASSEMBLY s')) ∧ (event_id port e = Some w → (event_step ram port e s).1 = None)).
  { destruct (decide (event_id port e = Some w)) as [Hown|Hno].
    - destruct (He w Hown) as [_ Hf]. destruct (Hf eq_refl) as (now & f & k & -> & Hk). destruct (frame_part k f Hk) as (p & _ & Hp & _). cbn [event_time] in *.
      assert (Harr : arrived (Take now true f :: es) = {[k]} ∪ arrived es). { unfold arrived. cbn. rewrite (index_of_frame k f Hk). done. }
      pose proof (event_part s now k f p got hi Hroom Hh Hk Hp ltac:(lia) ltac:(lia)) as Hres. destruct (event_step ram port (Take now true f) s) as [o s1] eqn:E. cbn [snd fst] in *. subst s'. cbn [snd].
      destruct Hres as [Hr Hres]. case_decide as Hin.
      + destruct Hres as [-> Hh']. exists got. rewrite Harr. split_and!; [|done..]. set_solver.
      + case_decide as Hsz; [|destruct Hres as [-> Hh']; exists ({[k]} ∪ got); rewrite Harr; split_and!; [set_solver| |done..]].
        * exfalso. assert (Hsub : {[j]} ∪ ({[k]} ∪ got) ⊆ (set_seq 0 (length parts) : gset nat)).
          { rewrite !union_subseteq, !singleton_subseteq_l, !elem_of_set_seq. pose proof (lookup_lt_Some _ _ _ Hp). split_and!; [lia..|done]. }
          apply subseteq_size in Hsub. rewrite size_set_seq, !size_union, !size_singleton in Hsub by set_solver. lia.
        * rewrite union_subseteq, singleton_subseteq_l, elem_of_set_seq. pose proof (lookup_lt_Some _ _ _ Hp). split; [lia|done].
    - exists got. destruct (event_other ids ram port e s w Hroom) as [Hr Hv].
      + intros i Hi. destruct (He i Hi) as [Hin _]. split; [done|]. intros ->. done.
      + intros now -> rs Hrs. rewrite Hrs in Hh. cbn [holds event_time] in *. pose proof (so_tick _ _ _ _ _ _ Hh) as Htk. unfold expired. rewrite u64_sub_small by lia. destruct (Z.ltb_spec 2000 (now - last_tick rs)); [lia|done].
      + fold s' in Hr, Hv. rewrite Hv. split_and!; [|done|done| |done].
        * unfold arrived. cbn. destruct e as [now|now r f]; [done|]. cbn in Hno. rewrite index_of_other; [done|]. intros k Hk. by apply frame_own in Hk.
        * destruct (view w (REASSEMBLY s)) as [rs|]; cbn [holds] in *; [|done]. by eapply slot_later. }
  destruct Hstep as (got' & Hg & Hsub & Hr & Hh' & Ho). destruct (IH s' got' (event_time e) Hr Hh' ltac:(lia) Ht Hfits) as (Hr2 & Hh2 & Ho2); [exists j; split; [done|by rewrite Hg]|done|].
  rewrite Hg in Hh2. split_and!; [done..|]. intros e' o. cbn [events_out]. destruct (event_step ram port e s) as [o1 s1] eqn:E. rewrite elem_of_cons. intros [[= -> ->]|Hin] Hid; [by apply Ho|]. by apply (Ho2 e' o).
Qed.
End Traffic.

End FragThm.
