(* ===== verification/MeshFragRun.v ===== *)
(** Sending and receiving a fragmented message: [send_fragmented] on one node and
    [recv_fragmented] on another ([k_nano/src/net/udp_broadcast.rs]). *)

From S2P Require Import Prelude MeshWire MeshPeers MeshFrag MeshFragThm.
Import Wire Peers.

Module FragRun.
Import Frag FragThm.

(** * The frames of a message *)

(** What the first card present was given to send. *)
Definition sent (n : Net) : list bytes :=
  match VIRTIO_DEV n, E1000 n, RTL8139 n with
  | Some c, _, _ | None, Some c, _ | None, None, Some c => txq c
  | None, None, None => []
  end.

Definition has_nic (n : Net) : Prop := is_Some (VIRTIO_DEV n) ∨ is_Some (E1000 n) ∨ is_Some (RTL8139 n).

Definition piece (payload : bytes) (k : Z) : bytes := slice (FRAG_MAX_CHUNK * k) FRAG_MAX_CHUNK payload.
Definition pieces (payload : bytes) : list bytes := piece payload <$> seqZ 0 (parts_of payload).

(** The frames that carry a message, in the order they are sent. *)
Definition frames_of (cfg : NetConfig) (id port : Z) (payload : bytes) : list bytes :=
  omap (λ k, build_udp_broadcast_frame cfg (fragment id (parts_of payload) k (zlen payload) (piece payload k)) port) (seqZ 0 (parts_of payload)).

Lemma sent_send f n : has_nic n → sent (nic_send_k f n) = sent n ++ [f] ∧ has_nic (nic_send_k f n) ∧ NET_CONFIG (nic_send_k f n) = NET_CONFIG n.
Proof.
  destruct n as [[v|] [e|] [r|] c t x]; unfold has_nic; cbn; intros H; (split; [done|split; [naive_solver|done]]) || (destruct H as [[? ?]|[[? ?]|[? ?]]]; done).
Qed.

Lemma broadcast_sends cfg payload port n :
  NET_CONFIG n = cfg → config_ok cfg → has_nic n → payload ≠ [] →
  ∃ f n', build_udp_broadcast_frame cfg payload port = Some f ∧ udp_broadcast_send payload port n = (true, n') ∧ sent n' = sent n ++ [f] ∧ has_nic n' ∧ NET_CONFIG n' = cfg.
Proof.
  intros <- Hc Hn Hp. unfold udp_broadcast_send. destruct (frame_some (NET_CONFIG n) payload (replicate 6 Byte.xff) port Hc Hp) as [f Hf].
  change (build_udp_broadcast_frame (NET_CONFIG n) payload port = Some f) in Hf. rewrite Hf. destruct (sent_send f n Hn) as (H1 & H2 & H3). eexists f, _. split_and!; try done.
Qed.

Lemma fragment_nonempty id t k l c : fragment id t k l c ≠ [].
Proof. done. Qed.

Lemma seqZ_cons' m n : 0 < n → seqZ m n = m :: seqZ (m + 1) (n - 1).
Proof. intros. rewrite seqZ_cons by lia. reflexivity. Qed.

Lemma send_parts_sends cfg n : ∀ idx off id total payload port s,
  NET_CONFIG s = cfg → config_ok cfg → has_nic s → ((0 < n)%nat → off = FRAG_MAX_CHUNK * idx ∧ FRAG_MAX_CHUNK * (idx + Z.of_nat n - 1) < zlen payload) → 0 ≤ idx →
  ∃ s', send_parts n idx off id total payload port true s = (true, s') ∧
    sent s' = sent s ++ omap (λ k, build_udp_broadcast_frame cfg (fragment id total k (zlen payload) (piece payload k)) port) (seqZ idx (Z.of_nat n)).
Proof.
  unfold FRAG_MAX_CHUNK. induction n as [|n IH]; intros idx off id total payload port s Hcfg Hc Hn Hoff Hi; cbn [send_parts].
  - exists s. split; [done|]. by rewrite seqZ_nil, app_nil_r by lia.
  - destruct Hoff as [-> Hlt]; [lia|]. unfold FRAG_MAX_CHUNK.
    assert (Hch : slice (1000 * idx) (Z.min (1000 * idx + 1000) (zlen payload) - 1000 * idx) payload = piece payload idx).
    { unfold piece, FRAG_MAX_CHUNK, slice. destruct (Z.le_gt_cases (1000 * idx + 1000) (zlen payload)); [f_equal; lia|]. rewrite !take_ge; [done|..]; rewrite length_drop; unfold zlen in *; lia. }
    rewrite Hch. destruct (broadcast_sends cfg (fragment id total idx (zlen payload) (piece payload idx)) port s Hcfg Hc Hn (fragment_nonempty _ _ _ _ _)) as (f & s1 & Hf & -> & Hs1 & Hn1 & Hc1).
    cbn [andb]. destruct (IH (idx + 1) (Z.min (1000 * idx + 1000) (zlen payload)) id total payload port s1 Hc1 Hc Hn1) as (s' & -> & Hs'); [intros; unfold FRAG_MAX_CHUNK; lia|lia|].
    exists s'. split; [done|]. rewrite Hs', Hs1, <-app_assoc. f_equal. rewrite (seqZ_cons' idx) by lia. cbn [omap list_omap]. rewrite Hf. cbn [app]. do 3 f_equal. lia.
Qed.

Lemma parts_of_bounds payload : 0 < zlen payload → 1 ≤ parts_of payload ∧ FRAG_MAX_CHUNK * (parts_of payload - 1) < zlen payload ≤ FRAG_MAX_CHUNK * parts_of payload.
Proof.
  intros Hp. unfold parts_of, FRAG_MAX_CHUNK. pose proof (Z.div_mod (zlen payload + 1000 - 1) 1000 ltac:(lia)). pose proof (Z.mod_pos_bound (zlen payload + 1000 - 1) 1000 ltac:(lia)). lia.
Qed.

Lemma concat_pieces payload n : 0 ≤ n → concat (piece payload <$> seqZ 0 n) = slice 0 (FRAG_MAX_CHUNK * n) payload.
Proof.
  intros Hn. revert n Hn. apply natlike_ind; [done|]. intros n Hn IH. unfold Z.succ. rewrite seqZ_app by lia. rewrite fmap_app, concat_app, IH, Z.add_0_l. rewrite (seqZ_cons' n 1), seqZ_nil by lia. rewrite fmap_cons, concat_cons, app_nil_r.
  replace (FRAG_MAX_CHUNK * (n + 1)) with (FRAG_MAX_CHUNK * n + FRAG_MAX_CHUNK) by (unfold FRAG_MAX_CHUNK; lia). rewrite (slice_add 0) by (unfold FRAG_MAX_CHUNK; lia). done.
Qed.

Lemma pieces_concat payload : 0 < zlen payload → concat (pieces payload) = payload.
Proof.
  intros Hp. destruct (parts_of_bounds payload Hp) as (H1 & _ & H2). unfold pieces. rewrite concat_pieces by lia. unfold slice. cbn. apply take_ge. unfold zlen in *. lia.
Qed.

Lemma pieces_sizes payload : 0 < zlen payload → Forall (λ p, 1 ≤ zlen p ≤ FRAG_MAX_CHUNK) (pieces payload).
Proof.
  intros Hp. destruct (parts_of_bounds payload Hp) as (H1 & H2 & H3). unfold pieces. apply Forall_fmap, Forall_forall. intros k (Hk1 & Hk2)%elem_of_seqZ. cbn. unfold piece, slice, zlen in *.
  rewrite length_take, length_drop. unfold FRAG_MAX_CHUNK in *. lia.
Qed.

Lemma length_pieces payload : Z.of_nat (length (pieces payload)) = Z.max 0 (parts_of payload).
Proof. unfold pieces. rewrite length_fmap, length_seqZ. lia. Qed.

(** [send_fragmented] succeeds and sends exactly these frames. *)
Lemma send_fragmented_sends payload port tx :
  config_ok (NET_CONFIG (net tx)) → has_nic (net tx) → FRAG_DIRECT_MAX < zlen payload ≤ FRAG_MAX_PAYLOAD →
  ∃ tx', send_fragmented payload port tx = (true, tx') ∧ sent (net tx') = sent (net tx) ++ frames_of (NET_CONFIG (net tx)) (FRAG_ID tx) port payload ∧ FRAG_ID tx' = (FRAG_ID tx + 1) mod 2 ^ 32.
Proof.
  intros Hc Hn [Hl1 Hl2]. unfold send_fragmented. destruct (Z.ltb_spec FRAG_MAX_PAYLOAD (zlen payload)); [lia|]. destruct (Z.leb_spec (zlen payload) FRAG_DIRECT_MAX); [lia|].
  unfold FRAG_DIRECT_MAX in Hl1. destruct (parts_of_bounds payload ltac:(lia)) as (H1 & H2 & H3).
  destruct (send_parts_sends (NET_CONFIG (net tx)) (Z.to_nat (parts_of payload)) 0 0 (FRAG_ID tx) (parts_of payload) payload port (net tx)) as (s' & -> & Hs); [done..| |lia|].
  - intros _. split; [lia|]. replace (0 + Z.of_nat (Z.to_nat (parts_of payload)) - 1) with (parts_of payload - 1) by lia. done.
  - eexists. split_and!; [done| |done]. cbn [net]. rewrite Hs, Z2Nat.id by lia. done.
Qed.

(** Each frame carries its fragment to the receiver. *)
Lemma frames_carry cfg id port payload :
  config_ok cfg → 0 ≤ port < 2 ^ 16 → 0 < zlen payload →
  Forall2 (λ f kp, ∃ mac, udp_payload port f = Some (header_fragment (part_header id (pieces payload) kp.1 kp.2), mac)) (frames_of cfg id port payload) (imap pair (pieces payload)).
Proof.
  intros Hc Hport Hp. pose proof (parts_of_bounds payload Hp) as (H1 & _ & _). unfold frames_of, pieces.
  assert (Hgen : ∀ n m, 0 ≤ m → Forall2 (λ f kp, ∃ mac, udp_payload port f = Some (header_fragment (part_header id (pieces payload) kp.1 kp.2), mac))
    (omap (λ k, build_udp_broadcast_frame cfg (fragment id (parts_of payload) k (zlen payload) (piece payload k)) port) (seqZ m (Z.of_nat n)))
    (imap (λ i x, ((Z.to_nat m + i)%nat, x)) (piece payload <$> seqZ m (Z.of_nat n)))).
  { induction n as [|n IH]; intros m Hm; [by rewrite !seqZ_nil by lia|]. rewrite (seqZ_cons' m) by lia. rewrite fmap_cons. cbn [omap list_omap imap].
    destruct (frame_some cfg (fragment id (parts_of payload) m (zlen payload) (piece payload m)) (replicate 6 Byte.xff) port Hc (fragment_nonempty _ _ _ _ _)) as [f Hf].
    change (build_udp_broadcast_frame cfg (fragment id (parts_of payload) m (zlen payload) (piece payload m)) port = Some f) in Hf. rewrite Hf. constructor.
    - exists (mac cfg). cbn [fst snd]. rewrite (frame_arrives cfg (fragment id (parts_of payload) m (zlen payload) (piece payload m)) (replicate 6 Byte.xff) port f Hc eq_refl); [|..|done|done].
      + unfold header_fragment, part_header. cbn [h_id h_total h_idx h_len h_chunk]. rewrite pieces_concat by done. unfold zlen at 2. rewrite length_pieces, Nat.add_0_r. do 3 f_equal; lia.
      + unfold fragment. autorewrite with zlen. change (zlen FRAG) with 5. assert (zlen (piece payload m) ≤ 1000) by (unfold piece, slice, zlen, FRAG_MAX_CHUNK; rewrite length_take; lia). unfold UDP_MAX. lia.
    - replace (Z.of_nat (S n) - 1) with (Z.of_nat n) by lia. specialize (IH (m + 1) ltac:(lia)). erewrite imap_ext; [exact IH|]. intros i x _. cbn. f_equal. lia. }
  specialize (Hgen (Z.to_nat (parts_of payload)) 0 ltac:(lia)). rewrite Z2Nat.id in Hgen by lia. exact Hgen.
Qed.

(** * Messages arrive whole *)

Definition take_frame (e : Event) : option bytes := match e with Take _ _ f => Some f | Sweep _ => None end.

(** The receiver takes every frame of the message, the frame [last] last and once, all
    within 2,000 ticks; the table has room for the messages in play; every other frame
    is of another message or of none. *)
Record delivery (port id lo : Z) (frames : list bytes) (ids : gset Z) (rx : Rx) (pre : list Event) (now : Z) (last : bytes) : Prop := mkDelivery {
  dl_room : room ids (REASSEMBLY rx);
  dl_id : id ∈ ids;
  dl_new : id ∉ tids (REASSEMBLY rx);
  dl_clock : 0 ≤ lo ∧ lo + 2000 < 2 ^ 64;
  dl_time : in_time lo lo (pre ++ [Take now true last]);
  dl_fits : Forall (event_fits port id frames ids) pre;
  dl_last : last ∈ frames ∧ last ∉ omap take_frame pre;
  dl_all : ∀ f, f ∈ frames → f = last ∨ f ∈ omap take_frame pre }.

Lemma in_time_app lo es e : ∀ hi, in_time lo hi (es ++ [e]) → in_time lo hi es ∧ end_time hi es ≤ event_time e ≤ lo + 2000.
Proof. induction es as [|e' es IH]; intros hi; cbn; [naive_solver|]. intros [H Ht]. destruct (IH _ Ht). done. Qed.

Lemma in_time_le lo es : ∀ hi, in_time lo hi es → hi ≤ end_time hi es.
Proof. induction es as [|e es IH]; intros hi; cbn; [lia|]. intros [H Ht]. specialize (IH _ Ht). unfold end_time in *. cbn. lia. Qed.

(** C24: A fragmented message arrives whole. What [send_fragmented] puts on the wire for a
    payload of 1,201 to 1,024,000 bytes, a receiver that can afford the memory for it takes
    in any order, any frame any number of times, within 2,000 ticks, mixed with frames of
    at most fifteen other messages, none of which has the same fragment identifier, and with
    any frames that are no fragments; whatever it does with those, nothing of the message
    is delivered before the last missing frame, and that frame delivers the payload, byte
    for byte. Frames of another sender with the same identifier would be mixed in
    ([senders_mix]). *)
Theorem fragments_reassemble payload port tx ram lo ids rx pre now last :
  let cfg := NET_CONFIG (net tx) in
  let frames := frames_of cfg (FRAG_ID tx) port payload in
  config_ok cfg → has_nic (net tx) → 0 ≤ FRAG_ID tx < 2 ^ 32 → 0 ≤ port < 2 ^ 16 →
  FRAG_DIRECT_MAX < zlen payload ≤ FRAG_MAX_PAYLOAD → can_afford_frag ram (zlen payload) = true →
  delivery port (FRAG_ID tx) lo frames ids rx pre now last →
  (∃ tx', send_fragmented payload port tx = (true, tx') ∧ sent (net tx') = sent (net tx) ++ frames) ∧
  (∀ e o, (e, o) ∈ events_out ram port pre rx → event_id port e = Some (FRAG_ID tx) → o = None) ∧
  (event_step ram port (Take now true last) (events_run ram port pre rx)).1 = Some payload.
Proof.
  intros cfg frames Hc Hn Hid Hport [Hl1 Hl2] Ha [Hroom Hin Hnew [Hlo Hhi] Ht Hfits [Hlast Honce] Hall]. unfold FRAG_DIRECT_MAX in Hl1.
  assert (Hp : 0 < zlen payload) by lia. split; [destruct (send_fragmented_sends payload port tx Hc Hn) as (tx' & H1 & H2 & _); [unfold FRAG_DIRECT_MAX; lia|by exists tx']|].
  pose proof (pieces_concat payload Hp) as Hcat. pose proof (frames_carry cfg (FRAG_ID tx) port payload Hc Hport Hp) as Hframes. fold frames in Hframes.
  assert (Hlen : (1 ≤ length (pieces payload) ≤ 1024)%nat).
  { destruct (parts_of_bounds payload Hp) as (H1 & H2 & _). pose proof (length_pieces payload). unfold FRAG_MAX_PAYLOAD, FRAG_MAX_PARTS, FRAG_MAX_CHUNK in *. lia. }
  rewrite <-Hcat in Ha. pose proof (pieces_sizes payload Hp) as Hsz. destruct (in_time_app lo pre _ lo Ht) as [Htp [Ht1 Ht2]]. cbn [event_time] in Ht1, Ht2. pose proof (in_time_le lo pre lo Htp).
  assert (Hfl : length frames = length (pieces payload)) by (rewrite (Forall2_length _ _ _ Hframes), length_imap; done).
  apply list_elem_of_lookup in Hlast as [k Hk]. pose proof (lookup_lt_Some _ _ _ Hk) as Hkl. rewrite Hfl in Hkl.
  assert (Hidx : ∀ j f, frames !! j = Some f → index_of frames f = Some j) by (intros j f Hj; by apply (index_of_frame port (FRAG_ID tx) (pieces payload) frames Hid Hlen Hsz Hframes)).
  assert (Hgot : arrived frames pre = set_seq 0 (length (pieces payload)) ∖ {[k]}).
  { apply leibniz_equiv. intros j. unfold arrived. rewrite elem_of_list_to_set, list_elem_of_omap, elem_of_difference, elem_of_set_seq, elem_of_singleton. split.
    - intros (e & He & Hi). destruct e as [?|t r f]; [done|]. apply index_of_Some in Hi. split; [apply lookup_lt_Some in Hi; lia|]. intros ->. rewrite Hk in Hi. injection Hi as ->. apply Honce, list_elem_of_omap. by exists (Take t r f).
    - intros [Hj Hjk]. destruct (lookup_lt_is_Some_2 frames j) as [f Hf]; [lia|]. destruct (Hall f) as [->|Hpre]; [by apply list_elem_of_lookup_2 in Hf| |].
      + apply Hidx in Hf. rewrite (Hidx k last Hk) in Hf. congruence.
      + apply list_elem_of_omap in Hpre as (e & He & Hf'). destruct e as [?|t r g]; [done|]. injection Hf' as ->. exists (Take t r f). split; [done|]. by apply Hidx. }
  assert (Hv0 : holds (FRAG_ID tx) (pieces payload) ∅ lo lo (view (FRAG_ID tx) (REASSEMBLY rx))) by (by rewrite (proj2 (view_None _ _) Hnew)).
  destruct (traffic_progress ram port (FRAG_ID tx) lo (pieces payload) frames ids Hid Hin Hlo Hhi Hlen Hsz Ha Hframes pre rx ∅ lo Hroom Hv0) as (Hr & Hh & Ho); [lia|done|done| |set_solver|].
  { exists k. split; [done|]. rewrite Hgot. set_solver. }
  split; [done|]. rewrite union_empty_l_L, Hgot in Hh. destruct (lookup_lt_is_Some_2 (pieces payload) k Hkl) as [p Hpk].
  pose proof (event_part ram port (FRAG_ID tx) lo (pieces payload) frames ids Hid Hin Hlen Hsz Ha Hframes _ now k last p _ _ Hr Hh Hk Hpk) as Hend.
  destruct (event_step ram port (Take now true last) (events_run ram port pre rx)) as [o s']. specialize (Hend ltac:(lia) Ht1) as [_ Hend]. rewrite decide_False in Hend by (intros [_ []]%elem_of_difference; by apply elem_of_singleton).
  rewrite decide_True in Hend; [destruct Hend as [-> _]; cbn; by rewrite Hcat|]. rewrite size_difference by (apply singleton_subseteq_l, elem_of_set_seq; lia). rewrite size_set_seq, size_singleton. lia.
Qed.

Definition tx0 : Tx :=
  mkTx (mkNet None (Some (mkNic [] [])) None (mkConfig [Byte.x0a; Byte.x00; Byte.x03; Byte.x02] [Byte.x52; Byte.x54; Byte.x00; Byte.x12; Byte.x34; Byte.x56]) 0 0) 1 0 0.
Definition rx0 : Rx := mkRx (replicate 16 None) 0 0 0 0 (mkMacs (replicate 16 None) []).
Definition sample : bytes := replicate 1200 Byte.x41 ++ [Byte.x42].
Definition sample_frames : list bytes := frames_of (NET_CONFIG (net tx0)) 1 P2P_PORT sample.
Definition sample_events : list Event := [Sweep 100; Take 100 true (sample_frames !!! 1%nat); Take 101 true [Byte.x00]; Take 105 true (sample_frames !!! 1%nat)].

Lemma sample_delivery : delivery P2P_PORT 1 100 sample_frames {[1]} rx0 sample_events 107 (sample_frames !!! 0%nat).
Proof.
  split.
  - split; [|intros i Hi; by apply elem_of_nil in Hi|rewrite size_singleton; lia]. split; [reflexivity|constructor].
  - by apply elem_of_singleton.
  - apply not_elem_of_nil.
  - split; [lia|reflexivity].
  - cbn. lia.
  - assert (H1 : event_fits P2P_PORT 1 sample_frames {[1]} (Take 100 true (sample_frames !!! 1%nat)) ∧ event_fits P2P_PORT 1 sample_frames {[1]} (Take 105 true (sample_frames !!! 1%nat))).
    { assert (E : frame_id P2P_PORT (sample_frames !!! 1%nat) = Some 1) by (vm_compute; reflexivity). assert (F : sample_frames !! 1%nat = Some (sample_frames !!! 1%nat)) by (vm_compute; reflexivity).
      split; intros i Hi; change (frame_id P2P_PORT (sample_frames !!! 1%nat) = Some i) in Hi; rewrite E in Hi; apply (inj Some) in Hi as <-; (split; [by apply elem_of_singleton|]); intros _.
      - exists 100, (sample_frames !!! 1%nat), 1%nat. split; [reflexivity|exact F].
      - exists 105, (sample_frames !!! 1%nat), 1%nat. split; [reflexivity|exact F]. }
    destruct H1 as [H1 H2]. apply Forall_cons. split; [intros i Hi; discriminate Hi|]. apply Forall_cons. split; [exact H1|]. apply Forall_cons. split; [|apply Forall_cons; split; [exact H2|apply Forall_nil_2]].
    intros i Hi. assert (E : event_id P2P_PORT (Take 101 true [Byte.x00]) = None) by (vm_compute; reflexivity). rewrite E in Hi. discriminate Hi.
  - split; apply (bool_decide_unpack _); vm_compute; reflexivity.
  - apply Forall_forall. apply (bool_decide_unpack _). vm_compute. reflexivity.
Qed.

Lemma fragments_reassemble_witness :
  (event_step 4096 P2P_PORT (Take 107 true (sample_frames !!! 0%nat)) (events_run 4096 P2P_PORT sample_events rx0)).1 = Some sample.
Proof.
  apply (fragments_reassemble sample P2P_PORT tx0 4096 100 {[1]} rx0 sample_events 107 (sample_frames !!! 0%nat)); [..|exact sample_delivery].
  - split; [reflexivity|]. split; [reflexivity|]. intros E. discriminate E.
  - right. left. by eexists.
  - cbn. lia.
  - vm_compute. split; [discriminate|reflexivity].
  - vm_compute. split; [reflexivity|discriminate].
  - vm_compute. reflexivity.
Defined.

(** * The loop that takes frames *)

Lemma waiting_recv n p n' : nic_recv_k n = Some (p, n') → waiting n = S (waiting n').
Proof.
  destruct n as [v e r c t x]. unfold nic_recv_k, nic_recv, waiting. cbn [VIRTIO_DEV E1000 RTL8139].
  destruct v as [[[|p1 q1] t1]|], e as [[[|p2 q2] t2]|], r as [[[|p3 q3] t3]|]; cbn; intros E; inversion E; subst; cbn; lia.
Qed.

Lemma recv_loop_waiting k accept : ∀ n r n', recv_loop k accept n = (r, n') → (waiting n' ≤ waiting n)%nat ∧ (r ≠ None → (waiting n' < waiting n)%nat).
Proof.
  induction k as [|k IH]; intros n r n'; cbn [recv_loop]; [intros [= <- <-]; split; [done|done]|].
  destruct (nic_recv_k n) as [[p n1]|] eqn:E; [|intros [= <- <-]; split; [done|done]]. apply waiting_recv in E. change (waiting (count_rx n1)) with (waiting n1).
  destruct (accept p); [intros [= <- <-]; change (waiting (count_rx n1)) with (waiting n1); split; [lia|intros; lia]|]. intros H. apply IH in H as [H1 H2]. change (waiting (count_rx n1)) with (waiting n1) in *. split; [lia|]. intros Hr. specialize (H2 Hr). lia.
Qed.

(** What a call took and what it did with it, round by round. *)
Definition rounds_run (ram_mb : Z) (l : list (Z * bool * bytes * bytes)) (s : Rx) : Round * Rx :=
  fold_left (λ rs x, match rs.1 with Continue => recv_round ram_mb x.1.1.1 x.1.1.2 x.1.2 x.2 rs.2 | Return _ => rs end) l (Continue, s).

(** A call of [recv_fragmented] always returns: it sweeps the table, then takes packets
    until one ends the loop or no card has another. *)
Lemma recv_fragmented_total ram port now env n s :
  ∃ l r n' s', recv_fragmented ram port now env n s = Some (r, n', s') ∧ (waiting n' ≤ waiting n)%nat ∧
    (rounds_run ram l (sweep_rx now s) = (Return r, s') ∨ rounds_run ram l (sweep_rx now s) = (Continue, s') ∧ r = None).
Proof.
  unfold recv_fragmented. generalize (sweep_rx now s) as s0. assert (Hf : (waiting n < S (waiting n))%nat) by lia. revert Hf. generalize (S (waiting n)) as fuel. intros fuel. generalize 0%nat as k. clear s.
  revert n. induction fuel as [|fuel IH]; intros n k Hf s; [lia|]. cbn [recv_rounds]. destruct (udp_broadcast_recv_with_mac port n) as [[[pkt mac]|] n1] eqn:E; apply recv_loop_waiting in E as [Hle Hlt].
  - specialize (Hlt ltac:(done)). destruct (recv_round ram (env k).1 (env k).2 pkt mac s) as [[|r] s1] eqn:R.
    + destruct (IH n1 (S k) ltac:(lia) s1) as (l & r & n' & s' & -> & Hw & Hl). exists ((env k, pkt, mac) :: l), r, n', s'. split; [done|]. split; [lia|].
      unfold rounds_run in *. cbn [fold_left fst snd]. by rewrite R.
    + exists [(env k, pkt, mac)], r, n1, s1. split; [done|]. split; [lia|]. left. unfold rounds_run. cbn. by rewrite R.
  - exists [], None, n1, s. split; [done|]. split; [done|]. by right.
Qed.

(** Message identifiers are per sender but the table does not know senders: fragments of
    two nodes' first messages make a message that neither sent. *)
Definition other_sample : bytes := replicate 1000 Byte.x43 ++ replicate 201 Byte.x44.
Definition other_frames : list bytes :=
  frames_of (mkConfig [Byte.x0a; Byte.x00; Byte.x03; Byte.x03] [Byte.x52; Byte.x54; Byte.x00; Byte.x12; Byte.x34; Byte.x57]) 1 P2P_PORT other_sample.

Lemma senders_mix :
  let s := events_run 4096 P2P_PORT [Sweep 100; Take 100 true (sample_frames !!! 0%nat)] rx0 in
  (event_step 4096 P2P_PORT (Take 101 true (other_frames !!! 1%nat)) s).1 = Some (replicate 1000 Byte.x41 ++ replicate 201 Byte.x44).
Proof. vm_compute. reflexivity. Qed.

End FragRun.
