(* ===== verification/MeshAuth.v ===== *)
(** Authentication of mesh packets: SHA-256 ([k_nano/src/tpm.rs]), HMAC and sealing
    ([k_nano/src/crypto.rs]), the session identity ([k_nano/src/identity.rs]) and the
    signed and sealed forms of a packet ([k_nano/src/net/udp_broadcast.rs]). *)

From S2P Require Import Prelude MeshWire MeshPeers.
Import Wire Peers.

(** * SHA-256 *)

Module Sha.

(** The table of [tpm.rs], row by row. *)
Definition K : list Z := concat
  [[0x428a2f98; 0x71374491; 0xb5c0fbcf; 0xe9b5dba5];
   [0x3956c25b; 0x59f111f1; 0x923f82a4; 0xab1c5ed5];
   [0xd807aa98; 0x12835b01; 0x243185be; 0x550c7dc3];
   [0x72be5d74; 0x80deb1fe; 0x9bdc06a7; 0xc19bf174];
   [0xe49b69c1; 0xefbe4786; 0x0fc19dc6; 0x240ca1cc];
   [0x2de92c6f; 0x4a7484aa; 0x5cb0a9dc; 0x76f988da];
   [0x983e5152; 0xa831c66d; 0xb00327c8; 0xbf597fc7];
   [0xc6e00bf3; 0xd5a79147; 0x06ca6351; 0x14292967];
   [0x27b70a85; 0x2e1b2138; 0x4d2c6dfc; 0x53380d13];
   [0x650a7354; 0x766a0abb; 0x81c2c92e; 0x92722c85];
   [0xa2bfe8a1; 0xa81a664b; 0xc24b8b70; 0xc76c51a3];
   [0xd192e819; 0xd6990624; 0xf40e3585; 0x106aa070];
   [0x19a4c116; 0x1e376c08; 0x2748774c; 0x34b0bcb5];
   [0x391c0cb3; 0x4ed8aa4a; 0x5b9cca4f; 0x682e6ff3];
   [0x748f82ee; 0x78a5636f; 0x84c87814; 0x8cc70208];
   [0x90befffa; 0xa4506ceb; 0xbef9a3f7; 0xc67178f2]].

Definition u32_add (a b : Z) : Z := (a + b) mod 2 ^ 32.
Definition rotate_right (x r : Z) : Z := Z.lor (Z.shiftr x r) (Z.shiftl x (32 - r) mod 2 ^ 32).
Definition u32_not (x : Z) : Z := U32_MAX - x.

(** [w[16..64]], one word after the other *)
Definition extend (w : list Z) (i : nat) : list Z :=
  let s0 := Z.lxor (Z.lxor (rotate_right (w !!! (i - 15)%nat) 7) (rotate_right (w !!! (i - 15)%nat) 18)) (Z.shiftr (w !!! (i - 15)%nat) 3) in
  let s1 := Z.lxor (Z.lxor (rotate_right (w !!! (i - 2)%nat) 17) (rotate_right (w !!! (i - 2)%nat) 19)) (Z.shiftr (w !!! (i - 2)%nat) 10) in
  w ++ [u32_add (u32_add (u32_add (w !!! (i - 16)%nat) s0) (w !!! (i - 7)%nat)) s1].

Record State := mkState { sa : Z; sb : Z; sc : Z; sd : Z; se : Z; sf : Z; sg : Z; sh : Z }.

Definition compress (w : list Z) (s : State) (i : nat) : State :=
  let '(mkState a b c d e f g h) := s in
  let s1 := Z.lxor (Z.lxor (rotate_right e 6) (rotate_right e 11)) (rotate_right e 25) in
  let ch := Z.lxor (Z.land e f) (Z.land (u32_not e) g) in
  let t1 := u32_add (u32_add (u32_add (u32_add h s1) ch) (K !!! i)) (w !!! i) in
  let s0 := Z.lxor (Z.lxor (rotate_right a 2) (rotate_right a 13)) (rotate_right a 22) in
  let maj := Z.lxor (Z.lxor (Z.land a b) (Z.land a c)) (Z.land b c) in
  let t2 := u32_add s0 maj in
  mkState (u32_add t1 t2) a b c (u32_add d t1) e f g.

Definition block_words (block : bytes) : list Z := (λ i, from_be_bytes (slice (4 * Z.of_nat i) 4 block)) <$> seq 0 16.

Definition sha256_round (state : State) (block : bytes) : State :=
  let w := fold_left extend (seq 16 48) (block_words block) in
  let r := fold_left (compress w) (seq 0 64) state in
  mkState (u32_add (sa state) (sa r)) (u32_add (sb state) (sb r)) (u32_add (sc state) (sc r)) (u32_add (sd state) (sd r))
    (u32_add (se state) (se r)) (u32_add (sf state) (sf r)) (u32_add (sg state) (sg r)) (u32_add (sh state) (sh r)).

Definition initial : State :=
  mkState 0x6a09e667 0xbb67ae85 0x3c6ef372 0xa54ff53a 0x510e527f 0x9b05688c 0x1f83d9ab 0x5be0cd19.

Definition digest (s : State) : bytes :=
  concat (to_be_bytes 4 <$> [sa s; sb s; sc s; sd s; se s; sf s; sg s; sh s]).

Definition sha256 (data : bytes) : bytes :=
  let full_blocks := zlen data / 64 in
  let state := fold_left (λ st b, sha256_round st (slice (b * 64) 64 data)) (seqZ 0 full_blocks) initial in
  let remaining := zlen data mod 64 in
  let last := splice 0 (drop (Z.to_nat (full_blocks * 64)) data) (replicate 64 Byte.x00) in
  let bit_len := to_be_bytes 8 (u64_mul (zlen data) 8) in
  let last := splice remaining [Byte.x80] last in
  digest
    (if remaining <? 56 then sha256_round state (splice 56 bit_len last)
     else sha256_round (sha256_round state last) (splice 56 bit_len (replicate 64 Byte.x00))).

Lemma length_to_be_bytes m z : length (to_be_bytes m z) = m.
Proof. pose proof (zlen_to_be_bytes m z) as H. unfold zlen in H. lia. Qed.

(** The vector of FIPS 180-4 that the unit test has. *)
Lemma sha256_abc : sha256 [Byte.x61; Byte.x62; Byte.x63] =
  [Byte.xba; Byte.x78; Byte.x16; Byte.xbf; Byte.x8f; Byte.x01; Byte.xcf; Byte.xea; Byte.x41; Byte.x41; Byte.x40; Byte.xde; Byte.x5d; Byte.xae; Byte.x22; Byte.x23;
   Byte.xb0; Byte.x03; Byte.x61; Byte.xa3; Byte.x96; Byte.x17; Byte.x7a; Byte.x9c; Byte.xb4; Byte.x10; Byte.xff; Byte.x61; Byte.xf2; Byte.x00; Byte.x15; Byte.xad].
Proof. vm_compute. reflexivity. Qed.

End Sha.

(** * Signing and sealing *)

Module Auth.
Import Sha.

Definition HMAC_TAG_LEN : Z := 32.
Definition HMAC_BLOCK_LEN : Z := 64.
Definition SIGNATURE_LEN : Z := 64.
Definition AEAD_TAG_LEN : Z := 16.

Definition xor_byte (b c : Byte.byte) : Byte.byte := byte.of_Z (Z.lxor (byte.unsigned b) (byte.unsigned c)).

Definition hmac_sha256 (key data : bytes) : bytes :=
  let k := if HMAC_BLOCK_LEN <? zlen key then splice 0 (sha256 key) (replicate 64 Byte.x00) else splice 0 key (replicate 64 Byte.x00) in
  let ipad := xor_byte Byte.x36 <$> k in
  let opad := xor_byte Byte.x5c <$> k in
  let inner_hash := sha256 (ipad ++ data) in
  sha256 (opad ++ inner_hash).

(** [diff |= a[i] ^ b[i]], without an early exit *)
Definition ct_eq (a b : bytes) : bool :=
  if negb (zlen a =? zlen b) then false else
  fold_left (λ diff xy, Z.lor diff (Z.lxor (byte.unsigned xy.1) (byte.unsigned xy.2))) (zip a b) 0 =? 0.

(** ** The crates behind it

    [ed25519_compact] and [chacha20poly1305]: keys, signatures, the Diffie-Hellman
    exchange and the authenticated cipher. *)

Class Ed25519 := {
  pk_of_seed : bytes → bytes;                      (* KeyPair::from_seed(seed).pk *)
  ed_sign : bytes → bytes → bytes;                 (* KeyPair::from_seed(seed).sk.sign(message) *)
  ed_verify : bytes → bytes → bytes → bool;        (* PublicKey::from_slice(pk)?.verify(message, sig).is_ok() *)
  x_sk : bytes → option bytes;                     (* x25519::SecretKey::from_ed25519 *)
  x_pk : bytes → option bytes;                     (* x25519::PublicKey::from_ed25519 *)
  x_dh : bytes → bytes → option bytes }.           (* xpk.dh(&xsk) *)

Class ChaCha := {
  cc_encrypt : bytes → bytes → bytes → bytes → option bytes;    (* key nonce aad msg *)
  cc_decrypt : bytes → bytes → bytes → bytes → option bytes }.

(** What the documentation of the two crates promises. *)
Class CryptoLaws `{Ed25519, ChaCha} : Prop := {
  sign_len : ∀ seed m, zlen (ed_sign seed m) = SIGNATURE_LEN;
  verify_sign : ∀ seed m, ed_verify (pk_of_seed seed) m (ed_sign seed m) = true;
  dh_agree : ∀ s1 s2 k1 k2 p1 p2,
    x_sk s1 = Some k1 → x_sk s2 = Some k2 → x_pk (pk_of_seed s1) = Some p1 → x_pk (pk_of_seed s2) = Some p2 → x_dh p2 k1 = x_dh p1 k2;
  encrypt_len : ∀ k n a m c, cc_encrypt k n a m = Some c → zlen c = zlen m + AEAD_TAG_LEN;
  decrypt_encrypt : ∀ k n a m c, cc_encrypt k n a m = Some c → cc_decrypt k n a c = Some m }.

Section Auth.
Context `{Ed25519, ChaCha}.

(** [SESSION_READY], [SESSION_SK], [SESSION_PK]; the cached keys of [crypto.rs] *)
Record Session := mkSession { SESSION_READY : bool; SESSION_SK : option bytes; SESSION_PK : bytes }.
Record Caches := mkCaches { LOCAL_XSK : option bytes; AEAD_KEYS : list (option (bytes * bytes)) }.

Definition verify_signature (public_key message signature : bytes) : bool := ed_verify public_key message signature.

(** [seed] is what [mix_session_seed] read from the hardware *)
Definition init_session_identity (seed : bytes) (s : Session) : Session :=
  if SESSION_READY s then s else mkSession true (Some seed) (pk_of_seed seed).

Definition session_public_key (s : Session) : option bytes :=
  if negb (SESSION_READY s) then None else if bool_decide (SESSION_PK s = replicate 32 Byte.x00) then None else Some (SESSION_PK s).

Definition session_seed (s : Session) : option bytes := SESSION_SK s.

Definition sign_session (message : bytes) (s : Session) : option bytes := (λ seed, ed_sign seed message) <$> SESSION_SK s.

Definition verify_keys (keys : list bytes) (message signature : bytes) : bool := existsb (λ key, verify_signature key message signature) keys.

(** [trusted] is [TRUSTED_PUBLIC_KEYS] *)
Definition verify_pinned (trusted : list bytes) (message signature : bytes) : bool := verify_keys trusted message signature.

Definition verify_trusted (trusted : list bytes) (s : Session) (message signature : bytes) : bool :=
  if verify_keys trusted message signature then true else
  if SESSION_READY s then
    negb (bool_decide (SESSION_PK s = replicate 32 Byte.x00)) && verify_signature (SESSION_PK s) message signature
  else false.

Definition verify_update_signature (trusted : list bytes) (digest signature : bytes) : bool := verify_pinned trusted digest signature.

Definition verify_kernel_signature (trusted : list bytes) (s : Session) (kernel_data : bytes) : bool :=
  if zlen kernel_data <? SIGNATURE_LEN then false else
  let data_len := zlen kernel_data - SIGNATURE_LEN in
  verify_trusted trusted s (slice 0 data_len kernel_data) (slice data_len SIGNATURE_LEN kernel_data).

(** ** Sealing *)

Definition local_x25519_sk (s : Session) (c : Caches) : option bytes * Caches :=
  match LOCAL_XSK c with
  | Some sk => (Some sk, c)
  | None =>
    match seed ← session_seed s; x_sk seed with
    | Some xsk => (Some xsk, mkCaches (Some xsk) (AEAD_KEYS c))
    | None => (None, c)
    end
  end.

Fixpoint cached_key (pk : bytes) (t : list (option (bytes * bytes))) : option bytes :=
  match t with
  | [] => None
  | Some (pk', key) :: t => if bool_decide (pk' = pk) then Some key else cached_key pk t
  | None :: t => cached_key pk t
  end.

Fixpoint cache_key (pk key : bytes) (t : list (option (bytes * bytes))) : list (option (bytes * bytes)) :=
  match t with
  | [] => []
  | Some e :: t => Some e :: cache_key pk key t
  | None :: t => Some (pk, key) :: t
  end.

Definition aead_key_for_peer (s : Session) (peer_ed_pk : bytes) (c : Caches) : option bytes * Caches :=
  match cached_key peer_ed_pk (AEAD_KEYS c) with
  | Some key => (Some key, c)
  | None =>
    let '(xsk, c) := local_x25519_sk s c in
    match xsk ← xsk; xpk ← x_pk peer_ed_pk; x_dh xpk xsk with
    | None => (None, c)
    | Some dh => let key := sha256 dh in (Some key, mkCaches (LOCAL_XSK c) (cache_key peer_ed_pk key (AEAD_KEYS c)))
    end
  end.

Definition aead_nonce (source_id clock : Z) : bytes := to_be_bytes 4 source_id ++ to_be_bytes 8 clock.

Definition with_encrypted (p : AiosTaskPacket) : AiosTaskPacket :=
  mkPacket (magic p) (clock p) (source_id p) (dest_id p) (task_type p) (priority p) (tensor_len p) (param_len p)
    (mkFlags (persist (flags p)) (require_ack (flags p)) (compressed (flags p)) true (_reserved (flags p))) (reserved p).

Definition aead_seal (s : Session) (serialized peer_ed_pk : bytes) (c : Caches) : option bytes * Caches :=
  if zlen serialized <? PACKET_HEADER_SIZE then (None, c) else
  match parse serialized with
  | None => (None, c)
  | Some pkt =>
    let '(key, c) := aead_key_for_peer s peer_ed_pk c in
    match key with
    | None => (None, c)
    | Some key =>
      let header := serialize (with_encrypted pkt) in
      let payload := drop (Z.to_nat PACKET_HEADER_SIZE) serialized in
      ((λ ct, header ++ ct) <$> cc_encrypt key (aead_nonce (source_id pkt) (clock pkt)) header payload, c)
    end
  end.

Definition aead_open (s : Session) (wire source_ed_pk : bytes) (c : Caches) : option bytes * Caches :=
  if zlen wire <? PACKET_HEADER_SIZE + AEAD_TAG_LEN then (None, c) else
  match parse wire with
  | None => (None, c)
  | Some pkt =>
    if negb (encrypted (flags pkt)) then (None, c) else
    let '(key, c) := aead_key_for_peer s source_ed_pk c in
    match key with
    | None => (None, c)
    | Some key =>
      let header := slice 0 PACKET_HEADER_SIZE wire in
      let ct := drop (Z.to_nat PACKET_HEADER_SIZE) wire in
      ((λ pt, header ++ pt) <$> cc_decrypt key (aead_nonce (source_id pkt) (clock pkt)) header ct, c)
    end
  end.

(** ** Packets on the wire *)

Definition sign_packet_authentic (s : Session) (serialized : bytes) : option bytes := (λ sig, serialized ++ sig) <$> sign_session serialized s.

(** [segment] is [segment_key()] *)
Definition sign_packet_tiered (segment : option bytes) (s : Session) (serialized : bytes) : option bytes :=
  match segment with
  | Some key => Some (serialized ++ hmac_sha256 key serialized)
  | None => sign_packet_authentic s serialized
  end.

Definition sign_packet (segment : option bytes) (s : Session) (serialized : bytes) : option bytes := sign_packet_tiered segment s serialized.

Definition verify_packet (data pk : bytes) : option bytes :=
  if zlen data <? PACKET_HEADER_SIZE + SIGNATURE_LEN then None else
  let sig_offset := zlen data - SIGNATURE_LEN in
  let pkt_data := slice 0 sig_offset data in
  if verify_signature pk pkt_data (slice sig_offset SIGNATURE_LEN data) then Some pkt_data else None.

Definition verify_packet_tiered (segment : option bytes) (data pk : bytes) : option bytes :=
  match segment with
  | Some key =>
    if zlen data <? PACKET_HEADER_SIZE + HMAC_TAG_LEN then None else
    let tag_offset := zlen data - HMAC_TAG_LEN in
    let pkt_data := slice 0 tag_offset data in
    if ct_eq (slice tag_offset HMAC_TAG_LEN data) (hmac_sha256 key pkt_data) then Some pkt_data else None
  | None => verify_packet data pk
  end.

(** The peer's key comes from the table of bound peers. *)
Definition seal_packet_tiered (segment : option bytes) (s : Session) (k : Keys) (serialized : bytes) (dest_id : Z) (c : Caches) : option bytes * Caches :=
  match segment, (if dest_id =? 0xFF then None else peer_public_key dest_id k) with
  | None, Some pk =>
    let '(sealed, c) := aead_seal s serialized pk c in
    match sealed with Some sealed => (Some sealed, c) | None => (sign_packet_tiered segment s serialized, c) end
  | _, _ => (sign_packet_tiered segment s serialized, c)
  end.

Definition verify_or_open_tiered (segment : option bytes) (s : Session) (data pk : bytes) (c : Caches) : option bytes * Caches :=
  match parse data with
  | None => (None, c)
  | Some pkt => if encrypted (flags pkt) then aead_open s data pk c else (verify_packet_tiered segment data pk, c)
  end.
End Auth.

(** ** Tags *)

Lemma zlen_digest st : zlen (digest st) = 32.
Proof. unfold digest. cbn [fmap list_fmap concat]. rewrite !zlen_app, !zlen_to_be_bytes. done. Qed.

Lemma zlen_hmac key data : zlen (hmac_sha256 key data) = HMAC_TAG_LEN.
Proof. unfold hmac_sha256, sha256 at 1. apply zlen_digest. Qed.

Lemma lor_0_iff a b : 0 ≤ a → 0 ≤ b → Z.lor a b = 0 ↔ a = 0 ∧ b = 0.
Proof. intros. apply Z.lor_eq_0_iff. Qed.

Lemma lxor_nonneg_bytes (x y : Byte.byte) : 0 ≤ Z.lxor (byte.unsigned x) (byte.unsigned y).
Proof. apply Z.lxor_nonneg. pose proof (byte.unsigned_range x). pose proof (byte.unsigned_range y). lia. Qed.

Lemma byte_unsigned_inj (x y : Byte.byte) : byte.unsigned x = byte.unsigned y → x = y.
Proof. intros E. rewrite <-(byte.of_Z_unsigned x), <-(byte.of_Z_unsigned y). by rewrite E. Qed.

(** The comparison without early exit is equality. *)
Lemma ct_eq_spec a b : ct_eq a b = bool_decide (a = b).
Proof.
  unfold ct_eq. destruct (Z.eqb_spec (zlen a) (zlen b)) as [Hl|Hl]; cbn [negb]; [|symmetry; apply bool_decide_false; congruence].
  assert (Hf : ∀ d, 0 ≤ d → fold_left (λ diff xy, Z.lor diff (Z.lxor (byte.unsigned xy.1) (byte.unsigned xy.2))) (zip a b) d = 0 ↔ d = 0 ∧ a = b).
  { revert b Hl. induction a as [|x a IH]; intros [|y b] Hl d Hd; rewrite ?zlen_cons in Hl; try (change (zlen (@nil Byte.byte)) with 0 in Hl); try (pose proof (zlen_nonneg a); lia); try (pose proof (zlen_nonneg b); lia); [cbn; naive_solver|].
    change (zip (x :: a) (y :: b)) with ((x, y) :: zip a b). rewrite fold_left_cons. cbn [fst snd]. pose proof (lxor_nonneg_bytes x y). rewrite IH by (lia || (apply Z.lor_nonneg; done)). rewrite lor_0_iff by done. rewrite Z.lxor_eq_0_iff.
    split; [intros [[-> E%byte_unsigned_inj] ->]; by subst|intros [-> [= -> ->]]; done]. }
  specialize (Hf 0 ltac:(lia)). match goal with |- (?f =? 0) = _ => destruct (Z.eqb_spec f 0) as [E|E] end; [symmetry; apply bool_decide_true, Hf, E|symmetry; apply bool_decide_false]. intros ->. apply E, Hf. done.
Qed.

(** The vector of RFC 4231 that the self-test has. *)
Lemma hmac_self_test : hmac_sha256 (replicate 20 Byte.x0b) [Byte.x48; Byte.x69; Byte.x20; Byte.x54; Byte.x68; Byte.x65; Byte.x72; Byte.x65] =
  [Byte.xb0; Byte.x34; Byte.x4c; Byte.x61; Byte.xd8; Byte.xdb; Byte.x38; Byte.x53; Byte.x5c; Byte.xa8; Byte.xaf; Byte.xce; Byte.xaf; Byte.x0b; Byte.xf1; Byte.x2b;
   Byte.x88; Byte.x1d; Byte.xc2; Byte.x00; Byte.xc9; Byte.x83; Byte.x3d; Byte.xa7; Byte.x26; Byte.xe9; Byte.x37; Byte.x6c; Byte.x2e; Byte.x32; Byte.xcf; Byte.xf7].
Proof. vm_compute. reflexivity. Qed.

(** Two clocks, or two sources, never share a nonce. *)
Lemma aead_nonce_inj s1 c1 s2 c2 : 0 ≤ s1 < 2 ^ 8 → 0 ≤ s2 < 2 ^ 8 → 0 ≤ c1 < 2 ^ 64 → 0 ≤ c2 < 2 ^ 64 → aead_nonce s1 c1 = aead_nonce s2 c2 → s1 = s2 ∧ c1 = c2.
Proof.
  intros H1 H2 H3 H4 E. unfold aead_nonce in E. apply app_inj_1 in E as [E1 E2]; [|by rewrite !length_to_be_bytes].
  apply (f_equal from_be_bytes) in E1, E2. rewrite !from_to_be_bytes in E1 by (change (2 ^ (Z.of_nat 4 * 8)) with 4294967296; lia). rewrite !from_to_be_bytes in E2 by done. done.
Qed.

Section Laws.
Context `{CryptoLaws}.

Lemma verify_packet_signed pk pkt sig : PACKET_HEADER_SIZE ≤ zlen pkt → zlen sig = SIGNATURE_LEN → verify_packet (pkt ++ sig) pk = if ed_verify pk pkt sig then Some pkt else None.
Proof.
  intros Hp Hs. unfold verify_packet. rewrite zlen_app, Hs. destruct (Z.ltb_spec (zlen pkt + SIGNATURE_LEN) (PACKET_HEADER_SIZE + SIGNATURE_LEN)); [lia|].
  replace (zlen pkt + SIGNATURE_LEN - SIGNATURE_LEN) with (zlen pkt) by lia. rewrite slice_app_exact by done. rewrite slice_app_r by lia. rewrite Z.sub_diag, <-Hs, slice_full. done.
Qed.

(** What either tier signs, the same tier verifies, back to the packet. *)
Lemma signed_packet_verifies segment s seed pkt wire :
  SESSION_SK s = Some seed → PACKET_HEADER_SIZE ≤ zlen pkt → sign_packet_tiered segment s pkt = Some wire → verify_packet_tiered segment wire (pk_of_seed seed) = Some pkt.
Proof.
  intros Hs Hp. unfold sign_packet_tiered, verify_packet_tiered, sign_packet_authentic, sign_session. destruct segment as [key|].
  - intros E. apply (inj Some) in E as <-. rewrite zlen_app, zlen_hmac. destruct (Z.ltb_spec (zlen pkt + HMAC_TAG_LEN) (PACKET_HEADER_SIZE + HMAC_TAG_LEN)); [lia|].
    replace (zlen pkt + HMAC_TAG_LEN - HMAC_TAG_LEN) with (zlen pkt) by lia. rewrite slice_app_exact by done. rewrite slice_app_r by lia. rewrite Z.sub_diag, <-(zlen_hmac key pkt), slice_full.
    by rewrite ct_eq_spec, bool_decide_true.
  - rewrite Hs. cbn. intros [= <-]. rewrite verify_packet_signed by (done || apply sign_len). by rewrite verify_sign.
Qed.

(** The key two nodes share, computed by one of them. *)
Definition shared_key (s : Session) (pk : bytes) : option bytes := seed ← SESSION_SK s; xsk ← x_sk seed; xpk ← x_pk pk; sha256 <$> x_dh xpk xsk.

(** The caches hold what would be computed. *)
Record caches_ok (s : Session) (c : Caches) : Prop := mkCachesOk {
  co_xsk : ∀ k, LOCAL_XSK c = Some k → (seed ← SESSION_SK s; x_sk seed) = Some k;
  co_keys : ∀ pk key, Some (pk, key) ∈ AEAD_KEYS c → shared_key s pk = Some key }.

Lemma cached_key_Some pk key t : cached_key pk t = Some key → Some (pk, key) ∈ t.
Proof.
  induction t as [|[[pk' key']|] t IH]; cbn [cached_key]; [done| |]; rewrite elem_of_cons; [|intros; right; by apply IH]. case_bool_decide as E; [intros [= <-]; left; by subst|intros; right; by apply IH].
Qed.

Lemma cache_key_elem pk key t e : e ∈ cache_key pk key t → e ∈ t ∨ e = Some (pk, key).
Proof. induction t as [|[x|] t IH]; cbn [cache_key]; [by left| |]; rewrite !elem_of_cons; naive_solver. Qed.

Lemma key_for_peer s pk c : caches_ok s c → ∃ c', aead_key_for_peer s pk c = (shared_key s pk, c') ∧ caches_ok s c'.
Proof.
  intros Hc. pose proof Hc as [Hx Hk]. unfold aead_key_for_peer. destruct (cached_key pk (AEAD_KEYS c)) as [key|] eqn:E.
  { apply cached_key_Some, Hk in E. exists c. by rewrite E. }
  assert (Hl : ∃ c1, local_x25519_sk s c = (seed ← SESSION_SK s; x_sk seed, c1) ∧ caches_ok s c1 ∧ AEAD_KEYS c1 = AEAD_KEYS c).
  { unfold local_x25519_sk, session_seed. destruct (LOCAL_XSK c) as [k|] eqn:L; [exists c; by rewrite (Hx k eq_refl)|]. destruct (seed ← SESSION_SK s; x_sk seed) as [k|] eqn:M; [|by exists c].
    eexists. split; [done|]. split; [|done]. split; cbn; [by intros ? [= <-]|done]. }
  destruct Hl as (c1 & -> & Hc1 & Hkeys). unfold shared_key. destruct (SESSION_SK s) as [seed|] eqn:Es; cbn [mbind option_bind]; [|exists c1; done].
  destruct (x_sk seed) as [xsk|] eqn:Ex; cbn [mbind option_bind]; [|by exists c1]. destruct (x_pk pk) as [xpk|] eqn:Ep; cbn [mbind option_bind]; [|by exists c1]. destruct (x_dh xpk xsk) as [dh|] eqn:Ed; cbn [fmap option_fmap option_map]; [|by exists c1].
  eexists. split; [done|]. destruct Hc1 as [Hx1 Hk1]. split; cbn; [done|]. intros pk' key' [Hin|[= -> ->]]%cache_key_elem; [by apply Hk1|]. unfold shared_key. rewrite Es. cbn [mbind option_bind]. rewrite Ex. cbn [mbind option_bind]. rewrite Ep. cbn [mbind option_bind]. by rewrite Ed.
Qed.

Lemma shared_key_agree sa sb seed_a seed_b key :
  SESSION_SK sa = Some seed_a → SESSION_SK sb = Some seed_b → is_Some (x_pk (pk_of_seed seed_a)) → is_Some (x_sk seed_b) →
  shared_key sa (pk_of_seed seed_b) = Some key → shared_key sb (pk_of_seed seed_a) = Some key.
Proof.
  intros Ha Hb [pa Hpa] [kb Hkb]. unfold shared_key. rewrite Ha, Hb. cbn [mbind option_bind]. destruct (x_sk seed_a) as [ka|] eqn:Eka; [|done]. cbn [mbind option_bind]. destruct (x_pk (pk_of_seed seed_b)) as [pb|] eqn:Epb; [|done].
  cbn [mbind option_bind]. rewrite Hkb, Hpa. cbn [mbind option_bind]. by rewrite (dh_agree seed_a seed_b ka kb pa pb).
Qed.

Lemma with_encrypted_ok p : packet_ok p → packet_ok (with_encrypted p).
Proof. intros []. by split. Qed.

(** C26: A sealed packet opens on the node it was sealed for. With the caches of both nodes
    in any state they can be in, what [aead_seal] makes of a packet with the receiver's
    public key, [aead_open] with the sender's public key turns back into the header,
    marked as encrypted, and the payload. *)
Theorem sealed_packet_opens sa sb seed_a seed_b ca cb p payload wire ca' :
  SESSION_SK sa = Some seed_a → SESSION_SK sb = Some seed_b → is_Some (x_pk (pk_of_seed seed_a)) → is_Some (x_sk seed_b) →
  caches_ok sa ca → caches_ok sb cb → packet_ok p →
  aead_seal sa (serialize p ++ payload) (pk_of_seed seed_b) ca = (Some wire, ca') →
  (aead_open sb wire (pk_of_seed seed_a) cb).1 = Some (serialize (with_encrypted p) ++ payload).
Proof.
  intros Ha Hb Hpa Hkb Hca Hcb Hp. unfold aead_seal. rewrite parse_serialize by done. pose proof (zlen_serialize p (proj2 (po_reserved _ Hp))) as Hz. pose proof (zlen_nonneg payload).
  destruct (Z.ltb_spec (zlen (serialize p ++ payload)) PACKET_HEADER_SIZE) as [Hl|_]; [rewrite zlen_app in Hl; lia|]. destruct (key_for_peer sa (pk_of_seed seed_b) ca Hca) as (c1 & -> & _).
  destruct (shared_key sa (pk_of_seed seed_b)) as [key|] eqn:Ek; [|done]. rewrite (drop_app_length' (serialize p)) by (unfold zlen in Hz; lia).
  set (hdr := serialize (with_encrypted p)). destruct (cc_encrypt key _ hdr payload) as [ct|] eqn:Ec; [|done]. intros E. injection E as <- <-.
  pose proof (with_encrypted_ok p Hp) as Hp'. pose proof (zlen_serialize _ (proj2 (po_reserved _ Hp'))) as Hz'. fold hdr in Hz'. pose proof (encrypt_len _ _ _ _ _ Ec) as Hct.
  unfold aead_open. destruct (Z.ltb_spec (zlen (hdr ++ ct)) (PACKET_HEADER_SIZE + AEAD_TAG_LEN)) as [Hl|_]; [rewrite zlen_app in Hl; lia|]. unfold hdr at 1. rewrite parse_serialize by done. cbn [with_encrypted flags encrypted negb].
  destruct (key_for_peer sb (pk_of_seed seed_a) cb Hcb) as (c2 & -> & _). rewrite (shared_key_agree sa sb seed_a seed_b key Ha Hb Hpa Hkb Ek). cbn [fst].
  rewrite slice_app_exact by done. rewrite (drop_app_length' hdr) by (unfold zlen in Hz'; lia). cbn [with_encrypted source_id clock]. by rewrite (decrypt_encrypt _ _ _ _ _ Ec).
Qed.
End Laws.

(** ** A concrete instance

    Stand-ins with the documented behaviour: signatures and tags are hashes of the key and
    the message, and the exchange is the exclusive or of the keys. *)

Definition toy_tag (k m : bytes) : bytes := sha256 (k ++ m) ++ sha256 (m ++ k).

#[local] Instance toy_ed : Ed25519 :=
  { pk_of_seed s := s; ed_sign := toy_tag; ed_verify pk m sig := bool_decide (sig = toy_tag pk m);
    x_sk s := Some s; x_pk p := Some p; x_dh p k := Some (zip_with xor_byte p k) }.

#[local] Instance toy_chacha : ChaCha :=
  { cc_encrypt k n a m := Some (m ++ take 16 (toy_tag (k ++ n ++ a) m));
    cc_decrypt k n a c :=
      let m := take (length c - 16) c in
      if bool_decide (drop (length c - 16) c = take 16 (toy_tag (k ++ n ++ a) m)) then Some m else None }.

Lemma length_toy_tag k m : length (toy_tag k m) = 64%nat.
Proof. unfold toy_tag. rewrite length_app. pose proof (zlen_digest) as H. assert (E : ∀ d, length (sha256 d) = 32%nat) by (intros d; specialize (H _ : zlen (sha256 d) = 32); unfold zlen in H; lia). by rewrite !E. Qed.

Lemma xor_byte_comm x y : xor_byte x y = xor_byte y x.
Proof. unfold xor_byte. by rewrite Z.lxor_comm. Qed.

Lemma xor_keys_comm a b : zip_with xor_byte a b = zip_with xor_byte b a.
Proof. revert b. induction a as [|x a IH]; intros [|y b]; [done..|]. cbn [zip_with]. by rewrite IH, xor_byte_comm. Qed.

#[local] Instance toy_laws : CryptoLaws.
Proof.
  split.
  - intros seed m. unfold zlen. cbn [ed_sign toy_ed]. by rewrite length_toy_tag.
  - intros seed m. by apply bool_decide_true.
  - intros s1 s2 k1 k2 p1 p2 [= <-] [= <-] [= <-] [= <-]. cbn. f_equal. apply xor_keys_comm.
  - intros k n a m c E. apply (inj Some) in E as <-. unfold zlen. rewrite length_app, length_take, length_toy_tag. unfold AEAD_TAG_LEN. lia.
  - intros k n a m c E. apply (inj Some) in E as <-. cbn [cc_decrypt toy_chacha]. assert (Ht : length (take 16 (toy_tag (k ++ n ++ a) m)) = 16%nat) by (rewrite length_take, length_toy_tag; done).
    rewrite length_app, Ht. replace (length m + 16 - 16)%nat with (length m) by lia. rewrite take_app_length, drop_app_length. by rewrite bool_decide_true.
Qed.

Definition toy_session (b : Byte.byte) : Session := mkSession true (Some (replicate 32 b)) (replicate 32 b).
Definition no_caches : Caches := mkCaches None (replicate 16 None).

Lemma no_caches_ok s : caches_ok s no_caches.
Proof. split; [done|]. intros pk key Hin. by apply elem_of_replicate in Hin as [? _]. Qed.

Definition toy_packet : AiosTaskPacket := AiosTaskPacket_new 5 7 9 Inference 1 0 0 PacketFlags_new.

Lemma toy_packet_ok : packet_ok toy_packet.
Proof. split; cbn; lia || done. Qed.

Lemma sealed_packet_opens_witness :
  match aead_seal (toy_session Byte.x01) (serialize toy_packet ++ [Byte.x41; Byte.x42]) (replicate 32 Byte.x02) no_caches with
  | (Some wire, _) => (aead_open (toy_session Byte.x02) wire (replicate 32 Byte.x01) no_caches).1 = Some (serialize (with_encrypted toy_packet) ++ [Byte.x41; Byte.x42])
  | (None, _) => False
  end.
Proof.
  destruct (aead_seal (toy_session Byte.x01) (serialize toy_packet ++ [Byte.x41; Byte.x42]) (replicate 32 Byte.x02) no_caches) as [[wire|] ca'] eqn:E; [|vm_compute in E; discriminate E].
  exact (sealed_packet_opens (toy_session Byte.x01) (toy_session Byte.x02) (replicate 32 Byte.x01) (replicate 32 Byte.x02) no_caches no_caches toy_packet [Byte.x41; Byte.x42] wire ca'
    eq_refl eq_refl (mk_is_Some _ _ eq_refl) (mk_is_Some _ _ eq_refl) (no_caches_ok _) (no_caches_ok _) toy_packet_ok E).
Defined.

End Auth.
