(* ===== verification/ShaFips.v ===== *)
(** SHA-256 as FIPS 180-4 defines it, written from the standard and not from the code,
    and the equality of [sha256] of [k_nano/src/tpm.rs] with it.

    The words of the standard are numbers below 2^32; its operations are given bit by bit
    ([of_bits]), its constants by their definition from the square and cube roots of the
    first primes, its message schedule by the recurrence on [W], its padding on the whole
    message. Nothing of [MeshAuth.Sha] is used in [Module Fips]. *)

From S2P Require Import Prelude MeshWire MeshAuth.
Import Wire.

(** * The standard *)

Module Fips.

(** ** Words *)

(** The word whose bit [i], counted from the least significant one, is [b i]. *)
Fixpoint of_bits (n : nat) (b : nat → bool) : Z :=
  match n with O => 0 | S n => Z.b2z (b O) + 2 * of_bits n (λ i, b (S i)) end.

Definition bit (x : Z) (i : nat) : bool := Z.testbit x (Z.of_nat i).

Definition ROTR (n : nat) (x : Z) : Z := of_bits 32 (λ i, bit x ((i + n) mod 32)%nat).
Definition SHR (n : nat) (x : Z) : Z := of_bits 32 (λ i, if (i + n <? 32)%nat then bit x (i + n) else false).
Definition XOR3 (x y z : Z) : Z := of_bits 32 (λ i, Nat.odd (Nat.b2n (bit x i) + Nat.b2n (bit y i) + Nat.b2n (bit z i))).

(** [x] chooses between [y] and [z]; the majority of the three. *)
Definition Ch (x y z : Z) : Z := of_bits 32 (λ i, if bit x i then bit y i else bit z i).
Definition Maj (x y z : Z) : Z := of_bits 32 (λ i, (2 <=? Nat.b2n (bit x i) + Nat.b2n (bit y i) + Nat.b2n (bit z i))%nat).

Definition Sigma0 (x : Z) : Z := XOR3 (ROTR 2 x) (ROTR 13 x) (ROTR 22 x).
Definition Sigma1 (x : Z) : Z := XOR3 (ROTR 6 x) (ROTR 11 x) (ROTR 25 x).
Definition sigma0 (x : Z) : Z := XOR3 (ROTR 7 x) (ROTR 18 x) (SHR 3 x).
Definition sigma1 (x : Z) : Z := XOR3 (ROTR 17 x) (ROTR 19 x) (SHR 10 x).

(** Addition modulo 2^32. *)
Definition sum (l : list Z) : Z := foldr Z.add 0 l mod 2 ^ 32.

(** ** Constants *)

Definition primeb (n : Z) : bool := forallb (λ d, negb (n mod d =? 0)) (seqZ 2 (n - 2)).
Definition first_primes (n : nat) : list Z := take n (List.filter primeb (seqZ 2 310)).

(** The integer cube root, bit by bit from the top. *)
Fixpoint cube_root_from (k : nat) (x r : Z) : Z :=
  match k with O => r | S k => cube_root_from k x (let r' := r + 2 ^ Z.of_nat k in if r' ^ 3 <=? x then r' else r) end.
Definition cube_root (x : Z) : Z := cube_root_from 40 x 0.

(** The first 32 bits of the fractional parts: of the cube roots of the first 64 primes
    for the rounds, of the square roots of the first eight for the initial hash value. *)
Definition constants : list Z := (λ p, cube_root (p * 2 ^ 96) mod 2 ^ 32) <$> first_primes 64.
Definition initial_hash : list Z := (λ p, Z.sqrt (p * 2 ^ 64) mod 2 ^ 32) <$> first_primes 8.

(** ** The message *)

(** The message, a one bit, zeros up to 448 modulo 512 bits, and the length in bits in 64. *)
Definition padded (data : bytes) : bytes :=
  data ++ [Byte.x80] ++ replicate (Z.to_nat ((55 - zlen data) mod 64)) Byte.x00 ++ to_be_bytes 8 (8 * zlen data).

Definition be_word (l : bytes) : Z := fold_left (λ w b, 256 * w + byte.unsigned b) l 0.
Definition word_bytes (w : Z) : bytes := (λ k, byte.of_Z (w / 2 ^ k)) <$> [24; 16; 8; 0].

(** Word [t] of block [i] of [m]. *)
Definition M (m : bytes) (i : Z) (t : nat) : Z := be_word (slice (64 * i + 4 * Z.of_nat t) 4 m).

(** ** The hash *)

(** The message schedule, the newest word first. *)
Fixpoint schedule (m : nat → Z) (n : nat) : list Z :=
  match n with
  | O => []
  | S t => let w := schedule m t in
           (if (t <? 16)%nat then m t else sum [sigma1 (w !!! 1%nat); w !!! 6%nat; sigma0 (w !!! 14%nat); w !!! 15%nat]) :: w
  end.
Definition W (m : nat → Z) (t : nat) : Z := schedule m (S t) !!! O.

(** One round on the working variables. *)
Definition round (k w : Z) (v : list Z) : list Z :=
  match v with
  | [a; b; c; d; e; f; g; h] =>
    let T1 := sum [h; Sigma1 e; Ch e f g; k; w] in
    let T2 := sum [Sigma0 a; Maj a b c] in
    [sum [T1; T2]; a; b; c; sum [d; T1]; e; f; g]
  | _ => v
  end.

Definition hash_block (m : nat → Z) (H : list Z) : list Z :=
  zip_with (λ x y, sum [x; y]) H (fold_left (λ v t, round (constants !!! t) (W m t) v) (seq 0 64) H).

Definition sha256 (data : bytes) : bytes :=
  let m := padded data in
  concat (word_bytes <$> fold_left (λ H i, hash_block (M m i) H) (seqZ 0 (zlen m / 64)) initial_hash).

(** ** The definitions above say what they should *)

(** The recurrence of the schedule. *)
Lemma schedule_lookup m n t : (t < n)%nat → schedule m n !!! (n - 1 - t)%nat = W m t.
Proof.
  intros Ht. induction n as [|n IH]; [lia|]. destruct (decide (t = n)) as [->|].
  - replace (S n - 1 - n)%nat with O by lia. done.
  - replace (S n - 1 - t)%nat with (S (n - 1 - t)) by lia. rewrite <-IH by lia. done.
Qed.

Lemma W_low m t : (t < 16)%nat → W m t = m t.
Proof. intros Ht. unfold W. cbn [schedule]. destruct (Nat.ltb_spec t 16); [done|lia]. Qed.

Lemma W_high m t : (16 ≤ t)%nat → W m t = sum [sigma1 (W m (t - 2)); W m (t - 7); sigma0 (W m (t - 15)); W m (t - 16)].
Proof.
  intros Ht. rewrite <-(schedule_lookup m t (t - 2)), <-(schedule_lookup m t (t - 7)), <-(schedule_lookup m t (t - 15)), <-(schedule_lookup m t (t - 16)) by lia.
  replace (t - 1 - (t - 2))%nat with 1%nat by lia. replace (t - 1 - (t - 7))%nat with 6%nat by lia.
  replace (t - 1 - (t - 15))%nat with 14%nat by lia. replace (t - 1 - (t - 16))%nat with 15%nat by lia.
  unfold W. cbn [schedule]. destruct (Nat.ltb_spec t 16); [lia|done].
Qed.

Lemma cube_root_from_spec k x r : 0 ≤ r → r ^ 3 ≤ x < (r + 2 ^ Z.of_nat k) ^ 3 →
  let s := cube_root_from k x r in s ^ 3 ≤ x < (s + 1) ^ 3.
Proof.
  revert r. induction k as [|k IH]; intros r Hr Hx; [done|]. cbn [cube_root_from]. rewrite Nat2Z.inj_succ, Z.pow_succ_r in Hx by lia.
  pose proof (Z.pow_pos_nonneg 2 (Z.of_nat k) ltac:(lia) ltac:(lia)). apply IH.
  - destruct (Z.leb_spec ((r + 2 ^ Z.of_nat k) ^ 3) x); cbv zeta; lia.
  - cbv zeta. destruct (Z.leb_spec ((r + 2 ^ Z.of_nat k) ^ 3) x); [|lia].
    replace (r + 2 ^ Z.of_nat k + 2 ^ Z.of_nat k) with (r + 2 * 2 ^ Z.of_nat k) by lia. lia.
Qed.

Lemma cube_root_spec x : 0 ≤ x < 2 ^ 120 → cube_root x ^ 3 ≤ x < (cube_root x + 1) ^ 3.
Proof. intros Hx. apply (cube_root_from_spec 40 x 0); [lia|]. change ((0 + 2 ^ Z.of_nat 40) ^ 3) with (2 ^ 120). lia. Qed.

Lemma testbit_of_bits n b i : 0 ≤ i → Z.testbit (of_bits n b) i = (i <? Z.of_nat n) && b (Z.to_nat i).
Proof.
  revert b i. induction n as [|n IH]; intros b i Hi; cbn [of_bits].
  - rewrite Z.testbit_0_l. destruct (Z.ltb_spec i (Z.of_nat 0)); [lia|done].
  - rewrite Z.add_comm. destruct (decide (i = 0)) as [->|].
    + rewrite Z.testbit_0_r. destruct (Z.ltb_spec 0 (Z.of_nat (S n))); [done|lia].
    + destruct (Z.lt_exists_pred 0 i) as (j & -> & Hj); [lia|]. rewrite Z.testbit_succ_r, IH by lia. rewrite Z2Nat.inj_succ by lia.
      destruct (Z.ltb_spec j (Z.of_nat n)), (Z.ltb_spec (Z.succ j) (Z.of_nat (S n))); done || lia.
Qed.

Lemma of_bits_bound n b : 0 ≤ of_bits n b < 2 ^ Z.of_nat n.
Proof.
  revert b. induction n as [|n IH]; intros b; cbn [of_bits]; [done|]. specialize (IH (λ i, b (S i))).
  rewrite Nat2Z.inj_succ, Z.pow_succ_r by lia. destruct (b 0%nat); cbn [Z.b2z]; lia.
Qed.

Lemma sum_bound l : 0 ≤ sum l < 2 ^ 32.
Proof. apply Z.mod_pos_bound. lia. Qed.

End Fips.

(** * The code, operation by operation *)

Module ShaEq.
Import Fips Sha.

Definition u32r (x : Z) : Prop := 0 ≤ x < 2 ^ 32.

Lemma high_bit x i : u32r x → 32 ≤ i → Z.testbit x i = false.
Proof.
  intros [H1 H2] Hi. destruct (decide (x = 0)) as [->|]; [apply Z.testbit_0_l|]. apply Z.bits_above_log2; [done|].
  assert (Z.log2 x < 32) by (apply Z.log2_lt_pow2; lia). lia.
Qed.

Lemma word_eq x b : u32r x → (∀ i, (i < 32)%nat → bit x i = b i) → x = of_bits 32 b.
Proof.
  intros Hx H. apply Z.bits_inj'. intros i Hi. rewrite testbit_of_bits by done. change (Z.of_nat 32) with 32. destruct (Z.ltb_spec i 32); cbn [andb].
  - rewrite <-H by lia. unfold bit. f_equal. lia.
  - by apply high_bit.
Qed.

Lemma bit_of_bits b i : (i < 32)%nat → bit (of_bits 32 b) i = b i.
Proof. intros Hi. unfold bit. rewrite testbit_of_bits by lia. rewrite Nat2Z.id. destruct (Z.ltb_spec (Z.of_nat i) (Z.of_nat 32)); [done|lia]. Qed.

Lemma of_bits_u32 b : u32r (of_bits 32 b).
Proof. apply (of_bits_bound 32). Qed.

Lemma u32r_bits x : 0 ≤ x → (∀ i, 32 ≤ i → Z.testbit x i = false) → u32r x.
Proof.
  intros H0 H. split; [done|]. destruct (Z.ltb_spec x (2 ^ 32)) as [|Hx]; [done|].
  assert (32 ≤ Z.log2 x) by (apply Z.log2_le_pow2; lia). specialize (H (Z.log2 x) ltac:(lia)). rewrite Z.bit_log2 in H by lia. done.
Qed.

Lemma rotate_right_bits x z r : u32r x → z = Z.of_nat r → (0 < r < 32)%nat → rotate_right x z = ROTR r x.
Proof.
  intros Hx -> Hr. unfold rotate_right. apply word_eq.
  - apply u32r_bits.
    + apply Z.lor_nonneg. split; [apply Z.shiftr_nonneg; apply Hx|apply Z.mod_pos_bound; lia].
    + intros i Hi. rewrite Z.lor_spec, Z.shiftr_spec, Z.mod_pow2_bits_high by lia. rewrite high_bit; [done|done|lia].
  - intros i Hi. unfold bit. rewrite Z.lor_spec, Z.shiftr_spec, Z.mod_pow2_bits_low, Z.shiftl_spec by lia.
    destruct (decide (i + r < 32)%nat) as [Hs|Hs].
    + rewrite Nat.mod_small by lia. rewrite (Z.testbit_neg_r x (Z.of_nat i - _)) by lia. rewrite orb_false_r. f_equal. lia.
    + rewrite (high_bit x (Z.of_nat i + Z.of_nat r)) by (done || lia). cbn [orb]. f_equal.
      replace (i + r)%nat with ((i + r - 32) + 1 * 32)%nat by lia. rewrite Nat.Div0.mod_add, Nat.mod_small by lia. lia.
Qed.

Lemma shiftr_bits x z r : u32r x → z = Z.of_nat r → (r < 32)%nat → Z.shiftr x z = SHR r x.
Proof.
  intros Hx -> Hr. apply word_eq.
  - apply u32r_bits; [apply Z.shiftr_nonneg, Hx|]. intros i Hi. rewrite Z.shiftr_spec by lia. apply high_bit; [done|lia].
  - intros i Hi. unfold bit. rewrite Z.shiftr_spec by lia. destruct (Nat.ltb_spec (i + r) 32); [f_equal; lia|]. apply high_bit; [done|lia].
Qed.

Lemma xor_u32 x y : u32r x → u32r y → u32r (Z.lxor x y).
Proof.
  intros Hx Hy. apply u32r_bits; [apply Z.lxor_nonneg; split; intros _; [apply Hy|apply Hx]|].
  intros i Hi. rewrite Z.lxor_spec, !high_bit by done. done.
Qed.

Lemma and_u32 x y : u32r x → 0 ≤ y → u32r (Z.land x y).
Proof.
  intros Hx Hy. apply u32r_bits; [apply Z.land_nonneg; left; apply Hx|].
  intros i Hi. rewrite Z.land_spec, high_bit by done. done.
Qed.

Lemma xor3_bits x y z : u32r x → u32r y → u32r z → Z.lxor (Z.lxor x y) z = XOR3 x y z.
Proof.
  intros Hx Hy Hz. apply word_eq; [auto using xor_u32|]. intros i Hi. unfold bit. rewrite !Z.lxor_spec.
  by destruct (Z.testbit x _), (Z.testbit y _), (Z.testbit z _).
Qed.

Lemma not_bit x i : u32r x → (i < 32)%nat → bit (u32_not x) i = negb (bit x i).
Proof.
  intros Hx Hi. unfold bit, u32_not. replace (U32_MAX - x) with (Z.lnot x mod 2 ^ 32).
  - rewrite Z.mod_pow2_bits_low, Z.lnot_spec by lia. done.
  - symmetry. apply (Z.mod_unique _ _ (-1)); [left; unfold U32_MAX; destruct Hx; lia|]. unfold Z.lnot, U32_MAX. lia.
Qed.

Lemma ch_bits x y z : u32r x → u32r y → u32r z → Z.lxor (Z.land x y) (Z.land (u32_not x) z) = Ch x y z.
Proof.
  intros Hx Hy Hz. assert (u32r (u32_not x)) by (unfold u32r, u32_not, U32_MAX in *; lia).
  apply word_eq; [apply xor_u32; apply and_u32; done || apply Hy || apply Hz|]. intros i Hi. pose proof (not_bit x i Hx Hi) as Hn. unfold bit in *.
  rewrite !Z.lxor_spec, !Z.land_spec, Hn. by destruct (Z.testbit x _), (Z.testbit y _), (Z.testbit z _).
Qed.

Lemma maj_bits x y z : u32r x → u32r y → u32r z → Z.lxor (Z.lxor (Z.land x y) (Z.land x z)) (Z.land y z) = Maj x y z.
Proof.
  intros Hx Hy Hz. apply word_eq; [repeat apply xor_u32; apply and_u32; done || apply Hy || apply Hz|]. intros i Hi. unfold bit.
  rewrite !Z.lxor_spec, !Z.land_spec. by destruct (Z.testbit x _), (Z.testbit y _), (Z.testbit z _).
Qed.

Lemma Sigma0_code x : u32r x → Z.lxor (Z.lxor (rotate_right x 2) (rotate_right x 13)) (rotate_right x 22) = Sigma0 x.
Proof. intros Hx. rewrite (rotate_right_bits x 2 2), (rotate_right_bits x 13 13), (rotate_right_bits x 22 22) by (done || lia). apply xor3_bits; apply of_bits_u32. Qed.

Lemma Sigma1_code x : u32r x → Z.lxor (Z.lxor (rotate_right x 6) (rotate_right x 11)) (rotate_right x 25) = Sigma1 x.
Proof. intros Hx. rewrite (rotate_right_bits x 6 6), (rotate_right_bits x 11 11), (rotate_right_bits x 25 25) by (done || lia). apply xor3_bits; apply of_bits_u32. Qed.

Lemma sigma0_code x : u32r x → Z.lxor (Z.lxor (rotate_right x 7) (rotate_right x 18)) (Z.shiftr x 3) = sigma0 x.
Proof. intros Hx. rewrite (rotate_right_bits x 7 7), (rotate_right_bits x 18 18), (shiftr_bits x 3 3) by (done || lia). apply xor3_bits; apply of_bits_u32. Qed.

Lemma sigma1_code x : u32r x → Z.lxor (Z.lxor (rotate_right x 17) (rotate_right x 19)) (Z.shiftr x 10) = sigma1 x.
Proof. intros Hx. rewrite (rotate_right_bits x 17 17), (rotate_right_bits x 19 19), (shiftr_bits x 10 10) by (done || lia). apply xor3_bits; apply of_bits_u32. Qed.

Lemma constants_code : K = constants.
Proof. vm_compute. reflexivity. Qed.

(** ** A block *)

Definition vars (s : State) : list Z := [sa s; sb s; sc s; sd s; se s; sf s; sg s; sh s].

Lemma initial_code : vars initial = initial_hash.
Proof. vm_compute. reflexivity. Qed.

Ltac unmod := unfold u32_add, sum; cbn [foldr]; repeat (rewrite Z.add_mod_idemp_l, <-?Z.add_assoc by lia); apply (f_equal (λ z, z mod 2 ^ 32)); lia.

Lemma add2 x y : u32_add x y = sum [x; y].
Proof. unmod. Qed.
Lemma add4 x y z w : u32_add (u32_add (u32_add x y) z) w = sum [w; z; y; x].
Proof. unmod. Qed.
Lemma add5 x y z v w : u32_add (u32_add (u32_add (u32_add x y) z) v) w = sum [x; y; z; v; w].
Proof. unmod. Qed.

Lemma compress_code w s i : Forall u32r (vars s) →
  vars (compress w s i) = round (K !!! i) (w !!! i) (vars s) ∧ Forall u32r (vars (compress w s i)).
Proof.
  destruct s as [a b c d e f g h]. unfold vars. cbn [sa sb sc sd se sf sg sh]. intros Hs.
  repeat match goal with H : Forall _ (_ :: _) |- _ => apply Forall_cons in H as [? H] end.
  cbv beta delta [compress round]. cbv iota beta zeta. rewrite Sigma0_code, Sigma1_code, ch_bits, maj_bits by done. cbn [sa sb sc sd se sf sg sh].
  rewrite (add5 h), !add2. split; [done|]. repeat apply Forall_cons_2; try done; apply sum_bound.
Qed.

Lemma rounds_code w l s : Forall u32r (vars s) →
  vars (fold_left (compress w) l s) = fold_left (λ v t, round (K !!! t) (w !!! t) v) l (vars s).
Proof. revert s. induction l as [|i l IH]; intros s Hs; [done|]. cbn [fold_left]. destruct (compress_code w s i Hs) as [<- Hs']. by apply IH. Qed.

Lemma W_u32 m t : (∀ i, u32r (m i)) → u32r (W m t).
Proof. intros Hm. destruct (decide (t < 16)%nat); [rewrite W_low by done; apply Hm|rewrite W_high by lia; apply sum_bound]. Qed.

Lemma W_at m n t : (t < n)%nat → (W m <$> seq 0 n) !!! t = W m t.
Proof. intros Ht. apply list_lookup_total_correct. rewrite list_lookup_fmap, lookup_seq_lt by done. done. Qed.

Lemma extend_code m n : (∀ i, u32r (m i)) → (16 ≤ n)%nat → extend (W m <$> seq 0 n) n = W m <$> seq 0 (S n).
Proof.
  intros Hm Hn. unfold extend. rewrite !W_at by lia. rewrite sigma0_code, sigma1_code by (by apply W_u32). rewrite add4, seq_S, fmap_app. f_equal. cbn [fmap list_fmap Nat.add].
  by rewrite (W_high m n) by done.
Qed.

Lemma schedule_code m : (∀ i, u32r (m i)) → fold_left extend (seq 16 48) (m <$> seq 0 16) = W m <$> seq 0 64.
Proof.
  intros Hm. assert (H : ∀ k, fold_left extend (seq 16 k) (W m <$> seq 0 16) = W m <$> seq 0 (16 + k)).
  { induction k as [|k IH]; [done|]. rewrite seq_S, fold_left_app, IH. cbn [fold_left]. rewrite extend_code by (done || lia). reflexivity. }
  change (W m <$> seq 0 64) with (W m <$> seq 0 (16 + 48)). rewrite <-H. f_equal.
Qed.

Lemma fold_left_seq_ext {A} (f g : A → nat → A) n a : (∀ v t, (t < n)%nat → f v t = g v t) → fold_left f (seq 0 n) a = fold_left g (seq 0 n) a.
Proof. intros H. induction n as [|n IH]; [done|]. rewrite seq_S, !fold_left_app, IH by auto with lia. cbn [fold_left]. apply H. lia. Qed.

(** [m] gives the words of [block]. *)
Lemma sha256_round_code m block s : Forall u32r (vars s) → (∀ i, u32r (m i)) → block_words block = m <$> seq 0 16 →
  vars (sha256_round s block) = hash_block m (vars s) ∧ Forall u32r (vars (sha256_round s block)).
Proof.
  intros Hs Hm Hb. unfold sha256_round. rewrite Hb, schedule_code by done.
  assert (Hr : vars (fold_left (compress (W m <$> seq 0 64)) (seq 0 64) s) = fold_left (λ v t, round (constants !!! t) (W m t) v) (seq 0 64) (vars s)).
  { rewrite rounds_code by done. rewrite constants_code. apply fold_left_seq_ext. intros v t Ht. by rewrite W_at. }
  unfold hash_block. rewrite <-Hr. clear Hr. generalize (fold_left (compress (W m <$> seq 0 64)) (seq 0 64) s). intros r.
  unfold vars. cbn [sa sb sc sd se sf sg sh zip_with]. rewrite !add2. split; [done|]. repeat apply Forall_cons_2; done || apply sum_bound.
Qed.

(** ** The padding *)

(** [n] blocks of 64 bytes *)
Definition blocks (n : Z) (data : bytes) : list bytes := (λ b, slice (b * 64) 64 data) <$> seqZ 0 n.

Section Padding.
Context (data : bytes) (Hlen : zlen data < 2 ^ 61).
#[local] Abbreviation n := (zlen data).
#[local] Abbreviation q := (zlen data / 64).
#[local] Abbreviation r := (zlen data mod 64).

Lemma split_len : n = 64 * q + r ∧ 0 ≤ r < 64 ∧ 0 ≤ q.
Proof using. pose proof (zlen_nonneg data). pose proof (Z.div_mod n 64 ltac:(lia)). pose proof (Z.mod_pos_bound n 64 ltac:(lia)). lia. Qed.

Definition rest : bytes := drop (Z.to_nat (q * 64)) data.

Lemma zlen_rest : zlen rest = r.
Proof using. pose proof split_len as (H1 & H2 & H3). unfold rest, zlen in *. rewrite length_drop. lia. Qed.

Lemma last_marked : splice r [Byte.x80] (splice 0 rest (replicate 64 Byte.x00)) = rest ++ [Byte.x80] ++ replicate (Z.to_nat (63 - r)) Byte.x00.
Proof using.
  pose proof split_len as (H1 & H2 & H3). pose proof zlen_rest as Hr. rewrite splice_0. rewrite drop_replicate.
  rewrite splice_app_r by lia. rewrite Hr, Z.sub_diag, splice_0. cbn [length]. rewrite drop_replicate. do 3 f_equal. unfold zlen in *. lia.
Qed.

Lemma slice_padded o m : 0 ≤ o → 0 ≤ m → o + m ≤ n → slice o m (padded data) = slice o m data.
Proof using. intros. unfold padded. by apply slice_app_l. Qed.

Lemma fold_blocks k st : 0 ≤ k ≤ q → fold_left sha256_round (blocks k (padded data)) st = fold_left (λ st b, sha256_round st (slice (b * 64) 64 data)) (seqZ 0 k) st.
Proof using.
  intros Hk. pose proof split_len as (H1 & H2 & H3). unfold blocks.
  assert (Hg : ∀ l, Forall (λ b, 0 ≤ b < q) l → ∀ st, fold_left sha256_round ((λ b, slice (b * 64) 64 (padded data)) <$> l) st = fold_left (λ st b, sha256_round st (slice (b * 64) 64 data)) l st).
  { induction 1 as [|b l Hb Hl IH]; intros s; [done|]. rewrite fmap_cons, !fold_left_cons, slice_padded by lia. apply IH. }
  apply Hg, Forall_forall. intros b Hb%elem_of_seqZ. lia.
Qed.

Lemma blocks_add k m l : 0 ≤ k → 0 ≤ m → blocks (k + m) l = blocks k l ++ ((λ b, slice (b * 64) 64 l) <$> seqZ k m).
Proof using. intros. unfold blocks. rewrite seqZ_app by lia. by rewrite fmap_app. Qed.

Lemma padded_tail : padded data = take (Z.to_nat (q * 64)) data ++ rest ++ [Byte.x80] ++ replicate (Z.to_nat ((55 - n) mod 64)) Byte.x00 ++ to_be_bytes 8 (8 * n).
Proof using. unfold padded, rest. by rewrite (app_assoc (take _ _) (drop _ _)), take_drop. Qed.

Lemma zlen_head : zlen (take (Z.to_nat (q * 64)) data) = q * 64.
Proof using. pose proof split_len as (H1 & H2 & H3). unfold zlen in *. rewrite length_take. lia. Qed.

Lemma bit_len : to_be_bytes 8 (u64_mul n 8) = to_be_bytes 8 (8 * n).
Proof using Hlen. pose proof (zlen_nonneg data). unfold u64_mul. rewrite Z.mod_small by lia. f_equal. lia. Qed.

(** The tail of the message fits one block. *)
Lemma short_tail : r < 56 →
  zlen (padded data) / 64 = q + 1 ∧ slice (q * 64) 64 (padded data) = splice 56 (to_be_bytes 8 (8 * n)) (rest ++ [Byte.x80] ++ replicate (Z.to_nat (63 - r)) Byte.x00).
Proof using.
  intros Hr. pose proof split_len as (H1 & H2 & H3). pose proof zlen_rest as Hz. pose proof zlen_head as Hh.
  assert (Hm : (55 - n) mod 64 = 55 - r) by (rewrite H1 at 1; replace (55 - (64 * q + r)) with (55 - r + (- q) * 64) by lia; rewrite Z.mod_add by lia; apply Z.mod_small; lia).
  assert (Ht : zlen (rest ++ [Byte.x80] ++ replicate (Z.to_nat (55 - r)) Byte.x00 ++ to_be_bytes 8 (8 * n)) = 64).
  { rewrite !zlen_app, zlen_replicate, zlen_to_be_bytes, Hz. change (zlen [Byte.x80]) with 1. lia. }
  rewrite padded_tail, Hm. split.
  - rewrite zlen_app, Hh, Ht. replace (q * 64 + 64) with ((q + 1) * 64) by lia. by rewrite Z.div_mul.
  - rewrite slice_app_r by lia. rewrite Hh, Z.sub_diag. rewrite <-Ht at 1. rewrite slice_full.
    replace (Z.to_nat (63 - r)) with (Z.to_nat (55 - r) + 8)%nat by lia. rewrite replicate_add, !app_assoc.
    rewrite splice_app_r by (rewrite !zlen_app, zlen_replicate, Hz; change (zlen [Byte.x80]) with 1; lia). f_equal. rewrite !zlen_app, zlen_replicate, Hz. change (zlen [Byte.x80]) with 1.
    replace (56 - _) with 0 by lia. rewrite splice_0. rewrite drop_ge; [by rewrite app_nil_r|]. rewrite length_replicate, length_to_be_bytes. lia.
Qed.

(** The tail takes two blocks. *)
Lemma long_tail : 56 ≤ r →
  zlen (padded data) / 64 = q + 2 ∧ slice (q * 64) 64 (padded data) = rest ++ [Byte.x80] ++ replicate (Z.to_nat (63 - r)) Byte.x00 ∧
  slice ((q + 1) * 64) 64 (padded data) = splice 56 (to_be_bytes 8 (8 * n)) (replicate 64 Byte.x00).
Proof using.
  intros Hr. pose proof split_len as (H1 & H2 & H3). pose proof zlen_rest as Hz. pose proof zlen_head as Hh.
  assert (Hm : (55 - n) mod 64 = 119 - r) by (rewrite H1 at 1; replace (55 - (64 * q + r)) with (119 - r + (- q - 1) * 64) by lia; rewrite Z.mod_add by lia; apply Z.mod_small; lia).
  assert (Hp : padded data = take (Z.to_nat (q * 64)) data ++ (rest ++ [Byte.x80] ++ replicate (Z.to_nat (63 - r)) Byte.x00) ++ (replicate 56 Byte.x00 ++ to_be_bytes 8 (8 * n))).
  { rewrite padded_tail, Hm. f_equal. replace (Z.to_nat (119 - r)) with (Z.to_nat (63 - r) + 56)%nat by lia. rewrite replicate_add. by rewrite <-!app_assoc. }
  set (B := rest ++ [Byte.x80] ++ replicate (Z.to_nat (63 - r)) Byte.x00) in *. set (C := replicate 56 Byte.x00 ++ to_be_bytes 8 (8 * n)) in *.
  assert (HB : zlen B = 64) by (unfold B; rewrite !zlen_app, zlen_replicate, Hz; change (zlen [Byte.x80]) with 1; lia). assert (HC : zlen C = 64) by (unfold C; rewrite zlen_app, zlen_replicate, zlen_to_be_bytes; done).
  rewrite Hp. split_and!.
  - rewrite !zlen_app, Hh, HB, HC. replace (q * 64 + (64 + 64)) with ((q + 2) * 64) by lia. by rewrite Z.div_mul.
  - by apply slice_mid.
  - rewrite app_assoc, slice_app_r by (rewrite zlen_app; lia). rewrite zlen_app, Hh, HB. replace ((q + 1) * 64 - (q * 64 + 64)) with 0 by lia. rewrite <-HC at 1. rewrite slice_full. unfold C.
    change (replicate 64 Byte.x00) with (replicate 56 Byte.x00 ++ replicate 8 Byte.x00). rewrite splice_app_r by (rewrite zlen_replicate; lia). rewrite zlen_replicate. change (56 - Z.of_nat 56) with 0.
    rewrite splice_0, drop_ge; [by rewrite app_nil_r|]. by rewrite length_replicate, length_to_be_bytes.
Qed.

Lemma sha256_padded : Sha.sha256 data = digest (fold_left sha256_round (blocks (zlen (padded data) / 64) (padded data)) initial).
Proof using Hlen.
  pose proof split_len as (H1 & H2 & H3). unfold Sha.sha256. f_equal. fold rest. rewrite last_marked, bit_len. destruct (Z.ltb_spec r 56) as [Hr|Hr].
  - destruct (short_tail Hr) as [-> Hs]. rewrite blocks_add by lia. rewrite fold_left_app, fold_blocks by lia. change (seqZ q 1) with [q]. cbn [fmap list_fmap fold_left]. by rewrite Hs.
  - destruct (long_tail Hr) as (-> & Hs1 & Hs2). rewrite blocks_add by lia. rewrite fold_left_app, fold_blocks by lia.
    assert (Hq : seqZ q 2 = [q; q + 1]) by (rewrite seqZ_cons by lia; done). rewrite Hq. cbn [fmap list_fmap fold_left]. by rewrite Hs1, Hs2.
Qed.
End Padding.

(** ** Words and bytes *)

#[local] Transparent to_le_bytes from_le_bytes.

Lemma lor_byte b y : Z.lor (byte.unsigned b) (Z.shiftl y 8) = byte.unsigned b + 256 * y.
Proof.
  pose proof (byte.unsigned_range b). assert (Hl : Z.land (byte.unsigned b) (Z.shiftl y 8) = 0).
  { apply Z.bits_inj'. intros i Hi. rewrite Z.land_spec, Z.shiftl_spec, Z.testbit_0_l by done. destruct (decide (i < 8)).
    - rewrite (Z.testbit_neg_r y) by lia. apply andb_false_r.
    - rewrite <-(Z.mod_small (byte.unsigned b) (2 ^ 8)) by lia. rewrite Z.mod_pow2_bits_high by lia. done. }
  rewrite <-Z.lxor_lor, <-Z.add_nocarry_lxor by done. rewrite Z.shiftl_mul_pow2 by lia. lia.
Qed.

Lemma le_combine_cons b l : le_combine (b :: l) = byte.unsigned b + 256 * le_combine l.
Proof. apply lor_byte. Qed.

Lemma be_word_code b0 b1 b2 b3 : from_be_bytes [b0; b1; b2; b3] = be_word [b0; b1; b2; b3].
Proof.
  unfold from_be_bytes, be_word. cbn [rev app fold_left]. unfold from_le_bytes. rewrite !le_combine_cons. change (le_combine []) with 0. lia.
Qed.

Lemma be_word_u32 l : (length l ≤ 4)%nat → u32r (be_word l).
Proof.
  intros Hl. assert (H : ∀ l w, 0 ≤ w → 0 ≤ fold_left (λ w b, 256 * w + byte.unsigned b) l w < (w + 1) * 256 ^ zlen l).
  { clear. induction l as [|b l IH]; intros w Hw; cbn [fold_left]; [change (zlen (@nil Byte.byte)) with 0; lia|].
    pose proof (byte.unsigned_range b). rewrite zlen_cons, Z.pow_add_r, Z.pow_1_r by (lia || apply zlen_nonneg). specialize (IH (256 * w + byte.unsigned b) ltac:(lia)).
    pose proof (Z.pow_pos_nonneg 256 (zlen l) ltac:(lia) (zlen_nonneg l)). nia. }
  specialize (H l 0 ltac:(lia)). unfold u32r, be_word. split; [lia|]. eapply Z.lt_le_trans; [apply H|].
  rewrite Z.mul_1_l. change (2 ^ 32) with (256 ^ 4). apply Z.pow_le_mono_r; unfold zlen; lia.
Qed.

Lemma word_bytes_code w : to_be_bytes 4 w = word_bytes w.
Proof.
  change (to_be_bytes 4 w) with [byte.of_Z (Z.shiftr (Z.shiftr (Z.shiftr w 8) 8) 8); byte.of_Z (Z.shiftr (Z.shiftr w 8) 8); byte.of_Z (Z.shiftr w 8); byte.of_Z w].
  unfold word_bytes. cbn [fmap list_fmap]. rewrite !Z.shiftr_shiftr, !Z.shiftr_div_pow2 by lia. by rewrite Z.div_1_r.
Qed.

Lemma digest_code s : digest s = concat (word_bytes <$> vars s).
Proof. unfold digest, vars. cbn [fmap list_fmap]. by rewrite !word_bytes_code. Qed.

Lemma block_words_code m i : 0 ≤ i → 64 * (i + 1) ≤ zlen m → block_words (slice (i * 64) 64 m) = M m i <$> seq 0 16.
Proof.
  intros Hi Hm. unfold block_words. apply list_fmap_ext. intros k t [-> Ht]%lookup_seq. cbn [Nat.add] in *. unfold M. rewrite slice_slice by lia.
  replace (i * 64 + 4 * Z.of_nat k) with (64 * i + 4 * Z.of_nat k) by lia.
  assert (Hl : zlen (slice (64 * i + 4 * Z.of_nat k) 4 m) = 4) by (apply zlen_slice; lia). revert Hl. generalize (slice (64 * i + 4 * Z.of_nat k) 4 m).
  intros [|b0 [|b1 [|b2 [|b3 [|b4 l]]]]] Hl; unfold zlen in Hl; cbn [length] in Hl; try lia. apply be_word_code.
Qed.

Lemma M_u32 m i t : u32r (M m i t).
Proof. apply be_word_u32. unfold slice. rewrite length_take. lia. Qed.

(** ** The whole function *)

Lemma blocks_code m k s : 0 ≤ k → 64 * k ≤ zlen m → Forall u32r (vars s) →
  vars (fold_left sha256_round (blocks k m) s) = fold_left (λ H i, hash_block (M m i) H) (seqZ 0 k) (vars s).
Proof.
  intros Hk Hm. assert (Hg : ∀ l, Forall (λ b, 0 ≤ b < k) l → ∀ s, Forall u32r (vars s) →
    vars (fold_left sha256_round ((λ b, slice (b * 64) 64 m) <$> l) s) = fold_left (λ H i, hash_block (M m i) H) l (vars s)).
  { induction 1 as [|b l Hb Hl IH]; intros v Hv; [done|]. rewrite fmap_cons, !fold_left_cons.
    destruct (sha256_round_code (M m b) (slice (b * 64) 64 m) v Hv (M_u32 m b)) as [<- Hv']; [apply block_words_code; lia|]. by apply IH. }
  intros Hs. apply Hg; [|done]. apply Forall_forall. intros b Hb%elem_of_seqZ. lia.
Qed.

Lemma initial_u32 : Forall u32r (vars initial).
Proof. unfold vars, u32r. cbn [initial sa sb sc sd se sf sg sh]. repeat apply Forall_cons_2; done || lia. Qed.

(** C29: [sha256] is SHA-256. For every message of fewer than 2^61 bytes the hash is the one
    of [Fips.sha256]: the constants from the roots of the primes, the functions of the
    rounds bit by bit, the recurrence of the schedule, the sums modulo 2^32 over the blocks
    of the padded message and the digest, in both cases of the final padding that the
    function writes out. *)
Theorem sha256_is_fips (data : bytes) : zlen data < 2 ^ 61 → Sha.sha256 data = Fips.sha256 data.
Proof.
  intros Hd. rewrite sha256_padded by done. rewrite digest_code. unfold Fips.sha256. pose proof (zlen_nonneg (padded data)) as Hp.
  rewrite blocks_code; [by rewrite initial_code|apply Z.div_pos; lia|apply Z.mul_div_le; lia|apply initial_u32].
Qed.

Lemma sha256_is_fips_witness : Sha.sha256 (replicate 60 Byte.x61) = Fips.sha256 (replicate 60 Byte.x61).
Proof. apply (sha256_is_fips (replicate 60 Byte.x61)). reflexivity. Defined.

End ShaEq.
