(* ===== verification/MeshChunk.v ===== *)
(** Payloads larger than a packet: chunks signed one by one and put together again
    ([k_nano/src/net/mesh.rs], [mesh_send_large] and [chunk_reassemble]). *)

From S2P Require Import Prelude MeshWire MeshPeers MeshAuth.
Import Wire Peers.

Module Chunk.
Import Auth.

Definition CHUNK_DATA_MAX : Z := 1100.
Definition CHUNK_SLOT_MAX_BYTES : Z := 65536.
Definition CHUNK_SLOTS : Z := 4.
Definition CHUNK_TIMEOUT_TICKS : Z := 500.

(** [b"CHK\0"] *)
Definition CHK : bytes := [Byte.x43; Byte.x48; Byte.x4b; Byte.x00].

(** * Sending *)

Section Send.
Context `{Ed25519, ChaCha}.

(** The globals a sender uses: [segment] is [SEGMENT_KEY] and [lclock] the counter of
    [GLOBAL_LOGICAL_CLOCK]. *)
Record Sender := mkSender { snet : Net; session : Session; segment : option bytes; lclock : Z; LOCAL_NODE_ID : Z; CHUNK_MSG_ID : Z }.

Definition next_data_clock (s : Sender) : Z * Sender :=
  let c := u64_add (lclock s) 1 in (c, mkSender (snet s) (session s) (segment s) c (LOCAL_NODE_ID s) (CHUNK_MSG_ID s)).

Definition node_id (s : Sender) : Z * Sender :=
  let cfg := NET_CONFIG (snet s) in
  let ip_last := byte_at (ip cfg) 3 in
  let mac_last := byte_at (mac cfg) 5 in
  let id := if negb (ip_last =? 0) then ip_last else mac_last in
  if negb (id =? 0) then (id, mkSender (snet s) (session s) (segment s) (lclock s) id (CHUNK_MSG_ID s)) else (LOCAL_NODE_ID s, s).

Definition with_net (n : Net) (s : Sender) : Sender := mkSender n (session s) (segment s) (lclock s) (LOCAL_NODE_ID s) (CHUNK_MSG_ID s).

Definition send_sync_payload (payload : bytes) (s : Sender) : bool * Sender :=
  let '(clk, s) := next_data_clock s in
  let '(nid, s) := node_id s in
  let pkt := AiosTaskPacket_new clk nid 0xFF Sync 1 0 0 PacketFlags_new in
  match sign_packet (segment s) (session s) (serialize pkt ++ payload) with
  | None => (false, s)
  | Some signed => let '(ok, n) := udp_broadcast_send signed 42069 (snet s) in (ok, with_net n s)
  end.

Definition chunk_body (msg_id seq total : Z) (chunk : bytes) : bytes :=
  CHK ++ to_le_bytes 4 msg_id ++ to_le_bytes 2 seq ++ to_le_bytes 2 total ++ chunk.

(** [payload.chunks(CHUNK_DATA_MAX)] *)
Definition chunk_at (payload : bytes) (k : Z) : bytes := slice (CHUNK_DATA_MAX * k) CHUNK_DATA_MAX payload.
Definition chunk_count (payload : bytes) : Z := (zlen payload + CHUNK_DATA_MAX - 1) / CHUNK_DATA_MAX.
Definition payload_chunks (payload : bytes) : list bytes := chunk_at payload <$> seqZ 0 (chunk_count payload).

Definition chunk_bodies (msg_id : Z) (payload : bytes) : list bytes :=
  let total := chunk_count payload mod 2 ^ 16 in
  imap (λ seq chunk, chunk_body msg_id (Z.of_nat seq mod 2 ^ 16) total chunk) (payload_chunks payload).

Fixpoint send_bodies (ok : bool) (bodies : list bytes) (s : Sender) : bool * Sender :=
  match bodies with
  | [] => (ok, s)
  | body :: bodies => let '(sent, s) := send_sync_payload body s in send_bodies (ok && sent) bodies s
  end.

Definition mesh_send_large (payload : bytes) (s : Sender) : bool * Sender :=
  if zlen payload <=? CHUNK_DATA_MAX then send_sync_payload payload s else
  let msg_id := CHUNK_MSG_ID s in
  let s := mkSender (snet s) (session s) (segment s) (lclock s) (LOCAL_NODE_ID s) ((msg_id + 1) mod 2 ^ 32) in
  send_bodies true (chunk_bodies msg_id payload) s.
End Send.

(** * Receiving *)

Record ChunkSlot := mkChunkSlot { source : Z; msg_id : Z; total : Z; last_seen : Z; chunks : list (option bytes) }.

Abbreviation Table := (list (option ChunkSlot)).

Definition sweep (now : Z) (t : Table) : Table :=
  (λ slot, match slot with Some s => if CHUNK_TIMEOUT_TICKS <? u64_sub now (last_seen s) then None else Some s | None => None end) <$> t.

Definition slot_is (sid mid : Z) (slot : option ChunkSlot) : bool :=
  match slot with Some s => (source s =? sid) && (msg_id s =? mid) | None => false end.

(** The first index that satisfies [p] *)
Fixpoint position {A} (p : A → bool) (l : list A) (i : nat) : option nat :=
  match l with [] => None | x :: l => if p x then Some i else position p l (S i) end.

Definition find_slot (sid mid : Z) (t : Table) : option nat :=
  match position (slot_is sid mid) t 0 with
  | Some i => Some i
  | None => position (λ s : option ChunkSlot, match s with None => true | Some _ => false end) t 0
  end.

Record Header := mkHeader { h_msg : Z; h_seq : Z; h_total : Z; h_data : bytes }.

Definition read_chunk (payload : bytes) : option Header :=
  if (zlen payload <? 12) || negb (bool_decide (slice 0 4 payload = CHK)) then None else
  let seq := from_le_bytes (slice 8 2 payload) in
  let total := from_le_bytes (slice 10 2 payload) in
  let chunk := drop 12 payload in
  if (total =? 0) || (total <=? seq) || (CHUNK_DATA_MAX <? zlen chunk) || (CHUNK_SLOT_MAX_BYTES <? u64_sat_mul total CHUNK_DATA_MAX) then None else
  Some (mkHeader (from_le_bytes (slice 4 4 payload)) seq total chunk).

Definition used_bytes (l : list (option bytes)) : Z := fold_left (λ n c, match c with Some c => n + zlen c | None => n end) l 0.

Definition chunk_reassemble (sid : Z) (payload : bytes) (now : Z) (t : Table) : option bytes * Table :=
  match read_chunk payload with
  | None => (None, t)
  | Some h =>
    let t := sweep now t in
    match find_slot sid (h_msg h) t with
    | None => (None, t)
    | Some i =>
      let seq := Z.to_nat (h_seq h) in
      let fresh := replicate (Z.to_nat (h_total h)) None in
      match t !!! i with
      | None => (None, <[i := Some (mkChunkSlot sid (h_msg h) (h_total h) now (<[seq := Some (h_data h)]> fresh))]> t)
      | Some slot =>
        let held := if negb (total slot =? h_total h) then fresh else chunks slot in
        if CHUNK_SLOT_MAX_BYTES <? used_bytes held + zlen (h_data h) then (None, <[i := None]> t) else
        let slot := mkChunkSlot (source slot) (msg_id slot) (h_total h) now (<[seq := Some (h_data h)]> held) in
        if negb (forallb (λ c, match c with Some _ => true | None => false end) (chunks slot)) then (None, <[i := Some slot]> t)
        else (Some (concat (omap (λ c, c) (chunks slot))), <[i := None]> t)
      end
    end
  end.

(** [chunk_self_test]: the payload of the self-test, chunk after chunk, in a free table *)
Definition self_test_payload : bytes := (λ i, byte.of_Z (i mod 251)) <$> seqZ 0 3000.

Definition chunk_self_test (t : Table) : bool :=
  (fold_left (λ (st : bool * Table) body,
     let '(r, t) := chunk_reassemble 0x7F body 1 st.2 in
     (match r with Some full => bool_decide (full = self_test_payload) | None => st.1 end, t))
   (chunk_bodies 0xCAFEBABE self_test_payload) (false, t)).1.

End Chunk.
