(* ===== verification/MeshChunkThm.v ===== *)
(** Chunked payloads arrive whole. *)

From S2P Require Import Prelude MeshWire MeshPeers MeshAuth MeshChunk.
Import Wire Peers.

Module ChunkThm.
Import Chunk.

(** * The table *)

Definition key_of (s : ChunkSlot) : Z * Z := (source s, msg_id s).
Definition keys (t : Table) : list (Z * Z) := key_of <$> omap (λ s, s) t.

Fixpoint view (k : Z * Z) (t : Table) : option ChunkSlot :=
  match t with
  | [] => None
  | Some s :: t => if decide (key_of s = k) then Some s else view k t
  | None :: t => view k t
  end.

Lemma keys_app t1 t2 : keys (t1 ++ t2) = keys t1 ++ keys t2.
Proof. unfold keys. by rewrite omap_app, fmap_app. Qed.

Lemma keys_cons s t : keys (s :: t) = match s with Some s => [key_of s] | None => [] end ++ keys t.
Proof. by destruct s. Qed.

Lemma view_none k t : view k t = None ↔ k ∉ keys t.
Proof.
  induction t as [|[s|] t IH]; cbn [view]; [split; [intros _; apply not_elem_of_nil|done]| |done].
  rewrite keys_cons. cbn [app]. rewrite not_elem_of_cons, <-IH. case_decide; naive_solver.
Qed.

Lemma view_some k t s : view k t = Some s → ∃ t1 t2, t = t1 ++ Some s :: t2 ∧ key_of s = k ∧ k ∉ keys t1.
Proof.
  induction t as [|[r|] t IH]; cbn [view]; [done| |].
  - case_decide as Hk.
    + intros [= <-]. exists [], t. split_and!; [done..|apply not_elem_of_nil].
    + intros (t1 & t2 & -> & Hi & Hw)%IH. exists (Some r :: t1), t2. split_and!; [done..|]. rewrite keys_cons. cbn [app]. rewrite not_elem_of_cons. by split; [intros ->|].
  - intros (t1 & t2 & -> & Hi & Hw)%IH. by exists (None :: t1), t2.
Qed.

Lemma view_at k t1 s t2 : k ∉ keys t1 → view k (t1 ++ s :: t2) = match s with Some s => if decide (key_of s = k) then Some s else view k t2 | None => view k t2 end.
Proof.
  induction t1 as [|[r|] t1 IH]; intros Hw; [by destruct s| |].
  - rewrite keys_cons in Hw. cbn [app] in Hw. apply not_elem_of_cons in Hw as [Hn Hw]. cbn [app view]. rewrite decide_False by congruence. by apply IH.
  - cbn [app view]. by apply IH.
Qed.

Lemma view_elsewhere k k' t1 s s' t2 :
  k' ≠ k → (∀ x, s = Some x → key_of x = k) → (∀ x, s' = Some x → key_of x = k) → view k' (t1 ++ s :: t2) = view k' (t1 ++ s' :: t2).
Proof.
  intros Hn Hs Hs'. induction t1 as [|[r|] t1 IH]; cbn [app]; [|cbn [view]; by rewrite IH|done].
  assert (Hv : ∀ s, (∀ x, s = Some x → key_of x = k) → view k' (s :: t2) = view k' t2); [|by rewrite !Hv].
  intros [x|] Hx; cbn [view]; [|done]. rewrite (Hx x) by done. by rewrite decide_False.
Qed.

Lemma position_at {A} (p : A → bool) t1 x t2 i : Forall (λ y, p y = false) t1 → p x = true → position p (t1 ++ x :: t2) i = Some (i + length t1)%nat.
Proof. intros Hf Hx. revert i. induction Hf as [|y t1 Hy _ IH]; intros i; cbn [app position length]; [by rewrite Hx, Nat.add_0_r|]. rewrite Hy, IH. f_equal. lia. Qed.

Lemma position_none {A} (p : A → bool) t i : Forall (λ y, p y = false) t → position p t i = None.
Proof. intros Hf. revert i. induction Hf as [|y t Hy _ IH]; intros i; [done|]. cbn. by rewrite Hy. Qed.

Lemma slot_is_key sid mid s : slot_is sid mid (Some s) = bool_decide (key_of s = (sid, mid)).
Proof.
  unfold slot_is, key_of. destruct (Z.eqb_spec (source s) sid), (Z.eqb_spec (msg_id s) mid); cbn; symmetry; (apply bool_decide_true; congruence) || (apply bool_decide_false; congruence).
Qed.

Lemma absent_not_slot sid mid t : (sid, mid) ∉ keys t → Forall (λ s, slot_is sid mid s = false) t.
Proof.
  intros Hn. induction t as [|[s|] t IH]; [done| |]; rewrite keys_cons in Hn; cbn [app] in Hn; constructor; try done; try by apply IH.
  - apply not_elem_of_cons in Hn as [Hn _]. rewrite slot_is_key. apply bool_decide_false. congruence.
  - apply not_elem_of_cons in Hn as [_ Hn]. by apply IH.
Qed.

Record room (ks : gset (Z * Z)) (t : Table) : Prop := mkRoom { rm_len : length t = 4%nat; rm_nodup : NoDup (keys t); rm_keys : ∀ k, k ∈ keys t → k ∈ ks; rm_size : (size ks ≤ 4)%nat }.

Lemma keys_full t : Forall is_Some t → length (keys t) = length t.
Proof. induction 1 as [|s t [x ->] _ IH]; [done|]. rewrite keys_cons. cbn. by f_equal. Qed.

Lemma first_free (t : Table) : Forall is_Some t ∨ ∃ t1 t2, t = t1 ++ None :: t2 ∧ Forall is_Some t1.
Proof.
  induction t as [|[s|] t [IH|(t1 & t2 & -> & IH)]]; [by left|left; by constructor; eauto| |right; by exists [], t|right; by exists [], (t1 ++ None :: t2)].
  right. exists (Some s :: t1), t2. split; [done|]. by constructor; eauto.
Qed.

Lemma find_slot_ok ks sid mid t : room ks t → (sid, mid) ∈ ks →
  ∃ t1 s t2, t = t1 ++ s :: t2 ∧ find_slot sid mid t = Some (length t1) ∧ view (sid, mid) t = s ∧ (∀ x, s = Some x → key_of x = (sid, mid)) ∧ (sid, mid) ∉ keys t1 ∧ (sid, mid) ∉ keys t2.
Proof.
  intros [Hl Hnd Hks Hsz] Hk. unfold find_slot. destruct (view (sid, mid) t) as [s|] eqn:V.
  - destruct (view_some _ t s V) as (t1 & t2 & -> & Hi & H1). exists t1, (Some s), t2.
    assert (H2 : (sid, mid) ∉ keys t2). { rewrite keys_app, keys_cons in Hnd. apply NoDup_app in Hnd as (_ & _ & Hnd). apply NoDup_cons in Hnd as [Hnd _]. by rewrite <-Hi. }
    rewrite position_at; [|by apply absent_not_slot|rewrite slot_is_key; by apply bool_decide_true]. split_and!; try done. by intros ? [= <-].
  - apply view_none in V. rewrite position_none by by apply absent_not_slot. destruct (first_free t) as [Hf|(t1 & t2 & -> & Hf)].
    + apply keys_full in Hf. assert (Hsub : list_to_set ((sid, mid) :: keys t) ⊆ ks). { intros i. rewrite elem_of_list_to_set, elem_of_cons. intros [->|?]; [done|by apply Hks]. }
      apply subseteq_size in Hsub. rewrite size_list_to_set in Hsub by by constructor. cbn in Hsub. lia.
    + exists t1, None, t2. rewrite keys_app, keys_cons, not_elem_of_app in V. destruct V as [V1 V2].
      split_and!; try done. rewrite position_at; [done| |done]. eapply Forall_impl; [exact Hf|]. intros [x|] [? ?]; done.
Qed.

Lemma put_chunk_ok k t1 s s' t2 ks :
  let t := t1 ++ s :: t2 in let t' := t1 ++ s' :: t2 in
  room ks t → (∀ x, s = Some x → key_of x = k) → (∀ x, s' = Some x → key_of x = k) → k ∉ keys t1 → k ∉ keys t2 → k ∈ ks →
  room ks t' ∧ view k t' = s' ∧ (∀ k', k' ≠ k → view k' t' = view k' t).
Proof.
  intros t t' [Hl Hnd Hks Hsz] Hs Hs' H1 H2 Hk. split_and!.
  - split; [revert Hl; unfold t, t'; rewrite !length_app; done|..|done]; unfold t', t in *; rewrite keys_app, keys_cons in *.
    + apply NoDup_app in Hnd as (Hn1 & Hn12 & Hn2). apply NoDup_app in Hn2 as (_ & _ & Hn2). apply NoDup_app. split_and!; [done| |].
      * intros x Hx [Hx'|Hx']%elem_of_app; [|apply (Hn12 x Hx), elem_of_app; by right]. destruct s' as [x'|]; [|by apply elem_of_nil in Hx'].
        apply list_elem_of_singleton in Hx' as ->. by rewrite (Hs' x' eq_refl) in Hx.
      * destruct s' as [x'|]; [|done]. apply NoDup_cons. by rewrite (Hs' x' eq_refl).
    + intros i. specialize (Hks i). rewrite !elem_of_app in Hks |- *. intros [Hi|[Hi|Hi]]; [apply Hks; by left| |apply Hks; by right; right]. destruct s' as [x'|]; [|by apply elem_of_nil in Hi]. apply list_elem_of_singleton in Hi as ->. by rewrite (Hs' x' eq_refl).
  - unfold t'. rewrite view_at by done. destruct s' as [x'|]; [|by apply view_none]. by rewrite (Hs' x' eq_refl), decide_True.
  - intros k' Hn. by apply (view_elsewhere k).
Qed.

(** ** Sweeps *)

Definition stale (now : Z) (s : ChunkSlot) : bool := CHUNK_TIMEOUT_TICKS <? u64_sub now (last_seen s).

Lemma keys_sweep now t : keys (sweep now t) `sublist_of` keys t.
Proof. unfold sweep. induction t as [|[s|] t IH]; [done| |done]. rewrite fmap_cons, !keys_cons. destruct (_ <? _); cbn; by constructor. Qed.

Lemma view_swept k now t : NoDup (keys t) → view k (sweep now t) = s ← view k t; if stale now s then None else Some s.
Proof.
  unfold sweep. induction t as [|[s|] t IH]; [done| |done]. rewrite keys_cons. cbn [app]. intros [Hn Hnd]%NoDup_cons. rewrite fmap_cons. unfold stale in *. cbn [view].
  destruct (_ <? _) eqn:E; cbn [view]; case_decide as Hk; cbn; rewrite ?E; try by apply IH; try done. 
  2: done. rewrite IH by done. subst k. by rewrite (proj2 (view_none _ _) Hn).
Qed.

Lemma room_swept ks now t : room ks t → room ks (sweep now t).
Proof.
  intros [Hl Hnd Hks Hsz]. split; [by unfold sweep; rewrite length_fmap|by eapply sublist_NoDup, keys_sweep| |done]. intros i Hi. apply Hks. eapply sublist_subseteq; [apply keys_sweep|done].
Qed.

(** * One chunk *)

(** The outcome of a chunk for the slot it goes to. *)
Definition slot_result (sid now : Z) (h : Header) (slot : option ChunkSlot) : option bytes * option ChunkSlot :=
  let seq := Z.to_nat (h_seq h) in
  let fresh := replicate (Z.to_nat (h_total h)) None in
  match slot with
  | None => (None, Some (mkChunkSlot sid (h_msg h) (h_total h) now (<[seq := Some (h_data h)]> fresh)))
  | Some slot =>
    let held := if negb (total slot =? h_total h) then fresh else chunks slot in
    if CHUNK_SLOT_MAX_BYTES <? used_bytes held + zlen (h_data h) then (None, None) else
    let slot := mkChunkSlot (source slot) (msg_id slot) (h_total h) now (<[seq := Some (h_data h)]> held) in
    if negb (forallb (λ c, match c with Some _ => true | None => false end) (chunks slot)) then (None, Some slot)
    else (Some (concat (omap (λ c, c) (chunks slot))), None)
  end.

Lemma slot_result_key sid now h s x : (∀ y, s = Some y → key_of y = (sid, h_msg h)) → (slot_result sid now h s).2 = Some x → key_of x = (sid, h_msg h).
Proof.
  intros Hs. unfold slot_result. destruct s as [s|]; [|by intros [= <-]]. specialize (Hs s eq_refl). destruct (_ <? _); [done|]. destruct (negb (forallb _ _)); [|done]. by intros [= <-].
Qed.

Lemma insert_at {A} (t1 : list A) s s' t2 : <[length t1 := s']> (t1 ++ s :: t2) = t1 ++ s' :: t2.
Proof. rewrite insert_app_r_alt, Nat.sub_diag by lia. done. Qed.

Lemma reassemble_slot ks sid payload now t h :
  room ks t → read_chunk payload = Some h → (sid, h_msg h) ∈ ks →
  let v := view (sid, h_msg h) (sweep now t) in
  ∃ t', chunk_reassemble sid payload now t = ((slot_result sid now h v).1, t') ∧ room ks t' ∧ view (sid, h_msg h) t' = (slot_result sid now h v).2 ∧
    (∀ k, k ≠ (sid, h_msg h) → view k t' = view k (sweep now t)).
Proof.
  intros Hroom Hh Hk v. apply (room_swept ks now) in Hroom. unfold chunk_reassemble. rewrite Hh. cbv zeta.
  destruct (find_slot_ok ks sid (h_msg h) (sweep now t) Hroom Hk) as (t1 & s & t2 & Ht & -> & Hv & Hs & H1 & H2). subst v. rewrite Hv. rewrite Ht in *. rewrite list_lookup_total_middle by done. rewrite !insert_at.
  destruct (put_chunk_ok (sid, h_msg h) t1 s (slot_result sid now h s).2 t2 ks Hroom Hs (λ x, slot_result_key sid now h s x Hs) H1 H2 Hk) as (Hr & Hw & Ho).
  unfold slot_result in *. destruct s as [s|]; [|eexists; split_and!; [reflexivity|done..]]. rewrite !insert_at. destruct (_ <? _); [eexists; split_and!; [reflexivity|done..]|].
  cbn [chunks] in *. destruct (negb (forallb _ _)); (eexists; split_and!; [reflexivity|done..]).
Qed.

(** ** One message *)

(** What the slot of a message holds once the chunks in [got] arrived. *)
Record slot_ok (k : Z * Z) (parts : list bytes) (got : gset nat) (lo hi : Z) (s : ChunkSlot) : Prop := mkSlotOk {
  so_key : key_of s = k;
  so_total : total s = zlen parts;
  so_len : length (chunks s) = length parts;
  so_got : ∀ i, i ∈ got → (i < length parts)%nat;
  so_chunk : ∀ i p, parts !! i = Some p → chunks s !! i = Some (if decide (i ∈ got) then Some p else None);
  so_time : lo ≤ last_seen s ≤ hi }.

Definition holds (k : Z * Z) (parts : list bytes) (got : gset nat) (lo hi : Z) (s : option ChunkSlot) : Prop :=
  match s with Some s => slot_ok k parts got lo hi s ∧ got ≠ ∅ | None => got = ∅ end.

Lemma holds_later k parts got lo hi hi' s : holds k parts got lo hi s → hi ≤ hi' → holds k parts got lo hi' s.
Proof. destruct s as [s|]; [|done]. intros [[] Hne] ?. split; [|done]. split; try done. lia. Qed.

Lemma used_bytes_bound (l : list (option bytes)) n : 0 ≤ n → fold_left (λ n c, match c with Some c => n + zlen c | None => n end) l n ≤ n + zlen (concat (omap (λ c, c) l)).
Proof. revert n. induction l as [|[c|] l IH]; intros n Hn; cbn [fold_left omap list_omap concat]; [change (zlen (@nil Byte.byte)) with 0; lia| |by apply IH]. pose proof (zlen_nonneg c). rewrite zlen_app. specialize (IH (n + zlen c) ltac:(lia)). lia. Qed.

Lemma used_bytes_le (l : list (option bytes)) : Forall (λ c, match c with Some c => zlen c ≤ CHUNK_DATA_MAX | None => True end) l →
  used_bytes l ≤ CHUNK_DATA_MAX * zlen (omap (λ c, c) l).
Proof.
  intros Hf. unfold used_bytes. pose proof (used_bytes_bound l 0 ltac:(lia)). enough (zlen (concat (omap (λ c, c) l)) ≤ CHUNK_DATA_MAX * zlen (omap (λ c, c) l)) by lia.
  clear H. induction Hf as [|[c|] l Hc _ IH]; cbn [omap list_omap concat]; [done| |done]. rewrite zlen_app, zlen_cons. lia.
Qed.

Lemma length_omap_le {A B} (f : A → option B) l : (length (omap f l) ≤ length l)%nat.
Proof. induction l as [|x l IH]; [done|]. cbn. destruct (f x); cbn; lia. Qed.

Lemma all_chunks (l : list (option bytes)) parts : length l = length parts → (∀ j q, parts !! j = Some q → l !! j = Some (Some q)) → omap (λ c, c) l = parts.
Proof.
  intros Hl Hlk. assert (E : l = Some <$> parts); [|subst l; clear; induction parts as [|p parts IH]; [done|]; cbn; by f_equal].
  apply list_eq. intros j. rewrite list_lookup_fmap. destruct (parts !! j) as [q|] eqn:Eq; [by apply Hlk|]. apply lookup_ge_None. apply lookup_ge_None in Eq. by rewrite Hl.
Qed.

Section Message.
Context (k : Z * Z) (parts : list bytes) (lo : Z).
Context (Hn : (2 ≤ length parts ≤ 59)%nat) (Hsizes : Forall (λ p, zlen p ≤ CHUNK_DATA_MAX) parts).

Definition part_header (i : nat) (p : bytes) : Header := mkHeader k.2 (Z.of_nat i) (zlen parts) p.

Lemma insert_chunk i p got hi s :
  slot_ok k parts got lo hi s → parts !! i = Some p → ∀ j q, parts !! j = Some q → <[i := Some p]> (chunks s) !! j = Some (if decide (j ∈ {[i]} ∪ got) then Some q else None).
Proof using.
  clear Hn Hsizes. intros Hs Hp j q Hq. pose proof (lookup_lt_Some _ _ _ Hp) as Hi. destruct (decide (j = i)) as [->|Hne].
  - rewrite list_lookup_insert_eq by (rewrite (so_len _ _ _ _ _ _ Hs); done). rewrite decide_True by set_solver. congruence.
  - rewrite list_lookup_insert_ne by done. rewrite (so_chunk _ _ _ _ _ _ Hs j q Hq). f_equal. destruct (decide (j ∈ got)); [rewrite decide_True by set_solver|rewrite decide_False by set_solver]; done.
Qed.

(** The limit of a slot is never reached by chunks of the message. *)
Lemma message_fits got hi s (p : bytes) : slot_ok k parts got lo hi s → zlen p ≤ CHUNK_DATA_MAX → got ≠ set_seq 0 (length parts) → used_bytes (chunks s) + zlen p ≤ CHUNK_SLOT_MAX_BYTES.
Proof using Hn Hsizes.
  intros Hs Hp Hg. assert (Hu : used_bytes (chunks s) ≤ CHUNK_DATA_MAX * zlen (omap (λ c, c) (chunks s))).
  { apply used_bytes_le, Forall_lookup. intros i c Hc. pose proof (lookup_lt_Some _ _ _ Hc) as Hi. rewrite (so_len _ _ _ _ _ _ Hs) in Hi. destruct (lookup_lt_is_Some_2 parts i Hi) as [q Hq].
    rewrite (so_chunk _ _ _ _ _ _ Hs i q Hq) in Hc. apply (inj Some) in Hc as <-. case_decide; [|done]. by apply (proj1 (Forall_lookup _ _) Hsizes i q). }
  assert (Hm : (length (omap (λ c, c) (chunks s)) ≤ length parts)%nat) by (rewrite <-(so_len _ _ _ _ _ _ Hs); apply length_omap_le). unfold zlen in Hu. unfold CHUNK_SLOT_MAX_BYTES, CHUNK_DATA_MAX in *. 
  destruct (decide (length (omap (λ c, c) (chunks s)) = length parts)) as [E|E]; [|lia]. exfalso. apply Hg, leibniz_equiv, set_equiv. intros i. rewrite elem_of_set_seq. split; [intros Hi; apply (so_got _ _ _ _ _ _ Hs) in Hi; lia|].
  intros Hi. destruct (lookup_lt_is_Some_2 parts i ltac:(lia)) as [q Hq]. destruct (decide (i ∈ got)) as [|Hni]; [done|]. exfalso.
  pose proof (so_chunk _ _ _ _ _ _ Hs i q Hq) as Hc. rewrite decide_False in Hc by done. pose proof (take_drop_middle _ _ _ Hc) as Hl. set (l1 := take i (chunks s)) in Hl. set (l2 := drop (S i) (chunks s)) in Hl.
  rewrite <-(so_len _ _ _ _ _ _ Hs), <-Hl, omap_app in E. cbn [omap list_omap] in E. rewrite !length_app in E. cbn [length] in E. pose proof (length_omap_le (λ c : option bytes, c) l1). pose proof (length_omap_le (λ c : option bytes, c) l2). lia.
Qed.

Lemma all_some_iff got hi s i p :
  slot_ok k parts got lo hi s → parts !! i = Some p →
  forallb (λ c, match c with Some _ => true | None => false end) (<[i := Some p]> (chunks s)) = bool_decide ({[i]} ∪ got = set_seq 0 (length parts)).
Proof using.
  clear Hn Hsizes. intros Hs Hp. pose proof (lookup_lt_Some _ _ _ Hp) as Hi. pose proof (insert_chunk i p got hi s Hs Hp) as Hlk. destruct (forallb _ _) eqn:E; symmetry.
  - apply bool_decide_true, leibniz_equiv, set_equiv. intros j. rewrite elem_of_set_seq. split; [intros [->%elem_of_singleton|Hj%(so_got _ _ _ _ _ _ Hs)]%elem_of_union; lia|].
    intros Hj. destruct (lookup_lt_is_Some_2 parts j ltac:(lia)) as [q Hq]. specialize (Hlk j q Hq). rewrite forallb_forall in E. apply list_elem_of_lookup_2, list_elem_of_In, E in Hlk. by case_decide.
  - apply bool_decide_false. intros Hall. apply not_true_iff_false in E. apply E, forallb_forall. intros c Hc%list_elem_of_In. apply list_elem_of_lookup in Hc as [j Hj].
    pose proof (lookup_lt_Some _ _ _ Hj) as Hjl. rewrite length_insert, (so_len _ _ _ _ _ _ Hs) in Hjl. destruct (lookup_lt_is_Some_2 parts j Hjl) as [q Hq]. rewrite (Hlk j q Hq) in Hj. apply (inj Some) in Hj as <-.
    rewrite decide_True; [done|]. rewrite Hall. apply elem_of_set_seq. lia.
Qed.

Lemma chunk_result_part now i p got hi v :
  holds k parts got lo hi v → parts !! i = Some p → got ≠ set_seq 0 (length parts) → lo ≤ now →
  let '(o, v') := slot_result k.1 now (part_header i p) v in
  if decide ({[i]} ∪ got = set_seq 0 (length parts)) then o = Some (concat parts) ∧ v' = None else o = None ∧ holds k parts ({[i]} ∪ got) lo now v'.
Proof using Hn Hsizes.
  intros Hh Hp Hg Hnow. pose proof (lookup_lt_Some _ _ _ Hp) as Hi. pose proof (proj1 (Forall_lookup _ _) Hsizes i p Hp) as Hsz. cbn beta in Hsz.
  assert (HN : Z.to_nat (zlen parts) = length parts) by (unfold zlen; lia). unfold slot_result, part_header. cbn [h_seq h_total h_msg h_data]. rewrite Nat2Z.id, HN. destruct v as [s|]; cbn [holds] in Hh.
  - destruct Hh as [Hs Hne]. rewrite (so_total _ _ _ _ _ _ Hs), Z.eqb_refl. cbn [negb]. pose proof (message_fits got hi s p Hs Hsz Hg) as Hfit. destruct (Z.ltb_spec CHUNK_SLOT_MAX_BYTES (used_bytes (chunks s) + zlen p)); [lia|].
    cbn [chunks]. rewrite (all_some_iff got hi s i p Hs Hp). case_decide as Hall.
    + rewrite bool_decide_true by done. cbn [negb]. split; [|done]. do 2 f_equal. apply all_chunks; [by rewrite length_insert, (so_len _ _ _ _ _ _ Hs)|].
      intros j q Hq. rewrite (insert_chunk i p got hi s Hs Hp j q Hq), decide_True; [done|]. rewrite Hall. apply elem_of_set_seq. apply lookup_lt_Some in Hq. lia.
    + rewrite bool_decide_false by done. cbn [negb]. split; [done|]. split; [|set_solver]. destruct Hs as [S1 S2 S3 S4 S5 S6] eqn:Hd. clear Hd. split; cbn [key_of source msg_id total chunks last_seen]; try done.
      * by rewrite length_insert.
      * intros j [->%elem_of_singleton|Hj]%elem_of_union; [done|by apply S4].
      * by apply (insert_chunk i p got hi s Hs Hp).
  - subst got. rewrite union_empty_r_L. case_decide as Hall.
    + exfalso. apply (f_equal size) in Hall. rewrite size_singleton, size_set_seq in Hall. lia.
    + split; [done|]. split; [|set_solver]. split; cbn [key_of source msg_id total chunks last_seen]; try done.
      * by destruct k.
      * by rewrite length_insert, length_replicate.
      * intros j ->%elem_of_singleton. done.
      * intros j q Hq. pose proof (lookup_lt_Some _ _ _ Hq). destruct (decide (j = i)) as [->|Hne].
        -- rewrite list_lookup_insert_eq by (rewrite length_replicate; done). rewrite decide_True by set_solver. congruence.
        -- rewrite list_lookup_insert_ne by done. rewrite lookup_replicate_2 by done. by rewrite decide_False by set_solver.
Qed.

End Message.

(** * Bodies *)

Lemma read_chunk_body mid i n p :
  0 ≤ mid < 2 ^ 32 → 1 ≤ n ≤ 59 → 0 ≤ i < n → zlen p ≤ CHUNK_DATA_MAX → read_chunk (chunk_body mid i n p) = Some (mkHeader mid i n p).
Proof.
  intros Hm Hn Hi Hp. unfold read_chunk, chunk_body. set (A := to_le_bytes 4 mid). set (B := to_le_bytes 2 i). set (C := to_le_bytes 2 n).
  assert (HA : zlen A = 4) by apply zlen_to_le_bytes. assert (HB : zlen B = 2) by apply zlen_to_le_bytes. assert (HC : zlen C = 2) by apply zlen_to_le_bytes. assert (HK : zlen CHK = 4) by done. pose proof (zlen_nonneg p).
  destruct (Z.ltb_spec (zlen (CHK ++ A ++ B ++ C ++ p)) 12) as [Hz|_]; [rewrite !zlen_app in Hz; lia|]. rewrite slice_app_exact, bool_decide_true by done. cbn [orb negb].
  assert (S1 : slice 4 4 (CHK ++ A ++ B ++ C ++ p) = A) by (by apply slice_mid).
  assert (S2 : slice 8 2 (CHK ++ A ++ B ++ C ++ p) = B) by (rewrite (app_assoc CHK); apply slice_mid; [rewrite zlen_app; lia|done]).
  assert (S3 : slice 10 2 (CHK ++ A ++ B ++ C ++ p) = C) by (rewrite !app_assoc; rewrite <-(app_assoc _ C p); apply slice_mid; [rewrite !zlen_app; lia|done]).
  assert (S4 : drop 12 (CHK ++ A ++ B ++ C ++ p) = p) by (rewrite !app_assoc; apply drop_app_length'; apply Nat2Z.inj; change (zlen (((CHK ++ A) ++ B) ++ C) = 12); rewrite !zlen_app; lia).
  rewrite S1, S2, S3, S4. unfold A, B, C. rewrite (from_to_le_bytes 4 mid) by done. rewrite (from_to_le_bytes 2 i), (from_to_le_bytes 2 n) by (change (2 ^ (Z.of_nat 2 * 8)) with 65536; lia).
  unfold u64_sat_mul, CHUNK_SLOT_MAX_BYTES, CHUNK_DATA_MAX, U64_MAX in *. change (2 ^ 64 - 1) with 18446744073709551615.
  destruct (Z.eqb_spec n 0), (Z.leb_spec n i), (Z.ltb_spec 1100 (zlen p)), (Z.ltb_spec 65536 (Z.min (n * 1100) 18446744073709551615)); try lia. done.
Qed.

Lemma chunk_count_bounds payload : 0 < zlen payload → 1 ≤ chunk_count payload ∧ CHUNK_DATA_MAX * (chunk_count payload - 1) < zlen payload ≤ CHUNK_DATA_MAX * chunk_count payload.
Proof.
  intros Hp. unfold chunk_count, CHUNK_DATA_MAX. pose proof (Z.div_mod (zlen payload + 1100 - 1) 1100 ltac:(lia)). pose proof (Z.mod_pos_bound (zlen payload + 1100 - 1) 1100 ltac:(lia)). lia.
Qed.

Lemma length_chunks payload : Z.of_nat (length (payload_chunks payload)) = Z.max 0 (chunk_count payload).
Proof. unfold payload_chunks. rewrite length_fmap, length_seqZ. lia. Qed.

Lemma chunk_sizes payload : Forall (λ p, zlen p ≤ CHUNK_DATA_MAX) (payload_chunks payload).
Proof. unfold payload_chunks. apply Forall_fmap, Forall_forall. intros x _. cbn. unfold chunk_at, slice, zlen, CHUNK_DATA_MAX. rewrite length_take. lia. Qed.

Lemma chunks_concat payload : 0 < zlen payload → concat (payload_chunks payload) = payload.
Proof.
  intros Hp. destruct (chunk_count_bounds payload Hp) as (H1 & _ & H2). unfold payload_chunks.
  assert (Hc : ∀ n, 0 ≤ n → concat (chunk_at payload <$> seqZ 0 n) = slice 0 (CHUNK_DATA_MAX * n) payload).
  { apply natlike_ind; [done|]. intros n Hn IH. unfold Z.succ. rewrite seqZ_app by lia. rewrite fmap_app, concat_app, IH, Z.add_0_l. rewrite (seqZ_cons n 1), seqZ_nil by lia. rewrite fmap_cons, concat_cons, app_nil_r.
    replace (CHUNK_DATA_MAX * (n + 1)) with (CHUNK_DATA_MAX * n + CHUNK_DATA_MAX) by (unfold CHUNK_DATA_MAX; lia). rewrite (slice_add 0) by (unfold CHUNK_DATA_MAX; lia). done. }
  rewrite Hc by lia. unfold slice. cbn [Z.to_nat drop]. apply take_ge. unfold zlen in *. lia.
Qed.

(** * A message among others *)

Record Call := mkCall { c_sid : Z; c_payload : bytes; c_now : Z }.

Definition call_step (t : Table) (c : Call) : option bytes * Table := chunk_reassemble (c_sid c) (c_payload c) (c_now c) t.
Definition calls_run (cs : list Call) (t : Table) : Table := fold_left (λ t c, (call_step t c).2) cs t.

Fixpoint calls_out (cs : list Call) (t : Table) : list (Call * option bytes) :=
  match cs with [] => [] | c :: cs => let '(o, t) := call_step t c in (c, o) :: calls_out cs t end.

(** The message a chunk is of. *)
Definition call_key (c : Call) : option (Z * Z) := (λ h, (c_sid c, h_msg h)) <$> read_chunk (c_payload c).

Fixpoint in_time (lo hi : Z) (cs : list Call) : Prop :=
  match cs with [] => True | c :: cs => hi ≤ c_now c ≤ lo + CHUNK_TIMEOUT_TICKS ∧ in_time lo (c_now c) cs end.

Definition end_time (hi : Z) (cs : list Call) : Z := fold_left (λ _ c, c_now c) cs hi.

Section Traffic.
Context (sid mid lo : Z) (payload : bytes) (ks : gset (Z * Z)).
Context (Hmid : 0 ≤ mid < 2 ^ 32) (Hks : (sid, mid) ∈ ks) (Hlo : 0 ≤ lo) (Hhi : lo + CHUNK_TIMEOUT_TICKS < 2 ^ 64).
Context (Hlen : CHUNK_DATA_MAX < zlen payload ≤ 59 * CHUNK_DATA_MAX).
#[local] Abbreviation parts := (payload_chunks payload).
#[local] Abbreviation bodies := (chunk_bodies mid payload).
#[local] Abbreviation key := (sid, mid).

Lemma parts_count : (2 ≤ length parts ≤ 59)%nat ∧ zlen parts = chunk_count payload.
Proof using Hlen.
  unfold CHUNK_DATA_MAX in Hlen. destruct (chunk_count_bounds payload ltac:(lia)) as (H1 & H2 & H3). pose proof (length_chunks payload) as Hl. change (Z.of_nat (length parts)) with (zlen parts) in Hl. unfold CHUNK_DATA_MAX in *. split; [unfold zlen in Hl; unfold zlen in Hlen, H2, H3; lia|lia].
Qed.

Lemma bodies_lookup i b : bodies !! i = Some b ↔ ∃ p, parts !! i = Some p ∧ b = chunk_body mid (Z.of_nat i) (zlen parts) p.
Proof using Hlen Hmid.
  pose proof parts_count as [Hn Hz]. unfold chunk_bodies. rewrite list_lookup_imap. rewrite Hz. rewrite (Z.mod_small (chunk_count payload)) by (rewrite <-Hz; unfold zlen; lia).
  destruct (parts !! i) as [p|] eqn:E; cbn; [|naive_solver]. pose proof (lookup_lt_Some _ _ _ E). rewrite Z.mod_small by lia. naive_solver.
Qed.

Lemma body_read i b : bodies !! i = Some b → ∃ p, parts !! i = Some p ∧ read_chunk b = Some (part_header key parts i p).
Proof using Hlen Hmid.
  intros (p & Hp & ->)%bodies_lookup. exists p. split; [done|]. pose proof parts_count as [Hn Hz]. pose proof (lookup_lt_Some _ _ _ Hp). apply read_chunk_body; [done|unfold zlen; lia|unfold zlen; lia|].
  by apply (proj1 (Forall_lookup _ _) (chunk_sizes payload) i p).
Qed.

Definition call_fits (c : Call) : Prop := ∀ k, call_key c = Some k → k ∈ ks ∧ (k = key → ∃ i, bodies !! i = Some (c_payload c)).

Lemma body_inj i j b : bodies !! i = Some b → bodies !! j = Some b → i = j.
Proof using Hlen Hmid sid. intros (p & _ & E1)%body_read (q & _ & E2)%body_read. rewrite E1 in E2. apply (inj Some) in E2. unfold part_header in E2. injection E2. lia. Qed.

Definition chunk_index (b : bytes) : option nat := fst <$> list_find (b =.) bodies.

(** The chunks among the calls that are of this message. *)
Definition arrived (cs : list Call) : gset nat := list_to_set (omap (λ c, if decide (c_sid c = sid) then chunk_index (c_payload c) else None) cs).

Lemma chunk_index_body i b : bodies !! i = Some b → chunk_index b = Some i.
Proof using Hlen Hmid sid.
  intros Hi. unfold chunk_index. destruct (list_find (b =.) bodies) as [[j g]|] eqn:E; [|exfalso; by eapply list_find_None, Forall_lookup_1 in E].
  apply list_find_Some in E as (Hj & <- & _). cbn. f_equal. by apply (body_inj j i b).
Qed.

Lemma chunk_index_Some i b : chunk_index b = Some i → bodies !! i = Some b.
Proof using. unfold chunk_index. destruct (list_find _ _) as [[j g]|] eqn:E; [|done]. cbn. intros [= ->]. by apply list_find_Some in E as (Hj & <- & _). Qed.

(** A call for this message. *)
Lemma call_part t c i p got hi :
  room ks t → holds key parts got lo hi (view key t) → c_sid c = sid → bodies !! i = Some (c_payload c) → parts !! i = Some p → got ≠ set_seq 0 (length parts) →
  lo ≤ hi → hi ≤ c_now c ≤ lo + CHUNK_TIMEOUT_TICKS →
  let '(o, t') := call_step t c in
  room ks t' ∧ if decide ({[i]} ∪ got = set_seq 0 (length parts)) then o = Some payload ∧ view key t' = None else o = None ∧ holds key parts ({[i]} ∪ got) lo (c_now c) (view key t').
Proof using Hlen Hmid Hks Hhi Hlo.
  intros Hroom Hh Hsid Hb Hp Hg Hlh Hnow. destruct (body_read i _ Hb) as (p' & Hp' & Hrd). assert (p' = p) as -> by congruence. unfold call_step. rewrite Hsid.
  destruct (reassemble_slot ks sid (c_payload c) (c_now c) t _ Hroom Hrd Hks) as (t' & -> & Hr & Hv & _). cbn [part_header h_msg snd] in Hv.
  assert (Hsw : view key (sweep (c_now c) t) = view key t).
  { rewrite view_swept by apply (rm_nodup _ _ Hroom). destruct (view key t) as [s|]; [|done]. cbn. destruct Hh as [Hs _]. pose proof (so_time _ _ _ _ _ _ Hs). unfold stale, u64_sub. rewrite Z.mod_small by lia. destruct (Z.ltb_spec CHUNK_TIMEOUT_TICKS (c_now c - last_seen s)); [lia|done]. }
  pose proof parts_count as [Hn _]. unfold CHUNK_DATA_MAX in Hlen. pose proof (chunk_result_part key parts lo Hn (chunk_sizes payload) (c_now c) i p got hi _ Hh Hp Hg ltac:(lia)) as Hres. cbn [fst] in Hres.
  change (h_msg (part_header key parts i p)) with mid in *. rewrite Hsw in Hv |- *. split; [done|]. destruct (slot_result sid (c_now c) (part_header key parts i p) (view key t)) as [o v']. cbn [fst snd] in *. rewrite Hv. rewrite chunks_concat in Hres by lia. done.
Qed.

(** A call that is not for this message. *)
Lemma call_other t c got hi :
  room ks t → holds key parts got lo hi (view key t) → call_fits c → call_key c ≠ Some key → lo ≤ hi → hi ≤ c_now c ≤ lo + CHUNK_TIMEOUT_TICKS →
  room ks (call_step t c).2 ∧ holds key parts got lo (c_now c) (view key (call_step t c).2).
Proof using Hlo Hhi.
  intros Hroom Hh Hfit Hno Hlh Hnow. unfold call_step, call_fits, call_key in *. destruct (read_chunk (c_payload c)) as [h|] eqn:Hrd.
  - destruct (Hfit (c_sid c, h_msg h) eq_refl) as [Hin _]. destruct (reassemble_slot ks (c_sid c) (c_payload c) (c_now c) t h Hroom Hrd Hin) as (t' & -> & Hr & _ & Ho). cbn [snd]. split; [done|].
    rewrite Ho by (intros E; apply Hno; cbn; by rewrite E). rewrite view_swept by apply (rm_nodup _ _ Hroom). destruct (view key t) as [s|]; [|exact Hh]. cbn [mbind option_bind].
    pose proof Hh as [Hs _]. pose proof (so_time _ _ _ _ _ _ Hs). unfold stale, u64_sub. rewrite Z.mod_small by lia. destruct (Z.ltb_spec CHUNK_TIMEOUT_TICKS (c_now c - last_seen s)); [lia|]. apply (holds_later _ _ _ _ hi); [done|lia].
  - unfold chunk_reassemble. rewrite Hrd. cbn [snd]. split; [done|]. apply (holds_later _ _ _ _ hi); [done|lia].
Qed.

Lemma calls_progress cs : ∀ t got hi,
  room ks t → holds key parts got lo hi (view key t) → lo ≤ hi → in_time lo hi cs → Forall call_fits cs →
  got ∪ arrived cs ≠ set_seq 0 (length parts) → got ⊆ set_seq 0 (length parts) →
  room ks (calls_run cs t) ∧ holds key parts (got ∪ arrived cs) lo (end_time hi cs) (view key (calls_run cs t)) ∧
  (∀ c o, (c, o) ∈ calls_out cs t → call_key c = Some key → o = None).
Proof using Hlen Hmid Hks Hhi Hlo.
  induction cs as [|c cs IH]; intros t got hi Hroom Hh Hlh Ht Hfits Hnot Hsub.
  { cbn. rewrite union_empty_r_L. split_and!; [done..|]. intros c o []%elem_of_nil. }
  destruct Ht as [Ht1 Ht]. apply Forall_cons in Hfits as [Hf Hfits]. set (t' := (call_step t c).2). change (calls_run (c :: cs) t) with (calls_run cs t'). change (end_time hi (c :: cs)) with (end_time (c_now c) cs).
  assert (Harr_sub : ∀ l, arrived l ⊆ set_seq 0 (length parts)).
  { intros l j. unfold arrived. rewrite elem_of_list_to_set, list_elem_of_omap, elem_of_set_seq. intros (x & _ & Hx). case_decide; [|done]. apply chunk_index_Some, bodies_lookup in Hx as (q & Hq & _). apply lookup_lt_Some in Hq. lia. }
  assert (Hstep : ∃ got', got' ∪ arrived cs = got ∪ arrived (c :: cs) ∧ got' ⊆ set_seq 0 (length parts) ∧ room ks t' ∧ holds key parts got' lo (c_now c) (view key t') ∧ (call_key c = Some key → (call_step t c).1 = None)).
  { destruct (decide (call_key c = Some key)) as [Hown|Hno].
    - destruct (Hf key Hown) as [_ Hb]. destruct (Hb eq_refl) as [i Hi]. destruct (body_read i _ Hi) as (p & Hp & _).
      assert (Hsid : c_sid c = sid). { unfold call_key in Hown. destruct (read_chunk (c_payload c)); [|done]. cbn in Hown. congruence. }
      assert (Harr : arrived (c :: cs) = {[i]} ∪ arrived cs) by (unfold arrived; cbn; rewrite decide_True by done; by rewrite (chunk_index_body i _ Hi)).
      assert (Hng : got ≠ set_seq 0 (length parts)) by (intros ->; apply Hnot; rewrite (comm_L (∪)); apply subseteq_union_1_L, Harr_sub).
      pose proof (call_part t c i p got hi Hroom Hh Hsid Hi Hp Hng Hlh Ht1) as Hres. unfold t'. destruct (call_step t c) as [o t1]. cbn [fst snd]. destruct Hres as [Hr Hres]. rewrite decide_False in Hres.
      + destruct Hres as [-> Hh']. exists ({[i]} ∪ got). rewrite Harr. split_and!; [by rewrite (assoc_L (∪)), (comm_L (∪) got)| |done..]. rewrite union_subseteq, singleton_subseteq_l, elem_of_set_seq. pose proof (lookup_lt_Some _ _ _ Hp). split; [lia|done].
      + intros E. apply Hnot. rewrite Harr, (assoc_L (∪)), (comm_L (∪) got), E, (comm_L (∪)). apply subseteq_union_1_L, Harr_sub.
    - exists got. destruct (call_other t c got hi Hroom Hh Hf Hno Hlh Ht1) as [Hr Hh']. split_and!; [|done..]. unfold arrived. cbn. case_decide as Hs; [|done]. destruct (chunk_index (c_payload c)) as [j|] eqn:Ej; [|done].
      exfalso. apply chunk_index_Some, body_read in Ej as (p & _ & Hrd). apply Hno. unfold call_key. rewrite Hrd. cbn. by rewrite Hs. }
  destruct Hstep as (got' & Hg & Hsub' & Hr & Hh' & Ho). destruct (IH t' got' (c_now c) Hr Hh' ltac:(lia) Ht Hfits) as (Hr2 & Hh2 & Ho2); [by rewrite Hg|done|].
  rewrite Hg in Hh2. split_and!; [done..|]. intros c' o. cbn [calls_out]. unfold t' in *. destruct (call_step t c) as [o1 t1]. cbn [fst snd] in *. rewrite elem_of_cons. intros [[= -> ->]|Hin] Hid; [by apply Ho|]. by apply (Ho2 c' o).
Qed.
End Traffic.

(** * Payloads arrive whole *)

(** The receiver gets every chunk of the message, the chunk [last] last and once, within
    500 ticks; at most four messages are in play; every other call is for another message
    or for none. *)
Record delivery (sid mid lo : Z) (payload : bytes) (ks : gset (Z * Z)) (t : Table) (pre : list Call) (now : Z) (last : bytes) : Prop := mkDelivery {
  dl_room : room ks t;
  dl_key : (sid, mid) ∈ ks;
  dl_new : (sid, mid) ∉ keys t;
  dl_clock : 0 ≤ lo ∧ lo + CHUNK_TIMEOUT_TICKS < 2 ^ 64;
  dl_time : in_time lo lo (pre ++ [mkCall sid last now]);
  dl_fits : Forall (call_fits sid mid payload ks) pre;
  dl_last : last ∈ chunk_bodies mid payload ∧ Forall (λ c, c_sid c = sid → c_payload c ≠ last) pre;
  dl_all : Forall (λ b, b = last ∨ Exists (λ c, c_sid c = sid ∧ c_payload c = b) pre) (chunk_bodies mid payload) }.

Lemma in_time_snoc lo cs c : ∀ hi, in_time lo hi (cs ++ [c]) → in_time lo hi cs ∧ end_time hi cs ≤ c_now c ≤ lo + CHUNK_TIMEOUT_TICKS.
Proof. induction cs as [|c' cs IH]; intros hi; cbn; [naive_solver|]. intros [H Ht]. destruct (IH _ Ht). done. Qed.

Lemma in_time_end lo cs : ∀ hi, in_time lo hi cs → hi ≤ end_time hi cs.
Proof. induction cs as [|c cs IH]; intros hi; cbn; [lia|]. intros [H Ht]. specialize (IH _ Ht). unfold end_time in *. cbn. lia. Qed.

(** C25: A chunked payload arrives whole. The chunks that [mesh_send_large] makes of a
    payload of 1,101 to 64,900 bytes can reach the table in any order, any of them any
    number of times, within 500 ticks, mixed with chunks of at most three other messages
    (the table has four slots) and with malformed ones; nothing is delivered for the
    message before its last missing chunk, and that chunk delivers the payload, byte for
    byte. This is the table alone: the receive gate in front of it drops packets whose
    clock is not newer than the last accepted one. *)
Theorem chunks_reassemble sid mid lo payload ks t pre now last :
  CHUNK_DATA_MAX < zlen payload ≤ 59 * CHUNK_DATA_MAX → 0 ≤ mid < 2 ^ 32 → delivery sid mid lo payload ks t pre now last →
  (∀ c o, (c, o) ∈ calls_out pre t → call_key c = Some (sid, mid) → o = None) ∧
  (chunk_reassemble sid last now (calls_run pre t)).1 = Some payload.
Proof.
  intros Hlen Hmid [Hroom Hks Hnew [Hlo Hhi] Ht Hfits [Hlast Honce] Hall]. set (parts := payload_chunks payload). destruct (in_time_snoc lo pre _ lo Ht) as [Htp [Ht1 Ht2]]. cbn [c_now] in Ht1, Ht2. pose proof (in_time_end lo pre lo Htp) as Hend.
  apply list_elem_of_lookup in Hlast as [k Hk]. destruct (body_read sid mid payload Hmid Hlen k last Hk) as (p & Hp & _). pose proof (lookup_lt_Some _ _ _ Hp) as Hkl.
  assert (Hgot : arrived sid mid payload pre = set_seq 0 (length parts) ∖ {[k]}).
  { apply leibniz_equiv. intros j. unfold arrived. rewrite elem_of_list_to_set, list_elem_of_omap, elem_of_difference, elem_of_set_seq, elem_of_singleton. split.
    - intros (c & Hc & Hi). case_decide as Hs; [|done]. apply chunk_index_Some in Hi. pose proof Hi as (q & Hq & _)%(bodies_lookup mid payload Hmid Hlen). apply lookup_lt_Some in Hq. split; [unfold parts; lia|]. intros ->. rewrite Hk in Hi. injection Hi as E.
      by apply (proj1 (Forall_forall _ _) Honce c Hc Hs).
    - intros [Hj Hjk]. destruct (lookup_lt_is_Some_2 parts j ltac:(lia)) as [q Hq]. assert (Hb : chunk_bodies mid payload !! j = Some (chunk_body mid (Z.of_nat j) (zlen parts) q)) by (apply (bodies_lookup mid payload Hmid Hlen); by exists q).
      destruct (proj1 (Forall_lookup _ _) Hall _ _ Hb) as [E|Hex].
      + exfalso. apply Hjk. apply (body_inj sid mid payload Hmid Hlen j k last); [by rewrite <-E|done].
      + apply Exists_exists in Hex as (c & Hc & Hs & Hpl). exists c. split; [done|]. rewrite decide_True by done. rewrite Hpl. by apply (chunk_index_body sid mid payload Hmid Hlen). }
  assert (Hv0 : holds (sid, mid) parts ∅ lo lo (view (sid, mid) t)) by (by rewrite (proj2 (view_none _ _) Hnew)).
  assert (Hk' : k ∈ (set_seq 0 (length parts) : gset nat)) by (apply elem_of_set_seq; unfold parts; lia).
  assert (Hne : arrived sid mid payload pre ≠ set_seq 0 (length parts)) by (rewrite Hgot; intros E; rewrite <-E in Hk'; apply elem_of_difference in Hk' as [_ []]; by apply elem_of_singleton).
  destruct (calls_progress sid mid lo payload ks Hmid Hks Hlo Hhi Hlen pre t ∅ lo Hroom Hv0) as (Hr & Hh & Ho); [lia|done|done|by rewrite union_empty_l_L|apply empty_subseteq|].
  split; [done|]. rewrite union_empty_l_L in Hh.
  pose proof (call_part sid mid lo payload ks Hmid Hks Hlo Hhi Hlen (calls_run pre t) (mkCall sid last now) k p _ _ Hr Hh eq_refl Hk Hp Hne Hend (conj Ht1 Ht2)) as Hres. unfold call_step in Hres. cbn [c_sid c_payload c_now] in Hres.
  destruct (chunk_reassemble sid last now (calls_run pre t)) as [o t']. destruct Hres as [_ Hres]. fold parts in Hres. rewrite decide_True in Hres; [by destruct Hres as [-> _]|].
  rewrite Hgot. rewrite <-union_difference_L; [done|]. by apply singleton_subseteq_l.
Qed.

Definition sample : bytes := (λ i, byte.of_Z (i mod 251)) <$> seqZ 0 1101.
Definition sample_bodies : list bytes := chunk_bodies 7 sample.
Definition sample_calls : list Call := [mkCall 3 (sample_bodies !!! 1%nat) 20; mkCall 5 (sample_bodies !!! 0%nat) 21; mkCall 3 [Byte.x00] 22; mkCall 3 (sample_bodies !!! 1%nat) 22].

Lemma sample_chunks_delivery : delivery 3 7 20 sample {[(3, 7); (5, 7)]} (replicate 4 None) sample_calls 25 (sample_bodies !!! 0%nat).
Proof.
  split.
  - split; [reflexivity|constructor|intros i Hi; by apply elem_of_nil in Hi|]. rewrite size_union, !size_singleton; [lia|]. apply disjoint_singleton_l. intros E%elem_of_singleton. discriminate E.
  - apply elem_of_union_l, elem_of_singleton. reflexivity.
  - apply not_elem_of_nil.
  - split; [lia|reflexivity].
  - unfold sample_calls. cbn. unfold CHUNK_TIMEOUT_TICKS. lia.
  - assert (F : chunk_bodies 7 sample !! 1%nat = Some (sample_bodies !!! 1%nat)) by (vm_compute; reflexivity).
    assert (E1 : h_msg <$> read_chunk (sample_bodies !!! 1%nat) = Some 7) by (vm_compute; reflexivity). assert (E0 : h_msg <$> read_chunk (sample_bodies !!! 0%nat) = Some 7) by (vm_compute; reflexivity).
    assert (Hown : ∀ now, call_fits 3 7 sample {[(3, 7); (5, 7)]} (mkCall 3 (sample_bodies !!! 1%nat) now)).
    { intros now k Hk. unfold call_key in Hk. cbn [c_sid c_payload] in Hk. destruct (read_chunk (sample_bodies !!! 1%nat)) as [h|]; [|discriminate Hk]. cbn in E1, Hk. injection E1 as E1. injection Hk as <-. rewrite E1.
      split; [apply elem_of_union_l, elem_of_singleton; reflexivity|]. intros _. exists 1%nat. exact F. }
    apply Forall_cons. split; [apply Hown|]. apply Forall_cons. split; [|apply Forall_cons; split; [|apply Forall_cons; split; [apply Hown|apply Forall_nil_2]]].
    + intros k Hk. unfold call_key in Hk. cbn [c_sid c_payload] in Hk. destruct (read_chunk (sample_bodies !!! 0%nat)) as [h|]; [|discriminate Hk]. cbn in E0, Hk. injection E0 as E0. injection Hk as <-. rewrite E0.
      split; [apply elem_of_union_r, elem_of_singleton; reflexivity|]. intros E. discriminate E.
    + intros k Hk. discriminate Hk.
  - split; apply (bool_decide_unpack _); vm_compute; reflexivity.
  - apply (bool_decide_unpack _). vm_compute. reflexivity.
Qed.

Lemma chunks_reassemble_witness : (chunk_reassemble 3 (sample_bodies !!! 0%nat) 25 (calls_run sample_calls (replicate 4 None))).1 = Some sample.
Proof.
  apply (chunks_reassemble 3 7 20 sample {[(3, 7); (5, 7)]} (replicate 4 None) sample_calls 25 (sample_bodies !!! 0%nat)); [vm_compute; split; [reflexivity|discriminate]|lia|exact sample_chunks_delivery].
Defined.

(** A payload above 64,900 bytes is never delivered, although every send of it succeeds:
    its sixty or more chunks could be more than a slot may hold, and every receiver
    refuses each of them. *)
Lemma large_payload_refused sid mid payload now t body :
  59 * CHUNK_DATA_MAX < zlen payload ≤ 65535 * CHUNK_DATA_MAX → body ∈ chunk_bodies mid payload → chunk_reassemble sid body now t = (None, t).
Proof.
  intros Hlen Hb. unfold CHUNK_DATA_MAX in Hlen. destruct (chunk_count_bounds payload ltac:(lia)) as (H1 & H2 & H3). unfold CHUNK_DATA_MAX in *. unfold chunk_bodies in Hb.
  rewrite (Z.mod_small (chunk_count payload)) in Hb by lia. apply elem_of_lookup_imap_1 in Hb as (i & p & -> & Hp). set (n := chunk_count payload) in *. unfold chunk_reassemble.
  replace (read_chunk (chunk_body mid (Z.of_nat i mod 2 ^ 16) n p)) with (@None Header); [done|]. symmetry. unfold read_chunk, chunk_body. set (A := to_le_bytes 4 mid). set (B := to_le_bytes 2 _). set (C := to_le_bytes 2 n).
  assert (HA : zlen A = 4) by apply zlen_to_le_bytes. assert (HB : zlen B = 2) by apply zlen_to_le_bytes. assert (HC : zlen C = 2) by apply zlen_to_le_bytes. assert (HK : zlen CHK = 4) by done.
  destruct (_ || _); [done|]. assert (S3 : slice 10 2 (CHK ++ A ++ B ++ C ++ p) = C) by (rewrite !app_assoc; rewrite <-(app_assoc _ C p); apply slice_mid; [rewrite !zlen_app; lia|done]).
  rewrite S3. unfold C. rewrite (from_to_le_bytes 2 n) by (change (2 ^ (Z.of_nat 2 * 8)) with 65536; lia). unfold u64_sat_mul, CHUNK_SLOT_MAX_BYTES, CHUNK_DATA_MAX, U64_MAX. change (2 ^ 64 - 1) with 18446744073709551615.
  destruct (Z.ltb_spec 65536 (Z.min (n * 1100) 18446744073709551615)); [by rewrite orb_true_r|lia].
Qed.

(** The self-test of the source passes. *)
Lemma chunk_self_test_passes : chunk_self_test (replicate 4 None) = true.
Proof. vm_compute. reflexivity. Qed.

End ChunkThm.
