(* ===== verification/MeshEngine.v ===== *)
(** The mesh engine: discovery, election of a master and assignment of roles
    ([k_nano/src/net/mesh.rs], [BrainMeshEngine]). *)

From S2P Require Import Prelude MeshPeers.
From Stdlib Require Import Floats.SpecFloat.
Import Peers.

Module Engine.

(** * Capabilities *)

Inductive SimdWeight := NoSimd | Sse42 | Avx2 | Avx512.
Inductive NodeTier := L0 | L1 | L2 | L3 | L4.

#[global] Instance SimdWeight_eq : EqDecision SimdWeight.
Proof. solve_decision. Defined.

(** [f32]: binary32 of IEEE 754, rounding to nearest even. *)
Definition f32_of_int (z : Z) : spec_float := binary_normalize 24 128 z 0 false.
Definition f32_mul : spec_float → spec_float → spec_float := SFmul 24 128.
Definition f32_add : spec_float → spec_float → spec_float := SFadd 24 128.
Definition f32_1_2 : spec_float := S754_finite false 10066330 (-23).
Definition f32_1_5 : spec_float := S754_finite false 12582912 (-23).

Definition as_f32 (w : SimdWeight) : spec_float := f32_of_int match w with NoSimd => 0 | Sse42 => 1 | Avx2 => 2 | Avx512 => 4 end.

Definition score_bonus (t : NodeTier) : spec_float :=
  match t with L0 => f32_of_int 1 | L1 => f32_1_2 | L2 => f32_1_5 | L3 => f32_of_int 2 | L4 => f32_of_int 3 end.

Record NodeCapabilities := mkCaps {
  node_id : list Z; cores : Z; clock_mhz : Z; ram_gb : Z; l3_cache_mb : Z; simd : SimdWeight; has_3d_vcache : bool; is_anchored : bool; tier : NodeTier }.

Definition new_tiered (tier : NodeTier) (node_id : list Z) (cores clock_mhz ram_gb l3_cache_mb : Z) (simd : SimdWeight) (has_3d_vcache is_anchored : bool) : NodeCapabilities :=
  mkCaps node_id cores clock_mhz ram_gb l3_cache_mb simd has_3d_vcache is_anchored tier.

Definition caps_new := new_tiered L1.

Definition capacity_score (c : NodeCapabilities) : spec_float :=
  let compute_score := f32_mul (f32_of_int (cores c)) (f32_of_int (clock_mhz c)) in
  let memory_score := f32_mul (f32_of_int (ram_gb c)) (as_f32 (simd c)) in
  let cache_score := f32_of_int (l3_cache_mb c) in
  let score := f32_add (f32_add compute_score memory_score) cache_score in
  let score := if has_3d_vcache c then f32_mul score f32_1_5 else score in
  let score := if is_anchored c then f32_mul score f32_1_2 else score in
  f32_mul score (score_bonus (tier c)).

(** * Nodes and roles *)

Inductive NodeRole := Master | Memory | Compute | Worker | Undecided.

#[global] Instance NodeRole_eq : EqDecision NodeRole.
Proof. solve_decision. Defined.

Definition role_u8 (r : NodeRole) : Z := match r with Master => 0 | Memory => 1 | Compute => 2 | Worker => 3 | Undecided => 4 end.
Definition role_of_u8 (r : Z) : NodeRole := if r =? 0 then Master else if r =? 1 then Memory else if r =? 2 then Compute else if r =? 3 then Worker else Undecided.

Record MeshNode := mkNode { capabilities : NodeCapabilities; role : NodeRole; last_heartbeat : Z; online : bool }.

Definition STALE_TICKS : Z := 220.

(** [now] is the reading of [TIMER_TICKS] *)
Definition MeshNode_new (now : Z) (c : NodeCapabilities) : MeshNode := mkNode c Undecided now true.
Definition is_stale (now : Z) (n : MeshNode) : bool := STALE_TICKS <? u64_sat_sub now (last_heartbeat n).

Record BrainMeshEngine := mkEngine {
  local_capabilities : NodeCapabilities; nodes : list (option MeshNode); node_count : Z;
  local_role_u8 : Z; is_master : bool; tick_count : Z; discovery_active : bool }.

Definition engine_new (c : NodeCapabilities) : BrainMeshEngine := mkEngine c (replicate 16 None) 0 (role_u8 Undecided) false 0 false.

Definition local_role (e : BrainMeshEngine) : NodeRole := role_of_u8 (local_role_u8 e).

(** The globals the engine reads and writes. *)
Record Globals := mkGlobals { keys : Keys; MESH_HEALTH_DIRTY : bool; MESH_ORB_ACTIVITY : Z; LAST_ASSIGN : Z; PEER_CAPS : Slots Z; PEER_HEALTH : Slots PeerHealth }.

Definition with_keys (k : Keys) (g : Globals) : Globals := mkGlobals k (MESH_HEALTH_DIRTY g) (MESH_ORB_ACTIVITY g) (LAST_ASSIGN g) (PEER_CAPS g) (PEER_HEALTH g).
Definition mark_dirty (g : Globals) : Globals := mkGlobals (keys g) true (MESH_ORB_ACTIVITY g) (LAST_ASSIGN g) (PEER_CAPS g) (PEER_HEALTH g).
Definition bump_mesh_orb_activity (g : Globals) : Globals := mkGlobals (keys g) (MESH_HEALTH_DIRTY g) (u64_add (MESH_ORB_ACTIVITY g) 1) (LAST_ASSIGN g) (PEER_CAPS g) (PEER_HEALTH g).
Definition set_last_assign (now : Z) (g : Globals) : Globals := mkGlobals (keys g) (MESH_HEALTH_DIRTY g) (MESH_ORB_ACTIVITY g) now (PEER_CAPS g) (PEER_HEALTH g).
Definition set_health (h : Slots PeerHealth) (g : Globals) : Globals := mkGlobals (keys g) (MESH_HEALTH_DIRTY g) (MESH_ORB_ACTIVITY g) (LAST_ASSIGN g) (PEER_CAPS g) h.

Definition with_nodes (ns : list (option MeshNode)) (e : BrainMeshEngine) : BrainMeshEngine :=
  mkEngine (local_capabilities e) ns (node_count e) (local_role_u8 e) (is_master e) (tick_count e) (discovery_active e).

(** ** Discovery *)

Fixpoint update_node (now : Z) (c : NodeCapabilities) (ns : list (option MeshNode)) : option (list (option MeshNode)) :=
  match ns with
  | [] => None
  | Some n :: ns => if bool_decide (node_id (capabilities n) = node_id c) then Some (Some (mkNode c (role n) now true) :: ns) else cons (Some n) <$> update_node now c ns
  | None :: ns => cons None <$> update_node now c ns
  end.

Fixpoint fill_node (n : MeshNode) (ns : list (option MeshNode)) : option (list (option MeshNode)) :=
  match ns with
  | [] => None
  | Some m :: ns => cons (Some m) <$> fill_node n ns
  | None :: ns => Some (Some n :: ns)
  end.

Definition add_or_update_node (now : Z) (c : NodeCapabilities) (e : BrainMeshEngine) (g : Globals) : BrainMeshEngine * Globals :=
  match update_node now c (nodes e) with
  | Some ns => (with_nodes ns e, g)
  | None =>
    if node_count e <? 16 then
      match fill_node (MeshNode_new now c) (nodes e) with
      | Some ns =>
        (mkEngine (local_capabilities e) ns ((node_count e + 1) mod 2 ^ 8) (local_role_u8 e) (is_master e) (tick_count e) (discovery_active e),
         bump_mesh_orb_activity (mark_dirty (with_keys (note_first_peer_discovered now (keys g)) g)))
      | None => (e, g)
      end
    else (e, g)
  end.

(** ** Roles *)

Definition become_worker (e : BrainMeshEngine) : BrainMeshEngine :=
  let cur := local_role_u8 e in
  mkEngine (local_capabilities e) (nodes e) (node_count e)
    (if (cur =? role_u8 Memory) || (cur =? role_u8 Compute) then cur else role_u8 Worker) false (tick_count e) (discovery_active e).

Definition set_role (r : NodeRole) (e : BrainMeshEngine) (g : Globals) : BrainMeshEngine * Globals :=
  let prev := local_role_u8 e in
  (mkEngine (local_capabilities e) (nodes e) (node_count e) (role_u8 r) (match r with Master => true | _ => false end) (tick_count e) (discovery_active e),
   if negb (prev =? role_u8 r) then bump_mesh_orb_activity g else g).

Definition node_nid (n : MeshNode) : Z := default 0 (node_id (capabilities n) !! 0%nat).

(** The scan of [assign_roles]: the node with most memory, and the nodes fit to compute. *)
Definition scan_roles (caps : Slots Z) (ns : list (option MeshNode)) : option nat * list nat :=
  fold_left (λ (st : option nat * list nat) (x : nat * option MeshNode),
    match x.2 with
    | Some n =>
      if online n then
        let take_mem := match st.1 with
          | None => true
          | Some j => match ns !! j with
            | Some (Some cur) => (ram_gb (capabilities cur) <? ram_gb (capabilities n)) || ((ram_gb (capabilities n) =? ram_gb (capabilities cur)) && (node_nid n <? node_nid cur))
            | _ => false
            end
          end in
        let c := default 0 (peer_caps (node_nid n) caps) in
        let compute_ok := (2 <=? ram_gb (capabilities n)) && (negb (Z.land c CAP_COMPUTE =? 0) || bool_decide (simd (capabilities n) = Avx512) || bool_decide (simd (capabilities n) = Avx2)) in
        (if take_mem then Some x.1 else st.1, if compute_ok then st.2 ++ [x.1] else st.2)
      else st
    | None => st
    end) (imap pair ns) (None, []).

Definition role_for (memory_node : option nat) (compute_nodes : list nat) (i : nat) : NodeRole :=
  if bool_decide (Some i = memory_node) then Memory else if bool_decide (i ∈ compute_nodes) then Compute else Worker.

(** [assign_roles]: the roles to announce ([send_role_assign] is called for each), in
    order; [self] is [node_id()]. *)
Definition assign_roles (now self : Z) (e : BrainMeshEngine) (g : Globals) : BrainMeshEngine * Globals * list (Z * NodeRole) :=
  if negb (is_master e) || negb (bool_decide (local_role e = Master)) then (e, g, []) else
  if negb (tofu_settled now (keys g)) then (e, with_keys (mkKeys (PEER_KEYS (keys g)) (FIRST_PEER_TICK (keys g)) true) g, []) else
  if negb (LAST_ASSIGN g =? 0) && (u64_sub now (LAST_ASSIGN g) <? 110) then (e, g, []) else
  let g := set_last_assign now g in
  let '(memory_node, compute_nodes) := scan_roles (PEER_CAPS g) (nodes e) in
  let ns := imap (λ i slot, match slot with
                            | Some n => if online n then Some (mkNode (capabilities n) (role_for memory_node compute_nodes i) (last_heartbeat n) true) else Some n
                            | None => None
                            end) (nodes e) in
  let dirty := existsb (λ x : nat * option MeshNode, match x.2 with Some n => online n && negb (bool_decide (role n = role_for memory_node compute_nodes x.1)) | None => false end) (imap pair (nodes e)) in
  let assigns := omap (λ x : nat * option MeshNode, match x.2 with Some n => if online n then Some (node_nid n, role_for memory_node compute_nodes x.1) else None | None => None end) (imap pair (nodes e)) in
  (with_nodes ns e, (if dirty then mark_dirty g else g), assigns ++ [(self, Master)]).

Definition become_master (now self : Z) (e : BrainMeshEngine) (g : Globals) : BrainMeshEngine * Globals * list (Z * NodeRole) :=
  let e := mkEngine (local_capabilities e) (nodes e) (node_count e) (role_u8 Master) true (tick_count e) (discovery_active e) in
  assign_roles now self e (bump_mesh_orb_activity g).

(** ** Election *)

(** [a < b] on [[u8; 6]] *)
Fixpoint id_lt (a b : list Z) : bool :=
  match a, b with
  | _, [] => false
  | [], _ :: _ => true
  | x :: a, y :: b => if x <? y then true else if y <? x then false else id_lt a b
  end.

(** Higher score, or the same score and a smaller identifier. *)
Definition outranks (a b : NodeCapabilities) : bool :=
  SFltb (capacity_score b) (capacity_score a) || (SFeqb (capacity_score a) (capacity_score b) && id_lt (node_id a) (node_id b)).

Definition best_peer (local : NodeCapabilities) (ns : list (option MeshNode)) : option nat :=
  fold_left (λ best (x : nat * option MeshNode),
    match x.2 with
    | Some n =>
      if online n then
        let beats := match best with
          | None => outranks (capabilities n) local
          | Some bi => match ns !! bi with Some (Some b) => outranks (capabilities n) (capabilities b) | _ => false end
          end in
        if beats then Some x.1 else best
      else best
    | None => best
    end) (imap pair ns) None.

Definition check_election (now self : Z) (e : BrainMeshEngine) (g : Globals) : BrainMeshEngine * Globals * list (Z * NodeRole) :=
  let best_node := best_peer (local_capabilities e) (nodes e) in
  if is_anchored (local_capabilities e) then become_master now self e g else
  match best_node with
  | None => become_master now self e g
  | Some bi =>
    let '(e, g) :=
      match nodes e !! bi with
      | Some (Some n) =>
        if negb (bool_decide (role n = Master)) then (with_nodes (<[bi := Some (mkNode (capabilities n) Master (last_heartbeat n) (online n))]> (nodes e)) e, mark_dirty g) else (e, g)
      | _ => (e, g)
      end in
    (become_worker e, g, [])
  end.

(** ** Upkeep *)

(** [cleanup_stale_nodes]: a stale node and the health entry of its identifier go. *)
Definition drop_stale (now : Z) (st : list (option MeshNode) * Z * Globals * bool) (slot : option MeshNode) : list (option MeshNode) * Z * Globals * bool :=
  let '(ns, count, g, dropped) := st in
  match slot with
  | Some n =>
    if is_stale now n then
      (ns ++ [None], (count - 1) mod 2 ^ 8, set_health (default (PEER_HEALTH g) (slot_alter (λ _, None) (node_nid n) (PEER_HEALTH g))) (bump_mesh_orb_activity g), true)
    else (ns ++ [Some n], count, g, dropped)
  | None => (ns ++ [None], count, g, dropped)
  end.

Definition cleanup_stale_nodes (now : Z) (e : BrainMeshEngine) (g : Globals) : BrainMeshEngine * Globals * bool :=
  let '(ns, count, g, dropped) := fold_left (drop_stale now) (nodes e) ([], node_count e, g, false) in
  (mkEngine (local_capabilities e) ns count (local_role_u8 e) (is_master e) (tick_count e) (discovery_active e), g, dropped).

Definition step (now self : Z) (e : BrainMeshEngine) (g : Globals) : BrainMeshEngine * Globals * list (Z * NodeRole) * bool :=
  let e := mkEngine (local_capabilities e) (nodes e) (node_count e) (local_role_u8 e) (is_master e) (u64_add (tick_count e) 1) (discovery_active e) in
  let '(e, g, dropped) := cleanup_stale_nodes now e g in
  let '(e, g, assigns) := check_election now self e g in
  (e, g, assigns, dropped).

(** The part of [mark_unreachable] that changes the engine. *)
Definition mark_node_offline (nid : Z) (e : BrainMeshEngine) : BrainMeshEngine :=
  let fix go (ns : list (option MeshNode)) :=
    match ns with
    | [] => []
    | Some n :: ns => if node_nid n =? nid then Some (mkNode (capabilities n) (role n) (last_heartbeat n) false) :: ns else Some n :: go ns
    | None :: ns => None :: go ns
    end in
  with_nodes (go (nodes e)) e.

(** A role announced by the master, for the node it names. *)
Definition apply_role (self target : Z) (r : NodeRole) (e : BrainMeshEngine) (g : Globals) : BrainMeshEngine * Globals :=
  let fix go (ns : list (option MeshNode)) :=
    match ns with
    | [] => []
    | Some n :: ns => if node_nid n =? target then Some (mkNode (capabilities n) r (last_heartbeat n) (online n)) :: ns else Some n :: go ns
    | None :: ns => None :: go ns
    end in
  let e := with_nodes (go (nodes e)) e in
  if target =? self then set_role r e g else (e, g).

(** * One master *)

(** What every node knows of a peer from its heartbeat, and of itself with the default
    tier. *)
Definition default_caps (nid ram : Z) : NodeCapabilities := caps_new [nid; 0; 0; 0; 0; 0] 1 1000 ram 0 NoSimd false false.

(** Memory does not count without vector units: every such node scores 1,200. *)
Lemma default_score nid ram : 1 ≤ ram ≤ 1024 → capacity_score (default_caps nid ram) = S754_finite false 9830400 (-13).
Proof.
  intros Hr. change (capacity_score (default_caps nid ram)) with (capacity_score (default_caps 0 ram)).
  assert (Hall : forallb (λ r, SFeqb (capacity_score (default_caps 0 r)) (S754_finite false 9830400 (-13)) && match capacity_score (default_caps 0 r) with S754_finite false 9830400 (-13) => true | _ => false end) (seqZ 1 1024) = true) by (vm_compute; reflexivity).
  rewrite forallb_forall in Hall. specialize (Hall ram). rewrite <-list_elem_of_In, elem_of_seqZ in Hall. specialize (Hall ltac:(lia)). apply andb_true_iff in Hall as [_ Hm].
  destruct (capacity_score (default_caps 0 ram)) as [s|s| |[] m e]; try done. repeat (destruct m as [m|m|]; try done). repeat (destruct e as [|e|e]; try done); repeat (destruct e as [e|e|]; try done).
Qed.

Lemma default_outranks a b ra rb : 1 ≤ ra ≤ 1024 → 1 ≤ rb ≤ 1024 → outranks (default_caps a ra) (default_caps b rb) = (a <? b).
Proof.
  intros Ha Hb. unfold outranks. rewrite !default_score by done. change (SFltb _ _) with false. change (SFeqb _ _) with true. cbn [orb andb node_id default_caps caps_new new_tiered id_lt].
  destruct (Z.ltb_spec a b), (Z.ltb_spec b a); done || lia.
Qed.

Definition default_node (n : MeshNode) : Prop := ∃ ram, 1 ≤ ram ≤ 1024 ∧ capabilities n = default_caps (node_nid n) ram.

Definition best_step (local : NodeCapabilities) (ns : list (option MeshNode)) (best : option nat) (x : nat * option MeshNode) : option nat :=
  match x.2 with
  | Some n =>
    if online n then
      let beats := match best with
        | None => outranks (capabilities n) local
        | Some bi => match ns !! bi with Some (Some b) => outranks (capabilities n) (capabilities b) | _ => false end
        end in
      if beats then Some x.1 else best
    else best
  | None => best
  end.

(** The scan keeps the smallest identifier below the local one. *)
Lemma best_prefix self ram ns pre : ∀ post,
  1 ≤ ram ≤ 1024 → ns = pre ++ post → (∀ n, Some n ∈ ns → online n = true → default_node n) →
  match fold_left (best_step (default_caps self ram) ns) (imap pair pre) None with
  | None => ∀ n, Some n ∈ pre → online n = true → self ≤ node_nid n
  | Some j => ∃ b, ns !! j = Some (Some b) ∧ online b = true ∧ node_nid b < self ∧ ∀ n, Some n ∈ pre → online n = true → node_nid b ≤ node_nid n
  end.
Proof.
  induction pre as [|slot pre IH] using rev_ind; intros post Hram Hns Hdef; [intros n []%elem_of_nil|]. rewrite <-app_assoc in Hns. specialize (IH _ Hram Hns Hdef).
  rewrite imap_app, fold_left_app. set (best := fold_left _ (imap pair pre) None) in *. cbn [imap fold_left]. unfold compose. rewrite Nat.add_0_r. unfold best_step. cbn [fst snd].
  assert (Hskip : (∀ n, slot = Some n → online n = true → False) →
    match best with
    | None => ∀ n, Some n ∈ pre ++ [slot] → online n = true → self ≤ node_nid n
    | Some j => ∃ b, ns !! j = Some (Some b) ∧ online b = true ∧ node_nid b < self ∧ ∀ n, Some n ∈ pre ++ [slot] → online n = true → node_nid b ≤ node_nid n
    end).
  { intros Hno. destruct best as [j|].
    - destruct IH as (b & H1 & H2 & H3 & H4). exists b. split_and!; try done. intros n [Hn|E%list_elem_of_singleton]%elem_of_app Ho; [by apply H4|]. exfalso. by apply (Hno n).
    - intros n [Hn|E%list_elem_of_singleton]%elem_of_app Ho; [by apply IH|]. exfalso. by apply (Hno n). }
  destruct slot as [n|]; [|by apply Hskip]. destruct (online n) eqn:Ho; [|apply Hskip; intros ? [= <-]; congruence]. clear Hskip.
  assert (Hin : Some n ∈ ns) by (rewrite Hns; apply elem_of_app; right; apply elem_of_cons; by left). destruct (Hdef n Hin Ho) as (r & Hr & Hcn).
  assert (Hat : ns !! length pre = Some (Some n)) by (rewrite Hns; by apply list_lookup_middle).
  destruct best as [j|].
  - destruct IH as (b & H1 & H2 & H3 & H4). rewrite H1. destruct (Hdef b (list_elem_of_lookup_2 _ _ _ H1) H2) as (rb & Hrb & Hcb). rewrite Hcn, Hcb, default_outranks by done. destruct (Z.ltb_spec (node_nid n) (node_nid b)) as [Hlt|Hge].
    + exists n. split_and!; try done; [lia|]. intros m [Hm|E%list_elem_of_singleton]%elem_of_app Hom; [specialize (H4 m Hm Hom); lia|]. injection E as ->. lia.
    + exists b. split_and!; try done. intros m [Hm|E%list_elem_of_singleton]%elem_of_app Hom; [by apply H4|]. injection E as ->. lia.
  - rewrite Hcn, default_outranks by done. destruct (Z.ltb_spec (node_nid n) self) as [Hlt|Hge].
    + exists n. split_and!; try done. intros m [Hm|E%list_elem_of_singleton]%elem_of_app Hom; [specialize (IH m Hm Hom); lia|]. injection E as ->. lia.
    + intros m [Hm|E%list_elem_of_singleton]%elem_of_app Hom; [by apply IH|]. injection E as ->. lia.
Qed.

(** The engine of node [x] knows the nodes in [others] and no others that are online. *)
Record sees (x : Z) (others : gset Z) (e : BrainMeshEngine) : Prop := mkSees {
  sn_local : ∃ ram, 1 ≤ ram ≤ 1024 ∧ local_capabilities e = default_caps x ram;
  sn_nodes : ∀ n, Some n ∈ nodes e → online n = true → default_node n ∧ node_nid n ∈ others;
  sn_all : ∀ o, o ∈ others → ∃ n, Some n ∈ nodes e ∧ online n = true ∧ node_nid n = o }.

Lemma assign_keeps now self e g : let e' := (assign_roles now self e g).1.1 in is_master e' = is_master e ∧ local_role_u8 e' = local_role_u8 e.
Proof.
  unfold assign_roles. destruct (_ || _); [done|]. destruct (negb _); [done|]. destruct (_ && _); [done|]. destruct (scan_roles _ _). done.
Qed.

(** C27: One master. In a mesh whose nodes all run with the default tier and none is
    anchored, when every node knows every other, the election makes the node with the
    smallest identifier master, whatever their memory and in whatever order they were
    discovered; every other node steps down, and marks that node as its master. *)
Theorem smallest_id_leads (ids : gset Z) x e g now self :
  x ∈ ids → sees x (ids ∖ {[x]}) e →
  let e' := (check_election now self e g).1.1 in
  is_master e' = bool_decide (set_Forall (λ y, x ≤ y) ids) ∧ (local_role e' = Master ↔ is_master e' = true) ∧
  (is_master e' = false → ∃ n, Some n ∈ nodes e' ∧ role n = Master ∧ node_nid n ∈ ids ∧ set_Forall (λ y, node_nid n ≤ y) ids).
Proof.
  intros Hx [(ram & Hram & Hlocal) Hnodes Hall]. unfold check_election. rewrite Hlocal. change (is_anchored (default_caps x ram)) with false. cbv iota.
  pose proof (best_prefix x ram (nodes e) (nodes e) [] Hram ltac:(by rewrite app_nil_r) (λ n Hn Ho, proj1 (Hnodes n Hn Ho))) as Hbest. change (fold_left _ (imap pair (nodes e)) None) with (best_peer (default_caps x ram) (nodes e)) in Hbest.
  destruct (best_peer (default_caps x ram) (nodes e)) as [j|].
  - destruct Hbest as (b & Hj & Hob & Hlt & Hmin). rewrite Hj. pose proof (list_elem_of_lookup_2 _ _ _ Hj) as Hb. destruct (Hnodes b Hb Hob) as [_ Hbi].
    assert (Hleast : set_Forall (λ y, node_nid b ≤ y) ids).
    { intros y Hy. destruct (decide (y = x)) as [->|Hne]; [lia|]. destruct (Hall y) as (n & Hn & Ho & <-); [set_solver|]. by apply Hmin. }
    assert (Hnot : bool_decide (set_Forall (λ y, x ≤ y) ids) = false). { apply bool_decide_false. intros Hf. specialize (Hf (node_nid b) ltac:(set_solver)). cbn in Hf. lia. }
    set (b' := mkNode (capabilities b) Master (last_heartbeat b) (online b)).
    assert (Hfin : ∃ e1 g1, (let '(e, g) := if negb (bool_decide (role b = Master)) then (with_nodes (<[j := Some b']> (nodes e)) e, mark_dirty g) else (e, g) in (become_worker e, g, [] : list (Z * NodeRole))) = (become_worker e1, g1, []) ∧
      ∃ n, Some n ∈ nodes e1 ∧ role n = Master ∧ node_nid n = node_nid b).
    { destruct (decide (role b = Master)) as [Hr|Hr]; [rewrite bool_decide_true by done|rewrite bool_decide_false by done]; cbn [negb]; [exists e, g; split; [done|]; by exists b|]. exists (with_nodes (<[j := Some b']> (nodes e)) e), (mark_dirty g). split; [reflexivity|]. exists b'. split; [|done]. cbn [nodes with_nodes].
      apply (list_elem_of_lookup_2 _ j), list_lookup_insert_eq. by apply lookup_lt_Some in Hj. }
    destruct Hfin as (e1 & g1 & -> & n & Hn & Hr & Hnid). cbn [fst]. rewrite Hnot. unfold become_worker, local_role, role_of_u8. cbn [is_master local_role_u8 nodes]. split_and!; [done| |].
    + split; [|done]. destruct (_ || _) eqn:Ec; [|done]. apply orb_true_iff in Ec as [->%Z.eqb_eq| ->%Z.eqb_eq]; done.
    + intros _. exists n. rewrite Hnid. split_and!; [done..|set_solver|done].
  - assert (Hleast : set_Forall (λ y, x ≤ y) ids). { intros y Hy. destruct (decide (y = x)) as [->|Hne]; [lia|]. destruct (Hall y) as (n & Hn & Ho & <-); [set_solver|]. by apply Hbest. }
    rewrite bool_decide_true by done. unfold become_master. set (e1 := mkEngine _ _ _ _ _ _ _). destruct (assign_keeps now self e1 (bump_mesh_orb_activity g)) as [E1 E2]. unfold local_role. cbv zeta. rewrite E1, E2. split; [reflexivity|]. split; [split; reflexivity|]. intros E. discriminate E.
Qed.

Definition no_globals : Globals := mkGlobals (mkKeys (replicate 16 None) 0 false) false 0 0 (replicate 16 None) (replicate 16 None).

(** The engine of a node, after heartbeats from some peers. *)
Definition after_heartbeats (local : NodeCapabilities) (peers : list Z) : BrainMeshEngine :=
  (fold_left (λ st nid, add_or_update_node 100 (default_caps nid 4) st.1 st.2) peers (engine_new local, no_globals)).1.

Lemma three_nodes : sees 3 ({[2; 3; 5]} ∖ {[3]}) (after_heartbeats (default_caps 3 8) [5; 2]).
Proof.
  assert (E : nodes (after_heartbeats (default_caps 3 8) [5; 2]) = Some (mkNode (default_caps 5 4) Undecided 100 true) :: Some (mkNode (default_caps 2 4) Undecided 100 true) :: replicate 14 None) by (vm_compute; reflexivity).
  split.
  - exists 8. split; [lia|reflexivity].
  - rewrite E. intros n Hn _. apply elem_of_cons in Hn as [[= ->]|Hn]; [|apply elem_of_cons in Hn as [[= ->]|Hn]; [|by apply elem_of_replicate in Hn as [? _]]]; (split; [exists 4; split; [lia|reflexivity]|set_solver]).
  - rewrite E. intros o Ho. assert (o = 2 ∨ o = 5) as [-> | ->] by set_solver.
    + eexists. split; [apply elem_of_cons; right; apply elem_of_cons; by left|done].
    + eexists. split; [apply elem_of_cons; by left|done].
Qed.

Lemma smallest_id_leads_witness : is_master (check_election 100 3 (after_heartbeats (default_caps 3 8) [5; 2]) no_globals).1.1 = false.
Proof.
  destruct (smallest_id_leads {[2; 3; 5]} 3 (after_heartbeats (default_caps 3 8) [5; 2]) no_globals 100 3) as (E & _); [set_solver|exact three_nodes|].
  rewrite E. vm_compute. reflexivity.
Defined.

(** Heartbeats carry no tier, so a node compares its own bonus with peers that never
    have one: two nodes of the highest tier are both master, two of the lowest have none. *)
Lemma tiers_split_the_mesh :
  let node tier self peer := after_heartbeats (new_tiered tier [self; 0; 0; 0; 0; 0] 1 1000 4 0 NoSimd false false) [peer] in
  let master tier self peer := is_master (check_election 100 self (node tier self peer) no_globals).1.1 in
  (master L4 2 3, master L4 3 2, master L0 2 3, master L0 3 2) = (true, true, false, false).
Proof. vm_compute. reflexivity. Qed.

End Engine.
