(* ===== verification/MeshRx.v ===== *)
(** What a node does in a tick of the mesh ([k_nano/src/net/mesh.rs], [p2p_tick]): its
    heartbeat, the gate every received packet passes, the delivery of what passes; and
    [mesh_tick] and [probe_node]. *)

From S2P Require Import Prelude MeshWire MeshPeers MeshFrag MeshAuth MeshChunk MeshEngine.
Import Wire Peers.

Module Rx.
Import Auth Engine.

(** * The state of a node *)

(** [SEC_DROPPED_UNSIGNED], [SEC_DROPPED_BADSIG], [SEC_DROPPED_REPLAY] and
    [SEC_LAST_BADSIG_SID] *)
Record Stats := mkStats { unsigned : Z; badsig : Z; replay : Z; last_badsig_sid : Z }.

(** [published] are the payloads of the [P2P_PACKET] events. *)
Record World := mkWorld {
  MESH_ENGINE : option BrainMeshEngine; glob : Globals; sender : Chunk.Sender; caches : Caches; stats : Stats;
  frags : Frag.Rx; CHUNK_SLOTS_TABLE : list (option Chunk.ChunkSlot); published : list bytes;
  TOKEN_BUCKET : Z * Z; LAST_HEALTH_CLEANUP : Z; LAST_SENT : Z; LOCAL_TIER : Z; LOCAL_CAPS : Z }.

Definition with_engine (e : option BrainMeshEngine) (w : World) : World :=
  mkWorld e (glob w) (sender w) (caches w) (stats w) (frags w) (CHUNK_SLOTS_TABLE w) (published w) (TOKEN_BUCKET w) (LAST_HEALTH_CLEANUP w) (LAST_SENT w) (LOCAL_TIER w) (LOCAL_CAPS w).
Definition with_glob (g : Globals) (w : World) : World :=
  mkWorld (MESH_ENGINE w) g (sender w) (caches w) (stats w) (frags w) (CHUNK_SLOTS_TABLE w) (published w) (TOKEN_BUCKET w) (LAST_HEALTH_CLEANUP w) (LAST_SENT w) (LOCAL_TIER w) (LOCAL_CAPS w).
Definition with_sender (s : Chunk.Sender) (w : World) : World :=
  mkWorld (MESH_ENGINE w) (glob w) s (caches w) (stats w) (frags w) (CHUNK_SLOTS_TABLE w) (published w) (TOKEN_BUCKET w) (LAST_HEALTH_CLEANUP w) (LAST_SENT w) (LOCAL_TIER w) (LOCAL_CAPS w).
Definition with_caches (c : Caches) (w : World) : World :=
  mkWorld (MESH_ENGINE w) (glob w) (sender w) c (stats w) (frags w) (CHUNK_SLOTS_TABLE w) (published w) (TOKEN_BUCKET w) (LAST_HEALTH_CLEANUP w) (LAST_SENT w) (LOCAL_TIER w) (LOCAL_CAPS w).
Definition with_stats (s : Stats) (w : World) : World :=
  mkWorld (MESH_ENGINE w) (glob w) (sender w) (caches w) s (frags w) (CHUNK_SLOTS_TABLE w) (published w) (TOKEN_BUCKET w) (LAST_HEALTH_CLEANUP w) (LAST_SENT w) (LOCAL_TIER w) (LOCAL_CAPS w).
Definition with_frags (r : Frag.Rx) (w : World) : World :=
  mkWorld (MESH_ENGINE w) (glob w) (sender w) (caches w) (stats w) r (CHUNK_SLOTS_TABLE w) (published w) (TOKEN_BUCKET w) (LAST_HEALTH_CLEANUP w) (LAST_SENT w) (LOCAL_TIER w) (LOCAL_CAPS w).
Definition with_table (t : list (option Chunk.ChunkSlot)) (w : World) : World :=
  mkWorld (MESH_ENGINE w) (glob w) (sender w) (caches w) (stats w) (frags w) t (published w) (TOKEN_BUCKET w) (LAST_HEALTH_CLEANUP w) (LAST_SENT w) (LOCAL_TIER w) (LOCAL_CAPS w).
Definition publish (payload : bytes) (w : World) : World :=
  mkWorld (MESH_ENGINE w) (glob w) (sender w) (caches w) (stats w) (frags w) (CHUNK_SLOTS_TABLE w) (published w ++ [payload]) (TOKEN_BUCKET w) (LAST_HEALTH_CLEANUP w) (LAST_SENT w) (LOCAL_TIER w) (LOCAL_CAPS w).
Definition with_ticks (bucket : Z * Z) (cleanup sent : Z) (w : World) : World :=
  mkWorld (MESH_ENGINE w) (glob w) (sender w) (caches w) (stats w) (frags w) (CHUNK_SLOTS_TABLE w) (published w) bucket cleanup sent (LOCAL_TIER w) (LOCAL_CAPS w).

Definition set_keys (k : Keys) (w : World) : World := with_glob (with_keys k (glob w)) w.

Definition drop_unsigned (w : World) : World := let s := stats w in with_stats (mkStats (u64_add (unsigned s) 1) (badsig s) (replay s) (last_badsig_sid s)) w.
Definition drop_replay (w : World) : World := let s := stats w in with_stats (mkStats (unsigned s) (badsig s) (u64_add (replay s) 1) (last_badsig_sid s)) w.
Definition note_badsig (sid : Z) (w : World) : World := let s := stats w in with_stats (mkStats (unsigned s) (u64_add (badsig s) 1) (replay s) sid) w.

(** * The gate *)

Inductive CryptoTier := Full | Relativized.

Definition crypto_tier (w : World) : CryptoTier := match Chunk.segment (sender w) with Some _ => Relativized | None => Full end.

(** [b"PK\0"], [b"CAP\0"], [b"RAM\0"], [b"ROLE\0"] *)
Definition PK : bytes := [Byte.x50; Byte.x4b; Byte.x00].
Definition CAP : bytes := [Byte.x43; Byte.x41; Byte.x50; Byte.x00].
Definition RAM : bytes := [Byte.x52; Byte.x41; Byte.x4d; Byte.x00].
Definition ROLE : bytes := [Byte.x52; Byte.x4f; Byte.x4c; Byte.x45; Byte.x00].

Definition strip_prefix (p l : bytes) : option bytes := if starts_with p l then Some (drop (length p) l) else None.

Definition is_control (rx : bytes) (pkt : AiosTaskPacket) : bool :=
  (task_type pkt =? 5) || ((PACKET_HEADER_SIZE + 5 <=? zlen rx) && bool_decide (slice PACKET_HEADER_SIZE 5 rx = ROLE)).

Definition min_auth (rx : bytes) (pkt : AiosTaskPacket) (w : World) : Z :=
  if encrypted (flags pkt) then AEAD_TAG_LEN
  else if is_control rx pkt || match crypto_tier w with Full => true | Relativized => false end then SIGNATURE_LEN else HMAC_TAG_LEN.

(** [&rx[PACKET_HEADER_SIZE..rx.len() - SIGNATURE_LEN]] of a heartbeat: [None] when the
    range is not one of the packet, which panics. *)
Definition raw_payload (rx : bytes) (pkt : AiosTaskPacket) : option bytes :=
  if task_type pkt =? 5 then
    let end_ := zlen rx - SIGNATURE_LEN in
    if PACKET_HEADER_SIZE <=? end_ then Some (slice PACKET_HEADER_SIZE (end_ - PACKET_HEADER_SIZE) rx) else None
  else Some [].

Definition embedded_pk (raw : bytes) : option bytes :=
  match strip_prefix PK raw with
  | Some p => if PUBLIC_KEY_LEN <=? zlen p then Some (slice 0 PUBLIC_KEY_LEN p) else None
  | None => None
  end.

Inductive Verdict := Drop | Accept (raw data : bytes) | Panics.

Section Gate.
Context `{Ed25519, ChaCha}.

(** Trust on first use: [Some None] for a known node, [Some (Some data)] for the signed
    heartbeat of a new one, which binds its key; [None] drops the packet. *)
Definition tofu (rx raw : bytes) (pkt : AiosTaskPacket) (w : World) : option (option bytes) * World :=
  let sid := source_id pkt in
  match peer_pk sid (keys (glob w)) with
  | Some _ => (Some None, w)
  | None =>
    if negb (task_type pkt =? 5) then (None, note_badsig sid w) else
    match embedded_pk raw with
    | None => (None, note_badsig sid w)
    | Some pk =>
      match verify_packet rx pk with
      | Some valid => (Some (Some valid), set_keys (peer_bind sid pk (keys (glob w))) w)
      | None => (None, note_badsig sid w)
      end
    end
  end.

Definition stale (pkt : AiosTaskPacket) (w : World) : bool :=
  match peer_last_clock (source_id pkt) (keys (glob w)) with Some last => clock pkt <=? last | None => false end.

(** The signature, the tag or the seal of a known node's packet. *)
Definition verify_known (rx pk : bytes) (pkt : AiosTaskPacket) (w : World) : option bytes * World :=
  if is_control rx pkt then (verify_packet rx pk, w) else
  let '(v, c) := verify_or_open_tiered (Chunk.segment (sender w)) (Chunk.session (sender w)) rx pk (caches w) in (v, with_caches c w).

Definition accept (raw data : bytes) (pkt : AiosTaskPacket) (w : World) : Verdict * World :=
  (Accept raw data, set_keys (peer_update_clock (source_id pkt) (clock pkt) (keys (glob w))) w).

Definition gate (rx : bytes) (w : World) : Verdict * World :=
  match parse rx with
  | None => (Drop, drop_unsigned w)
  | Some pkt =>
    if zlen rx <? PACKET_HEADER_SIZE + min_auth rx pkt w then (Drop, drop_unsigned w) else
    match raw_payload rx pkt with
    | None => (Panics, w)
    | Some raw =>
      match tofu rx raw pkt w with
      | (None, w) => (Drop, w)
      | (Some tofu_data, w) =>
        if stale pkt w then (Drop, drop_replay w) else
        match tofu_data with
        | Some data => accept raw data pkt w
        | None =>
          match peer_pk (source_id pkt) (keys (glob w)) with
          | None => (Panics, w)
          | Some pk =>
            match verify_known rx pk pkt w with
            | (Some data, w) => accept raw data pkt w
            | (None, w) => (Drop, note_badsig (source_id pkt) w)
            end
          end
        end
      end
    end
  end.

(** * Roles on the wire *)

Definition dec_digit (d : Z) : Byte.byte := byte.of_Z (48 + d).

(** [format!("{}", z)] of a [u8] *)
Definition dec_u8 (z : Z) : bytes :=
  if z <? 10 then [dec_digit z] else if z <? 100 then [dec_digit (z / 10); dec_digit (z mod 10)]
  else [dec_digit (z / 100); dec_digit (z / 10 mod 10); dec_digit (z mod 10)].

(** [core::str::from_utf8(s).ok().and_then(|s| s.parse::<u8>().ok())]: a sign, if any, and
    decimal digits, without overflow. Other strings, those that are not UTF-8 among them,
    do not parse. *)
Fixpoint parse_digits (acc : Z) (s : bytes) : option Z :=
  match s with
  | [] => Some acc
  | b :: s =>
    let d := byte.unsigned b - 48 in
    if (0 <=? d) && (d <=? 9) then let acc := acc * 10 + d in if acc <=? 255 then parse_digits acc s else None else None
  end.

Definition parse_u8 (s : bytes) : option Z :=
  match s with
  | [] => None
  | b :: s' => if byte.unsigned b =? 43 then match s' with [] => None | _ => parse_digits 0 s' end else parse_digits 0 s
  end.

(** [splitn(2, |&b| b == 0)] *)
Fixpoint split_nul (s : bytes) : bytes * option bytes :=
  match s with
  | [] => ([], None)
  | b :: s => if byte.unsigned b =? 0 then ([], Some s) else let '(p, r) := split_nul s in (b :: p, r)
  end.

Definition role_payload (target : Z) (r : NodeRole) : bytes := ROLE ++ dec_u8 target ++ [Byte.x00] ++ dec_u8 (role_u8 r).

Definition read_role (payload : bytes) : option (Z * NodeRole) :=
  let '(first, second) := split_nul (drop 5 payload) in
  target ← parse_u8 first;
  Some (target, role_of_u8 (default 4 (second ≫= parse_u8))).

(** The second component counts what [bump_mesh_orb_activity] counts. *)
Definition send_role_assign (target : Z) (r : NodeRole) (s : Chunk.Sender) (g : Globals) : Chunk.Sender * Globals :=
  let '(clk, s) := Chunk.next_data_clock s in
  let '(nid, s) := Chunk.node_id s in
  let pkt := AiosTaskPacket_new clk nid 0xFF Sync 1 0 0 PacketFlags_new in
  match sign_packet_authentic (Chunk.session s) (serialize pkt ++ role_payload target r) with
  | None => (s, g)
  | Some signed =>
    let '(ok, n) := udp_broadcast_send signed 42069 (Chunk.snet s) in
    (Chunk.with_net n s, if ok then bump_mesh_orb_activity g else g)
  end.

Definition send_roles (assigns : list (Z * NodeRole)) (s : Chunk.Sender) (g : Globals) : Chunk.Sender * Globals :=
  fold_left (λ sg a, send_role_assign a.1 a.2 sg.1 sg.2) assigns (s, g).

(** * Delivery *)

(** What a heartbeat says after the key: capabilities, if any, and memory. *)
Definition read_caps (rest : bytes) : option Z * Z :=
  let off := PUBLIC_KEY_LEN in
  let has p off := (off + 5 <=? zlen rest) && bool_decide (slice off 4 rest = p) in
  let '(caps, off) := if has CAP off then (Some (byte_at rest (off + 4)), off + 5) else (None, off) in
  (caps, if has RAM off then Z.max (byte_at rest (off + 4)) 1 else 1).

(** Stores the capabilities a heartbeat announces and returns the memory it states. *)
Definition learn_caps (sid : Z) (raw : bytes) (w : World) : Z * World :=
  match strip_prefix PK raw with
  | Some rest =>
    if PUBLIC_KEY_LEN <=? zlen rest then
      let '(caps, ram) := read_caps rest in
      let g := glob w in
      (ram, match caps with
            | Some caps => with_glob (mkGlobals (keys g) (MESH_HEALTH_DIRTY g) (MESH_ORB_ACTIVITY g) (LAST_ASSIGN g) (peer_set_caps sid caps (PEER_CAPS g)) (PEER_HEALTH g)) w
            | None => w
            end)
    else (1, w)
  | None => (1, w)
  end.

(** [flush_mesh_health_if_dirty], without the report to the desktop *)
Definition clear_dirty (g : Globals) : Globals := mkGlobals (keys g) false (MESH_ORB_ACTIVITY g) (LAST_ASSIGN g) (PEER_CAPS g) (PEER_HEALTH g).

Definition deliver_role (payload : bytes) (w : World) : World :=
  match read_role payload with
  | None => w
  | Some (target, r) =>
    let w :=
      match MESH_ENGINE w with
      | Some e =>
        let '(self, s) := Chunk.node_id (sender w) in
        let '(e, g) := apply_role self target r e (glob w) in with_sender s (with_glob g (with_engine (Some e) w))
      | None => w
      end in
    with_glob (mark_dirty (glob w)) w
  end.

(** [tick] is the clock the engine reads. *)
Definition deliver_heartbeat (tick sid ram : Z) (w : World) : World :=
  let w :=
    match MESH_ENGINE w with
    | Some e =>
      let '(e, g) := add_or_update_node tick (default_caps sid ram) e (glob w) in
      let '(e, g, assigns) := check_election tick (Chunk.node_id (sender w)).1 e g in
      let '(s, g) := send_roles assigns (sender w) g in
      with_sender s (with_glob g (with_engine (Some e) w))
    | None => w
    end in
  with_glob (clear_dirty (glob w)) w.

(** What follows the gate; [now] is the clock at the start of the tick. *)
Definition deliver (now tick : Z) (pkt : AiosTaskPacket) (raw data : bytes) (w : World) : World :=
  let sid := source_id pkt in
  let tt := task_type pkt in
  let '(ram, w) := if tt =? 5 then learn_caps sid raw w else (1, w) in
  let payload := if PACKET_HEADER_SIZE <? zlen data then drop (Z.to_nat PACKET_HEADER_SIZE) data else [] in
  if (tt =? 3) && starts_with ROLE payload then deliver_role payload w else
  if negb (tt =? 5) && starts_with Chunk.CHK payload then
    let '(full, t) := Chunk.chunk_reassemble sid payload now (CHUNK_SLOTS_TABLE w) in
    let w := with_table t w in
    match full with Some full => publish (slice 0 PACKET_HEADER_SIZE data ++ full) w | None => w end
  else if negb (tt =? 5) then publish data w else deliver_heartbeat tick sid ram w.

Definition receive (now tick : Z) (rx : bytes) (w : World) : Verdict * World :=
  match gate rx w with
  | (Accept raw data, w) => (Accept raw data, deliver now tick (read_packet rx) raw data w)
  | r => r
  end.

(** * The tick *)

Definition local_tier (w : World) : NodeTier :=
  if LOCAL_TIER w =? 0 then L0 else if LOCAL_TIER w =? 1 then L1 else if LOCAL_TIER w =? 2 then L2
  else if LOCAL_TIER w =? 3 then L3 else if LOCAL_TIER w =? 4 then L4 else L1.

Definition ram_gb_of (ram_mb : Z) : Z := Z.max ((ram_mb + 1023) / 1024) 1.

Definition init_engine (ram_mb : Z) (w : World) : World :=
  match MESH_ENGINE w with
  | Some _ => w
  | None =>
    let '(nid, s) := Chunk.node_id (sender w) in
    with_sender s (with_engine (Some (engine_new (new_tiered (local_tier w) [nid; 0; 0; 0; 0; 0] 1 1000 (ram_gb_of ram_mb) 0 NoSimd false false))) w)
  end.

Definition heartbeat_payload (ram_mb : Z) (w : World) : bytes :=
  match session_public_key (Chunk.session (sender w)) with
  | Some pk => PK ++ pk ++ (if negb (LOCAL_CAPS w =? 0) then CAP ++ [byte.of_Z (LOCAL_CAPS w)] else []) ++ RAM ++ [byte.of_Z (Z.min (ram_gb_of ram_mb) 255)]
  | None => []
  end.

(** The heartbeat, unless the rate limit refuses it; [t] is the clock the limit reads. *)
Definition send_heartbeat (ram_mb t : Z) (w : World) : World :=
  let '(nid, s) := Chunk.node_id (sender w) in
  let '(ok, bucket) := token_bucket_try_consume TOKEN_BUCKET_COST_HEARTBEAT t (TOKEN_BUCKET w) in
  let w := with_sender s (with_ticks bucket (LAST_HEALTH_CLEANUP w) (LAST_SENT w) w) in
  if negb ok then w else
  let '(clk, s) := Chunk.next_data_clock s in
  match sign_packet_authentic (Chunk.session s) (serialize (make_heartbeat nid clk) ++ heartbeat_payload ram_mb w) with
  | None => with_sender s w
  | Some signed =>
    let '(sent, n) := udp_broadcast_send signed P2P_PORT (Chunk.snet s) in
    let w := with_sender (Chunk.with_net n s) w in
    if sent then with_glob (bump_mesh_orb_activity (glob w)) w else w
  end.

Definition take_force (w : World) : bool * World :=
  let k := keys (glob w) in (FORCE_HEARTBEAT k, set_keys (mkKeys (PEER_KEYS k) (FIRST_PEER_TICK k) false) w).

(** The clock readings of one call of [recv_fragmented], and of the engine for the packet
    it returns. *)
Record Reading := mkReading { r_now : Z; r_env : nat → Z * bool; r_tick : Z }.

Inductive Outcome := Done (w : World) | Panicked (w : World).

(** [while let Some(rx) = recv_fragmented(P2P_PORT)] *)
Fixpoint receive_loop (fuel : nat) (ram_mb now : Z) (env : nat → Reading) (k : nat) (w : World) : option Outcome :=
  match fuel with
  | O => None
  | S fuel =>
    let r := env k in
    '(rx, n, f) ← Frag.recv_fragmented ram_mb P2P_PORT (r_now r) (r_env r) (Chunk.snet (sender w)) (frags w);
    let w := with_frags f (with_sender (Chunk.with_net n (sender w)) w) in
    match rx with
    | None => Some (Done w)
    | Some rx =>
      match receive now (r_tick r) rx w with
      | (Panics, w) => Some (Panicked w)
      | (_, w) => receive_loop fuel ram_mb now env (S k) w
      end
    end
  end.

Definition cleanup (now t : Z) (w : World) : World :=
  if (LAST_HEALTH_CLEANUP w =? 0) || (500 <=? u64_sub now (LAST_HEALTH_CLEANUP w)) then
    with_glob (set_health (cleanup_peer_health_ttl t (PEER_HEALTH (glob w))) (glob w)) (with_ticks (TOKEN_BUCKET w) now (LAST_SENT w) w)
  else w.

(** [now] is the clock at the start, [t] the reading of the calls before the loop. *)
Definition p2p_tick (ram_mb now t : Z) (env : nat → Reading) (w : World) : option Outcome :=
  let w := init_engine ram_mb w in
  if bool_decide (mac (NET_CONFIG (Chunk.snet (sender w))) = replicate 6 Byte.x00) then Some (Done w) else
  let w := cleanup now t w in
  let last := LAST_SENT w in
  let '(force_hb, w) := take_force w in
  let w :=
    if force_hb || (110 <=? u64_sub now last) || (last =? 0) then send_heartbeat ram_mb t (with_ticks (TOKEN_BUCKET w) (LAST_HEALTH_CLEANUP w) now w) else w in
  receive_loop (S (Frag.waiting (Chunk.snet (sender w)))) ram_mb now env 0 w.

(** [mesh_tick], without the reports to the desktop; [t] is the clock the engine reads. *)
Definition mesh_tick (t : Z) (w : World) : World :=
  let '(dropped, w) :=
    match MESH_ENGINE w with
    | Some e =>
      let '(e, g, assigns, dropped) := step t (Chunk.node_id (sender w)).1 e (glob w) in
      let '(s, g) := send_roles assigns (sender w) g in
      (dropped, with_sender s (with_glob g (with_engine (Some e) w)))
    | None => (false, w)
    end in
  if dropped : bool then w else with_glob (clear_dirty (glob w)) w.

(** * Probes *)

(** [b"PING\0"], [b"PONG\0"] *)
Definition PING : bytes := [Byte.x50; Byte.x49; Byte.x4e; Byte.x47; Byte.x00].
Definition PONG : bytes := [Byte.x50; Byte.x4f; Byte.x4e; Byte.x47; Byte.x00].

Definition probe_timeout (target : Z) (w : World) : Z :=
  let failures := match peer_health target (PEER_HEALTH (glob w)) with Some h => probe_failures h | None => 0 end in
  Z.min (u64_sat_mul PROBE_BASE_TIMEOUT_TICKS (Z.shiftl 1 failures mod 2 ^ 64)) PROBE_MAX_TIMEOUT_TICKS.

Definition with_probe (failures timeout : Z) (h : PeerHealth) : PeerHealth :=
  mkHealth (last_rtt_ticks h) (consecutive_failures h) (tx_count h) (ack_count h) (unreachable_since h) (reachable h)
    failures timeout (last_activity_ticks h) (avg_rtt_ticks h) (rtt_samples h) (rtt_sample_idx h) (rtt_sample_count h).

Definition probe_success (target rtt t : Z) (w : World) : World :=
  let h := record_peer_success target rtt t (PEER_HEALTH (glob w)) in
  with_glob (set_health (default h (slot_alter (λ h, Some (with_probe 0 PROBE_BASE_TIMEOUT_TICKS h)) target h)) (glob w)) w.

(** The failure counts, and at the third in a row the node goes offline. *)
Definition probe_failure (target t t2 : Z) (w : World) : World :=
  let h := PEER_HEALTH (glob w) in
  let h := default h (slot_alter (λ h,
    let f := Z.min (u8_sat_add (probe_failures h) 1) PROBE_MAX_FAILURES in
    Some (with_probe f (Z.min (u64_sat_mul PROBE_BASE_TIMEOUT_TICKS (Z.shiftl 1 f mod 2 ^ 64)) PROBE_MAX_TIMEOUT_TICKS) h)) target h) in
  let '(h, unreachable) := record_peer_failure target t t2 h in
  let w := with_glob (set_health h (glob w)) w in
  if unreachable then with_engine (mark_node_offline target <$> MESH_ENGINE w) w else w.

(** The waiting loop: [env k] are the clock readings of round [k] (at its start, for the
    round trip and for the health entry); [None] is a loop still waiting. *)
Fixpoint probe_loop (fuel : nat) (target now deadline : Z) (env : nat → Z * Z * Z) (k : nat) (w : World) : option (bool * World) :=
  match fuel with
  | O => None
  | S fuel =>
    let '(tick, t_rtt, t) := env k in
    if 2 ^ 63 <? u64_sub tick deadline then Some (false, probe_failure target t_rtt t w) else
    let '(rx, n) := udp_broadcast_recv 42069 (Chunk.snet (sender w)) in
    let w := with_sender (Chunk.with_net n (sender w)) w in
    match rx with
    | Some rx =>
      match parse rx with
      | Some p =>
        if (source_id p =? target) && starts_with PONG (drop (Z.to_nat PACKET_HEADER_SIZE) rx)
        then Some (true, probe_success target (u64_sub t_rtt now) t w)
        else probe_loop fuel target now deadline env (S k) w
      | None => probe_loop fuel target now deadline env (S k) w
      end
    | None => probe_loop fuel target now deadline env (S k) w
    end
  end.

Definition cooling_down (target now : Z) (w : World) : bool :=
  match peer_health target (PEER_HEALTH (glob w)) with
  | Some h => negb (reachable h) && (u64_sub now (unreachable_since h) <? UNREACHABLE_COOLDOWN_TICKS)
  | None => false
  end.

Definition probe_node (fuel : nat) (target now : Z) (env : nat → Z * Z * Z) (w : World) : option (bool * World) :=
  if cooling_down target now w then Some (false, w) else
  let timeout := probe_timeout target w in
  let '(nid, s) := Chunk.node_id (sender w) in
  let '(clk, s) := Chunk.next_data_clock s in
  let w := with_sender s w in
  let pkt := AiosTaskPacket_new clk nid target Sync 1 0 0 PacketFlags_new in
  match sign_packet_authentic (Chunk.session s) (serialize pkt ++ PING ++ [byte.of_Z target]) with
  | None => Some (false, w)
  | Some signed =>
    let '(sent, n) := udp_broadcast_send signed 42069 (Chunk.snet s) in
    let w := with_sender (Chunk.with_net n s) w in
    if negb sent then Some (false, w) else probe_loop fuel target now (u64_add now timeout) env 0 w
  end.
End Gate.

End Rx.
