(* ===== verification/MeshRxThm.v ===== *)
(** The gate of the mesh: what a node accepts from whom, and what reaches it. *)

From S2P Require Import Prelude MeshWire MeshPeers MeshFrag MeshAuth MeshChunk MeshEngine MeshFragThm MeshFragRun MeshRx.
Import Wire Peers.

Module RxThm.
Import Auth Engine FragRun Rx.

(** * The key table *)

Abbreviation peer_slot sid w := (slot_get sid (PEER_KEYS (keys (glob w)))).

Lemma bind_slot sid pk k j :
  peer_pk sid k = None →
  slot_get j (PEER_KEYS (peer_bind sid pk k)) =
    if j =? sid then (if bool_decide (Forall is_Some (PEER_KEYS k)) then None else Some (pk, 0)) else slot_get j (PEER_KEYS k).
Proof.
  unfold peer_pk, peer_bind. intros Hn. apply fmap_None in Hn. assert (Ha : slot_alter (λ _, Some (pk, 0)) sid (PEER_KEYS k) = None) by (by apply slot_alter_None). rewrite Ha.
  destruct (slot_fill sid (pk, 0) (PEER_KEYS k)) as [t|] eqn:Hf.
  - rewrite bool_decide_false; [exact (slot_get_fill _ _ _ _ _ Hf Hn)|]. intros Hall. apply (slot_fill_None sid (pk, 0)) in Hall. congruence.
  - apply slot_fill_None in Hf. rewrite bool_decide_true by done. by destruct (Z.eqb_spec j sid) as [->|].
Qed.

Lemma clock_slot sid clk k j :
  slot_get j (PEER_KEYS (peer_update_clock sid clk k)) = if j =? sid then (λ e, (e.1, clk)) <$> slot_get sid (PEER_KEYS k) else slot_get j (PEER_KEYS k).
Proof.
  unfold peer_update_clock. cbn [PEER_KEYS]. destruct (slot_alter (λ e, Some (e.1, clk)) sid (PEER_KEYS k)) as [t|] eqn:E.
  - change (default (PEER_KEYS k) (Some t)) with t. by rewrite (slot_get_alter (λ e, (e.1, clk)) sid j _ t E).
  - change (default (PEER_KEYS k) None) with (PEER_KEYS k). apply slot_alter_None in E. rewrite E. by destruct (Z.eqb_spec j sid) as [->|].
Qed.

Section Gate.
Context `{Ed25519, ChaCha}.

(** What decides about a packet: keys and clocks, cached keys, the session and the segment
    key. Delivery leaves it alone. *)
Definition trust (w : World) := (PEER_KEYS (keys (glob w)), caches w, Chunk.session (sender w), Chunk.segment (sender w)).

Lemma node_id_keeps s : let s' := (Chunk.node_id s).2 in Chunk.session s' = Chunk.session s ∧ Chunk.segment s' = Chunk.segment s ∧ Chunk.snet s' = Chunk.snet s ∧ Chunk.lclock s' = Chunk.lclock s.
Proof. unfold Chunk.node_id. by destruct (negb (_ =? 0)). Qed.

Lemma send_role_keeps target r s g :
  let '(s', g') := send_role_assign target r s g in Chunk.session s' = Chunk.session s ∧ Chunk.segment s' = Chunk.segment s ∧ keys g' = keys g ∧ PEER_CAPS g' = PEER_CAPS g.
Proof.
  unfold send_role_assign. cbn [Chunk.next_data_clock]. set (s0 := Chunk.mkSender _ _ _ _ _ _). destruct (node_id_keeps s0) as (H1 & H2 & _). destruct (Chunk.node_id s0) as [nid s1]. cbn [snd] in H1, H2.
  destruct (sign_packet_authentic _ _) as [signed|]; [|by rewrite H1, H2]. destruct (udp_broadcast_send _ _ _) as [ok n]. cbn. rewrite H1, H2. by destruct ok.
Qed.

Lemma send_roles_keeps assigns s g :
  let '(s', g') := send_roles assigns s g in Chunk.session s' = Chunk.session s ∧ Chunk.segment s' = Chunk.segment s ∧ keys g' = keys g ∧ PEER_CAPS g' = PEER_CAPS g.
Proof.
  unfold send_roles. revert s g. induction assigns as [|[target r] l IH]; intros s g; [done|]. cbn [fold_left fst snd]. pose proof (send_role_keeps target r s g) as Hs.
  destruct (send_role_assign target r s g) as [s1 g1]. specialize (IH s1 g1). destruct (fold_left _ l (s1, g1)) as [s2 g2]. destruct Hs as (<- & <- & <- & <-). exact IH.
Qed.

Lemma add_keeps now c e g : PEER_KEYS (keys (add_or_update_node now c e g).2) = PEER_KEYS (keys g).
Proof. unfold add_or_update_node. destruct (update_node _ _ _); [done|]. destruct (node_count e <? 16); [|done]. by destruct (fill_node _ _). Qed.

Lemma assign_keeps_keys now self e g : PEER_KEYS (keys (assign_roles now self e g).1.2) = PEER_KEYS (keys g).
Proof.
  unfold assign_roles. destruct (_ || _); [done|]. destruct (negb _); [done|]. destruct (_ && _); [done|]. destruct (scan_roles _ _). cbn [fst snd]. by destruct (existsb _ _).
Qed.

Lemma election_keeps now self e g : PEER_KEYS (keys (check_election now self e g).1.2) = PEER_KEYS (keys g).
Proof.
  unfold check_election. destruct (is_anchored _); [apply (assign_keeps_keys now self _ (bump_mesh_orb_activity g))|].
  destruct (best_peer _ _) as [bi|]; [|apply (assign_keeps_keys now self _ (bump_mesh_orb_activity g))]. destruct (nodes e !! bi) as [[n|]|]; [|done..]. by destruct (negb _).
Qed.

Lemma apply_role_keeps self target r e g : keys (apply_role self target r e g).2 = keys g.
Proof. unfold apply_role, set_role. destruct (target =? self); [|done]. cbn [snd]. by destruct (negb _). Qed.

Lemma trust_learn sid raw w : trust (learn_caps sid raw w).2 = trust w.
Proof. unfold learn_caps. destruct (strip_prefix _ _); [|done]. destruct (_ <=? _); [|done]. destruct (read_caps _) as [[?|] ?]; done. Qed.

Lemma trust_role payload w : trust (deliver_role payload w) = trust w.
Proof.
  unfold deliver_role. destruct (read_role payload) as [[target r]|]; [|done]. destruct (MESH_ENGINE w) as [e|]; [|done]. destruct (node_id_keeps (sender w)) as (H1 & H2 & _).
  destruct (Chunk.node_id (sender w)) as [self s]. cbn [snd] in H1, H2. pose proof (apply_role_keeps self target r e (glob w)) as Hk. destruct (apply_role _ _ _ _ _) as [e' g]. unfold trust. cbn in *. by rewrite H1, H2, Hk.
Qed.

Lemma trust_heartbeat tick sid ram w : trust (deliver_heartbeat tick sid ram w) = trust w.
Proof.
  unfold deliver_heartbeat. destruct (MESH_ENGINE w) as [e|]; [|done]. pose proof (add_keeps tick (default_caps sid ram) e (glob w)) as H1. destruct (add_or_update_node _ _ _ _) as [e1 g1]. cbn [snd] in H1.
  pose proof (election_keeps tick (Chunk.node_id (sender w)).1 e1 g1) as H2. destruct (check_election _ _ _ _) as [[e2 g2] assigns]. cbn [fst snd] in H2. pose proof (send_roles_keeps assigns (sender w) g2) as H3.
  destruct (send_roles _ _ _) as [s g3]. destruct H3 as (H3 & H4 & H5 & _). unfold trust. cbn in *. by rewrite H3, H4, H5, H2, H1.
Qed.

Lemma trust_deliver now tick pkt raw data w : trust (deliver now tick pkt raw data w) = trust w.
Proof.
  unfold deliver. assert (Hl : trust (if task_type pkt =? 5 then learn_caps (source_id pkt) raw w else (1, w)).2 = trust w) by (destruct (_ =? 5); [apply trust_learn|done]).
  destruct (if task_type pkt =? 5 then _ else _) as [ram w1]. cbn [snd] in Hl. rewrite <-Hl. destruct (_ && _); [apply trust_role|]. destruct (_ && _).
  - destruct (Chunk.chunk_reassemble _ _ _ _) as [[full|] t]; done.
  - destruct (negb _); [done|apply trust_heartbeat].
Qed.

(** * What passes *)

(** [data] is vouched for by the node whose key is [pk]: signed with it; or, for data when
    the nodes share a segment key, tagged with that key; or sealed between the two nodes. *)
Inductive authentic (seg : option bytes) (s : Session) (pk rx data : bytes) : Prop :=
  | by_signature sig : rx = data ++ sig → zlen sig = SIGNATURE_LEN → ed_verify pk data sig = true → authentic seg s pk rx data
  | by_tag key : seg = Some key → is_control rx (read_packet rx) = false → rx = data ++ hmac_sha256 key data → authentic seg s pk rx data
  | by_seal key hdr ct pt : shared_key s pk = Some key → is_control rx (read_packet rx) = false → zlen hdr = PACKET_HEADER_SIZE → rx = hdr ++ ct → data = hdr ++ pt →
      cc_decrypt key (aead_nonce (source_id (read_packet rx)) (clock (read_packet rx))) hdr ct = Some pt → authentic seg s pk rx data.

Lemma parse_read rx pkt : parse rx = Some pkt → pkt = read_packet rx ∧ PACKET_HEADER_SIZE ≤ zlen rx.
Proof. unfold parse. destruct (Z.ltb_spec (zlen rx) PACKET_HEADER_SIZE); [done|]. destruct (negb _); [done|]. intros E. by apply (inj Some) in E as <-. Qed.

Lemma cut_at n (l : bytes) : 0 ≤ n ≤ zlen l → l = slice 0 n l ++ slice n (zlen l - n) l ∧ zlen (slice n (zlen l - n) l) = zlen l - n.
Proof.
  intros Hn. split; [|rewrite zlen_slice; lia]. unfold slice. change (Z.to_nat 0) with 0%nat. rewrite drop_0. unfold zlen in *.
  rewrite (take_ge (drop _ _)) by (rewrite length_drop; lia). symmetry. apply take_drop.
Qed.

Lemma verify_packet_Some rx pk data : verify_packet rx pk = Some data → ∃ sig, rx = data ++ sig ∧ zlen sig = SIGNATURE_LEN ∧ ed_verify pk data sig = true.
Proof.
  unfold verify_packet, verify_signature. destruct (Z.ltb_spec (zlen rx) (PACKET_HEADER_SIZE + SIGNATURE_LEN)) as [|Hl]; [done|]. set (n := zlen rx - SIGNATURE_LEN).
  destruct (ed_verify _ _ _) eqn:Ev; [|done]. intros E. apply (inj Some) in E as <-. destruct (cut_at n rx) as [E Hs]; [unfold n, PACKET_HEADER_SIZE, SIGNATURE_LEN in *; lia|].
  replace (zlen rx - n) with SIGNATURE_LEN in E, Hs by (unfold n; lia). by exists (slice n SIGNATURE_LEN rx).
Qed.
Lemma verify_tag key rx pk data : verify_packet_tiered (Some key) rx pk = Some data → rx = data ++ hmac_sha256 key data.
Proof.
  unfold verify_packet_tiered. destruct (Z.ltb_spec (zlen rx) (PACKET_HEADER_SIZE + HMAC_TAG_LEN)) as [|Hl]; [done|]. set (n := zlen rx - HMAC_TAG_LEN). rewrite ct_eq_spec. case_bool_decide as Et; [|done].
  intros E. apply (inj Some) in E as <-. rewrite <-Et. destruct (cut_at n rx) as [E _]; [unfold n, PACKET_HEADER_SIZE, HMAC_TAG_LEN in *; lia|]. by replace (zlen rx - n) with HMAC_TAG_LEN in E by (unfold n; lia).
Qed.

Lemma open_sealed s rx pk c : caches_ok s c → ∃ c', (aead_open s rx pk c).2 = c' ∧ caches_ok s c' ∧
  ∀ data, (aead_open s rx pk c).1 = Some data → ∃ key hdr ct pt, shared_key s pk = Some key ∧ zlen hdr = PACKET_HEADER_SIZE ∧ rx = hdr ++ ct ∧ data = hdr ++ pt ∧
    cc_decrypt key (aead_nonce (source_id (read_packet rx)) (clock (read_packet rx))) hdr ct = Some pt.
Proof.
  intros Hc. unfold aead_open. destruct (Z.ltb_spec (zlen rx) (PACKET_HEADER_SIZE + AEAD_TAG_LEN)) as [|Hl]; [by exists c|]. destruct (parse rx) as [pkt|] eqn:Ep; [|by exists c]. apply parse_read in Ep as [-> _].
  destruct (negb _); [by exists c|]. destruct (key_for_peer s pk c Hc) as (c' & -> & Hc'). destruct (shared_key s pk) as [key|] eqn:Ek; [|by exists c']. exists c'. cbn [fst snd]. split; [done|]. split; [done|]. intros data E.
  destruct (cc_decrypt key _ _ _) as [pt|] eqn:Ed; [|done]. apply (inj Some) in E as <-. exists key, (slice 0 PACKET_HEADER_SIZE rx), (drop (Z.to_nat PACKET_HEADER_SIZE) rx), pt.
  unfold PACKET_HEADER_SIZE, AEAD_TAG_LEN in *. split; [done|]. split; [apply zlen_slice; lia|]. split; [|done]. unfold slice. change (Z.to_nat 0) with 0%nat. by rewrite drop_0, take_drop.
Qed.

Lemma verify_known_spec rx pk w v w' :
  caches_ok (Chunk.session (sender w)) (caches w) → PACKET_HEADER_SIZE ≤ zlen rx → verify_known rx pk (read_packet rx) w = (v, w') →
  glob w' = glob w ∧ sender w' = sender w ∧ caches_ok (Chunk.session (sender w)) (caches w') ∧
  ∀ data, v = Some data → authentic (Chunk.segment (sender w)) (Chunk.session (sender w)) pk rx data.
Proof.
  intros Hc Hl. unfold verify_known. destruct (is_control rx (read_packet rx)) eqn:Ei.
  { intros [= <- <-]. split_and!; [done..|]. intros data (sig & E1 & E2 & E3)%verify_packet_Some. by apply (by_signature _ _ _ _ _ sig). }
  unfold verify_or_open_tiered. destruct (parse rx) as [pkt|]; [|intros [= <- <-]; by split_and!]. destruct (encrypted (flags pkt)).
  - destruct (open_sealed (Chunk.session (sender w)) rx pk (caches w) Hc) as (c' & E2 & Hc' & Hd). destruct (aead_open _ _ _ _) as [d c]. cbn [fst snd] in *. subst c'. intros [= <- <-]. split_and!; [done..|].
    intros data Hv. destruct (Hd data Hv) as (key & hdr & ct & pt & ? & ? & ? & ? & ?). by apply (by_seal _ _ _ _ _ key hdr ct pt).
  - intros [= <- <-]. split_and!; [done..|]. intros data. unfold verify_packet_tiered. destruct (Chunk.segment (sender w)) as [key|] eqn:Es.
    + intros Ht. apply (by_tag _ _ _ _ _ key); [done..|]. by apply (verify_tag key rx pk).
    + intros (sig & E1 & E2 & E3)%verify_packet_Some. by apply (by_signature _ _ _ _ _ sig).
Qed.

(** One packet, seen by the entry of a bound node: the key stays; the clock only moves to
    that of an accepted packet of this node, which is later and authentic. *)
Lemma gate_entry rx w v w' sid pk last :
  peer_slot sid w = Some (pk, last) → caches_ok (Chunk.session (sender w)) (caches w) → gate rx w = (v, w') →
  sender w' = sender w ∧ caches_ok (Chunk.session (sender w)) (caches w') ∧
  match v with
  | Accept _ data =>
    if source_id (read_packet rx) =? sid then
      peer_slot sid w' = Some (pk, clock (read_packet rx)) ∧ last < clock (read_packet rx) ∧ authentic (Chunk.segment (sender w)) (Chunk.session (sender w)) pk rx data
    else peer_slot sid w' = Some (pk, last)
  | _ => peer_slot sid w' = Some (pk, last)
  end.
Proof.
  intros Hs Hc. unfold gate. destruct (parse rx) as [pkt|] eqn:Ep; [|intros [= <- <-]; by split_and!]. apply parse_read in Ep as [-> Hl]. set (pkt := read_packet rx) in *.
  destruct (_ <? _); [intros [= <- <-]; by split_and!|]. destruct (raw_payload rx pkt) as [raw|]; [|intros [= <- <-]; by split_and!].
  unfold tofu. destruct (peer_pk (source_id pkt) (keys (glob w))) as [pk'|] eqn:Epk.
  - unfold stale, peer_last_clock. destruct (peer_slot (source_id pkt) w) as [[pk0 last0]|] eqn:E0; cbn [fmap option_fmap option_map snd].
    2: { unfold peer_pk in Epk. rewrite E0 in Epk. done. }
    destruct (Z.leb_spec (clock pkt) last0) as [|Hlt]; [intros [= <- <-]; by split_and!|]. rewrite Epk.
    assert (pk0 = pk') as -> by (unfold peer_pk in Epk; rewrite E0 in Epk; cbn in Epk; congruence).
    destruct (verify_known rx pk' pkt w) as [vd w1] eqn:Ev. apply verify_known_spec in Ev as (Hg & Hsn & Hc1 & Hau); [|done..].
    destruct vd as [data|]; [|intros [= <- <-]; cbn; rewrite Hg, Hsn; by split_and!]. unfold accept. intros [<- <-]%pair_eq. cbn [set_keys with_glob glob sender caches keys with_keys]. rewrite Hsn, Hg. split; [done|]. split; [done|].
    rewrite clock_slot. rewrite (Z.eqb_sym sid). destruct (Z.eqb_spec (source_id pkt) sid) as [E|E]; [|done]. rewrite E in E0. rewrite E, E0. rewrite Hs in E0. apply (inj Some), pair_eq in E0 as [-> ->]. cbn [fmap option_fmap option_map fst]. split_and!; [done..|]. by apply Hau.
  - assert (Hne : source_id pkt ≠ sid). { intros E. unfold peer_pk in Epk. rewrite E, Hs in Epk. done. }
    destruct (negb _); [intros [= <- <-]; by split_and!|]. destruct (embedded_pk raw) as [pk0|]; [|intros [= <- <-]; by split_and!]. destruct (verify_packet rx pk0) as [data|]; [|intros [= <- <-]; by split_and!].
    assert (Hb : peer_slot sid (set_keys (peer_bind (source_id pkt) pk0 (keys (glob w))) w) = Some (pk, last)).
    { cbn [set_keys with_glob glob keys with_keys]. rewrite bind_slot by done. destruct (Z.eqb_spec sid (source_id pkt)); [congruence|done]. }
    destruct (stale pkt _); [intros [= <- <-]; by split_and!|]. unfold accept. intros [<- <-]%pair_eq. cbn [set_keys with_glob glob sender caches keys with_keys] in *. split_and!; [done..|].
    destruct (Z.eqb_spec (source_id pkt) sid); [done|]. rewrite clock_slot. destruct (Z.eqb_spec sid (source_id pkt)); [congruence|done].
Qed.

(** The packets a node takes off the wire, with the clock readings at each, up to one that
    panics: the accepted ones with what was accepted of them. *)
Fixpoint receive_all (l : list (Z * Z * bytes)) (w : World) : list (bytes * bytes) * World :=
  match l with
  | [] => ([], w)
  | (now, tick, rx) :: l =>
    match receive now tick rx w with
    | (Panics, w) => ([], w)
    | (Drop, w) => receive_all l w
    | (Accept _ data, w) => let '(acc, w) := receive_all l w in ((rx, data) :: acc, w)
    end
  end.

(** The clocks of one node's packets among them. *)
Definition clocks_of (sid : Z) (acc : list (bytes * bytes)) : list Z :=
  omap (λ a, if source_id (read_packet a.1) =? sid then Some (clock (read_packet a.1)) else None) acc.

Lemma receive_entry now tick rx w v w' sid pk last :
  peer_slot sid w = Some (pk, last) → caches_ok (Chunk.session (sender w)) (caches w) → receive now tick rx w = (v, w') →
  Chunk.session (sender w') = Chunk.session (sender w) ∧ Chunk.segment (sender w') = Chunk.segment (sender w) ∧ caches_ok (Chunk.session (sender w)) (caches w') ∧
  match v with
  | Accept _ data =>
    if source_id (read_packet rx) =? sid then
      peer_slot sid w' = Some (pk, clock (read_packet rx)) ∧ last < clock (read_packet rx) ∧ authentic (Chunk.segment (sender w)) (Chunk.session (sender w)) pk rx data
    else peer_slot sid w' = Some (pk, last)
  | _ => peer_slot sid w' = Some (pk, last)
  end.
Proof.
  intros Hs Hc. unfold receive. destruct (gate rx w) as [g w1] eqn:Eg. destruct (gate_entry rx w g w1 sid pk last Hs Hc Eg) as (H1 & H2 & H3).
  destruct g as [|raw data|]; [intros [<- <-]%pair_eq; by rewrite H1| |intros [<- <-]%pair_eq; by rewrite H1]. intros [<- <-]%pair_eq.
  pose proof (trust_deliver now tick (read_packet rx) raw data w1) as Ht. apply pair_eq in Ht as [Ht T4]. apply pair_eq in Ht as [Ht T3]. apply pair_eq in Ht as [T1 T2]. rewrite T1, T2, T3, T4, H1. done.
Qed.

(** C21: Only fresh packets of the right node pass. Once a node's key is bound, whatever
    packets arrive in whatever order, forged and replayed ones included: the key bound to
    it never changes; every packet accepted in its name is vouched for by that key (or by
    the segment key, or sealed between the two nodes); and the clocks of its accepted
    packets increase strictly, so that none is accepted twice. *)
Theorem only_fresh_authentic_packets l w sid pk last :
  peer_slot sid w = Some (pk, last) → caches_ok (Chunk.session (sender w)) (caches w) →
  let '(acc, w') := receive_all l w in
  peer_slot sid w' = Some (pk, List.last (clocks_of sid acc) last) ∧
  StronglySorted Z.lt (last :: clocks_of sid acc) ∧
  ∀ rx data, (rx, data) ∈ acc → source_id (read_packet rx) = sid → authentic (Chunk.segment (sender w)) (Chunk.session (sender w)) pk rx data.
Proof.
  revert w last. induction l as [|[[now tick] rx] l IH]; intros w last Hs Hc; cbn [receive_all].
  { split; [done|]. split; [repeat constructor|]. intros ? ? []%elem_of_nil. }
  destruct (receive now tick rx w) as [v w1] eqn:Er. destruct (receive_entry now tick rx w v w1 sid pk last Hs Hc Er) as (H1 & H2 & H3 & H4).
  destruct v as [|raw data|]; [|clear Er|split; [done|]; split; [repeat constructor|]; intros ? ? []%elem_of_nil].
  { specialize (IH w1 last H4). rewrite H1, H2 in IH. by apply IH. }
  destruct (Z.eqb_spec (source_id (read_packet rx)) sid) as [E|E].
  - destruct H4 as (H4 & Hlt & Hau). specialize (IH w1 _ H4). rewrite H1, H2 in IH. specialize (IH H3). destruct (receive_all l w1) as [acc w2]. destruct IH as (I1 & I2 & I3).
    unfold clocks_of in *. cbn [omap list_omap fst]. rewrite E, Z.eqb_refl. cbn. split; [|split].
    + rewrite I1. f_equal. f_equal. destruct (omap _ acc) as [|c cs]; [done|]. clear. revert c. induction cs; intros c; [done|]. cbn in *. done.
    + constructor; [done|]. constructor; [done|]. apply StronglySorted_inv in I2 as [_ I2]. eapply Forall_impl; [exact I2|]. intros c Hc'. exact (Z.lt_trans _ _ _ Hlt Hc').
    + intros rx' data' [[= -> ->]|Hin]%elem_of_cons Hsid; [done|by apply I3].
  - specialize (IH w1 _ H4). rewrite H1, H2 in IH. specialize (IH H3). destruct (receive_all l w1) as [acc w2]. destruct IH as (I1 & I2 & I3).
    unfold clocks_of in *. cbn [omap list_omap fst]. destruct (Z.eqb_spec (source_id (read_packet rx)) sid); [done|]. split; [done|]. split; [done|]. intros rx' data' [[= -> ->]|Hin]%elem_of_cons Hsid; [done|by apply I3].
Qed.

(** * Packets that stop the node *)

(** A heartbeat marked as encrypted is let through with a 16-byte tag and then cut as if it
    had a 64-byte signature: from 53 to 100 bytes it panics, whoever sent it. *)
Lemma gate_panics rx w :
  (gate rx w).1 = Panics ↔ ∃ pkt, parse rx = Some pkt ∧ task_type pkt = 5 ∧ encrypted (flags pkt) = true ∧ 53 ≤ zlen rx ≤ 100.
Proof.
  unfold gate. destruct (parse rx) as [pkt|]; [|split; [done|by intros (? & ? & _)]].
  assert (Hr : raw_payload rx pkt = None ↔ task_type pkt = 5 ∧ zlen rx ≤ 100).
  { unfold raw_payload, PACKET_HEADER_SIZE, SIGNATURE_LEN. destruct (Z.eqb_spec (task_type pkt) 5); [|split; [done|lia]]. destruct (Z.leb_spec 37 (zlen rx - 64)); split; (done || lia). }
  destruct (Z.ltb_spec (zlen rx) (PACKET_HEADER_SIZE + min_auth rx pkt w)) as [Hl|Hl]; cbn [fst].
  - split; [done|]. intros (? & [= <-] & H5 & He & Hlen). unfold min_auth, PACKET_HEADER_SIZE, AEAD_TAG_LEN in Hl. rewrite He in Hl. lia.
  - destruct (raw_payload rx pkt) as [raw|].
    + split; [|intros (? & [= <-] & H5 & He & Hlen); exfalso; assert (Some raw = None) by (apply Hr; lia); done]. intros Hp. exfalso. revert Hp. unfold tofu.
      destruct (peer_pk (source_id pkt) (keys (glob w))) as [pk|] eqn:Epk.
      * destruct (stale pkt w); [done|]. rewrite Epk. destruct (verify_known rx pk pkt w) as [[data|] w1]; done.
      * destruct (negb _); [done|]. destruct (embedded_pk raw); [|done]. destruct (verify_packet rx _); [|done]. by destruct (stale pkt _).
    + split; [|done]. intros _. exists pkt. destruct (proj1 Hr eq_refl) as [H5 Hlen]. unfold min_auth, is_control in Hl. rewrite H5 in Hl. cbn [Z.eqb Pos.eqb orb] in Hl. unfold PACKET_HEADER_SIZE, SIGNATURE_LEN, AEAD_TAG_LEN in Hl.
      destruct (encrypted (flags pkt)); split_and!; (done || lia).
Qed.

(** The heartbeat of a node the full table has no room for is accepted without being
    bound, and accepted again as often as it is replayed. *)
Lemma unbound_heartbeat_replays rx w raw data w' :
  gate rx w = (Accept raw data, w') → peer_pk (source_id (read_packet rx)) (keys (glob w')) = None → gate rx w' = (Accept raw data, w').
Proof.
  intros Eg Hn. cut (w' = w); [by intros ->|]. revert Eg Hn. unfold gate. destruct (parse rx) as [pkt|] eqn:Ep; [|done]. apply parse_read in Ep as [-> _]. set (pkt := read_packet rx).
  destruct (_ <? _); [done|]. destruct (raw_payload rx pkt) as [raw'|]; [|done]. unfold tofu. destruct (peer_pk (source_id pkt) (keys (glob w))) as [pk|] eqn:Epk.
  - destruct (stale pkt w); [done|]. rewrite Epk. destruct (verify_known rx pk pkt w) as [[d|] w1] eqn:Ev; [|done].
    assert (Hg : glob w1 = glob w). { unfold verify_known in Ev. destruct (is_control _ _); [by injection Ev as _ <-|]. destruct (verify_or_open_tiered _ _ _ _ _). by injection Ev as _ <-. }
    unfold accept. intros [_ <-]%pair_eq. unfold peer_pk in *. cbn [set_keys with_glob glob keys with_keys]. rewrite Hg, clock_slot, Z.eqb_refl. by destruct (peer_slot (source_id pkt) w).
  - destruct (negb _); [done|]. destruct (embedded_pk raw') as [pk|]; [|done]. destruct (verify_packet rx pk) as [d|]; [|done]. destruct (stale pkt _); [done|]. unfold accept. intros [_ <-]%pair_eq.
    unfold peer_pk. cbn [set_keys with_glob glob keys with_keys]. rewrite clock_slot, Z.eqb_refl, bind_slot, Z.eqb_refl by done. case_bool_decide as Hf; [intros _|done]. apply fmap_None in Epk.
    assert (Ef : slot_fill (source_id pkt) (pk, 0) (PEER_KEYS (keys (glob w))) = None) by (by apply slot_fill_None).
    assert (Ea : ∀ f, slot_alter f (source_id pkt) (PEER_KEYS (keys (glob w))) = None) by (intros f; by apply slot_alter_None).
    unfold peer_bind. rewrite Ea, Ef. unfold peer_update_clock. rewrite Ea. by destruct w as [e [[] ? ? ? ? ?]].
Qed.
End Gate.

(** * A concrete node *)

#[local] Existing Instances toy_ed toy_chacha toy_laws.

(** Node 3, which has bound the key of node 2 and accepted clock 4 from it. *)
Definition toy_net (last : Byte.byte) : Net :=
  mkNet None (Some (mkNic [] [])) None (mkConfig [Byte.x0a; Byte.x00; Byte.x03; last] [Byte.x52; Byte.x54; Byte.x00; Byte.x12; Byte.x34; last]) 0 0.
Definition toy_sender (last : Byte.byte) (clk : Z) : Chunk.Sender := Chunk.mkSender (toy_net last) (toy_session last) None clk 0 1.
Definition toy_keys : Keys := mkKeys (Some (2, (replicate 32 Byte.x02, 4)) :: replicate 15 None) 50 false.
Definition toy_world (k : Keys) : World :=
  mkWorld (Some (after_heartbeats (default_caps 3 8) [2])) (with_keys k no_globals) (toy_sender Byte.x03 10) no_caches (mkStats 0 0 0 0) rx0 (replicate 4 None) [] (20, 0) 0 0 1 8.

(** A packet of node 2, the same again, one in its name without its signature, and one too
    short to be any. *)
Definition toy_traffic : list (Z * Z * bytes) :=
  let p := serialize (AiosTaskPacket_new 5 2 0xFF Sync 1 0 0 PacketFlags_new) in
  [(100, 100, p ++ toy_tag (replicate 32 Byte.x02) p); (100, 101, p ++ toy_tag (replicate 32 Byte.x02) p); (100, 102, p ++ replicate 64 Byte.x00); (100, 103, [Byte.x41])].

Lemma only_fresh_authentic_packets_witness :
  let '(acc, w') := receive_all toy_traffic (toy_world toy_keys) in
  peer_slot 2 w' = Some (replicate 32 Byte.x02, List.last (clocks_of 2 acc) 4) ∧ StronglySorted Z.lt (4 :: clocks_of 2 acc).
Proof.
  pose proof (only_fresh_authentic_packets toy_traffic (toy_world toy_keys) 2 (replicate 32 Byte.x02) 4 eq_refl (no_caches_ok _)) as Hw. destruct (receive_all toy_traffic (toy_world toy_keys)) as [acc w']. destruct Hw as (H1 & H2 & _). split; [exact H1|exact H2].
Defined.

End RxThm.
