(* ===== verification/MeshRxRun.v ===== *)
(** Two nodes of the mesh: what one announces, the other takes in; and the tick returns. *)

From S2P Require Import Prelude MeshWire MeshPeers MeshFrag MeshAuth MeshChunk MeshEngine MeshFragThm MeshFragRun MeshRx MeshRxThm.
Import Wire Peers.

Module RxRun.
Import Auth Engine FragRun Rx RxThm.

(** * Numbers and roles as text *)

Lemma parse_dec z : 0 ≤ z < 2 ^ 8 → parse_u8 (dec_u8 z) = Some z.
Proof.
  intros Hz. assert (Hall : forallb (λ z, match parse_u8 (dec_u8 z) with Some y => y =? z | None => false end) (seqZ 0 256) = true) by (vm_compute; reflexivity).
  rewrite forallb_forall in Hall. specialize (Hall z). rewrite <-list_elem_of_In, elem_of_seqZ in Hall. specialize (Hall ltac:(lia)). destruct (parse_u8 (dec_u8 z)) as [y|]; [|done]. by apply Z.eqb_eq in Hall as ->.
Qed.

Lemma split_dec z rest : 0 ≤ z < 2 ^ 8 → split_nul (dec_u8 z ++ Byte.x00 :: rest) = (dec_u8 z, Some rest).
Proof.
  assert (Hd : ∀ d r, 0 ≤ d < 10 → split_nul (dec_digit d :: r) = let '(p, q) := split_nul r in (dec_digit d :: p, q)).
  { intros d r Hd. cbn [split_nul]. unfold dec_digit at 1. rewrite unsigned_of_Z by lia. by destruct (Z.eqb_spec (48 + d) 0); [lia|]. }
  intros Hz. unfold dec_u8. pose proof (Z.mod_pos_bound z 10 ltac:(lia)). pose proof (Z.mod_pos_bound (z / 10) 10 ltac:(lia)).
  assert (0 ≤ z / 100 < 10) by (split; [apply Z.div_pos; lia|apply Z.div_lt_upper_bound; lia]).
  destruct (Z.ltb_spec z 10); [cbn [app]; by rewrite Hd by lia|]. destruct (Z.ltb_spec z 100); cbn [app].
  - assert (0 ≤ z / 10 < 10) by (split; [apply Z.div_pos; lia|apply Z.div_lt_upper_bound; lia]). by rewrite !Hd by lia.
  - by rewrite !Hd by lia.
Qed.

Lemma role_of_role r : role_of_u8 (role_u8 r) = r.
Proof. by destruct r. Qed.

(** A role announcement reads back. *)
Lemma read_role_payload target r : 0 ≤ target < 2 ^ 8 → read_role (role_payload target r) = Some (target, r).
Proof.
  intros Ht. unfold read_role, role_payload. change (drop 5 (ROLE ++ ?l)) with l. cbn [app]. rewrite split_dec by done. rewrite (parse_dec target) by done. cbn [mbind option_bind].
  rewrite (parse_dec (role_u8 r)) by (destruct r; cbn; lia). by destruct r.
Qed.

(** * Sending *)

Lemma broadcast_arrives payload n :
  config_ok (NET_CONFIG n) → has_nic n → payload ≠ [] → zlen payload ≤ UDP_MAX →
  ∃ f n', udp_broadcast_send payload P2P_PORT n = (true, n') ∧ sent n' = sent n ++ [f] ∧ udp_payload P2P_PORT f = Some (payload, mac (NET_CONFIG n)).
Proof.
  intros Hc Hn Hp Hl. destruct (broadcast_sends _ payload P2P_PORT n eq_refl Hc Hn Hp) as (f & n' & Hf & Hs & Ht & _). exists f, n'. split; [done|]. split; [done|].
  apply (frame_arrives (NET_CONFIG n) payload (replicate 6 Byte.xff)); done || (unfold P2P_PORT; lia).
Qed.

Section Run.
Context `{CryptoLaws}.

(** A node that can send: it has an address, a card, a session and clock values left. *)
Record can_send (s : Chunk.Sender) (seed : bytes) : Prop := mkCanSend {
  cs_config : config_ok (NET_CONFIG (Chunk.snet s)); cs_nic : has_nic (Chunk.snet s); cs_key : SESSION_SK (Chunk.session s) = Some seed;
  cs_id : 0 ≤ Chunk.LOCAL_NODE_ID s < 2 ^ 8; cs_clock : 0 ≤ Chunk.lclock s < U64_MAX }.

Lemma byte_at_range l i : 0 ≤ byte_at l i < 2 ^ 8.
Proof. unfold byte_at. destruct (l !! _) as [b|]; [apply byte.unsigned_range|lia]. Qed.

Lemma node_id_range s : 0 ≤ Chunk.LOCAL_NODE_ID s < 2 ^ 8 → 0 ≤ (Chunk.node_id s).1 < 2 ^ 8.
Proof. intros Hl. unfold Chunk.node_id. destruct (negb (_ =? 0)); [|done]. cbn [fst]. destruct (negb (_ =? 0)); apply byte_at_range. Qed.

Lemma next_clock s : 0 ≤ Chunk.lclock s < U64_MAX → (Chunk.next_data_clock s).1 = Chunk.lclock s + 1.
Proof. intros Hc. unfold Chunk.next_data_clock, u64_add, U64_MAX in *. cbn [fst]. apply Z.mod_small. lia. Qed.

Lemma packet_new_ok clk nid t : 0 ≤ clk < 2 ^ 64 → 0 ≤ nid < 2 ^ 8 → packet_ok (AiosTaskPacket_new clk nid 0xFF t 1 0 0 PacketFlags_new).
Proof. intros. split; cbn; split_and?; first [done | lia | destruct t; cbn; lia]. Qed.

Lemma heartbeat_ok clk nid : 0 ≤ clk < 2 ^ 64 → 0 ≤ nid < 2 ^ 8 → packet_ok (make_heartbeat nid clk).
Proof. intros. split; cbn; split_and?; first [done | lia]. Qed.

Lemma header_cut p rest : packet_ok p → slice PACKET_HEADER_SIZE (zlen rest) (serialize p ++ rest) = rest ∧ drop (Z.to_nat PACKET_HEADER_SIZE) (serialize p ++ rest) = rest.
Proof.
  intros Hp. pose proof (zlen_serialize p (proj2 (po_reserved _ Hp))) as Hz. split; [rewrite slice_app_r by lia; rewrite Hz, Z.sub_diag; apply slice_full|]. apply drop_app_length'. unfold zlen in Hz. lia.
Qed.

Lemma starts_with_app p l : starts_with p (p ++ l) = true.
Proof. unfold starts_with. rewrite take_app_length. by apply bool_decide_true. Qed.

Lemma zlen_dec z : 1 ≤ zlen (dec_u8 z) ≤ 3.
Proof. unfold dec_u8, zlen. destruct (z <? 10); [cbn [length]; lia|]. destruct (z <? 100); cbn [length]; lia. Qed.

Lemma zlen_role_payload target r : 8 ≤ zlen (role_payload target r) ≤ 12.
Proof. unfold role_payload. pose proof (zlen_dec target). pose proof (zlen_dec (role_u8 r)). rewrite !zlen_app. change (zlen ROLE) with 5. change (zlen [Byte.x00]) with 1. lia. Qed.

(** A signed packet on the wire. *)
Abbreviation signed p body seed := (serialize p ++ body ++ ed_sign seed (serialize p ++ body)).

Lemma signed_facts p body seed :
  packet_ok p →
  let rx := signed p body seed in
  parse rx = Some p ∧ zlen rx = PACKET_HEADER_SIZE + zlen body + SIGNATURE_LEN ∧ raw_payload rx p = Some (if task_type p =? 5 then body else []) ∧
  verify_packet rx (pk_of_seed seed) = Some (serialize p ++ body).
Proof.
  intros Hp rx. pose proof (zlen_serialize p (proj2 (po_reserved _ Hp))) as Hz. pose proof (zlen_nonneg body) as Hb. set (sig := ed_sign seed _) in rx. assert (Hsig : zlen sig = SIGNATURE_LEN) by apply sign_len.
  assert (Hl : zlen rx = PACKET_HEADER_SIZE + zlen body + SIGNATURE_LEN) by (unfold rx; rewrite !zlen_app; lia). split; [by apply parse_serialize|]. split; [done|]. split.
  - unfold raw_payload. destruct (task_type p =? 5); [|done]. destruct (Z.leb_spec PACKET_HEADER_SIZE (zlen rx - SIGNATURE_LEN)) as [_|]; [|lia]. f_equal. replace (zlen rx - SIGNATURE_LEN - PACKET_HEADER_SIZE) with (zlen body) by lia.
    unfold rx. rewrite slice_app_r by lia. rewrite Hz, Z.sub_diag. by apply slice_app_exact.
  - unfold rx. rewrite app_assoc. rewrite verify_packet_signed; [|rewrite zlen_app; lia|done]. unfold sig. by rewrite verify_sign.
Qed.

Lemma signed_control p body seed : packet_ok p → (task_type p = 5 ∨ starts_with ROLE body = true) → is_control (signed p body seed) p = true.
Proof.
  intros Hp Hc. destruct (signed_facts p body seed Hp) as (_ & Hl & _). pose proof (zlen_serialize p (proj2 (po_reserved _ Hp))) as Hz. unfold is_control. destruct Hc as [-> |Hr]; [done|]. apply orb_true_iff. right.
  unfold starts_with in Hr. apply bool_decide_eq_true in Hr. assert (Hb5 : (5 ≤ length body)%nat) by (apply (f_equal length) in Hr; rewrite length_take in Hr; change (length ROLE) with 5%nat in Hr; lia).
  apply andb_true_iff. split; [apply Z.leb_le; unfold zlen, SIGNATURE_LEN in *; lia|]. apply bool_decide_true. rewrite slice_app_r by lia. rewrite Hz, Z.sub_diag. unfold slice. change (Z.to_nat 0) with 0%nat. rewrite drop_0. change (Z.to_nat 5) with 5%nat. by rewrite take_app_le.
Qed.

(** ... of a known node, on the control path. *)
Lemma gate_control p body seed w last :
  packet_ok p → encrypted (flags p) = false → (task_type p = 5 ∨ starts_with ROLE body = true) → peer_slot (source_id p) w = Some (pk_of_seed seed, last) →
  gate (signed p body seed) w = if clock p <=? last then (Drop, drop_replay w) else accept (if task_type p =? 5 then body else []) (serialize p ++ body) p w.
Proof.
  intros Hp He Hc Hs. destruct (signed_facts p body seed Hp) as (Hparse & Hl & Hraw & Hv). pose proof (signed_control p body seed Hp Hc) as Hctl. pose proof (zlen_nonneg body).
  unfold gate. rewrite Hparse. unfold min_auth. rewrite He, Hctl. cbn [orb]. destruct (Z.ltb_spec (zlen (signed p body seed)) (PACKET_HEADER_SIZE + SIGNATURE_LEN)) as [|_]; [lia|]. rewrite Hraw.
  unfold tofu, peer_pk. rewrite Hs. cbn [fmap option_fmap option_map fst]. unfold stale, peer_last_clock. rewrite Hs. cbn [fmap option_fmap option_map snd]. destruct (clock p <=? last); [done|].
  unfold verify_known. rewrite Hctl. cbn [fst]. by rewrite Hv.
Qed.

(** ... of a new node that carries its key: bound, if a slot is free. *)
Lemma gate_new p body seed w :
  packet_ok p → encrypted (flags p) = false → task_type p = 5 → embedded_pk body = Some (pk_of_seed seed) → 0 < clock p →
  peer_pk (source_id p) (keys (glob w)) = None →
  gate (signed p body seed) w = accept body (serialize p ++ body) p (set_keys (peer_bind (source_id p) (pk_of_seed seed) (keys (glob w))) w).
Proof.
  intros Hp He H5 Hpk Hclk Hs. destruct (signed_facts p body seed Hp) as (Hparse & Hl & Hraw & Hv). pose proof (signed_control p body seed Hp (or_introl H5)) as Hctl. pose proof (zlen_nonneg body).
  unfold gate. rewrite Hparse. unfold min_auth. rewrite He, Hctl. cbn [orb]. destruct (Z.ltb_spec (zlen (signed p body seed)) (PACKET_HEADER_SIZE + SIGNATURE_LEN)) as [|_]; [lia|]. rewrite Hraw, H5. cbn [Z.eqb Pos.eqb].
  unfold tofu. rewrite Hs, H5. cbn [Z.eqb Pos.eqb negb]. rewrite Hpk, Hv. unfold stale, peer_last_clock. cbn [set_keys with_glob glob keys with_keys]. rewrite bind_slot, Z.eqb_refl by done.
  case_bool_decide; cbn [fmap option_fmap option_map snd]; [done|]. by destruct (Z.leb_spec (clock p) 0); [lia|].
Qed.

(** * Roles *)

Lemma apply_role_spec self target r e g :
  let e' := (apply_role self target r e g).1 in
  (target = self → local_role e' = r ∧ is_master e' = bool_decide (r = Master)) ∧
  ∀ n, Some n ∈ nodes e → node_nid n = target → ∃ n', Some n' ∈ nodes e' ∧ node_nid n' = target ∧ role n' = r.
Proof.
  unfold apply_role. set (go := fix go (ns : list (option MeshNode)) := match ns with [] => [] | _ => _ end). set (e1 := with_nodes _ e).
  assert (Hgo : ∀ ns n, Some n ∈ ns → node_nid n = target → ∃ n', Some n' ∈ go ns ∧ node_nid n' = target ∧ role n' = r).
  { induction ns as [|[m|] ns IH]; intros n Hin Hn; [by apply elem_of_nil in Hin| |]; cbn [go].
    - destruct (Z.eqb_spec (node_nid m) target) as [Hm|Hm]; [eexists; split; [by apply elem_of_cons; left|done]|]. apply elem_of_cons in Hin as [[= ->]|Hin]; [done|].
      destruct (IH n Hin Hn) as (n' & ? & ? & ?). exists n'. split; [by apply elem_of_cons; right|done].
    - apply elem_of_cons in Hin as [?|Hin]; [done|]. destruct (IH n Hin Hn) as (n' & ? & ? & ?). exists n'. split; [by apply elem_of_cons; right|done]. }
  destruct (Z.eqb_spec target self) as [->|Hne]; cbn [fst set_role]; (split; [intros Ht|intros n Hn1 Hn2; exact (Hgo _ n Hn1 Hn2)]); [|done].
  unfold local_role. cbn [local_role_u8 is_master]. rewrite role_of_role. split; [done|]. by destruct r.
Qed.

(** C23: A role the master announces is taken. The frame that [send_role_assign] broadcasts
    carries a packet that a node which has bound the sender's key, and has accepted no
    later clock from it, accepts; it then marks the target with the role, and takes the
    role itself when it is the target. *)
Theorem announced_role_is_taken s seed target r g w e last now tick :
  can_send s seed → 0 ≤ target < 2 ^ 8 →
  let sid := (Chunk.node_id s).1 in let self := (Chunk.node_id (sender w)).1 in
  peer_slot sid w = Some (pk_of_seed seed, last) → last ≤ Chunk.lclock s → MESH_ENGINE w = Some e →
  ∃ f wire, sent (Chunk.snet (send_role_assign target r s g).1) = sent (Chunk.snet s) ++ [f] ∧ udp_payload P2P_PORT f = Some (wire, mac (NET_CONFIG (Chunk.snet s))) ∧
    let w' := (receive now tick wire w).2 in
    peer_slot sid w' = Some (pk_of_seed seed, Chunk.lclock s + 1) ∧
    ∃ e', MESH_ENGINE w' = Some e' ∧ (target = self → local_role e' = r ∧ is_master e' = bool_decide (r = Master)) ∧
      ∀ n, Some n ∈ nodes e → node_nid n = target → ∃ n', Some n' ∈ nodes e' ∧ node_nid n' = target ∧ role n' = r.
Proof.
  intros [Hcfg Hnic Hkey Hid Hclk] Ht sid self Hs Hlast He. pose proof (next_clock s Hclk) as Hnext. unfold send_role_assign. destruct (Chunk.next_data_clock s) as [clk s1] eqn:E1. cbn [fst] in Hnext. subst clk.
  assert (Hs1 : s1 = Chunk.mkSender (Chunk.snet s) (Chunk.session s) (Chunk.segment s) (Chunk.lclock s1) (Chunk.LOCAL_NODE_ID s) (Chunk.CHUNK_MSG_ID s)) by (unfold Chunk.next_data_clock in E1; by injection E1 as _ <-).
  assert (Hn1 : (Chunk.node_id s1).1 = sid) by (rewrite Hs1; unfold sid, Chunk.node_id; cbn; by destruct (negb _)).
  destruct (node_id_keeps s1) as (K1 & K2 & K3 & K4). rewrite Hs1 in K1 at 2. rewrite Hs1 in K3 at 2. destruct (Chunk.node_id s1) as [nid s2]. cbn [fst snd Chunk.session Chunk.snet] in *. subst nid.
  pose proof (node_id_range s Hid) as Hsid. fold sid in Hsid. set (p := AiosTaskPacket_new _ sid _ _ _ _ _ _). assert (Hp : packet_ok p) by (apply packet_new_ok; unfold U64_MAX in *; lia).
  unfold sign_packet_authentic, sign_session. rewrite K1, Hkey. cbn [fmap option_fmap option_map]. set (body := role_payload target r). set (wire := (serialize p ++ body) ++ _).
  assert (Hw : zlen wire ≤ UDP_MAX). { unfold wire. rewrite !zlen_app, (zlen_serialize p), sign_len by apply (po_reserved _ Hp). pose proof (zlen_role_payload target r). unfold body, PACKET_HEADER_SIZE, SIGNATURE_LEN, UDP_MAX. lia. }
  assert (Hw0 : wire ≠ []) by done. destruct (broadcast_arrives wire (Chunk.snet s2)) as (f & n' & Hsend & Hsent & Hpay); [by rewrite K3|by rewrite K3|done|done|]. change 42069 with P2P_PORT. rewrite Hsend. cbn [fst]. exists f, wire.
  rewrite K3 in Hsent, Hpay. split; [exact Hsent|]. split; [exact Hpay|]. unfold receive, wire. rewrite <-app_assoc. rewrite (gate_control p body seed w last Hp eq_refl (or_intror eq_refl) Hs).
  destruct (Z.leb_spec (clock p) last) as [Hle|_]; [cbn [p AiosTaskPacket_new clock] in Hle; lia|]. unfold accept. cbn [snd]. rewrite read_serialize by done. set (w1 := set_keys _ w).
  assert (Hd : deliver now tick p (if task_type p =? 5 then body else []) (serialize p ++ body) w1 = deliver_role body w1).
  { unfold deliver. change (task_type p) with 3. cbn [Z.eqb Pos.eqb andb]. rewrite zlen_app, (zlen_serialize p) by apply (po_reserved _ Hp). pose proof (zlen_role_payload target r). destruct (Z.ltb_spec PACKET_HEADER_SIZE (PACKET_HEADER_SIZE + zlen body)) as [_|]; [|unfold body in *; lia].
    rewrite (proj2 (header_cut p body Hp)). done. }
  rewrite Hd. split.
  - pose proof (trust_role body w1) as Htr. apply pair_eq in Htr as [Htr _]. apply pair_eq in Htr as [Htr _]. apply pair_eq in Htr as [Htr _]. rewrite Htr. unfold w1. cbn [set_keys with_glob glob keys with_keys]. rewrite clock_slot. change (source_id p) with sid. rewrite Z.eqb_refl, Hs. done.
  - unfold deliver_role, body. rewrite read_role_payload by done. change (MESH_ENGINE w1) with (MESH_ENGINE w). rewrite He. change (sender w1) with (sender w). fold self. destruct (Chunk.node_id (sender w)) as [self' s3] eqn:E3.
    assert (Es : self = self') by (unfold self; first [done | by rewrite E3]). clear E3. pose proof (apply_role_spec self' target r e (glob w1)) as Ha. rewrite <-Es in *. destruct (apply_role _ _ _ _ _) as [e' g']. exists e'. split; [done|]. exact Ha.
Qed.

(** * Heartbeats *)

Lemma slice_skip (a b : bytes) n : slice (zlen a) n (a ++ b) = slice 0 n b.
Proof. rewrite slice_app_r by lia. by rewrite Z.sub_diag. Qed.

(** What a heartbeat says is read. *)
Lemma read_caps_heartbeat pk caps ram :
  zlen pk = PUBLIC_KEY_LEN → 0 ≤ caps < 2 ^ 8 → 0 ≤ ram < 2 ^ 8 →
  read_caps (pk ++ (if negb (caps =? 0) then CAP ++ [byte.of_Z caps] else []) ++ RAM ++ [byte.of_Z ram]) = (if caps =? 0 then None else Some caps, Z.max ram 1).
Proof.
  intros Hpk Hc Hr. set (rest := pk ++ _). unfold read_caps. destruct (Z.eqb_spec caps 0) as [->|Hne]; cbn [negb] in rest; cbn [app] in rest.
  - assert (Hz : zlen rest = 37) by (unfold rest; rewrite zlen_app, Hpk; done). assert (Hs : slice PUBLIC_KEY_LEN 4 rest = RAM) by (unfold rest; rewrite <-Hpk, slice_skip; done).
    cbv zeta. rewrite Hz. change (PUBLIC_KEY_LEN + 5 <=? 37) with true. cbn [andb]. rewrite Hs, (bool_decide_false (RAM = CAP)) by done. rewrite Hs. change (PUBLIC_KEY_LEN + 5 <=? 37) with true. cbn [andb]. rewrite bool_decide_true by done. f_equal. f_equal.
    unfold rest. rewrite byte_at_app by (rewrite Hpk; unfold PUBLIC_KEY_LEN; lia). rewrite Hpk. change (byte_at (RAM ++ [byte.of_Z ram]) (PUBLIC_KEY_LEN + 4 - PUBLIC_KEY_LEN)) with (byte.unsigned (byte.of_Z ram)). by apply unsigned_of_Z.
  - assert (Hz : zlen rest = 42) by (unfold rest; rewrite zlen_app, Hpk; done). assert (Hs : slice PUBLIC_KEY_LEN 4 rest = CAP) by (unfold rest; rewrite <-Hpk, slice_skip; done).
    assert (Hb : ∀ i, 0 ≤ i → byte_at rest (PUBLIC_KEY_LEN + i) = byte_at (CAP ++ [byte.of_Z caps] ++ RAM ++ [byte.of_Z ram]) i).
    { intros i Hi. unfold rest. rewrite byte_at_app by (rewrite Hpk; lia). f_equal. lia. }
    assert (Hs2 : slice (PUBLIC_KEY_LEN + 5) 4 rest = RAM) by (unfold rest; rewrite slice_app_r by (rewrite Hpk; lia); rewrite Hpk; done).
    cbv zeta. rewrite Hz. change (PUBLIC_KEY_LEN + 5 <=? 42) with true. cbn [andb]. rewrite Hs, bool_decide_true by done. change (PUBLIC_KEY_LEN + 5 + 5 <=? 42) with true. cbn [andb]. rewrite Hs2, bool_decide_true by done.
    rewrite <-Z.add_assoc, !Hb by lia. f_equal; f_equal; by apply unsigned_of_Z.
Qed.

Lemma election_nodes now self e g n :
  Some n ∈ nodes e → ∃ n', Some n' ∈ nodes (check_election now self e g).1.1 ∧ capabilities n' = capabilities n ∧ online n' = online n.
Proof.
  assert (Ha : ∀ e g, Some n ∈ nodes e → ∃ n', Some n' ∈ nodes (assign_roles now self e g).1.1 ∧ capabilities n' = capabilities n ∧ online n' = online n).
  { clear e g. intros e g Hn. unfold assign_roles. destruct (_ || _); [by exists n|]. destruct (negb _); [by exists n|]. destruct (_ && _); [by exists n|]. destruct (scan_roles _ _) as [m c]. cbn [fst with_nodes nodes].
    apply list_elem_of_lookup_1 in Hn as [i Hi]. destruct (online n) eqn:Ho; [exists (mkNode (capabilities n) (role_for m c i) (last_heartbeat n) true)|exists n]; (split; [|done]); apply (list_elem_of_lookup_2 _ i); rewrite list_lookup_imap, Hi; cbn; by rewrite Ho. }
  intros Hn. unfold check_election. destruct (is_anchored _); [by apply Ha|]. destruct (best_peer _ _) as [bi|]; [|by apply Ha]. destruct (nodes e !! bi) as [[b|]|] eqn:Eb; [|by exists n..]. destruct (negb _); [|by exists n].
  cbn [fst become_worker nodes with_nodes]. apply list_elem_of_lookup_1 in Hn as [i Hi]. destruct (decide (i = bi)) as [->|Hne].
  - rewrite Hi in Eb. injection Eb as ->. eexists. split; [apply (list_elem_of_lookup_2 _ bi); apply list_lookup_insert_eq; by apply lookup_lt_Some in Hi|done].
  - exists n. split; [|done]. apply (list_elem_of_lookup_2 _ i). by rewrite list_lookup_insert_ne.
Qed.

Lemma fill_node_in n ns : None ∈ ns → ∃ ns', fill_node n ns = Some ns' ∧ Some n ∈ ns'.
Proof.
  induction ns as [|[m|] ns IH]; intros Hin; [by apply elem_of_nil in Hin| |]; cbn [fill_node].
  - apply elem_of_cons in Hin as [?|Hin]; [done|]. destruct (IH Hin) as (ns' & -> & Hn). eexists. split; [done|]. by apply elem_of_cons; right.
  - eexists. split; [done|]. by apply elem_of_cons; left.
Qed.

Lemma update_node_in now c ns ns' : update_node now c ns = Some ns' → ∃ n, Some n ∈ ns' ∧ capabilities n = c ∧ online n = true.
Proof.
  revert ns'. induction ns as [|[m|] ns IH]; intros ns'; cbn [update_node]; [done| |].
  - case_bool_decide; [intros [= <-]; eexists; split; [by apply elem_of_cons; left|done]|]. destruct (update_node now c ns) as [l|]; [|done]. intros [= <-]. destruct (IH l eq_refl) as (n & ? & ?). exists n. split; [by apply elem_of_cons; right|done].
  - destruct (update_node now c ns) as [l|]; [|done]. intros [= <-]. destruct (IH l eq_refl) as (n & ? & ?). exists n. split; [by apply elem_of_cons; right|done].
Qed.

Lemma add_node_in now c e g : node_count e < 16 → None ∈ nodes e → ∃ n, Some n ∈ nodes (add_or_update_node now c e g).1 ∧ capabilities n = c ∧ online n = true.
Proof.
  intros Hc Hf. unfold add_or_update_node. destruct (update_node now c (nodes e)) as [ns|] eqn:E; [by apply update_node_in in E|]. destruct (Z.ltb_spec (node_count e) 16); [|lia].
  destruct (fill_node_in (MeshNode_new now c) (nodes e) Hf) as (ns & -> & Hn). by exists (MeshNode_new now c).
Qed.

Lemma election_caps now self e g : PEER_CAPS (check_election now self e g).1.2 = PEER_CAPS g.
Proof.
  assert (Ha : ∀ e g, PEER_CAPS (assign_roles now self e g).1.2 = PEER_CAPS g).
  { clear. intros e g. unfold assign_roles. destruct (_ || _); [done|]. destruct (negb _); [done|]. destruct (_ && _); [done|]. destruct (scan_roles _ _). cbn [fst snd]. by destruct (existsb _ _). }
  unfold check_election. destruct (is_anchored _); [apply (Ha _ (bump_mesh_orb_activity g))|]. destruct (best_peer _ _) as [bi|]; [|apply (Ha _ (bump_mesh_orb_activity g))]. destruct (nodes e !! bi) as [[n|]|]; [|done..]. by destruct (negb _).
Qed.

(** The engine after the heartbeat of node [sid]. *)
Lemma deliver_heartbeat_spec tick sid ram w e :
  MESH_ENGINE w = Some e → node_count e < 16 → None ∈ nodes e →
  let w' := deliver_heartbeat tick sid ram w in
  PEER_CAPS (glob w') = PEER_CAPS (glob w) ∧ ∃ e' n, MESH_ENGINE w' = Some e' ∧ Some n ∈ nodes e' ∧ capabilities n = default_caps sid ram ∧ online n = true.
Proof.
  intros He Hc Hf. unfold deliver_heartbeat. rewrite He. destruct (add_node_in tick (default_caps sid ram) e (glob w) Hc Hf) as (n & Hn & Hcn & Hon).
  assert (Hg : PEER_CAPS (add_or_update_node tick (default_caps sid ram) e (glob w)).2 = PEER_CAPS (glob w)).
  { unfold add_or_update_node. destruct (update_node _ _ _); [done|]. destruct (_ <? 16); [|done]. by destruct (fill_node _ _). }
  destruct (add_or_update_node _ _ _ _) as [e1 g1]. cbn [fst snd] in *. destruct (election_nodes tick (Chunk.node_id (sender w)).1 e1 g1 n Hn) as (n' & Hn' & Hc' & Ho'). pose proof (election_caps tick (Chunk.node_id (sender w)).1 e1 g1) as Hg2.
  destruct (check_election _ _ _ _) as [[e2 g2] assigns]. cbn [fst snd] in *. pose proof (send_roles_keeps assigns (sender w) g2) as Hr. destruct (send_roles assigns (sender w) g2) as [s g3]. destruct Hr as (_ & _ & _ & Hg3).
  split; [cbn; congruence|]. exists e2, n'. split; [done|]. split; [done|]. split; congruence.
Qed.

Lemma strip_pk l : strip_prefix PK (PK ++ l) = Some l.
Proof. unfold strip_prefix. by rewrite starts_with_app, drop_app_length. Qed.

Abbreviation heartbeat_rest pk caps ram := (pk ++ (if negb (caps =? 0) then CAP ++ [byte.of_Z caps] else []) ++ RAM ++ [byte.of_Z ram]).

Lemma learn_heartbeat sid pk caps ram w :
  zlen pk = PUBLIC_KEY_LEN → 0 ≤ caps < 2 ^ 8 → 1 ≤ ram < 2 ^ 8 →
  ∃ w', learn_caps sid (PK ++ heartbeat_rest pk caps ram) w = (ram, w') ∧ MESH_ENGINE w' = MESH_ENGINE w ∧ trust w' = trust w ∧
    (caps ≠ 0 → PEER_CAPS (glob w') = peer_set_caps sid caps (PEER_CAPS (glob w))).
Proof.
  intros Hpk Hc Hr. unfold learn_caps. rewrite strip_pk. destruct (Z.leb_spec PUBLIC_KEY_LEN (zlen (heartbeat_rest pk caps ram))) as [_|Hl].
  2: { rewrite zlen_app, Hpk in Hl. match type of Hl with _ + zlen ?l < _ => pose proof (zlen_nonneg l) end. lia. }
  rewrite read_caps_heartbeat by (done || lia). replace (Z.max ram 1) with ram by lia. destruct (Z.eqb_spec caps 0) as [->|Hne]; eexists; (split; [reflexivity|]); done.
Qed.

Lemma ram_range ram_mb : 1 ≤ Z.min (ram_gb_of ram_mb) 255 < 2 ^ 8.
Proof. unfold ram_gb_of. lia. Qed.

(** C22: A heartbeat introduces its sender. The frame that [send_heartbeat] broadcasts, when
    the sender has an address, a card and a session key and the rate limit allows it,
    carries a packet that a node accepts to which the sender is unknown and whose tables of
    keys, of capabilities and of nodes all have room: it binds the sender's key with the
    clock of the packet, learns its capabilities, and its engine lists the sender as online
    with the memory it stated. Replayed, the same packet is dropped. With the table of keys
    full it would be accepted without being bound, and again when replayed
    ([unbound_heartbeat_replays]). *)
Theorem heartbeat_introduces ram_mb t wa seed wb e now tick :
  can_send (sender wa) seed → session_public_key (Chunk.session (sender wa)) = Some (pk_of_seed seed) → zlen (pk_of_seed seed) = PUBLIC_KEY_LEN →
  0 ≤ LOCAL_CAPS wa < 2 ^ 8 → (token_bucket_try_consume TOKEN_BUCKET_COST_HEARTBEAT t (TOKEN_BUCKET wa)).1 = true →
  let sid := (Chunk.node_id (sender wa)).1 in
  peer_pk sid (keys (glob wb)) = None → None ∈ PEER_KEYS (keys (glob wb)) → None ∈ PEER_CAPS (glob wb) → MESH_ENGINE wb = Some e → node_count e < 16 → None ∈ nodes e →
  ∃ f wire, sent (Chunk.snet (sender (send_heartbeat ram_mb t wa))) = sent (Chunk.snet (sender wa)) ++ [f] ∧ udp_payload P2P_PORT f = Some (wire, mac (NET_CONFIG (Chunk.snet (sender wa)))) ∧
    let w' := (receive now tick wire wb).2 in
    peer_slot sid w' = Some (pk_of_seed seed, Chunk.lclock (sender wa) + 1) ∧ (LOCAL_CAPS wa ≠ 0 → peer_caps sid (PEER_CAPS (glob w')) = Some (LOCAL_CAPS wa)) ∧
    (∃ e' n, MESH_ENGINE w' = Some e' ∧ Some n ∈ nodes e' ∧ capabilities n = default_caps sid (Z.min (ram_gb_of ram_mb) 255) ∧ online n = true) ∧
    ∀ now' tick', receive now' tick' wire w' = (Drop, drop_replay w').
Proof.
  intros [Hcfg Hnic Hkey Hid Hclk] Hpk Hlen Hcaps Htok sid Hnew Hfree Hcfree He Hcount Hnode. unfold send_heartbeat. destruct (node_id_keeps (sender wa)) as (K1 & K2 & K3 & K4). pose proof (node_id_range (sender wa) Hid) as Hsid. fold sid in Hsid.
  destruct (Chunk.node_id (sender wa)) as [nid s] eqn:Es. cbn [fst snd] in *. destruct (token_bucket_try_consume _ _ _) as [ok bucket]. cbn [fst] in Htok. subst ok. cbn [negb]. pose proof (next_clock s ltac:(by rewrite K4)) as Hnext. rewrite K4 in Hnext.
  destruct (Chunk.next_data_clock s) as [clk s1] eqn:E1. cbn [fst] in Hnext. assert (Hs1 : Chunk.session s1 = Chunk.session s ∧ Chunk.snet s1 = Chunk.snet s) by (unfold Chunk.next_data_clock in E1; by injection E1 as _ <-). destruct Hs1 as [Hs1 Hs2].
  unfold heartbeat_payload. cbn [with_sender sender with_ticks LOCAL_CAPS]. rewrite K1, Hpk. set (ram := Z.min (ram_gb_of ram_mb) 255). set (body := PK ++ _). unfold sign_packet_authentic, sign_session. rewrite Hs1, K1, Hkey. cbn [fmap option_fmap option_map].
  set (p := make_heartbeat nid clk). assert (Hp : packet_ok p) by (apply heartbeat_ok; unfold U64_MAX in *; lia). set (wire := (serialize p ++ body) ++ _).
  pose proof (ram_range ram_mb) as Hram. fold ram in Hram. set (rest := pk_of_seed seed ++ (if negb (LOCAL_CAPS wa =? 0) then _ else _) ++ _) in body.
  assert (Hrest : PUBLIC_KEY_LEN ≤ zlen rest ≤ 42). { unfold rest, PUBLIC_KEY_LEN in *. destruct (negb _); rewrite !zlen_app, Hlen, ?zlen_app; change (zlen CAP) with 4; change (zlen RAM) with 4; change (zlen [?b]) with 1; change (zlen (@nil Byte.byte)) with 0; lia. }
  assert (Hbody : zlen body = 3 + zlen rest) by (unfold body; by rewrite zlen_app).
  assert (Hw : zlen wire ≤ UDP_MAX). { unfold wire. rewrite !zlen_app, (zlen_serialize p), sign_len by apply (po_reserved _ Hp). unfold PACKET_HEADER_SIZE, SIGNATURE_LEN, UDP_MAX. lia. }
  destruct (broadcast_arrives wire (Chunk.snet s1)) as (f & n' & Hsend & Hsent & Hpay); [by rewrite Hs2, K3|by rewrite Hs2, K3|done|done|]. rewrite Hsend. cbn [negb]. exists f, wire. rewrite Hs2, K3 in Hsent, Hpay. split; [exact Hsent|]. split; [exact Hpay|].
  assert (Hemb : embedded_pk body = Some (pk_of_seed seed)). { unfold embedded_pk, body. rewrite strip_pk. destruct (Z.leb_spec PUBLIC_KEY_LEN (zlen rest)); [|lia]. f_equal. unfold rest. by apply slice_app_exact. }
  assert (Hwire : wire = signed p body seed) by (unfold wire; by rewrite app_assoc).
  assert (Hfull : bool_decide (Forall is_Some (PEER_KEYS (keys (glob wb)))) = false). { apply bool_decide_false. intros Hall. rewrite Forall_forall in Hall. destruct (Hall None Hfree). done. }
  assert (Hcfull : bool_decide (Forall is_Some (PEER_CAPS (glob wb))) = false). { apply bool_decide_false. intros Hall. rewrite Forall_forall in Hall. destruct (Hall None Hcfree). done. }
  assert (Hgate : ∀ w, peer_slot nid w = Some (pk_of_seed seed, clk) → ∀ now' tick', receive now' tick' wire w = (Drop, drop_replay w)).
  { intros w Hw' now' tick'. unfold receive. rewrite Hwire, (gate_control p body seed w clk Hp eq_refl (or_introl eq_refl) Hw'). change (clock p) with clk. by rewrite Z.leb_refl. }
  set (w1 := set_keys (peer_update_clock nid clk (peer_bind nid (pk_of_seed seed) (keys (glob wb)))) wb).
  assert (Hslot : peer_slot nid w1 = Some (pk_of_seed seed, clk)). { unfold w1. cbn [set_keys with_glob glob keys with_keys]. by rewrite clock_slot, Z.eqb_refl, bind_slot, Z.eqb_refl, Hfull by done. }
  destruct (learn_heartbeat nid (pk_of_seed seed) (LOCAL_CAPS wa) ram w1 Hlen Hcaps ltac:(lia)) as (w2 & Hlearn & Hw2 & Ht2 & Hc2). fold rest in Hlearn. change (PK ++ rest) with body in Hlearn.
  assert (Hrx : (receive now tick wire wb).2 = deliver_heartbeat tick nid ram w2).
  { unfold receive. rewrite Hwire, (gate_new p body seed wb) by (done || (change (clock p) with clk; lia)). unfold accept. cbn [snd]. rewrite read_serialize by done. unfold deliver. change (task_type p) with 5. cbn [Z.eqb Pos.eqb andb negb].
    change (set_keys _ (set_keys _ wb)) with w1. change (source_id p) with nid. by rewrite Hlearn. }
  rewrite Hrx. destruct (deliver_heartbeat_spec tick nid ram w2 e) as (Hpc & Heng); [by rewrite Hw2|done|done|]. pose proof (trust_heartbeat tick nid ram w2) as Th. rewrite Ht2 in Th.
  assert (Hk : peer_slot nid (deliver_heartbeat tick nid ram w2) = Some (pk_of_seed seed, clk)) by (apply pair_eq in Th as [[[T _]%pair_eq _]%pair_eq _]; by rewrite T).
  change sid with nid. split; [by rewrite Hk, Hnext|]. split; [|split; [exact Heng|by apply Hgate]]. intros Hne. rewrite Hpc, (Hc2 Hne). unfold peer_caps, peer_set_caps. rewrite slot_get_set, Z.eqb_refl.
  change (PEER_CAPS (glob w1)) with (PEER_CAPS (glob wb)). rewrite Hcfull. by destruct (slot_get nid (PEER_CAPS (glob wb))).
Qed.

(** * The tick returns *)

Lemma waiting_send payload port n : Frag.waiting (udp_broadcast_send payload port n).2 = Frag.waiting n.
Proof. unfold udp_broadcast_send. destruct (build_udp_broadcast_frame _ _ _); [|done]. destruct n as [[v|] [e|] [r|] c tx rx]; done. Qed.

Lemma send_role_waiting target r s g : Frag.waiting (Chunk.snet (send_role_assign target r s g).1) = Frag.waiting (Chunk.snet s).
Proof.
  unfold send_role_assign. cbn [Chunk.next_data_clock]. set (s0 := Chunk.mkSender _ _ _ _ _ _). destruct (node_id_keeps s0) as (_ & _ & K & _). destruct (Chunk.node_id s0) as [nid s1]. cbn [snd] in K.
  destruct (sign_packet_authentic _ _) as [m|]; [|cbn [fst]; by rewrite K]. pose proof (waiting_send m 42069 (Chunk.snet s1)) as Hw. destruct (udp_broadcast_send _ _ _) as [ok n]. cbn [fst snd Chunk.with_net Chunk.snet] in *. by rewrite Hw, K.
Qed.

Lemma send_roles_waiting l s g : Frag.waiting (Chunk.snet (send_roles l s g).1) = Frag.waiting (Chunk.snet s).
Proof.
  unfold send_roles. revert s g. induction l as [|[target r] l IH]; intros s g; [done|]. cbn [fold_left fst snd]. pose proof (send_role_waiting target r s g) as Hw. destruct (send_role_assign target r s g) as [s1 g1]. by rewrite IH.
Qed.

Lemma deliver_waiting now tick pkt raw data w : Frag.waiting (Chunk.snet (sender (deliver now tick pkt raw data w))) = Frag.waiting (Chunk.snet (sender w)).
Proof.
  unfold deliver. assert (Hl : sender (if task_type pkt =? 5 then learn_caps (source_id pkt) raw w else (1, w)).2 = sender w).
  { destruct (_ =? 5); [|done]. unfold learn_caps. destruct (strip_prefix _ _); [|done]. destruct (_ <=? _); [|done]. by destruct (read_caps _) as [[?|] ?]. }
  destruct (if task_type pkt =? 5 then _ else _) as [ram w1]. cbn [snd] in Hl. rewrite <-Hl. destruct (_ && _).
  - unfold deliver_role. destruct (read_role _) as [[target r]|]; [|done]. destruct (MESH_ENGINE w1) as [e|]; [|done]. destruct (node_id_keeps (sender w1)) as (_ & _ & K & _). destruct (Chunk.node_id (sender w1)) as [self s]. destruct (apply_role _ _ _ _ _). cbn in *. by rewrite K.
  - destruct (_ && _); [by destruct (Chunk.chunk_reassemble _ _ _ _) as [[full|] t]|]. destruct (negb _); [done|]. unfold deliver_heartbeat. destruct (MESH_ENGINE w1) as [e|]; [|done]. destruct (add_or_update_node _ _ _ _) as [e1 g1].
    destruct (check_election _ _ _ _) as [[e2 g2] l]. pose proof (send_roles_waiting l (sender w1) g2) as Hw. by destruct (send_roles l (sender w1) g2).
Qed.

Lemma gate_sender rx w : sender (gate rx w).2 = sender w.
Proof.
  unfold gate. destruct (parse rx) as [pkt|]; [|done]. destruct (_ <? _); [done|]. destruct (raw_payload rx pkt) as [raw|]; [|done]. assert (Ht : sender (tofu rx raw pkt w).2 = sender w).
  { unfold tofu. destruct (peer_pk _ _); [done|]. destruct (negb _); [done|]. destruct (embedded_pk raw); [|done]. by destruct (verify_packet _ _). }
  destruct (tofu rx raw pkt w) as [[tofu_data|] w1]; [|done]. cbn [snd] in Ht. destruct (stale pkt w1); [done|]. destruct tofu_data; [done|]. destruct (peer_pk _ _) as [pk|]; [|done].
  assert (Hv : sender (verify_known rx pk pkt w1).2 = sender w1) by (unfold verify_known; destruct (is_control _ _); [done|]; by destruct (verify_or_open_tiered _ _ _ _ _)). destruct (verify_known rx pk pkt w1) as [[data|] w2]; cbn in *; congruence.
Qed.

Lemma receive_waiting now tick rx w : Frag.waiting (Chunk.snet (sender (receive now tick rx w).2)) = Frag.waiting (Chunk.snet (sender w)).
Proof.
  unfold receive. pose proof (gate_sender rx w) as Hg. destruct (gate rx w) as [[|raw data|] w1]; cbn [snd] in *; [by rewrite Hg| |by rewrite Hg]. by rewrite deliver_waiting, Hg.
Qed.

Lemma recv_takes ram port now env n f rx n' f' : Frag.recv_fragmented ram port now env n f = Some (Some rx, n', f') → (Frag.waiting n' < Frag.waiting n)%nat.
Proof.
  unfold Frag.recv_fragmented. generalize (Frag.sweep_rx now f) as f0. generalize (S (Frag.waiting n)) as fuel. generalize 0%nat as k. intros k fuel. revert k n. induction fuel as [|fuel IH]; intros k n f0; [done|]. cbn [Frag.recv_rounds].
  destruct (udp_broadcast_recv_with_mac port n) as [[[pkt m]|] n1] eqn:E; [|done]. apply recv_loop_waiting in E as [Hle Hlt]. specialize (Hlt ltac:(done)). destruct (Frag.recv_round _ _ _ _ _ _) as [[|r] f1].
  - intros Hr. apply IH in Hr. lia.
  - intros Hr. injection Hr as -> -> ->. done.
Qed.

(** Whatever the cards deliver and whatever the clocks read, a tick returns: its loop takes
    one frame at least for every packet it handles, and handling packets adds no frames. *)
Lemma p2p_tick_total ram_mb now t env w : is_Some (p2p_tick ram_mb now t env w).
Proof.
  unfold p2p_tick. case_bool_decide; [done|]. destruct (take_force _) as [force_hb w1]. match goal with |- context [receive_loop _ _ _ _ _ ?x] => generalize x end. intros w2. assert (Hf : (Frag.waiting (Chunk.snet (sender w2)) < S (Frag.waiting (Chunk.snet (sender w2))))%nat) by lia.
  revert Hf. generalize (S (Frag.waiting (Chunk.snet (sender w2)))) as fuel. generalize 0%nat as k. intros k fuel. revert k w2. clear. induction fuel as [|fuel IH]; intros k w Hf; [lia|]. cbn [receive_loop].
  destruct (recv_fragmented_total ram_mb P2P_PORT (r_now (env k)) (r_env (env k)) (Chunk.snet (sender w)) (frags w)) as (l & r & n' & f & E & _ & _). rewrite E. cbn [mbind option_bind]. destruct r as [rx|]; [|done]. apply recv_takes in E.
  set (w1 := with_frags f _). pose proof (receive_waiting now (r_tick (env k)) rx w1) as Hw. change (Frag.waiting (Chunk.snet (sender w1))) with (Frag.waiting n') in Hw.
  destruct (receive now (r_tick (env k)) rx w1) as [[|raw data|] w3]; cbn [snd] in Hw; [apply IH; lia|apply IH; lia|done].
Qed.

(** * Probes do not wait *)

(** The loop leaves while the deadline is ahead: a probe whose clock is read before the
    deadline fails at once, whatever has arrived. *)
Lemma probe_gives_up fuel target now deadline env w :
  let '(tick, t, t2) := env 0%nat in
  0 ≤ tick < deadline → deadline ≤ U64_MAX → deadline - tick < 2 ^ 63 → probe_loop (S fuel) target now deadline env 0 w = Some (false, probe_failure target t t2 w).
Proof.
  destruct (env 0%nat) as [[tick t] t2] eqn:E. intros Ht Hd Hw. cbn [probe_loop]. rewrite E. destruct (Z.ltb_spec (2 ^ 63) (u64_sub tick deadline)) as [_|Hle]; [done|]. exfalso. unfold u64_sub, U64_MAX in *.
  replace (tick - deadline) with (tick - deadline + 2 ^ 64 + (-1) * 2 ^ 64) in Hle by lia. rewrite Z.mod_add, Z.mod_small in Hle by lia. lia.
Qed.
End Run.

(** * Two concrete nodes *)

#[local] Existing Instances toy_ed toy_chacha toy_laws.

Lemma toy_can_send : can_send (toy_sender Byte.x02 4) (replicate 32 Byte.x02).
Proof. split; [split; [reflexivity|]; split; [reflexivity|]; intros E; discriminate E|right; left; by eexists|reflexivity|cbn; lia|cbn; unfold U64_MAX; lia]. Qed.

Lemma announced_role_is_taken_witness :
  ∃ wire e', MESH_ENGINE (receive 200 200 wire (toy_world toy_keys)).2 = Some e' ∧ local_role e' = Compute ∧ is_master e' = false.
Proof.
  destruct (announced_role_is_taken (toy_sender Byte.x02 4) (replicate 32 Byte.x02) 3 Compute no_globals (toy_world toy_keys) (after_heartbeats (default_caps 3 8) [2]) 4 200 200 toy_can_send) as (f & wire & _ & _ & _ & e' & He & Hr & _);
    [lia|reflexivity|cbn; lia|reflexivity|]. exists wire, e'. split; [exact He|]. apply Hr. reflexivity.
Defined.

Definition toy_node2 : World := mkWorld None no_globals (toy_sender Byte.x02 4) no_caches (mkStats 0 0 0 0) rx0 (replicate 4 None) [] (20, 0) 0 0 1 8.

Lemma heartbeat_introduces_witness :
  ∃ wire, let w' := (receive 200 200 wire (toy_world (mkKeys (replicate 16 None) 0 false))).2 in
    peer_slot 2 w' = Some (replicate 32 Byte.x02, 5) ∧ peer_caps 2 (PEER_CAPS (glob w')) = Some 8 ∧ (receive 201 201 wire w').1 = Drop.
Proof.
  destruct (heartbeat_introduces 4096 150 toy_node2 (replicate 32 Byte.x02) (toy_world (mkKeys (replicate 16 None) 0 false)) (after_heartbeats (default_caps 3 8) [2]) 200 200 toy_can_send) as (f & wire & _ & _ & H1 & H2 & _ & H3).
  - reflexivity.
  - reflexivity.
  - cbn. lia.
  - reflexivity.
  - reflexivity.
  - apply elem_of_cons. by left.
  - apply elem_of_cons. by left.
  - reflexivity.
  - vm_compute. reflexivity.
  - apply (list_elem_of_lookup_2 _ 5). vm_compute. reflexivity.
  - exists wire. cbv zeta in H1, H2, H3 |- *. split; [exact H1|]. split; [apply H2; intros E; discriminate E|]. by rewrite H3.
Defined.

End RxRun.
